(* ===== verification/_CoqProject ===== *)
-Q . S2P
Prelude.v
StdMap.v
LockTypes.v
LockManager.v
RWLock.v
LockInv.v
LockRefine.v
LockProps.v
CxxStd.v
Getopt.v
GzStream.v
ConvertTypes.v
Convert.v
ConvertInv.v
ConvertProps.v
Hypothesizer.v
HypoSpec.v
HypoFind.v
HypoWin.v
HypoProps.v
HypoInput.v
HypoInputProps.v
OptionParser.v
UsageText.v
OptionParserProps.v
HypoReport.v
HypoReportProps.v
HypoMain.v
ListHead.v
ListProps.v
HList.v
HListProps.v
RbTree.v
RbTreeRep.v
RbInsert.v
RbErase.v
RbRemove.v
DUtil.v
DUtilProps.v
GoBuffer.v
GoBufferProps.v
DwTypes.v
Dwarves.v
DwClass.v
DwUnits.v
DwLayout.v
DwTables.v
DwSize.v
DwHash.v
DwHashProps.v
DwDie.v
DwLoader.v
DwProcess.v
DwRecode.v
DwLoad.v
DwSample.v
DwRecodeProps.v
DwProcessProps.v
DwNames.v
DwPrint.v
DwRows.v
DwRowsProps.v
NameTable.v
KernelBinary.v
LayoutNames.v
Blacklist.v
ConvertMain.v
ConvertCsv.v
SfcTool.v
SfcProps.v
KcovLib.v
KcovProps.v
GcovIo.v
GcovIoProps.v
Bb2Lines.v
BbMain.v
BbTableProps.v
GcnoProps.v
BbCoverProps.v
BbMainProps.v
