(* ===== verification/Prelude.v ===== *)
(** * LockDoc tools: a verification development

    LockDoc derives the locking rules of an operating-system kernel from a
    recorded run.  Under src/, [convert] turns the trace of a run into tables of
    locks, transactions, allocations, accesses and stack traces; it reads the
    debugging information of the kernel image with a copy of the dwarves
    library.  [hypothesizer] reads, for every member of a data structure, the
    combinations of locks it was accessed under and finds the locking rule that
    explains them.  The tools under src/coverage measure how much of the kernel a
    recorded run has reached.  The development follows these programs function by
    function.

    ** Parts, files, sources

    - Shared: Prelude (machine integers, the state and error monad [M], errors),
      StdMap ([std::map] and [std::set] as lists sorted by key), CxxStd
      ([std::getline], [std::stoull], printing of numbers), Getopt (the C
      library's [getopt] and [getopt_long], which permute the words).
    - Command lines, optionparser.h and optionparser_ext.h of src/hypothesizer
      and src/coverage/sfctool: OptionParser (options in linked lists inside two
      arrays, the loop over the words, and the two actions that count and store);
      OptionParserProps has the proofs and the reading of a command line that the
      theorems of the programs refer to; UsageText has [printUsage] with its
      iterator over rows and columns and its ring buffer of wrapped lines.
    - Compressed files, src/convert/gzstream: GzStream (the stream buffer, the
      streams, and what [std::getline] does with them) on the interface [GzFile]
      for zlib, with its laws [GzFileLaws] and the proofs.
    - Locks and transactions, src/convert/main: LockTypes (rwlock.h, rlock.h,
      wlock.h, lockdoc_event.h), LockManager (lockmanager.h, lockmanager.cc),
      RWLock (rwlock.cc).  The state [LM] has one stack of transactions per
      context, the lock objects, the lock table and the rows of txns.csv and
      locks_held.csv.  Proofs in LockInv, LockRefine (against the abstract
      reader-writer lock [rw_step]) and LockProps.
    - Event loop, src/convert/main/convert.cc: ConvertTypes, Convert (a line of
      the trace, lock events, allocations, accesses, stack traces), NameTable
      (the callbacks of the layout printer), Blacklist, ConvertMain (the stages
      of [main], its command line and files), ConvertCsv (the text of the
      tables).  Proofs in ConvertInv and ConvertProps, and at the ends of
      NameTable, LayoutNames, ConvertMain and ConvertCsv.  Events call the lock
      manager, which is why the state of the loop contains an [LM].
    - Kernel image, src/convert/main/binaryread.cc: KernelBinary, on top of the
      dwarves files; LayoutNames shows what extracting layouts does to the
      registry of member names.  KernelBinary also has the opening of the image
      and the walks over directories and sections (dwarves.c, dutil.c).
    - Hypotheses, src/hypothesizer/hypothesizer.cc: HypoInput (the CSV
      input), Hypothesizer (enumeration of hypotheses, their graph, the
      strategies that select a winner), HypoReport (the reports, the loop over
      the members, the settings and the program from its words on).  Proofs in HypoInputProps,
      HypoSpec, HypoFind, HypoWin, HypoProps, HypoReportProps and HypoMain (the
      whole program).
    - Containers of the dwarves library, src/convert/dwarves: ListHead (the
      circular half of list.h), HList (the other half), RbTree (rbtree.h,
      rbtree.c), DUtil (dutil.h, dutil.c), GoBuffer (gobuffer.c, strings.c), each
      on a heap of its own, with proofs in ListProps (which ends with the loops
      over embedding structures); HListProps; RbTreeRep, RbInsert, RbErase
      and RbRemove; DUtilProps; GoBufferProps (which ends with
      gobuffer__compress).
    - Debugging information, same directory: DwTypes (the data of dwarves.h and
      dwarves_api.h), Dwarves, DwClass and DwUnits (dwarves.c), DwNames and
      DwPrint (dwarves_fprintf.c), DwHash (hash.h and the hash tables, whose chains
      are those of HList: the [dwarf_tag]s are the nodes), DwDie, DwLoader,
      DwProcess, DwRecode and DwLoad (dwarf_loader.c).  The state [dstate] maps addresses
      to objects; an object is a [struct tag] with the fields of the structure
      it was allocated as, so that a cast to another one is an error.  Proofs in
      DwLayout, DwTables, DwSize, DwRows, DwRowsProps,
      DwHashProps, DwRecodeProps and DwProcessProps; DwSample is a small debugging
      section to run the loader on.
    - Coverage, src/coverage: KcovLib (kcov/kcov-lib.cc, kcov/sortuniq.cc) records
      the addresses a program reaches, as a log of system calls; SfcTool
      (sfctool/sfctool.cc) paints maps of addresses along a curve; GcovIo
      (bb2lines/gcov-io.cpp) reads the notes of the compiler through the interface
      [GcovReader], on which Bb2Lines (bb2lines/main.cpp) builds its tables of
      basic blocks and reports the covered lines; BbMain adds the lookup of
      addresses (bb2lines/binaryread.cpp), the walk through the directory, the
      command line and [main].  Proofs in KcovProps, SfcProps, GcovIoProps (the laws
      [GcovReaderLaws] of the interface), BbTableProps, GcnoProps (against the
      laws), BbCoverProps and BbMainProps.

    ** How code is written here

    A function that changes state is a computation in [M S exn]: it returns a
    result and the next state, or an error.  Errors are the C++ exceptions, exit
    codes, failed assertions, [undefined] for undefined behaviour (a pointer
    that is not valid, an index out of range, a wrong cast), and [out_of_fuel].
    Integers are [Z] with the wrap-around written out ([u16], [u32], [u64],
    [s32]).  Pointers are addresses, 0 is NULL; [malloc] and [realloc] are
    parameters that may fail.  libdw, libdwfl and libbfd are classes whose
    methods are arbitrary functions; the table of the debugging format, the
    results of system calls, the contents of files and directories, the order in which
    [std::sort] leaves equal elements and in which a hash map is traversed
    likewise.

    ** Fuel

    Loops that are not structural take fuel.  Where it matters that they end,
    the theorem says how much is enough: twice the logarithm of the size for the
    red-black trees ([rb_fuel], [index_fuel]), the length of the list for
    list.h, the number of nodes there are for the chains of the hash tables (C40), the
    number of entries for the string lists, some amount that exists
    and every larger one for the hypothesizer (C7, C15, C19), the depth of the
    nesting for walks over tags (C34, C35), the number of transactions for the
    flush (C5).  [copy_fuel] and [type_fuel] are 65536 because the counters have
    16 bits; C18 shows that the former is not enough for exactly 65536 members,
    where the program does not end either.  The loader takes one unit for each
    call and each sibling; DwSample shows a unit that loads.  Reading notes takes
    no more rounds than the file has words (C36); GcnoProps has a malformed file
    that no fuel is enough for, as the program reads it for ever.  The loops over
    the words of a command line take the number of words (OptionParser, C28) or of
    their letters (Getopt), the walk through a directory the number of its entries,
    and all of them end (C28, C29, C39); the lists of options have at most as many
    elements as the store.  The loops of the usage text take fuel from the length
    of the row and of the texts, and from the width of the widest column, which
    shrinks in every round (C11).

    ** Theorems

    - C1-C5, locks and transactions: a lock operation, recursive or not, is a step
      of the abstract lock or throws exactly when there is none, and the one case in
      which it does neither is stated (C1); any sequence of operations without the
      recursive flag follows the abstract sequence; disciplined sequences never
      throw; what finishing a transaction pops, writes and restarts, and the stacks
      on which it dereferences the end iterator (C4); the final flush ends with empty
      stacks.  LockProps also has that new locks are free, and examples of what goes
      wrong.
    - C6, C8-C10, C38, C39, the converter: compressed files give back the lines that
      were written, except for a last line that the put-back area of the buffer
      overlaps (C6); the rows of the tables refer to each other consistently after
      any run, accesses lie in their allocations, member names and ids are in
      bijection; every file has its header, and looking the values up by the names of
      the columns gives the rows back (C8); C39 starts from the words of the command
      line.
    - C7, C15, C16, C18, C19, C23, the hypothesizer: what is read and how locks,
      members and combinations are numbered and counted (C18), which hypotheses are
      tested, how many observations each order of their locks has (C16), that the search for the
      winner ends with a tested hypothesis, what the report says, and that these
      stages make a program that ends, from its words on (C7).
    - C28, the option parser: it reads every command line, inside its arrays.
    - C11, the usage text: it is always printed, and a wrapped column loses nothing
      and keeps to its width.
    - C21, C22, C24-C27, C30, containers: lists, trees, string lists and interned
      strings do what their abstract sequences and sets do.
    - C12, C17, C20, C29, C36, coverage: the curves visit different pixels, the
      recorder prints exactly the recorded addresses, the buffered reader is a
      position in the words of a file, notes are read back - in files larger than the
      first buffer unless the name of a function is copied too late, which is
      undefined ([GcnoProps.stale_name]) -, and the report covers
      exactly the lines of the given addresses; C12 and C29 start from the words of
      the command line.
    - C13, C14, C31-C35, C37, C40, debugging information: sizes, holes and the flat
      layout of structures, the index of functions, the tables of tags (also when
      memory runs out), the hash tables of the loader, the recoding of references
      other than those of bit fields and functions, and what happens to entries the
      loader does not know, wherever they stand among their siblings.

    ** Not modelled

    - The overflow of the counters of readers and writers of a lock, which are
      [int]s in the source and unbounded here.
    - Messages on the terminal other than usage texts and summaries, and freeing at
      the end of the programs.
    - The macros and declarations of list.h and dwarves.h that nothing uses.
    - src/coverage/kcov/kcovtrace.c (a copy of a syzkaller tool whose [main] exits at once)
      and bb2lines/libiberty.h (a header of the GNU binutils that nothing includes).
    - src/manuals/files-vm/fork.c (a copy of a kernel file), the R, Python and
      shell scripts and the SQL queries. *)
From stdpp Require Export base option list numbers strings gmap sorting.
From Stdlib Require Export ZArith Lia.

Create HintDb lockdoc discriminated.
Declare Scope lockdoc_scope.
Delimit Scope lockdoc_scope with ld.

(** ** Machine integers *)

Section MachineInt.
Local Open Scope Z_scope.

(** Value of an integer converted to an unsigned type of [w] bits. *)
Definition wrap (w : Z) (x : Z) : Z := x mod 2 ^ w.

(** Value of an integer converted to a two's complement type of [w] bits. *)
Definition swrap (w : Z) (x : Z) : Z :=
  (x + 2 ^ (w - 1)) mod 2 ^ w - 2 ^ (w - 1).

Definition u8 := wrap 8.
Definition u16 := wrap 16.
Definition u32 := wrap 32.
Definition u64 := wrap 64.
Definition s32 := swrap 32.
Definition s64 := swrap 64.

Lemma wrap_range w x : 0 <= w -> 0 <= wrap w x < 2 ^ w.
Proof. intros. apply Z.mod_pos_bound. by apply Z.pow_pos_nonneg. Qed.

Lemma wrap_small w x : 0 <= x < 2 ^ w -> wrap w x = x.
Proof. apply Z.mod_small. Qed.

Lemma wrap_wrap w x : 0 <= w -> wrap w (wrap w x) = wrap w x.
Proof. intros. apply wrap_small. by apply wrap_range. Qed.

Lemma swrap_small w x :
  0 < w -> - 2 ^ (w - 1) <= x < 2 ^ (w - 1) -> swrap w x = x.
Proof.
  intros Hw Hx. unfold swrap.
  replace (2 ^ w) with (2 * 2 ^ (w - 1)) by (rewrite <- Z.pow_succ_r by lia; f_equal; lia).
  rewrite Z.mod_small by lia. lia.
Qed.

Lemma swrap_range w x : 0 < w -> - 2 ^ (w - 1) <= swrap w x < 2 ^ (w - 1).
Proof.
  intros Hw. unfold swrap.
  pose proof (Z.mod_pos_bound (x + 2 ^ (w - 1)) (2 ^ w)) as H.
  replace (2 ^ w) with (2 * 2 ^ (w - 1)) in * by (rewrite <- Z.pow_succ_r by lia; f_equal; lia).
  assert (0 < 2 ^ (w - 1)) by (apply Z.pow_pos_nonneg; lia). lia.
Qed.

Lemma u64_small x : 0 <= x < 2 ^ 64 -> u64 x = x.
Proof. apply wrap_small. Qed.
Lemma u32_small x : 0 <= x < 2 ^ 32 -> u32 x = x.
Proof. apply wrap_small. Qed.
Lemma u16_small x : 0 <= x < 2 ^ 16 -> u16 x = x.
Proof. apply wrap_small. Qed.
Lemma s32_small x : - 2 ^ 31 <= x < 2 ^ 31 -> s32 x = x.
Proof. intros. apply swrap_small; [lia | exact H]. Qed.

End MachineInt.

(** ** Failures *)

(** The ways a run can stop early: the C++ exceptions it
    throws, [exit(n)], and operations whose behaviour C++ leaves undefined. *)
Inductive exn :=
  | invalid_argument (what : string)
  | logic_error (what : string)
  | out_of_range (what : string)
  | exit_with (code : Z)
  | undefined (what : string)
  | out_of_fuel.

(** ** A state and exception monad

    [M S E A] is a computation over the state [S] that returns an [A] or stops
    with an exception of type [E].  stdpp's notation [x ← c; k] binds. *)

Definition M (S E A : Type) : Type := S -> E + (A * S).

#[export] Instance M_ret S E : MRet (M S E) := fun A a s => inr (a, s).
#[export] Instance M_bind S E : MBind (M S E) :=
  fun A B f c s => match c s with inl e => inl e | inr (a, s') => f a s' end.
#[export] Instance M_fmap S E : FMap (M S E) :=
  fun A B f c s => match c s with inl e => inl e | inr (a, s') => inr (f a, s') end.

Definition raise {S E A} (e : E) : M S E A := fun _ => inl e.
Definition get_st {S E} : M S E S := fun s => inr (s, s).
Definition put_st {S E} (s : S) : M S E unit := fun _ => inr (tt, s).
Definition gets {S E A} (f : S -> A) : M S E A := fun s => inr (f s, s).
Definition modify {S E} (f : S -> S) : M S E unit := fun s => inr (tt, f s).

(** Equations for running and inverting a bind. *)
Lemma dbind {S E A B} (c : M S E A) (k : A -> M S E B) st a st1 :
  c st = inr (a, st1) -> (c ≫= k) st = k a st1.
Proof. unfold mbind, M_bind. by intros ->. Qed.

Lemma dbind_inv {S E A B} (c : M S E A) (k : A -> M S E B) st r :
  (c ≫= k) st = inr r -> exists a st1, c st = inr (a, st1) /\ k a st1 = inr r.
Proof. unfold mbind, M_bind. destruct (c st) as [|[a st1]]; [done|]. eauto. Qed.

Lemma dbind_assoc {S E A B C} (c : M S E A) (k : A -> M S E B) (k' : B -> M S E C) st :
  ((c ≫= k) ≫= k') st = (c ≫= (fun a => k a ≫= k')) st.
Proof. unfold mbind, M_bind. by destruct (c st) as [|[]]. Qed.

Lemma dret {S E A B} (a : A) (k : A -> M S E B) st : (mret a ≫= k) st = k a st.
Proof. done. Qed.

(** The run of a program yields the value [a] and the state [s']. *)
Definition runs {S E A} (c : M S E A) (s : S) (a : A) (s' : S) : Prop :=
  c s = inr (a, s').

Section MonadLemmas.
Context {S E : Type}.

Lemma runs_bind {A B} (c : M S E A) (k : A -> M S E B) s a s1 b s2 :
  runs c s a s1 -> runs (k a) s1 b s2 -> runs (c ≫= k) s b s2.
Proof. unfold runs, mbind, M_bind. by intros ->. Qed.

Lemma runs_bind_inv {A B} (c : M S E A) (k : A -> M S E B) s b s2 :
  runs (c ≫= k) s b s2 -> exists a s1, runs c s a s1 /\ runs (k a) s1 b s2.
Proof.
  unfold runs, mbind, M_bind. destruct (c s) as [|[a s1]] eqn:H; [done|]. eauto.
Qed.

Lemma runs_ret {A} (a : A) (s : S) : runs (mret a : M S E A) s a s.
Proof. reflexivity. Qed.

Lemma runs_det {A} (c : M S E A) s a1 s1 a2 s2 :
  runs c s a1 s1 -> runs c s a2 s2 -> a1 = a2 /\ s1 = s2.
Proof. unfold runs. intros H1 H2. rewrite H1 in H2. by simplify_eq. Qed.

End MonadLemmas.

(** ** Sorted lists *)

Lemma sorted_mid {A} (R : A -> A -> Prop) l1 x l2 :
  StronglySorted R (l1 ++ x :: l2) -> Forall (fun y => R y x) l1 /\ Forall (R x) l2.
Proof.
  induction l1 as [|y l1 IH]; simpl; intros H; apply StronglySorted_inv in H as [H1 H2].
  - split; [constructor|done].
  - destruct (IH H1) as [? ?]. split; [|done]. apply Forall_cons. split; [|done].
    rewrite Forall_forall in H2. apply H2. set_solver.
Qed.

Lemma sorted_insert {A} (R : A -> A -> Prop) l1 x l2 :
  StronglySorted R (l1 ++ l2) -> Forall (fun y => R y x) l1 -> Forall (R x) l2 ->
  StronglySorted R (l1 ++ x :: l2).
Proof.
  induction l1 as [|y l1 IH]; simpl; intros Hs H1 H2; [by constructor|].
  apply StronglySorted_inv in Hs as [Hs Hy]. apply Forall_cons in H1 as [Hyx H1].
  constructor; [by apply IH|]. rewrite Forall_app in Hy |- *. destruct Hy. split; [done|].
  by constructor.
Qed.

Lemma sorted_remove {A} (R : A -> A -> Prop) l1 l2 l3 :
  StronglySorted R (l1 ++ l2 ++ l3) -> StronglySorted R (l1 ++ l3).
Proof.
  induction l1 as [|y l1 IH]; simpl.
  - induction l2 as [|z l2 IH]; simpl; [done|]. intros [? _]%StronglySorted_inv. auto.
  - intros [Hs Hy]%StronglySorted_inv. constructor; [auto|]. rewrite !Forall_app in *. tauto.
Qed.

(** ** Addresses of C objects; 0 is the null pointer *)

Definition loc : Type := Z.

(** [C ;; k] for computations whose value is not used. *)
Notation "c ;;; k" := (mbind (fun _ => k) c)
  (at level 100, k at level 200, right associativity) : lockdoc_scope.
Open Scope lockdoc_scope.

(** ** Sorted lists *)

Lemma strongly_sorted_impl {A} (R S : A -> A -> Prop) l :
  (forall a b, R a b -> S a b) -> StronglySorted R l -> StronglySorted S l.
Proof. intros HRS. induction 1; constructor; [done|]. eapply Forall_impl; eauto. Qed.
