(* ===== verification/StdMap.v ===== *)
(** * std::map as an association list sorted by key

    The C++ sources iterate over [std::map] and [std::set] in key order, insert
    with [emplace] and [operator[]], look up with [find], and use
    [upper_bound]; this file models those operations, with the key order given
    by a class, and proves the laws the components use. *)
From S2P Require Import Prelude.

(** A key type with the strict total order [operator<] of the container. *)
Class OrdKey (K : Type) := {
  kcmp : K -> K -> comparison;
  kcmp_eq : forall a b, kcmp a b = Eq <-> a = b;
  kcmp_antisym : forall a b, kcmp b a = CompOpp (kcmp a b);
  kcmp_trans : forall a b c, kcmp a b = Lt -> kcmp b c = Lt -> kcmp a c = Lt
}.

#[export] Program Instance OrdKey_Z : OrdKey Z := {| kcmp := Z.compare |}.
Next Obligation. apply Z.compare_eq_iff. Qed.
Next Obligation. intros; apply Z.compare_antisym. Qed.
Next Obligation. intros a b c; rewrite !Z.compare_lt_iff; lia. Qed.

(** Lexicographic order of [std::vector] (and, on code points, [std::string]). *)
Fixpoint lex_cmp {A} (cmp : A -> A -> comparison) (l1 l2 : list A) : comparison :=
  match l1, l2 with
  | [], [] => Eq
  | [], _ :: _ => Lt
  | _ :: _, [] => Gt
  | x :: l1', y :: l2' =>
      match cmp x y with Eq => lex_cmp cmp l1' l2' | c => c end
  end.

#[export] Program Instance OrdKey_list `{OrdKey A} : OrdKey (list A) :=
  {| kcmp := lex_cmp kcmp |}.
Next Obligation.
  intros A ? l1. induction l1 as [|x l1 IH]; intros [|y l2]; simpl; try (split; congruence).
  destruct (kcmp x y) eqn:E; [apply kcmp_eq in E as ->; rewrite IH; split; congruence| |];
    split; try congruence; intros [= -> ->]; assert (kcmp y y = Eq) by (by apply kcmp_eq); congruence.
Qed.
Next Obligation.
  intros A ? l1. induction l1 as [|x l1 IH]; intros [|y l2]; simpl; try done.
  rewrite (kcmp_antisym x y). destruct (kcmp x y); simpl; auto.
Qed.
Next Obligation.
  intros A ? l1. induction l1 as [|x l1 IH]; intros [|y l2] [|z l3]; simpl; try done.
  destruct (kcmp x y) eqn:E1; try done; destruct (kcmp y z) eqn:E2; try done; intros H1 H2.
  - apply kcmp_eq in E1 as ->. rewrite E2. eauto.
  - apply kcmp_eq in E1 as ->. by rewrite E2.
  - apply kcmp_eq in E2 as ->. by rewrite E1.
  - by rewrite (kcmp_trans x y z).
Qed.

Definition ascii_cmp (a b : Ascii.ascii) : comparison :=
  N.compare (Ascii.N_of_ascii a) (Ascii.N_of_ascii b).

#[export] Program Instance OrdKey_ascii : OrdKey Ascii.ascii := {| kcmp := ascii_cmp |}.
Next Obligation.
  intros a b. unfold ascii_cmp. rewrite N.compare_eq_iff. split; [|by intros ->].
  intros H. rewrite <- (Ascii.ascii_N_embedding a), <- (Ascii.ascii_N_embedding b). by rewrite H.
Qed.
Next Obligation. intros; apply N.compare_antisym. Qed.
Next Obligation. intros a b c; unfold ascii_cmp; rewrite !N.compare_lt_iff; lia. Qed.

#[export] Program Instance OrdKey_string : OrdKey string :=
  {| kcmp := fun a b =>
       lex_cmp ascii_cmp (String.list_ascii_of_string a) (String.list_ascii_of_string b) |}.
Next Obligation.
  intros a b. change ascii_cmp with (kcmp (K:=Ascii.ascii)).
  change (lex_cmp kcmp) with (kcmp (K:=list Ascii.ascii)). rewrite kcmp_eq. split; [|by intros ->].
  intros H. rewrite <- (String.string_of_list_ascii_of_string a),
    <- (String.string_of_list_ascii_of_string b). by rewrite H.
Qed.
Next Obligation.
  intros a b. exact (kcmp_antisym (String.list_ascii_of_string a) (String.list_ascii_of_string b)).
Qed.
Next Obligation.
  intros a b c. exact (kcmp_trans (String.list_ascii_of_string a) (String.list_ascii_of_string b)
    (String.list_ascii_of_string c)).
Qed.

(** [std::pair] compares its first components, then the second ones. *)
Definition prod_cmp `{OrdKey A, OrdKey B} (p q : A * B) : comparison :=
  match kcmp p.1 q.1 with Eq => kcmp p.2 q.2 | c => c end.

#[export] Program Instance OrdKey_prod `{OrdKey A, OrdKey B} : OrdKey (A * B) :=
  {| kcmp := prod_cmp |}.
Next Obligation.
  intros A ? B ? [a b] [a' b']; unfold prod_cmp; simpl. destruct (kcmp a a') eqn:E.
  - apply kcmp_eq in E as ->. rewrite kcmp_eq. split; congruence.
  - split; [done|]. intros [= -> ->]. assert (kcmp a' a' = Eq) by (by apply kcmp_eq). congruence.
  - split; [done|]. intros [= -> ->]. assert (kcmp a' a' = Eq) by (by apply kcmp_eq). congruence.
Qed.
Next Obligation.
  intros A ? B ? [a b] [a' b']; unfold prod_cmp; simpl. rewrite (kcmp_antisym a a').
  destruct (kcmp a a'); simpl; auto using kcmp_antisym.
Qed.
Next Obligation.
  intros A ? B ? [a b] [a' b'] [a'' b'']; unfold prod_cmp; simpl.
  destruct (kcmp a a') eqn:E1; try done; destruct (kcmp a' a'') eqn:E2; try done; intros H1 H2.
  - apply kcmp_eq in E1 as ->. rewrite E2. eauto using kcmp_trans.
  - apply kcmp_eq in E1 as ->. by rewrite E2.
  - apply kcmp_eq in E2 as ->. by rewrite E1.
  - by rewrite (kcmp_trans a a' a'').
Qed.

(** ** Operations *)

Section SMap.
Context {K : Type} `{OrdKey K} {V : Type}.
Implicit Types (m : list (K * V)) (k : K) (v : V).

Fixpoint sm_find k m : option V :=
  match m with
  | [] => None
  | (k', v) :: m' => match kcmp k k' with Eq => Some v | _ => sm_find k m' end
  end.

(** [m[k] = v]: overwrites the entry, or inserts one in order. *)
Fixpoint sm_set k v m : list (K * V) :=
  match m with
  | [] => [(k, v)]
  | (k', v') :: m' =>
      match kcmp k k' with
      | Eq => (k, v) :: m'
      | Lt => (k, v) :: (k', v') :: m'
      | Gt => (k', v') :: sm_set k v m'
      end
  end.

(** [m.emplace(k, v)]: inserts only if the key is absent; the boolean is
    [.second] of the returned pair. *)
Definition sm_emplace k v m : list (K * V) * bool :=
  match sm_find k m with
  | Some _ => (m, false)
  | None => (sm_set k v m, true)
  end.

Fixpoint sm_erase k m : list (K * V) :=
  match m with
  | [] => []
  | (k', v') :: m' =>
      match kcmp k k' with Eq => sm_erase k m' | _ => (k', v') :: sm_erase k m' end
  end.

(** The entry just before [m.upper_bound(k)]: the last one with a key not
    greater than [k]; [None] when [upper_bound] is [begin()]. *)
Fixpoint sm_floor k m : option (K * V) :=
  match m with
  | [] => None
  | (k', v') :: m' =>
      match kcmp k k' with
      | Lt => None
      | _ => match sm_floor k m' with Some e => Some e | None => Some (k', v') end
      end
  end.

Fixpoint sm_sorted m : Prop :=
  match m with
  | [] => True
  | (k, _) :: m' => Forall (fun e => kcmp k e.1 = Lt) m' /\ sm_sorted m'
  end.

Lemma kcmp_refl k : kcmp k k = Eq.
Proof. by apply kcmp_eq. Qed.

Lemma kcmp_gt_lt k k' : kcmp k k' = Gt -> kcmp k' k = Lt.
Proof. intros E. rewrite (kcmp_antisym k k'), E. done. Qed.

Lemma kcmp_ne k k' : k <> k' -> kcmp k k' <> Eq.
Proof. by rewrite kcmp_eq. Qed.

Lemma sm_find_set_eq k v m : sm_find k (sm_set k v m) = Some v.
Proof.
  induction m as [|[k' v'] m IH]; simpl; [by rewrite kcmp_refl|].
  destruct (kcmp k k') eqn:E; simpl; rewrite ?kcmp_refl, ?E; done.
Qed.

Lemma sm_find_set_ne k k' v m : k <> k' -> sm_find k (sm_set k' v m) = sm_find k m.
Proof.
  intros Hne. induction m as [|[k2 v2] m IH]; simpl.
  - pose proof (kcmp_ne _ _ Hne). by destruct (kcmp k k').
  - destruct (kcmp k' k2) eqn:E; simpl.
    + apply kcmp_eq in E as ->. pose proof (kcmp_ne _ _ Hne). by destruct (kcmp k k2).
    + pose proof (kcmp_ne _ _ Hne). by destruct (kcmp k k').
    + by rewrite IH.
Qed.

Lemma sm_find_erase_eq k m : sm_find k (sm_erase k m) = None.
Proof.
  induction m as [|[k' v'] m IH]; simpl; [done|].
  destruct (kcmp k k') eqn:E; simpl; rewrite ?E; done.
Qed.

Lemma sm_find_erase_ne k k' m : k <> k' -> sm_find k (sm_erase k' m) = sm_find k m.
Proof.
  intros Hne. induction m as [|[k2 v2] m IH]; simpl; [done|].
  destruct (kcmp k' k2) eqn:E; simpl; rewrite IH; try done.
  apply kcmp_eq in E as ->. pose proof (kcmp_ne _ _ Hne). by destruct (kcmp k k2).
Qed.

Lemma sm_find_elem k v m : sm_find k m = Some v -> (k, v) ∈ m.
Proof.
  induction m as [|[k' v'] m IH]; simpl; [done|].
  destruct (kcmp k k') eqn:E; [apply kcmp_eq in E as ->; intros [= ->]; left| |]; right; eauto.
Qed.

Lemma sm_set_elem k v m e : e ∈ sm_set k v m -> e = (k, v) \/ e ∈ m.
Proof.
  induction m as [|[k' v'] m IH]; simpl; [rewrite list_elem_of_singleton; auto|].
  destruct (kcmp k k'); rewrite ?elem_of_cons; intuition auto.
Qed.

Lemma sm_find_None_elem k v m : sm_find k m = None -> (k, v) ∉ m.
Proof.
  induction m as [|[k' v'] m IH]; simpl; [by intros _ ?%elem_of_nil|].
  destruct (kcmp k k') eqn:E; [done| |]; intros Hf;
    rewrite elem_of_cons; intros [[= -> ->]|?]; try (rewrite kcmp_refl in E; done); by apply IH.
Qed.

Lemma sm_sorted_lt_find k m :
  Forall (fun e => kcmp k e.1 = Lt) m -> sm_find k m = None.
Proof.
  induction 1 as [|[k' v'] m Hk Hm IH]; simpl in *; [done|]. by rewrite Hk.
Qed.

Lemma sm_elem_find k v m : sm_sorted m -> (k, v) ∈ m -> sm_find k m = Some v.
Proof.
  induction m as [|[k' v'] m IH]; simpl; [by intros _ ?%elem_of_nil|].
  intros [Hlt Hs] [[= -> ->]|He]%elem_of_cons; [by rewrite kcmp_refl|].
  rewrite Forall_forall in Hlt. specialize (Hlt _ He). simpl in Hlt.
  assert (kcmp k k' = Gt) as -> by (by rewrite (kcmp_antisym k' k), Hlt). eauto.
Qed.

Lemma sm_sorted_set k v m : sm_sorted m -> sm_sorted (sm_set k v m).
Proof.
  induction m as [|[k' v'] m IH]; simpl; [done|]. intros [Hlt Hs].
  destruct (kcmp k k') eqn:E; simpl.
  - by apply kcmp_eq in E as ->.
  - split; [|done]. constructor; [done|]. eapply Forall_impl; [exact Hlt|].
    intros e. simpl. eauto using kcmp_trans.
  - split; [|auto]. apply Forall_forall. intros e [->|He]%sm_set_elem; simpl.
    + by apply kcmp_gt_lt.
    + by rewrite Forall_forall in Hlt; apply Hlt.
Qed.

Lemma sm_sorted_emplace k v m : sm_sorted m -> sm_sorted (sm_emplace k v m).1.
Proof. unfold sm_emplace. destruct (sm_find k m); simpl; auto using sm_sorted_set. Qed.

Lemma sm_erase_elem k m e : e ∈ sm_erase k m -> e ∈ m.
Proof.
  induction m as [|[k' v'] m IH]; simpl; [done|].
  destruct (kcmp k k'); rewrite ?elem_of_cons; intuition auto.
Qed.

Lemma sm_sorted_erase k m : sm_sorted m -> sm_sorted (sm_erase k m).
Proof.
  induction m as [|[k' v'] m IH]; simpl; [done|]. intros [Hlt Hs].
  destruct (kcmp k k') eqn:E; simpl; auto; (split; [|auto]);
    apply Forall_forall; intros e He%sm_erase_elem; rewrite Forall_forall in Hlt; auto.
Qed.

(** A new key adds its entry, an erased key loses it. *)
Lemma sm_set_perm k v m : sm_find k m = None -> sm_set k v m ≡ₚ (k, v) :: m.
Proof.
  induction m as [|[k' v'] m IH]; simpl; [done|]. destruct (kcmp k k'); [done|done|].
  intros Hf. rewrite IH by done. apply Permutation_swap.
Qed.

Lemma sm_erase_absent k m : sm_find k m = None -> sm_erase k m = m.
Proof.
  induction m as [|[k' v'] m IH]; simpl; [done|]. destruct (kcmp k k'); [done|..];
    intros Hf; by rewrite IH.
Qed.

Lemma sm_erase_perm k v m : sm_sorted m -> sm_find k m = Some v -> m ≡ₚ (k, v) :: sm_erase k m.
Proof.
  induction m as [|[k' v'] m IH]; simpl; [done|]. intros [Hlt Hs].
  destruct (kcmp k k') eqn:E.
  - apply kcmp_eq in E as ->. intros [= ->]. rewrite sm_erase_absent; [done|].
    clear IH Hs. induction m as [|[k'' v''] m IH]; simpl; [done|].
    inversion Hlt as [|? ? H1 H2]; subst. simpl in H1. rewrite H1. auto.
  - intros Hf. rewrite (IH Hs Hf) at 1. apply Permutation_swap.
  - intros Hf. rewrite (IH Hs Hf) at 1. apply Permutation_swap.
Qed.

Lemma sm_sorted_filter (P : K * V -> Prop) `{!forall e, Decision (P e)} m :
  sm_sorted m -> sm_sorted (filter P m).
Proof.
  induction m as [|[k v] m IH]; simpl; [done|]. intros [Hlt Hs].
  rewrite filter_cons. case_decide; simpl; auto. split; [|auto].
  rewrite Forall_forall in *. intros e [_ He]%list_elem_of_filter. auto.
Qed.

(** [sm_floor] returns the greatest entry whose key is not above [k]. *)
Lemma sm_floor_spec k m :
  sm_sorted m ->
  match sm_floor k m with
  | Some (k', v') => sm_find k' m = Some v' /\ kcmp k k' <> Lt /\
      forall k2 v2, sm_find k2 m = Some v2 -> kcmp k k2 <> Lt -> kcmp k' k2 <> Lt
  | None => forall k2 v2, sm_find k2 m = Some v2 -> kcmp k k2 = Lt
  end.
Proof.
  induction m as [|[k1 v1] m IH]; simpl; [done|]. intros [Hlt Hs]. specialize (IH Hs).
  destruct (kcmp k k1) eqn:E.
  2:{ intros k2 v2. destruct (kcmp k2 k1) eqn:E2.
      - apply kcmp_eq in E2 as ->. done.
      - intros Hf%sm_find_elem. rewrite Forall_forall in Hlt.
        specialize (Hlt _ Hf). simpl in Hlt. eauto using kcmp_trans.
      - intros Hf%sm_find_elem. rewrite Forall_forall in Hlt.
        specialize (Hlt _ Hf). simpl in Hlt. eauto using kcmp_trans. }
  all: destruct (sm_floor k m) as [[k' v']|].
  all: assert (forall k2 v2, sm_find k2 m = Some v2 -> kcmp k1 k2 = Lt) as Hall
    by (intros k2 v2 Hf%sm_find_elem; rewrite Forall_forall in Hlt; apply (Hlt _ Hf)).
  1,3: destruct IH as (Hf & Hnl & Hmax); pose proof (Hall _ _ Hf) as Hk1;
    (split; [rewrite (kcmp_antisym k1 k'), Hk1; done|]); (split; [done|]);
    intros k2 v2; destruct (kcmp k2 k1) eqn:E2; eauto;
    apply kcmp_eq in E2 as ->; intros _ _; rewrite (kcmp_antisym k1 k'), Hk1; done.
  all: rewrite kcmp_refl; (split; [done|]); (split; [congruence|]);
    intros k2 v2; destruct (kcmp k2 k1) eqn:E2;
    [apply kcmp_eq in E2 as ->; intros _ _; by rewrite kcmp_refl| |];
    intros Hf Hn; exfalso; apply Hn; eauto.
Qed.

End SMap.

(** [std::set<K>] as a sorted list. *)
Section SSet.
Context {K : Type} `{OrdKey K}.

Fixpoint ss_insert (k : K) (s : list K) : list K :=
  match s with
  | [] => [k]
  | k' :: s' =>
      match kcmp k k' with
      | Eq => s
      | Lt => k :: s
      | Gt => k' :: ss_insert k s'
      end
  end.

Lemma ss_insert_elem k s x : x ∈ ss_insert k s <-> x = k \/ x ∈ s.
Proof.
  induction s as [|k' s IH]; simpl; [by rewrite list_elem_of_singleton, elem_of_nil; intuition|].
  destruct (kcmp k k') eqn:E; rewrite ?elem_of_cons.
  - apply kcmp_eq in E as ->. intuition.
  - done.
  - rewrite IH. intuition.
Qed.

Definition ss_sorted (s : list K) : Prop := StronglySorted (fun a b => kcmp a b = Lt) s.

Lemma ss_sorted_insert k s : ss_sorted s -> ss_sorted (ss_insert k s).
Proof.
  unfold ss_sorted. induction 1 as [|k' s Hs IH Hlt]; simpl; [repeat constructor|].
  destruct (kcmp k k') eqn:E.
  - by constructor.
  - constructor; [by constructor|]. constructor; [done|].
    eapply Forall_impl; [exact Hlt|]. eauto using kcmp_trans.
  - constructor; [done|]. apply Forall_forall. intros x [->|Hx]%ss_insert_elem.
    + by apply kcmp_gt_lt.
    + rewrite Forall_forall in Hlt. auto.
Qed.

End SSet.

#[export] Hint Resolve sm_sorted_set sm_sorted_emplace sm_sorted_erase ss_sorted_insert
  sm_find_set_eq sm_find_erase_eq : lockdoc.
