(* ===== verification/LockTypes.v ===== *)
(** * Locks: rwlock.h, rlock.h, wlock.h and lockdoc_event.h

    The lock object, its virtual methods, and the rows of locks.csv.  A lock
    pointer is the index of the object in the list of objects created by
    [new]: the sources never [delete] a lock, so a pointer stays valid after
    its entry has left [LockManager::m_locks]. *)
From S2P Require Import Prelude StdMap.
Local Open Scope string_scope.
Local Open Scope Z_scope.

(** Pseudo-lock addresses and names (lockdoc_event.h). *)
Definition PSEUDOLOCK_ADDR_RCU : Z := 66.
Definition PSEUDOLOCK_ADDR_PREEMPT : Z := 67.
Definition PSEUDOLOCK_ADDR_HARDIRQ : Z := 68.
Definition PSEUDOLOCK_ADDR_SOFTIRQ : Z := 69.
Definition PSEUDOLOCK_NAME_RCU : string := "rcu".
Definition PSEUDOLOCK_NAME_HARDIRQ : string := "hardirq".
Definition PSEUDOLOCK_NAME_SOFTIRQ : string := "softirq".
Definition PSEUDOLOCK_VAR : string := "static".
Definition LOCK_FLAGS_RECURSIVE : Z := 1.

Inductive LOCK_OP := P_READ | P_WRITE | V_READ | V_WRITE.
Inductive SUB_LOCK := READER_LOCK | WRITER_LOCK.

#[export] Instance LOCK_OP_eq_dec : EqDecision LOCK_OP.
Proof. solve_decision. Defined.
#[export] Instance SUB_LOCK_eq_dec : EqDecision SUB_LOCK.
Proof. solve_decision. Defined.

Record LockPos := mkLockPos {
  lp_subLock : SUB_LOCK;
  lp_start : Z;        (* unsigned long long *)
  lp_lastLine : Z;     (* int *)
  lp_lastFile : string
}.

(** The dynamic class of a lock object. *)
Inductive lock_class := class_RWLock | class_RLock | class_WLock.

Record RWLock := mkRWLock {
  dyn_class : lock_class;
  read_id : Z;
  write_id : Z;
  lockAddress : Z;
  lock_flags : Z;
  reader_count : Z;
  writer_count : Z;
  allocation_id : Z;
  lockType : string;
  lockVarName : string;
  lastNPos : list LockPos     (* std::stack, top first *)
}.

(** The constructor; a null [_lockVarName] leaves the name empty. *)
Definition new_RWLock (cls : lock_class) (_lockAddress _allocID : Z) (_lockType : string)
    (_lockVarName : option string) (_flags : Z) : RWLock :=
  {| dyn_class := cls; read_id := 0; write_id := 0; lockAddress := _lockAddress;
     lock_flags := _flags; reader_count := 0; writer_count := 0;
     allocation_id := _allocID; lockType := _lockType;
     lockVarName := match _lockVarName with Some n => n | None => EmptyString end;
     lastNPos := [] |}.

Definition set_ids (r w : Z) (l : RWLock) : RWLock :=
  mkRWLock (dyn_class l) r w (lockAddress l) (lock_flags l) (reader_count l)
    (writer_count l) (allocation_id l) (lockType l) (lockVarName l) (lastNPos l).
Definition set_flags (f : Z) (l : RWLock) : RWLock :=
  mkRWLock (dyn_class l) (read_id l) (write_id l) (lockAddress l) f (reader_count l)
    (writer_count l) (allocation_id l) (lockType l) (lockVarName l) (lastNPos l).
Definition set_reader_count (n : Z) (l : RWLock) : RWLock :=
  mkRWLock (dyn_class l) (read_id l) (write_id l) (lockAddress l) (lock_flags l) n
    (writer_count l) (allocation_id l) (lockType l) (lockVarName l) (lastNPos l).
Definition set_writer_count (n : Z) (l : RWLock) : RWLock :=
  mkRWLock (dyn_class l) (read_id l) (write_id l) (lockAddress l) (lock_flags l)
    (reader_count l) n (allocation_id l) (lockType l) (lockVarName l) (lastNPos l).
Definition set_lastNPos (ps : list LockPos) (l : RWLock) : RWLock :=
  mkRWLock (dyn_class l) (read_id l) (write_id l) (lockAddress l) (lock_flags l)
    (reader_count l) (writer_count l) (allocation_id l) (lockType l) (lockVarName l) ps.

(** [sql_null_if(var, cond)]: the SQL null marker is [None]. *)
Definition sql_null_if {A} (var : A) (cond : bool) : option A :=
  if cond then None else Some var.

Definition isPseudoLock (addr : Z) : bool :=
  (addr =? PSEUDOLOCK_ADDR_RCU) || (addr =? PSEUDOLOCK_ADDR_SOFTIRQ)
  || (addr =? PSEUDOLOCK_ADDR_HARDIRQ).

(** The overrides of [RLock] and [WLock]: the counter of ids is passed by
    reference, and an unused sub lock gets the id -1, converted to
    [unsigned long long]. *)
Definition RLock_initIDs (l : RWLock) (id : Z) : RWLock * Z := (set_ids id (u64 (-1)) l, u64 (id + 1)).
Definition RLock_isHeld (l : RWLock) : bool := 0 <? reader_count l.
Definition RLock_getID (l : RWLock) (subLock : SUB_LOCK) : exn + Z :=
  match subLock with
  | READER_LOCK => inr (read_id l)
  | WRITER_LOCK => inl (invalid_argument "ID for writer sub lock requested.")
  end.
Definition WLock_initIDs (l : RWLock) (id : Z) : RWLock * Z := (set_ids (u64 (-1)) id l, u64 (id + 1)).
Definition WLock_isHeld (l : RWLock) : bool := 0 <? writer_count l.
Definition WLock_getID (l : RWLock) (subLock : SUB_LOCK) : exn + Z :=
  match subLock with
  | WRITER_LOCK => inr (write_id l)
  | READER_LOCK => inl (invalid_argument "ID for reader sub lock requested.")
  end.
Arguments RLock_initIDs _ _ /.
Arguments RLock_isHeld _ /.
Arguments WLock_initIDs _ _ /.
Arguments WLock_isHeld _ /.

(** The virtual methods. *)
Definition initIDs (l : RWLock) (id : Z) : RWLock * Z :=
  match dyn_class l with
  | class_RWLock => (set_ids id (u64 (id + 1)) l, u64 (u64 (id + 1) + 1))
  | class_RLock => RLock_initIDs l id
  | class_WLock => WLock_initIDs l id
  end.

Definition isHeld (l : RWLock) : bool :=
  match dyn_class l with
  | class_RWLock => (0 <? reader_count l) || (0 <? writer_count l)
  | class_RLock => RLock_isHeld l
  | class_WLock => WLock_isHeld l
  end.

Definition getID (l : RWLock) (subLock : SUB_LOCK) : exn + Z :=
  match dyn_class l with
  | class_RWLock => match subLock with READER_LOCK => inr (read_id l) | WRITER_LOCK => inr (write_id l) end
  | class_RLock => RLock_getID l subLock
  | class_WLock => WLock_getID l subLock
  end.

(** A row of locks.csv. *)
Record lock_row := mkLockRow {
  lr_id : Z; lr_address : Z; lr_embedded_in : option Z; lr_type : string;
  lr_sub_lock : SUB_LOCK; lr_var_name : option string; lr_flags : Z
}.

Definition writeWriterLock (l : RWLock) : lock_row :=
  mkLockRow (write_id l) (lockAddress l) (sql_null_if (allocation_id l) (allocation_id l =? 0))
    (lockType l) WRITER_LOCK
    (sql_null_if (lockVarName l) (bool_decide (lockVarName l = EmptyString))) (lock_flags l).
Definition writeReaderLock (l : RWLock) : lock_row :=
  mkLockRow (read_id l) (lockAddress l) (sql_null_if (allocation_id l) (allocation_id l =? 0))
    (lockType l) READER_LOCK
    (sql_null_if (lockVarName l) (bool_decide (lockVarName l = EmptyString))) (lock_flags l).

(** [writeLock]: the rows appended to locks.csv, in order. *)
Definition RLock_writeLock (l : RWLock) : list lock_row := [writeReaderLock l].
Definition WLock_writeLock (l : RWLock) : list lock_row := [writeWriterLock l].
Definition writeLock (l : RWLock) : list lock_row :=
  match dyn_class l with
  | class_RWLock => [writeWriterLock l; writeReaderLock l]
  | class_RLock => RLock_writeLock l
  | class_WLock => WLock_writeLock l
  end.

(** The sub locks an object of each class has. *)
Definition has_sub_lock (c : lock_class) (sub : SUB_LOCK) : bool :=
  match c, sub with
  | class_RWLock, _ | class_RLock, READER_LOCK | class_WLock, WRITER_LOCK => true
  | _, _ => false
  end.

Lemma getID_has_sub_lock l sub :
  has_sub_lock (dyn_class l) sub = true -> exists id, getID l sub = inr id.
Proof. unfold getID. destruct (dyn_class l), sub; simpl; try done; eauto. Qed.
