(* ===== verification/LockManager.v ===== *)
(** * The transaction stacks: lockmanager.h and lockmanager.cc

    One stack of nested transactions (TXNs) per execution context.  A stack is
    the [std::deque] front first, so the active TXN is its last element. *)
From S2P Require Import Prelude StdMap LockTypes.
Local Open Scope string_scope.
Local Open Scope Z_scope.

Record TXN := mkTXN {
  txn_id : Z;
  start_ts : Z;
  start_ctx : Z;
  memAccessCounter : Z;
  txn_lock : nat;           (* RWLock* *)
  txn_subLock : SUB_LOCK
}.

(** Rows of txns.csv and locks_held.csv. *)
Record txn_row := mkTxnRow {
  tr_id : Z; tr_start_ts : Z; tr_start_ctx : Z; tr_end_ts : Z; tr_end_ctx : Z }.
Record held_row := mkHeldRow {
  hr_txn_id : Z; hr_lock_id : Z; hr_start : Z; hr_last_file : string; hr_last_line : Z }.

(** A message on stderr; those about a lock carry the lock, its id and sub
    lock, as printed by [RWLock::toString]. *)
Inductive log_entry :=
  | log_lock (lock : nat) (id : Z) (sub : SUB_LOCK) (msg : string)
  | log_msg (msg : string).

Record LM := mkLM {
  m_activeTXNs : list (Z * list TXN);   (* std::map<long, std::deque<TXN>> *)
  m_nextTXNID : Z;
  m_nextLockID : Z;
  m_locks : list (Z * nat);             (* std::map<address, RWLock*> *)
  m_txnsOFile : list txn_row;
  m_locksHeldOFile : list held_row;
  lock_heap : list RWLock;
  cerr : list log_entry
}.

Definition init_LM : LM := mkLM [] 1 1 [] [] [] [] [].

Definition set_activeTXNs (m : list (Z * list TXN)) (s : LM) : LM :=
  mkLM m (m_nextTXNID s) (m_nextLockID s) (m_locks s) (m_txnsOFile s)
    (m_locksHeldOFile s) (lock_heap s) (cerr s).
Definition set_nextTXNID (n : Z) (s : LM) : LM :=
  mkLM (m_activeTXNs s) n (m_nextLockID s) (m_locks s) (m_txnsOFile s)
    (m_locksHeldOFile s) (lock_heap s) (cerr s).
Definition set_nextLockID (n : Z) (s : LM) : LM :=
  mkLM (m_activeTXNs s) (m_nextTXNID s) n (m_locks s) (m_txnsOFile s)
    (m_locksHeldOFile s) (lock_heap s) (cerr s).
Definition set_locks (m : list (Z * nat)) (s : LM) : LM :=
  mkLM (m_activeTXNs s) (m_nextTXNID s) (m_nextLockID s) m (m_txnsOFile s)
    (m_locksHeldOFile s) (lock_heap s) (cerr s).
Definition set_txnsOFile (rows : list txn_row) (s : LM) : LM :=
  mkLM (m_activeTXNs s) (m_nextTXNID s) (m_nextLockID s) (m_locks s) rows
    (m_locksHeldOFile s) (lock_heap s) (cerr s).
Definition set_locksHeldOFile (rows : list held_row) (s : LM) : LM :=
  mkLM (m_activeTXNs s) (m_nextTXNID s) (m_nextLockID s) (m_locks s) (m_txnsOFile s)
    rows (lock_heap s) (cerr s).
Definition set_lock_heap (h : list RWLock) (s : LM) : LM :=
  mkLM (m_activeTXNs s) (m_nextTXNID s) (m_nextLockID s) (m_locks s) (m_txnsOFile s)
    (m_locksHeldOFile s) h (cerr s).
Definition set_cerr (l : list log_entry) (s : LM) : LM :=
  mkLM (m_activeTXNs s) (m_nextTXNID s) (m_nextLockID s) (m_locks s) (m_txnsOFile s)
    (m_locksHeldOFile s) (lock_heap s) l.

Definition LMop (A : Type) : Type := M LM exn A.

(** ** Access to lock objects and messages *)

Definition load_lock (p : nat) : LMop RWLock := fun s =>
  match lock_heap s !! p with
  | Some l => inr (l, s)
  | None => inl (undefined "dangling lock pointer")
  end.

Definition upd_lock (p : nat) (f : RWLock -> RWLock) : LMop unit :=
  l ← load_lock p;
  modify (fun s => set_lock_heap (<[p := f l]> (lock_heap s)) s).

(** [lock->getID(subLock)], throwing when the lock has no such sub lock. *)
Definition lock_getID (p : nat) (sub : SUB_LOCK) : LMop Z :=
  l ← load_lock p;
  match getID l sub with inl e => raise e | inr id => mret id end.

(** [PRINT_ERROR(lock->toString(sub) ..., msg)]. *)
Definition print_error (p : nat) (sub : SUB_LOCK) (msg : string) : LMop unit :=
  id ← lock_getID p sub;
  modify (fun s => set_cerr (cerr s ++ [log_lock p id sub msg]) s).

Definition print_msg (msg : string) : LMop unit :=
  modify (fun s => set_cerr (cerr s ++ [log_msg msg]) s).

(** ** Transaction stacks *)

(** [m_activeTXNs[ctx]]: [operator[]] inserts an empty stack when absent. *)
Definition activeTXNs_at (ctx : Z) : LMop (list TXN) := fun s =>
  match sm_find ctx (m_activeTXNs s) with
  | Some st => inr (st, s)
  | None => inr ([], set_activeTXNs (sm_set ctx [] (m_activeTXNs s)) s)
  end.

Definition set_stack (ctx : Z) (st : list TXN) : LMop unit :=
  modify (fun s => set_activeTXNs (sm_set ctx st (m_activeTXNs s)) s).

Definition hasActiveTXN (ctx : Z) : LMop bool :=
  st ← activeTXNs_at ctx;
  mret (match st with [] => false | _ => true end).

Definition getActiveTXN (ctx : Z) : LMop TXN :=
  st ← activeTXNs_at ctx;
  match last st with
  | Some t => mret t
  | None => raise (undefined "back() of an empty deque")
  end.

(** [getActiveTXN(ctx) = f(getActiveTXN(ctx))], through the reference. *)
Definition upd_activeTXN (ctx : Z) (f : TXN -> TXN) : LMop unit :=
  st ← activeTXNs_at ctx;
  match last st with
  | Some t => set_stack ctx (removelast st ++ [f t])%list
  | None => raise (undefined "back() of an empty deque")
  end.

Definition txn_matches (lock : nat) (sub : SUB_LOCK) (t : TXN) : bool :=
  bool_decide (txn_lock t = lock) && bool_decide (txn_subLock t = sub).

Definition isOnTXNStack (ctx : Z) (lock : nat) (sub : SUB_LOCK) : LMop bool :=
  st ← activeTXNs_at ctx;
  mret (existsb (txn_matches lock sub) st).

Fixpoint findTXN_loop (m : list (Z * list TXN)) (lock : nat) (sub : SUB_LOCK) (ctx : Z) : Z :=
  match m with
  | [] => ctx
  | (k, st) :: m' =>
      match st with
      | [] => findTXN_loop m' lock sub ctx
      | _ => if existsb (txn_matches lock sub) st then k else findTXN_loop m' lock sub ctx
      end
  end.

Definition findTXN (lock : nat) (sub : SUB_LOCK) (ctx : Z) : LMop Z :=
  gets (fun s => findTXN_loop (m_activeTXNs s) lock sub ctx).

Definition startTXN (lock : nat) (ts : Z) (sub : SUB_LOCK) (ctx : Z) : LMop unit :=
  st ← activeTXNs_at ctx;
  id ← gets m_nextTXNID;
  modify (set_nextTXNID (u64 (id + 1)));;;
  set_stack ctx (st ++ [mkTXN id ts ctx 0 lock sub])%list.

(** ** finishTXN *)

(** The rows of locks_held.csv for the TXN [tid]: every lock of the stack that
    is held, once per lock id. *)
Fixpoint write_locks_held (tid : Z) (st : list TXN) (locks_seen : list Z) : LMop unit :=
  match st with
  | [] => mret tt
  | thisTXN :: st' =>
      tempLock ← load_lock (txn_lock thisTXN);
      if isHeld tempLock then
        match lastNPos tempLock with
        | [] =>
            print_error (txn_lock thisTXN) (txn_subLock thisTXN)
              "TXN: Internal error, stack underflow in lastNPos";;;
            write_locks_held tid st' locks_seen
        | tempLockPos :: _ =>
            lockID ← lock_getID (txn_lock thisTXN) (txn_subLock thisTXN);
            if bool_decide (lockID ∈ locks_seen) then write_locks_held tid st' locks_seen
            else
              modify (fun s => set_locksHeldOFile (m_locksHeldOFile s ++
                [mkHeldRow tid lockID (lp_start tempLockPos) (lp_lastFile tempLockPos)
                   (lp_lastLine tempLockPos)])%list s);;;
              write_locks_held tid st' (ss_insert lockID locks_seen)
        end
      else
        print_error (txn_lock thisTXN) (txn_subLock thisTXN)
          "TXN: Internal error, lock is part of the TXN hierarchy but not held?";;;
        write_locks_held tid st' locks_seen
  end.

(** Record the active TXN, unless it has seen no memory access. *)
Definition record_activeTXN (ts ctx ctxOld : Z) : LMop unit :=
  t ← getActiveTXN ctx;
  if 0 <? memAccessCounter t then
    modify (fun s => set_txnsOFile (m_txnsOFile s ++
      [mkTxnRow (txn_id t) (start_ts t) (start_ctx t) ts ctxOld])%list s);;;
    st ← activeTXNs_at ctx;
    write_locks_held (txn_id t) st []
  else mret tt.

(** The pass over the remaining stack that drops the reader TXNs of [lock].
    For a writer TXN of [lock] the iterator is advanced before it is
    dereferenced for the error message. *)
Fixpoint flush_readers (lock : nat) (st : list TXN) : LMop (list TXN) :=
  match st with
  | [] => mret []
  | t :: st' =>
      if bool_decide (txn_lock t <> lock) then
        r ← flush_readers lock st'; mret (t :: r)
      else match txn_subLock t with
      | READER_LOCK => flush_readers lock st'
      | WRITER_LOCK =>
          match st' with
          | [] => raise (undefined "dereferenced end() of the TXN stack")
          | t' :: _ =>
              print_error (txn_lock t') (txn_subLock t')
                "Multiple active txns for one writer lock";;;
              r ← flush_readers lock st'; mret (t :: r)
          end
      end
  end.

(** The [while] loop of finishTXN; [restartTXNs] are the TXNs closed so far. *)
Fixpoint finish_loop (n : nat) (lock : nat) (ts : Z) (sub : SUB_LOCK) (removeReader : bool)
    (ctx ctxOld : Z) (restartTXNs : list TXN) : LMop (bool * list TXN) :=
  match n with
  | O => raise out_of_fuel
  | S n =>
      active ← hasActiveTXN ctx;
      if negb active then mret (false, restartTXNs) else
      record_activeTXN ts ctx ctxOld;;;
      t ← getActiveTXN ctx;
      st ← activeTXNs_at ctx;
      if txn_matches lock sub t then
        set_stack ctx (removelast st);;;
        (if removeReader then
           st' ← flush_readers lock (removelast st); set_stack ctx st'
         else mret tt);;;
        mret (true, restartTXNs)
      else
        (if bool_decide (txn_lock t = lock) then
           print_error (txn_lock t) (txn_subLock t) "sublock does not match"
         else mret tt);;;
        set_stack ctx (removelast st);;;
        id ← gets m_nextTXNID;
        modify (set_nextTXNID (u64 (id + 1)));;;
        finish_loop n lock ts sub removeReader ctx ctxOld
          (mkTXN id ts ctx 0 (txn_lock t) (txn_subLock t) :: restartTXNs)
  end.

Definition finishTXN (lock : nat) (ts : Z) (sub : SUB_LOCK) (removeReader : bool)
    (ctx ctxOld : Z) : LMop bool :=
  st ← activeTXNs_at ctx;
  '(found, restartTXNs) ← finish_loop (S (length st)) lock ts sub removeReader ctx ctxOld [];
  (if found : bool then mret tt
   else print_error lock sub "TXN: Internal error -- V() but no matching TXN!");;;
  st' ← activeTXNs_at ctx;
  set_stack ctx (st' ++ restartTXNs)%list;;;
  mret found.

(** ** closeAllTXNs *)

Fixpoint close_ctx (n : nat) (ts ctx : Z) : LMop unit :=
  match n with
  | O => raise out_of_fuel
  | S n =>
      active ← hasActiveTXN ctx;
      if negb active then mret tt else
      txn ← getActiveTXN ctx;
      print_msg "TXN: There are still TXNs active, flushing the topmost one.";;;
      finishTXN (txn_lock txn) ts (txn_subLock txn) false ctx ctx;;;
      close_ctx n ts ctx
  end.

Fixpoint close_ctxs (ctxs : list Z) (ts : Z) : LMop unit :=
  match ctxs with
  | [] => mret tt
  | ctx :: ctxs' =>
      st ← activeTXNs_at ctx;
      close_ctx (S (length st)) ts ctx;;;
      close_ctxs ctxs' ts
  end.

Definition closeAllTXNs (ts : Z) : LMop unit :=
  ctxs ← gets (fun s => (m_activeTXNs s).*1);
  close_ctxs ctxs ts.

(** ** The table of known locks *)

Definition findLock (address : Z) : LMop (option nat) :=
  gets (fun s => sm_find address (m_locks s)).

(** One pass over the table: the entries kept, and the messages. *)
Fixpoint delete_area_loop (address size : Z) (m : list (Z * nat)) : LMop (list (Z * nat)) :=
  match m with
  | [] => mret []
  | (k, p) :: m' =>
      l ← load_lock p;
      if (address <=? lockAddress l) && (lockAddress l <? u64 (address + size)) then
        (if isHeld l then print_msg "Lock is being freed but held!" else mret tt);;;
        delete_area_loop address size m'
      else
        r ← delete_area_loop address size m'; mret ((k, p) :: r)
  end.

Definition deleteLockByArea (address size : Z) : LMop unit :=
  m ← gets m_locks;
  m' ← delete_area_loop address size m;
  modify (set_locks m').

(** The lock class for a lock type name, [None] for an unknown one. *)
Definition lock_class_of_type (ty : string) : option lock_class :=
  if bool_decide (ty ∈ ["raw_spinlock_t"; "mutex"; PSEUDOLOCK_NAME_SOFTIRQ;
      PSEUDOLOCK_NAME_HARDIRQ; "semaphore"; "bit_spin_lock"; "sleep mutex";
      "spin mutex"; "kmutex_t"]) then Some class_WLock
  else if bool_decide (ty = PSEUDOLOCK_NAME_RCU) then Some class_RLock
  else if bool_decide (ty ∈ ["rwlock_t"; "rw_semaphore"; "sx"; "rw"; "sleepable rm";
      "rm"; "lockmgr"; "krwlock_t"]) then Some class_RWLock
  else None.

Definition allocLock (address allocID : Z) (ty : string) (varName : option string)
    (flags : Z) : LMop nat :=
  match lock_class_of_type ty with
  | None => print_msg "Unknown lock type";;; raise (exit_with 1)
  | Some cls =>
      id ← gets m_nextLockID;
      let '(ret, id') := initIDs (new_RWLock cls address allocID ty varName flags) id in
      modify (set_nextLockID id');;;
      p ← gets (fun s => length (lock_heap s));
      modify (fun s => set_lock_heap (lock_heap s ++ [ret])%list s);;;
      m ← gets m_locks;
      match sm_emplace address p m with
      | (_, false) => print_msg "Cannot insert lock into map.";;; raise (exit_with 1)
      | (m', true) => modify (set_locks m');;; mret p
      end
  end.
