(* ===== verification/RWLock.v ===== *)
(** * Lock operations: rwlock.cc and the [transition] methods

    P and V on the two sub locks of a lock, with the effect on the TXN stacks
    through the LockManager. *)
From S2P Require Import Prelude StdMap LockTypes LockManager.
From Stdlib Require Import Ascii String.
Local Open Scope string_scope.
Local Open Scope Z_scope.

(** The source file recorded for an acquisition: [kernelDir] is cut off when
    it occurs anywhere in [file]. *)
Definition strip_kernelDir (kernelDir file : string) : LMop string :=
  match last (list_ascii_of_string kernelDir) with
  | None => raise (undefined "back() of an empty string")
  | Some c =>
      let tmp := if bool_decide (c = "/"%char) then kernelDir
                 else String.append kernelDir "/" in
      match String.index 0 tmp file with
      | Some _ => mret (String.substring (String.length tmp)
                          (String.length file - String.length tmp) file)
      | None => mret file
      end
  end.

(** [while (!lastNPos.empty()) { count--; lastNPos.pop(); }] *)
Fixpoint drain_lastNPos (count : Z) (ps : list LockPos) : Z :=
  match ps with
  | [] => count
  | _ :: ps' => drain_lastNPos (count - 1) ps'
  end.

(** [lastNPos.pop()], undefined on an empty stack. *)
Definition pop_lastNPos (this : nat) : LMop unit :=
  l ← load_lock this;
  match lastNPos l with
  | [] => raise (undefined "pop() of an empty stack")
  | _ :: ps => upd_lock this (set_lastNPos ps)
  end.

Definition invalid_state : exn := logic_error "Invalid state on reader-writer lock".

Definition writeTransition (this : nat) (lockOP : LOCK_OP) (ts : Z) (file : string) (line : Z)
    (flags : Z) (kernelDir : string) (ctx : Z) : LMop unit :=
  upd_lock this (set_flags flags);;;
  l ← load_lock this;
  match lockOP with
  | P_WRITE =>
      (if (writer_count l =? 0) && (0 <? reader_count l) then
         print_error this WRITER_LOCK "Read-side is already beeing held.";;;
         found ← finishTXN this ts READER_LOCK true ctx ctx;
         if found : bool then
           upd_lock this (fun l => set_lastNPos [] (set_reader_count
             (drain_lastNPos (reader_count l) (lastNPos l)) l));;;
           l ← load_lock this;
           if negb (reader_count l =? 0) then
             print_error this WRITER_LOCK "Inconsistent reader_count, still above zero";;;
             upd_lock this (set_reader_count 0)
           else mret tt
         else print_error this WRITER_LOCK "Cannot flush all reader."
       else if (0 <? writer_count l) && (reader_count l =? 0) then
         if negb (Z.land (lock_flags l) LOCK_FLAGS_RECURSIVE =? 0) then mret tt
         else
           print_error this WRITER_LOCK "Lock is already beeing held.";;;
           found ← finishTXN this ts WRITER_LOCK false ctx ctx;
           if found : bool then pop_lastNPos this else mret tt
       else if (0 <? writer_count l) && (0 <? reader_count l) then raise invalid_state
       else mret tt);;;
      upd_lock this (fun l => set_writer_count (writer_count l + 1) l);;;
      lastFile ← strip_kernelDir kernelDir file;
      upd_lock this (fun l =>
        set_lastNPos (mkLockPos WRITER_LOCK ts (s32 line) lastFile :: lastNPos l) l);;;
      startTXN this ts WRITER_LOCK ctx
  | V_WRITE =>
      (match lastNPos l with
       | _ :: _ =>
           active ← hasActiveTXN ctx;
           onStack ← (if active : bool then isOnTXNStack ctx this WRITER_LOCK else mret false);
           ctx' ← (if negb active || negb onStack then
                     ctx' ← findTXN this WRITER_LOCK ctx;
                     active' ← hasActiveTXN ctx';
                     (if bool_decide (ctx' = ctx) && negb active' then
                        print_error this WRITER_LOCK "TXN: V() but no running TXN!"
                      else mret tt);;;
                     mret ctx'
                   else mret ctx);
           found ← finishTXN this ts WRITER_LOCK false ctx' ctx;
           if found : bool then pop_lastNPos this else mret tt
       | [] => print_error this WRITER_LOCK "No last locking position known, cannot pop."
       end);;;
      l ← load_lock this;
      if writer_count l =? 0 then
        print_error this WRITER_LOCK "Lock has already been released."
      else upd_lock this (fun l => set_writer_count (writer_count l - 1) l)
  | P_READ | V_READ => raise (logic_error "Invalid op on writer lock")
  end.

Definition readTransition (this : nat) (lockOP : LOCK_OP) (ts : Z) (file : string) (line : Z)
    (flags : Z) (kernelDir : string) (ctx : Z) : LMop unit :=
  upd_lock this (set_flags flags);;;
  l ← load_lock this;
  match lockOP with
  | P_WRITE | V_WRITE => raise (logic_error "Invalid op on reader lock")
  | P_READ =>
      (if (writer_count l =? 0) && (0 <? reader_count l) then mret tt
       else if (0 <? writer_count l) && (reader_count l =? 0) then
         print_error this READER_LOCK "Write-side is already beeing held.";;;
         found ← finishTXN this ts WRITER_LOCK true ctx ctx;
         if found : bool then
           upd_lock this (fun l => set_lastNPos [] (set_writer_count
             (drain_lastNPos (writer_count l) (lastNPos l)) l));;;
           l ← load_lock this;
           if negb (writer_count l =? 0) then
             print_error this READER_LOCK "Inconsistent writer_count, still above zero";;;
             upd_lock this (set_writer_count 0)
           else mret tt
         else print_error this READER_LOCK "Cannot flush all reader."
       else if (0 <? writer_count l) && (0 <? reader_count l) then raise invalid_state
       else mret tt);;;
      upd_lock this (fun l => set_reader_count (reader_count l + 1) l);;;
      lastFile ← strip_kernelDir kernelDir file;
      upd_lock this (fun l =>
        set_lastNPos (mkLockPos READER_LOCK ts (s32 line) lastFile :: lastNPos l) l);;;
      startTXN this ts READER_LOCK ctx
  | V_READ =>
      (match lastNPos l with
       | _ :: _ =>
           active ← hasActiveTXN ctx;
           onStack ← (if active : bool then isOnTXNStack ctx this READER_LOCK else mret false);
           ctx' ← (if negb active || negb onStack then
                     ctx' ← findTXN this READER_LOCK ctx;
                     active' ← hasActiveTXN ctx';
                     (if bool_decide (ctx' = ctx) && negb active' then
                        print_error this READER_LOCK "TXN: V() but no running TXN!"
                      else mret tt);;;
                     mret ctx'
                   else mret ctx);
           found ← finishTXN this ts READER_LOCK false ctx' ctx;
           if found : bool then pop_lastNPos this else mret tt
       | [] => print_error this READER_LOCK "No last locking position known, cannot pop."
       end);;;
      l ← load_lock this;
      if reader_count l =? 0 then
        print_error this READER_LOCK "Lock has already been released."
      else upd_lock this (fun l => set_reader_count (reader_count l - 1) l)
  end.

(** Virtual [transition]: [RLock] and [WLock] dispatch to one side only. *)
Definition RLock_transition := readTransition.
Definition WLock_transition := writeTransition.
Definition transition (this : nat) (lockOP : LOCK_OP) (ts : Z) (file : string) (line : Z)
    (flags : Z) (kernelDir : string) (ctx : Z) : LMop unit :=
  l ← load_lock this;
  match dyn_class l with
  | class_RWLock =>
      match lockOP with
      | P_WRITE | V_WRITE => writeTransition this lockOP ts file line flags kernelDir ctx
      | P_READ | V_READ => readTransition this lockOP ts file line flags kernelDir ctx
      end
  | class_RLock => RLock_transition this lockOP ts file line flags kernelDir ctx
  | class_WLock => WLock_transition this lockOP ts file line flags kernelDir ctx
  end.
