(* ===== verification/LockInv.v ===== *)
(** * Consistency of locks and TXN stacks

    With one execution context (the converter without -c), the acquisition
    stack [lastNPos], the counters of a lock and its TXNs stay in step.  First:
    what the operations of the LockManager do. *)
From S2P Require Import Prelude StdMap LockTypes LockManager RWLock.
From Stdlib Require Ascii String.
Local Open Scope string_scope.
Local Open Scope list_scope.
Local Open Scope Z_scope.

(** ** What the LockManager operations do

    Pure specifications of the operations of LockManager.v: the TXN stacks
    they leave behind and the rows they write. *)

(** The stack of a context; an absent entry is an empty stack. *)
Definition stack_of (s : LM) (ctx : Z) : list TXN :=
  default [] (sm_find ctx (m_activeTXNs s)).

Definition txn_ok (h : list RWLock) (t : TXN) : Prop :=
  exists l, h !! txn_lock t = Some l /\ has_sub_lock (dyn_class l) (txn_subLock t) = true.

(** The next TXN id after [n] increments. *)
Definition id_plus (n : nat) (id : Z) : Z := Nat.iter n (fun x => u64 (x + 1)) id.

(** *** Specification functions *)

(** Rows written for the locks of a stack, once per lock id. *)
Fixpoint held_rows (h : list RWLock) (tid : Z) (st : list TXN) (seen : list Z) : list held_row :=
  match st with
  | [] => []
  | t :: st' =>
      match h !! txn_lock t with
      | Some l =>
          match isHeld l, lastNPos l, getID l (txn_subLock t) with
          | true, pos :: _, inr id =>
              if bool_decide (id ∈ seen) then held_rows h tid st' seen
              else mkHeldRow tid id (lp_start pos) (lp_lastFile pos) (lp_lastLine pos)
                   :: held_rows h tid st' (ss_insert id seen)
          | _, _, _ => held_rows h tid st' seen
          end
      | None => held_rows h tid st' seen
      end
  end.

Definition txn_row_of (ts ctxOld : Z) (t : TXN) : list txn_row :=
  if 0 <? memAccessCounter t then
    [mkTxnRow (txn_id t) (start_ts t) (start_ctx t) ts ctxOld] else [].

Definition held_rows_of (h : list RWLock) (st : list TXN) (t : TXN) : list held_row :=
  if 0 <? memAccessCounter t then held_rows h (txn_id t) st [] else [].

(** On a stack given top first: the TXNs above the topmost match ... *)
Fixpoint above (lock : nat) (sub : SUB_LOCK) (r : list TXN) : list TXN :=
  match r with
  | [] => []
  | t :: r' => if txn_matches lock sub t then [] else t :: above lock sub r'
  end.

(** ... and the TXNs below it, [None] without a match. *)
Fixpoint below (lock : nat) (sub : SUB_LOCK) (r : list TXN) : option (list TXN) :=
  match r with
  | [] => None
  | t :: r' => if txn_matches lock sub t then Some r' else below lock sub r'
  end.

(** The closed TXNs are restarted: the topmost gets the first new id. *)
Fixpoint restarted (id ts ctx : Z) (r : list TXN) : list TXN :=
  match r with
  | [] => []
  | t :: r' => restarted (u64 (id + 1)) ts ctx r'
               ++ [mkTXN id ts ctx 0 (txn_lock t) (txn_subLock t)]
  end.

(** The TXNs finishTXN records: those above the match and the match itself. *)
Fixpoint closed (lock : nat) (sub : SUB_LOCK) (r : list TXN) : list TXN :=
  match r with
  | [] => []
  | t :: r' => if txn_matches lock sub t then [t] else t :: closed lock sub r'
  end.

Fixpoint closed_held_rows (h : list RWLock) (lock : nat) (sub : SUB_LOCK) (r : list TXN)
    : list held_row :=
  match r with
  | [] => []
  | t :: r' =>
      held_rows_of h (rev (t :: r')) t ++
      (if txn_matches lock sub t then [] else closed_held_rows h lock sub r')
  end.

(** The flush of the reader TXNs of a lock. *)
Definition flushed (removeReader : bool) (lock : nat) (st : list TXN) : list TXN :=
  if removeReader then filter (fun t => negb (txn_matches lock READER_LOCK t)) st else st.

(** The new stack, and whether the TXN was found. *)
Definition finish_stack (lock : nat) (ts : Z) (sub : SUB_LOCK) (removeReader : bool)
    (ctx id : Z) (st : list TXN) : list TXN :=
  flushed removeReader lock (rev (default [] (below lock sub (rev st))))
  ++ restarted id ts ctx (above lock sub (rev st)).

(** *** The effect of an operation on one context *)

Record effect (s s' : LM) (ctx : Z) (st' : list TXN) (n : nat)
    (rows : list txn_row) (hrows : list held_row) : Prop := mkEffect {
  ef_stack : stack_of s' ctx = st';
  ef_other : forall c, c <> ctx -> stack_of s' c = stack_of s c;
  ef_sorted : sm_sorted (m_activeTXNs s) -> sm_sorted (m_activeTXNs s');
  ef_heap : lock_heap s' = lock_heap s;
  ef_locks : m_locks s' = m_locks s;
  ef_lockid : m_nextLockID s' = m_nextLockID s;
  ef_txnid : m_nextTXNID s' = id_plus n (m_nextTXNID s);
  ef_rows : m_txnsOFile s' = (m_txnsOFile s ++ rows)%list;
  ef_hrows : m_locksHeldOFile s' = (m_locksHeldOFile s ++ hrows)%list
}.

Arguments ef_stack {_ _ _ _ _ _ _}.
Arguments ef_other {_ _ _ _ _ _ _}.
Arguments ef_sorted {_ _ _ _ _ _ _}.
Arguments ef_heap {_ _ _ _ _ _ _}.
Arguments ef_locks {_ _ _ _ _ _ _}.
Arguments ef_lockid {_ _ _ _ _ _ _}.
Arguments ef_txnid {_ _ _ _ _ _ _}.
Arguments ef_rows {_ _ _ _ _ _ _}.
Arguments ef_hrows {_ _ _ _ _ _ _}.

Lemma id_plus_add n m id : id_plus (n + m) id = id_plus m (id_plus n id).
Proof. unfold id_plus. rewrite Nat.add_comm. apply Nat.iter_add. Qed.

Lemma id_plus_small n id :
  0 <= id -> id + Z.of_nat n < 2 ^ 64 -> id_plus n id = id + Z.of_nat n.
Proof.
  intros H0. induction n as [|n IH]; intros Hn; [simpl; lia|].
  change (id_plus (S n) id) with (u64 (id_plus n id + 1)).
  rewrite IH by lia. rewrite u64_small; lia.
Qed.

Lemma effect_refl s ctx : effect s s ctx (stack_of s ctx) 0 [] [].
Proof. split; rewrite ?app_nil_r; done. Qed.

Lemma effect_trans s1 s2 s3 ctx st2 st3 n1 n2 rows1 rows2 h1 h2 :
  effect s1 s2 ctx st2 n1 rows1 h1 -> effect s2 s3 ctx st3 n2 rows2 h2 ->
  effect s1 s3 ctx st3 (n1 + n2) (rows1 ++ rows2) (h1 ++ h2).
Proof.
  intros [A1 A2 A3 A4 A5 A6 A7 A8 A9] [B1 B2 B3 B4 B5 B6 B7 B8 B9]. split.
  - done.
  - intros c Hc. by rewrite B2, A2.
  - auto.
  - congruence.
  - congruence.
  - congruence.
  - by rewrite B7, A7, id_plus_add.
  - by rewrite B8, A8, app_assoc.
  - by rewrite B9, A9, app_assoc.
Qed.

Arguments effect_trans {_ _ _ _ _ _ _ _ _ _ _ _}.

Lemma stack_of_set ctx st s c :
  stack_of (set_activeTXNs (sm_set ctx st (m_activeTXNs s)) s) c =
  if decide (c = ctx) then st else stack_of s c.
Proof.
  unfold stack_of; simpl. case_decide as E.
  - subst. by rewrite sm_find_set_eq.
  - by rewrite sm_find_set_ne.
Qed.

Lemma activeTXNs_at_effect ctx s :
  exists s', activeTXNs_at ctx s = inr (stack_of s ctx, s')
    /\ effect s s' ctx (stack_of s ctx) 0 [] [].
Proof.
  unfold activeTXNs_at. destruct (sm_find ctx (m_activeTXNs s)) as [st|] eqn:E.
  - exists s. split; [|apply effect_refl]. unfold stack_of. by rewrite E.
  - eexists. split; [unfold stack_of; by rewrite E|]. split; simpl; rewrite ?app_nil_r; try done.
    + rewrite stack_of_set, decide_True by done. unfold stack_of. by rewrite E.
    + intros c Hc. by rewrite stack_of_set, decide_False.
    + auto with lockdoc.
Qed.

Lemma set_stack_effect ctx st s :
  exists s', set_stack ctx st s = inr (tt, s') /\ effect s s' ctx st 0 [] [].
Proof.
  eexists. split; [reflexivity|]. split; simpl; rewrite ?app_nil_r; try done.
  - by rewrite stack_of_set, decide_True.
  - intros c Hc. by rewrite stack_of_set, decide_False.
  - auto with lockdoc.
Qed.

(** A sequence runs if its parts do. *)
Lemma bind_run {A B} (c : LMop A) (k : A -> LMop B) s a s1 :
  c s = inr (a, s1) -> (c ≫= k) s = k a s1.
Proof. unfold mbind, M_bind. by intros ->. Qed.

Arguments bind_run {_ _ _ _ _ _ _}.

(** A step that leaves the stack alone composes with what follows. *)
Lemma effect_keep s1 s2 s3 ctx st n rows h :
  effect s1 s2 ctx (stack_of s1 ctx) 0 [] [] -> effect s2 s3 ctx st n rows h ->
  effect s1 s3 ctx st n rows h.
Proof. intros H1 H2. exact (effect_trans H1 H2). Qed.

Arguments effect_keep {_ _ _ _ _ _ _ _}.

Lemma hasActiveTXN_effect ctx s :
  exists s', hasActiveTXN ctx s =
      inr (match stack_of s ctx with [] => false | _ => true end, s')
    /\ effect s s' ctx (stack_of s ctx) 0 [] [].
Proof.
  destruct (activeTXNs_at_effect ctx s) as (s' & E & H). exists s'. split; [|done].
  unfold hasActiveTXN. by rewrite (bind_run E).
Qed.

Lemma getActiveTXN_effect ctx s t st :
  stack_of s ctx = (st ++ [t])%list ->
  exists s', getActiveTXN ctx s = inr (t, s') /\ effect s s' ctx (stack_of s ctx) 0 [] [].
Proof.
  intros Hst. destruct (activeTXNs_at_effect ctx s) as (s' & E & H). exists s'. split; [|done].
  unfold getActiveTXN. rewrite (bind_run E), Hst, last_snoc. done.
Qed.

(** *** Messages and rows *)

Lemma lock_getID_ok p sub s l :
  lock_heap s !! p = Some l -> has_sub_lock (dyn_class l) sub = true ->
  exists id, getID l sub = inr id /\ lock_getID p sub s = inr (id, s).
Proof.
  intros Hp Hs. destruct (getID_has_sub_lock l sub Hs) as [id Hid]. exists id. split; [done|].
  unfold lock_getID, mbind, M_bind, load_lock. by rewrite Hp, Hid.
Qed.

Lemma print_error_effect p sub msg s ctx l :
  lock_heap s !! p = Some l -> has_sub_lock (dyn_class l) sub = true ->
  exists s', print_error p sub msg s = inr (tt, s')
    /\ effect s s' ctx (stack_of s ctx) 0 [] [].
Proof.
  intros Hp Hs. destruct (lock_getID_ok p sub s l Hp Hs) as (id & _ & E).
  eexists. split.
  - unfold print_error. rewrite (bind_run E). reflexivity.
  - split; simpl; rewrite ?app_nil_r; done.
Qed.

Lemma print_msg_effect msg s ctx :
  exists s', print_msg msg s = inr (tt, s') /\ effect s s' ctx (stack_of s ctx) 0 [] [].
Proof. eexists. split; [reflexivity|]. split; simpl; rewrite ?app_nil_r; done. Qed.

Lemma txn_ok_heap s s' ctx st n rows h t :
  effect s s' ctx st n rows h -> txn_ok (lock_heap s) t -> txn_ok (lock_heap s') t.
Proof. intros H. by rewrite (ef_heap H). Qed.

Lemma write_locks_held_effect tid ctx st : forall seen s,
  Forall (txn_ok (lock_heap s)) st ->
  exists s', write_locks_held tid st seen s = inr (tt, s')
    /\ effect s s' ctx (stack_of s ctx) 0 [] (held_rows (lock_heap s) tid st seen).
Proof.
  induction st as [|t st IH]; intros seen s Hok; simpl.
  { exists s. split; [done|apply effect_refl]. }
  inversion Hok as [|? ? (l & Hl & Hsub) Hok']; subst.
  assert (load_lock (txn_lock t) s = inr (l, s)) as Eload by (unfold load_lock; by rewrite Hl).
  rewrite (bind_run Eload), Hl.
  destruct (lock_getID_ok _ _ s l Hl Hsub) as (id & Hid & Egid). rewrite Hid.
  assert (forall msg, exists s', (print_error (txn_lock t) (txn_subLock t) msg;;;
      write_locks_held tid st seen) s = inr (tt, s')
    /\ effect s s' ctx (stack_of s ctx) 0 [] (held_rows (lock_heap s) tid st seen)) as Hskip.
  { intros msg. destruct (print_error_effect _ _ msg s ctx l Hl Hsub) as (s1 & E1 & H1).
    rewrite (bind_run E1).
    destruct (IH seen s1) as (s2 & E2 & H2).
    { by rewrite (ef_heap H1). }
    exists s2. split; [done|]. rewrite (ef_heap H1), (ef_stack H1) in H2.
    exact (effect_keep H1 H2). }
  destruct (isHeld l); [|apply Hskip].
  destruct (lastNPos l) as [|pos ps]; [apply Hskip|].
  rewrite (bind_run Egid).
  case_bool_decide as Hseen; [apply IH; done|].
  set (row := mkHeldRow tid id (lp_start pos) (lp_lastFile pos) (lp_lastLine pos)).
  set (s1 := set_locksHeldOFile (m_locksHeldOFile s ++ [row]) s).
  assert (effect s s1 ctx (stack_of s ctx) 0 [] [row]) as H1.
  { split; simpl; rewrite ?app_nil_r; done. }
  destruct (IH (ss_insert id seen) s1 Hok') as (s2 & E2 & H2).
  exists s2. split; [done|].
  exact (effect_trans H1 H2).
Qed.

Lemma record_activeTXN_effect ts ctx ctxOld s st t :
  stack_of s ctx = (st ++ [t])%list -> Forall (txn_ok (lock_heap s)) (st ++ [t]) ->
  exists s', record_activeTXN ts ctx ctxOld s = inr (tt, s')
    /\ effect s s' ctx (stack_of s ctx) 0 (txn_row_of ts ctxOld t)
         (held_rows_of (lock_heap s) (st ++ [t]) t).
Proof.
  intros Hst Hok. unfold record_activeTXN, txn_row_of, held_rows_of.
  destruct (getActiveTXN_effect ctx s t st Hst) as (s1 & E1 & H1).
  rewrite (bind_run E1).
  destruct (0 <? memAccessCounter t); [|by exists s1].
  set (row := mkTxnRow _ _ _ _ _).
  set (s2 := set_txnsOFile (m_txnsOFile s1 ++ [row]) s1).
  assert (effect s1 s2 ctx (stack_of s1 ctx) 0 [row] []) as H2
    by (split; simpl; rewrite ?app_nil_r; done).
  match goal with |- context [(?a ≫= ?b) s1] => assert (a s1 = inr (tt, s2)) as E2 by reflexivity end.
  rewrite (bind_run E2).
  destruct (activeTXNs_at_effect ctx s2) as (s3 & E3 & H3).
  rewrite (bind_run E3).
  pose proof (effect_trans H1
    (effect_trans H2 H3)) as H13.
  assert (stack_of s2 ctx = (st ++ [t])%list) as Hst2
    by (rewrite (ef_stack H2), (ef_stack H1); done).
  rewrite Hst2 in E3, H13 |- *.
  destruct (write_locks_held_effect (txn_id t) ctx (st ++ [t]) [] s3) as (s4 & E4 & H4).
  { rewrite (ef_heap H13). done. }
  exists s4. split; [done|].
  pose proof (effect_trans H13 H4) as H14. simpl in H14.
  rewrite (ef_stack H13), (ef_heap H13) in H14.
  by rewrite Hst.
Qed.

(** *** finishTXN *)

(** The flush of the readers fails when a writer TXN of [lock] is at the end. *)
Definition flush_undefined (lock : nat) (st : list TXN) : bool :=
  match last st with Some t => txn_matches lock WRITER_LOCK t | None => false end.
Definition end_dereferenced : exn := undefined "dereferenced end() of the TXN stack".

Lemma flush_undefined_cons lock t t' st :
  flush_undefined lock (t :: t' :: st) = flush_undefined lock (t' :: st).
Proof. done. Qed.

Lemma flush_readers_effect lock ctx st : forall s,
  Forall (txn_ok (lock_heap s)) st ->
  if flush_undefined lock st then flush_readers lock st s = inl end_dereferenced
  else exists s', flush_readers lock st s = inr (flushed true lock st, s')
    /\ effect s s' ctx (stack_of s ctx) 0 [] [].
Proof.
  induction st as [|t st IH]; intros s Hok.
  { exists s. split; [done|apply effect_refl]. }
  inversion Hok as [|? ? Ht Hok']; subst.
  assert (flushed true lock (t :: st) =
    if txn_matches lock READER_LOCK t then flushed true lock st else t :: flushed true lock st) as Hfl.
  { unfold flushed. rewrite filter_cons. by destruct (txn_matches lock READER_LOCK t). }
  rewrite Hfl. cbn [flush_readers].
  assert (flush_undefined lock (t :: st) = match st with
    | [] => txn_matches lock WRITER_LOCK t | _ => flush_undefined lock st end) as -> by (by destruct st).
  unfold txn_matches. destruct (decide (txn_lock t = lock)) as [Hl|Hl].
  2:{ rewrite !(bool_decide_eq_false_2 (txn_lock t = lock)), (bool_decide_eq_true_2 (txn_lock t <> lock)) by done.
      cbn [andb]. specialize (IH s Hok'). destruct st as [|t' st].
      - destruct IH as (s' & E & H). exists s'. split; [by rewrite (bind_run E)|done].
      - destruct (flush_undefined lock (t' :: st)).
        + unfold mbind, M_bind. by rewrite IH.
        + destruct IH as (s' & E & H). exists s'. split; [by rewrite (bind_run E)|done]. }
  rewrite !(bool_decide_eq_true_2 (txn_lock t = lock)), (bool_decide_eq_false_2 (txn_lock t <> lock)) by tauto.
  cbn [andb]. destruct (txn_subLock t).
  - specialize (IH s Hok'). destruct st as [|t' st].
    + exact IH.
    + exact IH.
  - destruct st as [|t' st]; [done|]. inversion Hok' as [|? ? (l' & Hl' & Hs') _]; subst.
    destruct (print_error_effect _ _ "Multiple active txns for one writer lock" s ctx l' Hl' Hs') as (s1 & E1 & H1).
    rewrite (bind_run E1). specialize (IH s1). rewrite (ef_heap H1) in IH. specialize (IH Hok').
    destruct (flush_undefined (txn_lock t) (t' :: st)).
    + unfold mbind, M_bind. by rewrite IH.
    + destruct IH as (s' & E & H). exists s'. split; [by rewrite (bind_run E)|].
      rewrite (ef_stack H1) in H. exact (effect_keep H1 H).
Qed.

(** One round of the loop up to the test of the active TXN. *)
Lemma finish_loop_record ts ctx ctxOld s t r :
  stack_of s ctx = rev r ++ [t] -> Forall (txn_ok (lock_heap s)) (rev r ++ [t]) ->
  exists s', effect s s' ctx (rev r ++ [t]) 0 (txn_row_of ts ctxOld t)
      (held_rows_of (lock_heap s) (rev r ++ [t]) t) /\
    forall n lock sub rr restart, finish_loop (S n) lock ts sub rr ctx ctxOld restart s =
      (if txn_matches lock sub t then
        set_stack ctx (rev r);;;
        (if rr : bool then st' ← flush_readers lock (rev r); set_stack ctx st' else mret tt);;;
        mret (true, restart)
      else
        (if bool_decide (txn_lock t = lock) then
           print_error (txn_lock t) (txn_subLock t) "sublock does not match"
         else mret tt);;;
        set_stack ctx (rev r);;;
        id ← gets m_nextTXNID;
        modify (set_nextTXNID (u64 (id + 1)));;;
        finish_loop n lock ts sub rr ctx ctxOld
          (mkTXN id ts ctx 0 (txn_lock t) (txn_subLock t) :: restart)) s'.
Proof.
  intros Hst Hok.
  destruct (hasActiveTXN_effect ctx s) as (s1 & E1 & H1). rewrite Hst in E1, H1.
  destruct (record_activeTXN_effect ts ctx ctxOld s1 (rev r) t) as (s2 & E2 & H2).
  { exact (ef_stack H1). }
  { by rewrite (ef_heap H1). }
  pose proof (effect_trans H1 H2) as H12.
  rewrite (ef_stack H1), (ef_heap H1) in H12. simpl in H12.
  destruct (getActiveTXN_effect ctx s2 t (rev r)) as (s3 & E3 & H3).
  { exact (ef_stack H12). }
  destruct (activeTXNs_at_effect ctx s3) as (s4 & E4 & H4).
  pose proof (effect_trans H12 (effect_trans H3 H4)) as H14.
  rewrite (ef_stack H3), (ef_stack H12) in H14, E4.
  simpl in H14. rewrite !app_nil_r in H14.
  exists s4. split; [exact H14|]. intros n lock sub rr restart. cbn [finish_loop].
  rewrite (bind_run E1).
  replace (match (rev r ++ [t])%list with [] => false | _ => true end) with true
    by (by destruct (rev r)).
  cbn [negb]. rewrite (bind_run E2), (bind_run E3), (bind_run E4). by rewrite removelast_last.
Qed.

(** A TXN that does not match is closed, and remembered to be restarted. *)
Lemma finish_loop_close lock ts sub rr ctx ctxOld n s t r restart :
  stack_of s ctx = rev r ++ [t] -> Forall (txn_ok (lock_heap s)) (rev r ++ [t]) ->
  txn_matches lock sub t = false ->
  exists s', effect s s' ctx (rev r) 1 (txn_row_of ts ctxOld t)
      (held_rows_of (lock_heap s) (rev r ++ [t]) t) /\
    finish_loop (S n) lock ts sub rr ctx ctxOld restart s =
    finish_loop n lock ts sub rr ctx ctxOld
      (mkTXN (m_nextTXNID s) ts ctx 0 (txn_lock t) (txn_subLock t) :: restart) s'.
Proof.
  intros Hst Hok Em.
  destruct (finish_loop_record ts ctx ctxOld s t r Hst Hok) as (s4 & H14 & E4).
  assert (exists s5, (if bool_decide (txn_lock t = lock) then
       print_error (txn_lock t) (txn_subLock t) "sublock does not match"
     else mret tt) s4 = inr (tt, s5) /\ effect s4 s5 ctx (stack_of s4 ctx) 0 [] [])
    as (s5 & E5 & H5).
  { destruct (bool_decide (txn_lock t = lock)); [|eexists; split; [reflexivity|apply effect_refl]].
    apply Forall_app in Hok as [_ Ht]. inversion Ht as [|? ? (l & Hl & Hsub)]; subst.
    eapply print_error_effect; [|exact Hsub]. by rewrite (ef_heap H14). }
  pose proof (effect_trans H14 H5) as H15.
  destruct (set_stack_effect ctx (rev r) s5) as (s6 & E6 & H6).
  pose proof (effect_trans H15 H6) as H16. simpl in H16. rewrite !app_nil_r in H16.
  set (s7 := set_nextTXNID (u64 (m_nextTXNID s6 + 1)) s6).
  assert (effect s6 s7 ctx (stack_of s6 ctx) 1 [] []) as H7
    by (split; simpl; rewrite ?app_nil_r; done).
  pose proof (effect_trans H16 H7) as H17.
  rewrite (ef_stack H16) in H17. simpl in H17. rewrite !app_nil_r in H17.
  exists s7. split; [exact H17|]. rewrite E4, Em, (bind_run E5), (bind_run E6).
  assert ((gets m_nextTXNID : LMop Z) s6 = inr (m_nextTXNID s6, s6)) as Eg by reflexivity.
  rewrite (bind_run Eg).
  assert ((modify (set_nextTXNID (u64 (m_nextTXNID s6 + 1))) : LMop unit) s6 = inr (tt, s7)) as Em'
    by reflexivity.
  rewrite (bind_run Em'). by rewrite (ef_txnid H16).
Qed.

(** The TXNs below the match, when the readers among them are to be removed,
    make the flush fail. *)
Definition finish_undefined (lock : nat) (sub : SUB_LOCK) (rr : bool) (r : list TXN) : bool :=
  rr && match below lock sub r with Some b => flush_undefined lock (rev b) | None => false end.

Lemma finish_undefined_below lock sub rr r :
  finish_undefined lock sub rr r =
  rr && match below lock sub r with Some (t :: _) => txn_matches lock WRITER_LOCK t | _ => false end.
Proof.
  unfold finish_undefined, flush_undefined. destruct (below lock sub r) as [[|t b]|]; [done| |done].
  simpl. by rewrite last_snoc.
Qed.

(** The match is on top. *)
Lemma finish_loop_found lock ts sub rr ctx ctxOld n s t r restart :
  stack_of s ctx = rev r ++ [t] -> Forall (txn_ok (lock_heap s)) (rev r ++ [t]) ->
  txn_matches lock sub t = true ->
  if rr && flush_undefined lock (rev r) then
    finish_loop (S n) lock ts sub rr ctx ctxOld restart s = inl end_dereferenced
  else exists s', finish_loop (S n) lock ts sub rr ctx ctxOld restart s = inr ((true, restart), s')
    /\ effect s s' ctx (flushed rr lock (rev r)) 0 (txn_row_of ts ctxOld t)
         (held_rows_of (lock_heap s) (rev r ++ [t]) t).
Proof.
  intros Hst Hok Em.
  destruct (finish_loop_record ts ctx ctxOld s t r Hst Hok) as (s4 & H14 & E4).
  destruct (set_stack_effect ctx (rev r) s4) as (s5 & E5 & H5).
  pose proof (effect_trans H14 H5) as H15. simpl in H15. rewrite !app_nil_r in H15.
  assert (finish_loop (S n) lock ts sub rr ctx ctxOld restart s =
    ((if rr : bool then st' ← flush_readers lock (rev r); set_stack ctx st' else mret tt);;;
     mret (true, restart)) s5) as -> by (by rewrite E4, Em, (bind_run E5)).
  destruct rr; cbn [andb flushed].
  - apply Forall_app in Hok as [Hok _].
    pose proof (flush_readers_effect lock ctx (rev r) s5) as Hfl.
    rewrite (ef_heap H15) in Hfl. specialize (Hfl Hok).
    destruct (flush_undefined lock (rev r)).
    + unfold mbind, M_bind. by rewrite Hfl.
    + destruct Hfl as (s6 & E6 & H6).
      destruct (set_stack_effect ctx (flushed true lock (rev r)) s6) as (s7 & E7 & H7).
      exists s7. split.
      { unfold mbind at 1, M_bind at 1. rewrite (bind_run E6), E7. done. }
      pose proof (effect_trans H15 (effect_trans H6 H7)) as H17.
      simpl in H17. by rewrite !app_nil_r in H17.
  - exists s5. split; [done|]. done.
Qed.

Lemma finish_loop_effect lock ts sub rr ctx ctxOld r : forall n s restart,
  stack_of s ctx = rev r -> (length r < n)%nat ->
  Forall (txn_ok (lock_heap s)) r ->
  if finish_undefined lock sub rr r then
    finish_loop n lock ts sub rr ctx ctxOld restart s = inl end_dereferenced
  else exists s', finish_loop n lock ts sub rr ctx ctxOld restart s =
      inr ((bool_decide (is_Some (below lock sub r)),
            restarted (m_nextTXNID s) ts ctx (above lock sub r) ++ restart), s')
    /\ effect s s' ctx (flushed rr lock (rev (default [] (below lock sub r))))
         (length (above lock sub r)) (mjoin (txn_row_of ts ctxOld <$> closed lock sub r))
         (closed_held_rows (lock_heap s) lock sub r).
Proof.
  induction r as [|t r IH]; intros [|n] s restart Hst Hn Hok; simpl in Hn; try lia; simpl in Hst.
  - unfold finish_undefined. simpl. rewrite andb_false_r.
    destruct (hasActiveTXN_effect ctx s) as (s1 & E1 & H1). rewrite Hst in E1, H1.
    rewrite (bind_run E1). exists s1. simpl.
    split; [done|]. destruct rr; exact H1.
  - inversion Hok as [|? ? Ht Hok']; subst.
    assert (Forall (txn_ok (lock_heap s)) (rev r ++ [t])) as Hokst
      by (rewrite Forall_app; split; [by apply Forall_rev|by constructor]).
    unfold finish_undefined in *. cbn [above below closed closed_held_rows].
    destruct (txn_matches lock sub t) eqn:Em.
    + pose proof (finish_loop_found lock ts sub rr ctx ctxOld n s t r restart Hst Hokst Em) as H.
      destruct (rr && flush_undefined lock (rev r)); [done|].
      destruct H as (s' & E & H). exists s'. rewrite E. split; [done|]. simpl. by rewrite !app_nil_r.
    + destruct (finish_loop_close lock ts sub rr ctx ctxOld n s t r restart Hst Hokst Em) as (s7 & H17 & ->).
      specialize (IH n s7 (mkTXN (m_nextTXNID s) ts ctx 0 (txn_lock t) (txn_subLock t) :: restart)
        (ef_stack H17) ltac:(lia)). rewrite (ef_heap H17) in IH. specialize (IH Hok').
      destruct (rr && _); [done|]. destruct IH as (s8 & E8 & H8). exists s8. split.
      { rewrite E8. cbn [restarted]. rewrite <- app_assoc. do 4 f_equal. by rewrite (ef_txnid H17). }
      exact (effect_trans H17 H8).
Qed.

Lemma below_existsb lock sub r :
  bool_decide (is_Some (below lock sub r)) = existsb (txn_matches lock sub) r.
Proof.
  induction r as [|t r IH]; simpl; [done|].
  destruct (txn_matches lock sub t); simpl; done.
Qed.

Lemma existsb_rev {A} (f : A -> bool) l : existsb f (rev l) = existsb f l.
Proof.
  apply eq_true_iff_eq. rewrite !existsb_exists.
  by setoid_rewrite <- in_rev.
Qed.

(** finishTXN on any stack: whether the TXN was found, the new stack, the ids
    consumed and the rows written; or the flush fails. *)
Lemma finishTXN_cases lock ts sub rr ctx ctxOld s l :
  lock_heap s !! lock = Some l -> has_sub_lock (dyn_class l) sub = true ->
  Forall (txn_ok (lock_heap s)) (stack_of s ctx) ->
  let r := rev (stack_of s ctx) in
  if finish_undefined lock sub rr r then finishTXN lock ts sub rr ctx ctxOld s = inl end_dereferenced
  else exists s', finishTXN lock ts sub rr ctx ctxOld s =
      inr (existsb (txn_matches lock sub) (stack_of s ctx), s')
    /\ effect s s' ctx (finish_stack lock ts sub rr ctx (m_nextTXNID s) (stack_of s ctx))
         (length (above lock sub r)) (mjoin (txn_row_of ts ctxOld <$> closed lock sub r))
         (closed_held_rows (lock_heap s) lock sub r).
Proof.
  intros Hl Hsub Hok r. unfold finishTXN.
  destruct (activeTXNs_at_effect ctx s) as (s1 & E1 & H1). rewrite (bind_run E1).
  pose proof (finish_loop_effect lock ts sub rr ctx ctxOld r (S (length (stack_of s ctx))) s1 []) as HL.
  specialize (HL ltac:(rewrite (ef_stack H1); unfold r; by rewrite rev_involutive)
    ltac:(unfold r; rewrite length_rev; lia) ltac:(rewrite (ef_heap H1); by apply Forall_rev)).
  destruct (finish_undefined lock sub rr r).
  { unfold mbind, M_bind. by rewrite HL. }
  destruct HL as (s2 & E2 & H2).
  rewrite (bind_run E2). pose proof (effect_trans H1 H2) as H12.
  rewrite (ef_heap H1) in H12. simpl in H12.
  rewrite below_existsb. cbv beta iota.
  replace (existsb (txn_matches lock sub) r) with (existsb (txn_matches lock sub) (stack_of s ctx))
    by (unfold r; by rewrite existsb_rev).
  set (found := existsb _ _).
  assert (exists s3, (if found then mret tt
      else print_error lock sub "TXN: Internal error -- V() but no matching TXN!") s2
      = inr (tt, s3) /\ effect s2 s3 ctx (stack_of s2 ctx) 0 [] []) as (s3 & E3 & H3).
  { destruct found; [eexists; split; [reflexivity|apply effect_refl]|].
    eapply print_error_effect; [|exact Hsub]. by rewrite (ef_heap H12). }
  cbv beta iota. rewrite (bind_run E3). pose proof (effect_trans H12 H3) as H13.
  destruct (activeTXNs_at_effect ctx s3) as (s4 & E4 & H4). rewrite (bind_run E4).
  pose proof (effect_trans H13 H4) as H14.
  rewrite app_nil_r, (ef_txnid H1). simpl.
  rewrite (ef_stack H3), (ef_stack H12).
  destruct (set_stack_effect ctx (flushed rr lock (rev (default [] (below lock sub r)))
     ++ restarted (m_nextTXNID s) ts ctx (above lock sub r)) s4) as (s5 & E5 & H5).
  rewrite (bind_run E5). exists s5. split; [done|].
  pose proof (effect_trans H14 H5) as H15. rewrite !app_nil_r, !Nat.add_0_r in H15. exact H15.
Qed.

Lemma finishTXN_effect lock ts sub rr ctx ctxOld s l :
  lock_heap s !! lock = Some l -> has_sub_lock (dyn_class l) sub = true ->
  Forall (txn_ok (lock_heap s)) (stack_of s ctx) ->
  finish_undefined lock sub rr (rev (stack_of s ctx)) = false ->
  let r := rev (stack_of s ctx) in
  exists s', finishTXN lock ts sub rr ctx ctxOld s =
      inr (existsb (txn_matches lock sub) (stack_of s ctx), s')
    /\ effect s s' ctx (finish_stack lock ts sub rr ctx (m_nextTXNID s) (stack_of s ctx))
         (length (above lock sub r)) (mjoin (txn_row_of ts ctxOld <$> closed lock sub r))
         (closed_held_rows (lock_heap s) lock sub r).
Proof.
  intros Hl Hs Hok Hu. pose proof (finishTXN_cases lock ts sub rr ctx ctxOld s l Hl Hs Hok) as H.
  cbv zeta in H. by rewrite Hu in H.
Qed.

Lemma startTXN_effect lock ts sub ctx s :
  exists s', startTXN lock ts sub ctx s = inr (tt, s')
    /\ effect s s' ctx (stack_of s ctx ++ [mkTXN (m_nextTXNID s) ts ctx 0 lock sub]) 1 [] [].
Proof.
  unfold startTXN. destruct (activeTXNs_at_effect ctx s) as (s1 & E1 & H1).
  rewrite (bind_run E1).
  set (s2 := set_nextTXNID (u64 (m_nextTXNID s1 + 1)) s1).
  assert (effect s1 s2 ctx (stack_of s1 ctx) 1 [] []) as H2
    by (split; simpl; rewrite ?app_nil_r; done).
  destruct (set_stack_effect ctx (stack_of s ctx ++ [mkTXN (m_nextTXNID s1) ts ctx 0 lock sub]) s2)
    as (s3 & E3 & H3).
  exists s3. split; [exact E3|].
  pose proof (effect_trans (effect_trans H1 H2) H3) as H. by rewrite (ef_txnid H1) in H.
Qed.

(** ** Counting the TXNs of a sub lock *)

Fixpoint cnt (p : nat) (sub : SUB_LOCK) (st : list TXN) : nat :=
  match st with
  | [] => 0
  | t :: st' => (if txn_matches p sub t then 1 else 0) + cnt p sub st'
  end.

Lemma cnt_app p sub st1 st2 : cnt p sub (st1 ++ st2) = (cnt p sub st1 + cnt p sub st2)%nat.
Proof. induction st1; simpl; lia. Qed.

Lemma cnt_rev p sub st : cnt p sub (rev st) = cnt p sub st.
Proof. induction st; simpl; [done|]. rewrite cnt_app. simpl. lia. Qed.

Lemma cnt_restarted p sub id ts ctx r : cnt p sub (restarted id ts ctx r) = cnt p sub r.
Proof.
  revert id. induction r as [|t r IH]; intros id; simpl; [done|].
  rewrite cnt_app, IH. simpl. unfold txn_matches. simpl. lia.
Qed.

Lemma cnt_existsb p sub st : existsb (txn_matches p sub) st = (0 <? cnt p sub st)%nat.
Proof. induction st as [|t st IH]; simpl; [done|]. by destruct (txn_matches p sub t). Qed.

Lemma matches_same p sub q sub' t :
  txn_matches p sub t = true -> txn_matches q sub' t = bool_decide (q = p /\ sub' = sub).
Proof.
  unfold txn_matches. rewrite andb_true_iff, !bool_decide_eq_true. intros [<- <-].
  destruct (decide (q = txn_lock t /\ sub' = txn_subLock t)) as [[-> ->]|Hne].
  - rewrite !bool_decide_eq_true_2; done.
  - rewrite (bool_decide_eq_false_2 (_ /\ _)) by done.
    destruct (bool_decide (txn_lock t = q)) eqn:E1; [|done].
    destruct (bool_decide (txn_subLock t = sub')) eqn:E2; [|done].
    apply bool_decide_eq_true in E1, E2. naive_solver.
Qed.

Lemma cnt_filter_other p q sub st :
  q <> p \/ sub <> READER_LOCK ->
  cnt q sub (flushed true p st) = cnt q sub st.
Proof.
  intros Hne. unfold flushed. induction st as [|t st IH]; [done|].
  rewrite filter_cons. case_decide as E; simpl; rewrite IH; [done|].
  destruct (txn_matches p READER_LOCK t) eqn:Em; [|done].
  rewrite (matches_same _ _ q sub _ Em). rewrite bool_decide_eq_false_2; [done|naive_solver].
Qed.

Lemma cnt_filter_same p st : cnt p READER_LOCK (flushed true p st) = 0%nat.
Proof.
  unfold flushed. induction st as [|t st IH]; [done|].
  rewrite filter_cons. case_decide as E; simpl; [|done].
  destruct (txn_matches p READER_LOCK t); simpl in *; done.
Qed.

(** How the topmost match splits the stack. *)

Lemma split_match lock sub r :
  match below lock sub r with
  | Some b => exists t, txn_matches lock sub t = true /\ r = above lock sub r ++ t :: b
  | None => above lock sub r = r /\ cnt lock sub r = 0%nat
  end /\ cnt lock sub (above lock sub r) = 0%nat.
Proof.
  induction r as [|t r [IH1 IH2]]; simpl; [done|].
  destruct (txn_matches lock sub t) eqn:E; simpl.
  - split; [|done]. by exists t.
  - rewrite E, IH2. split; [|done]. destruct (below lock sub r) as [b|].
    + destruct IH1 as (t' & Ht' & Hr). exists t'. by rewrite <- Hr.
    + destruct IH1 as [-> ->]. done.
Qed.

(** finishTXN without reader flush removes at most one TXN of the sub lock. *)
Lemma cnt_finish_stack lock ts sub ctx id st q sub' :
  cnt q sub' (finish_stack lock ts sub false ctx id st) =
  (cnt q sub' st - if bool_decide (q = lock /\ sub' = sub) then 1 else 0)%nat.
Proof.
  unfold finish_stack. rewrite cnt_app, cnt_restarted. simpl.
  rewrite cnt_rev. rewrite <- (cnt_rev q sub' st).
  destruct (split_match lock sub (rev st)) as [Hs Ha].
  destruct (below lock sub (rev st)) as [b|]; simpl.
  - destruct Hs as (t & Ht & Hr). rewrite Hr at 2. rewrite cnt_app. simpl.
    rewrite (matches_same _ _ q sub' _ Ht). case_bool_decide as E; simpl; lia.
  - destruct Hs as [-> Hc]. case_bool_decide as E; [|lia]. destruct E as [-> ->]. lia.
Qed.

Lemma cnt_finish_flush lock ts sub ctx id st q sub' :
  sub = READER_LOCK \/ cnt lock READER_LOCK st = 0%nat ->
  cnt q sub' (finish_stack lock ts sub true ctx id st) =
  if bool_decide (q = lock /\ sub' = READER_LOCK) then 0%nat
  else (cnt q sub' st - if bool_decide (q = lock /\ sub' = sub) then 1 else 0)%nat.
Proof.
  intros Hcase. unfold finish_stack. rewrite cnt_app, cnt_restarted.
  rewrite <- (cnt_rev q sub' st), <- (cnt_rev lock READER_LOCK st) in *.
  destruct (split_match lock sub (rev st)) as [Hs Ha].
  case_bool_decide as E.
  - destruct E as [-> ->]. rewrite cnt_filter_same. destruct Hcase as [->|Hz]; [lia|].
    destruct (below lock sub (rev st)) as [b|].
    + destruct Hs as (t & Ht & Hr). rewrite Hr, cnt_app in Hz. lia.
    + destruct Hs as [-> _]. lia.
  - rewrite cnt_filter_other by (by apply not_and_l in E). rewrite cnt_rev.
    destruct (below lock sub (rev st)) as [b|]; simpl.
    + destruct Hs as (t & Ht & Hr). rewrite Hr at 2. rewrite cnt_app. simpl.
      rewrite (matches_same _ _ q sub' _ Ht). case_bool_decide; simpl; lia.
    + destruct Hs as [-> Hc]. case_bool_decide as E2; [|lia]. destruct E2 as [-> ->]. lia.
Qed.

(** The locks of the TXNs after finishTXN were on the stack before. *)
Lemma finish_stack_ok h lock ts sub rr ctx id st :
  Forall (txn_ok h) st -> Forall (txn_ok h) (finish_stack lock ts sub rr ctx id st).
Proof.
  intros Hok. unfold finish_stack. apply Forall_rev in Hok.
  destruct (split_match lock sub (rev st)) as [Hs _].
  assert (Forall (txn_ok h) (above lock sub (rev st)) /\
          Forall (txn_ok h) (default [] (below lock sub (rev st)))) as [Ha Hb].
  { destruct (below lock sub (rev st)) as [b|]; simpl.
    - destruct Hs as (t & _ & Hr). rewrite Hr in Hok. apply Forall_app in Hok as [? Hb].
      by inversion Hb.
    - destruct Hs as [Hr _]. rewrite Hr. split; [done|constructor]. }
  apply Forall_app. split.
  - apply Forall_rev in Hb. unfold flushed. destruct rr; [|done].
    rewrite Forall_forall in *. intros t [_ Ht]%list_elem_of_filter. auto.
  - clear -Ha. revert id. induction Ha as [|t r Ht _ IH]; intros id; simpl; [constructor|].
    apply Forall_app. split; [auto|]. constructor; [exact Ht|constructor].
Qed.

Lemma cnt_zero_ok h p sub st l :
  Forall (txn_ok h) st -> h !! p = Some l -> has_sub_lock (dyn_class l) sub = false ->
  cnt p sub st = 0%nat.
Proof.
  intros Hok Hp Hs. induction Hok as [|t st (l' & Hl' & Hs') _ IH]; simpl; [done|].
  rewrite IH. destruct (txn_matches p sub t) eqn:E; [|done].
  apply andb_true_iff in E as [E1%bool_decide_eq_true E2%bool_decide_eq_true]. congruence.
Qed.

(** ** Steps that may also change lock objects *)

Record teffect (s s' : LM) (ctx : Z) (st' : list TXN) (h' : list RWLock) (n : nat)
    (rows : list txn_row) (hrows : list held_row) : Prop := mkTeffect {
  te_stack : stack_of s' ctx = st';
  te_other : forall c, c <> ctx -> stack_of s' c = stack_of s c;
  te_sorted : sm_sorted (m_activeTXNs s) -> sm_sorted (m_activeTXNs s');
  te_heap : lock_heap s' = h';
  te_locks : m_locks s' = m_locks s;
  te_lockid : m_nextLockID s' = m_nextLockID s;
  te_txnid : m_nextTXNID s' = id_plus n (m_nextTXNID s);
  te_rows : m_txnsOFile s' = m_txnsOFile s ++ rows;
  te_hrows : m_locksHeldOFile s' = m_locksHeldOFile s ++ hrows
}.
Arguments te_stack {_ _ _ _ _ _ _ _}.
Arguments te_other {_ _ _ _ _ _ _ _}.
Arguments te_sorted {_ _ _ _ _ _ _ _}.
Arguments te_heap {_ _ _ _ _ _ _ _}.
Arguments te_locks {_ _ _ _ _ _ _ _}.
Arguments te_lockid {_ _ _ _ _ _ _ _}.
Arguments te_txnid {_ _ _ _ _ _ _ _}.
Arguments te_rows {_ _ _ _ _ _ _ _}.
Arguments te_hrows {_ _ _ _ _ _ _ _}.

Lemma teffect_of s s' ctx st n rows h :
  effect s s' ctx st n rows h -> teffect s s' ctx st (lock_heap s) n rows h.
Proof. intros []; by split. Qed.

Lemma teffect_trans {s1 s2 s3 ctx st2 st3 h2 h3 n1 n2 rows1 rows2 hr1 hr2} :
  teffect s1 s2 ctx st2 h2 n1 rows1 hr1 -> teffect s2 s3 ctx st3 h3 n2 rows2 hr2 ->
  teffect s1 s3 ctx st3 h3 (n1 + n2) (rows1 ++ rows2) (hr1 ++ hr2).
Proof.
  intros [A1 A2 A3 A4 A5 A6 A7 A8 A9] [B1 B2 B3 B4 B5 B6 B7 B8 B9]. split; try congruence; auto.
  - intros c Hc. by rewrite B2, A2.
  - by rewrite B7, A7, id_plus_add.
  - by rewrite B8, A8, app_assoc.
  - by rewrite B9, A9, app_assoc.
Qed.

Lemma load_lock_run p l s : lock_heap s !! p = Some l -> load_lock p s = inr (l, s).
Proof. unfold load_lock. by intros ->. Qed.

Lemma upd_lock_teffect p f l s ctx :
  lock_heap s !! p = Some l ->
  exists s', upd_lock p f s = inr (tt, s')
    /\ teffect s s' ctx (stack_of s ctx) (<[p := f l]> (lock_heap s)) 0 [] [].
Proof.
  intros Hl. eexists. split.
  - unfold upd_lock. rewrite (bind_run (load_lock_run _ _ _ Hl)). reflexivity.
  - split; simpl; rewrite ?app_nil_r; done.
Qed.

(** ** The invariant *)

(** A lock in step with its TXNs.  Only a recursive lock has several writers. *)
Record lock_nest (st : list TXN) (p : nat) (l : RWLock) : Prop := mkLockNest {
  lo_pos : length (lastNPos l) = (cnt p READER_LOCK st + cnt p WRITER_LOCK st)%nat;
  lo_rc : reader_count l = Z.of_nat (cnt p READER_LOCK st);
  lo_wc : Z.of_nat (cnt p WRITER_LOCK st) <= writer_count l;
  lo_excl : (0 < cnt p WRITER_LOCK st)%nat -> cnt p READER_LOCK st = 0%nat;
  lo_class : dyn_class l = class_RLock -> writer_count l = 0
}.

Record LMnest (c0 : Z) (s : LM) : Prop := mkLMnest {
  inv_sorted : sm_sorted (m_activeTXNs s);
  inv_single : forall c, c <> c0 -> stack_of s c = [];
  inv_txns : Forall (txn_ok (lock_heap s)) (stack_of s c0);
  inv_locks : forall p l, lock_heap s !! p = Some l -> lock_nest (stack_of s c0) p l
}.

(** Without recursive acquisitions a lock has one writer at most. *)
Record LMinv (c0 : Z) (s : LM) : Prop := mkLMinv {
  inv_nest : LMnest c0 s;
  inv_once : forall p, (cnt p WRITER_LOCK (stack_of s c0) <= 1)%nat
}.

Lemma txn_ok_insert h p l l' t :
  h !! p = Some l -> dyn_class l' = dyn_class l -> txn_ok h t -> txn_ok (<[p := l']> h) t.
Proof.
  intros Hp Hc (lt & Hlt & Hs). destruct (decide (txn_lock t = p)) as [E|E].
  - exists l'. rewrite E, list_lookup_insert_eq by (by eapply lookup_lt_Some).
    split; [done|]. rewrite Hc. rewrite E in Hlt. by simplify_eq.
  - exists lt. by rewrite list_lookup_insert_ne.
Qed.

(** A step that changes one lock and its TXNs only. *)

Lemma LMnest_step c0 s s' p l l' st' n rows hrows :
  LMnest c0 s -> lock_heap s !! p = Some l ->
  teffect s s' c0 st' (<[p := l']> (lock_heap s)) n rows hrows ->
  dyn_class l' = dyn_class l ->
  Forall (txn_ok (lock_heap s)) st' ->
  (forall q sub, q <> p -> cnt q sub st' = cnt q sub (stack_of s c0)) ->
  lock_nest st' p l' -> LMnest c0 s'.
Proof.
  intros [I1 I2 I3 I4] Hl H Hc Hst Hcnt Hok. split.
  - by apply (te_sorted H).
  - intros c Hne. rewrite (te_other H) by done. auto.
  - rewrite (te_stack H), (te_heap H). eapply Forall_impl; [exact Hst|].
    intros t. by eapply txn_ok_insert.
  - intros q lq. rewrite (te_stack H), (te_heap H).
    destruct (decide (q = p)) as [->|Hne].
    + rewrite list_lookup_insert_eq by (by eapply lookup_lt_Some). by intros [= <-].
    + rewrite list_lookup_insert_ne by done. intros Hq.
      destruct (I4 _ _ Hq) as [P1 P2 P3 P4 P5]. split; by rewrite ?Hcnt.
Qed.

Lemma LMnest_flags c0 s s' p l f :
  LMnest c0 s -> lock_heap s !! p = Some l ->
  teffect s s' c0 (stack_of s c0) (<[p := set_flags f l]> (lock_heap s)) 0 [] [] ->
  LMnest c0 s'.
Proof.
  intros I Hl H. eapply LMnest_step; try done; [by destruct I|].
  destruct (inv_locks _ _ I _ _ Hl). by split.
Qed.

(** What a lock operation leaves behind for its lock. *)
Record op_result (c0 : Z) (s s' : LM) (p : nat) (l l' : RWLock) (st' : list TXN) : Prop :=
  mkOpResult {
  or_eff : exists n rows hrows,
    teffect s s' c0 st' (<[p := l']> (lock_heap s)) n rows hrows;
  or_class : dyn_class l' = dyn_class l;
  or_ok : Forall (txn_ok (lock_heap s)) st';
  or_other : forall q sub, q <> p -> cnt q sub st' = cnt q sub (stack_of s c0)
}.
Arguments or_eff {_ _ _ _ _ _ _}.
Arguments or_class {_ _ _ _ _ _ _}.
Arguments or_ok {_ _ _ _ _ _ _}.
Arguments or_other {_ _ _ _ _ _ _}.

Lemma op_result_inv c0 s s' p l l' st' :
  LMnest c0 s -> lock_heap s !! p = Some l -> op_result c0 s s' p l l' st' ->
  lock_nest st' p l' -> LMnest c0 s'.
Proof. intros I Hl [(n & rows & hrows & H) Hc Hst Ho] Hok. by eapply LMnest_step. Qed.

Lemma op_result_refl c0 s p l :
  LMnest c0 s -> lock_heap s !! p = Some l -> op_result c0 s s p l l (stack_of s c0).
Proof.
  intros I Hl. split; try done; [|by destruct I].
  exists 0%nat, [], []. rewrite list_insert_id by done. apply teffect_of, effect_refl.
Qed.

Lemma op_result_trans c0 s1 s2 s3 p l1 l2 l3 st2 st3 :
  lock_heap s1 !! p = Some l1 ->
  op_result c0 s1 s2 p l1 l2 st2 -> op_result c0 s2 s3 p l2 l3 st3 ->
  op_result c0 s1 s3 p l1 l3 st3.
Proof.
  intros Hl [(n1 & r1 & h1 & H1) C1 O1 Q1] [(n2 & r2 & h2 & H2) C2 O2 Q2].
  pose proof (te_heap H1) as Hh. split.
  - exists (n1 + n2)%nat, (r1 ++ r2), (h1 ++ h2).
    pose proof (teffect_trans H1 H2) as H. rewrite Hh, list_insert_insert in H.
    by rewrite decide_True in H.
  - congruence.
  - rewrite Hh in O2. eapply Forall_impl; [exact O2|]. intros t (lt & Hlt & Hs).
    destruct (decide (txn_lock t = p)) as [E|E].
    + rewrite E, list_lookup_insert_eq in Hlt by (by eapply lookup_lt_Some).
      injection Hlt as <-. exists l1. rewrite E. split; [done|]. congruence.
    + rewrite list_lookup_insert_ne in Hlt by done. by exists lt.
  - intros q sub Hq. rewrite Q2, (te_stack H1) by done. auto.
Qed.

Lemma op_result_heap c0 s s' p l l' st' :
  lock_heap s !! p = Some l -> op_result c0 s s' p l l' st' ->
  lock_heap s' !! p = Some l' /\ stack_of s' c0 = st'.
Proof.
  intros Hl [(n & r & h & H) _ _ _]. rewrite (te_heap H), (te_stack H).
  by rewrite list_lookup_insert_eq by (by eapply lookup_lt_Some).
Qed.

(** A step on the stack of [p] only, without change to lock objects. *)
Lemma op_result_effect c0 s s' p l st' n rows hrows :
  lock_heap s !! p = Some l -> effect s s' c0 st' n rows hrows ->
  Forall (txn_ok (lock_heap s)) st' ->
  (forall q sub, q <> p -> cnt q sub st' = cnt q sub (stack_of s c0)) ->
  op_result c0 s s' p l l st'.
Proof.
  intros Hl H Hok Ho. split; try done. exists n, rows, hrows.
  rewrite list_insert_id by done. by apply teffect_of.
Qed.

Lemma op_result_upd c0 s p f l :
  LMnest c0 s -> lock_heap s !! p = Some l -> dyn_class (f l) = dyn_class l ->
  exists s', upd_lock p f s = inr (tt, s') /\ op_result c0 s s' p l (f l) (stack_of s c0).
Proof.
  intros I Hl Hc. destruct (upd_lock_teffect p f l s c0 Hl) as (s' & E & H).
  exists s'. split; [done|]. split; try done; [by eauto|by destruct I].
Qed.

Lemma op_result_upd' c0 s p f l :
  Forall (txn_ok (lock_heap s)) (stack_of s c0) ->
  lock_heap s !! p = Some l -> dyn_class (f l) = dyn_class l ->
  exists s', upd_lock p f s = inr (tt, s') /\ op_result c0 s s' p l (f l) (stack_of s c0).
Proof.
  intros I Hl Hc. destruct (upd_lock_teffect p f l s c0 Hl) as (s' & E & H).
  exists s'. split; [done|]. split; try done. by eauto.
Qed.

Lemma op_result_txns c0 s s' p l l' st' :
  lock_heap s !! p = Some l -> op_result c0 s s' p l l' st' ->
  Forall (txn_ok (lock_heap s')) (stack_of s' c0).
Proof.
  intros Hl [(n & r & h & H) Hc Hok _]. rewrite (te_heap H), (te_stack H).
  eapply Forall_impl; [exact Hok|]. intros t. by eapply txn_ok_insert.
Qed.

Lemma op_result_print c0 s p sub msg l :
  Forall (txn_ok (lock_heap s)) (stack_of s c0) ->
  lock_heap s !! p = Some l -> has_sub_lock (dyn_class l) sub = true ->
  exists s', print_error p sub msg s = inr (tt, s') /\ op_result c0 s s' p l l (stack_of s c0).
Proof.
  intros I Hl Hs. destruct (print_error_effect p sub msg s c0 l Hl Hs) as (s' & E & H).
  exists s'. split; [done|]. by eapply op_result_effect.
Qed.

Lemma flush_undefined_none p b : cnt p WRITER_LOCK b = 0%nat -> flush_undefined p (rev b) = false.
Proof.
  unfold flush_undefined. destruct b as [|t b]; [done|]. simpl. rewrite last_snoc.
  by destruct (txn_matches p WRITER_LOCK t).
Qed.

(** The flush does not fail when no further writer TXN of the lock is active. *)
Lemma finish_undefined_few p sub rr st :
  (rr = true -> (cnt p WRITER_LOCK st <= if decide (sub = WRITER_LOCK) then 1 else 0)%nat) ->
  finish_undefined p sub rr (rev st) = false.
Proof.
  unfold finish_undefined. destruct rr; [|done]. intros Hrr. specialize (Hrr eq_refl). cbn [andb].
  rewrite <- cnt_rev in Hrr. destruct (split_match p sub (rev st)) as [Hm _].
  destruct (below p sub (rev st)) as [b|]; [|done].
  destruct Hm as (t & Ht & Hst). rewrite Hst, cnt_app in Hrr. simpl in Hrr.
  apply flush_undefined_none. rewrite (matches_same _ _ p WRITER_LOCK _ Ht) in Hrr.
  case_decide; [rewrite bool_decide_eq_true_2 in Hrr by done|]; lia.
Qed.

(** finishTXN when the flush does not fail: it succeeds, and removes one TXN of
    the sub lock if there is one. *)
Lemma op_result_finish c0 s p l ts sub rr ctxOld :
  Forall (txn_ok (lock_heap s)) (stack_of s c0) ->
  lock_heap s !! p = Some l -> has_sub_lock (dyn_class l) sub = true ->
  finish_undefined p sub rr (rev (stack_of s c0)) = false ->
  exists s', finishTXN p ts sub rr c0 ctxOld s = inr ((0 <? cnt p sub (stack_of s c0))%nat, s')
    /\ op_result c0 s s' p l l
         (finish_stack p ts sub rr c0 (m_nextTXNID s) (stack_of s c0)).
Proof.
  intros Hok Hl Hs Hrr.
  destruct (finishTXN_effect p ts sub rr c0 ctxOld s l Hl Hs Hok Hrr) as (s' & E & H).
  rewrite cnt_existsb in E. exists s'. split; [exact E|].
  eapply op_result_effect; [done|exact H|by apply finish_stack_ok|].
  intros q sub' Hq. destruct rr.
  - assert (sub = READER_LOCK \/ sub = WRITER_LOCK) as [-> | ->] by (destruct sub; auto).
    + rewrite cnt_finish_flush by auto. rewrite !bool_decide_eq_false_2 by naive_solver. lia.
    + clear E H. unfold finish_stack.
      rewrite cnt_app, cnt_restarted, cnt_filter_other, cnt_rev by auto.
      rewrite <- (cnt_rev q sub' (stack_of s c0)).
      destruct (split_match p WRITER_LOCK (rev (stack_of s c0))) as [Hm _].
      destruct (below p WRITER_LOCK (rev (stack_of s c0))) as [b|]; simpl.
      * destruct Hm as (t & Ht & Hst). rewrite Hst at 2. rewrite cnt_app. simpl.
        rewrite (matches_same _ _ q sub' _ Ht), bool_decide_eq_false_2 by naive_solver. lia.
      * by destruct Hm as [-> _].
  - rewrite cnt_finish_stack, bool_decide_eq_false_2 by naive_solver. lia.
Qed.

(** ** Rules for a lock operation

    [wp_lock c0 p c l st Q]: from every state where the lock [p] is [l] and
    the stack of the only context [c0] is [st], [c] returns, changes nothing
    but this lock and this stack, and establishes [Q]. *)

Record wf_at (c0 : Z) (p : nat) (s : LM) (l : RWLock) (st : list TXN) : Prop := mkWfAt {
  wf_lock : lock_heap s !! p = Some l;
  wf_stack : stack_of s c0 = st;
  wf_ok : Forall (txn_ok (lock_heap s)) st;
  wf_sorted : sm_sorted (m_activeTXNs s);
  wf_single : forall c, c <> c0 -> stack_of s c = []
}.

Definition wp_lock {A} (c0 : Z) (p : nat) (c : LMop A) (l : RWLock) (st : list TXN)
    (Q : A -> RWLock -> list TXN -> Prop) : Prop :=
  forall s, wf_at c0 p s l st ->
  exists a s' l' st', c s = inr (a, s') /\ op_result c0 s s' p l l' st' /\ Q a l' st'.

Lemma op_result_wf c0 s s' p l l' st st' :
  wf_at c0 p s l st -> op_result c0 s s' p l l' st' -> wf_at c0 p s' l' st'.
Proof.
  intros [W1 W2 W3 W4 W5] H. destruct (op_result_heap _ _ _ _ _ _ _ W1 H) as [H1 H2].
  pose proof (op_result_txns _ _ _ _ _ _ _ W1 H) as H3. rewrite H2 in H3.
  destruct H as [(n & r & h & H) _ _ _]. split; try done.
  - by apply (te_sorted H).
  - intros c Hc. rewrite (te_other H) by done. auto.
Qed.

Section wp_rules.
Context (c0 : Z) (p : nat).

Lemma wp_effect {A} (c : LMop A) l st Q a :
  (forall s, wf_at c0 p s l st -> exists s', c s = inr (a, s')
     /\ effect s s' c0 (stack_of s c0) 0 [] []) ->
  Q a l st -> wp_lock c0 p c l st Q.
Proof.
  intros Hc HQ s W. destruct (Hc s W) as (s' & E & H). exists a, s', l, st.
  destruct W as [W1 W2 W3 _ _]. subst st. split; [done|]. split; [|done].
  by eapply op_result_effect.
Qed.

Lemma wp_pure {A} (c : LMop A) l st Q a :
  (forall s, wf_at c0 p s l st -> c s = inr (a, s)) -> Q a l st -> wp_lock c0 p c l st Q.
Proof. intros Hc. apply wp_effect. intros s W. exists s. split; [auto|apply effect_refl]. Qed.

Lemma wp_ret {A} (a : A) l st (Q : A -> RWLock -> list TXN -> Prop) :
  Q a l st -> wp_lock c0 p (mret a) l st Q.
Proof. by apply wp_pure. Qed.

Lemma wp_bind {A B} (c : LMop A) (k : A -> LMop B) l st Q :
  wp_lock c0 p c l st (fun a l' st' => wp_lock c0 p (k a) l' st' Q) ->
  wp_lock c0 p (c ≫= k) l st Q.
Proof.
  intros Hc s W. destruct (Hc s W) as (a & s1 & l1 & st1 & E & H & Hk).
  pose proof (op_result_wf _ _ _ _ _ _ _ _ W H) as W1.
  destruct (Hk s1 W1) as (b & s2 & l2 & st2 & E2 & H2 & HQ).
  exists b, s2, l2, st2. rewrite (bind_run E). split; [done|]. split; [|done].
  eapply op_result_trans; [by destruct W|done|done].
Qed.

Lemma wp_mono {A} (c : LMop A) l st (Q Q' : A -> RWLock -> list TXN -> Prop) :
  wp_lock c0 p c l st Q -> (forall a l' st', Q a l' st' -> Q' a l' st') ->
  wp_lock c0 p c l st Q'.
Proof.
  intros Hc HQ s W. destruct (Hc s W) as (a & s1 & l1 & st1 & E & H & Hk). eauto 8.
Qed.

Lemma wp_load l st (Q : RWLock -> RWLock -> list TXN -> Prop) :
  Q l l st -> wp_lock c0 p (load_lock p) l st Q.
Proof. apply wp_pure. intros s W. apply load_lock_run. by destruct W. Qed.

Lemma wp_upd f l st (Q : unit -> RWLock -> list TXN -> Prop) :
  dyn_class (f l) = dyn_class l -> Q tt (f l) st -> wp_lock c0 p (upd_lock p f) l st Q.
Proof.
  intros Hc HQ s [W1 W2 W3 _ _]. subst st.
  destruct (op_result_upd' c0 s p f l W3 W1 Hc) as (s' & E & H). by exists tt, s', (f l), (stack_of s c0).
Qed.

Lemma wp_print sub msg l st (Q : unit -> RWLock -> list TXN -> Prop) :
  has_sub_lock (dyn_class l) sub = true -> Q tt l st ->
  wp_lock c0 p (print_error p sub msg) l st Q.
Proof. intros Hs. apply wp_effect. intros s [W1 _ _ _ _]. by eapply print_error_effect. Qed.

Lemma wp_finish ts sub rr ctxOld l st (Q : bool -> RWLock -> list TXN -> Prop) :
  has_sub_lock (dyn_class l) sub = true -> finish_undefined p sub rr (rev st) = false ->
  (forall id, Q (0 <? cnt p sub st)%nat l (finish_stack p ts sub rr c0 id st)) ->
  wp_lock c0 p (finishTXN p ts sub rr c0 ctxOld) l st Q.
Proof.
  intros Hs Hrr HQ s [W1 W2 W3 _ _]. subst st.
  destruct (op_result_finish c0 s p l ts sub rr ctxOld W3 W1 Hs Hrr) as (s' & E & H). eauto 8.
Qed.

Lemma wp_start ts sub l st (Q : unit -> RWLock -> list TXN -> Prop) :
  has_sub_lock (dyn_class l) sub = true ->
  (forall id, Q tt l (st ++ [mkTXN id ts c0 0 p sub])) ->
  wp_lock c0 p (startTXN p ts sub c0) l st Q.
Proof.
  intros Hs HQ s [W1 W2 W3 _ _]. subst st.
  destruct (startTXN_effect p ts sub c0 s) as (s' & E & H). do 4 eexists. split; [exact E|].
  split; [|apply HQ]. eapply op_result_effect; [done|exact H| |].
  - apply Forall_app. split; [done|]. constructor; [|constructor]. by exists l.
  - intros q sub' Hq. rewrite cnt_app. simpl. unfold txn_matches at 1. simpl.
    rewrite (bool_decide_eq_false_2 (p = q)) by done. simpl. lia.
Qed.

Lemma wp_hasActive l st (Q : bool -> RWLock -> list TXN -> Prop) :
  Q (match st with [] => false | _ => true end) l st ->
  wp_lock c0 p (hasActiveTXN c0) l st Q.
Proof.
  apply wp_effect. intros s [_ W2 _ _ _]. subst st. apply hasActiveTXN_effect.
Qed.

Lemma wp_isOnTXNStack sub l st (Q : bool -> RWLock -> list TXN -> Prop) :
  Q (0 <? cnt p sub st)%nat l st ->
  wp_lock c0 p (isOnTXNStack c0 p sub) l st Q.
Proof.
  apply wp_effect. intros s [_ W2 _ _ _]. subst st.
  destruct (activeTXNs_at_effect c0 s) as (s1 & E & H). exists s1. split; [|done].
  unfold isOnTXNStack. by rewrite (bind_run E), cnt_existsb.
Qed.

Lemma wp_findTXN sub l st (Q : Z -> RWLock -> list TXN -> Prop) :
  Q c0 l st -> wp_lock c0 p (findTXN p sub c0) l st Q.
Proof.
  apply wp_pure. intros s [_ _ _ W4 W5]. unfold findTXN, gets. do 2 f_equal.
  assert (forall k st', (k, st') ∈ m_activeTXNs s -> k <> c0 -> st' = []) as He.
  { intros k st' Hin Hk. specialize (W5 k Hk). unfold stack_of in W5.
    by rewrite (sm_elem_find _ _ _ W4 Hin) in W5. }
  clear W4 W5. induction (m_activeTXNs s) as [|[k st'] m IH]; simpl; [done|].
  assert (findTXN_loop m p sub c0 = c0) as ->
    by (apply IH; intros k' st'' Hin; apply He; by right).
  destruct st' as [|t st']; [done|].
  destruct (decide (k = c0)) as [->|Hk]; [by destruct (existsb _ _)|].
  discriminate (He k (t :: st')); [by left|done].
Qed.

Lemma wp_strip kernelDir file l st (Q : string -> RWLock -> list TXN -> Prop) :
  kernelDir <> EmptyString -> (forall f, Q f l st) ->
  wp_lock c0 p (strip_kernelDir kernelDir file) l st Q.
Proof.
  intros Hk HQ s W. unfold strip_kernelDir.
  destruct (last (String.list_ascii_of_string kernelDir)) as [c|] eqn:E.
  - cbv zeta. destruct (String.index _ _ file); eapply wp_ret; auto.
  - destruct kernelDir as [|a k]; [done|]. apply last_None in E. done.
Qed.
End wp_rules.
