(* ===== verification/LockRefine.v ===== *)
(** * Locks against an abstract reader-writer lock

    Every lock operation of the single-context converter is a step of an
    abstract lock: its readers, its writers, and the [writer_count] the code
    keeps beside them; [rw_step] for operations that are not recursive,
    [rw_next] for all. *)
From S2P Require Import Prelude StdMap LockTypes LockManager RWLock LockInv.
Local Open Scope string_scope.
Local Open Scope list_scope.
Local Open Scope Z_scope.

Record rw := mkRW { rw_readers : nat; rw_writers : nat; rw_count : Z }.

Definition lock_abs (st : list TXN) (p : nat) (l : RWLock) : rw :=
  mkRW (cnt p READER_LOCK st) (cnt p WRITER_LOCK st) (writer_count l).

(** [None]: the code throws. *)
Definition rw_step (op : LOCK_OP) (a : rw) : option rw :=
  match op with
  | P_WRITE =>
      if (0 <? rw_count a) && (0 <? rw_readers a)%nat then None
      else Some (mkRW 0 1 (rw_count a + 1))
  | P_READ =>
      if (0 <? rw_count a) && (0 <? rw_readers a)%nat then None
      else Some (mkRW (S (rw_readers a)) 0 (if (rw_writers a =? 1)%nat then 0 else rw_count a))
  | V_WRITE => Some (mkRW (rw_readers a) (rw_writers a - 1) (Z.max 0 (rw_count a - 1)))
  | V_READ => Some (mkRW (rw_readers a - 1) (rw_writers a) (rw_count a))
  end.

(** The step with or without the flag of a recursive lock; any number of writers. *)
Definition rw_next (recursive : bool) (op : LOCK_OP) (a : rw) : option rw :=
  match op with
  | P_WRITE =>
      if (0 <? rw_count a) && (0 <? rw_readers a)%nat then None
      else Some (mkRW 0
        (if recursive && (0 <? rw_count a) then S (rw_writers a) else Nat.max 1 (rw_writers a))
        (rw_count a + 1))
  | P_READ =>
      if (0 <? rw_count a) && (0 <? rw_readers a)%nat then None
      else Some (mkRW (S (rw_readers a)) (rw_writers a - 1)
        (if (0 <? rw_writers a)%nat then 0 else rw_count a))
  | V_WRITE => Some (mkRW (rw_readers a) (rw_writers a - 1) (Z.max 0 (rw_count a - 1)))
  | V_READ => Some (mkRW (rw_readers a - 1) (rw_writers a) (rw_count a))
  end.

(** On a lock with one writer at most, [rw_step] is the step without the flag. *)
Lemma rw_step_next op a : (rw_writers a <= 1)%nat ->
  rw_step op a = rw_next false op a /\ forall a', rw_step op a = Some a' -> (rw_writers a' <= 1)%nat.
Proof.
  destruct a as [r [|[|w]] c]; simpl; [..|lia]; intros _; destruct op; simpl;
    repeat case_match; split; try done; intros a' [= <-]; simpl; lia.
Qed.

Definition recursive (flags : Z) : bool := negb (Z.land flags LOCK_FLAGS_RECURSIVE =? 0).

(** The operations a lock class has. *)
Definition op_sub (op : LOCK_OP) : SUB_LOCK :=
  match op with P_READ | V_READ => READER_LOCK | P_WRITE | V_WRITE => WRITER_LOCK end.

Lemma drain_lastNPos_length count ps :
  drain_lastNPos count ps = count - Z.of_nat (length ps).
Proof. revert count. induction ps as [|x ps IH]; intros c; simpl; [lia|]. rewrite IH. lia. Qed.

Lemma set_reader_count_id l : reader_count l = 0 -> set_reader_count 0 l = l.
Proof. destruct l. simpl. by intros ->. Qed.
Lemma set_writer_count_id l : writer_count l = 0 -> set_writer_count 0 l = l.
Proof. destruct l. simpl. by intros ->. Qed.
Lemma set_lastNPos_id l : length (lastNPos l) = 0%nat -> set_lastNPos [] l = l.
Proof. destruct l as [??????????[|??]]; simpl; [done|lia]. Qed.

(** The block that both V operations share. *)
Definition release_TXN (this : nat) (sub : SUB_LOCK) (ts ctx : Z) (l : RWLock) : LMop unit :=
  match lastNPos l with
  | _ :: _ =>
      active ← hasActiveTXN ctx;
      onStack ← (if active : bool then isOnTXNStack ctx this sub else mret false);
      ctx' ← (if negb active || negb onStack then
                ctx' ← findTXN this sub ctx;
                active' ← hasActiveTXN ctx';
                (if bool_decide (ctx' = ctx) && negb active' then
                   print_error this sub "TXN: V() but no running TXN!"
                 else mret tt);;;
                mret ctx'
              else mret ctx);
      found ← finishTXN this ts sub false ctx' ctx;
      if found : bool then pop_lastNPos this else mret tt
  | [] => print_error this sub "No last locking position known, cannot pop."
  end.

Section ops.
Context (c0 : Z) (p : nat).

Lemma wp_pop l st ps pos (Q : unit -> RWLock -> list TXN -> Prop) :
  lastNPos l = pos :: ps -> Q tt (set_lastNPos ps l) st ->
  wp_lock c0 p (pop_lastNPos p) l st Q.
Proof.
  intros Hps HQ. apply wp_bind, wp_load. rewrite Hps. by apply wp_upd.
Qed.

(** A release removes one TXN of the sub lock, if there is one. *)
Lemma wp_release sub ts l st (Q : unit -> RWLock -> list TXN -> Prop) :
  has_sub_lock (dyn_class l) sub = true ->
  (cnt p sub st <= length (lastNPos l))%nat ->
  (forall st' ps, length ps = (length (lastNPos l) - (if (0 <? cnt p sub st)%nat then 1 else 0))%nat ->
     (forall sub', cnt p sub' st' = (cnt p sub' st - if decide (sub' = sub) then 1 else 0)%nat) ->
     Q tt (set_lastNPos ps l) st') ->
  wp_lock c0 p (release_TXN p sub ts c0 l) l st Q.
Proof.
  intros Hs Hlen HQ. unfold release_TXN.
  assert (set_lastNPos (lastNPos l) l = l) as Eid by (by destruct l).
  destruct (lastNPos l) as [|pos ps] eqn:Hps.
  { apply wp_print; [done|]. rewrite <- Eid. apply HQ; simpl in *.
    - destruct (0 <? _)%nat; lia.
    - intros sub'. case_decide; subst; lia. }
  apply wp_bind, wp_hasActive, wp_bind.
  eapply (wp_mono _ _ _ _ _ (fun b l' st' => b = (0 <? cnt p sub st)%nat /\ l' = l /\ st' = st)).
  { destruct st; [by apply wp_ret|by apply wp_isOnTXNStack]. }
  intros onStack ? ? (-> & -> & ->). apply wp_bind.
  assert (wp_lock c0 p (if negb (match st with [] => false | _ => true end)
      || negb (0 <? cnt p sub st)%nat then
        ctx' ← findTXN p sub c0;
        active' ← hasActiveTXN ctx';
        (if bool_decide (ctx' = c0) && negb active' then
           print_error p sub "TXN: V() but no running TXN!"
         else mret tt);;;
        mret ctx'
      else mret c0) l st (fun c l' st' => c = c0 /\ l' = l /\ st' = st)) as Hctx.
  { destruct (negb _ || negb _); [|by apply wp_ret].
    apply wp_bind, wp_findTXN, wp_bind, wp_hasActive, wp_bind.
    destruct (bool_decide _ && negb _); [apply wp_print; [done|]|apply wp_ret]; by apply wp_ret. }
  eapply wp_mono; [exact Hctx|]. intros c ? ? (-> & -> & ->).
  apply wp_bind, wp_finish; [done|by apply finish_undefined_few|]. intros id.
  assert (forall sub', cnt p sub' (finish_stack p ts sub false c0 id st) =
     (cnt p sub' st - if decide (sub' = sub) then 1 else 0)%nat) as Hc.
  { intros sub'. rewrite cnt_finish_stack. f_equal.
    destruct (decide (sub' = sub)); [rewrite bool_decide_eq_true_2|rewrite bool_decide_eq_false_2]; naive_solver. }
  destruct (0 <? cnt p sub st)%nat.
  - eapply wp_pop; [done|]. apply HQ; simpl; [lia|done].
  - apply wp_ret. rewrite <- Eid. apply HQ; simpl; [lia|done].
Qed.

(** The end of both P operations: a new top of [lastNPos] and a new TXN. *)
Lemma wp_acquire sub f ts file line kernelDir l st (Q : unit -> RWLock -> list TXN -> Prop) :
  has_sub_lock (dyn_class l) sub = true -> kernelDir <> EmptyString ->
  dyn_class (f l) = dyn_class l ->
  (forall pos id, Q tt (set_lastNPos (pos :: lastNPos (f l)) (f l))
                    (st ++ [mkTXN id ts c0 0 p sub])) ->
  wp_lock c0 p (upd_lock p f;;;
    lastFile ← strip_kernelDir kernelDir file;
    upd_lock p (fun l =>
      set_lastNPos (mkLockPos sub ts (s32 line) lastFile :: lastNPos l) l);;;
    startTXN p ts sub c0) l st Q.
Proof.
  intros Hs Hk Hf HQ. apply wp_bind, wp_upd; [done|]. apply wp_bind, wp_strip; [done|].
  intros lastFile. apply wp_bind, wp_upd; [done|]. apply wp_start; [simpl; by rewrite Hf|].
  intros id. apply HQ.
Qed.

Definition op_post (a : rw) (_ : unit) (l' : RWLock) (st' : list TXN) : Prop :=
  lock_nest st' p l' /\ lock_abs st' p l' = a.

Context (ts line flags : Z) (file kernelDir : string).
Hypothesis Hkd : kernelDir <> EmptyString.

Lemma wp_V_WRITE rec l st a :
  lock_nest st p l -> has_sub_lock (dyn_class l) WRITER_LOCK = true ->
  rw_next rec V_WRITE (lock_abs st p l) = Some a ->
  wp_lock c0 p (writeTransition p V_WRITE ts file line flags kernelDir c0) l st (op_post a).
Proof.
  intros [P1 P2 P3 P4 P5] Hs [= <-]. apply wp_bind, wp_upd; [done|].
  apply wp_bind, wp_load, wp_bind.
  apply wp_release; [done|simpl; lia|]. simpl. intros st' ps Hps Hcnt.
  pose proof (Hcnt READER_LOCK) as HR. pose proof (Hcnt WRITER_LOCK) as HW. simpl in HR, HW.
  apply wp_bind, wp_load. simpl. destruct (Z.eqb_spec (writer_count l) 0).
  - apply wp_print; [done|]. split.
    + destruct (Nat.ltb_spec 0 (cnt p WRITER_LOCK st)); split; simpl; try lia; done.
    + unfold lock_abs; simpl. f_equal; lia.
  - apply wp_upd; [done|]. split.
    + destruct (Nat.ltb_spec 0 (cnt p WRITER_LOCK st)); split; simpl; try lia; by intros ?%P5.
    + unfold lock_abs; simpl. f_equal; lia.
Qed.

Lemma wp_V_READ rec l st a :
  lock_nest st p l -> has_sub_lock (dyn_class l) READER_LOCK = true ->
  rw_next rec V_READ (lock_abs st p l) = Some a ->
  wp_lock c0 p (readTransition p V_READ ts file line flags kernelDir c0) l st (op_post a).
Proof.
  intros [P1 P2 P3 P4 P5] Hs [= <-]. apply wp_bind, wp_upd; [done|].
  apply wp_bind, wp_load, wp_bind.
  apply wp_release; [done|simpl; lia|]. simpl. intros st' ps Hps Hcnt.
  pose proof (Hcnt READER_LOCK) as HR. pose proof (Hcnt WRITER_LOCK) as HW. simpl in HR, HW.
  apply wp_bind, wp_load. simpl. destruct (Z.eqb_spec (reader_count l) 0).
  - apply wp_print; [done|]. split.
    + destruct (Nat.ltb_spec 0 (cnt p READER_LOCK st)); split; simpl; try lia; done.
    + unfold lock_abs; simpl. f_equal; lia.
  - apply wp_upd; [done|]. split.
    + destruct (Nat.ltb_spec 0 (cnt p READER_LOCK st)); split; simpl; try lia; by intros ?%P5.
    + unfold lock_abs; simpl. f_equal; lia.
Qed.

(** The counts of the stack with one more TXN. *)
Lemma cnt_snoc sub id st sub' :
  cnt p sub' (st ++ [mkTXN id ts c0 0 p sub]) =
  (cnt p sub' st + if decide (sub' = sub) then 1 else 0)%nat.
Proof.
  rewrite cnt_app. simpl. unfold txn_matches. simpl. rewrite bool_decide_eq_true_2 by done.
  destruct (decide (sub' = sub)) as [->|Hn];
    [rewrite bool_decide_eq_true_2|rewrite bool_decide_eq_false_2]; simpl; congruence || lia.
Qed.

(** P_WRITE while readers hold the lock: all of them are flushed. *)
Lemma wp_flush_readers l st (Q : unit -> RWLock -> list TXN -> Prop) :
  lock_nest st p l -> has_sub_lock (dyn_class l) WRITER_LOCK = true ->
  has_sub_lock (dyn_class l) READER_LOCK = true ->
  cnt p WRITER_LOCK st = 0%nat -> 0 < reader_count l ->
  (forall st', (forall sub, cnt p sub st' = 0%nat) ->
     Q tt (set_lastNPos [] (set_reader_count 0 l)) st') ->
  wp_lock c0 p (
    print_error p WRITER_LOCK "Read-side is already beeing held.";;;
    found ← finishTXN p ts READER_LOCK true c0 c0;
    if found : bool then
      upd_lock p (fun l => set_lastNPos [] (set_reader_count
        (drain_lastNPos (reader_count l) (lastNPos l)) l));;;
      l ← load_lock p;
      if negb (reader_count l =? 0) then
        print_error p WRITER_LOCK "Inconsistent reader_count, still above zero";;;
        upd_lock p (set_reader_count 0)
      else mret tt
    else print_error p WRITER_LOCK "Cannot flush all reader.") l st Q.
Proof.
  intros [P1 P2 P3 P4 P5] Hw Hr Hz Hrc HQ. apply wp_bind, wp_print; [done|].
  apply wp_bind, wp_finish; [done|apply finish_undefined_few; intros _; simpl; lia|]. intros id.
  assert (0 <? cnt p READER_LOCK st = true)%nat as -> by (apply Nat.ltb_lt; lia).
  apply wp_bind, wp_upd; [done|]. apply wp_bind, wp_load. simpl.
  rewrite drain_lastNPos_length, P1, P2, Hz.
  replace (Z.of_nat _ - _) with 0 by lia. simpl.
  apply wp_ret, HQ. intros sub. rewrite cnt_finish_flush by auto.
  destruct sub; [by rewrite bool_decide_eq_true_2|].
  rewrite !bool_decide_eq_false_2 by naive_solver. by rewrite Hz.
Qed.

(** The end of P_WRITE: one more writer on a lock without readers. *)
Lemma wp_write_acquired l st w a :
  has_sub_lock (dyn_class l) WRITER_LOCK = true ->
  cnt p READER_LOCK st = 0%nat -> cnt p WRITER_LOCK st = w -> length (lastNPos l) = w ->
  reader_count l = 0 -> Z.of_nat w <= writer_count l ->
  a = mkRW 0 (S w) (writer_count l + 1) ->
  wp_lock c0 p (upd_lock p (fun l => set_writer_count (writer_count l + 1) l);;;
      lastFile ← strip_kernelDir kernelDir file;
      upd_lock p (fun l =>
        set_lastNPos (mkLockPos WRITER_LOCK ts (s32 line) lastFile :: lastNPos l) l);;;
      startTXN p ts WRITER_LOCK c0) l st (op_post a).
Proof.
  intros Hw HR HW Hps Hrc Hwc ->. apply wp_acquire; [done|done|done|]. intros pos id. split.
  - split; simpl; rewrite ?cnt_snoc, ?HR, ?HW; simpl; try lia.
    intros Hc. rewrite Hc in Hw. discriminate.
  - unfold lock_abs; simpl. rewrite !cnt_snoc, HR, HW. simpl. f_equal. lia.
Qed.

Lemma wp_P_WRITE l st a :
  lock_nest st p l -> has_sub_lock (dyn_class l) WRITER_LOCK = true ->
  (has_sub_lock (dyn_class l) READER_LOCK = false -> cnt p READER_LOCK st = 0%nat) ->
  rw_next (recursive flags) P_WRITE (lock_abs st p l) = Some a ->
  wp_lock c0 p (writeTransition p P_WRITE ts file line flags kernelDir c0) l st (op_post a).
Proof.
  intros Hok Hw Hr Ha. pose proof Hok as [P1 P2 P3 P4 P5]. simpl in Ha.
  destruct ((0 <? writer_count l) && (0 <? cnt p READER_LOCK st)%nat) eqn:Hinv; [done|].
  injection Ha as <-.
  apply wp_bind, wp_upd; [done|]. apply wp_bind, wp_load, wp_bind. simpl.
  destruct (Z.eqb_spec (writer_count l) 0) as [Hwc|Hwc]; simpl.
  - rewrite Hwc. simpl. rewrite andb_false_r. replace (Nat.max 1 _) with 1%nat by lia.
    destruct (Z.ltb_spec 0 (reader_count l)) as [Hrc|Hrc]; simpl.
    + apply wp_flush_readers; simpl; try done; try lia.
      { destruct (has_sub_lock (dyn_class l) READER_LOCK); [done|]. rewrite Hr in P2; [lia|done]. }
      intros st' Hst'. apply (wp_write_acquired _ _ 0); simpl; try done; lia || by rewrite Hwc.
    + apply wp_ret. apply (wp_write_acquired _ _ 0); simpl; try done; lia || by rewrite Hwc.
  - rewrite (proj2 (Z.ltb_lt 0 (writer_count l))) in * by lia. simpl in Hinv.
    apply Nat.ltb_ge in Hinv. rewrite andb_true_r. simpl.
    replace (reader_count l =? 0) with true by (symmetry; apply Z.eqb_eq; lia). simpl.
    unfold recursive. destruct (negb (Z.land flags LOCK_FLAGS_RECURSIVE =? 0)).
    + apply wp_ret. apply (wp_write_acquired _ _ (cnt p WRITER_LOCK st)); simpl; try done; lia.
    + apply wp_bind, wp_print; [done|].
      apply wp_bind, wp_finish; [done|done|]. intros id.
      assert (forall sub, cnt p sub (finish_stack p ts WRITER_LOCK false c0 id st) =
        match sub with READER_LOCK => 0%nat | WRITER_LOCK => (cnt p WRITER_LOCK st - 1)%nat end) as Hcnt.
      { intros []; rewrite cnt_finish_stack;
          [rewrite bool_decide_eq_false_2 by naive_solver|rewrite bool_decide_eq_true_2 by done]; lia. }
      destruct (Nat.ltb_spec 0 (cnt p WRITER_LOCK st)) as [Hww|Hww].
      * destruct (lastNPos l) as [|x ps] eqn:Hps; simpl in P1; [lia|].
        eapply wp_pop; [exact Hps|].
        apply (wp_write_acquired _ _ (cnt p WRITER_LOCK st - 1)); simpl; rewrite ?Hcnt; try done; try lia.
        f_equal; lia.
      * apply wp_ret. apply (wp_write_acquired _ _ 0); simpl; rewrite ?Hcnt; try done; try lia.
        f_equal; lia.
Qed.

(** P_READ while writers hold the lock: the TXN of the last one is closed, if
    there is one. *)
Lemma wp_flush_writer l st (Q : unit -> RWLock -> list TXN -> Prop) :
  lock_nest st p l -> has_sub_lock (dyn_class l) WRITER_LOCK = true ->
  has_sub_lock (dyn_class l) READER_LOCK = true -> cnt p READER_LOCK st = 0%nat ->
  finish_undefined p WRITER_LOCK true (rev st) = false ->
  (forall st', cnt p READER_LOCK st' = 0%nat -> cnt p WRITER_LOCK st' = (cnt p WRITER_LOCK st - 1)%nat ->
     Q tt (set_lastNPos [] (set_writer_count
             (if (0 <? cnt p WRITER_LOCK st)%nat then 0 else writer_count l) l)) st') ->
  wp_lock c0 p (
    print_error p READER_LOCK "Write-side is already beeing held.";;;
    found ← finishTXN p ts WRITER_LOCK true c0 c0;
    if found : bool then
      upd_lock p (fun l => set_lastNPos [] (set_writer_count
        (drain_lastNPos (writer_count l) (lastNPos l)) l));;;
      l ← load_lock p;
      if negb (writer_count l =? 0) then
        print_error p READER_LOCK "Inconsistent writer_count, still above zero";;;
        upd_lock p (set_writer_count 0)
      else mret tt
    else print_error p READER_LOCK "Cannot flush all reader.") l st Q.
Proof.
  intros [P1 P2 P3 P4 P5] Hw Hr Hz Hfu HQ. apply wp_bind, wp_print; [done|].
  apply wp_bind, wp_finish; [done|done|]. intros id.
  specialize (HQ (finish_stack p ts WRITER_LOCK true c0 id st)).
  rewrite !cnt_finish_flush in HQ by auto.
  rewrite (bool_decide_eq_true_2 (p = p /\ READER_LOCK = READER_LOCK)) in HQ by done.
  rewrite (bool_decide_eq_false_2 (p = p /\ WRITER_LOCK = READER_LOCK)) in HQ by naive_solver.
  rewrite (bool_decide_eq_true_2 (p = p /\ WRITER_LOCK = WRITER_LOCK)) in HQ by done.
  specialize (HQ eq_refl eq_refl).
  destruct (Nat.ltb_spec 0 (cnt p WRITER_LOCK st)) as [Hww|Hww].
  - apply wp_bind, wp_upd; [done|]. apply wp_bind, wp_load. simpl.
    set (wc := drain_lastNPos _ _). destruct (Z.eqb_spec wc 0) as [->|Hwc]; simpl.
    + by apply wp_ret, HQ.
    + apply wp_bind, wp_print; [done|]. apply wp_upd; [done|]. by apply HQ.
  - apply wp_print; [done|].
    replace l with (set_lastNPos [] (set_writer_count (writer_count l) l)) at 1; [by apply HQ|].
    rewrite set_lastNPos_id by (simpl; lia). by destruct l.
Qed.

(** What P_READ leaves behind: a lock in step again, unless there were several
    writers. *)
Definition read_post (w : nat) (a : rw) (u : unit) (l' : RWLock) (st' : list TXN) : Prop :=
  lock_abs st' p l' = a /\ ((w <= 1)%nat -> lock_nest st' p l').

Lemma wp_P_READ rec l st a :
  lock_nest st p l -> has_sub_lock (dyn_class l) READER_LOCK = true ->
  (has_sub_lock (dyn_class l) WRITER_LOCK = false -> cnt p WRITER_LOCK st = 0%nat) ->
  finish_undefined p WRITER_LOCK true (rev st) = false ->
  rw_next rec P_READ (lock_abs st p l) = Some a ->
  wp_lock c0 p (readTransition p P_READ ts file line flags kernelDir c0) l st
    (read_post (cnt p WRITER_LOCK st) a).
Proof.
  intros Hok Hr Hw Hfu Ha. pose proof Hok as [P1 P2 P3 P4 P5].
  assert (forall l' st', cnt p READER_LOCK st' = cnt p READER_LOCK st ->
    cnt p WRITER_LOCK st' = (cnt p WRITER_LOCK st - 1)%nat -> length (lastNPos l') = cnt p READER_LOCK st ->
    dyn_class l' = dyn_class l -> reader_count l' = reader_count l ->
    writer_count l' = (if (0 <? cnt p WRITER_LOCK st)%nat then 0 else writer_count l) ->
    wp_lock c0 p (upd_lock p (fun l => set_reader_count (reader_count l + 1) l);;;
      lastFile ← strip_kernelDir kernelDir file;
      upd_lock p (fun l =>
        set_lastNPos (mkLockPos READER_LOCK ts (s32 line) lastFile :: lastNPos l) l);;;
      startTXN p ts READER_LOCK c0) l' st' (read_post (cnt p WRITER_LOCK st) a)) as Htail.
  { intros l' st' HR HW Hps Hc Hrc Hwc. apply wp_acquire; [by rewrite Hc|done|done|]. intros pos id.
    simpl in Ha. destruct ((0 <? writer_count l) && (0 <? cnt p READER_LOCK st)%nat); [done|].
    injection Ha as <-. split.
    - unfold lock_abs; simpl. rewrite !cnt_snoc, HR, HW, Hwc. simpl. f_equal; lia.
    - intros Hw1. split; simpl; rewrite ?cnt_snoc, ?HR, ?HW; simpl; try lia.
      + rewrite Hwc. destruct (_ <? _)%nat; lia.
      + intros HC. rewrite Hwc. rewrite Hc in HC. rewrite (P5 HC). by destruct (_ <? _)%nat. }
  simpl in Ha.
  apply wp_bind, wp_upd; [done|]. apply wp_bind, wp_load, wp_bind. simpl.
  destruct (Z.eqb_spec (writer_count l) 0) as [Hwc|Hwc]; simpl.
  - assert (wp_lock c0 p (upd_lock p (fun l => set_reader_count (reader_count l + 1) l);;;
      lastFile ← strip_kernelDir kernelDir file;
      upd_lock p (fun l =>
        set_lastNPos (mkLockPos READER_LOCK ts (s32 line) lastFile :: lastNPos l) l);;;
      startTXN p ts READER_LOCK c0) (set_flags flags l) st (read_post (cnt p WRITER_LOCK st) a)) as Hsame.
    { apply Htail; try done; simpl; [lia|lia|]. destruct (0 <? cnt p WRITER_LOCK st)%nat; [exact Hwc|done]. }
    destruct (0 <? reader_count l); simpl; [by apply wp_ret|].
    rewrite Hwc. by apply wp_ret.
  - destruct (Z.ltb_spec 0 (writer_count l)) as [Hwc'|Hwc']; [simpl|lia].
    destruct (Nat.ltb_spec 0 (cnt p READER_LOCK st)) as [Hrr|Hrr]; [done|].
    replace (reader_count l =? 0) with true by (symmetry; apply Z.eqb_eq; lia). simpl.
    apply wp_flush_writer; simpl; [by split|..|lia|done|].
    { destruct (dyn_class l) eqn:Hc; [done| |done]. rewrite P5 in Hwc' by done. lia. }
    { done. }
    intros st' HR HW. apply Htail; simpl; try done; lia.
Qed.
End ops.

(** ** Refinement *)

Definition op_valid (l : RWLock) (op : LOCK_OP) : bool := has_sub_lock (dyn_class l) (op_sub op).

Definition abs_of (c0 : Z) (s : LM) (p : nat) : option rw :=
  lock_abs (stack_of s c0) p <$> (lock_heap s !! p).

Lemma abs_of_lock c0 s p l :
  lock_heap s !! p = Some l -> abs_of c0 s p = Some (lock_abs (stack_of s c0) p l).
Proof. unfold abs_of. by intros ->. Qed.

Lemma LMnest_wf c0 s p l :
  LMnest c0 s -> lock_heap s !! p = Some l -> wf_at c0 p s l (stack_of s c0).
Proof. intros [I1 I2 I3 I4] Hl. by split. Qed.

Lemma inv_zero c0 s p l sub :
  LMnest c0 s -> lock_heap s !! p = Some l -> has_sub_lock (dyn_class l) sub = false ->
  cnt p sub (stack_of s c0) = 0%nat.
Proof. intros I Hl Hs. destruct I. by eapply cnt_zero_ok. Qed.

(** The read acquisition whose flush dereferences the end of the stack. *)
Definition read_undefined (p : nat) (op : LOCK_OP) (st : list TXN) : bool :=
  bool_decide (op = P_READ) && finish_undefined p WRITER_LOCK true (rev st).

(** The last two writer TXNs of the lock are next to each other. *)
Lemma read_undefined_writers p op st : read_undefined p op st = true ->
  op = P_READ /\ (2 <= cnt p WRITER_LOCK st)%nat.
Proof.
  unfold read_undefined. rewrite andb_true_iff, bool_decide_eq_true. intros [-> Hf]. split; [done|].
  destruct (Nat.le_gt_cases 2 (cnt p WRITER_LOCK st)) as [|Hlt]; [done|].
  rewrite finish_undefined_few in Hf; [done|]. intros _. simpl. lia.
Qed.

Section refinement.
Context (c0 : Z) (s : LM) (p : nat) (l : RWLock) (op : LOCK_OP).
Context (ts line flags : Z) (file kernelDir : string).
Hypothesis (Hinv : LMnest c0 s) (Hl : lock_heap s !! p = Some l).
Hypothesis (Hvalid : op_valid l op = true).
Hypothesis (Hkd : kernelDir <> EmptyString).

Let a := lock_abs (stack_of s c0) p l.

Lemma transition_side :
  transition p op ts file line flags kernelDir c0 s =
  match op_sub op with
  | WRITER_LOCK => writeTransition p op ts file line flags kernelDir c0 s
  | READER_LOCK => readTransition p op ts file line flags kernelDir c0 s
  end.
Proof.
  unfold transition. rewrite (bind_run (load_lock_run _ _ _ Hl)).
  unfold op_valid in Hvalid. destruct (dyn_class l), op; done.
Qed.

Lemma transition_wp a' :
  read_undefined p op (stack_of s c0) = false -> rw_next (recursive flags) op a = Some a' ->
  wp_lock c0 p (match op_sub op with
    | WRITER_LOCK => writeTransition p op ts file line flags kernelDir c0
    | READER_LOCK => readTransition p op ts file line flags kernelDir c0
    end) l (stack_of s c0) (fun _ l' st' => lock_abs st' p l' = a' /\
      ((op = P_READ -> (rw_writers a <= 1)%nat) -> lock_nest st' p l')).
Proof.
  intros Hu Ha. pose proof (inv_locks _ _ Hinv _ _ Hl) as Hok. unfold op_valid in Hvalid.
  destruct op; simpl.
  - eapply wp_mono; [eapply wp_P_READ; try done|].
    + intros ?. by eapply inv_zero.
    + intros _ l' st' [H1 H2]. split; [done|]. intros Hw. by apply H2, Hw.
  - eapply wp_mono; [apply wp_P_WRITE; try done|by intros _ l' st' [H1 H2]].
    intros ?. by eapply inv_zero.
  - eapply wp_mono; [by eapply wp_V_READ|by intros _ l' st' [H1 H2]].
  - eapply wp_mono; [by eapply wp_V_WRITE|by intros _ l' st' [H1 H2]].
Qed.

(** The abstract step is possible, and no flush fails: the code returns, every
    other lock keeps its abstract state, and the state is consistent, unless
    there were several writers before a read acquisition. *)
Lemma transition_step a' :
  read_undefined p op (stack_of s c0) = false -> rw_next (recursive flags) op a = Some a' ->
  exists s', transition p op ts file line flags kernelDir c0 s = inr (tt, s')
    /\ abs_of c0 s' p = Some a'
    /\ (forall q, q <> p -> abs_of c0 s' q = abs_of c0 s q)
    /\ ((op = P_READ -> (rw_writers a <= 1)%nat) -> LMnest c0 s')
    /\ dyn_class <$> lock_heap s' = dyn_class <$> lock_heap s.
Proof.
  intros Hu Ha. rewrite transition_side.
  destruct (transition_wp a' Hu Ha s (LMnest_wf _ _ _ _ Hinv Hl)) as ([] & s' & l' & st' & E & H & Habs & Hok).
  exists s'. split; [by destruct (op_sub op)|].
  destruct (op_result_heap _ _ _ _ _ _ _ Hl H) as [Hl' Hst'].
  split; [by rewrite (abs_of_lock _ _ _ _ Hl'), Hst', Habs|].
  assert (HI : (op = P_READ -> (rw_writers a <= 1)%nat) -> LMnest c0 s').
  { intros Hw. by eapply op_result_inv, Hok. }
  destruct H as [(n & r & h & H) Hc _ Ho]. split; [|split; [exact HI|]]; rewrite ?(te_heap H).
  - intros q Hq. unfold abs_of, lock_abs.
    rewrite (te_heap H), list_lookup_insert_ne, Hst', !Ho by done. done.
  - rewrite list_fmap_insert. apply list_insert_id. by rewrite list_lookup_fmap, Hl, Hc.
Qed.

(** The state in which the test of the counters begins. *)
Lemma transition_start :
  exists s1, upd_lock p (set_flags flags) s = inr (tt, s1)
    /\ load_lock p s1 = inr (set_flags flags l, s1)
    /\ teffect s s1 c0 (stack_of s c0) (<[p := set_flags flags l]> (lock_heap s)) 0 [] [].
Proof.
  destruct (upd_lock_teffect p (set_flags flags) l s c0 Hl) as (s1 & E1 & H1).
  exists s1. split; [done|]. split; [|done]. apply load_lock_run. rewrite (te_heap H1).
  rewrite list_lookup_insert_eq; [done|by eapply lookup_lt_Some].
Qed.

(** It is not: the code throws the exception of the inconsistent state. *)
Lemma transition_throws :
  rw_next (recursive flags) op a = None ->
  transition p op ts file line flags kernelDir c0 s = inl invalid_state.
Proof.
  intros Ha. rewrite transition_side.
  destruct (inv_locks _ _ Hinv _ _ Hl) as [P1 P2 P3 P4 P5].
  assert (0 < writer_count l /\ 0 < reader_count l /\ (op = P_READ \/ op = P_WRITE)) as (Hw & Hr & Hop).
  { rewrite P2. destruct op; simpl in Ha; try discriminate;
    destruct (Z.ltb_spec 0 (writer_count l)), (Nat.ltb_spec 0 (cnt p READER_LOCK (stack_of s c0)));
      simpl in Ha; try discriminate; repeat split; auto; lia. }
  destruct transition_start as (s1 & E1 & E2 & _).
  assert (writer_count l =? 0 = false) as Bw0 by (apply Z.eqb_neq; lia).
  assert (0 <? writer_count l = true) as Bw by (apply Z.ltb_lt; lia).
  assert (0 <? reader_count l = true) as Br by (apply Z.ltb_lt; lia).
  assert (reader_count l =? 0 = false) as Br0 by (apply Z.eqb_neq; lia).
  destruct Hop as [-> | ->]; simpl; unfold readTransition, writeTransition;
    rewrite (bind_run E1), (bind_run E2); simpl; rewrite Bw0, Bw, Br, Br0; done.
Qed.

(** The flush of the writers fails. *)
Lemma transition_undefined :
  read_undefined p op (stack_of s c0) = true ->
  transition p op ts file line flags kernelDir c0 s = inl end_dereferenced.
Proof.
  intros Hu. pose proof (read_undefined_writers _ _ _ Hu) as [Hop Hw2].
  unfold read_undefined in Hu. apply andb_true_iff in Hu as [_ Hu].
  rewrite transition_side. destruct (inv_locks _ _ Hinv _ _ Hl) as [P1 P2 P3 P4 P5].
  destruct transition_start as (s1 & E1 & E2 & H1).
  assert (writer_count l =? 0 = false) as Bw0 by (apply Z.eqb_neq; lia).
  assert (0 <? writer_count l = true) as Bw by (apply Z.ltb_lt; lia).
  assert (reader_count l =? 0 = true) as Br0 by (apply Z.eqb_eq; lia).
  rewrite Hop in *. cbn [op_sub]. unfold readTransition. rewrite (bind_run E1), (bind_run E2).
  simpl. rewrite Bw0, Bw, Br0. cbn [andb].
  assert (Hl1 : lock_heap s1 !! p = Some (set_flags flags l)).
  { rewrite (te_heap H1), list_lookup_insert_eq; [done|by eapply lookup_lt_Some]. }
  assert (Hcl : has_sub_lock (dyn_class (set_flags flags l)) WRITER_LOCK = true).
  { simpl. destruct (dyn_class l) eqn:Hc; [done| |done]. rewrite P5 in Bw by done. done. }
  destruct (print_error_effect p READER_LOCK "Write-side is already beeing held." s1 c0 _ Hl1 Hvalid)
    as (s2 & E3 & H3).
  unfold mbind at 1, M_bind at 1. rewrite (bind_run E3).
  assert (Hst : stack_of s2 c0 = stack_of s c0) by (rewrite (ef_stack H3); apply (te_stack H1)).
  pose proof (finishTXN_cases p ts WRITER_LOCK true c0 c0 s2 (set_flags flags l)) as Hc.
  rewrite (ef_heap H3), Hst in Hc. specialize (Hc Hl1 Hcl). cbv zeta in Hc. rewrite Hu in Hc.
  unfold mbind, M_bind. rewrite Hc; [done|].
  destruct Hinv as [_ _ Hok _]. rewrite (te_heap H1). eapply Forall_impl; [exact Hok|].
  intros t. by eapply txn_ok_insert.
Qed.
End refinement.

(** ** Locks that are never acquired recursively *)

Lemma LMinv_abs c0 s :
  LMinv c0 s <-> LMnest c0 s /\ forall p a, abs_of c0 s p = Some a -> (rw_writers a <= 1)%nat.
Proof.
  split.
  - intros [I Ho]. split; [done|]. intros p a. unfold abs_of.
    destruct (lock_heap s !! p) as [l|]; [|done]. intros [= <-]. apply Ho.
  - intros [I Ho]. split; [done|]. intros p.
    destruct (lock_heap s !! p) as [l|] eqn:Hl.
    + exact (Ho p _ (abs_of_lock c0 s p l Hl)).
    + replace (cnt p WRITER_LOCK (stack_of s c0)) with 0%nat; [lia|]. destruct I as [_ _ Hok _].
      induction Hok as [|t st (l & Ht & _) _ IH]; [done|]. simpl. rewrite <- IH.
      unfold txn_matches. rewrite bool_decide_eq_false_2; [done|]. intros Et. rewrite Et, Hl in Ht. done.
Qed.

Section plain.
Context (c0 : Z) (s : LM) (p : nat) (l : RWLock) (op : LOCK_OP).
Context (ts line flags : Z) (file kernelDir : string).
Hypothesis (Hinv : LMinv c0 s) (Hl : lock_heap s !! p = Some l).
Hypothesis (Hvalid : op_valid l op = true) (Hflags : Z.land flags LOCK_FLAGS_RECURSIVE = 0).
Hypothesis (Hkd : kernelDir <> EmptyString).

Let a := lock_abs (stack_of s c0) p l.

Lemma plain_next : rw_step op a = rw_next (recursive flags) op a /\
  forall a', rw_step op a = Some a' -> (rw_writers a' <= 1)%nat.
Proof. unfold recursive. rewrite Hflags. apply rw_step_next, (inv_once _ _ Hinv). Qed.

Lemma plain_step a' :
  rw_step op a = Some a' ->
  exists s', transition p op ts file line flags kernelDir c0 s = inr (tt, s')
    /\ LMinv c0 s' /\ abs_of c0 s' p = Some a'
    /\ (forall q, q <> p -> abs_of c0 s' q = abs_of c0 s q)
    /\ dyn_class <$> lock_heap s' = dyn_class <$> lock_heap s.
Proof.
  intros Ha. destruct plain_next as [Hn Hw]. pose proof (Hw _ Ha) as Hw'. rewrite Hn in Ha.
  pose proof (inv_once _ _ Hinv p) as H1.
  assert (Hu : read_undefined p op (stack_of s c0) = false).
  { destruct (read_undefined p op (stack_of s c0)) eqn:E; [|done].
    apply read_undefined_writers in E as [_ E]. lia. }
  destruct (transition_step c0 s p l op ts line flags file kernelDir (inv_nest _ _ Hinv) Hl Hvalid Hkd a' Hu Ha)
    as (s' & E & Hp & Ho & HI & Hd).
  exists s'. split; [done|]. split; [|done]. apply LMinv_abs. split; [by apply HI|].
  intros q b. destruct (decide (q = p)) as [->|Hq].
  - rewrite Hp. by intros [= <-].
  - rewrite Ho by done. apply LMinv_abs in Hinv as [_ Hi]. apply Hi.
Qed.

Lemma plain_throws :
  rw_step op a = None -> transition p op ts file line flags kernelDir c0 s = inl invalid_state.
Proof.
  intros Ha. apply (transition_throws c0 s p l); try done; [by apply Hinv|].
  etrans; [symmetry; exact (proj1 plain_next)|exact Ha].
Qed.
End plain.
