(* ===== verification/LockProps.v ===== *)
(** * Properties of the lock manager

    The claims about lock operations, transactions and their rows, each with
    a concrete instance. *)
From S2P Require Import Prelude StdMap LockTypes LockManager RWLock LockInv.
From S2P Require Import LockRefine.
Local Open Scope string_scope.
Local Open Scope list_scope.
Local Open Scope Z_scope.

(** ** Runs of lock operations

    Sequences of operations against the abstract lock, locks entering the
    table, and the final flush of all transactions. *)
(** *** Sequences of operations *)

Record lock_call := mkCall {
  lc_lock : nat; lc_op : LOCK_OP; lc_ts : Z; lc_file : string; lc_line : Z; lc_flags : Z }.

Fixpoint run_calls (kernelDir : string) (ctx : Z) (calls : list lock_call) : LMop unit :=
  match calls with
  | [] => mret tt
  | c :: calls' =>
      transition (lc_lock c) (lc_op c) (lc_ts c) (lc_file c) (lc_line c) (lc_flags c)
        kernelDir ctx;;;
      run_calls kernelDir ctx calls'
  end.

(** The same sequence on abstract locks. *)
Definition abs_state : Type := nat -> option rw.

Definition abs_update (p : nat) (a : rw) (σ : abs_state) : abs_state :=
  fun q => if decide (q = p) then Some a else σ q.

Fixpoint rw_run (calls : list lock_call) (σ : abs_state) : option abs_state :=
  match calls with
  | [] => Some σ
  | c :: calls' =>
      a ← σ (lc_lock c);
      a' ← rw_step (lc_op c) a;
      rw_run calls' (abs_update (lc_lock c) a' σ)
  end.

(** Every call names an allocated lock whose class has the operation, and does
    not ask for a recursive lock. *)
Definition call_ok (cls : list lock_class) (c : lock_call) : bool :=
  match cls !! lc_lock c with
  | Some k => has_sub_lock k (op_sub (lc_op c))
  | None => false
  end && (Z.land (lc_flags c) LOCK_FLAGS_RECURSIVE =? 0).

Lemma call_ok_lock s c :
  call_ok (dyn_class <$> lock_heap s) c = true ->
  exists l, lock_heap s !! lc_lock c = Some l /\ op_valid l (lc_op c) = true
    /\ Z.land (lc_flags c) LOCK_FLAGS_RECURSIVE = 0.
Proof.
  unfold call_ok. rewrite list_lookup_fmap. destruct (lock_heap s !! lc_lock c) as [l|]; [|done].
  simpl. intros [Hv Hf%Z.eqb_eq]%andb_true_iff. eauto.
Qed.

(** The run of the code is the run of the abstract locks; the only failure is
    the exception of [rw_step]. *)
Lemma run_calls_refines kd c0 calls : forall s σ,
  LMinv c0 s -> kd <> EmptyString ->
  forallb (call_ok (dyn_class <$> lock_heap s)) calls = true ->
  (forall p, abs_of c0 s p = σ p) ->
  match rw_run calls σ with
  | Some σ' => exists s', run_calls kd c0 calls s = inr (tt, s')
                 /\ LMinv c0 s' /\ forall p, abs_of c0 s' p = σ' p
  | None => run_calls kd c0 calls s = inl invalid_state
  end.
Proof.
  induction calls as [|c calls IH]; intros s σ I Hk Hok Hσ; simpl; [by exists s|].
  apply andb_true_iff in Hok as [Hc Hok].
  destruct (call_ok_lock s c Hc) as (l & Hl & Hv & Hf).
  rewrite <- Hσ, (abs_of_lock _ _ _ _ Hl). simpl.
  destruct (rw_step (lc_op c) (lock_abs (stack_of s c0) (lc_lock c) l)) as [a'|] eqn:Ha; simpl.
  - destruct (plain_step c0 s (lc_lock c) l (lc_op c) (lc_ts c) (lc_line c) (lc_flags c)
      (lc_file c) kd I Hl Hv Hf Hk a' Ha) as (s1 & E & I1 & H1 & H2 & H3).
    rewrite (bind_run E). apply IH; [done|done|by rewrite H3|].
    intros q. unfold abs_update. case_decide as Hq; [by subst|]. by rewrite H2, Hσ.
  - unfold mbind, M_bind. by rewrite (plain_throws c0 s (lc_lock c) l (lc_op c) (lc_ts c)
      (lc_line c) (lc_flags c) (lc_file c) kd I Hl Hv Hf Ha).
Qed.

(** *** Disciplined sequences *)

(** The operation a correct program may do next. *)
Definition legal (op : LOCK_OP) (a : rw) : bool :=
  match op with
  | P_WRITE => (rw_readers a =? 0)%nat && (rw_writers a =? 0)%nat
  | P_READ => (rw_writers a =? 0)%nat
  | V_WRITE => (0 <? rw_writers a)%nat
  | V_READ => (0 <? rw_readers a)%nat
  end.

Fixpoint legal_run (calls : list lock_call) (σ : abs_state) : bool :=
  match calls with
  | [] => true
  | c :: calls' =>
      match σ (lc_lock c) with
      | Some a =>
          legal (lc_op c) a &&
          match rw_step (lc_op c) a with
          | Some a' => legal_run calls' (abs_update (lc_lock c) a' σ)
          | None => true
          end
      | None => false
      end
  end.

(** The lock is free, held by readers, or held by one writer, and its
    [writer_count] says which. *)
Definition rw_consistent (a : rw) : Prop :=
  rw_count a = Z.of_nat (rw_writers a) /\ (rw_writers a <= 1)%nat
  /\ (rw_writers a = 1%nat -> rw_readers a = 0%nat).

Lemma legal_step op a :
  rw_consistent a -> legal op a = true ->
  exists a', rw_step op a = Some a' /\ rw_consistent a'
    /\ match op with
       | P_WRITE => rw_readers a' = 0%nat /\ rw_writers a' = 1%nat
       | P_READ => rw_readers a' = S (rw_readers a) /\ rw_writers a' = 0%nat
       | V_WRITE => rw_readers a' = rw_readers a /\ S (rw_writers a') = rw_writers a
       | V_READ => S (rw_readers a') = rw_readers a /\ rw_writers a' = rw_writers a
       end.
Proof.
  destruct a as [r w n]. unfold rw_consistent; simpl. intros (-> & Hw & Hx).
  destruct op; simpl.
  - intros ->%Nat.eqb_eq. simpl. eexists. split; [done|]. simpl. lia.
  - intros [->%Nat.eqb_eq ->%Nat.eqb_eq]%andb_true_iff. simpl. eexists. split; [done|]. simpl. lia.
  - intros Hr%Nat.ltb_lt. eexists. split; [done|]. simpl. lia.
  - intros Hr%Nat.ltb_lt. eexists. split; [done|]. simpl. lia.
Qed.

Lemma legal_run_consistent calls : forall σ,
  (forall p a, σ p = Some a -> rw_consistent a) -> legal_run calls σ = true ->
  exists σ', rw_run calls σ = Some σ' /\ forall p a, σ' p = Some a -> rw_consistent a.
Proof.
  induction calls as [|c calls IH]; intros σ Hσ Hl; simpl in *; [by exists σ|].
  destruct (σ (lc_lock c)) as [a|] eqn:Ea; [|done]. simpl.
  apply andb_true_iff in Hl as [Hla Hl].
  destruct (legal_step _ _ (Hσ _ _ Ea) Hla) as (a' & Ha' & Hc & _).
  rewrite Ha' in Hl |- *. simpl. apply IH; [|done].
  intros p b. unfold abs_update. case_decide; [by intros [= <-]|apply Hσ].
Qed.

(** *** Locks enter the table *)

Lemma LMinv_init c0 : LMinv c0 init_LM.
Proof. split; [by split|]. intros p. simpl. lia. Qed.

(** A new lock is free: the invariant extends to it. *)
Lemma allocLock_inv c0 address allocID ty varName flags s p s' :
  LMinv c0 s -> allocLock address allocID ty varName flags s = inr (p, s') ->
  LMinv c0 s' /\ p = length (lock_heap s)
  /\ sm_find address (m_locks s) = None /\ sm_find address (m_locks s') = Some p
  /\ abs_of c0 s' p = Some (mkRW 0 0 0)
  /\ (exists cls, lock_class_of_type ty = Some cls
        /\ dyn_class <$> lock_heap s' = (dyn_class <$> lock_heap s) ++ [cls])
  /\ forall q, q <> p -> abs_of c0 s' q = abs_of c0 s q.
Proof.
  intros [[I1 I2 I3 I4] I5] H. unfold allocLock in H.
  destruct (lock_class_of_type ty) as [cls|] eqn:Hcls; [|done].
  unfold mbind, M_bind, mret, M_ret, gets, modify, sm_emplace in H; simpl in H.
  set (ids := initIDs (new_RWLock cls address allocID ty varName flags) (m_nextLockID s)) in *.
  destruct ids as [ret id'] eqn:Hret; subst ids. simpl in H.
  destruct (sm_find address (m_locks s)) as [q|] eqn:Hfind; [done|].
  injection H as <- <-. simpl.
  assert (dyn_class ret = cls /\ reader_count ret = 0 /\ writer_count ret = 0 /\ lastNPos ret = [])
    as (Hc & Hr & Hw & Hp).
  { unfold initIDs in Hret. simpl in Hret. destruct cls; by injection Hret as <- _. }
  assert (forall sub, cnt (length (lock_heap s)) sub (stack_of s c0) = 0%nat) as Hz.
  { intros sub. clear I4 I5. induction I3 as [|t st (l & Hl & _) _ IH]; simpl; [done|].
    rewrite IH. destruct (txn_matches _ sub t) eqn:E; [|done].
    apply andb_true_iff in E as [E%bool_decide_eq_true _].
    apply lookup_lt_Some in Hl. lia. }
  set (s' := set_locks _ _).
  assert (lock_heap s' !! length (lock_heap s) = Some ret) as Hnew by (simpl; by apply list_lookup_middle).
  split; [split; [split|]|].
  - done.
  - exact I2.
  - eapply Forall_impl; [exact I3|]. intros t (l & Hl & Hs). exists l. split; [|done]. simpl.
    by apply lookup_app_l_Some.
  - intros q l Hq. change (stack_of s' c0) with (stack_of s c0). simpl in Hq.
    apply lookup_app_Some in Hq as [Hq|[Hge Hq]]; [auto|].
    apply list_lookup_singleton_Some in Hq as [Hq <-].
    replace q with (length (lock_heap s)) by lia.
    split; rewrite ?Hz, ?Hr, ?Hw, ?Hp; simpl; lia || done.
  - exact I5.
  - split; [done|]. split; [done|]. split; [by apply sm_find_set_eq|]. split.
    { rewrite (abs_of_lock _ _ _ _ Hnew). unfold lock_abs.
      change (stack_of s' c0) with (stack_of s c0). by rewrite !Hz, Hw. }
    split; [exists cls; split; [done|]; by rewrite fmap_app, <- Hc|].
    intros q Hq. unfold abs_of. change (stack_of s' c0) with (stack_of s c0). simpl.
    destruct (decide (q < length (lock_heap s))%nat).
    + by rewrite lookup_app_l.
    + rewrite !lookup_ge_None_2; [done|lia|rewrite length_app; simpl; lia].
Qed.

(** The ids of a new lock's sub locks come from the counter, which moves past them. *)
Lemma allocLock_ids address allocID ty varName flags s p s' l :
  0 <= m_nextLockID s < 2 ^ 63 -> allocLock address allocID ty varName flags s = inr (p, s') ->
  lock_heap s' !! p = Some l ->
  forall sub id, getID l sub = inr id ->
    m_nextLockID s <= id < m_nextLockID s' /\
    forall sub', getID l sub' = inr id -> sub' = sub.
Proof.
  intros Hid H. unfold allocLock in H.
  destruct (lock_class_of_type ty) as [cls|]; [|done].
  unfold mbind, M_bind, mret, M_ret, gets, modify, sm_emplace in H; simpl in H.
  destruct (initIDs _ _) as [ret id'] eqn:Hret. simpl in H.
  destruct (sm_find address (m_locks s)); [done|]. injection H as <- <-. simpl.
  intros Hl. apply lookup_app_Some in Hl as [Hl%lookup_lt_Some|[_ Hl]]; [lia|].
  rewrite Nat.sub_diag in Hl. injection Hl as <-. unfold initIDs in Hret. simpl in Hret.
  destruct cls; injection Hret as <- <-; intros [] id; unfold getID; simpl; try done; intros [= <-];
    rewrite ?u64_small by (rewrite ?u64_small; lia);
    (split; [lia|]); intros []; simpl; try done; rewrite ?u64_small by lia; intros [= E]; lia.
Qed.

(** *** The final flush *)

Definition all_txns_ok (s : LM) : Prop := forall c, Forall (txn_ok (lock_heap s)) (stack_of s c).

(** finishTXN of the active TXN pops it and restarts nothing. *)
Lemma finish_stack_top t st ts ctx id :
  finish_stack (txn_lock t) ts (txn_subLock t) false ctx id (st ++ [t]) = st.
Proof.
  unfold finish_stack. rewrite rev_unit. simpl. unfold txn_matches.
  rewrite !bool_decide_eq_true_2 by done. simpl. by rewrite rev_involutive, app_nil_r.
Qed.

Lemma close_ctx_empties ctx ts st : forall n s,
  stack_of s ctx = st -> (length st < n)%nat -> Forall (txn_ok (lock_heap s)) st ->
  exists s' k rows hrows, close_ctx n ts ctx s = inr (tt, s') /\ effect s s' ctx [] k rows hrows.
Proof.
  induction st as [|t st IH] using rev_ind; intros [|n] s Hst Hn Hok; try (simpl in Hn; lia);
    cbn [close_ctx]; destruct (hasActiveTXN_effect ctx s) as (s1 & E1 & H1);
    rewrite (bind_run E1); rewrite Hst in *.
  - simpl. eauto 6.
  - replace (match (st ++ [t])%list with [] => false | _ => true end) with true by (by destruct st).
    cbn [negb]. destruct (getActiveTXN_effect ctx s1 t st) as (s2 & E2 & H2); [apply (ef_stack H1)|].
    rewrite (bind_run E2). pose proof (effect_trans H1 H2) as H12.
    destruct (print_msg_effect "TXN: There are still TXNs active, flushing the topmost one." s2 ctx)
      as (s3 & E3 & H3).
    rewrite (bind_run E3). pose proof (effect_trans H12 H3) as H13.
    rewrite (ef_stack H2), (ef_stack H1) in H13.
    apply Forall_app in Hok as [Hok Ht]. inversion Ht as [|? ? (l & Hl & Hs)]; subst.
    assert (stack_of s3 ctx = st ++ [t]) as Hst3 by apply (ef_stack H13).
    destruct (finishTXN_effect (txn_lock t) ts (txn_subLock t) false ctx ctx s3 l) as (s4 & E4 & H4).
    { by rewrite (ef_heap H13). }
    { done. }
    { rewrite Hst3, (ef_heap H13). apply Forall_app. by split. }
    { done. }
    rewrite (bind_run E4). pose proof (effect_trans H13 H4) as H14.
    rewrite Hst3, finish_stack_top in H14.
    destruct (IH n s4) as (s5 & k & rows & hrows & E5 & H5).
    { apply (ef_stack H14). }
    { rewrite length_app in Hn. simpl in Hn. lia. }
    { by rewrite (ef_heap H14). }
    exists s5. rewrite E5. do 3 eexists. split; [done|]. exact (effect_trans H14 H5).
Qed.

Lemma close_ctxs_empties ts ctxs : forall s,
  all_txns_ok s ->
  exists s', close_ctxs ctxs ts s = inr (tt, s')
    /\ (forall c, stack_of s' c = if bool_decide (c ∈ ctxs) then [] else stack_of s c)
    /\ lock_heap s' = lock_heap s.
Proof.
  induction ctxs as [|ctx ctxs IH]; intros s Hok.
  { exists s. split; [done|]. split; [|done]. intros c. rewrite bool_decide_eq_false_2; [done|]. apply not_elem_of_nil. }
  cbn [close_ctxs]. destruct (activeTXNs_at_effect ctx s) as (s1 & E1 & H1).
  rewrite (bind_run E1).
  destruct (close_ctx_empties ctx ts (stack_of s ctx) (S (length (stack_of s ctx))) s1)
    as (s2 & k & rows & hrows & E2 & H2).
  { apply (ef_stack H1). }
  { lia. }
  { rewrite (ef_heap H1). apply Hok. }
  rewrite (bind_run E2). pose proof (effect_trans H1 H2) as H12.
  assert (forall c, stack_of s2 c = if decide (c = ctx) then [] else stack_of s c) as Hst2.
  { intros c. case_decide as Hc; [subst; apply (ef_stack H12)|by apply (ef_other H12)]. }
  destruct (IH s2) as (s3 & E3 & Hst3 & Hh3).
  { intros c. rewrite Hst2, (ef_heap H12). case_decide; [constructor|apply Hok]. }
  exists s3. split; [done|]. split; [|by rewrite Hh3, (ef_heap H12)].
  intros c. rewrite Hst3, Hst2.
  destruct (decide (c = ctx)) as [->|Hc].
  - rewrite (bool_decide_eq_true_2 (ctx ∈ ctx :: ctxs)) by left. by destruct (bool_decide _).
  - destruct (decide (c ∈ ctxs)) as [Hin|Hin].
    + rewrite !bool_decide_eq_true_2; [done|by right|done].
    + rewrite !bool_decide_eq_false_2; [done| |done]. by intros [?|?]%elem_of_cons.
Qed.

(** A table with two locks, an rwlock_t and a mutex. *)
Definition two_locks : LM :=
  match (allocLock 4096 7 "rwlock_t" None 0;;; allocLock 8192 0 "mutex" (Some "m") 0) init_LM with
  | inr (_, s) => s
  | inl _ => init_LM
  end.

Lemma two_locks_inv : LMinv 0 two_locks.
Proof.
  unfold two_locks.
  destruct (allocLock 4096 7 "rwlock_t" None 0 init_LM) as [e|[p s1]] eqn:E1;
    [vm_compute in E1; done|].
  destruct (allocLock_inv 0 _ _ _ _ _ _ _ _ (LMinv_init 0) E1) as [I1 _].
  rewrite (bind_run E1).
  destruct (allocLock 8192 0 "mutex" (Some "m") 0 s1) as [e|[q s2]] eqn:E2; [apply LMinv_init|].
  by destruct (allocLock_inv 0 _ _ _ _ _ _ _ _ I1 E2) as [I2 _].
Qed.

(** (C1) One lock operation, with or without the flag of a recursive lock, of the
    single-context converter on a lock in step with its TXNs.  There are three
    outcomes.  A read acquisition of a lock whose last two writer TXNs are next
    to each other dereferences the end of the TXN stack.  Otherwise the abstract
    step decides: when it is stuck, the "invalid state" exception is thrown;
    when it is not, the operation returns, moves the lock by this step and no
    other lock, and leaves all locks in step, except for a read acquisition of a
    lock with several writers, which keeps the TXNs of all but one of them. *)
Theorem transition_refines c0 s p l op ts line flags file kernelDir :
  LMnest c0 s -> lock_heap s !! p = Some l -> op_valid l op = true -> kernelDir <> EmptyString ->
  let a := lock_abs (stack_of s c0) p l in
  let run := transition p op ts file line flags kernelDir c0 s in
  if read_undefined p op (stack_of s c0) then run = inl (undefined "dereferenced end() of the TXN stack")
  else match rw_next (negb (Z.land flags LOCK_FLAGS_RECURSIVE =? 0)) op a with
  | Some a' =>
      exists s', run = inr (tt, s') /\ abs_of c0 s' p = Some a'
        /\ (forall q, q <> p -> abs_of c0 s' q = abs_of c0 s q)
        /\ ((op = P_READ -> (rw_writers a <= 1)%nat) -> LMnest c0 s')
  | None => run = inl invalid_state
  end.
Proof.
  intros I Hl Hv Hk a run. destruct (read_undefined p op (stack_of s c0)) eqn:Hu.
  { by apply (transition_undefined c0 s p l). }
  fold (recursive flags). destruct (rw_next (recursive flags) op a) as [a'|] eqn:Ha.
  - destruct (transition_step c0 s p l op ts line flags file kernelDir I Hl Hv Hk a' Hu Ha)
      as (s' & ? & ? & ? & ? & _). eauto.
  - by eapply transition_throws.
Qed.

(** The rwlock_t after two recursive write acquisitions. *)
Definition held_twice : LM :=
  match run_calls "/kernel" 0 [mkCall 0 P_WRITE 1 "a.c" 1 1; mkCall 0 P_WRITE 2 "a.c" 2 1] two_locks with
  | inr (_, s) => s
  | inl _ => init_LM
  end.

Lemma held_twice_nest : LMnest 0 held_twice.
Proof.
  assert (stack_of held_twice 0 = [mkTXN 1 1 0 0 0 WRITER_LOCK; mkTXN 2 2 0 0 0 WRITER_LOCK]) as Hst
    by (vm_compute; reflexivity).
  split.
  - vm_compute. repeat constructor.
  - intros c Hc. assert (m_activeTXNs held_twice = [(0, stack_of held_twice 0)]) as Hm by (vm_compute; reflexivity).
    unfold stack_of at 1. rewrite Hm. simpl.
    destruct (Z.compare_spec c 0); [congruence|reflexivity|reflexivity].
  - rewrite Hst. repeat constructor; vm_compute; eexists; split; reflexivity.
  - rewrite Hst. intros [|[|p]] l Hl; vm_compute in Hl; try discriminate; injection Hl as <-;
      split; vm_compute; intuition (discriminate || congruence || lia).
Qed.

(** A third write acquisition nests, a read acquisition is undefined. *)
Lemma transition_refines_witness :
  (exists s', transition 0 P_WRITE 5 "fs/inode.c" 12 1 "/kernel" 0 held_twice = inr (tt, s')
     /\ abs_of 0 s' 0%nat = Some (mkRW 0 3 3) /\ LMnest 0 s')
  /\ transition 0 P_READ 5 "fs/inode.c" 12 1 "/kernel" 0 held_twice =
     inl (undefined "dereferenced end() of the TXN stack").
Proof.
  destruct (lock_heap held_twice !! 0%nat) as [l|] eqn:Hl; [|vm_compute in Hl; discriminate].
  assert (op_valid l P_WRITE = true /\ op_valid l P_READ = true
    /\ lock_abs (stack_of held_twice 0) 0 l = mkRW 0 2 2) as (Hv & Hv' & Ha).
  { vm_compute in Hl. injection Hl as <-. vm_compute. auto. }
  assert ("/kernel" <> EmptyString) as Hk by discriminate.
  pose proof (transition_refines 0 held_twice 0 l P_WRITE 5 12 1 "fs/inode.c" "/kernel"
    held_twice_nest Hl Hv Hk) as H.
  pose proof (transition_refines 0 held_twice 0 l P_READ 5 12 1 "fs/inode.c" "/kernel"
    held_twice_nest Hl Hv' Hk) as H'.
  cbv zeta in H, H'. rewrite Ha in H.
  assert (read_undefined 0 P_WRITE (stack_of held_twice 0) = false) as Eu by (vm_compute; reflexivity).
  assert (read_undefined 0 P_READ (stack_of held_twice 0) = true) as Eu' by (vm_compute; reflexivity).
  rewrite Eu in H. rewrite Eu' in H'. split; [|exact H'].
  destruct H as (s' & E & Hp & _ & HI). exists s'. split; [exact E|]. split; [exact Hp|].
  apply HI. discriminate.
Defined.

(** (C2) Any sequence of valid non-recursive lock operations runs like the
    sequence of abstract steps, from any state of the invariant: same final
    abstract locks, or the exception when an abstract step is stuck.  In
    particular it never dereferences a dangling pointer, pops an empty stack
    or loops. *)
Theorem run_calls_correct kernelDir c0 calls s :
  LMinv c0 s -> kernelDir <> EmptyString ->
  forallb (call_ok (dyn_class <$> lock_heap s)) calls = true ->
  match rw_run calls (abs_of c0 s) with
  | Some σ' => exists s', run_calls kernelDir c0 calls s = inr (tt, s')
                 /\ LMinv c0 s' /\ forall p, abs_of c0 s' p = σ' p
  | None => run_calls kernelDir c0 calls s = inl invalid_state
  end.
Proof. intros. by apply run_calls_refines. Qed.

Definition some_calls : list lock_call :=
  [ mkCall 0 P_READ 10 "a.c" 1 0; mkCall 1 P_WRITE 11 "a.c" 2 0; mkCall 0 P_READ 12 "a.c" 3 0;
    mkCall 1 V_WRITE 13 "a.c" 4 0; mkCall 0 V_READ 14 "a.c" 5 0 ].

Lemma run_calls_correct_witness :
  exists s', run_calls "/kernel" 0 some_calls two_locks = inr (tt, s')
    /\ LMinv 0 s' /\ abs_of 0 s' 0%nat = Some (mkRW 1 0 0) /\ abs_of 0 s' 1%nat = Some (mkRW 0 0 0).
Proof.
  assert ("/kernel" <> EmptyString) as Hk by discriminate.
  pose proof (run_calls_correct "/kernel" 0 some_calls two_locks two_locks_inv Hk eq_refl) as H.
  set (r := rw_run some_calls (abs_of 0 two_locks)) in H.
  assert (match r with Some σ => σ 0%nat = Some (mkRW 1 0 0) /\ σ 1%nat = Some (mkRW 0 0 0)
          | None => False end) as Hr by (vm_compute; auto).
  destruct r as [σ|]; [|contradiction]. destruct H as (s' & E & I & Habs). destruct Hr as [H0 H1].
  exists s'. rewrite !Habs. auto.
Defined.

(** (C3) Sequences in which a program only takes free locks for writing, only
    adds readers to a lock without writer, and only releases what it holds,
    never end in the exception; afterwards every lock is consistent: the
    [writer_count] of the code is its number of writers, at most one, and no
    reader coexists with a writer. *)
Theorem disciplined_run kernelDir c0 calls s :
  LMinv c0 s -> kernelDir <> EmptyString ->
  forallb (call_ok (dyn_class <$> lock_heap s)) calls = true ->
  (forall p a, abs_of c0 s p = Some a -> rw_consistent a) ->
  legal_run calls (abs_of c0 s) = true ->
  exists s', run_calls kernelDir c0 calls s = inr (tt, s')
    /\ LMinv c0 s' /\ forall p a, abs_of c0 s' p = Some a -> rw_consistent a.
Proof.
  intros I Hk Hok Hc Hl.
  destruct (legal_run_consistent calls (abs_of c0 s) Hc Hl) as (σ' & Hrun & Hσ').
  pose proof (run_calls_refines kernelDir c0 calls s (abs_of c0 s) I Hk Hok (fun _ => eq_refl)) as H.
  rewrite Hrun in H. destruct H as (s' & E & I' & Habs). exists s'. split; [done|]. split; [done|].
  intros p a. rewrite Habs. apply Hσ'.
Qed.

Lemma disciplined_run_witness :
  exists s', run_calls "/kernel" 0 some_calls two_locks = inr (tt, s')
    /\ LMinv 0 s' /\ forall p a, abs_of 0 s' p = Some a -> rw_consistent a.
Proof.
  assert ("/kernel" <> EmptyString) as Hk by discriminate.
  apply (disciplined_run "/kernel" 0 some_calls two_locks two_locks_inv Hk eq_refl);
    [|vm_compute; reflexivity].
  intros [|[|p]] a Ha; vm_compute in Ha; try discriminate;
    injection Ha as <-; unfold rw_consistent; simpl; lia.
Defined.

(** (C4) finishTXN, for any stack.  When the readers are to be removed, the TXN of
    the sub lock is active and the next one below it is a writer TXN of the same
    lock, it dereferences the end of the stack.  In all other cases it reports
    whether the TXN of the sub lock is active; the TXNs above it are closed and
    reopened with fresh ids, in their order and at the new time, the TXN itself
    disappears, and what is below is untouched except for the reader TXNs of the
    lock when they are to be removed.  Closed TXNs that saw a memory access are
    written once, with the held locks of the stack as it was when they were
    closed. *)
Theorem finishTXN_correct lock ts sub rr ctx ctxOld s l :
  lock_heap s !! lock = Some l -> has_sub_lock (dyn_class l) sub = true ->
  Forall (txn_ok (lock_heap s)) (stack_of s ctx) ->
  let r := rev (stack_of s ctx) in
  let run := finishTXN lock ts sub rr ctx ctxOld s in
  if rr && match below lock sub r with Some (t :: _) => txn_matches lock WRITER_LOCK t | _ => false end
  then run = inl (undefined "dereferenced end() of the TXN stack")
  else exists s', run = inr (existsb (txn_matches lock sub) (stack_of s ctx), s')
    /\ stack_of s' ctx = finish_stack lock ts sub rr ctx (m_nextTXNID s) (stack_of s ctx)
    /\ (forall c, c <> ctx -> stack_of s' c = stack_of s c)
    /\ lock_heap s' = lock_heap s
    /\ m_nextTXNID s' = id_plus (length (above lock sub r)) (m_nextTXNID s)
    /\ m_txnsOFile s' = m_txnsOFile s ++ mjoin (txn_row_of ts ctxOld <$> closed lock sub r)
    /\ m_locksHeldOFile s' = m_locksHeldOFile s ++ closed_held_rows (lock_heap s) lock sub r.
Proof.
  intros Hl Hs Hok r run. pose proof (finishTXN_cases lock ts sub rr ctx ctxOld s l Hl Hs Hok) as H.
  cbv zeta in H. fold r run in H. rewrite finish_undefined_below in H.
  destruct (rr && _); [done|]. destruct H as (s' & E & []). exists s'. repeat split; done.
Qed.

(** The state with an active TXN of the mutex below two readers. *)
Definition nested : LM :=
  match run_calls "/kernel" 0 [mkCall 1 P_WRITE 3 "a.c" 1 0; mkCall 0 P_READ 4 "a.c" 2 0;
     mkCall 0 P_READ 5 "a.c" 3 0] two_locks with
  | inr (_, s) => s
  | inl _ => init_LM
  end.

Lemma finishTXN_correct_witness :
  (exists s', finishTXN 1 9 WRITER_LOCK false 0 0 nested = inr (true, s')
    /\ stack_of s' 0 = [mkTXN 5 9 0 0 0 READER_LOCK; mkTXN 4 9 0 0 0 READER_LOCK]
    /\ m_nextTXNID s' = 6)
  /\ finishTXN 0 9 WRITER_LOCK true 0 0 held_twice =
     inl (undefined "dereferenced end() of the TXN stack").
Proof.
  split.
  2:{ destruct (lock_heap held_twice !! 0%nat) as [l|] eqn:Hl; [|vm_compute in Hl; discriminate].
      pose proof (finishTXN_correct 0 9 WRITER_LOCK true 0 0 held_twice l Hl) as H. cbv zeta in H.
      assert (rev (stack_of held_twice 0) = [mkTXN 2 2 0 0 0 WRITER_LOCK; mkTXN 1 1 0 0 0 WRITER_LOCK]) as Hst
        by (vm_compute; reflexivity).
      rewrite Hst in H. apply H; [vm_compute in Hl; injection Hl as <-; reflexivity|].
      destruct held_twice_nest as [_ _ Hok _]. exact Hok. }
  destruct (lock_heap nested !! 1%nat) as [l|] eqn:Hl; [|vm_compute in Hl; discriminate].
  assert (has_sub_lock (dyn_class l) WRITER_LOCK = true) as Hs
    by (vm_compute in Hl; injection Hl as <-; reflexivity).
  assert (Forall (txn_ok (lock_heap nested)) (stack_of nested 0)) as Hok.
  { assert (stack_of nested 0 = [mkTXN 1 3 0 0 1 WRITER_LOCK; mkTXN 2 4 0 0 0 READER_LOCK;
      mkTXN 3 5 0 0 0 READER_LOCK]) as -> by (vm_compute; reflexivity).
    repeat constructor; vm_compute; eexists; split; reflexivity. }
  destruct (finishTXN_correct 1 9 WRITER_LOCK false 0 0 nested l Hl Hs Hok)
    as (s' & E & H1 & _ & _ & H2 & _).
  exists s'. rewrite E, H1, H2. vm_compute. auto.
Defined.

(** (C5) closeAllTXNs terminates on every state whose TXNs name allocated
    locks, whatever is active in however many contexts, and leaves every stack
    empty. *)
Theorem closeAllTXNs_correct ts s :
  sm_sorted (m_activeTXNs s) -> (forall c, Forall (txn_ok (lock_heap s)) (stack_of s c)) ->
  exists s', closeAllTXNs ts s = inr (tt, s') /\ (forall c, stack_of s' c = [])
    /\ lock_heap s' = lock_heap s.
Proof.
  intros Hs Hok. destruct (close_ctxs_empties ts (m_activeTXNs s).*1 s Hok) as (s' & E & Hst & Hh).
  exists s'. split; [exact E|]. split; [|done]. intros c. rewrite Hst.
  case_bool_decide as Hin; [done|]. unfold stack_of.
  destruct (sm_find c (m_activeTXNs s)) as [st|] eqn:Hf; [|done].
  exfalso. apply Hin. apply list_elem_of_fmap. exists (c, st). split; [done|].
  by apply sm_find_elem.
Qed.

Lemma closeAllTXNs_correct_witness :
  exists s', closeAllTXNs 20 nested = inr (tt, s') /\ (forall c, stack_of s' c = [])
    /\ lock_heap s' = lock_heap nested.
Proof.
  apply closeAllTXNs_correct.
  - vm_compute. repeat constructor.
  - intros c. destruct (decide (c = 0)) as [->|Hc].
    + assert (stack_of nested 0 = [mkTXN 1 3 0 0 1 WRITER_LOCK; mkTXN 2 4 0 0 0 READER_LOCK;
        mkTXN 3 5 0 0 0 READER_LOCK]) as -> by (vm_compute; reflexivity).
      repeat constructor; vm_compute; eexists; split; reflexivity.
    + assert (m_activeTXNs nested = [(0, stack_of nested 0)]) as Hm by (vm_compute; reflexivity).
      unfold stack_of at 1. rewrite Hm. simpl.
      destruct (Z.compare_spec c 0); [congruence|constructor|constructor].
Defined.

(** allocLock: the new lock is free, is found under its address, which had
    no lock before, and leaves all other locks and the invariant alone; the ids
    of its sub locks are new and distinct, as long as the counter is far from
    its limit. *)
Theorem allocLock_correct c0 address allocID ty varName flags s p s' :
  LMinv c0 s -> allocLock address allocID ty varName flags s = inr (p, s') ->
  0 <= m_nextLockID s < 2 ^ 63 ->
  LMinv c0 s' /\ sm_find address (m_locks s) = None /\ findLock address s' = inr (Some p, s')
  /\ abs_of c0 s p = None /\ abs_of c0 s' p = Some (mkRW 0 0 0)
  /\ (forall q, q <> p -> abs_of c0 s' q = abs_of c0 s q)
  /\ forall l sub id, lock_heap s' !! p = Some l -> getID l sub = inr id ->
       m_nextLockID s <= id < m_nextLockID s' /\ forall sub', getID l sub' = inr id -> sub' = sub.
Proof.
  intros I E Hid. destruct (allocLock_inv c0 _ _ _ _ _ _ _ _ I E) as (I' & -> & H1 & H2 & H3 & _ & H4).
  split; [done|]. split; [done|]. split; [unfold findLock, gets; by rewrite H2|].
  split; [unfold abs_of; by rewrite lookup_ge_None_2|]. split; [done|]. split; [done|].
  intros l sub id Hl. by apply (allocLock_ids _ _ _ _ _ _ _ _ _ Hid E Hl).
Qed.

Lemma allocLock_correct_witness :
  exists s', allocLock 4097 0 "semaphore" None 0 two_locks = inr (2%nat, s')
    /\ LMinv 0 s' /\ abs_of 0 s' 2%nat = Some (mkRW 0 0 0).
Proof.
  destruct (allocLock 4097 0 "semaphore" None 0 two_locks) as [e|[p s']] eqn:E;
    [vm_compute in E; discriminate|].
  assert (p = 2%nat) as -> by (vm_compute in E; injection E as <- _; reflexivity).
  exists s'. destruct (allocLock_correct 0 4097 0 "semaphore" None 0 two_locks 2 s'
    two_locks_inv E) as (I & _ & _ & _ & H & _); [vm_compute; split; [discriminate|reflexivity]|].
  split; [reflexivity|]. split; [exact I|exact H].
Defined.

(** The rwlock code aborts the conversion on a trace in which a
    non-recursive lock is write-acquired twice, released once and then
    read-acquired twice: [writer_count] is not decremented when the second
    acquisition closes the TXN of the first. *)
Theorem double_write_aborts :
  run_calls "/kernel" 0 [mkCall 0 P_WRITE 1 "a.c" 1 0; mkCall 0 P_WRITE 2 "a.c" 2 0;
      mkCall 0 V_WRITE 3 "a.c" 3 0; mkCall 0 P_READ 4 "a.c" 4 0; mkCall 0 P_READ 5 "a.c" 5 0]
    two_locks = inl invalid_state.
Proof. vm_compute. reflexivity. Qed.

(** With a recursive lock, a read acquisition after two nested write
    acquisitions dereferences the end of the TXN stack. *)
Theorem recursive_flush_undefined :
  run_calls "/kernel" 0 [mkCall 0 P_WRITE 1 "a.c" 1 1; mkCall 0 P_WRITE 2 "a.c" 2 1;
      mkCall 0 P_READ 3 "a.c" 3 1] two_locks
  = inl (undefined "dereferenced end() of the TXN stack").
Proof. vm_compute. reflexivity. Qed.
