(* ===== verification/CxxStd.v ===== *)
(** * The C++ string functions the converter uses

    [std::getline] with a delimiter, [std::stoull], [std::stoi] and the output
    of numbers in base 16 and 10. *)
From S2P Require Import Prelude StdMap LockTypes.
From Stdlib Require Import Ascii String.
Local Open Scope string_scope.
Local Open Scope list_scope.
Local Open Scope Z_scope.

(** ** Tokens *)

(** The strings that [while (getline(ss, token, d))] yields: a final empty
    field is not one of them. [acc] is the field read so far, last character
    first. *)
Fixpoint getline_tokens (d : ascii) (acc : list ascii) (s : string) : list string :=
  match s with
  | EmptyString =>
      match acc with [] => [] | _ => [string_of_list_ascii (rev acc)] end
  | String c s' =>
      if bool_decide (c = d) then string_of_list_ascii (rev acc) :: getline_tokens d [] s'
      else getline_tokens d (c :: acc) s'
  end.

Definition tokens (d : ascii) (s : string) : list string := getline_tokens d [] s.

(** [join] puts the delimiter between the fields. *)
Fixpoint join (d : ascii) (fields : list string) : string :=
  match fields with
  | [] => EmptyString
  | [f] => f
  | f :: fs => String.append f (String d (join d fs))
  end.

Definition has_char (d : ascii) (s : string) : bool :=
  existsb (fun c => bool_decide (c = d)) (list_ascii_of_string s).

(** ** Numbers *)

Definition is_space (c : ascii) : bool :=
  let n := nat_of_ascii c in (n =? 32)%nat || ((9 <=? n) && (n <=? 13))%nat.

Definition digit_val (c : ascii) : option Z :=
  let n := Z.of_nat (nat_of_ascii c) in
  if (48 <=? n) && (n <=? 57) then Some (n - 48)
  else if (97 <=? n) && (n <=? 102) then Some (n - 87)
  else if (65 <=? n) && (n <=? 70) then Some (n - 55)
  else None.

Definition base_digit (base : Z) (c : ascii) : option Z :=
  match digit_val c with
  | Some v => if v <? base then Some v else None
  | None => None
  end.

(** The longest prefix of digits: whether there is one, and its value. *)
Fixpoint scan_digits (base acc : Z) (some : bool) (s : string) : option Z :=
  match s with
  | EmptyString => if some then Some acc else None
  | String c s' =>
      match base_digit base c with
      | Some v => scan_digits base (acc * base + v) true s'
      | None => if some then Some acc else None
      end
  end.

Fixpoint skip_space (s : string) : string :=
  match s with
  | String c s' => if is_space c then skip_space s' else s
  | EmptyString => EmptyString
  end.

Definition scan_sign (s : string) : bool * string :=
  match s with
  | String c s' =>
      if bool_decide (c = "-"%char) then (true, s')
      else if bool_decide (c = "+"%char) then (false, s') else (false, s)
  | EmptyString => (false, s)
  end.

(** The prefix [0x] of base 16 counts only before a digit. *)
Definition scan_prefix (base : Z) (s : string) : string :=
  match s with
  | String z (String x (String c s')) =>
      if (base =? 16) && bool_decide (z = "0"%char)
         && (bool_decide (x = "x"%char) || bool_decide (x = "X"%char))
         && bool_decide (is_Some (base_digit base c))
      then String c s' else s
  | _ => s
  end.

(** Sign and magnitude of the number [strtoull] and [strtol] convert. *)
Definition scan_number (base : Z) (s : string) : option (bool * Z) :=
  let '(neg, s1) := scan_sign (skip_space s) in
  match scan_digits base 0 false (scan_prefix base s1) with
  | Some v => Some (neg, v)
  | None => None
  end.

Definition stoull (base : Z) (s : string) : exn + Z :=
  match scan_number base s with
  | None => inl (invalid_argument "stoull")
  | Some (neg, v) =>
      if 2 ^ 64 - 1 <? v then inl (out_of_range "stoull")
      else inr (if neg then u64 (- v) else v)
  end.

(** [unsigned long] is 64 bits wide. *)
Definition stoul (base : Z) (s : string) : exn + Z :=
  match scan_number base s with
  | None => inl (invalid_argument "stoul")
  | Some (neg, v) =>
      if 2 ^ 64 - 1 <? v then inl (out_of_range "stoul")
      else inr (if neg then u64 (- v) else v)
  end.

Definition stoi (base : Z) (s : string) : exn + Z :=
  match scan_number base s with
  | None => inl (invalid_argument "stoi")
  | Some (neg, v) =>
      let v := if neg : bool then - v else v in
      if (v <? - 2 ^ 31) || (2 ^ 31 - 1 <? v) then inl (out_of_range "stoi") else inr v
  end.

(** ** Output *)

Definition digit_char (d : Z) : ascii :=
  ascii_of_nat (Z.to_nat (if d <? 10 then 48 + d else 87 + d)).

Fixpoint print_digits (fuel : nat) (base n : Z) (acc : string) : string :=
  match fuel with
  | O => acc
  | S fuel =>
      let acc' := String (digit_char (n mod base)) acc in
      if n / base =? 0 then acc' else print_digits fuel base (n / base) acc'
  end.

(** [<< dec]; a 64-bit number has at most 20 digits. *)
Definition print_dec (n : Z) : string := print_digits 20 10 n EmptyString.

(** [printf] of [%d]. *)
Definition print_int (n : Z) : string := if n <? 0 then ("-" ++ print_dec (- n))%string else print_dec n.

(** [<< hex << showbase]: no prefix for zero. *)
Definition print_hex (n : Z) : string :=
  if n =? 0 then "0" else String "0" (String "x" (print_digits 16 16 n EmptyString)).

(** ** Round trips *)

Lemma getline_tokens_field d f : forall acc s,
  has_char d f = false ->
  getline_tokens d acc (String.append f (String d s)) =
  string_of_list_ascii (rev acc ++ list_ascii_of_string f) :: getline_tokens d [] s.
Proof.
  induction f as [|c f IH]; intros acc s Hf; simpl.
  - rewrite bool_decide_eq_true_2 by done. by rewrite app_nil_r.
  - unfold has_char in Hf. simpl in Hf. apply orb_false_iff in Hf as [Hc Hf]. rewrite Hc.
    rewrite IH by done. simpl. by rewrite <- app_assoc.
Qed.

Lemma getline_tokens_last d f : forall acc,
  has_char d f = false -> (acc <> [] \/ f <> EmptyString) ->
  getline_tokens d acc f = [string_of_list_ascii (rev acc ++ list_ascii_of_string f)].
Proof.
  induction f as [|c f IH]; intros acc Hf Hne; simpl.
  - rewrite app_nil_r. destruct acc; [naive_solver|done].
  - unfold has_char in Hf. simpl in Hf. apply orb_false_iff in Hf as [Hc Hf]. rewrite Hc.
    rewrite IH by (done || by left). simpl. by rewrite <- app_assoc.
Qed.

(** Joined fields are read back, unless the last field is empty. *)
Lemma tokens_join d fields :
  Forall (fun f => has_char d f = false) fields -> last fields <> Some EmptyString ->
  tokens d (join d fields) = fields.
Proof.
  induction 1 as [|f fs Hf Hfs IH]; intros Hl; [done|]. unfold tokens.
  destruct fs as [|g gs].
  - simpl in *. rewrite getline_tokens_last; [simpl|done|].
    + by rewrite string_of_list_ascii_of_string.
    + right. congruence.
  - change (join d (f :: g :: gs)) with (String.append f (String d (join d (g :: gs)))).
    rewrite getline_tokens_field by done. simpl (rev []).
    rewrite app_nil_l, string_of_list_ascii_of_string. f_equal. by apply IH.
Qed.

Lemma digit_val_char d : 0 <= d < 16 -> digit_val (digit_char d) = Some d.
Proof.
  intros Hd. assert (d = 0 \/ d = 1 \/ d = 2 \/ d = 3 \/ d = 4 \/ d = 5 \/ d = 6 \/ d = 7 \/ d = 8
    \/ d = 9 \/ d = 10 \/ d = 11 \/ d = 12 \/ d = 13 \/ d = 14 \/ d = 15) as H by lia.
  repeat destruct H as [-> | H]; [reflexivity..|subst; reflexivity].
Qed.

Lemma base_digit_char base d : 0 <= d < base -> base <= 16 -> base_digit base (digit_char d) = Some d.
Proof.
  intros Hd Hb. unfold base_digit. rewrite digit_val_char by lia.
  by rewrite (proj2 (Z.ltb_lt d base)) by lia.
Qed.

(** Scanning the printed digits of [n] in front of [s]. *)
Lemma scan_print_digits base fuel : 2 <= base <= 16 -> forall n acc some s,
  0 <= n < base ^ Z.of_nat fuel -> (0 < fuel)%nat ->
  exists k, 0 <= k /\ scan_digits base acc some (print_digits fuel base n s)
    = scan_digits base (acc * base ^ k + n) true s.
Proof.
  intros Hb. induction fuel as [|fuel IH]; intros n acc some s Hn Hf; [lia|]. cbn [print_digits].
  assert (0 <= n mod base < base) by (apply Z.mod_pos_bound; lia).
  destruct (Z.eqb_spec (n / base) 0) as [E|E].
  - exists 1. split; [lia|]. cbn [scan_digits]. rewrite base_digit_char by lia.
    f_equal. rewrite (Z.div_mod n base) at 2 by lia. rewrite E. lia.
  - assert (n / base < base ^ Z.of_nat fuel) as Hlt.
    { apply Z.div_lt_upper_bound; [lia|].
      replace (Z.of_nat (S fuel)) with (Z.succ (Z.of_nat fuel)) in Hn by lia.
      rewrite Z.pow_succ_r in Hn by lia. lia. }
    assert (0 <= n / base) by (apply Z.div_pos; lia).
    destruct fuel as [|fuel]; [simpl in Hlt; lia|].
    destruct (IH (n / base) acc some (String (digit_char (n mod base)) s)) as (k & Hk & ->); [lia..|].
    exists (k + 1). split; [lia|]. cbn [scan_digits]. rewrite base_digit_char by lia.
    f_equal. rewrite Z.pow_add_r by lia. rewrite (Z.div_mod n base) at 3 by lia. lia.
Qed.

Lemma print_digits_head base fuel n s :
  2 <= base <= 16 -> 0 <= n -> (0 < fuel)%nat ->
  exists d s', 0 <= d < base /\ print_digits fuel base n s = String (digit_char d) s'.
Proof.
  intros Hb. revert n s. induction fuel as [|fuel IH]; intros n s Hn Hf; [lia|]. cbn [print_digits].
  assert (0 <= n mod base < base) by (apply Z.mod_pos_bound; lia).
  destruct (n / base =? 0); [eauto|].
  destruct fuel as [|fuel]; [eauto|]. apply IH; [apply Z.div_pos; lia|lia].
Qed.

Lemma scan_prefix_hex c v s :
  base_digit 16 c = Some v -> scan_prefix 16 (String "0" (String "x" (String c s))) = String c s.
Proof. intros Hc. unfold scan_prefix. by rewrite Hc. Qed.

(** A printed instruction pointer is read back. *)
Lemma stoull_print_hex n : 0 <= n < 2 ^ 64 -> stoull 16 (print_hex n) = inr n.
Proof.
  intros Hn. unfold print_hex. destruct (Z.eqb_spec n 0) as [->|Hz]; [reflexivity|].
  unfold stoull, scan_number.
  destruct (print_digits_head 16 16 n EmptyString) as (d & s' & Hd & Hs); [lia..|].
  change (scan_sign (skip_space (String "0" (String "x" (print_digits 16 16 n EmptyString)))))
    with (false, String "0" (String "x" (print_digits 16 16 n EmptyString))).
  cbv iota beta. rewrite Hs, (scan_prefix_hex _ d) by (by apply base_digit_char).
  rewrite <- Hs.
  destruct (scan_print_digits 16 16 ltac:(lia) n 0 false EmptyString) as (k & Hk & ->); [lia..|].
  simpl. replace (2 ^ 64 - 1 <? 0 * 16 ^ k + n) with false by (symmetry; apply Z.ltb_ge; lia).
  done.
Qed.

Lemma digit_char_no_comma d : 0 <= d < 16 -> bool_decide (digit_char d = ","%char) = false.
Proof.
  intros Hd. apply bool_decide_eq_false_2. intros E.
  pose proof (digit_val_char d Hd) as H. by rewrite E in H.
Qed.

Lemma print_digits_no_comma base fuel : 2 <= base <= 16 -> forall n s,
  has_char "," (print_digits fuel base n s) = has_char "," s.
Proof.
  intros Hb. induction fuel as [|fuel IH]; intros n s; [done|]. cbn [print_digits].
  assert (0 <= n mod base < 16) by (pose proof (Z.mod_pos_bound n base); lia).
  assert (has_char "," (String (digit_char (n mod base)) s) = has_char "," s) as E.
  { unfold has_char. simpl. by rewrite digit_char_no_comma. }
  destruct (n / base =? 0); [done|]. by rewrite IH.
Qed.

Lemma print_hex_no_comma n : 0 <= n < 2 ^ 64 -> has_char "," (print_hex n) = false.
Proof.
  intros Hn. unfold print_hex. destruct (n =? 0); [done|].
  change (has_char "," (print_digits 16 16 n EmptyString) = false).
  by rewrite print_digits_no_comma by lia.
Qed.
