(* ===== verification/Getopt.v ===== *)
(** * getopt and getopt_long of the C library

    As the converter and bb2lines use them: the words of the command line are
    permuted, so that the words that are no options end up behind the others.
    Option strings with optional arguments, with a leading colon, sign or with
    [W;] do not occur. *)
From Stdlib Require Import Ascii String.
From S2P Require Import Prelude.
Local Open Scope list_scope.

(** ** Data *)

Inductive arg_kind := no_argument | required_argument.
#[export] Instance arg_kind_eq : EqDecision arg_kind.
Proof. solve_decision. Defined.

(** [struct option] with a null [flag]. *)
Record long_option := mkLong { lo_name : string; lo_has_arg : arg_kind; lo_val : ascii }.

(** The words; the index of the next one; what is left of the word that is read;
    the words from [first_nonopt] to [last_nonopt] are no options and were
    skipped. *)
Record getopt_state := mkGetopt {
  argv : list string; optind : nat; nextchar : string; first_nonopt : nat; last_nonopt : nat }.

Definition getopt_init (words : list string) : getopt_state := mkGetopt words 1 EmptyString 1 1.

(** A pointer of the array: null behind the last word, nothing further on. *)
Definition word_at (g : getopt_state) (i : nat) : exn + option string :=
  if (i <=? length (argv g))%nat then inr (argv g !! i) else inl (undefined "read behind the null pointer of argv").

(** [argv[optind++]] in the program. *)
Definition next_word (g : getopt_state) : exn + (option string * getopt_state) :=
  match word_at g (optind g) with
  | inl e => inl e
  | inr w => inr (w, mkGetopt (argv g) (S (optind g)) (nextchar g) (first_nonopt g) (last_nonopt g))
  end.

(** A word that is no option does not begin with a dash, or is only a dash. *)
Definition nonoption (w : string) : bool :=
  match w with String "-" (String _ _) => false | _ => true end.

(** ** Permutation *)

(** The skipped words change places with the options behind them. *)
Definition exchange (g : getopt_state) : getopt_state :=
  mkGetopt
    (take (first_nonopt g) (argv g) ++
     drop (last_nonopt g) (take (optind g) (argv g)) ++
     drop (first_nonopt g) (take (last_nonopt g) (argv g)) ++
     drop (optind g) (argv g))
    (optind g) (nextchar g) (first_nonopt g + (optind g - last_nonopt g)) (optind g).

Definition settle (g : getopt_state) : getopt_state :=
  if negb (first_nonopt g =? last_nonopt g)%nat && negb (last_nonopt g =? optind g)%nat then exchange g
  else if negb (last_nonopt g =? optind g)%nat then
    mkGetopt (argv g) (optind g) (nextchar g) (optind g) (last_nonopt g)
  else g.

Fixpoint count_nonoptions (l : list string) : nat :=
  match l with w :: l => if nonoption w then S (count_nonoptions l) else 0 | [] => 0 end.

Definition skip_nonoptions (g : getopt_state) : getopt_state :=
  let i := (optind g + count_nonoptions (drop (optind g) (argv g)))%nat in
  mkGetopt (argv g) i (nextchar g) (first_nonopt g) i.

(** Behind the word [--] nothing is an option. *)
Definition end_of_options (g : getopt_state) : getopt_state :=
  let g := mkGetopt (argv g) (S (optind g)) (nextchar g) (first_nonopt g) (last_nonopt g) in
  let g :=
    if negb (first_nonopt g =? last_nonopt g)%nat && negb (last_nonopt g =? optind g)%nat then exchange g
    else if (first_nonopt g =? last_nonopt g)%nat then
      mkGetopt (argv g) (optind g) (nextchar g) (optind g) (last_nonopt g)
    else g in
  mkGetopt (argv g) (length (argv g)) (nextchar g) (first_nonopt g) (length (argv g)).

(** ** Options *)

(** The letter of an option - ['?'] for one that is not known, lacks its argument
    or has one it should not have - and its argument. *)
Definition answer : Type := ascii * option string.

(** The first of the letters in the option string: [None] when it is not there,
    otherwise whether it takes an argument. *)
Fixpoint find_letter (c : ascii) (optstring : string) : option arg_kind :=
  match optstring with
  | EmptyString => None
  | String o rest =>
      if Ascii.eqb o c then
        Some (match rest with String ":" _ => required_argument | _ => no_argument end)
      else find_letter c rest
  end.

(** The next letter of the current word. *)
Definition short_option (optstring : string) (g : getopt_state) : exn + (answer * getopt_state) :=
  match nextchar g with
  | EmptyString => inl (undefined "read behind the end of a word")
  | String c rest =>
      let i := match rest with EmptyString => S (optind g) | _ => optind g end in
      let next (i : nat) (r : string) := mkGetopt (argv g) i r (first_nonopt g) (last_nonopt g) in
      if Ascii.eqb c ":" || Ascii.eqb c ";" then inr (("?"%char, None), next i rest) else
      match find_letter c optstring with
      | None => inr (("?"%char, None), next i rest)
      | Some no_argument => inr ((c, None), next i rest)
      | Some required_argument =>
          match rest with
          | String _ _ => inr ((c, Some rest), next (S i) EmptyString)
          | EmptyString =>
              if (i =? length (argv g))%nat then inr (("?"%char, None), next i EmptyString) else
              match word_at g i with
              | inl e => inl e
              | inr w => inr ((c, w), next (S i) EmptyString)
              end
          end
      end
  end.

(** The name of a long option and, behind an equals sign, its argument. *)
Fixpoint split_equals (s : string) : string * option string :=
  match s with
  | EmptyString => (EmptyString, None)
  | String c rest =>
      if Ascii.eqb c "=" then (EmptyString, Some rest)
      else let '(name, arg) := split_equals rest in (String c name, arg)
  end.

Definition same_option (a b : long_option) : bool :=
  bool_decide (lo_has_arg a = lo_has_arg b) && Ascii.eqb (lo_val a) (lo_val b).

(** An exact match, or else an abbreviation that is not ambiguous. *)
Definition find_long (longopts : list long_option) (name : string) : option long_option :=
  match List.find (fun o => String.eqb (lo_name o) name) longopts with
  | Some o => Some o
  | None =>
      match List.filter (fun o => String.prefix name (lo_name o)) longopts with
      | [] => None
      | o :: others => if forallb (same_option o) others then Some o else None
      end
  end.

(** The word at [optind], without its two dashes. *)
Definition long_option_word (longopts : list long_option) (word : string) (g : getopt_state) :
    exn + (answer * getopt_state) :=
  let '(name, arg) := split_equals word in
  let next (i : nat) := mkGetopt (argv g) i EmptyString (first_nonopt g) (last_nonopt g) in
  let i := S (optind g) in
  match find_long longopts name with
  | None => inr (("?"%char, None), next i)
  | Some o =>
      match arg, lo_has_arg o with
      | Some arg, required_argument => inr ((lo_val o, Some arg), next i)
      | Some _, no_argument => inr (("?"%char, None), next i)
      | None, no_argument => inr ((lo_val o, None), next i)
      | None, required_argument =>
          if (i <? length (argv g))%nat then
            match word_at g i with
            | inl e => inl e
            | inr w => inr ((lo_val o, w), next (S i))
            end
          else inr (("?"%char, None), next i)
      end
  end.

Definition dash_first (s : string) : bool := match s with String c _ => Ascii.eqb c "-" | EmptyString => false end.
Definition behind_first (s : string) : string := match s with String _ s => s | EmptyString => EmptyString end.

(** The word at [optind] is an option. *)
Definition read_word (optstring : string) (longopts : list long_option) (w : string) (g : getopt_state) :
    exn + (answer * getopt_state) :=
  let word := behind_first w in
  if match longopts with [] => false | _ => dash_first word end then
    long_option_word longopts (behind_first word) g
  else short_option optstring (mkGetopt (argv g) (optind g) word (first_nonopt g) (last_nonopt g)).

(** The start of a word. *)
Definition start_word (optstring : string) (longopts : list long_option) (g : getopt_state) :
    exn + (option answer * getopt_state) :=
  let g := skip_nonoptions (settle g) in
  let g := if bool_decide (argv g !! optind g = Some "--"%string) then end_of_options g else g in
  if (optind g =? length (argv g))%nat then
    let i := if negb (first_nonopt g =? last_nonopt g)%nat then first_nonopt g else optind g in
    inr (None, mkGetopt (argv g) i (nextchar g) (first_nonopt g) (last_nonopt g))
  else
    match argv g !! optind g with
    | None => inl (undefined "no word")
    | Some w =>
        match read_word optstring longopts w g with inl e => inl e | inr (a, g) => inr (Some a, g) end
    end.

(** One call; [None] is the result -1.  With [optind] behind the null pointer of
    the array the call reads what follows it. *)
Definition getopt_long (optstring : string) (longopts : list long_option) (g : getopt_state) :
    exn + (option answer * getopt_state) :=
  match nextchar g with
  | EmptyString =>
      if (length (argv g) <? optind g)%nat then inl (undefined "read behind the null pointer of argv")
      else start_word optstring longopts g
  | _ => match short_option optstring g with inl e => inl e | inr (a, g) => inr (Some a, g) end
  end.

(** Without long options. *)
Definition getopt (optstring : string) (g : getopt_state) : exn + (option answer * getopt_state) :=
  getopt_long optstring [] g.

(** ** Command lines in pieces

    The state between two calls: the options [A] that come first, the words [N]
    that were skipped, the options [O] that were read since, the rest. *)
Definition pieces (A N O rest : list string) : getopt_state :=
  mkGetopt (A ++ N ++ O ++ rest) (length A + length N + length O) EmptyString
    (length A) (length A + length N).

Lemma pieces_init prog words : getopt_init (prog :: words) = pieces [prog] [] [] words.
Proof. reflexivity. Qed.

Lemma eqb_length0 {A} (l : list A) n : (n =? n + length l)%nat = match l with [] => true | _ => false end.
Proof. destruct l; cbn [length]; [apply Nat.eqb_eq|apply Nat.eqb_neq]; lia. Qed.

Lemma exchange_pieces A N O rest : exchange (pieces A N O rest) = pieces (A ++ O) N [] rest.
Proof.
  unfold exchange, pieces. cbn [argv optind first_nonopt last_nonopt nextchar].
  rewrite take_app_length.
  assert (E1 : take (length A + length N + length O) (A ++ N ++ O ++ rest) = A ++ N ++ O).
  { rewrite !app_assoc, take_app_le by (rewrite !length_app; lia). apply take_ge. rewrite !length_app. lia. }
  assert (E2 : take (length A + length N) (A ++ N ++ O ++ rest) = A ++ N).
  { rewrite app_assoc, take_app_le by (rewrite !length_app; lia). apply take_ge. rewrite !length_app. lia. }
  assert (E3 : drop (length A + length N + length O) (A ++ N ++ O ++ rest) = rest).
  { rewrite !app_assoc, drop_app_ge by (rewrite !length_app; lia). rewrite !length_app.
    replace (_ - _)%nat with 0%nat by lia. done. }
  rewrite E1, E2, E3, drop_app_length.
  assert (E4 : drop (length A + length N) (A ++ N ++ O) = O).
  { rewrite app_assoc, drop_app_ge by (rewrite length_app; lia). rewrite length_app.
    replace (_ - _)%nat with 0%nat by lia. done. }
  rewrite E4. cbn [length app]. rewrite !length_app, <-!app_assoc. f_equal; lia.
Qed.

Definition starts_option (rest : list string) : Prop :=
  match rest with w :: _ => nonoption w = false | [] => True end.

Lemma count_nonoptions_app ws rest : Forall (fun w => nonoption w = true) ws -> starts_option rest ->
  count_nonoptions (ws ++ rest) = length ws.
Proof.
  induction 1 as [|w ws Hw _ IH]; intros Hr; cbn [app count_nonoptions length].
  - destruct rest as [|w rest]; [done|]. cbn in *. by rewrite Hr.
  - rewrite Hw. by rewrite IH.
Qed.

Lemma skip_pieces A N O ws rest first last :
  Forall (fun w => nonoption w = true) ws -> starts_option rest ->
  skip_nonoptions (mkGetopt (A ++ N ++ O ++ ws ++ rest) (length A + length N + length O) EmptyString first last) =
  mkGetopt (A ++ N ++ O ++ ws ++ rest) (length A + length N + length O + length ws) EmptyString first
    (length A + length N + length O + length ws).
Proof.
  intros Hw Hr. unfold skip_nonoptions. cbn [argv optind first_nonopt last_nonopt nextchar].
  replace (drop _ _) with (ws ++ rest).
  - by rewrite count_nonoptions_app.
  - rewrite !app_assoc, <-(app_assoc _ ws rest), drop_app_ge; rewrite !length_app; [|lia].
    replace (_ - _)%nat with 0%nat by lia. done.
Qed.

(** The skipped words end up behind the options that were read. *)
Lemma permute_pieces A N O ws rest :
  Forall (fun w => nonoption w = true) ws -> starts_option rest ->
  skip_nonoptions (settle (pieces A N O (ws ++ rest))) = pieces (A ++ O) (N ++ ws) [] rest.
Proof.
  intros Hw Hr. assert (Hs : exists last, settle (pieces A N O (ws ++ rest)) =
    mkGetopt ((A ++ O) ++ N ++ [] ++ ws ++ rest) (length (A ++ O) + length N + length (@nil string)) EmptyString
      (length (A ++ O)) last).
  { unfold settle. cbn [first_nonopt last_nonopt optind pieces].
    destruct N as [|n N]; [rewrite Nat.add_0_r, Nat.eqb_refl|].
    - cbn [negb andb length]. rewrite eqb_length0. destruct O as [|o O]; cbn [negb].
      + eexists. unfold pieces. cbn [app length]. rewrite !app_nil_r, !Nat.add_0_r. reflexivity.
      + eexists. cbn [argv nextchar pieces]. rewrite length_app, <-!app_assoc. cbn [app length].
        rewrite !Nat.add_0_r. reflexivity.
    - rewrite (proj2 (Nat.eqb_neq _ _)) by (cbn [length]; lia). cbn [negb andb].
      rewrite eqb_length0. destruct O as [|o O]; cbn [negb].
      + eexists. unfold pieces. cbn [app length]. rewrite !app_nil_r, !Nat.add_0_r. reflexivity.
      + eexists. rewrite exchange_pieces. reflexivity. }
  destruct Hs as [last ->]. rewrite skip_pieces by done. unfold pieces.
  rewrite !length_app, !app_nil_l, <-!app_assoc. cbn [length]. f_equal; lia.
Qed.

(** The words after the last option. *)
Lemma start_word_end optstring longopts A N O ws : Forall (fun w => nonoption w = true) ws ->
  start_word optstring longopts (pieces A N O ws) =
  inr (None, mkGetopt ((A ++ O) ++ N ++ ws) (length (A ++ O)) EmptyString (length (A ++ O))
    (length (A ++ O) + length (N ++ ws))).
Proof.
  intros Hw. unfold start_word. cbv zeta. pose proof (permute_pieces A N O ws [] Hw I) as Hp.
  rewrite app_nil_r in Hp. rewrite Hp. unfold pieces. cbn [argv optind first_nonopt last_nonopt nextchar length app].
  rewrite !app_nil_r, Nat.add_0_r, <-length_app.
  rewrite lookup_ge_None_2 by lia. rewrite bool_decide_eq_false_2 by done. cbn [argv optind first_nonopt last_nonopt nextchar].
  rewrite Nat.eqb_refl, (length_app (A ++ O)), eqb_length0.
  destruct (N ++ ws); cbn [negb]; [|done]. by rewrite !Nat.add_0_r.
Qed.

Lemma pieces_optind A N O rest :
  argv (pieces A N O rest) !! optind (pieces A N O rest) = head rest /\
  length (argv (pieces A N O rest)) = (optind (pieces A N O rest) + length rest)%nat.
Proof.
  unfold pieces. cbn [argv optind]. split.
  - rewrite !app_assoc, lookup_app_r by (rewrite !length_app; lia). rewrite !length_app.
    replace (_ - _)%nat with 0%nat by lia. by destruct rest.
  - rewrite !length_app. lia.
Qed.

(** The first word that is an option. *)
Lemma start_word_option optstring longopts A N O ws w rest :
  Forall (fun w => nonoption w = true) ws -> nonoption w = false -> w <> "--"%string ->
  start_word optstring longopts (pieces A N O (ws ++ w :: rest)) =
  match read_word optstring longopts w (pieces (A ++ O) (N ++ ws) [] (w :: rest)) with
  | inl e => inl e
  | inr (a, g) => inr (Some a, g)
  end.
Proof.
  intros Hws Hw Hd. unfold start_word. cbv zeta. rewrite permute_pieces by done.
  destruct (pieces_optind (A ++ O) (N ++ ws) [] (w :: rest)) as [Hi Hl]. rewrite Hi. cbn [head].
  rewrite bool_decide_eq_false_2 by congruence.
  rewrite Hi. cbn [head]. rewrite Hl, (proj2 (Nat.eqb_neq _ _)) by (cbn [length]; lia). done.
Qed.

Definition dash (w : string) : string := String "-" w.

Lemma short_pieces A N c v rest optstring :
  Ascii.eqb c ":" || Ascii.eqb c ";" = false ->
  let g := pieces A N [] (dash (String c v) :: rest) in
  short_option optstring (mkGetopt (argv g) (optind g) (String c v) (first_nonopt g) (last_nonopt g)) =
  match find_letter c optstring, v, rest with
  | Some no_argument, EmptyString, _ => inr ((c, None), pieces A N [dash (String c v)] rest)
  | Some required_argument, String _ _, _ => inr ((c, Some v), pieces A N [dash (String c v)] rest)
  | Some required_argument, EmptyString, w :: rest =>
      inr ((c, Some w), pieces A N [dash (String c v); w] rest)
  | Some required_argument, EmptyString, [] => inr (("?"%char, None), pieces A N [dash (String c v)] [])
  | Some no_argument, String _ _, _ =>
      inr ((c, None), mkGetopt (argv g) (optind g) v (first_nonopt g) (last_nonopt g))
  | None, _, _ => inr (("?"%char, None), mkGetopt (argv g)
      (match v with EmptyString => S (optind g) | _ => optind g end) v (first_nonopt g) (last_nonopt g))
  end.
Proof.
  intros Hc g. destruct (pieces_optind A N [] (dash (String c v) :: rest)) as [Hi Hl]. fold g in Hi, Hl.
  assert (Hb : forall O r, O ++ r = dash (String c v) :: rest ->
    mkGetopt (argv g) (optind g + length O) EmptyString (first_nonopt g) (last_nonopt g) = pieces A N O r).
  { intros O r E. unfold g, pieces. cbn [argv optind first_nonopt last_nonopt app length]. rewrite <-E. f_equal. lia. }
  unfold short_option. cbn [nextchar argv optind first_nonopt last_nonopt]. rewrite Hc.
  destruct (find_letter c optstring) as [[]|]; [| |done].
  - destruct v; [|done]. rewrite <-(Hb [dash (String c EmptyString)] rest eq_refl). cbn [length]. by rewrite Nat.add_1_r.
  - destruct v as [|c' v].
    + rewrite Hl. destruct rest as [|w rest].
      * cbn [length]. rewrite Nat.add_1_r, Nat.eqb_refl. rewrite <-(Hb [dash (String c EmptyString)] [] eq_refl).
        cbn [length]. by rewrite Nat.add_1_r.
      * rewrite (proj2 (Nat.eqb_neq _ _)) by (cbn [length]; lia). unfold word_at. cbn [argv].
        rewrite Hl, (proj2 (Nat.leb_le _ _)) by (cbn [length]; lia).
        rewrite <-(Hb [dash (String c EmptyString); w] rest eq_refl). cbn [length].
        replace (argv g !! S (optind g)) with (Some w); [by rewrite !Nat.add_succ_r, Nat.add_0_r|].
        unfold g, pieces. cbn [argv optind length app].
        rewrite app_assoc, lookup_app_r by (rewrite length_app; lia). rewrite length_app.
        replace (_ - _)%nat with 1%nat by lia. done.
    + rewrite <-(Hb [dash (String c (String c' v))] rest eq_refl). cbn [length]. by rewrite Nat.add_1_r.
Qed.

Lemma next_word_pieces A N O w rest :
  next_word (pieces A N O (w :: rest)) = inr (Some w, pieces A N (O ++ [w]) rest).
Proof.
  destruct (pieces_optind A N O (w :: rest)) as [Hi Hl]. unfold next_word, word_at.
  rewrite Hl, (proj2 (Nat.leb_le _ _)), Hi by lia. cbn [head]. do 2 f_equal. unfold pieces.
  cbn [argv optind first_nonopt last_nonopt nextchar]. rewrite <-app_assoc, length_app. cbn [length app]. f_equal. lia.
Qed.


(** One call of [getopt_long] for a word with a single letter. *)
Lemma getopt_letter optstring longopts A N O ws c v rest :
  Forall (fun w => nonoption w = true) ws -> c <> "-"%char -> Ascii.eqb c ":" || Ascii.eqb c ";" = false ->
  getopt_long optstring longopts (pieces A N O (ws ++ dash (String c v) :: rest)) =
  match short_option optstring (let g := pieces (A ++ O) (N ++ ws) [] (dash (String c v) :: rest) in
          mkGetopt (argv g) (optind g) (String c v) (first_nonopt g) (last_nonopt g))
  with inl e => inl e | inr (a, g) => inr (Some a, g) end.
Proof.
  intros Hws Hd Hc. unfold getopt_long. change (nextchar (pieces _ _ _ _)) with EmptyString. cbv iota.
  destruct (pieces_optind A N O (ws ++ dash (String c v) :: rest)) as [_ Hl].
  rewrite Hl, (proj2 (Nat.ltb_ge _ _)) by lia.
  rewrite start_word_option by (done || (unfold dash; congruence)).
  unfold read_word, dash. cbn [behind_first dash_first].
  rewrite (proj2 (Ascii.eqb_neq c "-")) by done. by destruct longopts.
Qed.

Lemma getopt_flag optstring longopts A N O ws c rest :
  Forall (fun w => nonoption w = true) ws -> c <> "-"%char -> Ascii.eqb c ":" || Ascii.eqb c ";" = false ->
  find_letter c optstring = Some no_argument ->
  getopt_long optstring longopts (pieces A N O (ws ++ dash (String c EmptyString) :: rest)) =
  inr (Some (c, None), pieces (A ++ O) (N ++ ws) [dash (String c EmptyString)] rest).
Proof. intros Hws Hd Hc Hf. rewrite getopt_letter, short_pieces by done. by rewrite Hf. Qed.

Lemma getopt_argument optstring longopts A N O ws c v rest :
  Forall (fun w => nonoption w = true) ws -> c <> "-"%char -> Ascii.eqb c ":" || Ascii.eqb c ";" = false ->
  find_letter c optstring = Some required_argument ->
  getopt_long optstring longopts (pieces A N O (ws ++ dash (String c EmptyString) :: v :: rest)) =
  inr (Some (c, Some v), pieces (A ++ O) (N ++ ws) [dash (String c EmptyString); v] rest).
Proof. intros Hws Hd Hc Hf. rewrite getopt_letter, short_pieces by done. by rewrite Hf. Qed.

(** The argument in the same word. *)
Lemma getopt_attached optstring longopts A N O ws c v rest :
  Forall (fun w => nonoption w = true) ws -> c <> "-"%char -> Ascii.eqb c ":" || Ascii.eqb c ";" = false ->
  find_letter c optstring = Some required_argument -> v <> EmptyString ->
  getopt_long optstring longopts (pieces A N O (ws ++ dash (String c v) :: rest)) =
  inr (Some (c, Some v), pieces (A ++ O) (N ++ ws) [dash (String c v)] rest).
Proof. intros Hws Hd Hc Hf Hv. rewrite getopt_letter, short_pieces by done. rewrite Hf. by destruct v. Qed.

(** A long option without argument that is written out. *)
Lemma getopt_long_flag optstring longopts o A N O ws rest :
  Forall (fun w => nonoption w = true) ws ->
  List.find (fun x => String.eqb (lo_name x) (lo_name o)) longopts = Some o -> lo_has_arg o = no_argument ->
  split_equals (lo_name o) = (lo_name o, None) -> lo_name o <> EmptyString ->
  getopt_long optstring longopts (pieces A N O (ws ++ dash (dash (lo_name o)) :: rest)) =
  inr (Some (lo_val o, None), pieces (A ++ O) (N ++ ws) [dash (dash (lo_name o))] rest).
Proof.
  intros Hws Hf Ha Hs Hn. unfold getopt_long. change (nextchar (pieces _ _ _ _)) with EmptyString. cbv iota.
  destruct (pieces_optind A N O (ws ++ dash (dash (lo_name o)) :: rest)) as [_ Hl].
  rewrite Hl, (proj2 (Nat.ltb_ge _ _)) by lia.
  rewrite start_word_option by (done || (unfold dash; destruct (lo_name o); congruence)).
  destruct longopts as [|l longopts]; [done|].
  change (read_word optstring (l :: longopts) (dash (dash (lo_name o)))) with (long_option_word (l :: longopts) (lo_name o)).
  unfold long_option_word. rewrite Hs. unfold find_long. rewrite Hf, Ha.
  unfold pieces. cbn [argv optind first_nonopt last_nonopt app length]. do 3 f_equal. lia.
Qed.

(** The end of the options: -1, and the words that are no options remain. *)
Lemma getopt_end optstring longopts A N O ws : Forall (fun w => nonoption w = true) ws ->
  exists g, getopt_long optstring longopts (pieces A N O ws) = inr (None, g) /\
    argv g = (A ++ O) ++ N ++ ws /\ optind g = length (A ++ O).
Proof.
  intros Hws. unfold getopt_long. change (nextchar (pieces _ _ _ _)) with EmptyString. cbv iota.
  destruct (pieces_optind A N O ws) as [_ Hl]. rewrite Hl, (proj2 (Nat.ltb_ge _ _)) by lia.
  rewrite start_word_end by done. by eexists.
Qed.

(** ** Every call reads something *)

(** The letters of the words from [optind] on, and one for each word. *)
Definition letters (l : list string) : nat := sum_list_with (fun w => S (String.length w)) l.
Definition unread (g : getopt_state) : nat :=
  match nextchar g with
  | EmptyString => letters (drop (optind g) (argv g))
  | s => String.length s + letters (drop (S (optind g)) (argv g))
  end.

(** The skipped words are those before [last_nonopt], and that is not behind [optind]. *)
Definition in_order (g : getopt_state) : Prop :=
  (first_nonopt g <= last_nonopt g)%nat /\ (last_nonopt g <= optind g)%nat.

Lemma letters_app l1 l2 : letters (l1 ++ l2) = (letters l1 + letters l2)%nat.
Proof. apply sum_list_with_app. Qed.

Lemma letters_length l : (length l <= letters l)%nat.
Proof. unfold letters. induction l as [|w l IH]; cbn [length sum_list_with]; lia. Qed.

Lemma letters_drop i j l : (i <= j)%nat -> (letters (drop j l) <= letters (drop i l))%nat.
Proof.
  intros Hij. replace (drop j l) with (drop (j - i) (drop i l)) by (rewrite drop_drop; f_equal; lia).
  generalize (drop i l) (j - i)%nat. clear. intros l. induction l as [|w l IH]; intros [|n]; cbn [drop]; try done.
  specialize (IH n). cbn [letters sum_list_with]. unfold letters in *. lia.
Qed.

Lemma letters_at l i w : l !! i = Some w ->
  letters (drop i l) = (S (String.length w) + letters (drop (S i) l))%nat.
Proof. intros Hw. by rewrite (drop_S _ _ _ Hw). Qed.

Lemma next_word_unread g w g' : in_order g -> next_word g = inr (w, g') ->
  in_order g' /\ (unread g' <= unread g)%nat.
Proof.
  unfold next_word. destruct (word_at g (optind g)); [done|]. intros [H1 H2] [= _ <-]. split.
  - split; cbn; lia.
  - unfold unread. cbn [nextchar argv optind]. destruct (nextchar g);
      [|apply Nat.add_le_mono_l]; apply letters_drop; lia.
Qed.

Lemma short_unread optstring g a g' : in_order g ->
  short_option optstring g = inr (a, g') ->
  in_order g' /\ (unread g' < String.length (nextchar g) + letters (drop (S (optind g)) (argv g)))%nat.
Proof.
  intros [H1 H2]. unfold short_option. destruct (nextchar g) as [|c rest]; [done|].
  set (i := match rest with EmptyString => S (optind g) | _ => optind g end).
  assert (Hi : (optind g <= i)%nat) by (unfold i; destruct rest; lia). cbv zeta.
  assert (Hnext : forall j r, (j = i /\ r = rest) \/ (i <= j /\ S (optind g) <= j /\ r = EmptyString)%nat ->
    in_order (mkGetopt (argv g) j r (first_nonopt g) (last_nonopt g)) /\
    (unread (mkGetopt (argv g) j r (first_nonopt g) (last_nonopt g)) <
     String.length (String c rest) + letters (drop (S (optind g)) (argv g)))%nat).
  { intros j r Hj. split; [split; cbn; lia|]. unfold unread. cbn [nextchar argv optind String.length].
    destruct Hj as [[-> ->]|(Hj & Hj2 & ->)].
    - unfold i. destruct rest; cbn [String.length]; lia.
    - pose proof (letters_drop (S (optind g)) j (argv g)). lia. }
  destruct (_ || _); [intros [= _ <-]; apply Hnext; auto|].
  destruct (find_letter c optstring) as [[]|]; [intros [= _ <-]; apply Hnext; auto| |intros [= _ <-]; apply Hnext; auto].
  destruct rest as [|c' rest].
  - destruct (_ =? _)%nat; [intros [= _ <-]; apply Hnext; auto|]. destruct (word_at g i); [done|]. intros [= _ <-].
    apply Hnext. right. split_and!; [lia|lia|done].
  - intros [= _ <-]. apply Hnext. right. split_and!; [lia|lia|done].
Qed.

Lemma long_unread longopts word g a g' w : in_order g -> argv g !! optind g = Some w ->
  long_option_word longopts word g = inr (a, g') ->
  in_order g' /\ (unread g' < letters (drop (optind g) (argv g)))%nat.
Proof.
  intros [H1 H2] Hw. unfold long_option_word. destruct (split_equals word) as [name arg].
  assert (Hnext : forall j, (S (optind g) <= j)%nat ->
    in_order (mkGetopt (argv g) j EmptyString (first_nonopt g) (last_nonopt g)) /\
    (unread (mkGetopt (argv g) j EmptyString (first_nonopt g) (last_nonopt g)) <
     letters (drop (optind g) (argv g)))%nat).
  { intros j Hj. split; [split; cbn; lia|]. unfold unread. cbn [nextchar argv optind].
    rewrite (letters_at _ _ _ Hw). pose proof (letters_drop (S (optind g)) j (argv g)). lia. }
  cbv zeta. destruct (find_long longopts name) as [o|]; [|intros [= _ <-]; by apply Hnext].
  destruct arg, (lo_has_arg o); try (intros [= _ <-]; by apply Hnext).
  destruct (_ <? _)%nat; [|intros [= _ <-]; by apply Hnext].
  destruct (word_at g _); [done|]. intros [= _ <-]. apply Hnext. lia.
Qed.

(** Permuting does not touch the words from [optind] on. *)
Lemma permute_unread g : in_order g -> (optind g <= length (argv g))%nat ->
  let g' := skip_nonoptions (settle g) in
  in_order g' /\ length (argv g') = length (argv g) /\ (optind g <= optind g')%nat /\
  drop (optind g) (argv g') = drop (optind g) (argv g).
Proof.
  intros [H1 H2] Hl. assert (Hx : drop (optind g) (argv (settle g)) = drop (optind g) (argv g) /\
    length (argv (settle g)) = length (argv g) /\ optind (settle g) = optind g /\ (first_nonopt (settle g) <= optind g)%nat).
  { unfold settle. destruct (_ && _); [|destruct (negb _); cbn; split_and!; done || lia].
    unfold exchange. cbn [argv optind first_nonopt].
    assert (Hf : length (take (first_nonopt g) (argv g) ++ drop (last_nonopt g) (take (optind g) (argv g)) ++
      drop (first_nonopt g) (take (last_nonopt g) (argv g))) = optind g).
    { rewrite !length_app, !length_drop, !length_take. lia. }
    split_and!; [|rewrite !length_app, !length_drop, !length_take; lia|done|lia].
    rewrite !app_assoc, drop_app_ge; rewrite <-?app_assoc, Hf; [|done]. by rewrite Nat.sub_diag. }
  destruct Hx as (Hd & Hla & Ho & Hf). cbv zeta. unfold skip_nonoptions. cbn [argv optind]. rewrite Ho.
  split_and!; [split; cbn; lia|done|lia|done].
Qed.

Lemma getopt_long_unread optstring longopts g a g' : in_order g ->
  getopt_long optstring longopts g = inr (Some a, g') -> in_order g' /\ (unread g' < unread g)%nat.
Proof.
  intros Ho. unfold getopt_long. destruct (nextchar g) eqn:Hn.
  2:{ destruct (short_option optstring g) as [|[b g1]] eqn:Hs; [done|]. intros [= <- <-].
      apply short_unread in Hs; [|done]. unfold unread at 2. by rewrite Hn in Hs |- *. }
  destruct (Nat.ltb_spec (length (argv g)) (optind g)) as [|Hl]; [done|].
  unfold start_word. cbv zeta. destruct (permute_unread g Ho Hl) as (Ho1 & Hl1 & Hi1 & Hd1).
  set (g1 := skip_nonoptions (settle g)) in *. unfold unread at 2. rewrite Hn, <-Hd1.
  pose proof (letters_drop _ _ (argv g1) Hi1) as Hle.
  destruct (bool_decide _).
  { cbn [end_of_options argv optind]. unfold end_of_options. cbv zeta. cbn [argv optind].
    rewrite Nat.eqb_refl. done. }
  destruct (_ =? _)%nat; [done|]. destruct (argv g1 !! optind g1) as [w|] eqn:Hw; [|done].
  destruct (read_word optstring longopts w g1) as [|[b g2]] eqn:Hr; [done|]. intros [= <- <-].
  unfold read_word in Hr. destruct (match longopts with [] => _ | _ => _ end).
  - apply (long_unread _ _ _ _ _ _ Ho1 Hw) in Hr as [Ho2 Hlt]. split; [done|lia].
  - apply short_unread in Hr; [|done].
    cbn [nextchar argv optind] in Hr. destruct Hr as [Ho2 Hlt]. split; [done|].
    rewrite (letters_at _ _ _ Hw) in Hle. destruct w as [|c w]; cbn [behind_first String.length] in *; lia.
Qed.

(** A call fails only by reading where there are no words. *)
Lemma short_error optstring g e : short_option optstring g = inl e -> exists m, e = undefined m.
Proof.
  unfold short_option, word_at. destruct (nextchar g) as [|c rest]; [intros [= <-]; by eexists|]. cbv zeta.
  repeat case_match; intros; simplify_eq; by eexists.
Qed.

Lemma getopt_long_error optstring longopts g e : getopt_long optstring longopts g = inl e -> exists m, e = undefined m.
Proof.
  assert (Hs : forall g e, (match short_option optstring g with inl e => inl e | inr (a, g) => inr (Some a, g) end)
    = inl (B := option answer * getopt_state) e -> exists m, e = undefined m).
  { intros g' e'. destruct (short_option optstring g') as [e1|[]] eqn:E; [|done]. intros [= <-]. by eapply short_error. }
  unfold getopt_long. destruct (nextchar g); [|apply Hs]. destruct (_ <? _)%nat; [intros [= <-]; by eexists|].
  unfold start_word. cbv zeta. set (g1 := if bool_decide _ then _ else _). destruct (_ =? _)%nat; [done|].
  destruct (argv g1 !! optind g1) as [w|]; [|intros [= <-]; by eexists]. unfold read_word. cbv zeta.
  destruct (match longopts with [] => _ | _ => _ end); [|apply Hs].
  destruct (long_option_word _ _ _) as [e1|[]] eqn:E; [|done]. intros [= <-]. revert E.
  unfold long_option_word, word_at. destruct (split_equals _). cbv zeta.
  repeat case_match; intros; simplify_eq; by eexists.
Qed.

(** ** Command lines of short options *)

Inductive item := letter (c : ascii) | letter_with (c : ascii) (v : string) | letter_attached (c : ascii) (v : string)
  | plain_word (w : string).

Definition item_words (x : item) : list string :=
  match x with
  | letter c => [dash (String c EmptyString)]
  | letter_with c v => [dash (String c EmptyString); v]
  | letter_attached c v => [dash (String c v)]
  | plain_word w => [w]
  end.
Definition words_of_items (l : list item) : list string := concat (map item_words l).

Definition letter_ok (optstring : string) (c : ascii) (k : arg_kind) : Prop :=
  c <> "-"%char /\ Ascii.eqb c ":" || Ascii.eqb c ";" = false /\ find_letter c optstring = Some k.
Definition item_ok (optstring : string) (x : item) : Prop :=
  match x with
  | letter c => letter_ok optstring c no_argument
  | letter_with c _ => letter_ok optstring c required_argument
  | letter_attached c v => letter_ok optstring c required_argument /\ v <> EmptyString
  | plain_word w => nonoption w = true
  end.

Definition item_answer (x : item) : option answer :=
  match x with
  | letter c => Some (c, None)
  | letter_with c v | letter_attached c v => Some (c, Some v)
  | plain_word _ => None
  end.
Definition plain_words (l : list item) : list string :=
  omap (fun x => match x with plain_word w => Some w | _ => None end) l.

Lemma getopt_item optstring x a A N O ws rest :
  Forall (fun w => nonoption w = true) ws -> item_ok optstring x -> item_answer x = Some a ->
  getopt optstring (pieces A N O (ws ++ item_words x ++ rest)) =
  inr (Some a, pieces (A ++ O) (N ++ ws) (item_words x) rest).
Proof.
  intros Hws Hok Ha. unfold getopt. destruct x as [c|c v|c v|w]; cbn [item_answer item_words app] in *; [..|done];
    injection Ha as <-.
  - destruct Hok as (Hd & Hc & Hf). by apply getopt_flag.
  - destruct Hok as (Hd & Hc & Hf). by apply getopt_argument.
  - destruct Hok as ((Hd & Hc & Hf) & Hv). by apply getopt_attached.
Qed.

Lemma items_length l : (length l <= length (words_of_items l))%nat.
Proof.
  induction l as [|x l IH]; [done|]. change (words_of_items (x :: l)) with (item_words x ++ words_of_items l).
  rewrite length_app. destruct x; cbn [length item_words]; lia.
Qed.
