(* ===== verification/GzStream.v ===== *)
(** * Streams of compressed files: src/convert/gzstream

    A stream buffer of 303 characters around a file of zlib, the stream classes on
    top of it, and the characters and lines that the iostream library reads and
    writes through it.  zlib is the class [GzFile]. *)
From Stdlib Require Import Ascii String.
From S2P Require Import Prelude CxxStd.
Local Open Scope list_scope.
Local Open Scope Z_scope.

(** ** zlib *)

(** [gzread] gives the characters it has read, [None] for an error; [gzwrite] the
    number of those it has written; [gzclose] whether the result is [Z_OK]. *)
Class GzFile (F : Type) := {
  gzread : F -> nat -> option (list ascii) * F;
  gzwrite : F -> list ascii -> Z * F;
  gzclose : F -> bool
}.

(** ** Data *)

Definition ios_app : Z := 1.
Definition ios_ate : Z := 2.
Definition ios_in : Z := 8.
Definition ios_out : Z := 16.
Definition has_mode (mode bit : Z) : bool := negb (Z.land mode bit =? 0).

Definition bufferSize : nat := 47 + 256.

(** Characters that were never written are [None].  The pointers are positions in
    the buffer; [pbase] is 0 and [epptr] is [bufferSize - 1]. *)
Record gzstreambuf (F : Type) := mkGz {
  gz_file : option F;
  buffer : list (option ascii);
  opened : bool;
  mode : Z;
  eback : nat; gptr : nat; egptr : nat;
  pptr : nat
}.
Arguments mkGz {F}.
Arguments gz_file {F}.
Arguments buffer {F}.
Arguments opened {F}.
Arguments mode {F}.
Arguments eback {F}.
Arguments gptr {F}.
Arguments egptr {F}.
Arguments pptr {F}.

Definition gz_init {F} : gzstreambuf F := mkGz None (replicate bufferSize None) false 0 4 4 4 0.

Section Buffer.
Context {F : Type} `{GzFile F}.
Notation GM := (M (gzstreambuf F) exn).

(** *** open and close *)

(** The mode string, if [open] gets as far as [gzopen]. *)
Definition open_mode_string (m : Z) : option string :=
  if has_mode m ios_ate || has_mode m ios_app || (has_mode m ios_in && has_mode m ios_out) then None
  else Some ((if has_mode m ios_in then "r" else if has_mode m ios_out then "w" else EmptyString) ++ "b")%string.

(** Whether the result is [this]. *)
Definition gz_open (gzopen : string -> string -> option F) (name : string) (open_mode : Z) : GM bool := fun s =>
  if opened s then inr (false, s) else
  let s := mkGz (gz_file s) (buffer s) (opened s) open_mode (eback s) (gptr s) (egptr s) (pptr s) in
  match open_mode_string open_mode with
  | None => inr (false, s)
  | Some fmode =>
      match gzopen name fmode with
      | None => inr (false, mkGz None (buffer s) (opened s) (mode s) (eback s) (gptr s) (egptr s) (pptr s))
      | Some f => inr (true, mkGz (Some f) (buffer s) true (mode s) (eback s) (gptr s) (egptr s) (pptr s))
      end
  end.

(** *** Memory *)

Definition set_chars (i : nat) (l : list (option ascii)) (buf : list (option ascii)) : list (option ascii) :=
  take i buf ++ l ++ drop (i + length l) buf.

(** Places that overlap are not allowed. *)
Definition memcpy (dst src n : nat) (buf : list (option ascii)) : exn + list (option ascii) :=
  if negb (n =? 0)%nat && (dst <? src + n)%nat && (src <? dst + n)%nat then inl (undefined "memcpy of overlapping places")
  else inr (set_chars dst (take n (drop src buf)) buf).

Definition char_at (buf : list (option ascii)) (i : nat) : exn + ascii :=
  match buf !! i with Some (Some c) => inr c | _ => inl (undefined "a character that was never written") end.

Fixpoint written (l : list (option ascii)) : exn + list ascii :=
  match l with
  | [] => inr []
  | Some c :: l => match written l with inl e => inl e | inr l => inr (c :: l) end
  | None :: _ => inl (undefined "a character that was never written")
  end.

(** *** Reading *)

(** [None] is EOF. *)
Definition underflow : GM (option ascii) := fun s =>
  let current (s : gzstreambuf F) := match char_at (buffer s) (gptr s) with inl e => inl e | inr c => inr (Some c, s) end in
  if (gptr s <? egptr s)%nat then current s else
  if negb (has_mode (mode s) ios_in) || negb (opened s) then inr (None, s) else
  let n_putback := Nat.min 4 (gptr s - eback s) in
  match memcpy (4 - n_putback) (gptr s - n_putback) n_putback (buffer s), gz_file s with
  | inl e, _ => inl e
  | _, None => inl (undefined "no file")
  | inr buf, Some f =>
      let '(num, f) := gzread f (bufferSize - 4) in
      match num with
      | None | Some [] => inr (None, mkGz (Some f) buf (opened s) (mode s) (eback s) (gptr s) (egptr s) (pptr s))
      | Some l => current (mkGz (Some f) (set_chars 4 (map Some l) buf) (opened s) (mode s)
                             (4 - n_putback) 4 (4 + length l) (pptr s))
      end
  end.

(** What the stream library does with the buffer: the current character, and the
    current one with a step to the next. *)
Definition sgetc : GM (option ascii) := fun s =>
  if (gptr s <? egptr s)%nat then
    match char_at (buffer s) (gptr s) with inl e => inl e | inr c => inr (Some c, s) end
  else underflow s.

Definition sbumpc : GM (option ascii) :=
  c ← sgetc;
  match c with
  | None => mret None
  | Some c =>
      modify (fun s => mkGz (gz_file s) (buffer s) (opened s) (mode s) (eback s) (S (gptr s)) (egptr s) (pptr s));;;
      mret (Some c)
  end.

Definition snextc : GM (option ascii) :=
  c ← sbumpc;
  match c with None => mret None | Some _ => sgetc end.

(** *** Writing *)

(** [None] is EOF. *)
Definition flush_buffer : GM (option nat) := fun s =>
  let w := pptr s in
  match gz_file s, written (take w (buffer s)) with
  | None, _ => inl (undefined "no file")
  | _, inl e => inl e
  | Some f, inr l =>
      let '(n, f) := gzwrite f l in
      if n =? Z.of_nat w then
        inr (Some w, mkGz (Some f) (buffer s) (opened s) (mode s) (eback s) (gptr s) (egptr s) 0)
      else inr (None, mkGz (Some f) (buffer s) (opened s) (mode s) (eback s) (gptr s) (egptr s) (pptr s))
  end.

(** Whether the result is not EOF; the place at [pptr] must be in the buffer. *)
Definition put_char (c : ascii) : GM unit := fun s =>
  if (pptr s <? length (buffer s))%nat then
    inr (tt, mkGz (gz_file s) (<[pptr s := Some c]> (buffer s)) (opened s) (mode s) (eback s) (gptr s) (egptr s)
               (S (pptr s)))
  else inl (undefined "write behind the buffer").

Definition overflow (c : option ascii) : GM bool :=
  s ← get_st;
  if negb (has_mode (mode s) ios_out) || negb (opened s) then mret false else
  match c with Some c => put_char c | None => mret tt end;;;
  w ← flush_buffer;
  mret (match w, c with Some _, Some _ => true | _, _ => false end).

Definition sync : GM Z :=
  s ← get_st;
  if (0 <? pptr s)%nat then
    w ← flush_buffer;
    mret (match w with None => -1 | Some _ => 0 end)
  else mret 0.

Definition sputc (c : ascii) : GM bool :=
  s ← get_st;
  if (pptr s <? bufferSize - 1)%nat then put_char c;;; mret true else overflow (Some c).

(** Whether the result is [this]. *)
Definition gz_close : GM bool :=
  s ← get_st;
  if opened s then
    sync;;;
    s ← get_st;
    modify (fun s => mkGz (gz_file s) (buffer s) false (mode s) (eback s) (gptr s) (egptr s) (pptr s));;;
    mret (match gz_file s with Some f => gzclose f | None => false end)
  else mret false.
End Buffer.

(** ** The stream classes *)

(** The error state of [std::ios]. *)
Record iostate := mkIos { eofbit : bool; failbit : bool; badbit : bool }.
Definition goodbit : iostate := mkIos false false false.
Definition good (i : iostate) : bool := negb (eofbit i) && negb (failbit i) && negb (badbit i).
Definition fail (i : iostate) : bool := failbit i || badbit i.

Section Stream.
Context {F : Type} `{GzFile F} (gzopen : string -> string -> option F).

Definition gzstream : Type := gzstreambuf F * iostate.
Notation SM := (M gzstream exn).

Definition lift_buf {A} (c : M (gzstreambuf F) exn A) : SM A := fun s =>
  match c (fst s) with inl e => inl e | inr (a, b) => inr (a, (b, snd s)) end.
Definition set_ios (f : iostate -> iostate) : SM unit := modify (fun s => (fst s, f (snd s))).

Definition set_bad (i : iostate) : iostate := mkIos (eofbit i) (failbit i) true.

(** gzstreambase. *)
Definition base_open (name : string) (open_mode : Z) : SM unit :=
  ok ← lift_buf (gz_open gzopen name open_mode);
  if ok : bool then mret tt else set_ios set_bad.

Definition base_close : SM unit :=
  s ← get_st;
  if opened (fst s) then
    ok ← lift_buf gz_close;
    if ok : bool then mret tt else set_ios set_bad
  else mret tt.

(** The constructors with a name: gzstreambase opens the file, then the
    constructor of [std::istream] or [std::ostream] initialises the state. *)
Definition new_stream (name : string) (open_mode : Z) : SM unit :=
  base_open name open_mode;;;
  set_ios (fun _ => goodbit).

Definition new_igzstream (name : string) : SM unit := new_stream name ios_in.
Definition new_ogzstream (name : string) : SM unit := new_stream name ios_out.

(** [std::getline]: the characters up to the delimiter, which is taken, too. *)
Fixpoint getline_chars (fuel : nat) (delim : ascii) (c : option ascii) (str : list ascii) : SM (list ascii) :=
  match c with
  | None => set_ios (fun i => mkIos true (failbit i) (badbit i));;; mret str
  | Some c =>
      if Ascii.eqb c delim then lift_buf sbumpc;;; mret str
      else
        match fuel with
        | O => raise out_of_fuel
        | S fuel =>
            c' ← lift_buf snextc;
            getline_chars fuel delim c' (str ++ [c])
        end
  end.

(** The string and whether the stream is still usable. *)
Definition getline (fuel : nat) (delim : ascii) : SM (list ascii * bool) :=
  s ← get_st;
  if good (snd s) then
    c ← lift_buf sgetc;
    str ← getline_chars fuel delim c [];
    s ← get_st;
    (* nothing was extracted, not even the delimiter *)
    (if bool_decide (c = None) then set_ios (fun i => mkIos (eofbit i) true (badbit i)) else mret tt);;;
    s ← get_st;
    mret (str, negb (fail (snd s)))
  else
    set_ios (fun i => mkIos (eofbit i) true (badbit i));;;
    mret ([], false).

(** [while (getline(in, line))]: the lines, and the error that ended the loop, if
    any; the fuel bounds the lines and their lengths. *)
Fixpoint read_lines (fuel : nat) (delim : ascii) (s : gzstream) : list string * option exn :=
  match fuel with
  | O => ([], Some out_of_fuel)
  | S fuel =>
      match getline fuel delim s with
      | inl e => ([], Some e)
      | inr ((str, ok), s) =>
          if ok : bool then
            let '(rest, e) := read_lines fuel delim s in (string_of_list_ascii str :: rest, e)
          else ([], None)
      end
  end.

(** The trace of the converter: [None] when the file is not open. *)
Definition gz_lines (fuel : nat) (name : string) : exn + option (list string * option exn) :=
  match new_igzstream name (gz_init, goodbit) with
  | inl e => inl e
  | inr (_, s) => inr (if opened (fst s) then Some (read_lines fuel "010"%char s) else None)
  end.
End Stream.

(** ** What zlib promises *)

(** A file that is read, with the characters still to come; [gzread] gives as many
    as there are.  A file that is written, with the characters so far. *)
Class GzFileLaws (F : Type) `{GzFile F} := {
  reading : F -> list ascii -> Prop;
  writing : F -> list ascii -> Prop;
  law_read f l n : reading f l -> exists f', gzread f n = (Some (take n l), f') /\ reading f' (drop n l);
  law_write f l t : writing f l -> exists f', gzwrite f t = (Z.of_nat (length t), f') /\ writing f' (l ++ t)
}.

(** ** Reading *)

(** Texts that do not fit into the buffer at once and whose last part is shorter
    than the place for characters that are put back: at their end the places that
    [memcpy] gets overlap. *)
Definition tail_short (n : nat) : Prop := (n mod (bufferSize - 4) <> 0 /\ n mod (bufferSize - 4) < 4)%nat.
Definition overlaps (n : nat) : bool := bool_decide (bufferSize - 4 < n)%nat && bool_decide (tail_short n).
Definition overlap : exn := undefined "memcpy of overlapping places".

Lemma set_chars_length i l buf : (i + length l <= length buf)%nat -> length (set_chars i l buf) = length buf.
Proof. intros Hi. unfold set_chars. rewrite !length_app, length_take, length_drop. lia. Qed.

Lemma set_chars_read i l buf : (i <= length buf)%nat -> take (length l) (drop i (set_chars i l buf)) = l.
Proof.
  intros Hi. unfold set_chars. rewrite drop_app_ge by (rewrite length_take; lia).
  rewrite length_take, Nat.min_l, Nat.sub_diag, drop_0 by lia. apply take_app_length.
Qed.

Section Reading.
Context {F : Type} `{GzFileLaws F}.
Implicit Types s : gzstreambuf F.

(** [p] characters can be put back, [num] came with the last read; [r] is what
    zlib still has.  The refill at the end is bad or not. *)
Record input_state (bad : bool) s (f : F) (p num : nat) (w r : list ascii) : Prop := {
  in_open : opened s = true;
  in_mode : has_mode (mode s) ios_in = true;
  in_file : gz_file s = Some f;
  in_reading : reading f r;
  in_buffer : length (buffer s) = bufferSize;
  in_back : eback s = (4 - p)%nat /\ (p <= 4)%nat;
  in_end : egptr s = (4 + num)%nat /\ (num <= bufferSize - 4)%nat;
  in_next : (gptr s + length w = egptr s)%nat /\ (4 <= gptr s)%nat;
  in_chars : take (length w) (drop (gptr s) (buffer s)) = map Some w;
  in_calm : if bad && bool_decide (r = []) then p = 4%nat /\ (0 < num < 4)%nat
            else p = 0%nat \/ (4 <= num)%nat;
  in_tail : r = [] \/ (if bad then tail_short (length r) /\ (bufferSize - 4 < length r \/ 4 <= num)
                      else (~ tail_short (length r) \/ p = 0 /\ num = 0 /\ length r <= bufferSize - 4))%nat
}.

(** The characters [l] are still to come. *)
Definition to_come (bad : bool) s (l : list ascii) : Prop :=
  exists f p num w r, input_state bad s f p num w r /\ l = w ++ r.

Lemma char_at_current bad s f p num c w r : input_state bad s f p num (c :: w) r -> char_at (buffer s) (gptr s) = inr c.
Proof.
  intros Hs. destruct Hs. unfold char_at.
  assert (Hc : buffer s !! gptr s = Some (Some c)).
  { apply (f_equal (fun l => l !! 0%nat)) in in_chars0. rewrite lookup_take_lt, lookup_drop in in_chars0 by (cbn; lia).
    by rewrite Nat.add_0_r in in_chars0. }
  by rewrite Hc.
Qed.

(** The remainder after a full part. *)
Lemma tail_short_drop (l : list ascii) : (bufferSize - 4 <= length l)%nat ->
  tail_short (length (drop (bufferSize - 4) l)) <-> tail_short (length l).
Proof.
  intros Hl. unfold tail_short. rewrite length_drop.
  replace (length l) with (length l - (bufferSize - 4) + 1 * (bufferSize - 4))%nat at 3 4 by lia.
  by rewrite Nat.Div0.mod_add.
Qed.

Lemma tail_short_small n : (n < bufferSize - 4)%nat -> tail_short n <-> (0 < n < 4)%nat.
Proof. intros Hn. unfold tail_short. rewrite Nat.mod_small by done. lia. Qed.

(** The refill at the end of a bad text. *)
Lemma underflow_overlap s f p num : input_state true s f p num [] [] -> underflow s = inl overlap.
Proof.
  intros [Ho Hm Hf Hr Hb [Hk Hp] [He Hn] [Hg Hg4] _ [Hp4 Hnum] _]. cbn [length] in Hg. rewrite Nat.add_0_r in Hg.
  unfold underflow. cbv zeta. rewrite Hm, Ho. cbn [negb orb]. rewrite (proj2 (Nat.ltb_ge _ _)) by lia.
  replace (Nat.min 4 (gptr s - eback s)) with 4%nat by lia.
  unfold memcpy. rewrite (proj2 (Nat.ltb_lt _ _)), (proj2 (Nat.ltb_lt _ _)) by lia. done.
Qed.

(** The next part of the file. *)
Lemma underflow_refill bad s f p num r : input_state bad s f p num [] r -> (r <> [] \/ bad = false) ->
  exists s', to_come bad s' r /\ (r <> [] -> (gptr s' < egptr s')%nat) /\ underflow s = inr (head r, s').
Proof.
  intros Hs Hbad. pose proof Hs as [Ho Hm Hf Hr Hb [Hk Hp] [He Hn] [Hg Hg4] _ Hc0 Ht].
  cbn [length] in Hg. rewrite Nat.add_0_r in Hg.
  assert (Hc : p = 0%nat \/ (4 <= num)%nat).
  { destruct Hbad as [Hne| ->]; [|done]. rewrite (bool_decide_eq_false_2 _ Hne), andb_false_r in Hc0. done. }
  unfold underflow. cbv zeta. rewrite Hm, Ho, Hf. cbn [negb orb]. rewrite (proj2 (Nat.ltb_ge _ _)) by lia.
  set (n := Nat.min 4 (gptr s - eback s)). assert (Hnv : n = Nat.min 4 (num + p)) by (unfold n; lia).
  unfold memcpy. replace (_ && _ && _) with false.
  2:{ symmetry. apply andb_false_iff. destruct (Nat.eqb_spec n 0); [by left|]. right. apply Nat.ltb_ge. lia. }
  set (buf := set_chars (4 - n) _ _).
  assert (Hbuf : length buf = bufferSize).
  { unfold buf. rewrite set_chars_length; [done|]. rewrite length_take, length_drop, Hb. unfold bufferSize in *. lia. }
  destruct (law_read f r (bufferSize - 4) Hr) as (f' & Hread & Hr'). rewrite Hread.
  destruct r as [|c r].
  - destruct Hbad as [|Hbad]; [done|]. subst bad.
    cbn [take drop] in *. replace (take (bufferSize - 4) []) with (@nil ascii) by (by rewrite take_nil).
    eexists. split; [|split; [|reflexivity]]; [|done]. exists f', p, num, [], []. split; [|done].
    constructor; cbn [opened mode gz_file buffer eback gptr egptr]; try done; try (by auto).
    cbn [length]. lia.
  - pose proof (length_take (c :: r) (bufferSize - 4)) as Hlen. pose proof (take_drop (bufferSize - 4) (c :: r)) as Hcut.
    pose proof (length_drop (c :: r) (bufferSize - 4)) as Hld.
    assert (Hl : exists t, take (bufferSize - 4) (c :: r) = c :: t) by (by eexists). destruct Hl as [t Hl].
    pose proof (tail_short_drop (c :: r)) as Htd. pose proof (tail_short_small (length (c :: r))) as Hts.
    set (r' := drop (bufferSize - 4) (c :: r)) in *. set (q := c :: r) in *. rewrite Hl in *.
    set (l := c :: t) in *. cbv iota beta. fold l.
    destruct Ht as [Ht|Ht]; [done|].
    assert (Hlr : (0 < length q)%nat) by (cbn; lia).
    assert (Hr0 : r' = [] <-> (length q <= bufferSize - 4)%nat) by (rewrite <-length_zero_iff_nil; lia).
    set (s' := mkGz _ _ _ _ _ _ _ _).
    assert (Hs' : input_state bad s' f' n (length l) l r').
    { constructor; cbn [opened mode gz_file buffer eback gptr egptr s']; try done.
      - rewrite set_chars_length; [done|]. rewrite length_map, Hlen. unfold bufferSize in *. lia.
      - lia.
      - lia.
      - rewrite <-(length_map Some l) at 1. apply set_chars_read. rewrite Hbuf. unfold bufferSize. lia.
      - destruct (Nat.le_gt_cases (length q) (bufferSize - 4)) as [Hx|Hx].
        + rewrite (bool_decide_eq_true_2 (r' = [])) by tauto. destruct bad; cbn [andb].
          * destruct (Nat.eq_dec (length q) (bufferSize - 4)) as [Hx'|Hx'].
            { rewrite Hx' in Ht. unfold tail_short in Ht. rewrite Nat.Div0.mod_same in Ht. lia. }
            destruct Ht as [Ht1 Ht2]. apply Hts in Ht1; lia.
          * destruct Ht as [Ht|Ht]; [|lia].
            destruct (Nat.eq_dec (length q) (bufferSize - 4)) as [Hx'|Hx']; [unfold bufferSize in *; lia|].
            rewrite Hts in Ht by lia. lia.
        + rewrite (bool_decide_eq_false_2 (r' = [])) by (rewrite Hr0; lia). rewrite andb_false_r.
          unfold bufferSize in *. lia.
      - destruct (Nat.le_gt_cases (length q) (bufferSize - 4)) as [Hx|Hx]; [left; by apply Hr0|].
        right. specialize (Htd ltac:(lia)). destruct bad.
        + rewrite Htd. split; [tauto|]. right. rewrite Hlen. unfold bufferSize in *. lia.
        + left. rewrite Htd. destruct Ht as [Ht|Ht]; [done|lia]. }
    rewrite (char_at_current bad s' f' n (length l) c t _ Hs').
    exists s'. split; [|split; [intros _; cbn; lia|reflexivity]].
    by exists f', n, (length l), l, r'.
Qed.

Lemma sgetc_run bad s l : to_come bad s l -> (l <> [] \/ bad = false) ->
  exists s', sgetc s = inr (head l, s') /\ to_come bad s' l /\ (l <> [] -> (gptr s' < egptr s')%nat).
Proof.
  intros (f & p & num & w & r & Hs & ->) Hbad. unfold sgetc. destruct w as [|c w].
  - pose proof (in_next _ _ _ _ _ _ _ Hs) as [Hg _]. cbn [length] in Hg.
    rewrite (proj2 (Nat.ltb_ge _ _)) by lia.
    destruct (underflow_refill _ _ _ _ _ _ Hs Hbad) as (s' & Hc & Hlt & Hrun). by exists s'.
  - pose proof (in_next _ _ _ _ _ _ _ Hs) as [Hg _]. cbn [length] in Hg.
    rewrite (proj2 (Nat.ltb_lt _ _)) by lia. rewrite (char_at_current _ _ _ _ _ _ _ _ Hs).
    exists s. split; [done|]. split; [|intros _; lia]. by exists f, p, num, (c :: w), r.
Qed.

Lemma sgetc_overlap s : to_come true s [] -> sgetc s = inl overlap.
Proof.
  intros (f & p & num & w & r & Hs & Hnil). symmetry in Hnil. apply app_eq_nil in Hnil as [-> ->].
  pose proof (in_next _ _ _ _ _ _ _ Hs) as [Hg _]. cbn [length] in Hg.
  unfold sgetc. rewrite (proj2 (Nat.ltb_ge _ _)) by lia. by apply underflow_overlap in Hs.
Qed.

(** One step to the next character. *)
Lemma advance bad s f p num c w r : input_state bad s f p num (c :: w) r ->
  input_state bad (mkGz (gz_file s) (buffer s) (opened s) (mode s) (eback s) (S (gptr s)) (egptr s) (pptr s)) f p num w r.
Proof.
  intros [Ho Hm Hf Hr Hb Hk He [Hg Hg4] Hch Hc Ht].
  constructor; cbn [opened mode gz_file buffer eback gptr egptr length] in *; try done; [lia|].
  change (S (gptr s)) with (1 + gptr s)%nat. rewrite (Nat.add_comm 1), <-drop_drop.
  destruct (drop (gptr s) (buffer s)) as [|x d]; [done|]. cbn [take map drop] in *. by injection Hch.
Qed.

Lemma sbumpc_run bad s c l : to_come bad s (c :: l) ->
  exists s', sbumpc s = inr (Some c, s') /\ to_come bad s' l.
Proof.
  intros Hc. destruct (sgetc_run _ _ _ Hc ltac:(by left)) as (s1 & Hrun & Hc1 & Hlt). unfold sbumpc.
  rewrite (dbind _ _ _ _ _ Hrun). cbn [head]. eexists. split; [reflexivity|]. specialize (Hlt ltac:(done)).
  destruct Hc1 as (f & p & num & w & r & Hs1 & Hcut). destruct w as [|c' w].
  - pose proof (in_next _ _ _ _ _ _ _ Hs1) as [Hg _]. cbn [length] in Hg. lia.
  - injection Hcut as -> ->. exists f, p, num, w, r. split; [|done]. by eapply advance.
Qed.

Lemma snextc_run bad s c l : to_come bad s (c :: l) -> (l <> [] \/ bad = false) ->
  exists s', snextc s = inr (head l, s') /\ to_come bad s' l.
Proof.
  intros Hc Hbad. destruct (sbumpc_run _ _ _ _ Hc) as (s1 & Hrun & Hc1). unfold snextc. rewrite (dbind _ _ _ _ _ Hrun).
  destruct (sgetc_run _ _ _ Hc1 Hbad) as (s2 & Hrun2 & Hc2 & _). by exists s2.
Qed.

Lemma snextc_overlap s c : to_come true s [c] -> snextc s = inl overlap.
Proof.
  intros Hc. destruct (sbumpc_run _ _ _ _ Hc) as (s1 & Hrun & Hc1). unfold snextc. rewrite (dbind _ _ _ _ _ Hrun).
  by apply sgetc_overlap.
Qed.

(** *** Lines *)

Implicit Types st : gzstream (F := F).

Lemma lift_buf_run {A} (c : M (gzstreambuf F) exn A) b i a b' : c b = inr (a, b') -> lift_buf c (b, i) = inr (a, (b', i)).
Proof. intros Hc. unfold lift_buf. cbn [fst snd]. by rewrite Hc. Qed.

Lemma lift_buf_err {A B} (c : M (gzstreambuf F) exn A) (k : A -> M gzstream exn B) b i e :
  c b = inl e -> (lift_buf c ≫= k) (b, i) = inl e.
Proof. intros Hc. unfold mbind, M_bind, lift_buf. cbn [fst]. by rewrite Hc. Qed.

(** Up to a delimiter. *)
Lemma getline_chars_delim bad pre : forall fuel delim rest str b i,
  to_come bad b (pre ++ delim :: rest) -> Forall (fun c => c <> delim) pre -> (length pre <= fuel)%nat ->
  exists b', getline_chars fuel delim (head (pre ++ delim :: rest)) str (b, i) = inr (str ++ pre, (b', i)) /\
    to_come bad b' rest.
Proof.
  induction pre as [|c pre IH]; intros fuel delim rest str b i Hc Hpre Hf; cbn [app head] in *.
  - destruct (sbumpc_run _ _ _ _ Hc) as (b' & Hrun & Hc'). exists b'. split; [|done].
    destruct fuel; cbn [getline_chars]; rewrite Ascii.eqb_refl, (dbind _ _ _ _ _ (lift_buf_run _ b i _ _ Hrun)), app_nil_r; done.
  - apply Forall_cons in Hpre as [Hd Hpre]. destruct fuel as [|fuel]; [cbn in Hf; lia|]. cbn [getline_chars].
    rewrite (proj2 (Ascii.eqb_neq c delim) Hd).
    destruct (snextc_run _ _ _ _ Hc ltac:(left; by destruct pre)) as (b1 & Hrun & Hc1).
    rewrite (dbind _ _ _ _ _ (lift_buf_run _ b i _ _ Hrun)).
    destruct (IH fuel delim rest (str ++ [c]) b1 i Hc1 Hpre ltac:(cbn in Hf; lia)) as (b' & Hrun' & Hc').
    exists b'. by rewrite Hrun', <-app_assoc.
Qed.

(** Up to the end. *)
Lemma getline_chars_end pre : forall fuel delim str b i,
  to_come false b pre -> Forall (fun c => c <> delim) pre -> (length pre <= fuel)%nat ->
  exists b', getline_chars fuel delim (head pre) str (b, i) =
    inr (str ++ pre, (b', mkIos true (failbit i) (badbit i))) /\ to_come false b' [].
Proof.
  induction pre as [|c pre IH]; intros fuel delim str b i Hc Hpre Hf; cbn [head] in *.
  - exists b. split; [|done]. destruct fuel; cbn [getline_chars]; by rewrite app_nil_r.
  - apply Forall_cons in Hpre as [Hd Hpre]. destruct fuel as [|fuel]; [cbn in Hf; lia|]. cbn [getline_chars].
    rewrite (proj2 (Ascii.eqb_neq c delim) Hd). destruct (snextc_run _ _ _ _ Hc ltac:(by right)) as (b1 & Hrun & Hc1).
    rewrite (dbind _ _ _ _ _ (lift_buf_run _ b i _ _ Hrun)).
    destruct (IH fuel delim (str ++ [c]) b1 i Hc1 Hpre ltac:(cbn in Hf; lia)) as (b' & Hrun' & Hc').
    exists b'. by rewrite Hrun', <-app_assoc.
Qed.

(** Up to the end of a bad text. *)
Lemma getline_chars_overlap pre : forall fuel delim str b i,
  to_come true b pre -> pre <> [] -> Forall (fun c => c <> delim) pre -> (length pre <= fuel)%nat ->
  getline_chars fuel delim (head pre) str (b, i) = inl overlap.
Proof.
  induction pre as [|c pre IH]; intros fuel delim str b i Hc Hne Hpre Hf; cbn [head] in *; [done|].
  apply Forall_cons in Hpre as [Hd Hpre]. destruct fuel as [|fuel]; [cbn in Hf; lia|]. cbn [getline_chars].
  rewrite (proj2 (Ascii.eqb_neq c delim) Hd). destruct pre as [|c' pre].
  - apply lift_buf_err. by eapply snextc_overlap.
  - destruct (snextc_run _ _ _ _ Hc ltac:(by left)) as (b1 & Hrun & Hc1).
    rewrite (dbind _ _ _ _ _ (lift_buf_run _ b i _ _ Hrun)). apply IH; [done|done|done|cbn in *; lia].
Qed.

(** The first line of a text: what precedes the first delimiter. *)
Lemma first_line delim (l : list ascii) :
  (exists pre rest, l = pre ++ delim :: rest /\ Forall (fun c => c <> delim) pre) \/ Forall (fun c => c <> delim) l.
Proof.
  induction l as [|c l [(pre & rest & -> & Hp)|Hl]].
  - by right.
  - left. destruct (ascii_dec c delim) as [->|Hc]; [exists [], (pre ++ delim :: rest)|exists (c :: pre), rest];
      split; try done; by constructor.
  - destruct (ascii_dec c delim) as [->|Hc]; [left; by exists [], l|right; by constructor].
Qed.

(** What [getline] makes of the characters. *)
Lemma getline_found fuel delim b b1 l str b2 i2 :
  sgetc b = inr (head l, b1) -> getline_chars fuel delim (head l) [] (b1, goodbit) = inr (str, (b2, i2)) ->
  getline fuel delim (b, goodbit) =
  let i := match l with [] => mkIos (eofbit i2) true (badbit i2) | _ => i2 end in inr ((str, negb (fail i)), (b2, i)).
Proof.
  intros Hrun Hchars. unfold getline. rewrite (dbind _ _ _ (b, goodbit) (b, goodbit)) by done.
  cbn [snd]. change (good goodbit) with true. cbv iota.
  rewrite (dbind _ _ _ _ _ (lift_buf_run _ b goodbit _ _ Hrun)), (dbind _ _ _ _ _ Hchars).
  rewrite (dbind _ _ _ (b2, i2) (b2, i2)) by done. by destruct l.
Qed.

Lemma getline_delim bad fuel delim b pre rest :
  to_come bad b (pre ++ delim :: rest) -> Forall (fun c => c <> delim) pre -> (length pre <= fuel)%nat ->
  exists b', to_come bad b' rest /\ getline fuel delim (b, goodbit) = inr ((pre, true), (b', goodbit)).
Proof.
  intros Hc Hp Hf. destruct (sgetc_run _ _ _ Hc ltac:(left; by destruct pre)) as (b1 & Hrun & Hc1 & _).
  destruct (getline_chars_delim bad pre fuel delim rest [] b1 goodbit Hc1 Hp Hf) as (b2 & Hrun2 & Hc2).
  exists b2. split; [done|]. rewrite (getline_found _ _ _ _ _ _ _ _ Hrun Hrun2). by destruct pre.
Qed.

Lemma getline_end fuel delim b l : to_come false b l -> Forall (fun c => c <> delim) l -> (length l <= fuel)%nat ->
  exists b' i, good i = false /\
    getline fuel delim (b, goodbit) = inr ((l, match l with [] => false | _ => true end), (b', i)).
Proof.
  intros Hc Hl Hf. destruct (sgetc_run _ _ _ Hc ltac:(by right)) as (b1 & Hrun & Hc1 & _).
  destruct (getline_chars_end l fuel delim [] b1 goodbit Hc1 Hl Hf) as (b2 & Hrun2 & Hc2).
  rewrite (getline_found _ _ _ _ _ _ _ _ Hrun Hrun2). exists b2. destruct l; (eexists; split; [|reflexivity]; reflexivity).
Qed.

Lemma getline_overlap fuel delim b l : to_come true b l -> Forall (fun c => c <> delim) l -> (length l <= fuel)%nat ->
  getline fuel delim (b, goodbit) = inl overlap.
Proof.
  intros Hc Hl Hf. unfold getline. rewrite (dbind _ _ _ (b, goodbit) (b, goodbit)) by done.
  cbn [snd]. change (good goodbit) with true. cbv iota. destruct l as [|c l].
  - apply lift_buf_err. by apply sgetc_overlap.
  - destruct (sgetc_run _ _ _ Hc ltac:(by left)) as (b1 & Hrun & Hc1 & _).
    rewrite (dbind _ _ _ _ _ (lift_buf_run _ b goodbit _ _ Hrun)).
    unfold mbind, M_bind. by rewrite (getline_chars_overlap (c :: l) fuel delim [] b1 goodbit).
Qed.

Lemma no_delim delim (l : list ascii) : Forall (fun c => c <> delim) l ->
  existsb (fun c => bool_decide (c = delim)) l = false.
Proof. induction 1 as [|c l Hc _ IH]; [done|]. cbn [existsb]. by rewrite bool_decide_eq_false_2, IH. Qed.

(** A text up to its last delimiter. *)
Fixpoint upto_last (delim : ascii) (l : list ascii) : list ascii :=
  match l with
  | [] => []
  | c :: l => if existsb (fun c => bool_decide (c = delim)) (c :: l) then c :: upto_last delim l else []
  end.

Lemma upto_last_delim delim pre rest : upto_last delim (pre ++ delim :: rest) = pre ++ delim :: upto_last delim rest.
Proof.
  assert (Hd : forall pre, existsb (fun c => bool_decide (c = delim)) (pre ++ delim :: rest) = true).
  { intros l. rewrite existsb_app. cbn [existsb]. rewrite bool_decide_eq_true_2 by done. by rewrite orb_true_r. }
  induction pre as [|c pre IH].
  - cbn [app upto_last]. specialize (Hd []). cbn [app] in Hd. by rewrite Hd.
  - cbn [app upto_last]. specialize (Hd (c :: pre)). cbn [app] in Hd. by rewrite Hd, IH.
Qed.

Lemma upto_last_none delim l : Forall (fun c => c <> delim) l -> upto_last delim l = [].
Proof. intros Hl. destruct l as [|c l]; [done|]. cbn [upto_last]. by rewrite no_delim. Qed.

Lemma tokens_line delim pre (rest : list ascii) : Forall (fun c => c <> delim) pre ->
  tokens delim (string_of_list_ascii (pre ++ delim :: rest)) =
  string_of_list_ascii pre :: tokens delim (string_of_list_ascii rest).
Proof.
  intros Hp. unfold tokens. replace (string_of_list_ascii (pre ++ delim :: rest)) with
    (string_of_list_ascii pre ++ String delim (string_of_list_ascii rest))%string.
  - rewrite getline_tokens_field; [by rewrite list_ascii_of_string_of_list_ascii|].
    unfold has_char. rewrite list_ascii_of_string_of_list_ascii. by apply no_delim.
  - clear. induction pre as [|c pre IH]; [done|]. cbn. by rewrite <-IH.
Qed.

(** All lines; a line after an incomplete one is not looked for.  Of a bad text,
    the lines that have a delimiter. *)
Lemma gz_read_lines_run bad fuel delim : forall b l, to_come bad b l -> (S (S (length l)) <= fuel)%nat ->
  read_lines fuel delim (b, goodbit) =
  if bad then (tokens delim (string_of_list_ascii (upto_last delim l)), Some overlap)
  else (tokens delim (string_of_list_ascii l), None).
Proof.
  induction fuel as [|fuel IH]; intros b l Hc Hf; [lia|]. cbn [read_lines].
  destruct (first_line delim l) as [(pre & rest & -> & Hp)|Hl].
  - rewrite length_app in Hf. cbn [length] in Hf.
    destruct (getline_delim bad fuel delim b pre rest Hc Hp ltac:(lia)) as (b' & Hc' & Hrun).
    rewrite Hrun, (IH b' rest Hc' ltac:(lia)), upto_last_delim, !tokens_line by done. by destruct bad.
  - destruct bad.
    { rewrite (getline_overlap fuel delim b l Hc Hl ltac:(lia)), upto_last_none by done. done. }
    destruct (getline_end fuel delim b l Hc Hl ltac:(lia)) as (b' & i & Hi & Hrun). rewrite Hrun.
    destruct l as [|c l]; [done|]. destruct fuel as [|fuel]; [cbn in Hf; lia|].
    assert (Hend : getline fuel delim (b', i) = inr (([], false), (b', mkIos (eofbit i) true (badbit i)))).
    { unfold getline. rewrite (dbind _ _ _ (b', i) (b', i)) by done. cbn [snd]. by rewrite Hi. }
    cbn [read_lines]. rewrite Hend. f_equal. unfold tokens. rewrite getline_tokens_last.
    + cbn [rev app]. rewrite list_ascii_of_string_of_list_ascii. reflexivity.
    + unfold has_char. rewrite list_ascii_of_string_of_list_ascii. by apply no_delim.
    + by right.
Qed.
End Reading.

(** ** Writing *)

Section Writing.
Context {F : Type} `{GzFileLaws F}.
Implicit Types s : gzstreambuf F.

(** The characters [l] have been written, the last [t] of them only to the buffer. *)
Record output_state s (f : F) (l t : list ascii) : Prop := {
  ou_open : opened s = true;
  ou_mode : has_mode (mode s) ios_out = true;
  ou_file : gz_file s = Some f;
  ou_buffer : length (buffer s) = bufferSize;
  ou_next : pptr s = length t;
  ou_chars : take (length t) (buffer s) = map Some t;
  ou_writing : exists l', writing f l' /\ l = l' ++ t
}.

Lemma written_chars t : written (map Some t) = inr t.
Proof. induction t as [|c t IH]; [done|]. cbn [map written]. by rewrite IH. Qed.

Lemma flush_run s f l t : output_state s f l t ->
  exists f' s', flush_buffer s = inr (Some (length t), s') /\ output_state s' f' l [].
Proof.
  intros [Ho Hm Hf Hb Hn Hc (l' & Hw & ->)]. unfold flush_buffer. cbv zeta. rewrite Hf, Hn, Hc, written_chars.
  destruct (law_write f l' t Hw) as (f' & Hwrite & Hw'). rewrite Hwrite, Z.eqb_refl. eexists f', _. split; [reflexivity|].
  constructor; cbn [opened mode gz_file buffer pptr length]; try done. exists (l' ++ t). by rewrite app_nil_r.
Qed.

Lemma put_char_run s f l t c : output_state s f l t -> (length t < bufferSize)%nat ->
  exists s', put_char c s = inr (tt, s') /\ output_state s' f (l ++ [c]) (t ++ [c]).
Proof.
  intros [Ho Hm Hf Hb Hn Hc (l' & Hw & ->)] Ht. unfold put_char. rewrite Hn, Hb, (proj2 (Nat.ltb_lt _ _)) by done.
  eexists. split; [reflexivity|]. constructor; cbn [opened mode gz_file buffer pptr]; try done.
  - by rewrite length_insert.
  - rewrite length_app, Nat.add_comm. done.
  - rewrite length_app, Nat.add_comm. cbn [length Nat.add]. rewrite map_app. cbn [map].
    rewrite (take_S_r _ _ (Some c)) by (apply list_lookup_insert_eq; lia). by rewrite take_insert_ge, Hc by lia.
  - exists l'. by rewrite app_assoc.
Qed.

Lemma sputc_run s f l t c : output_state s f l t -> (length t < bufferSize)%nat ->
  exists s' f' t', sputc c s = inr (true, s') /\ output_state s' f' (l ++ [c]) t' /\ (length t' < bufferSize)%nat.
Proof.
  intros Hs Ht. unfold sputc. rewrite (dbind _ _ _ s s) by done. rewrite (ou_next _ _ _ _ Hs).
  destruct (put_char_run _ _ _ _ c Hs Ht) as (s1 & Hput & Hs1).
  destruct (Nat.ltb_spec (length t) (bufferSize - 1)) as [Hlt|Hge].
  - rewrite (dbind _ _ _ _ _ Hput). exists s1, f, (t ++ [c]). split; [done|]. split; [done|]. rewrite length_app. cbn [length]. lia.
  - unfold overflow. rewrite (dbind _ _ _ s s) by done. rewrite (ou_mode _ _ _ _ Hs), (ou_open _ _ _ _ Hs). cbn [negb orb].
    rewrite (dbind _ _ _ _ _ Hput). destruct (flush_run _ _ _ _ Hs1) as (f' & s2 & Hflush & Hs2).
    rewrite (dbind _ _ _ _ _ Hflush). exists s2, f', []. split; [done|]. split; [done|]. unfold bufferSize. cbn. lia.
Qed.

Lemma sputn_run cs : forall s f l t, output_state s f l t -> (length t < bufferSize)%nat ->
  exists s' f' t' r, mapM sputc cs s = inr (r, s') /\ output_state s' f' (l ++ cs) t' /\ Forall (fun b => b = true) r.
Proof.
  induction cs as [|c cs IH]; intros s f l t Hs Ht.
  - exists s, f, t, []. by rewrite app_nil_r.
  - destruct (sputc_run _ _ _ _ c Hs Ht) as (s1 & f1 & t1 & Hput & Hs1 & Ht1).
    destruct (IH s1 f1 (l ++ [c]) t1 Hs1 Ht1) as (s2 & f2 & t2 & r & Hrun & Hs2 & Hr).
    exists s2, f2, t2, (true :: r). cbn [mapM]. rewrite (dbind _ _ _ _ _ Hput), (dbind _ _ _ _ _ Hrun).
    rewrite <-app_assoc in Hs2. split; [done|]. split; [done|]. by constructor.
Qed.

Lemma gz_close_run s f l t : output_state s f l t -> exists s' f', gz_close s = inr (gzclose f', s') /\
  gz_file s' = Some f' /\ opened s' = false /\ writing f' l.
Proof.
  intros Hs. unfold gz_close. rewrite (dbind _ _ _ s s) by done. rewrite (ou_open _ _ _ _ Hs).
  assert (Hsync : exists s1 f1, sync s = inr (0, s1) /\ output_state s1 f1 l []).
  { unfold sync. rewrite (dbind _ _ _ s s) by done. rewrite (ou_next _ _ _ _ Hs). destruct t as [|c t]; [by exists s, f|].
    rewrite (proj2 (Nat.ltb_lt _ _)) by (cbn; lia). destruct (flush_run _ _ _ _ Hs) as (f1 & s1 & Hflush & Hs1).
    exists s1, f1. by rewrite (dbind _ _ _ _ _ Hflush). }
  destruct Hsync as (s1 & f1 & Hrun & Hs1). rewrite (dbind _ _ _ _ _ Hrun), (dbind _ _ _ s1 s1) by done.
  destruct Hs1 as [Ho Hm Hf Hb Hn Hc (l' & Hw & ->)]. rewrite Hf. eexists _, f1. split; [reflexivity|].
  cbn [gz_file opened]. split_and!; [done|done|]. by rewrite app_nil_r.
Qed.
End Writing.

(** ** A text that is written and read back *)

(** The file after an [ogzstream] got the text and was closed, and whether the
    stream is still good. *)
Definition write_text {F} `{GzFile F} (gzopen : string -> string -> option F) (name : string) (text : list ascii) :
    exn + (bool * option F) :=
  match (new_ogzstream gzopen name;;; lift_buf (mapM sputc text);;; base_close) (gz_init, goodbit) with
  | inl e => inl e
  | inr (_, (b, i)) => inr (good i, gz_file b)
  end.

Lemma input_init {F} `{GzFileLaws F} (f : F) text : reading f text ->
  to_come (overlaps (length text)) (mkGz (Some f) (replicate bufferSize None) true ios_in 4 4 4 0) text.
Proof.
  intros Hf. exists f, 0%nat, 0%nat, [], text. split; [|done].
  constructor; cbn [opened mode gz_file buffer eback gptr egptr length]; try done; try (by auto); try lia.
  - destruct text as [|c text]; [by left|]. rewrite (bool_decide_eq_false_2 (c :: text = [])) by done.
    rewrite andb_false_r. by left.
  - unfold overlaps. right. repeat case_bool_decide; cbn [andb]; [split; [done|lia]|by left|right; lia|right; lia].
Qed.

(** (C6) Compressed files.  A text of any length that is put into an [ogzstream]
    arrives in the file as it is when the stream is closed, whatever the buffer
    held in between.  An [igzstream] on that file delivers its lines, however
    the file is cut into parts of the size of the buffer: the loop over
    [std::getline] ends with exactly the lines of the text - unless the text is
    longer than one part, and its last part has one to three characters: then the
    loop delivers the lines that have a line end, and the read after them copies
    between places of the buffer that overlap. *)
Theorem gz_stream_roundtrip {F} `{GzFileLaws F} (gzopen : string -> string -> option F)
    (reopen : F -> string -> string -> option F) name f0 text fuel :
  gzopen name "wb"%string = Some f0 -> writing f0 [] ->
  (forall f, writing f text -> exists f', reopen f name "rb"%string = Some f' /\ reading f' text) ->
  (length text + 2 <= fuel)%nat ->
  exists f, write_text gzopen name text = inr (gzclose f, Some f) /\ writing f text /\
    gz_lines (reopen f) fuel name = inr (Some (
      if overlaps (length text) then
        (tokens "010"%char (string_of_list_ascii (upto_last "010"%char text)),
         Some (undefined "memcpy of overlapping places"))
      else (tokens "010"%char (string_of_list_ascii text), None))).
Proof.
  intros Hopen Hw Hre Hf.
  set (b0 := mkGz (Some f0) (replicate bufferSize None) true ios_out 4 4 4 0).
  assert (Hb0 : output_state b0 f0 [] []) by (constructor; try done; by exists []).
  destruct (sputn_run text b0 f0 [] [] Hb0 ltac:(unfold bufferSize; cbn; lia)) as (b1 & f1 & t & r & Hrun & Hb1 & _).
  destruct (gz_close_run b1 f1 _ t Hb1) as (b2 & f & Hclose & Hfile & _ & Hwr). exists f. split; [|split; [done|]].
  - unfold write_text, new_ogzstream, new_stream, base_open.
    assert (Hnew : ((ok ← lift_buf (gz_open gzopen name ios_out); if ok : bool then mret tt else set_ios set_bad);;;
      set_ios (fun _ => goodbit)) (gz_init, goodbit) = inr (tt, (b0, goodbit))).
    { unfold mbind, M_bind, lift_buf, gz_open. cbn [fst snd opened gz_init open_mode_string].
      change (open_mode_string ios_out) with (Some "wb"%string). cbv iota. by rewrite Hopen. }
    rewrite (dbind _ _ _ _ _ Hnew), (dbind _ _ _ _ _ (lift_buf_run _ b0 goodbit _ _ Hrun)).
    unfold base_close. rewrite (dbind _ _ _ (b1, goodbit) (b1, goodbit)) by done. cbn [fst].
    rewrite (ou_open _ _ _ _ Hb1), (dbind _ _ _ _ _ (lift_buf_run _ b1 goodbit _ _ Hclose)).
    destruct (gzclose f); cbn; by rewrite Hfile.
  - destruct (Hre f Hwr) as (f' & Hf' & Hr). unfold gz_lines, new_igzstream, new_stream, base_open.
    set (b3 := mkGz (Some f') (replicate bufferSize None) true ios_in 4 4 4 0).
    assert (Hnew : ((ok ← lift_buf (gz_open (reopen f) name ios_in); if ok : bool then mret tt else set_ios set_bad);;;
      set_ios (fun _ => goodbit)) (gz_init, goodbit) = inr (tt, (b3, goodbit))).
    { unfold mbind, M_bind, lift_buf, gz_open. cbn [fst snd opened gz_init].
      change (open_mode_string ios_in) with (Some "rb"%string). cbv iota. by rewrite Hf'. }
    rewrite Hnew. cbn [fst opened b3].
    by rewrite (gz_read_lines_run _ fuel "010"%char b3 text (input_init f' text Hr)) by lia.
Qed.

(** A file is its characters. *)
#[local] Instance list_file : GzFile (list ascii) := {
  gzread f n := (Some (take n f), drop n f);
  gzwrite f t := (Z.of_nat (length t), f ++ t);
  gzclose _ := true
}.
#[local] Instance list_file_laws : GzFileLaws (list ascii).
Proof. refine (Build_GzFileLaws _ _ (fun f l => f = l) (fun f l => f = l) _ _); intros f l; intros; subst; by eexists. Defined.

Definition sample_text (n : nat) : list ascii := concat (replicate n ["a"; "b"; "010"]%char).

Lemma gz_stream_roundtrip_witness :
  (exists f, write_text (fun _ _ => Some []) "trace.gz" (sample_text 210) = inr (true, Some f) /\
    gz_lines (fun _ _ => Some f) 1000 "trace.gz" = inr (Some (replicate 210 "ab"%string, None))) /\
  exists f, gz_lines (fun _ _ => Some f) 1000 "trace.gz" =
    inr (Some (replicate 100 "ab"%string, Some (undefined "memcpy of overlapping places"))).
Proof.
  assert (Hrun : forall n, (3 * n + 2 <= 1000)%nat -> length (sample_text n) = (3 * n)%nat ->
    exists f, write_text (fun _ _ => Some []) "trace.gz" (sample_text n) = inr (true, Some f) /\
    gz_lines (fun _ _ => Some f) 1000 "trace.gz" = inr (Some (
      if overlaps (length (sample_text n)) then
        (tokens "010"%char (string_of_list_ascii (upto_last "010"%char (sample_text n))),
         Some (undefined "memcpy of overlapping places"))
      else (tokens "010"%char (string_of_list_ascii (sample_text n)), None)))).
  { intros n Hn Hl.
    destruct (gz_stream_roundtrip (fun _ _ => Some []) (fun f _ _ => Some f) "trace.gz" [] (sample_text n) 1000)
      as (f & Hw & _ & Hr).
    - reflexivity.
    - reflexivity.
    - intros f Hf. exists f. split; [reflexivity|exact Hf].
    - rewrite Hl. exact Hn.
    - exists f. split; [exact Hw|exact Hr]. }
  split.
  - destruct (Hrun 210%nat) as (f & Hw & Hr); [apply Nat.leb_le; reflexivity|vm_compute; reflexivity|].
    exists f. split; [exact Hw|]. rewrite Hr. vm_compute. reflexivity.
  - destruct (Hrun 100%nat) as (f & _ & Hr); [apply Nat.leb_le; reflexivity|vm_compute; reflexivity|].
    exists f. rewrite Hr. vm_compute. reflexivity.
Defined.

(** 300 characters are a full part and one more: at the end of the file the places
    that [memcpy] gets overlap. *)
Example overlapping_putback :
  gz_lines (fun _ _ => Some (sample_text 100)) 1000 "trace.gz" =
  inr (Some (replicate 100 "ab"%string, Some (undefined "memcpy of overlapping places"))).
Proof. vm_compute. reflexivity. Qed.

(** The constructor of a stream forgets that the file could not be opened. *)
Example failed_open_is_good :
  match new_igzstream (F := list ascii) (fun _ _ => None) "none.gz" (gz_init, goodbit) with
  | inr (_, (b, i)) => opened b = false /\ good i = true
  | inl _ => False
  end.
Proof. by split. Qed.
