(* ===== verification/ConvertTypes.v ===== *)
(** * State of the converter: convert.cc and the interface of binaryread.h

    The tables the event loop keeps, the rows it writes, and what it asks of
    the kernel binary. *)
From S2P Require Import Prelude StdMap LockTypes LockManager CxxStd.
From Stdlib Require Import Ascii String.
Local Open Scope string_scope.
Local Open Scope list_scope.
Local Open Scope Z_scope.

(** ** binaryread.h *)

Record CodeLocation := mkCodeLocation { cl_fn : string; cl_file : string; cl_line : Z }.
Record ResolvedInstructionPtr := mkResolved {
  codeLocation : CodeLocation;
  inlinedBy : list CodeLocation
}.
Record DataType := mkDataType { dt_id : Z; dt_name : string; foundInDw : bool }.

(** What the event loop asks of the kernel binary. *)
Class BinaryRead := {
  getGlobalLockVar : Z -> option string;
  get_function_at_addr : string -> Z -> ResolvedInstructionPtr
}.

(** ** convert.cc *)

Record Allocation := mkAllocation {
  al_start : Z;          (* unsigned long long *)
  al_id : Z;             (* unsigned long long *)
  al_size : Z;           (* int *)
  al_subclass_idx : nat
}.

Record Subclass := mkSubclass {
  sc_id : Z; sc_name : string; sc_data_type_idx : nat; sc_real_subclass : bool }.

Record MemAccess := mkMemAccess {
  ma_id : Z; ma_ts : Z; ma_alloc_id : Z; ma_action : ascii; ma_size : Z;
  ma_address : Z; ma_stacktrace_id : Z; ma_ctx : Z }.

(** Rows of accesses.csv, allocations.csv, stacktraces.csv and subclasses.csv;
    [None] is the null marker. *)
Record access_row := mkAccessRow {
  ar_id : Z; ar_alloc_id : Z; ar_txn_id : option Z; ar_ts : Z; ar_action : ascii;
  ar_size : Z; ar_address : Z; ar_stacktrace_id : Z; ar_ctx : Z }.
Record alloc_row := mkAllocRow {
  aw_id : Z; aw_subclass_id : Z; aw_base : Z; aw_size : Z; aw_start : Z; aw_end : option Z }.
Record stack_row := mkStackRow {
  sr_id : Z; sr_sequence : Z; sr_instr : Z; sr_instr_prev : Z;
  sr_function : string; sr_line : Z; sr_file : string }.
Record subclass_row := mkSubclassRow {
  sw_id : Z; sw_data_type_id : Z; sw_name : option string }.

(** Settings that do not change while events are read. *)
Record config := mkConfig {
  types : list DataType;
  dataSections : list (string * (Z * Z));    (* start address and size *)
  ctxTracing : bool;
  includeAllLocks : bool;
  processSeqlock : bool;
  kernelBaseDir : string;
  delimiter : ascii
}.

(** The allocation of locks of unknown allocation, created with -u only. *)
Definition pseudoAllocID (cfg : config) : Z := if includeAllLocks cfg then 1 else 0.

Definition DUMMY_EXECUTION_CONTEXT : Z := 0.
Definition MAX_COLUMNS : nat := 14.
Definition LOOK_BEHIND_WINDOW : nat := 2.
Definition DELIMITER_SUBCLASS : ascii := ":".
Definition LOCKDOC_ALLOC : ascii := "a".
Definition LOCKDOC_FREE : ascii := "f".
Definition LOCKDOC_LOCK_OP : ascii := "l".
Definition LOCKDOC_READ : ascii := "r".
Definition LOCKDOC_WRITE : ascii := "w".

(** The file-scope variables the event loop changes. *)
Record conv := mkConv {
  lockManager : LM;
  activeAllocs : list (Z * Allocation);
  subclasses : list Subclass;
  lastMemAccesses : list MemAccess;
  stacktraces : list (Z * list (string * Z));
  curAllocID : Z;
  curSubclassID : Z;
  curAccessID : Z;
  curStacktraceID : Z;
  allocOFile : list alloc_row;
  accessOFile : list access_row;
  locksOFile : list lock_row;
  stacktracesOFile : list stack_row;
  cv_cerr : list string
}.

(** Setters, one per group of fields that change together. *)
Definition set_lockManager (m : LM) (s : conv) : conv :=
  mkConv m (activeAllocs s) (subclasses s) (lastMemAccesses s) (stacktraces s)
    (curAllocID s) (curSubclassID s) (curAccessID s) (curStacktraceID s)
    (allocOFile s) (accessOFile s) (locksOFile s) (stacktracesOFile s) (cv_cerr s).
Definition set_allocs (m : list (Z * Allocation)) (next : Z) (rows : list alloc_row)
    (s : conv) : conv :=
  mkConv (lockManager s) m (subclasses s) (lastMemAccesses s) (stacktraces s)
    next (curSubclassID s) (curAccessID s) (curStacktraceID s)
    rows (accessOFile s) (locksOFile s) (stacktracesOFile s) (cv_cerr s).
Definition set_subclasses (l : list Subclass) (next : Z) (s : conv) : conv :=
  mkConv (lockManager s) (activeAllocs s) l (lastMemAccesses s) (stacktraces s)
    (curAllocID s) next (curAccessID s) (curStacktraceID s)
    (allocOFile s) (accessOFile s) (locksOFile s) (stacktracesOFile s) (cv_cerr s).
Definition set_accesses (l : list MemAccess) (next : Z) (rows : list access_row)
    (s : conv) : conv :=
  mkConv (lockManager s) (activeAllocs s) (subclasses s) l (stacktraces s)
    (curAllocID s) (curSubclassID s) next (curStacktraceID s)
    (allocOFile s) rows (locksOFile s) (stacktracesOFile s) (cv_cerr s).
Definition set_stacktraces (m : list (Z * list (string * Z))) (next : Z)
    (rows : list stack_row) (s : conv) : conv :=
  mkConv (lockManager s) (activeAllocs s) (subclasses s) (lastMemAccesses s) m
    (curAllocID s) (curSubclassID s) (curAccessID s) next
    (allocOFile s) (accessOFile s) (locksOFile s) rows (cv_cerr s).
Definition set_locksOFile (rows : list lock_row) (s : conv) : conv :=
  mkConv (lockManager s) (activeAllocs s) (subclasses s) (lastMemAccesses s) (stacktraces s)
    (curAllocID s) (curSubclassID s) (curAccessID s) (curStacktraceID s)
    (allocOFile s) (accessOFile s) rows (stacktracesOFile s) (cv_cerr s).
Definition set_cv_cerr (l : list string) (s : conv) : conv :=
  mkConv (lockManager s) (activeAllocs s) (subclasses s) (lastMemAccesses s) (stacktraces s)
    (curAllocID s) (curSubclassID s) (curAccessID s) (curStacktraceID s)
    (allocOFile s) (accessOFile s) (locksOFile s) (stacktracesOFile s) l.

Definition CVop (A : Type) : Type := M conv exn A.

(** An operation of the LockManager, on the part of the state it owns. *)
Definition lm {A} (c : LMop A) : CVop A := fun s =>
  match c (lockManager s) with
  | inl e => inl e
  | inr (a, m) => inr (a, set_lockManager m s)
  end.

Definition print (msg : string) : CVop unit :=
  modify (fun s => set_cv_cerr (cv_cerr s ++ [msg]) s).

(** The state before the first event; with -u the pseudo allocation exists. *)
Definition init_conv (cfg : config) : conv :=
  if includeAllLocks cfg then
    mkConv init_LM [] [] [] [] 2 1 1 1 [mkAllocRow (pseudoAllocID cfg) 0 0 0 0 None] [] [] [] []
  else mkConv init_LM [] [] [] [] 1 1 1 1 [] [] [] [] [].
