(* ===== verification/Convert.v ===== *)
(** * The event loop of the converter: convert.cc

    Lock operations, memory accesses, allocations and stack traces, one input
    line at a time. *)
From S2P Require Import Prelude StdMap LockTypes LockManager RWLock CxxStd ConvertTypes.
From Stdlib Require Import Ascii String.
Local Open Scope string_scope.
Local Open Scope list_scope.
Local Open Scope Z_scope.

Section Convert.
Context (cfg : config) `{BinaryRead}.

(** ** Locks *)

Definition checkLockInSections (lockAddress : Z) (sections : list (string * (Z * Z))) : bool :=
  existsb (fun section =>
    (section.2.1 <=? lockAddress) && (lockAddress <=? u64 (section.2.1 + section.2.2))) sections.

(** The allocation an unknown lock is embedded in: the last one that starts at
    or below the lock, when it reaches beyond it; 0 otherwise.  The id is
    stored in an [unsigned]. *)
Definition embedding_allocation (lockAddress : Z) (allocs : list (Z * Allocation)) : Z :=
  match sm_floor lockAddress allocs with
  | Some (first, a) => if lockAddress <? u64 (first + al_size a) then u32 (al_id a) else 0
  | None => 0
  end.

(** [None]: the lock is ignored. *)
Definition categorize_lock (lockAddress : Z) (lockMember : string)
    (allocs : list (Z * Allocation)) : option (Z * option string) :=
  let allocation_id := embedding_allocation lockAddress allocs in
  if allocation_id =? 0 then
    if checkLockInSections lockAddress (dataSections cfg)
       || (bool_decide (lockMember = PSEUDOLOCK_VAR) && isPseudoLock lockAddress)
    then Some (allocation_id, getGlobalLockVar lockAddress)
    else if includeAllLocks cfg then Some (u32 (pseudoAllocID cfg), None)
    else None
  else Some (allocation_id, None).

Definition handlePV (lockOP : LOCK_OP) (ts lockAddress : Z) (file : string) (line : Z)
    (lockMember lockType : string) (flags ctx : Z) : CVop unit :=
  tempLock ← lm (findLock lockAddress);
  let transit p := lm (transition p lockOP ts file line flags (kernelBaseDir cfg) ctx) in
  match tempLock with
  | Some p => transit p
  | None =>
      allocs ← gets activeAllocs;
      match categorize_lock lockAddress lockMember allocs with
      | None => mret tt
      | Some (allocation_id, lockVarName) =>
          match lockOP with
          | V_READ | V_WRITE => print "Cannot find a lock at given address."
          | P_READ | P_WRITE =>
              p ← lm (allocLock lockAddress allocation_id lockType lockVarName flags);
              l ← lm (load_lock p);
              modify (fun s => set_locksOFile (locksOFile s ++ writeLock l) s);;;
              transit p
          end
      end
  end.

(** ** Memory accesses *)

(** Whether the two last accesses are taken for part of a lock operation. *)
Definition discards (pAction : ascii) (pAddress : Z) (pMemAccesses : list MemAccess) : bool :=
  (bool_decide (pAction = "p"%char) || bool_decide (pAction = "v"%char)) &&
  match rev pMemAccesses with
  | w1 :: w0 :: _ =>
      (ma_ts w0 =? ma_ts w1) && bool_decide (ma_action w0 = "r"%char)
      && bool_decide (ma_action w1 = "w"%char) && (ma_address w0 =? ma_address w1)
      && (ma_address w0 =? pAddress) && (ma_size w0 =? ma_size w1)
  | _ => false
  end.

Definition access_ctx (a : MemAccess) : Z :=
  if ctxTracing cfg then ma_ctx a else DUMMY_EXECUTION_CONTEXT.

Definition access_row_of (a : MemAccess) (txn : option Z) : access_row :=
  mkAccessRow (ma_id a) (ma_alloc_id a) txn (ma_ts a) (ma_action a) (ma_size a)
    (ma_address a) (ma_stacktrace_id a) (ma_ctx a).

(** One access goes to disk and counts for the active TXN. *)
Definition write_access (a : MemAccess) : CVop unit :=
  let ctx := access_ctx a in
  active ← lm (hasActiveTXN ctx);
  txn ← (if active : bool then t ← lm (getActiveTXN ctx); mret (Some (txn_id t)) else mret None);
  modify (fun s => set_accesses (lastMemAccesses s) (curAccessID s)
    (accessOFile s ++ [access_row_of a txn]) s);;;
  active ← lm (hasActiveTXN ctx);
  if active : bool then
    lm (upd_activeTXN ctx (fun t => mkTXN (txn_id t) (start_ts t) (start_ctx t)
      (u64 (memAccessCounter t + 1)) (txn_lock t) (txn_subLock t)))
  else mret tt.

Fixpoint write_accesses (l : list MemAccess) : CVop unit :=
  match l with
  | [] => mret tt
  | a :: l' => write_access a;;; write_accesses l'
  end.

Definition writeMemAccesses (pAction : ascii) (pAddress : Z) : CVop unit :=
  if bool_decide (pAction = "r"%char) || bool_decide (pAction = "w"%char) then mret tt else
  l ← gets lastMemAccesses;
  write_accesses (if discards pAction pAddress l then take (List.length l - 2) l else l);;;
  modify (fun s => set_accesses [] (curAccessID s) (accessOFile s) s).

(** ** Stack traces *)

(** [find_last_of(',')] finds a comma anywhere; [pop_back] drops the last
    character. *)
Definition trim_stacktrace (stacktrace : string) : string :=
  if has_char "," stacktrace then
    string_of_list_ascii (removelast (list_ascii_of_string stacktrace))
  else stacktrace.

Definition stack_rows (id seq instrPtr instrPtrPrev : Z) (l : list CodeLocation) : list stack_row :=
  imap (fun i c => mkStackRow id (s32 (seq + Z.of_nat i)) instrPtr instrPtrPrev
                     (cl_fn c) (cl_line c) (cl_file c)) l.

(** The rows for the tokens of a new stack trace. *)
Fixpoint write_stacktrace (id seq : Z) (toks : list string) : CVop unit :=
  match toks with
  | [] => mret tt
  | token :: toks' =>
      match stoull 16 token with
      | inl e => raise e
      | inr instrPtr =>
          let instrPtrPrev := if 0 <? seq then u64 (instrPtr - 1) else instrPtr in
          let r := get_function_at_addr (kernelBaseDir cfg) instrPtrPrev in
          let locs := codeLocation r :: inlinedBy r in
          modify (fun s => set_stacktraces (stacktraces s) (curStacktraceID s)
            (stacktracesOFile s ++ stack_rows id seq instrPtr instrPtrPrev locs) s);;;
          write_stacktrace id (s32 (seq + Z.of_nat (List.length locs))) toks'
      end
  end.

Definition addStacktrace (instrPtr : Z) (stacktrace0 : string) : CVop Z :=
  let stacktrace := trim_stacktrace stacktrace0 in
  m0 ← gets stacktraces;
  let m := (sm_emplace instrPtr [] m0).1 in
  let sub := default [] (sm_find instrPtr m) in
  match sm_find stacktrace sub with
  | Some ret =>
      modify (fun s => set_stacktraces m (curStacktraceID s) (stacktracesOFile s) s);;;
      mret ret
  | None =>
      ret ← gets curStacktraceID;
      let m' := sm_set instrPtr (sm_emplace stacktrace ret sub).1 m in
      modify (fun s => set_stacktraces m' (u64 (ret + 1)) (stacktracesOFile s) s);;;
      let ss := if bool_decide (stacktrace = EmptyString) then print_hex instrPtr
                else String.append (print_hex instrPtr) (String "," stacktrace) in
      write_stacktrace ret 0 (tokens "," ss);;;
      mret ret
  end.
End Convert.

(** ** Reading an event *)

(** The variables of [main] that outlive one iteration of the loop. *)
Record vars := mkVars {
  v_ts : Z; v_address : Z; v_size : Z; v_line : Z; v_baseAddress : Z; v_instrPtr : Z;
  v_flags : Z; v_ctx : Z; v_action : ascii; v_lockOP : LOCK_OP; v_typeStr : string;
  v_file : string; v_lockType : string; v_stacktrace : string; v_lockMember : string }.

Definition init_vars : vars :=
  mkVars 0 4919 4711 1337 18193 12648430 18194 0 "." P_WRITE "" "" "" "" "".

(** The defaults every iteration assigns before it parses the columns. *)
Definition reset_vars (ts : Z) (v : vars) : vars :=
  mkVars ts 4919 4711 1337 18193 12648430 18194 (v_ctx v) (v_action v) (v_lockOP v)
    (v_typeStr v) "empty" "empty" "empty" (v_lockMember v).

(** A try block: assignments made before an exception stay. *)
Definition PM (A : Type) : Type := vars -> vars * (exn + A).
#[local] Instance PM_ret : MRet PM := fun A a v => (v, inr a).
#[local] Instance PM_bind : MBind PM := fun A B f c v =>
  match c v with (v', inl e) => (v', inl e) | (v', inr a) => f a v' end.
Definition assign (f : vars -> vars) : PM unit := fun v => (f v, inr tt).
Definition throws {A} (r : exn + A) : PM A := fun v => (v, r).

Definition set_action (a : ascii) (v : vars) : vars :=
  mkVars (v_ts v) (v_address v) (v_size v) (v_line v) (v_baseAddress v) (v_instrPtr v)
    (v_flags v) (v_ctx v) a (v_lockOP v) (v_typeStr v) (v_file v) (v_lockType v)
    (v_stacktrace v) (v_lockMember v).
Definition set_area (ty : string) (base size : Z) (v : vars) : vars :=
  mkVars (v_ts v) (v_address v) size (v_line v) base (v_instrPtr v)
    (v_flags v) (v_ctx v) (v_action v) (v_lockOP v) ty (v_file v) (v_lockType v)
    (v_stacktrace v) (v_lockMember v).
Definition set_lockpos (addr line : Z) (file ty member : string) (v : vars) : vars :=
  mkVars (v_ts v) addr (v_size v) line (v_baseAddress v) (v_instrPtr v)
    (v_flags v) (v_ctx v) (v_action v) (v_lockOP v) (v_typeStr v) file ty
    (v_stacktrace v) member.
Definition set_lockargs (flags ctx : Z) (op : LOCK_OP) (v : vars) : vars :=
  mkVars (v_ts v) (v_address v) (v_size v) (v_line v) (v_baseAddress v) (v_instrPtr v)
    flags ctx (v_action v) op (v_typeStr v) (v_file v) (v_lockType v)
    (v_stacktrace v) (v_lockMember v).
Definition set_access (addr size base instr : Z) (stack : string) (ctx : Z) (v : vars) : vars :=
  mkVars (v_ts v) addr size (v_line v) base instr
    (v_flags v) ctx (v_action v) (v_lockOP v) (v_typeStr v) (v_file v) (v_lockType v)
    stack (v_lockMember v).

Definition lock_op_of (temp : Z) : option LOCK_OP :=
  if temp =? 0 then Some P_READ else if temp =? 1 then Some P_WRITE
  else if temp =? 2 then Some V_READ else if temp =? 3 then Some V_WRITE else None.

Definition at_elem (lineElems : list string) (n : nat) : exn + string :=
  match lineElems !! n with Some e => inr e | None => inl (out_of_range "vector") end.

Section parse.
Context (cfg : config) (lineElems : list string).

(** One column, its text passed on. *)
Definition col (n : nat) : PM string := throws (at_elem lineElems n).
Definition col_ull (n : nat) : PM Z := e ← col n; throws (stoull 10 e).
Definition col_hex (n : nat) : PM Z := e ← col n; throws (stoull 16 e).

(** The columns of the three kinds of events, in the order the code assigns
    them; an exception keeps the assignments before it. *)
Definition parse_area : PM unit :=
  ty ← col 6;
  assign (fun v => set_area ty (v_baseAddress v) (v_size v) v);;;
  base ← col_hex 3;
  assign (fun v => set_area (v_typeStr v) base (v_size v) v);;;
  size ← col_ull 4;
  assign (fun v => set_area (v_typeStr v) (v_baseAddress v) size v).

Definition parse_lock_op : PM unit :=
  a ← col_hex 3;
  assign (fun v => set_lockpos a (v_line v) (v_file v) (v_lockType v) (v_lockMember v) v);;;
  member ← col 7;
  assign (fun v => set_lockpos (v_address v) (v_line v) (v_file v) (v_lockType v) member v);;;
  file ← col 8;
  assign (fun v => set_lockpos (v_address v) (v_line v) file (v_lockType v) (v_lockMember v) v);;;
  line ← col_ull 9;
  assign (fun v => set_lockpos (v_address v) line (v_file v) (v_lockType v) (v_lockMember v) v);;;
  ty ← col 6;
  assign (fun v => set_lockpos (v_address v) (v_line v) (v_file v) ty (v_lockMember v) v);;;
  f ← (e ← col 12; throws (stoi 10 e));
  assign (fun v => set_lockargs (u64 f) (v_ctx v) (v_lockOP v) v);;;
  ctx ← (if ctxTracing cfg then e ← col 13; c ← throws (stoul 10 e); mret (s64 c)
         else mret DUMMY_EXECUTION_CONTEXT);
  assign (fun v => set_lockargs (v_flags v) ctx (v_lockOP v) v);;;
  temp ← (e ← col 2; throws (stoi 10 e));
  match lock_op_of temp with
  | Some op => assign (fun v => set_lockargs (v_flags v) (v_ctx v) op v)
  | None => throws (inl (exit_with 1))
  end.

Definition parse_access : PM unit :=
  a ← col_hex 3;
  assign (fun v => set_access a (v_size v) (v_baseAddress v) (v_instrPtr v) (v_stacktrace v) (v_ctx v) v);;;
  size ← col_ull 4;
  assign (fun v => set_access (v_address v) size (v_baseAddress v) (v_instrPtr v) (v_stacktrace v) (v_ctx v) v);;;
  base ← col_hex 5;
  assign (fun v => set_access (v_address v) (v_size v) base (v_instrPtr v) (v_stacktrace v) (v_ctx v) v);;;
  i ← col_hex 10;
  assign (fun v => set_access (v_address v) (v_size v) (v_baseAddress v) i (v_stacktrace v) (v_ctx v) v);;;
  st ← col 11;
  assign (fun v => set_access (v_address v) (v_size v) (v_baseAddress v) (v_instrPtr v) st (v_ctx v) v);;;
  ctx ← (e ← col 13; throws (stoul 10 e));
  assign (fun v => set_access (v_address v) (v_size v) (v_baseAddress v) (v_instrPtr v) (v_stacktrace v) (s64 ctx) v).

Definition parse_event : PM unit :=
  e ← col 1;
  match e with
  | EmptyString => throws (inl (out_of_range "string"))
  | String action _ =>
      assign (set_action action);;;
      if bool_decide (action = LOCKDOC_ALLOC) || bool_decide (action = LOCKDOC_FREE) then parse_area
      else if bool_decide (action = LOCKDOC_LOCK_OP) then parse_lock_op
      else if bool_decide (action = LOCKDOC_READ) || bool_decide (action = LOCKDOC_WRITE)
      then parse_access
      else mret tt
  end.
End parse.

(** ** Handling an event *)

(** The data type and subclass named by the type column of an allocation. *)
Fixpoint split_char (d : ascii) (s : string) : option (string * string) :=
  match s with
  | EmptyString => None
  | String c s' =>
      if bool_decide (c = d) then Some (EmptyString, s')
      else match split_char d s' with
           | Some (l, r) => Some (String c l, r)
           | None => None
           end
  end.

Definition split_type (typeStr : string) : string * string * bool :=
  match split_char DELIMITER_SUBCLASS typeStr with
  | Some (dataTypeName, subclassName) => (dataTypeName, subclassName, true)
  | None => (typeStr, typeStr, false)
  end.

(** [std::find_if]: index of the first element that satisfies [f]. *)
Fixpoint find_if {A} (f : A -> bool) (l : list A) : option nat :=
  match l with
  | [] => None
  | x :: l' => if f x then Some 0%nat else S <$> find_if f l'
  end.

Definition subclass_named (name : string) (c : Subclass) : bool := bool_decide (sc_name c = name).
Definition type_named (name : string) (t : DataType) : bool := bool_decide (dt_name t = name).

Section Events.
Context (cfg : config) `{BinaryRead}.

(** The index of the subclass, created when new; [None] when the event is
    skipped. *)
Definition subclass_of (typeStr : string) : CVop (option nat) :=
  let '(dataTypeName, subclassName, realSubclass) := split_type typeStr in
  scs ← gets subclasses;
  match find_if (subclass_named subclassName) scs with
  | Some idx => mret (Some idx)
  | None =>
      match find_if (type_named dataTypeName) (types cfg) with
      | None => print "Found unknown datatype";;; mret None
      | Some data_type_idx =>
          match find_if (subclass_named dataTypeName) scs with
          | Some _ =>
              print "Found dummy subclass, although dedicated subclass exists";;;
              raise (exit_with (-1))
          | None =>
              id ← gets curSubclassID;
              modify (set_subclasses
                (scs ++ [mkSubclass id subclassName data_type_idx realSubclass]) (u64 (id + 1)));;;
              mret (Some (List.length scs))
          end
      end
  end.

Definition handle_alloc (v : vars) : CVop unit :=
  m ← gets activeAllocs;
  match sm_find (v_baseAddress v) m with
  | Some _ => print "Found active allocation at address."
  | None =>
      idx ← subclass_of (v_typeStr v);
      match idx with
      | None => mret tt
      | Some subclass_idx =>
          id ← gets curAllocID;
          modify (fun s => set_allocs
            (sm_set (v_baseAddress v) (mkAllocation (v_ts v) id (s32 (v_size v)) subclass_idx)
               (activeAllocs s)) (u64 (id + 1)) (allocOFile s) s)
      end
  end.

(** [subclasses[idx]], undefined out of range. *)
Definition subclass_at (idx : nat) : CVop Subclass :=
  scs ← gets subclasses;
  match scs !! idx with
  | Some c => mret c
  | None => raise (undefined "subclasses[]")
  end.

Definition handle_free (v : vars) : CVop unit :=
  m ← gets activeAllocs;
  match sm_find (v_baseAddress v) m with
  | None => print "Didn't find active allocation for address."
  | Some a =>
      c ← subclass_at (al_subclass_idx a);
      modify (fun s => set_allocs (activeAllocs s) (curAllocID s)
        (allocOFile s ++ [mkAllocRow (al_id a) (sc_id c) (v_baseAddress v) (v_size v)
                            (al_start a) (Some (v_ts v))]) s);;;
      lm (deleteLockByArea (v_baseAddress v) (u64 (al_size a)));;;
      modify (fun s => set_allocs (sm_erase (v_baseAddress v) (activeAllocs s)) (curAllocID s)
        (allocOFile s) s)
  end.

(** Whether the access lies in the allocation; [size] of the allocation is an
    [int], the arithmetic is on 64 bits. *)
Definition access_in_bounds (address size baseAddress asize : Z) : bool :=
  negb ((address <? baseAddress) || (u64 (baseAddress + asize) <? address)
        || (u64 (address + size) <? baseAddress)
        || (u64 (baseAddress + asize) <? u64 (address + size))).

Definition handle_access (v : vars) : CVop unit :=
  m ← gets activeAllocs;
  match sm_find (v_baseAddress v) m with
  | None => print "Didn't find active allocation"
  | Some a =>
      if negb (access_in_bounds (v_address v) (v_size v) (v_baseAddress v) (al_size a)) then
        print "Memory-access address does not belong to indicated allocation";;;
        raise (exit_with 1)
      else
        id ← gets curAccessID;
        modify (fun s => set_accesses (lastMemAccesses s) (u64 (id + 1)) (accessOFile s) s);;;
        stacktrace_id ← addStacktrace cfg (v_instrPtr v) (v_stacktrace v);
        modify (fun s => set_accesses (lastMemAccesses s ++
          [mkMemAccess id (v_ts v) (al_id a) (v_action v) (s32 (v_size v)) (v_address v)
             stacktrace_id (v_ctx v)]) (curAccessID s) (accessOFile s) s)
  end.

Definition dispatch (v : vars) : CVop unit :=
  writeMemAccesses cfg (v_action v) (v_address v);;;
  let a := v_action v in
  if bool_decide (a = LOCKDOC_ALLOC) then handle_alloc v
  else if bool_decide (a = LOCKDOC_FREE) then handle_free v
  else if bool_decide (a = LOCKDOC_LOCK_OP) then
    handlePV cfg (v_lockOP v) (v_ts v) (v_address v) (v_file v) (v_line v) (v_lockMember v)
      (v_lockType v) (u32 (v_flags v)) (v_ctx v)
  else if bool_decide (a = LOCKDOC_READ) || bool_decide (a = LOCKDOC_WRITE) then handle_access v
  else print "Unknown action:".

(** An event whose columns are parsed: a caught exception is reported and the
    event is handled with what was assigned before it. *)
Definition handle_event (v : vars) (parsed : exn + unit) : CVop unit :=
  match parsed with
  | inl (exit_with code) =>
      print "Line contains invalid value for lock_op";;; raise (exit_with code)
  | _ =>
      (match parsed with inl _ => print "Exception occurred" | inr _ => mret tt end);;;
      if negb (processSeqlock cfg)
         && (bool_decide (v_lockType v = "seqlock_t") || bool_decide (v_lockType v = "seqcount_t"))
      then mret tt
      else dispatch v
  end.

Definition is_digit (c : ascii) : bool :=
  let n := nat_of_ascii c in ((48 <=? n) && (n <=? 57))%nat.

(** The first line is a header unless it starts with a digit. *)
Definition is_header (inputLine : string) : bool :=
  match inputLine with EmptyString => true | String c _ => negb (is_digit c) end.

Definition process_line (first : bool) (inputLine : string) (v : vars) : CVop vars :=
  if first && is_header inputLine then mret v else
  (if first then print "Warning: Input data does not start with a CSV header." else mret tt);;;
  let lineElems := tokens (delimiter cfg) inputLine in
  match lineElems with
  | [] => raise (out_of_range "vector")
  | e :: _ =>
      match stoull 10 e with
      | inl ex => raise ex
      | inr ts =>
          if negb (List.length lineElems =? MAX_COLUMNS)%nat then
            print "Line contains a wrong number of elements";;; raise (exit_with 1)
          else
            let '(v', r) := parse_event cfg lineElems (reset_vars ts v) in
            handle_event v' r;;; mret v'
      end
  end.

Fixpoint process_lines (first : bool) (lines : list string) (v : vars) : CVop vars :=
  match lines with
  | [] => mret v
  | l :: lines' => v' ← process_line first l v; process_lines false lines' v'
  end.

(** Allocations that were never freed. *)
Fixpoint flush_allocs (m : list (Z * Allocation)) : CVop unit :=
  match m with
  | [] => mret tt
  | (base, a) :: m' =>
      c ← subclass_at (al_subclass_idx a);
      modify (fun s => set_allocs (activeAllocs s) (curAllocID s)
        (allocOFile s ++ [mkAllocRow (al_id a) (sc_id c) base (al_size a) (al_start a) None]) s);;;
      flush_allocs m'
  end.

(** The whole event loop, from the first input line to the flush at its end. *)
Definition convert (lines : list string) : CVop unit :=
  v ← process_lines true lines init_vars;
  m ← gets activeAllocs;
  flush_allocs m;;;
  writeMemAccesses cfg "v" 0;;;
  lm (closeAllTXNs (v_ts v)).

(** Rows of subclasses.csv: numbered from 1. *)
Definition subclass_rows (scs : list Subclass) : list subclass_row :=
  imap (fun i c => mkSubclassRow (Z.of_nat i + 1)
    (match types cfg !! sc_data_type_idx c with Some t => dt_id t | None => 0 end)
    (sql_null_if (sc_name c) (negb (sc_real_subclass c)))) scs.
End Events.
