(* ===== verification/ConvertInv.v ===== *)
(** * Consistency of the converter's tables

    Which part of the state each operation changes, and the invariant of the
    event loop: ids, references between the tables, bounds. *)
From S2P Require Import Prelude StdMap LockTypes LockManager RWLock CxxStd ConvertTypes Convert.
From Stdlib Require Import Ascii.
Local Open Scope string_scope.
Local Open Scope list_scope.
Local Open Scope Z_scope.

(** ** Frames *)

(** What the operations on locks and stack traces leave alone. *)
Definition core (s : conv) :=
  (activeAllocs s, subclasses s, lastMemAccesses s, curAllocID s, curSubclassID s,
   curAccessID s, allocOFile s, accessOFile s).

Definition keeps_core {A} (c : CVop A) : Prop :=
  forall s a s', c s = inr (a, s') -> core s' = core s.

Lemma keeps_bind {A B} (c : CVop A) (k : A -> CVop B) :
  keeps_core c -> (forall a, keeps_core (k a)) -> keeps_core (c ≫= k).
Proof.
  intros Hc Hk s b s'. unfold mbind, M_bind. destruct (c s) as [|[a s1]] eqn:E; [done|].
  intros E'. apply Hc in E. apply Hk in E'. congruence.
Qed.

Lemma keeps_ret {A} (a : A) : keeps_core (mret a).
Proof. by intros s b s' [= <- <-]. Qed.

Lemma keeps_raise {A} e : keeps_core (raise e : CVop A).
Proof. done. Qed.

Lemma keeps_gets {A} (f : conv -> A) : keeps_core (gets f).
Proof. by intros s b s' [= <- <-]. Qed.

Lemma keeps_modify f : (forall s, core (f s) = core s) -> keeps_core (modify f).
Proof. intros Hf s b s' [= <- <-]. apply Hf. Qed.

Lemma keeps_lm {A} (c : LMop A) : keeps_core (lm c).
Proof.
  intros s b s'. unfold lm. destruct (c (lockManager s)) as [|[a m]]; [done|]. by intros [= <- <-].
Qed.

Lemma keeps_print msg : keeps_core (print msg).
Proof. by apply keeps_modify. Qed.

#[export] Hint Resolve keeps_bind keeps_ret keeps_raise keeps_gets keeps_lm keeps_print : lockdoc.

Ltac keeps := repeat first
  [ apply keeps_bind; [|intros ?] | apply keeps_ret | apply keeps_raise | apply keeps_gets
  | apply keeps_lm | apply keeps_print | apply keeps_modify; done
  | match goal with |- keeps_core (match ?x with _ => _ end) => destruct x end
  | done ].

Section frames.
Context (cfg : config) `{BinaryRead}.

Lemma keeps_handlePV op ts a file line member ty flags ctx :
  keeps_core (handlePV cfg op ts a file line member ty flags ctx).
Proof. unfold handlePV. keeps. Qed.

Lemma keeps_write_stacktrace id toks : forall seq, keeps_core (write_stacktrace cfg id seq toks).
Proof.
  induction toks as [|t toks IH]; intros seq; cbn [write_stacktrace]; [keeps|].
  destruct (stoull 16 t); keeps.
Qed.

Lemma write_stacktrace_map id toks : forall seq s u s',
  write_stacktrace cfg id seq toks s = inr (u, s') -> stacktraces s' = stacktraces s.
Proof.
  induction toks as [|t toks IH]; intros seq s u s'; cbn [write_stacktrace]; [by intros [= _ <-]|].
  destruct (stoull 16 t); [done|]. unfold mbind, M_bind, modify. intros E%IH. done.
Qed.

Lemma write_stacktrace_rows id toks : forall seq s u s',
  write_stacktrace cfg id seq toks s = inr (u, s') ->
  exists rows, stacktracesOFile s' = stacktracesOFile s ++ rows.
Proof.
  induction toks as [|t toks IH]; intros seq s u s'; cbn [write_stacktrace].
  { intros [= _ <-]. exists []. by rewrite app_nil_r. }
  destruct (stoull 16 t); [done|]. unfold mbind, M_bind, modify. intros [rows E]%IH.
  eexists. rewrite E. simpl. by rewrite <- app_assoc.
Qed.

Lemma keeps_addStacktrace i st : keeps_core (addStacktrace cfg i st).
Proof. unfold addStacktrace. keeps. apply keeps_write_stacktrace. Qed.

(** Writing accesses appends their rows, and changes nothing else of the core
    tables. *)
Lemma write_access_frame a s u s' :
  write_access cfg a s = inr (u, s') ->
  exists txn, core s' = (activeAllocs s, subclasses s, lastMemAccesses s, curAllocID s,
    curSubclassID s, curAccessID s, allocOFile s, accessOFile s ++ [access_row_of a txn]).
Proof.
  unfold write_access, mbind at 1, M_bind at 1.
  destruct (lm (hasActiveTXN (access_ctx cfg a)) s) as [|[act s1]] eqn:E1; [done|].
  unfold mbind at 1, M_bind at 1.
  match goal with |- match ?c s1 with _ => _ end = _ -> _ => destruct (c s1) as [|[txn s2]] eqn:E2; [done|] end.
  cbv beta. unfold mbind at 1, M_bind at 1. set (f := fun s0 : conv => _).
  change (modify f s2) with (inr (tt, f s2) : exn + unit * conv). cbv iota beta.
  intros E3. exists txn.
  assert (core s2 = core s) as H12.
  { apply keeps_lm in E1. assert (core s2 = core s1) as H2; [|congruence].
    revert E2. destruct act; [|by intros [= _ <-]].
    assert (keeps_core (t ← lm (getActiveTXN (access_ctx cfg a)); mret (Some (txn_id t)))) as Hk
      by keeps. apply Hk. }
  assert (core s' = core (f s2)) as ->.
  { eapply (keeps_bind (lm (hasActiveTXN (access_ctx cfg a))) _); [keeps| |exact E3].
    intros act'. destruct act'; keeps. }
  unfold f, core in *. simpl. injection H12 as -> -> -> -> -> -> -> ->. done.
Qed.

Lemma write_accesses_frame l : forall s u s',
  write_accesses cfg l s = inr (u, s') ->
  exists rows, core s' = (activeAllocs s, subclasses s, lastMemAccesses s, curAllocID s,
    curSubclassID s, curAccessID s, allocOFile s, accessOFile s ++ rows)
    /\ Forall2 (fun a r => exists txn, r = access_row_of a txn) l rows.
Proof.
  induction l as [|a l IH]; intros s u s'; cbn [write_accesses].
  - intros [= <- <-]. exists []. by rewrite app_nil_r.
  - unfold mbind, M_bind. destruct (write_access cfg a s) as [|[[] s1]] eqn:E; [done|].
    intros E'. destruct (write_access_frame _ _ _ _ E) as (txn & H1).
    destruct (IH _ _ _ E') as (rows & H2 & HF). exists (access_row_of a txn :: rows).
    unfold core in *. injection H1 as E1 E2 E3 E4 E5 E6 E7 E8.
    rewrite H2, E1, E2, E3, E4, E5, E6, E7, E8, <- app_assoc. split; [done|].
    constructor; [by exists txn|done].
Qed.
End frames.

(** ** The invariant *)

(** Ids of the accesses, written or pending, and of the allocations, written
    or active. *)
Definition access_ids (s : conv) : list Z :=
  (ar_id <$> accessOFile s) ++ (ma_id <$> lastMemAccesses s).
Definition alloc_ids (s : conv) : list Z :=
  (aw_id <$> allocOFile s) ++ ((fun e : Z * Allocation => al_id e.2) <$> activeAllocs s).

(** The state after at most [k] events. *)
Record conv_ok (cfg : config) (k : Z) (s : conv) : Prop := mkConvOk {
  ok_access_sorted : StronglySorted Z.lt (access_ids s);
  ok_access_lt : Forall (fun i => 1 <= i < curAccessID s) (access_ids s);
  ok_access_cur : 1 <= curAccessID s <= k + 1;
  ok_alloc_ids : alloc_ids s ≡ₚ seqZ 1 (curAllocID s - 1);
  ok_alloc_cur : 1 <= curAllocID s <= k + 2;
  ok_active : sm_sorted (activeAllocs s);
  ok_subclass_ids : sc_id <$> subclasses s = seqZ 1 (Z.of_nat (length (subclasses s)));
  ok_subclass_cur : curSubclassID s = Z.of_nat (length (subclasses s)) + 1;
  ok_subclass_k : curSubclassID s <= k + 1;
  ok_subclass_names : NoDup (sc_name <$> subclasses s);
  ok_subclass_type : Forall (fun c => (sc_data_type_idx c < length (types cfg))%nat) (subclasses s);
  ok_idx : Forall (fun e : Z * Allocation => (al_subclass_idx e.2 < length (subclasses s))%nat)
             (activeAllocs s);
  ok_access_alloc : Forall (fun i => 1 <= i < curAllocID s)
    ((ar_alloc_id <$> accessOFile s) ++ (ma_alloc_id <$> lastMemAccesses s))
}.

Lemma conv_ok_core cfg k s s' : core s' = core s -> conv_ok cfg k s -> conv_ok cfg k s'.
Proof.
  unfold core. intros [= E1 E2 E3 E4 E5 E6 E7 E8] [].
  split; unfold access_ids, alloc_ids in *; rewrite ?E1, ?E2, ?E3, ?E4, ?E5, ?E6, ?E7, ?E8; done.
Qed.

Lemma conv_ok_mono cfg k k' s : k <= k' -> conv_ok cfg k s -> conv_ok cfg k' s.
Proof. intros Hk []. split; try done; lia. Qed.

(** The invariant holds in [s'] when it holds for a state with the core of [s']. *)
Lemma conv_ok_keeps {A} cfg k (c : CVop A) s a s' :
  keeps_core c -> c s = inr (a, s') -> conv_ok cfg k s -> conv_ok cfg k s'.
Proof. intros Hk E. eapply conv_ok_core, Hk, E. Qed.

Section preservation.
Context (cfg : config) `{BinaryRead}.

Lemma ids_of_rows l rows :
  Forall2 (fun a r => exists txn, r = access_row_of a txn) l rows ->
  ar_id <$> rows = ma_id <$> l /\ ar_alloc_id <$> rows = ma_alloc_id <$> l.
Proof.
  induction 1 as [|a r l rows [txn ->] _ [IH1 IH2]]; [done|]. rewrite !fmap_cons, IH1, IH2. done.
Qed.

(** The pending accesses go to disk in order; those discarded are the last. *)
Lemma writeMemAccesses_frame action addr s u s' :
  writeMemAccesses cfg action addr s = inr (u, s') ->
  core s' = core s \/
  exists n rows, core s' = (activeAllocs s, subclasses s, [], curAllocID s,
    curSubclassID s, curAccessID s, allocOFile s, accessOFile s ++ rows)
    /\ Forall2 (fun a r => exists txn, r = access_row_of a txn) (take n (lastMemAccesses s)) rows
    /\ (discards action addr (lastMemAccesses s) = false -> n = length (lastMemAccesses s)).
Proof.
  unfold writeMemAccesses. destruct (_ || _); [intros [= _ <-]; by left|].
  unfold mbind at 1, M_bind at 1. unfold gets. cbv iota beta.
  set (d := discards _ _ _). set (n := if d then (length (lastMemAccesses s) - 2)%nat else length (lastMemAccesses s)).
  assert ((if d then take (length (lastMemAccesses s) - 2) (lastMemAccesses s) else lastMemAccesses s)
    = take n (lastMemAccesses s)) as ->.
  { unfold n. destruct d; [done|]. by rewrite firstn_all. }
  unfold mbind at 1, M_bind at 1.
  destruct (write_accesses cfg (take n (lastMemAccesses s)) s) as [|[[] s1]] eqn:E; [done|].
  intros [= _ <-]. right. destruct (write_accesses_frame _ _ _ _ _ E) as (rows & H1 & H2).
  exists n, rows. split.
  - unfold core in *. simpl. injection H1 as E1 E2 E3 E4 E5 E6 E7 E8.
    by rewrite E1, E2, E4, E5, E6, E7, E8.
  - split; [done|]. unfold n. by intros ->.
Qed.

Lemma conv_ok_writeMemAccesses k action addr s u s' :
  writeMemAccesses cfg action addr s = inr (u, s') -> conv_ok cfg k s -> conv_ok cfg k s'.
Proof.
  intros [E|(n & rows & E & HF & _)]%writeMemAccesses_frame Hok; [by eapply conv_ok_core|].
  destruct (ids_of_rows _ _ HF) as [Hi Ha].
  unfold core in E. injection E as E1 E2 E3 E4 E5 E6 E7 E8. destruct Hok as [O1 O2 O3 O4 O5 O6 O7 O8 O9 O10 O11 O12 O13].
  unfold access_ids, alloc_ids in *.
  rewrite <- (take_drop n (lastMemAccesses s)), fmap_app, app_assoc in O1, O2, O13.
  apply Forall_app in O2 as [O2 _]. apply Forall_app in O13 as [O13 _].
  apply StronglySorted_app_1_l in O1.
  split; unfold access_ids, alloc_ids; rewrite ?E1, ?E2, ?E3, ?E4, ?E5, ?E6, ?E7, ?E8; try done;
    rewrite fmap_app, ?Hi, ?Ha, app_nil_r; done.
Qed.

Lemma find_if_Some {A} (f : A -> bool) l i :
  find_if f l = Some i -> exists x, l !! i = Some x /\ f x = true.
Proof.
  revert i. induction l as [|y l IH]; intros i; simpl; [done|].
  destruct (f y) eqn:E; [intros [= <-]; eauto|].
  destruct (find_if f l) as [j|]; simpl; [|done]. intros [= <-]. by apply IH.
Qed.

Lemma find_if_None {A} (f : A -> bool) l : find_if f l = None -> Forall (fun x => f x = false) l.
Proof.
  induction l as [|y l IH]; simpl; [constructor|]. destruct (f y) eqn:E; [done|].
  destruct (find_if f l); [done|]. constructor; auto.
Qed.

Lemma conv_ok_subclass_of k ty s r s' :
  k + 3 < 2 ^ 64 -> subclass_of cfg ty s = inr (r, s') -> conv_ok cfg k s ->
  conv_ok cfg (k + 1) s' /\ activeAllocs s' = activeAllocs s
  /\ forall idx, r = Some idx -> (idx < length (subclasses s'))%nat.
Proof.
  intros Hk E Hok. unfold subclass_of in E. destruct (split_type ty) as [[dn sn] real].
  unfold mbind, M_bind, gets, mret, M_ret, modify, print in E. cbv iota beta in E.
  destruct (find_if (subclass_named sn) (subclasses s)) as [i|] eqn:Hs.
  { injection E as <- <-. split; [eapply conv_ok_mono; [|done]; lia|]. split; [done|].
    intros idx [= <-]. destruct (find_if_Some _ _ _ Hs) as (? & ? & _). by eapply lookup_lt_Some. }
  destruct (find_if (type_named dn) (types cfg)) as [ti|] eqn:Ht.
  2: { injection E as <- <-. split; [|done]. eapply conv_ok_mono, conv_ok_core, Hok; [lia|done]. }
  destruct (find_if (subclass_named dn) (subclasses s)) eqn:Hd; [done|].
  injection E as <- <-.
  destruct Hok as [O1 O2 O3 O4 O5 O6 O7 O8 O9 O10 O11 O12 O13].
  assert (u64 (curSubclassID s + 1) = curSubclassID s + 1) as Hu by (apply u64_small; lia).
  split; [|split; [done|]].
  - split; simpl; rewrite ?Hu; try done; try lia.
    + rewrite fmap_app, O7, O8, length_app. simpl. rewrite Nat.add_1_r, seqZ_S. do 2 f_equal. lia.
    + rewrite O8, length_app. simpl. lia.
    + rewrite fmap_app. apply NoDup_app. split; [done|]. split; [|apply NoDup_singleton].
      intros x (c & -> & Hc)%list_elem_of_fmap. simpl. rewrite list_elem_of_singleton. intros Hx.
      apply find_if_None in Hs. rewrite Forall_forall in Hs. specialize (Hs _ Hc).
      unfold subclass_named in Hs. apply bool_decide_eq_false in Hs. done.
    + apply Forall_app. split; [done|]. constructor; [|constructor]. simpl.
      destruct (find_if_Some _ _ _ Ht) as (? & ? & _). by eapply lookup_lt_Some.
    + eapply Forall_impl; [exact O12|]. intros e He. simpl in *. rewrite length_app. lia.
  - intros idx [= <-]. simpl. rewrite length_app. simpl. lia.
Qed.

Lemma conv_ok_alloc k v s u s' :
  k + 3 < 2 ^ 64 -> handle_alloc cfg v s = inr (u, s') -> conv_ok cfg k s -> conv_ok cfg (k + 1) s'.
Proof.
  intros Hk E Hok. unfold handle_alloc, mbind at 1, M_bind at 1, gets at 1 in E. cbv iota beta in E.
  destruct (sm_find (v_baseAddress v) (activeAllocs s)) as [a|] eqn:Hf.
  { injection E as _ <-. eapply conv_ok_mono, conv_ok_core, Hok; [lia|done]. }
  unfold mbind at 1, M_bind at 1 in E.
  destruct (subclass_of cfg (v_typeStr v) s) as [|[r s1]] eqn:Es; [done|].
  destruct (conv_ok_subclass_of _ _ _ _ _ Hk Es Hok) as (Hok1 & Ha & Hidx).
  destruct r as [idx|]; [|by injection E as _ <-].
  specialize (Hidx _ eq_refl).
  unfold mbind, M_bind, gets, modify in E. injection E as _ <-. rewrite <- Ha in Hf.
  destruct Hok as [_ _ _ _ P5 _ _ _ _ _ _ _ _].
  pose proof (sm_set_perm (v_baseAddress v)
    (mkAllocation (v_ts v) (curAllocID s1) (s32 (v_size v)) idx) _ Hf) as Hp.
  assert (curAllocID s1 = curAllocID s) as Hc.
  { unfold subclass_of in Es. destruct (split_type _) as [[? ?] ?].
    unfold mbind, M_bind, gets, mret, M_ret, modify, print in Es. cbv iota beta in Es.
    repeat (match type of Es with context [match ?x with _ => _ end] => destruct x end; try done);
      by injection Es as _ <-. }
  destruct Hok1 as [O1 O2 O3 O4 O5 O6 O7 O8 O9 O10 O11 O12 O13].
  assert (u64 (curAllocID s1 + 1) = curAllocID s1 + 1) as Hu by (apply u64_small; lia).
  split; unfold access_ids, alloc_ids in *; simpl; rewrite ?Hu; try done; try lia.
  - rewrite Hp, fmap_cons. simpl. rewrite <- Permutation_middle, O4.
    replace (curAllocID s1 + 1 - 1) with (Z.of_nat (S (Z.to_nat (curAllocID s1 - 1)))) by lia.
    rewrite seqZ_S. rewrite <- Permutation_cons_append.
    replace (Z.of_nat (Z.to_nat (curAllocID s1 - 1))) with (curAllocID s1 - 1) by lia.
    replace (1 + (curAllocID s1 - 1)) with (curAllocID s1) by lia. done.
  - by apply sm_sorted_set.
  - by rewrite Hp, Forall_cons.
  - eapply Forall_impl; [exact O13|]. simpl. lia.
Qed.

Lemma subclass_at_ok idx s r s' :
  subclass_at idx s = inr (r, s') -> s' = s /\ subclasses s !! idx = Some r.
Proof.
  unfold subclass_at, mbind, M_bind, gets. cbv iota beta.
  destruct (subclasses s !! idx) eqn:E; [|done]. by intros [= <- <-].
Qed.

Lemma conv_ok_free k v s u s' :
  handle_free v s = inr (u, s') -> conv_ok cfg k s -> conv_ok cfg k s'.
Proof.
  intros E Hok. unfold handle_free, mbind at 1, M_bind at 1, gets at 1 in E. cbv iota beta in E.
  destruct (sm_find (v_baseAddress v) (activeAllocs s)) as [a|] eqn:Hf.
  2: { injection E as _ <-. eapply conv_ok_core, Hok; done. }
  unfold mbind at 1, M_bind at 1 in E.
  destruct (subclass_at (al_subclass_idx a) s) as [|[c s1]] eqn:Es; [done|].
  destruct (subclass_at_ok _ _ _ _ Es) as [-> _].
  unfold mbind at 1, M_bind at 1, modify at 1 in E. cbv iota beta in E.
  set (s1 := set_allocs _ _ _ s) in E. unfold mbind, M_bind, modify in E.
  destruct (lm (deleteLockByArea (v_baseAddress v) (u64 (al_size a))) s1) as [|[[] s2]] eqn:Ed; [done|].
  injection E as _ <-. apply keeps_lm in Ed. unfold core in Ed. simpl in Ed.
  injection Ed as E1 E2 E3 E4 E5 E6 E7 E8.
  destruct Hok as [O1 O2 O3 O4 O5 O6 O7 O8 O9 O10 O11 O12 O13].
  pose proof (sm_erase_perm _ _ _ O6 Hf) as Hp.
  split; unfold access_ids, alloc_ids in *; simpl; rewrite ?E1, ?E2, ?E3, ?E4, ?E5, ?E6, ?E7, ?E8; try done.
  - rewrite <- O4. etransitivity; [|apply Permutation_app_head, fmap_Permutation; symmetry; exact Hp].
    by rewrite fmap_app, fmap_cons, <- app_assoc.
  - by apply sm_sorted_erase.
  - rewrite Hp, Forall_cons in O12. by destruct O12.
Qed.

Lemma conv_ok_access k v s u s' :
  k + 3 < 2 ^ 64 -> handle_access cfg v s = inr (u, s') -> conv_ok cfg k s -> conv_ok cfg (k + 1) s'.
Proof.
  intros Hk E Hok. unfold handle_access, mbind at 1, M_bind at 1, gets at 1 in E. cbv iota beta in E.
  destruct (sm_find (v_baseAddress v) (activeAllocs s)) as [a|] eqn:Hf.
  2: { injection E as _ <-. eapply conv_ok_mono, conv_ok_core, Hok; [lia|done]. }
  destruct (access_in_bounds _ _ _ _); simpl in E; [|done].
  unfold mbind at 1, M_bind at 1, gets at 1 in E. cbv iota beta in E.
  unfold mbind at 1, M_bind at 1, modify at 1 in E. cbv iota beta in E.
  set (s1 := set_accesses _ _ _ s) in E. unfold mbind, M_bind, modify in E.
  destruct (addStacktrace cfg (v_instrPtr v) (v_stacktrace v) s1) as [|[sid s2]] eqn:Ed; [done|].
  injection E as _ <-. apply keeps_addStacktrace in Ed. unfold core in Ed. simpl in Ed.
  injection Ed as E1 E2 E3 E4 E5 E6 E7 E8.
  destruct Hok as [O1 O2 O3 O4 O5 O6 O7 O8 O9 O10 O11 O12 O13].
  assert (u64 (curAccessID s + 1) = curAccessID s + 1) as Hu by (apply u64_small; lia).
  assert (1 <= al_id a < curAllocID s) as Hid.
  { assert (al_id a ∈ alloc_ids s) as Hin.
    { unfold alloc_ids. apply elem_of_app. right. apply list_elem_of_fmap.
      exists (v_baseAddress v, a). split; [done|]. by apply sm_find_elem. }
    rewrite O4, elem_of_seqZ in Hin. lia. }
  split; unfold access_ids, alloc_ids in *; simpl;
    rewrite ?E1, ?E2, ?E3, ?E4, ?E5, ?E6, ?E7, ?E8, ?Hu; try done; try lia.
  - rewrite fmap_app, app_assoc. apply StronglySorted_app. split; [|split; [done|by repeat constructor]].
    intros x y Hx Hy%list_elem_of_singleton. simpl in Hy. subst y.
    rewrite Forall_forall in O2. by apply O2.
  - rewrite fmap_app, app_assoc. apply Forall_app. split.
    + eapply Forall_impl; [exact O2|]. simpl. lia.
    + constructor; [simpl; lia|constructor].
  - rewrite fmap_app, app_assoc. apply Forall_app. split; [done|]. by constructor.
Qed.

Lemma conv_ok_event k v r s u s' :
  k + 3 < 2 ^ 64 -> handle_event cfg v r s = inr (u, s') -> conv_ok cfg k s -> conv_ok cfg (k + 1) s'.
Proof.
  intros Hk E Hok.
  assert (exists s1, conv_ok cfg k s1 /\ (s' = s1 \/ dispatch cfg v s1 = inr (u, s'))) as (s1 & Hok1 & [->|Ed]).
  { unfold handle_event in E.
    assert (forall m, conv_ok cfg k (set_cv_cerr m s)) as Hm by (intros m; by apply (conv_ok_core _ _ s)).
    destruct r as [[]|[]]; try done; unfold mbind, M_bind, print, modify, mret, M_ret in E;
      cbv iota beta in E; destruct (_ && _);
      [injection E as _ <-; eauto|eauto|injection E as _ <-; eauto|eauto|injection E as _ <-; eauto|eauto
      |injection E as _ <-; eauto|eauto|injection E as _ <-; eauto|eauto|injection E as _ <-; eauto|eauto]. }
  { eapply conv_ok_mono; [|done]. lia. }
  unfold dispatch, mbind at 1, M_bind at 1 in Ed.
  destruct (writeMemAccesses cfg (v_action v) (v_address v) s1) as [|[[] s2]] eqn:Ew; [done|].
  pose proof (conv_ok_writeMemAccesses _ _ _ _ _ _ Ew Hok1) as Hok2.
  pose proof (conv_ok_mono cfg k (k + 1) s2 ltac:(lia) Hok2) as Hok2'.
  destruct (bool_decide (_ = LOCKDOC_ALLOC)); [by eapply conv_ok_alloc|].
  destruct (bool_decide (_ = LOCKDOC_FREE)); [by eapply conv_ok_free|].
  destruct (bool_decide (_ = LOCKDOC_LOCK_OP)).
  { eapply conv_ok_keeps; [|exact Ed|done]. apply keeps_handlePV. }
  destruct (_ || _); [by eapply conv_ok_access|].
  injection Ed as _ <-. by apply (conv_ok_core _ _ s2).
Qed.

Lemma conv_ok_line k first l v s v' s' :
  k + 3 < 2 ^ 64 -> process_line cfg first l v s = inr (v', s') ->
  conv_ok cfg k s -> conv_ok cfg (k + 1) s'.
Proof.
  intros Hk E Hok. unfold process_line in E.
  destruct (first && is_header l); [injection E as _ <-; eapply conv_ok_mono; [|done]; lia|].
  assert (exists s1, conv_ok cfg k s1 /\ (match tokens (delimiter cfg) l with
    | [] => raise (out_of_range "vector")
    | e :: _ => match stoull 10 e with
      | inl ex => raise ex
      | inr ts =>
          if negb (length (tokens (delimiter cfg) l) =? MAX_COLUMNS)%nat then
            print "Line contains a wrong number of elements";;; raise (exit_with 1)
          else let '(v', r) := parse_event cfg (tokens (delimiter cfg) l) (reset_vars ts v) in
            handle_event cfg v' r;;; mret v'
      end end : CVop vars) s1 = inr (v', s')) as (s1 & Hok1 & E1).
  { destruct first.
    - unfold mbind at 1, M_bind at 1, print, modify in E. eexists. split; [|exact E].
      by apply (conv_ok_core _ _ s).
    - exists s. split; [done|exact E]. }
  clear E. destruct (tokens (delimiter cfg) l) as [|e toks]; [done|].
  destruct (stoull 10 e) as [|ts]; [done|]. destruct (negb _); [done|].
  destruct (parse_event _ _ _) as [v1 r]. unfold mbind, M_bind in E1.
  destruct (handle_event cfg v1 r s1) as [|[[] s2]] eqn:Eh; [done|].
  injection E1 as _ <-. by eapply conv_ok_event.
Qed.

Lemma conv_ok_lines lines : forall k first v s v' s',
  k + Z.of_nat (length lines) + 3 < 2 ^ 64 -> process_lines cfg first lines v s = inr (v', s') ->
  conv_ok cfg k s -> conv_ok cfg (k + Z.of_nat (length lines)) s'.
Proof.
  induction lines as [|l lines IH]; intros k first v s v' s' Hk E Hok; cbn [process_lines] in E.
  - injection E as _ <-. eapply conv_ok_mono; [|done]. simpl. lia.
  - unfold mbind, M_bind in E. destruct (process_line cfg first l v s) as [|[v1 s1]] eqn:E1; [done|].
    simpl length in *. apply IH with (k := k + 1) in E; [|lia|].
    + eapply conv_ok_mono; [|exact E]. lia.
    + eapply conv_ok_line; [|exact E1|done]. lia.
Qed.
End preservation.

(** ** The end of the run *)

Lemma conv_ok_init cfg : conv_ok cfg 0 (init_conv cfg).
Proof.
  unfold init_conv. destruct (includeAllLocks cfg) eqn:E.
  - split; unfold access_ids, alloc_ids; simpl; rewrite ?app_nil_r; try done; try constructor; try lia.
    unfold pseudoAllocID. by rewrite E.
  - split; unfold access_ids, alloc_ids; simpl; try done; try constructor; lia.
Qed.

Lemma flush_allocs_frame m : forall s u s',
  flush_allocs m s = inr (u, s') ->
  exists rows, core s' = (activeAllocs s, subclasses s, lastMemAccesses s, curAllocID s,
    curSubclassID s, curAccessID s, allocOFile s ++ rows, accessOFile s)
    /\ aw_id <$> rows = (fun e : Z * Allocation => al_id e.2) <$> m.
Proof.
  induction m as [|[base a] m IH]; intros s u s'; cbn [flush_allocs].
  - intros [= _ <-]. exists []. by rewrite app_nil_r.
  - unfold mbind at 1, M_bind at 1.
    destruct (subclass_at (al_subclass_idx a) s) as [|[c s1]] eqn:Es; [done|].
    destruct (subclass_at_ok _ _ _ _ Es) as [-> _].
    unfold mbind at 1, M_bind at 1, modify. cbv iota beta. set (s2 := set_allocs _ _ _ s).
    intros E. destruct (IH _ _ _ E) as (rows & H1 & H2).
    eexists (_ :: rows). split; [rewrite H1; simpl; by rewrite <- app_assoc|by rewrite !fmap_cons, H2].
Qed.

(** The tables after a run that reaches its end. *)
Record tables_ok (cfg : config) (s : conv) : Prop := mkTablesOk {
  tb_access_ids : StronglySorted Z.lt (ar_id <$> accessOFile s);
  tb_alloc_ids : aw_id <$> allocOFile s ≡ₚ seqZ 1 (curAllocID s - 1);
  tb_access_alloc : forall r, r ∈ accessOFile s ->
    exists w, w ∈ allocOFile s /\ aw_id w = ar_alloc_id r;
  tb_subclass_ids : sw_id <$> subclass_rows cfg (subclasses s) = sc_id <$> subclasses s;
  tb_subclass_names : NoDup (sc_name <$> subclasses s);
  tb_pending : lastMemAccesses s = []
}.

Lemma subclass_rows_ids cfg scs :
  sc_id <$> scs = seqZ 1 (Z.of_nat (length scs)) ->
  sw_id <$> subclass_rows cfg scs = sc_id <$> scs.
Proof.
  intros ->. apply list_eq. intros i. unfold subclass_rows.
  rewrite list_lookup_fmap, list_lookup_imap.
  destruct (scs !! i) as [c|] eqn:E; simpl.
  - apply lookup_lt_Some in E. symmetry. apply lookup_seqZ. lia.
  - symmetry. apply lookup_seqZ_ge. apply lookup_ge_None in E. lia.
Qed.

Lemma tables_ok_run cfg `{BinaryRead} lines s' :
  Z.of_nat (length lines) + 3 < 2 ^ 64 ->
  convert cfg lines (init_conv cfg) = inr (tt, s') -> tables_ok cfg s'.
Proof.
  intros Hk E. unfold convert, mbind at 1, M_bind at 1 in E.
  destruct (process_lines cfg true lines init_vars (init_conv cfg)) as [|[v s1]] eqn:E1; [done|].
  pose proof (conv_ok_lines cfg lines 0 _ _ _ _ _ ltac:(lia) E1 (conv_ok_init cfg)) as Hok.
  unfold mbind at 1, M_bind at 1, gets at 1 in E. cbv iota beta in E.
  unfold mbind at 1, M_bind at 1 in E.
  destruct (flush_allocs (activeAllocs s1) s1) as [|[[] s2]] eqn:E2; [done|].
  unfold mbind at 1, M_bind at 1 in E.
  destruct (writeMemAccesses cfg "v"%char 0 s2) as [|[[] s3]] eqn:E3; [done|].
  destruct (flush_allocs_frame _ _ _ _ E2) as (rows & H2 & Hids).
  apply keeps_lm in E.
  assert (lastMemAccesses s3 = []) as Hlast.
  { unfold writeMemAccesses, mbind, M_bind, gets, modify in E3. simpl in E3.
    destruct (write_accesses _ _ _) as [|[[] ?]]; [done|]. by injection E3 as <-. }
  unfold core in *. injection E as F1 F2 F3 F4 F5 F6 F7 F8. injection H2 as G1 G2 G3 G4 G5 G6 G7 G8.
  destruct Hok as [O1 O2 O3 O4 O5 O6 O7 O8 O9 O10 O11 O12 O13].
  assert (exists n wrows, core s3 = (activeAllocs s2, subclasses s2, [], curAllocID s2,
      curSubclassID s2, curAccessID s2, allocOFile s2, accessOFile s2 ++ wrows)
    /\ ar_id <$> wrows = ma_id <$> take n (lastMemAccesses s2)
    /\ ar_alloc_id <$> wrows = ma_alloc_id <$> take n (lastMemAccesses s2)) as (n & wrows & H3 & Hi & Ha).
  { destruct (writeMemAccesses_frame _ _ _ _ _ _ E3) as [Hc|(n & wrows & Hc & HF & _)].
    - exists 0%nat, []. unfold core in *. injection Hc as C1 C2 C3 C4 C5 C6 C7 C8.
      rewrite app_nil_r. split; [congruence|done].
    - exists n, wrows. split; [done|]. apply (ids_of_rows _ _ HF). }
  unfold core in H3. injection H3 as K1 K2 K3 K4 K5 K6 K7 K8.
  unfold access_ids, alloc_ids in *.
  rewrite <- (take_drop n (lastMemAccesses s1)), fmap_app, app_assoc in O1, O13.
  apply Forall_app in O13 as [O13 _]. apply StronglySorted_app_1_l in O1.
  assert (aw_id <$> allocOFile s' ≡ₚ seqZ 1 (curAllocID s' - 1)) as Hal.
  { by rewrite F7, F4, K7, K4, G7, G4, fmap_app, Hids. }
  split; rewrite ?F2, ?F3, ?F8, ?K2, ?K8, ?G2, ?G8; try done.
  - by rewrite fmap_app, Hi, G3.
  - intros r Hr.
    assert (ar_alloc_id r ∈ (ar_alloc_id <$> (accessOFile s1 ++ wrows))) as Hin
      by (by apply list_elem_of_fmap_2).
    rewrite fmap_app, Ha, G3 in Hin. rewrite Forall_forall in O13. specialize (O13 _ Hin).
    assert (ar_alloc_id r ∈ (aw_id <$> allocOFile s')) as Hw.
    { rewrite Hal, F4, K4, G4. apply elem_of_seqZ. lia. }
    apply list_elem_of_fmap in Hw as (w & Hw1 & Hw2). eauto.
  - by apply subclass_rows_ids.
Qed.
