(* ===== verification/ConvertProps.v ===== *)
(** * Properties of the converter

    The claims about the event loop and its tables, with a concrete run. *)
From S2P Require Import Prelude StdMap LockTypes LockManager RWLock CxxStd ConvertTypes Convert.
From S2P Require Import ConvertInv.
From Stdlib Require Import Ascii String.
Local Open Scope string_scope.
Local Open Scope list_scope.
Local Open Scope Z_scope.

(** ** A concrete run *)

#[local] Instance sample_binary : BinaryRead := {|
  getGlobalLockVar := fun _ => Some "inode_hash_lock";
  get_function_at_addr := fun _ a => mkResolved (mkCodeLocation "iget" "fs/inode.c" 42) []
|}.

Definition sample_config : config :=
  mkConfig [mkDataType 1 "inode" true] [(".bss", (256, 256))] false true false "/kernel" ";".

Definition sample_lines : list string :=
  [ "ts;action;lock_op;ptr;size;base;type;member;file;line;instrptr;stacktrace;flags;ctx";
    "1;a;;0x1000;64;;inode:ext4;;;;;;;0";
    "2;l;1;0x1010;;;rwlock_t;m;/kernel/fs/inode.c;12;;;0;0";
    "3;r;;0x1020;4;0x1000;;;;;0xff;0xaa,;;0";
    "4;l;3;0x1010;;;rwlock_t;m;/kernel/fs/inode.c;14;;;0;0";
    "5;w;;0x1020;4;0x1000;;;;;0xff;0xaa,;;0";
    "6;f;;0x1000;64;;inode:ext4;;;;;;;0" ].

Definition sample_result : conv :=
  match convert sample_config sample_lines (init_conv sample_config) with
  | inr (_, s) => s
  | inl _ => init_conv sample_config
  end.

(** (C9) After a complete run the tables of the converter are consistent: the
    ids in accesses.csv increase strictly, every id ever given to an
    allocation occurs exactly once in allocations.csv (freed or still active),
    every access refers to a row of allocations.csv, the numbering of
    subclasses.csv is that of the ids used elsewhere, subclass names are
    unique, and no access is left pending. *)
Theorem convert_tables cfg `{BinaryRead} lines s' :
  Z.of_nat (List.length lines) + 3 < 2 ^ 64 ->
  convert cfg lines (init_conv cfg) = inr (tt, s') ->
  StronglySorted Z.lt (ar_id <$> accessOFile s')
  /\ aw_id <$> allocOFile s' ≡ₚ seqZ 1 (curAllocID s' - 1)
  /\ (forall r, r ∈ accessOFile s' -> exists w, w ∈ allocOFile s' /\ aw_id w = ar_alloc_id r)
  /\ sw_id <$> subclass_rows cfg (subclasses s') = sc_id <$> subclasses s'
  /\ NoDup (sc_name <$> subclasses s')
  /\ lastMemAccesses s' = [].
Proof. intros Hk E. by destruct (tables_ok_run cfg lines s' Hk E). Qed.

Lemma convert_tables_witness :
  convert sample_config sample_lines (init_conv sample_config) = inr (tt, sample_result)
  /\ StronglySorted Z.lt (ar_id <$> accessOFile sample_result)
  /\ ar_id <$> accessOFile sample_result = [1; 2].
Proof.
  assert (convert sample_config sample_lines (init_conv sample_config) = inr (tt, sample_result))
    as E by (vm_compute; reflexivity).
  split; [exact E|]. split; [|vm_compute; reflexivity].
  exact (proj1 (convert_tables sample_config sample_lines sample_result eq_refl E)).
Defined.

(** (C10) Before a lock operation every pending access is written to
    accesses.csv, in order and none discarded, whatever the accesses are: the
    look-behind window that should drop the accesses of the lock operation
    itself is not consulted for the action of lock events. *)
Theorem lock_event_writes_all cfg addr s s' :
  writeMemAccesses cfg LOCKDOC_LOCK_OP addr s = inr (tt, s') ->
  lastMemAccesses s' = []
  /\ ar_id <$> accessOFile s' = (ar_id <$> accessOFile s) ++ (ma_id <$> lastMemAccesses s)
  /\ ar_address <$> accessOFile s'
     = (ar_address <$> accessOFile s) ++ (ma_address <$> lastMemAccesses s).
Proof.
  unfold writeMemAccesses, mbind, M_bind, gets, modify. simpl.
  destruct (write_accesses cfg (lastMemAccesses s) s) as [|[[] s1]] eqn:E; [done|].
  destruct (write_accesses_frame cfg _ _ _ _ E) as (rows & H1 & H2).
  intros [= <-]. simpl. split; [done|]. unfold core in H1. injection H1 as _ _ _ _ _ _ _ ->.
  rewrite !fmap_app. clear E.
  assert (ar_id <$> rows = ma_id <$> lastMemAccesses s
    /\ ar_address <$> rows = ma_address <$> lastMemAccesses s) as [-> ->]; [|done].
  induction H2 as [|a r l rows [txn ->] _ [IH1 IH2]]; [done|].
  rewrite !fmap_cons, IH1, IH2. done.
Qed.

(** A read and a write of the lock word, as a lock operation makes them. *)
Definition two_pending : conv :=
  set_accesses [mkMemAccess 1 3 2 "r" 4 4112 1 0; mkMemAccess 2 3 2 "w" 4 4112 1 0] 3 []
    (init_conv sample_config).

Lemma lock_event_writes_all_witness :
  discards "p" 4112 (lastMemAccesses two_pending) = true /\
  exists s', writeMemAccesses sample_config LOCKDOC_LOCK_OP 4112 two_pending = inr (tt, s')
    /\ ar_id <$> accessOFile s' = [1; 2].
Proof.
  split; [vm_compute; reflexivity|].
  destruct (writeMemAccesses sample_config LOCKDOC_LOCK_OP 4112 two_pending) as [e|[[] s']] eqn:E;
    [vm_compute in E; discriminate|].
  exists s'. split; [reflexivity|].
  destruct (lock_event_writes_all sample_config 4112 two_pending s' E) as (_ & H & _).
  rewrite H. vm_compute. reflexivity.
Defined.

(** An access is accepted for an allocation exactly when it lies inside
    it, from its first to its last byte, provided that neither the access nor
    the allocation reaches beyond the address space. *)
Theorem access_in_bounds_correct address size baseAddress asize :
  0 <= address -> 0 <= size -> address + size < 2 ^ 64 ->
  0 <= baseAddress -> 0 <= asize -> baseAddress + asize < 2 ^ 64 ->
  access_in_bounds address size baseAddress asize = true <->
  baseAddress <= address /\ address + size <= baseAddress + asize.
Proof.
  intros Ha Hs Has Hb Hz Hbz. unfold access_in_bounds.
  rewrite !u64_small, negb_true_iff, !orb_false_iff, !Z.ltb_ge by lia. lia.
Qed.

(** Stack traces are stored once: recording the trace again, in the state
    left by the first time, gives the same id, writes no rows and changes
    nothing. *)
Theorem addStacktrace_idempotent cfg `{BinaryRead} instrPtr st s r s1 :
  addStacktrace cfg instrPtr st s = inr (r, s1) ->
  addStacktrace cfg instrPtr st s1 = inr (r, s1).
Proof.
  intros E. assert (sm_find (trim_stacktrace st) (default [] (sm_find instrPtr (stacktraces s1))) = Some r
    /\ is_Some (sm_find instrPtr (stacktraces s1))) as [Hf [sub Hsub]].
  { unfold addStacktrace, mbind at 1, M_bind at 1, gets at 1 in E. cbv iota beta zeta in E.
    set (m := (sm_emplace instrPtr [] (stacktraces s)).1) in E.
    assert (is_Some (sm_find instrPtr m)) as Hm.
    { unfold m, sm_emplace. destruct (sm_find instrPtr (stacktraces s)) eqn:Em; simpl; [by rewrite Em|].
      by rewrite sm_find_set_eq. }
    destruct (sm_find (trim_stacktrace st) (default [] (sm_find instrPtr m))) as [ret|] eqn:Hf.
    - unfold mbind, M_bind, modify, mret, M_ret in E. injection E as <- <-. done.
    - unfold mbind at 1, M_bind at 1, gets in E. cbv iota beta in E.
      set (m' := sm_set _ _ m) in E. unfold mbind at 1, M_bind at 1, modify in E. cbv iota beta in E.
      set (s2 := set_stacktraces m' _ _ s) in E.
      match type of E with context [write_stacktrace cfg ?i 0 ?t] => set (toks := t) in E end.
      unfold mbind, M_bind, mret, M_ret in E.
      destruct (write_stacktrace cfg (curStacktraceID s) 0 toks s2) as [|[[] s3]] eqn:Ew; [done|].
      injection E as <- <-. rewrite (write_stacktrace_map cfg _ _ _ _ _ _ Ew).
      simpl. unfold m'. rewrite sm_find_set_eq. split; [|done]. simpl.
      unfold sm_emplace. rewrite Hf. simpl. apply sm_find_set_eq. }
  unfold addStacktrace, mbind at 1, M_bind at 1, gets at 1. cbv iota beta zeta.
  unfold sm_emplace. rewrite Hsub. simpl. rewrite Hsub in *. simpl in *. rewrite Hf.
  unfold mbind, M_bind, modify, mret, M_ret. by destruct s1.
Qed.

Definition traced : conv :=
  match addStacktrace sample_config 255 "0xaa,0xbb," (init_conv sample_config) with
  | inr (_, s) => s
  | inl _ => init_conv sample_config
  end.

Lemma addStacktrace_idempotent_witness :
  addStacktrace sample_config 255 "0xaa,0xbb," traced = inr (1, traced)
  /\ sr_instr <$> stacktracesOFile traced = [255; 170; 187].
Proof.
  split; [|vm_compute; reflexivity].
  apply (addStacktrace_idempotent sample_config 255 "0xaa,0xbb," (init_conv sample_config)).
  vm_compute. reflexivity.
Defined.

(** The first row written for a new stack trace, which the code obtains
    by printing the instruction pointer and parsing it again, has that
    instruction pointer, unchanged and with sequence number 0. *)
Theorem addStacktrace_first_row cfg `{BinaryRead} instrPtr st s r s1 :
  0 <= instrPtr < 2 ^ 64 ->
  sm_find instrPtr (stacktraces s) = None ->
  addStacktrace cfg instrPtr st s = inr (r, s1) ->
  exists rows, stacktracesOFile s1 = stacktracesOFile s
    ++ mkStackRow r 0 instrPtr instrPtr
         (cl_fn (codeLocation (get_function_at_addr (kernelBaseDir cfg) instrPtr)))
         (cl_line (codeLocation (get_function_at_addr (kernelBaseDir cfg) instrPtr)))
         (cl_file (codeLocation (get_function_at_addr (kernelBaseDir cfg) instrPtr))) :: rows.
Proof.
  intros Hi Hnew E. pose proof (print_hex_no_comma instrPtr Hi) as Hc. unfold addStacktrace, mbind at 1, M_bind at 1, gets at 1 in E.
  cbv iota beta zeta in E.
  assert (sm_find (trim_stacktrace st)
    (default [] (sm_find instrPtr (sm_emplace instrPtr [] (stacktraces s)).1)) = None) as Hn
    by (unfold sm_emplace; rewrite Hnew; simpl; by rewrite sm_find_set_eq).
  rewrite Hn in E.
  unfold mbind at 1, M_bind at 1, gets in E. cbv iota beta in E.
  unfold mbind at 1, M_bind at 1, modify in E. cbv iota beta in E.
  match type of E with context [write_stacktrace cfg ?i 0 ?t] => set (toks := t) in E end.
  assert (exists toks', toks = print_hex instrPtr :: toks') as [toks' Ht].
  { unfold toks, tokens. destruct (bool_decide _).
    - exists []. rewrite getline_tokens_last; [|done|right].
      + simpl. by rewrite string_of_list_ascii_of_string.
      + unfold print_hex. by destruct (_ =? 0).
    - eexists. rewrite getline_tokens_field by done. simpl rev.
      rewrite app_nil_l, string_of_list_ascii_of_string. done. }
  rewrite Ht in E. cbn [write_stacktrace] in E. rewrite stoull_print_hex in E by done.
  simpl (0 <? 0) in E. cbv iota in E. unfold mbind, M_bind, modify, mret, M_ret in E.
  match type of E with context [write_stacktrace cfg ?i ?q toks' ?x] =>
    destruct (write_stacktrace cfg i q toks' x) as [|[[] s3]] eqn:Ew; [done|] end.
  injection E as <- <-. destruct (write_stacktrace_rows cfg _ _ _ _ _ _ Ew) as [rows ->].
  eexists. simpl. unfold stack_rows. simpl. rewrite <- app_assoc. done.
Qed.

Lemma addStacktrace_first_row_witness :
  exists rows, stacktracesOFile traced = mkStackRow 1 0 255 255 "iget" 42 "fs/inode.c" :: rows.
Proof.
  assert (addStacktrace sample_config 255 "0xaa,0xbb," (init_conv sample_config) = inr (1, traced))
    as E by (vm_compute; reflexivity).
  exact (addStacktrace_first_row sample_config 255 "0xaa,0xbb," (init_conv sample_config) 1 traced
    ltac:(lia) eq_refl E).
Defined.

(** The columns of a line are recovered: a line that joins fields free
    of the delimiter is split into those fields, unless the last field is
    empty (such a line is one column short). *)
Theorem tokens_of_joined d fields :
  Forall (fun f => has_char d f = false) fields -> last fields <> Some EmptyString ->
  tokens d (join d fields) = fields.
Proof. apply tokens_join. Qed.

Lemma tokens_of_joined_witness :
  tokens ";" "1;a;;0x10" = ["1"; "a"; EmptyString; "0x10"]
  /\ tokens ";" "1;a;" = ["1"; "a"].
Proof.
  split; [|reflexivity].
  apply (tokens_of_joined ";" ["1"; "a"; EmptyString; "0x10"]); [repeat constructor|discriminate].
Defined.
