(* ===== verification/Hypothesizer.v ===== *)
(** * Locking hypotheses: hypothesizer.cc

    Derives, for every member, the lock combinations under which it was
    accessed, the hypotheses these combinations support, and the winning one.
    Lock ids ([myid_t]) are the elements of lists; [std::map] and [std::set]
    are the sorted lists of StdMap.v.  The two [std::unordered_map]s are only
    looked up here, never iterated, so their order does not matter and they
    are sorted lists too. *)
From S2P Require Import Prelude StdMap.
From Stdlib Require Import Floats.SpecFloat.
Local Open Scope string_scope.
Local Open Scope list_scope.
Local Open Scope Z_scope.

(** ** Doubles (IEEE 754 binary64) *)

Definition double : Type := spec_float.
Definition to_double (n : Z) : double := binary_normalize 53 1024 n 0 false.
Definition ddiv : double -> double -> double := SFdiv 53 1024.
Definition dsub : double -> double -> double := SFsub 53 1024.
Definition dmul : double -> double -> double := SFmul 53 1024.

(** ** Lock combinations *)

Definition myid_t : Type := Z.
Definition hypo : Type := list myid_t.

(** [std::sort] of ids. *)
Definition sort_ids (l : list myid_t) : list myid_t := merge_sort Z.le l.

Record LockCombination := mkLC {
  lc_occurrences : Z;
  locks_held : list myid_t;          (* order matters *)
  locks_held_sorted : list myid_t
}.

Definition new_LockCombination (occurrences : Z) (held : list myid_t) : LockCombination :=
  mkLC occurrences held (sort_ids held).

Definition set_locks_held (l : list myid_t) (lc : LockCombination) : LockCombination :=
  mkLC (lc_occurrences lc) l (sort_ids l).

(** The scan of [contains_locks]: the locks still to be found. *)
Fixpoint contains_scan (mylocks theirs : list myid_t) : bool :=
  match theirs with
  | [] => true
  | their :: theirs' =>
      match mylocks with
      | [] => false
      | mylock :: mylocks' =>
          if mylock =? their then contains_scan mylocks' theirs' else contains_scan mylocks' theirs
      end
  end.

Definition contains_locks (lc : LockCombination) (l : hypo) : bool :=
  contains_scan (locks_held_sorted lc) l.

(** [l.erase(find(l.begin(), l.end(), x))]. *)
Fixpoint erase_first (x : myid_t) (l : list myid_t) : list myid_t :=
  match l with
  | [] => []
  | y :: l' => if y =? x then l' else y :: erase_first x l'
  end.

Fixpoint lock_order_loop (held l : list myid_t) : list myid_t :=
  match held with
  | [] => []
  | mylock :: held' =>
      if bool_decide (mylock ∈ l) then
        let l' := erase_first mylock l in
        mylock :: match l' with [] => [] | _ => lock_order_loop held' l' end
      else lock_order_loop held' l
  end.

Definition lock_order (lc : LockCombination) (l : hypo) : list myid_t :=
  match l with [] => [] | _ => lock_order_loop (locks_held lc) l end.

(** ** Members *)

Record LockingHypothesisMatches := mkMatches {
  hm_occurrences : Z;
  sorted_hypothesis : hypo;
  matches : list (hypo * Z)
}.

Definition empty_matches : LockingHypothesisMatches := mkMatches 0 [] [].

Record Member := mkMember {
  datatype : string;
  name : string;
  occurrences : Z;
  occurrences_with_locks : Z;
  combinations : list LockCombination;
  hypotheses : list (hypo * LockingHypothesisMatches);
  graph : list (hypo * list hypo);
  conflict_list : list (hypo * hypo);
  winning_hypothesis : hypo;
  winner_found : bool;
  show : bool;
  accesstype : Ascii.ascii
}.

Definition root_node : hypo := [].

Definition set_hypotheses (h : list (hypo * LockingHypothesisMatches)) (m : Member) : Member :=
  mkMember (datatype m) (name m) (occurrences m) (occurrences_with_locks m) (combinations m)
    h (graph m) (conflict_list m) (winning_hypothesis m) (winner_found m) (show m) (accesstype m).
Definition set_graph (g : list (hypo * list hypo)) (m : Member) : Member :=
  mkMember (datatype m) (name m) (occurrences m) (occurrences_with_locks m) (combinations m)
    (hypotheses m) g (conflict_list m) (winning_hypothesis m) (winner_found m) (show m) (accesstype m).
Definition set_winner (c : list (hypo * hypo)) (found : bool) (m : Member) : Member :=
  mkMember (datatype m) (name m) (occurrences m) (occurrences_with_locks m) (combinations m)
    (hypotheses m) (graph m) c (winning_hypothesis m) found (show m) (accesstype m).
Definition set_winning (h : hypo) (m : Member) : Member :=
  mkMember (datatype m) (name m) (occurrences m) (occurrences_with_locks m) (combinations m)
    (hypotheses m) (graph m) (conflict_list m) h (winner_found m) (show m) (accesstype m).

(** [graph[node]]: no children when absent. *)
Definition children (m : Member) (node : hypo) : list hypo :=
  default [] (sm_find node (graph m)).

(** ** The hypothesis graph *)

(** [found == lhs.size()] at position [i]. *)
Fixpoint count_equal (lhs rhs : list myid_t) : nat :=
  match lhs, rhs with
  | x :: lhs', y :: rhs' => Nat.add (if x =? y then 1%nat else 0%nat) (count_equal lhs' rhs')
  | _, _ => 0%nat
  end.

(** The positions [i], [i + 1], ... up to [i + n]. *)
Fixpoint diff_loop (n : nat) (lhs rhs : list myid_t) : bool :=
  (count_equal lhs rhs =? length lhs)%nat ||
  match n with
  | O => false
  | S n => diff_loop n lhs (tail rhs)
  end.

(** [None]: the assertion fails. *)
Definition diff_hypotheses (lhs rhs : hypo) : option Z :=
  if (length lhs <=? length rhs)%nat then
    let diff := (length rhs - length lhs)%nat in
    Some (if diff_loop diff lhs rhs then Z.of_nat diff else -1)
  else None.

Definition add_edge (node child : hypo) (m : Member) : Member :=
  set_graph (sm_set node (ss_insert child (children m node)) (graph m)) m.

(** [graph[node]] creates the entry. *)
Definition touch (node : hypo) (m : Member) : Member :=
  set_graph (sm_emplace node [] (graph m)).1 m.

Fixpoint add_loop (fuel : nat) (nodes : list hypo) (hypothesis : hypo) (m : Member)
    : exn + Member :=
  match nodes with
  | [] => inr m
  | cur_node :: nodes' =>
      match fuel with
      | O => inl out_of_fuel
      | S fuel =>
          match diff_hypotheses cur_node hypothesis with
          | None => inl (undefined "assertion")
          | Some ret =>
              if ret =? 0 then inl (undefined "assertion")
              else if 0 <? ret then
                if ret =? 1 then add_loop fuel nodes' hypothesis (add_edge cur_node hypothesis m)
                else add_loop fuel (nodes' ++ children m cur_node) hypothesis (touch cur_node m)
              else add_loop fuel nodes' hypothesis m
          end
      end
  end.

Definition add_hypothesis_to_graph (fuel : nat) (m : Member) (hypothesis : hypo) : exn + Member :=
  match hypothesis with
  | [] => inr m
  | _ => add_loop fuel [root_node] hypothesis m
  end.

(** ** Testing hypotheses *)

Definition match_step (hypothesis : hypo) (a : LockingHypothesisMatches) (lc : LockCombination)
    : LockingHypothesisMatches :=
  if contains_locks lc hypothesis then
    let key := lock_order lc hypothesis in
    mkMatches (u64 (hm_occurrences a + lc_occurrences lc)) hypothesis
      (sm_set key (u64 (default 0 (sm_find key (matches a)) + lc_occurrences lc)) (matches a))
  else a.

Definition matches_of (combos : list LockCombination) (hypothesis : hypo)
    : LockingHypothesisMatches := foldl (match_step hypothesis) empty_matches combos.

Definition evaluate_hypothesis (fuel : nat) (m : Member) (hypothesis : hypo) : exn + Member :=
  match sm_find hypothesis (hypotheses m) with
  | Some _ => inr m
  | None =>
      add_hypothesis_to_graph fuel
        (set_hypotheses (sm_set hypothesis (matches_of (combinations m) hypothesis) (hypotheses m)) m)
        hypothesis
  end.

(** [rest] is [locks_held_sorted] from [next_lockpos] on. *)
Fixpoint find_hypotheses_rek (fuel depth : nat) (m : Member) (rest : list myid_t) (cur : hypo)
    : exn + Member :=
  match depth with
  | O => evaluate_hypothesis fuel m cur
  | S depth' =>
      (fix positions (rest : list myid_t) (m : Member) : exn + Member :=
         match rest with
         | [] => inr m
         | lock :: rest' =>
             if bool_decide (lock ∈ cur) then positions rest' m
             else match find_hypotheses_rek fuel depth' m rest' (cur ++ [lock]) with
                  | inl e => inl e
                  | inr m' => positions rest' m'
                  end
         end) rest m
  end.

Fixpoint find_combinations (fuel depth : nat) (lcs : list LockCombination) (m : Member)
    : exn + Member :=
  match lcs with
  | [] => inr m
  | lc :: lcs' =>
      match find_hypotheses_rek fuel depth m (locks_held_sorted lc) [] with
      | inl e => inl e
      | inr m' => find_combinations fuel depth lcs' m'
      end
  end.

(** The depths [depth], [depth + 1], ...; [n] bounds their number. *)
Fixpoint find_depths (fuel n depth : nat) (max_hypo_len : Z) (m : Member) : exn + Member :=
  match n with
  | O => inl out_of_fuel
  | S n =>
      match find_combinations fuel depth (combinations m) m with
      | inl e => inl e
      | inr m' =>
          if (length (hypotheses m) =? length (hypotheses m'))%nat
             || ((0 <? max_hypo_len) && (max_hypo_len <=? Z.of_nat depth))
          then inr m'
          else find_depths fuel n (S depth) max_hypo_len m'
      end
  end.

Definition find_hypotheses (fuel n : nat) (m : Member) (max_hypo_len : Z) : exn + Member :=
  find_depths fuel n 0 max_hypo_len m.

(** ** The winning hypothesis *)

(** What an evaluation callback changes. *)
Record search := mkSearch {
  sr_member : Member;
  sr_nodes : list hypo;
  sr_rel_support_winner : double
}.

Definition push_children (node : hypo) (s : search) : search :=
  mkSearch (touch node (sr_member s)) (sr_nodes s ++ children (sr_member s) node)
    (sr_rel_support_winner s).

Definition in_conflict_list (l : list (hypo * hypo)) (h : hypo) : bool :=
  existsb (fun e => bool_decide (e.2 = h)) l.

Definition save_equal (cur_sorted cur_ordered : hypo) (s : search) : search :=
  let m := sr_member s in
  if in_conflict_list (conflict_list m) cur_ordered then s
  else mkSearch (set_winner (conflict_list m ++ [(cur_sorted, cur_ordered)]) (winner_found m) m)
         (sr_nodes s) (sr_rel_support_winner s).

Definition reset_winner (cur_sorted cur_ordered : hypo) (rel : double) (s : search) : search :=
  mkSearch (set_winner [(cur_sorted, cur_ordered)] true (sr_member s)) (sr_nodes s) rel.

(** The number of locks of the representative, [conflict_list.front()]. *)
Definition front_size (m : Member) : exn + nat :=
  match conflict_list m with
  | (h, _) :: _ => inr (length h)
  | [] => inl (undefined "front() of an empty deque")
  end.

Definition eval_cb : Type := hypo -> hypo -> double -> search -> exn + search.

Definition evaluate_hypothesis_bottomup (accept_threshold : double) : eval_cb :=
  fun cur_sorted cur_ordered cur_rel_sup s =>
  match front_size (sr_member s) with
  | inl e => inl e
  | inr n =>
      let rel := sr_rel_support_winner s in
      if (n =? length cur_sorted)%nat && SFeqb cur_rel_sup rel then
        inr (push_children cur_sorted (save_equal cur_sorted cur_ordered s))
      else if (SFleb accept_threshold cur_rel_sup && SFltb cur_rel_sup rel)
              || ((n <? length cur_sorted)%nat && SFeqb cur_rel_sup rel) then
        inr (push_children cur_sorted (reset_winner cur_sorted cur_ordered cur_rel_sup s))
      else inr s
  end.

Definition evaluate_hypothesis_sharpen (reduction_factor : double) : eval_cb :=
  fun cur_sorted cur_ordered cur_rel_sup s =>
  match front_size (sr_member s) with
  | inl e => inl e
  | inr n =>
      let rel := sr_rel_support_winner s in
      let delta := dsub (to_double 1) (ddiv cur_rel_sup rel) in
      if (n =? length cur_sorted)%nat && SFeqb cur_rel_sup rel then
        inr (push_children cur_sorted (save_equal cur_sorted cur_ordered s))
      else if ((n =? length cur_sorted)%nat && SFltb rel cur_rel_sup)
              || ((n <? length cur_sorted)%nat
                  && (SFeqb cur_rel_sup rel || SFleb delta reduction_factor)) then
        inr (push_children cur_sorted (reset_winner cur_sorted cur_ordered cur_rel_sup s))
      else inr s
  end.

Definition evaluate_hypothesis_lockset : eval_cb :=
  fun cur_sorted cur_ordered cur_rel_sup s =>
  if SFltb cur_rel_sup (to_double 1) then inr s else
  match front_size (sr_member s) with
  | inl e => inl e
  | inr n =>
      if (n =? length cur_sorted)%nat then
        inr (push_children cur_sorted (save_equal cur_sorted cur_ordered s))
      else if (n <=? length cur_sorted)%nat then
        inr (push_children cur_sorted
          (reset_winner cur_sorted cur_ordered (sr_rel_support_winner s) s))
      else inr s
  end.

Definition evaluate_hypothesis_init_topdown (s : search) : search :=
  mkSearch (set_winner (conflict_list (sr_member s)) false (sr_member s)) [root_node] (to_double 0).

Definition evaluate_hypothesis_topdown (accept_threshold nolock_threshold : double) : eval_cb :=
  fun cur_sorted cur_ordered cur_rel_sup s =>
  let m := sr_member s in
  let nolock_fraction := ddiv (to_double (u64 (occurrences m - occurrences_with_locks m)))
                              (to_double (occurrences m)) in
  if negb (SFleb nolock_threshold nolock_fraction) then
    if bool_decide (cur_sorted = root_node) then inr (push_children cur_sorted s) else
    match front_size m with
    | inl e => inl e
    | inr n =>
        let rel := sr_rel_support_winner s in
        if (n =? length cur_sorted)%nat && SFeqb cur_rel_sup rel then
          inr (push_children cur_sorted (save_equal cur_sorted cur_ordered s))
        else if SFleb accept_threshold cur_rel_sup && SFleb rel cur_rel_sup
                && (n <=? length cur_sorted)%nat then
          inr (push_children cur_sorted (reset_winner cur_sorted cur_ordered cur_rel_sup s))
        else inr s
    end
  else inr (mkSearch (set_winner (match conflict_list m with [] => [(root_node, root_node)] | l => l end)
                        true m) (sr_nodes s) (sr_rel_support_winner s)).

(** The order with the most occurrences, the first one among equals; the empty
    vector when no order has any. *)
Definition best_order (l : list (hypo * Z)) : hypo * Z :=
  foldl (fun best e => if best.2 <? e.2 then e else best) ([], 0) l.

Definition examine (eval : eval_cb) (cur_sorted : hypo) (s : search) : exn + search :=
  let m := sr_member s in
  let ms := matches (default empty_matches (sm_find cur_sorted (hypotheses m))) in
  let cur_ordered := (best_order ms).1 in
  let m' := set_hypotheses (sm_emplace cur_sorted empty_matches (hypotheses m)).1 m in
  let cur_rel_sup := ddiv (to_double (default 0 (sm_find cur_ordered ms))) (to_double (occurrences m)) in
  eval cur_sorted cur_ordered cur_rel_sup (mkSearch m' (sr_nodes s) (sr_rel_support_winner s)).

(** The breadth-first search.  [nodes.front()] is removed after its
    evaluation, and evaluation only adds at the end. *)
Fixpoint search_loop (fuel : nat) (eval : eval_cb) (s : search) : exn + search :=
  match sr_nodes s with
  | [] => inr s
  | cur_sorted :: nodes' =>
      match fuel with
      | O => inl out_of_fuel
      | S fuel =>
          match examine eval cur_sorted (mkSearch (sr_member s) nodes' (sr_rel_support_winner s)) with
          | inl e => inl e
          | inr s' => search_loop fuel eval s'
          end
      end
  end.

Definition determine_winning_hypothesis (fuel : nat) (eval : eval_cb)
    (init_cb : option (search -> search)) (m : Member) : exn + Member :=
  let m1 := set_winner [(root_node, root_node)] true m in
  let s := mkSearch (touch root_node m1) (children m1 root_node) (to_double 1) in
  let s := match init_cb with Some f => f s | None => s end in
  match search_loop fuel eval s with
  | inl e => inl e
  | inr s' =>
      let m' := sr_member s' in
      if winner_found m' then
        match conflict_list m' with
        | winner :: _ => inr (set_winning winner.2 m')
        | [] => inl (undefined "front() of an empty deque")
        end
      else inr m'
  end.

(** The four selection strategies. *)
Inductive SelectionStrategy := TOPDOWN | BOTTOMUP | SHARPEN | LOCKSET.

Definition strategy_eval (s : SelectionStrategy) (accept nolock reduction : double) : eval_cb :=
  match s with
  | SHARPEN => evaluate_hypothesis_sharpen reduction
  | TOPDOWN => evaluate_hypothesis_topdown accept nolock
  | BOTTOMUP => evaluate_hypothesis_bottomup accept
  | LOCKSET => evaluate_hypothesis_lockset
  end.

Definition strategy_init (s : SelectionStrategy) : option (search -> search) :=
  match s with TOPDOWN => Some evaluate_hypothesis_init_topdown | _ => None end.

(** The winner of a member under a strategy. *)
Definition select_winner (fuel : nat) (s : SelectionStrategy) (accept nolock reduction : double)
    (m : Member) : exn + Member :=
  determine_winning_hypothesis fuel (strategy_eval s accept nolock reduction) (strategy_init s) m.

(** [smoothstep(a, b, x)]: scales a relative support by its confidence. *)
Definition smoothstep (a b x : double) : double :=
  if SFltb x a then to_double 0
  else if SFleb b x then to_double 1
  else let x := ddiv (dsub x a) (dsub b a) in
       dmul (dmul x x) (dsub (to_double 3) (dmul (to_double 2) x)).
