(* ===== verification/HypoSpec.v ===== *)
(** * What the tests of lock combinations decide

    [contains_locks], [lock_order], [diff_hypotheses] and the matches of a
    hypothesis, in terms of sets, permutations and sums. *)
From S2P Require Import Prelude StdMap Hypothesizer.
Local Open Scope list_scope.
Local Open Scope Z_scope.

(** A hypothesis: locks in strictly increasing order. *)
Definition hypothesis_ok (h : hypo) : Prop := StronglySorted Z.lt h.

Lemma sort_ids_perm l : sort_ids l ≡ₚ l.
Proof. apply merge_sort_Permutation. Qed.

Lemma sort_ids_sorted l : StronglySorted Z.le (sort_ids l).
Proof. apply (StronglySorted_merge_sort Z.le). Qed.

Lemma strict_NoDup h : hypothesis_ok h -> NoDup h.
Proof.
  induction h as [|x h IH]; [constructor|]. intros [Hx Hh]%StronglySorted_cons.
  constructor; [|auto]. intros Hin. rewrite Forall_forall in Hx. specialize (Hx _ Hin). lia.
Qed.

(** ** contains_locks *)

Lemma contains_scan_spec held : StronglySorted Z.le held -> forall theirs, hypothesis_ok theirs ->
  contains_scan held theirs = true <-> theirs ⊆ held.
Proof.
  induction held as [|x held IH]; intros Hh theirs Ht; destruct theirs as [|y theirs]; simpl.
  - done.
  - split; [done|]. intros Hin. specialize (Hin y). rewrite elem_of_nil in Hin. set_solver.
  - split; [set_solver|done].
  - apply StronglySorted_cons in Hh as [Hx Hh]. pose proof Ht as Ht'.
    apply StronglySorted_cons in Ht' as [Hy Ht'].
    rewrite Forall_forall in Hx, Hy.
    destruct (Z.eqb_spec x y) as [->|Hne].
    + rewrite IH by done. split; [set_solver|]. intros Hsub z Hz.
      specialize (Hsub z ltac:(set_solver)). apply elem_of_cons in Hsub as [->|]; [|done].
      specialize (Hy _ Hz). lia.
    + rewrite IH by done. split; [set_solver|]. intros Hsub z Hz.
      pose proof (Hsub z Hz) as Hz'. apply elem_of_cons in Hz' as [->|]; [|done].
      apply elem_of_cons in Hz as [->|Hz]; [done|].
      specialize (Hy _ Hz). pose proof (Hsub y ltac:(set_solver)) as Hy'.
      apply elem_of_cons in Hy' as [->|Hy']; [done|]. specialize (Hx _ Hy'). lia.
Qed.

Lemma contains_locks_spec n held h :
  hypothesis_ok h -> contains_locks (new_LockCombination n held) h = true <-> h ⊆ held.
Proof.
  intros Hh. unfold contains_locks. simpl. rewrite contains_scan_spec by (done || apply sort_ids_sorted).
  by rewrite sort_ids_perm.
Qed.

(** ** lock_order *)

Lemma erase_first_perm x l : x ∈ l -> l ≡ₚ x :: erase_first x l.
Proof.
  induction l as [|y l IH]; [set_solver|]. simpl. intros Hin.
  destruct (Z.eqb_spec y x) as [->|Hne]; [done|].
  apply elem_of_cons in Hin as [->|Hin]; [done|]. rewrite IH at 1 by done. constructor.
Qed.

Lemma lock_order_loop_sublist held : forall l, lock_order_loop held l `sublist_of` held.
Proof.
  induction held as [|x held IH]; intros l; simpl; [constructor|].
  case_bool_decide.
  - destruct (erase_first x l); [apply sublist_skip, sublist_nil_l|by apply sublist_skip].
  - by apply sublist_cons.
Qed.

Lemma lock_order_loop_perm held : forall l, NoDup l -> l ⊆ held -> lock_order_loop held l ≡ₚ l.
Proof.
  induction held as [|x held IH]; intros l Hnd Hsub; simpl.
  - destruct l as [|y l]; [done|]. specialize (Hsub y ltac:(set_solver)). set_solver.
  - case_bool_decide as Hin.
    + pose proof (erase_first_perm x l Hin) as Hp. rewrite Hp in Hnd. apply NoDup_cons in Hnd as [Hx Hnd].
      destruct (erase_first x l) as [|y l'] eqn:E; [by rewrite Hp|].
      rewrite IH; [by rewrite <- Hp|done|].
      intros z Hz. assert (z ∈ l) as Hz' by (rewrite Hp; set_solver).
      apply Hsub, elem_of_cons in Hz' as [->|]; done.
    + apply IH; [done|]. intros z Hz. specialize (Hsub z Hz). apply elem_of_cons in Hsub as [->|]; done.
Qed.

(** The order in which a combination takes the locks of a hypothesis. *)
Lemma lock_order_spec lc h :
  hypothesis_ok h -> h ⊆ locks_held lc ->
  lock_order lc h ≡ₚ h /\ lock_order lc h `sublist_of` locks_held lc.
Proof.
  intros Hh Hsub. unfold lock_order. destruct h as [|x h]; [split; [done|apply sublist_nil_l]|].
  split; [|apply lock_order_loop_sublist]. apply lock_order_loop_perm; [by apply strict_NoDup|done].
Qed.

(** ** diff_hypotheses *)

Lemma count_equal_le lhs : forall rhs, (count_equal lhs rhs <= length lhs)%nat.
Proof.
  induction lhs as [|x lhs IH]; intros [|y rhs]; simpl; try lia.
  specialize (IH rhs). destruct (x =? y); lia.
Qed.

Lemma count_equal_prefix lhs : forall rhs,
  count_equal lhs rhs = length lhs <-> exists k, rhs = lhs ++ k.
Proof.
  induction lhs as [|x lhs IH]; intros [|y rhs]; simpl.
  - split; [by exists []|done].
  - split; [intros _; by exists (y :: rhs)|done].
  - split; [done|]. by intros [k ?].
  - pose proof (count_equal_le lhs rhs). destruct (Z.eqb_spec x y) as [->|Hne]; simpl.
    + specialize (IH rhs). split.
      * intros [= E]. apply IH in E as [k ->]. by exists k.
      * intros [k [= ->]]. f_equal. apply IH. by exists k.
    + split; [lia|]. by intros [k [= ]].
Qed.

Lemma diff_loop_spec lhs n : forall rhs, length rhs = (length lhs + n)%nat ->
  diff_loop n lhs rhs = true <-> exists k1 k2, rhs = k1 ++ lhs ++ k2.
Proof.
  induction n as [|n IH]; intros rhs Hlen; simpl; rewrite orb_true_iff, Nat.eqb_eq, count_equal_prefix.
  - split.
    + intros [[k ->]|]; [|done]. by exists [], k.
    + intros (k1 & k2 & ->). rewrite !length_app in Hlen. destruct k1; simpl in Hlen; [|lia].
      left. by exists k2.
  - destruct rhs as [|y rhs]; [simpl in Hlen; lia|]. simpl. rewrite IH by (simpl in Hlen; lia). split.
    + intros [[k E]|(k1 & k2 & ->)]; [by exists [], k|by exists (y :: k1), k2].
    + intros ([|z k1] & k2 & E); simpl in E; [left; by exists k2|].
      right. injection E as <- ->. by exists k1, k2.
Qed.

(** [diff_hypotheses] tells whether [lhs] is a contiguous part of [rhs]. *)
Lemma diff_hypotheses_spec lhs rhs : (length lhs <= length rhs)%nat ->
  (exists k1 k2, rhs = k1 ++ lhs ++ k2) /\
    diff_hypotheses lhs rhs = Some (Z.of_nat (length rhs - length lhs))
  \/ ~ (exists k1 k2, rhs = k1 ++ lhs ++ k2) /\ diff_hypotheses lhs rhs = Some (-1).
Proof.
  intros Hlen. unfold diff_hypotheses. rewrite (proj2 (Nat.leb_le _ _) Hlen).
  pose proof (diff_loop_spec lhs (length rhs - length lhs) rhs ltac:(lia)) as H.
  destruct (diff_loop _ lhs rhs); [left|right]; (split; [|done]).
  - by apply H.
  - intros Hex. apply H in Hex. done.
Qed.

(** ** Matches *)

Fixpoint sumZ (l : list Z) : Z :=
  match l with [] => 0 | x :: l' => x + sumZ l' end.

(** Occurrences of the combinations that contain a hypothesis. *)
Definition support (combos : list LockCombination) (h : hypo) : Z :=
  sumZ ((fun lc => if contains_locks lc h then lc_occurrences lc else 0) <$> combos).

Lemma u64_add_l x y : u64 (u64 x + y) = u64 (x + y).
Proof. unfold u64, wrap. by rewrite Zplus_mod_idemp_l. Qed.

Lemma sumZ_app l1 l2 : sumZ (l1 ++ l2) = sumZ l1 + sumZ l2.
Proof. induction l1 as [|x l1 IH]; simpl; [lia|]. rewrite IH. lia. Qed.

Lemma sm_set_sum k v (m : list (hypo * Z)) : sm_sorted m ->
  sumZ (sm_set k v m).*2 = sumZ m.*2 + v - default 0 (sm_find k m).
Proof.
  induction m as [|[k' v'] m IH]; [simpl; lia|]. intros [Hlt Hs]. cbn [sm_set sm_find].
  destruct (kcmp k k') eqn:E; rewrite !fmap_cons; cbn [sumZ fst snd default from_option id]; [lia| |rewrite IH by done; lia].
  rewrite sm_sorted_lt_find; [cbn; lia|].
  eapply Forall_impl; [exact Hlt|]. intros e He. by eapply kcmp_trans.
Qed.

(** A count is at most the sum of all. *)
Lemma sm_find_bounds (P : hypo * Z -> Prop) o (m : list (hypo * Z)) :
  Forall (fun e => 0 <= e.2 /\ P e) m -> 0 <= default 0 (sm_find o m) <= sumZ m.*2.
Proof.
  intros Hm. assert (Hpos : 0 <= default 0 (sm_find o m)).
  { destruct (sm_find o m) as [v|] eqn:Hf; [|done]. apply sm_find_elem in Hf. rewrite Forall_forall in Hm.
    by destruct (Hm _ Hf). }
  split; [done|]. clear Hpos. induction Hm as [|[k v] m [Hv _] Hm IH]; [done|]. rewrite fmap_cons. cbn [sumZ sm_find fst snd] in *.
  assert (0 <= sumZ m.*2) by (clear -Hm; induction Hm as [|e m [? _] _ IH]; [done|rewrite fmap_cons; cbn [sumZ]; lia]).
  destruct (kcmp o k); cbn [default from_option id]; lia.
Qed.

Lemma sm_keys_NoDup {V} (m : list (hypo * V)) : sm_sorted m -> NoDup m.*1.
Proof.
  induction m as [|[k v] m IH]; [constructor|]. intros [Hlt Hs]. rewrite fmap_cons. constructor; [|by apply IH].
  intros ([k' v'] & Hk & Hin)%list_elem_of_fmap. cbn in Hk. subst k'. rewrite Forall_forall in Hlt.
  specialize (Hlt _ Hin). cbn [fst] in Hlt. by rewrite kcmp_refl in Hlt.
Qed.

(** The matches of a hypothesis: their total is the number of occurrences, the
    support of the hypothesis, and every key is an order of its locks. *)
Lemma match_steps_spec h combos : hypothesis_ok h -> forall a,
  Forall (fun lc => 0 <= lc_occurrences lc /\ locks_held_sorted lc = sort_ids (locks_held lc)) combos ->
  0 <= hm_occurrences a -> hm_occurrences a + support combos h < 2 ^ 64 ->
  sm_sorted (matches a) -> sumZ (matches a).*2 = hm_occurrences a ->
  Forall (fun e : hypo * Z => 0 <= e.2 /\ e.1 ≡ₚ h) (matches a) ->
  let r := foldl (match_step h) a combos in
  hm_occurrences r = hm_occurrences a + support combos h
  /\ sumZ (matches r).*2 = hm_occurrences r /\ sm_sorted (matches r)
  /\ Forall (fun e : hypo * Z => 0 <= e.2 /\ e.1 ≡ₚ h) (matches r).
Proof.
  intros Hh. induction combos as [|lc combos IH]; intros a Hall Ha Hlt Hs Hsum Hk r; subst r.
  { unfold support. simpl. split; [lia|done]. }
  apply Forall_cons in Hall as [[Hocc Hsort] Hall]. unfold support in Hlt |- *.
  rewrite fmap_cons in Hlt |- *. simpl in Hlt |- *. fold (support combos h) in Hlt |- *.
  assert (0 <= support combos h) as Hpos.
  { clear -Hall. unfold support. induction Hall as [|lc combos [Hl _] _ IH]; [done|].
    rewrite fmap_cons. simpl. destruct (contains_locks lc h); lia. }
  destruct (contains_locks lc h) eqn:Hc.
  2: { assert (match_step h a lc = a) as -> by (unfold match_step; by rewrite Hc).
    rewrite Z.add_0_l. apply IH; done. }
  set (key := lock_order lc h). set (old := default 0 (sm_find key (matches a))).
  assert (0 <= old <= hm_occurrences a) as Hold by (rewrite <- Hsum; exact (sm_find_bounds (fun e => e.1 ≡ₚ h) key _ Hk)).
  assert (match_step h a lc = mkMatches (hm_occurrences a + lc_occurrences lc) h
    (sm_set key (old + lc_occurrences lc) (matches a))) as ->.
  { unfold match_step. rewrite Hc. fold key. fold old. by rewrite !u64_small by lia. }
  assert (key ≡ₚ h) as Hkey.
  { apply lock_order_spec; [done|]. unfold contains_locks in Hc. rewrite Hsort in Hc.
    apply contains_scan_spec in Hc; [|apply sort_ids_sorted|done]. by rewrite sort_ids_perm in Hc. }
  edestruct (IH (mkMatches (hm_occurrences a + lc_occurrences lc) h
    (sm_set key (old + lc_occurrences lc) (matches a)))) as (R1 & R2 & R3 & R4); simpl; try done.
  - lia.
  - lia.
  - by apply sm_sorted_set.
  - rewrite sm_set_sum by done. rewrite Hsum. change (default 0 (sm_find key (matches a))) with old. lia.
  - apply Forall_forall. intros e He%sm_set_elem. rewrite Forall_forall in Hk.
    destruct He as [->|He]; [split; [simpl; lia|done]|auto].
  - rewrite R1. simpl. split; [lia|]. split; [by rewrite R2, R1|done].
Qed.

(** *** The matches by order *)

(** The locks of [h] in the order in which they were taken for the first time. *)
Fixpoint first_taken (held : list myid_t) (h : hypo) : list myid_t :=
  match held with
  | [] => []
  | x :: held =>
      if bool_decide (x ∈ h) then x :: filter (fun y => y <> x) (first_taken held h) else first_taken held h
  end.

(** The occurrences of the combinations that hold all locks of [h] and took them
    in the order [o]. *)
Definition taken_as (h o : hypo) (lc : LockCombination) : bool :=
  bool_decide (h ⊆ locks_held lc) && bool_decide (first_taken (locks_held lc) h = o).
Definition taken_in_order (combos : list LockCombination) (h o : hypo) : Z :=
  sumZ ((fun lc => if taken_as h o lc then lc_occurrences lc else 0) <$> combos).

Lemma first_taken_erase held l x : NoDup l -> x ∈ l ->
  first_taken held (erase_first x l) = filter (fun y => y <> x) (first_taken held l).
Proof.
  intros Hnd Hx. pose proof (erase_first_perm x l Hx) as Hp.
  assert (Hn : x ∉ erase_first x l) by (rewrite Hp in Hnd; by apply NoDup_cons in Hnd as [? _]).
  assert (Hin : forall y, y ∈ erase_first x l <-> y ∈ l /\ y <> x).
  { intros y. assert (Hy : y ∈ l <-> y = x \/ y ∈ erase_first x l) by (by rewrite <-elem_of_cons, <-Hp).
    rewrite Hy. naive_solver. }
  induction held as [|z held IH]; [done|]. cbn [first_taken].
  destruct (decide (z ∈ l)) as [Hz|Hz]; [rewrite (bool_decide_eq_true_2 (z ∈ l)) by done|].
  - destruct (decide (z = x)) as [->|Hne].
    + rewrite bool_decide_eq_false_2 by naive_solver. rewrite IH, filter_cons_False by naive_solver.
      rewrite list_filter_filter. apply list_filter_iff. naive_solver.
    + rewrite bool_decide_eq_true_2 by naive_solver. rewrite filter_cons_True by done. f_equal.
      rewrite IH, !list_filter_filter. apply list_filter_iff. naive_solver.
  - rewrite !bool_decide_eq_false_2 by naive_solver. apply IH.
Qed.

Lemma first_taken_nil held : first_taken held [] = [].
Proof. by induction held. Qed.

Lemma lock_order_loop_taken held : forall l, NoDup l -> lock_order_loop held l = first_taken held l.
Proof.
  induction held as [|x held IH]; intros l Hnd; [done|]. cbn [lock_order_loop first_taken].
  destruct (decide (x ∈ l)) as [Hx|Hx]; [|rewrite !bool_decide_eq_false_2 by done; by apply IH].
  rewrite !bool_decide_eq_true_2 by done. f_equal. rewrite <-(first_taken_erase held l x Hnd Hx).
  assert (Hnd' : NoDup (erase_first x l)).
  { rewrite (erase_first_perm x l Hx) in Hnd. by apply NoDup_cons in Hnd as [_ ?]. }
  destruct (erase_first x l); [by rewrite first_taken_nil|]. by apply IH.
Qed.

(** The order that is looked up is the one the locks were taken in. *)
Lemma lock_order_taken lc h : hypothesis_ok h -> lock_order lc h = first_taken (locks_held lc) h.
Proof.
  intros Hh%strict_NoDup. unfold lock_order. destruct h; [by rewrite first_taken_nil|].
  by apply lock_order_loop_taken.
Qed.

Lemma contains_locks_held lc h : hypothesis_ok h -> locks_held_sorted lc = sort_ids (locks_held lc) ->
  contains_locks lc h = bool_decide (h ⊆ locks_held lc).
Proof.
  intros Hh Hs. apply eq_true_iff_eq. rewrite bool_decide_eq_true. unfold contains_locks. rewrite Hs.
  rewrite contains_scan_spec by (done || apply sort_ids_sorted). by rewrite sort_ids_perm.
Qed.

(** The count of every order, modulo 2^64, and which orders have one. *)
Lemma match_steps_orders h combos o : hypothesis_ok h -> forall a,
  Forall (fun lc => locks_held_sorted lc = sort_ids (locks_held lc)) combos ->
  let r := foldl (match_step h) a combos in
  u64 (default 0 (sm_find o (matches r))) = u64 (default 0 (sm_find o (matches a)) + taken_in_order combos h o) /\
  (is_Some (sm_find o (matches r)) <->
   is_Some (sm_find o (matches a)) \/ Exists (fun lc => taken_as h o lc = true) combos).
Proof.
  intros Hh. induction combos as [|lc combos IH]; intros a Hall r; subst r.
  { unfold taken_in_order. cbn [foldl fmap list_fmap sumZ]. rewrite Z.add_0_r, Exists_nil. naive_solver. }
  inversion_clear Hall as [|? ? Hs Hall']. cbn [foldl]. destruct (IH (match_step h a lc) Hall') as [H1 H2].
  rewrite H1, H2, Exists_cons. unfold taken_in_order. rewrite fmap_cons. cbn [sumZ].
  unfold match_step, taken_as. rewrite contains_locks_held by done.
  case_bool_decide as Hc; cbn [andb matches]; [|by rewrite Z.add_0_l; naive_solver].
  rewrite lock_order_taken by done. case_bool_decide as Ho.
  - rewrite Ho, sm_find_set_eq. cbn [default from_option id]. rewrite u64_add_l, Z.add_assoc.
    split; [done|]. split; [by right; left|by intros _; left].
  - rewrite sm_find_set_ne by done. rewrite Z.add_0_l. naive_solver.
Qed.

Lemma taken_in_order_bounds combos h o : hypothesis_ok h ->
  Forall (fun lc => 0 <= lc_occurrences lc /\ locks_held_sorted lc = sort_ids (locks_held lc)) combos ->
  0 <= taken_in_order combos h o <= support combos h.
Proof.
  intros Hh. induction 1 as [|lc combos [Ho Hs] _ IH]; [done|].
  unfold taken_in_order, support, taken_as in *. rewrite !fmap_cons. cbn [sumZ].
  rewrite contains_locks_held by done. repeat case_bool_decide; cbn [andb]; lia.
Qed.
