(* ===== verification/HypoFind.v ===== *)
(** * Which hypotheses are tested

    The enumeration of [find_hypotheses] terminates, tests exactly the lock
    sets that occur in some combination, and the graph it builds reaches every
    tested hypothesis from the root. *)
From S2P Require Import Prelude StdMap Hypothesizer HypoSpec.
From Stdlib Require List.
Local Open Scope list_scope.
Local Open Scope nat_scope.

(** ** Fuel *)

Lemma add_loop_mono h f : forall nodes m m' k,
  add_loop f nodes h m = inr m' -> add_loop (f + k) nodes h m = inr m'.
Proof.
  induction f as [|f IH]; intros [|x nodes] m m' k; simpl; try done.
  - by destruct k.
  - destruct (diff_hypotheses x h) as [r|]; [|done]. destruct (r =? 0)%Z; [done|].
    destruct (0 <? r)%Z; [destruct (r =? 1)%Z|]; apply IH.
Qed.

(** [op] returns [m'] with every large enough fuel. *)
Definition eventually (op : nat -> exn + Member) (m' : Member) : Prop :=
  exists f0, forall f, f0 <= f -> op f = inr m'.

Lemma eventually_ret m : eventually (fun _ => inr m) m.
Proof. by exists 0. Qed.

Lemma eventually_bind op k m1 m2 :
  eventually op m1 -> eventually (fun f => k f m1) m2 ->
  eventually (fun f => match op f with inl e => inl e | inr m => k f m end) m2.
Proof.
  intros [f1 H1] [f2 H2]. exists (f1 + f2). intros f Hf. rewrite H1, H2 by lia. done.
Qed.

(** ** The graph *)

Definition same_but_graph (m m' : Member) : Prop := m' = set_graph (graph m') m.

Lemma same_but_graph_refl m : same_but_graph m m.
Proof. by destruct m. Qed.

Lemma same_but_graph_trans m1 m2 m3 :
  same_but_graph m1 m2 -> same_but_graph m2 m3 -> same_but_graph m1 m3.
Proof. unfold same_but_graph. intros H1 H2. rewrite H2, H1. by destruct m1. Qed.

Lemma children_add_edge x c m y :
  children (add_edge x c m) y = if decide (y = x) then ss_insert c (children m x) else children m y.
Proof.
  unfold children, add_edge. simpl. case_decide as E.
  - subst. by rewrite sm_find_set_eq.
  - by rewrite sm_find_set_ne.
Qed.

Lemma children_touch x m y : children (touch x m) y = children m y.
Proof.
  unfold children, touch, sm_emplace. simpl.
  destruct (sm_find x (graph m)) eqn:E; simpl; [done|].
  destruct (decide (y = x)) as [-> |Hne]; [by rewrite sm_find_set_eq, E|by rewrite sm_find_set_ne].
Qed.

(** Children have one lock more than their parent. *)
Definition graded (m : Member) : Prop :=
  forall x c, c ∈ children m x -> length c = S (length x).

(** The nodes a search below [x] visits, to the depth [n]. *)
Fixpoint cost (n : nat) (m : Member) (x : hypo) : nat :=
  match n with
  | O => 1
  | S n => S (sum_list_with (cost n m) (children m x))
  end.

Section add_loop.
Context (h : hypo) (m0 : Member).
Hypothesis Hgraded : graded m0.

Definition node_cost (x : hypo) : nat := cost (length h - length x - 1) m0 x.

(** The member during the search: the children of the expanded nodes are those
    of [m0]. *)
Definition unchanged_below (m : Member) : Prop :=
  forall x, length x + 2 <= length h -> children m x = children m0 x.

(** The prefixes of [h] from length [k] on lead to [h]. *)
Definition chain_from (m : Member) (k : nat) : Prop :=
  forall j, k <= j -> j + 2 <= length h -> take (S j) h ∈ children m (take j h).

Record added (nodes : list hypo) (m m' : Member) : Prop := mkAdded {
  ad_same : same_but_graph m m';
  ad_old : forall x c, c ∈ children m x -> c ∈ children m' x;
  ad_new : forall x c, c ∈ children m' x ->
             c ∈ children m x \/ c = h /\ length h = S (length x);
  ad_chain : forall k, k < length h -> take k h ∈ nodes -> chain_from m k ->
               h ∈ children m' (take (length h - 1) h)
}.

Lemma added_step x nodes m m1 m' :
  added nodes m1 m' -> same_but_graph m m1 ->
  (forall y c, c ∈ children m y -> c ∈ children m1 y) ->
  (forall y c, c ∈ children m1 y -> c ∈ children m y \/ c = h /\ length h = S (length y)) ->
  (forall k, k < length h -> take k h = x -> chain_from m k -> h ∈ children m' (take (length h - 1) h)) ->
  added (x :: nodes) m m'.
Proof.
  intros [A1 A2 A3 A4] Hs Hold Hnew Hx. split.
  - by eapply same_but_graph_trans.
  - auto.
  - intros y c Hc. destruct (A3 _ _ Hc) as [|]; auto.
  - intros k Hk Hin Hch. apply elem_of_cons in Hin as [E|Hin]; [eauto|].
    apply (A4 k Hk Hin). intros j H1 H2. apply Hold. auto.
Qed.

Lemma take_infix k : exists k1 k2, h = k1 ++ take k h ++ k2.
Proof. exists [], (drop k h). symmetry. exact (take_drop k h). Qed.

Lemma add_loop_spec f : forall nodes m,
  sum_list_with node_cost nodes <= f -> Forall (fun x => length x < length h) nodes ->
  unchanged_below m ->
  exists m', add_loop f nodes h m = inr m' /\ added nodes m m'.
Proof.
  induction f as [|f IH]; intros [|x nodes] m Hf Hlt Hun.
  1,3: exists m; split; [done|]; split; [apply same_but_graph_refl|done|auto|set_solver].
  { simpl in Hf. unfold node_cost at 1 in Hf.
    destruct (length h - length x - 1); simpl in Hf; lia. }
  apply Forall_cons in Hlt as [Hx Hlt]. simpl in Hf. cbn [add_loop].
  destruct (diff_hypotheses_spec x h ltac:(lia)) as [[Hin ->]|[Hnin ->]].
  - replace (Z.of_nat (length h - length x) =? 0)%Z with false by (symmetry; apply Z.eqb_neq; lia).
    replace (0 <? Z.of_nat (length h - length x))%Z with true by (symmetry; apply Z.ltb_lt; lia).
    destruct (Z.eqb_spec (Z.of_nat (length h - length x)) 1) as [E|E].
    + destruct (IH nodes (add_edge x h m)) as (m' & Em & Ha).
      { unfold node_cost at 1 in Hf. replace (length h - length x - 1) with 0 in Hf by lia. simpl in Hf. lia. }
      { done. }
      { intros y Hy. rewrite children_add_edge, decide_False by (intros ->; lia). auto. }
      exists m'. split; [done|]. eapply added_step; [exact Ha|by destruct m|..].
      * intros y c Hc. rewrite children_add_edge. case_decide; [subst; apply ss_insert_elem; by right|done].
      * intros y c. rewrite children_add_edge. case_decide as Ey; [subst y|by left].
        intros [-> |]%ss_insert_elem; [right; split; [done|lia]|by left].
      * intros k Hk Ek _. assert (take (length h - 1) h = x) as ->.
        { rewrite <- Ek in E |- *. rewrite length_take in E. f_equal. lia. }
        apply (ad_old _ _ _ Ha). rewrite children_add_edge, decide_True by done.
        apply ss_insert_elem. by left.
    + destruct (IH (nodes ++ children m x) (touch x m)) as (m' & Em & Ha).
      {
        unfold node_cost at 1 in Hf. destruct (length h - length x - 1) as [|n] eqn:En; [lia|].
        cbn [cost] in Hf. rewrite (Hun x) by lia.
        rewrite sum_list_with_app.
        assert (sum_list_with node_cost (children m0 x) = sum_list_with (cost n m0) (children m0 x))
          as ->; [|lia].
        pose proof (Hgraded x) as Hc. revert Hc. generalize (children m0 x). intros cs.
        induction cs as [|c cs IHc]; intros Hc; [done|]. simpl.
        rewrite IHc by (intros c' Hc'; apply Hc; by right).
        unfold node_cost at 1. rewrite (Hc c) by left. do 2 f_equal. lia. }
      { apply Forall_app. split; [done|]. apply Forall_forall. intros c Hc.
        rewrite (Hun x) in Hc by lia. rewrite (Hgraded x c) by done. lia. }
      { intros y Hy. rewrite children_touch. auto. }
      exists m'. split; [done|].
      assert (added nodes m m' /\ (forall k, k < length h -> take k h = x -> chain_from m k ->
        h ∈ children m' (take (length h - 1) h))) as [Ha' Hx'].
      { destruct Ha as [A1 A2 A3 A4]. split; [split|].
        - eapply same_but_graph_trans; [|exact A1]. by destruct m.
        - intros y c Hc. apply A2. by rewrite children_touch.
        - intros y c Hc. destruct (A3 _ _ Hc) as [Hc'|]; [left|by right].
          by rewrite children_touch in Hc'.
        - intros k Hk Hin' Hch. apply (A4 k Hk); [set_solver|].
          intros j H1 H2. rewrite children_touch. auto.
        - intros k Hk Ek Hch. assert (length x = k) as Hlen by (rewrite <- Ek, length_take; lia).
          apply (A4 (S k)); [lia| |].
          + apply elem_of_app. right. rewrite <- Ek. apply Hch; lia.
          + intros j H1 H2. rewrite children_touch. apply Hch; lia. }
      by eapply added_step with (m1 := m); [exact Ha'|apply same_but_graph_refl|auto|auto|].
  - simpl. destruct (IH nodes m) as (m' & Em & Ha); [|done|done|].
    { unfold node_cost at 1 in Hf. destruct (length h - length x - 1); simpl in Hf; lia. }
    exists m'. split; [done|].
    eapply added_step with (m1 := m); [exact Ha|apply same_but_graph_refl|auto|auto|].
    intros k Hk Ek. destruct Hnin. rewrite <- Ek. apply take_infix.
Qed.
End add_loop.

(** ** Testing one hypothesis *)

Definition tested (m : Member) (h : hypo) : Prop := is_Some (sm_find h (hypotheses m)).

Record hyp_inv (m : Member) : Prop := mkHypInv {
  hi_graded : graded m;
  hi_tested : forall x c, c ∈ children m x -> tested m c;
  hi_prefix : forall h, tested m h -> h <> [] ->
    tested m (removelast h) /\ h ∈ children m (removelast h);
  hi_val : forall h ms, sm_find h (hypotheses m) = Some ms -> ms = matches_of (combinations m) h
}.

Lemma removelast_take (h : hypo) : removelast h = take (length h - 1) h.
Proof. rewrite List.removelast_firstn_len. f_equal. lia. Qed.

Lemma tested_prefixes m (h : hypo) k : hyp_inv m -> tested m h -> tested m (take k h).
Proof.
  intros I. remember (length h - k) as n eqn:En. revert k En.
  induction n as [|n IH]; intros k En Ht; [by rewrite take_ge by lia|].
  assert (tested m (take (S k) h)) as Hk by (apply IH; [lia|done]).
  destruct (hi_prefix _ I _ Hk) as [Hr _].
  { destruct h; [simpl in En; lia|done]. }
  rewrite removelast_take, length_take, take_take in Hr. by replace (_ `min` _) with k in Hr by lia.
Qed.

Lemma prefix_chain m (h : hypo) k : hyp_inv m -> tested m (removelast h) -> chain_from h m k.
Proof.
  intros I Ht j _ Hj. rewrite removelast_take in Ht.
  assert (tested m (take (S j) h)) as Hs.
  { pose proof (tested_prefixes m _ (S j) I Ht) as H. rewrite take_take in H.
    by replace (S j `min` (length h - 1)) with (S j) in H by lia. }
  destruct (hi_prefix _ I _ Hs) as [_ Hr]; [destruct h; [simpl in Hj; lia|done]|].
  rewrite removelast_take, length_take, take_take in Hr. by replace (_ `min` _) with j in Hr by lia.
Qed.

(** A step that tests some hypotheses and keeps the rest of the member. *)
Record step (m m' : Member) : Prop := mkStep {
  st_same : m' = set_graph (graph m') (set_hypotheses (hypotheses m') m);
  st_tested : forall h, tested m h -> tested m' h;
  st_length : length (hypotheses m) <= length (hypotheses m');
  st_none : length (hypotheses m) = length (hypotheses m') -> forall h, tested m' h -> tested m h
}.

Lemma step_refl m : step m m.
Proof. split; [by destruct m|done|done|done]. Qed.

Lemma step_trans m1 m2 m3 : step m1 m2 -> step m2 m3 -> step m1 m3.
Proof.
  intros [A1 A2 A3 A4] [B1 B2 B3 B4]. split.
  - rewrite B1, A1. by destruct m1.
  - auto.
  - lia.
  - intros Hl h Hh. apply A4; [lia|]. apply B4; [lia|done].
Qed.

Lemma step_combinations m m' : step m m' -> combinations m' = combinations m.
Proof. intros [-> _ _ _]. by destruct m. Qed.

Lemma evaluate_hypothesis_spec m (h : hypo) :
  hyp_inv m -> (h <> [] -> tested m (removelast h)) ->
  exists m', eventually (fun f => evaluate_hypothesis f m h) m'
    /\ hyp_inv m' /\ step m m' /\ (forall h', tested m' h' <-> tested m h' \/ h' = h).
Proof.
  intros I Hpre. unfold evaluate_hypothesis.
  destruct (sm_find h (hypotheses m)) as [ms|] eqn:Hf.
  { exists m. split; [apply eventually_ret|]. split; [done|]. split; [apply step_refl|].
    intros h'. split; [by left|]. intros [| ->]; [done|]. by exists ms. }
  set (m1 := set_hypotheses _ m).
  assert (forall h', tested m1 h' <-> tested m h' \/ h' = h) as Ht1.
  { intros h'. unfold tested, m1. simpl. destruct (decide (h' = h)) as [-> |Hne].
    - rewrite sm_find_set_eq. split; [by right|by eexists].
    - rewrite sm_find_set_ne by done. naive_solver. }
  assert (length (hypotheses m1) = S (length (hypotheses m))) as Hlen.
  { unfold m1. simpl. by rewrite (sm_set_perm _ _ _ Hf). }
  assert (step m m1) as Hst1.
  { split; [by destruct m|intros h' Hh; apply Ht1; by left|lia|lia]. }
  assert (forall h' ms, sm_find h' (hypotheses m1) = Some ms -> ms = matches_of (combinations m) h') as Hval.
  { intros h' ms'. unfold m1. simpl. destruct (decide (h' = h)) as [-> |Hne].
    - rewrite sm_find_set_eq. by intros [= <-].
    - rewrite sm_find_set_ne by done. apply (hi_val _ I). }
  destruct h as [|x h'] eqn:Eh.
  { exists m1. split; [apply eventually_ret|]. split; [|done]. split.
    - apply (hi_graded _ I).
    - intros y c Hc. apply Ht1. left. by eapply hi_tested.
    - intros h0 [Hh0| ->]%Ht1 Hne; [|done]. destruct (hi_prefix _ I _ Hh0 Hne) as [H1 H2].
      split; [apply Ht1; by left|done].
    - exact Hval. }
  rewrite <- Eh in *. specialize (Hpre ltac:(by subst h)).
  destruct (add_loop_spec h m1 (hi_graded _ I) (sum_list_with (node_cost h m1) [root_node]) [root_node] m1)
    as (m2 & E2 & Ha); [done|by constructor; [subst h; simpl; lia|]|done|].
  destruct Ha as [A1 A2 A3 A4].
  assert (hypotheses m2 = hypotheses m1) as Hh2 by (rewrite A1; by destruct m1).
  assert (combinations m2 = combinations m) as Hc2 by (rewrite A1; by destruct m).
  assert (forall h', tested m2 h' <-> tested m h' \/ h' = h) as Ht2
    by (intros h0; unfold tested; rewrite Hh2; apply Ht1).
  assert (h ∈ children m2 (removelast h)) as Hedge.
  { rewrite removelast_take. apply (A4 0).
    - subst h. simpl. lia.
    - rewrite take_0. by left.
    - exact (prefix_chain m h 0 I Hpre). }
  exists m2. split.
  { exists (sum_list_with (node_cost h m1) [root_node]). intros f Hf'. unfold add_hypothesis_to_graph.
    rewrite Eh at 1. replace f with (sum_list_with (node_cost h m1) [root_node]
      + (f - sum_list_with (node_cost h m1) [root_node])) by lia.
    by apply add_loop_mono. }
  split; [|split].
  - split.
    + intros y c Hc. destruct (A3 _ _ Hc) as [Hc'|[-> ?]]; [by apply (hi_graded _ I)|done].
    + intros y c Hc. apply Ht2. destruct (A3 _ _ Hc) as [Hc'|[-> ?]]; [left; by eapply hi_tested|by right].
    + intros h0 [Hh0| ->]%Ht2 Hne.
      * destruct (hi_prefix _ I _ Hh0 Hne) as [H1 H2]. split; [apply Ht2; by left|by apply A2].
      * split; [apply Ht2; by left|done].
    + intros h0 ms. rewrite Hh2, Hc2. apply Hval.
  - split.
    + transitivity (set_graph (graph m2) m1); [exact A1|]. rewrite Hh2. by destruct m.
    + intros h0 Hh0. apply Ht2. by left.
    + rewrite Hh2. lia.
    + rewrite Hh2. lia.
  - exact Ht2.
Qed.

(** ** Enumeration *)

Fixpoint eval_all (f : nat) (hs : list hypo) (m : Member) : exn + Member :=
  match hs with
  | [] => inr m
  | h :: hs' =>
      match evaluate_hypothesis f m h with
      | inl e => inl e
      | inr m' => eval_all f hs' m'
      end
  end.

Lemma eval_all_app f hs1 hs2 m :
  eval_all f (hs1 ++ hs2) m =
  match eval_all f hs1 m with inl e => inl e | inr m' => eval_all f hs2 m' end.
Proof.
  revert m. induction hs1 as [|h hs1 IH]; intros m; simpl; [done|].
  destruct (evaluate_hypothesis f m h); [done|apply IH].
Qed.

Lemma eval_all_spec hs : forall m,
  hyp_inv m -> (forall h, h ∈ hs -> h <> [] -> tested m (removelast h)) ->
  exists m', eventually (fun f => eval_all f hs m) m'
    /\ hyp_inv m' /\ step m m' /\ (forall h, tested m' h <-> tested m h \/ h ∈ hs).
Proof.
  induction hs as [|h hs IH]; intros m I Hpre; simpl.
  - exists m. split; [apply eventually_ret|]. split; [done|]. split; [apply step_refl|].
    intros h. rewrite elem_of_nil. naive_solver.
  - destruct (evaluate_hypothesis_spec m h I) as (m1 & E1 & I1 & S1 & T1).
    { apply Hpre. by left. }
    destruct (IH m1 I1) as (m2 & E2 & I2 & S2 & T2).
    { intros h' Hh' Hne. apply T1. left. apply Hpre; [by right|done]. }
    exists m2. split; [exact (eventually_bind _ _ _ _ E1 E2)|]. split; [done|].
    split; [by eapply step_trans|]. intros h'. rewrite T2, T1, elem_of_cons. naive_solver.
Qed.

(** The hypotheses [find_hypotheses_rek] tests, in order. *)
Fixpoint enum (depth : nat) (cur : hypo) (rest : list myid_t) : list hypo :=
  match depth with
  | O => [cur]
  | S depth' =>
      (fix positions (rest : list myid_t) : list hypo :=
         match rest with
         | [] => []
         | lock :: rest' =>
             if bool_decide (lock ∈ cur) then positions rest'
             else enum depth' (cur ++ [lock]) rest' ++ positions rest'
         end) rest
  end.

Lemma find_hypotheses_rek_enum f depth : forall rest cur m,
  find_hypotheses_rek f depth m rest cur = eval_all f (enum depth cur rest) m.
Proof.
  induction depth as [|depth IH]; intros rest cur; cbn [find_hypotheses_rek enum].
  - intros m. simpl. by destruct (evaluate_hypothesis f m cur).
  - induction rest as [|x rest IHr]; intros m; [done|].
    destruct (bool_decide (x ∈ cur)); [apply IHr|].
    rewrite eval_all_app, IH. destruct (eval_all f _ m); [done|apply IHr].
Qed.

Lemma enum_elem depth : forall cur rest h,
  h ∈ enum depth cur rest <->
  exists s, h = cur ++ s /\ s `sublist_of` rest /\ length s = depth /\ NoDup s
    /\ (forall x, x ∈ s -> x ∉ cur).
Proof.
  induction depth as [|depth IH]; intros cur rest h; cbn [enum].
  - rewrite list_elem_of_singleton. split.
    + intros ->. exists []. rewrite app_nil_r. split; [done|]. split; [apply sublist_nil_l|].
      split; [done|]. split; [constructor|]. intros x Hx. by apply elem_of_nil in Hx.
    + intros (s & -> & _ & Hs & _). destruct s; [|done]. by rewrite app_nil_r.
  - induction rest as [|x rest IHr].
    + split; [intros H; by apply elem_of_nil in H|]. intros (s & _ & Hs & Hl & _).
      apply sublist_nil_r in Hs as ->. done.
    + assert (h ∈ (if bool_decide (x ∈ cur) then [] else enum depth (cur ++ [x]) rest) <->
        exists s, h = cur ++ x :: s /\ s `sublist_of` rest /\ length s = depth /\ NoDup (x :: s)
          /\ (forall y, y ∈ x :: s -> y ∉ cur)) as Hhead.
      { case_bool_decide as Hx.
        - split; [intros H; by apply elem_of_nil in H|]. intros (s & _ & _ & _ & _ & Hd).
          destruct (Hd x); [by left|done].
        - rewrite IH. split.
          + intros (s & -> & H1 & H2 & H3 & H4). exists s. rewrite <- app_assoc. split; [done|].
            split; [done|]. split; [done|]. split.
            * constructor; [|done]. intros Hin. apply (H4 _ Hin). set_solver.
            * intros y [-> |Hy]%elem_of_cons; [done|]. specialize (H4 _ Hy). set_solver.
          + intros (s & -> & H1 & H2 & H3 & H4). apply NoDup_cons in H3 as [H3 H5].
            exists s. rewrite <- app_assoc. repeat split; try done.
            intros y Hy. assert (y ∉ cur) by (apply H4; by right). set_solver. }
      transitivity (h ∈ (if bool_decide (x ∈ cur) then [] else enum depth (cur ++ [x]) rest)
        \/ h ∈ enum (S depth) cur rest).
      { cbn [enum]. case_bool_decide; [|by rewrite elem_of_app].
        split; [by right|]. intros [H'|H']; [by apply elem_of_nil in H'|done]. }
      rewrite Hhead. cbn [enum]. rewrite IHr. split.
      * intros [(s & -> & H1 & H2 & H3 & H4)|(s & -> & H1 & H2 & H3 & H4)].
        -- exists (x :: s). repeat split; try done; [by apply sublist_skip|simpl; by rewrite H2].
        -- exists s. repeat split; try done. by apply sublist_cons.
      * intros (s & -> & H1 & H2 & H3 & H4). apply sublist_cons_r in H1 as [H1|(s' & -> & H1)].
        -- right. by exists s.
        -- left. exists s'. simpl in H2. repeat split; try done. lia.
Qed.

(** ** All hypotheses *)

(** Strict sublists of a sorted list are its strictly increasing subsets. *)
Lemma sorted_sublist (l : list Z) : StronglySorted Z.le l -> forall s,
  (s `sublist_of` l /\ NoDup s) <-> (hypothesis_ok s /\ s ⊆ l).
Proof.
  induction 1 as [|x l Hl IH Hx]; intros s.
  - split.
    + intros [->%sublist_nil_r _]. split; [constructor|done].
    + intros [_ Hsub]. destruct s as [|y s]; [split; constructor|].
      specialize (Hsub y ltac:(by left)). by apply elem_of_nil in Hsub.
  - rewrite Forall_forall in Hx. split.
    + intros [Hs Hnd]. apply sublist_cons_r in Hs as [Hs|(s' & -> & Hs)].
      * destruct (proj1 (IH s) (conj Hs Hnd)) as [H1 H2]. split; [done|set_solver].
      * apply NoDup_cons in Hnd as [Hn Hnd]. destruct (proj1 (IH s') (conj Hs Hnd)) as [H1 H2].
        split; [|set_solver]. apply StronglySorted_cons. split; [|done].
        apply Forall_forall. intros y Hy. assert (x <> y) by (intros ->; done).
        specialize (Hx y (H2 _ Hy)). lia.
    + intros [Ho Hsub]. pose proof (strict_NoDup _ Ho) as Hnd. split; [|done].
      destruct s as [|y s]; [apply sublist_nil_l|].
      apply StronglySorted_cons in Ho as [Hy Ho]. rewrite Forall_forall in Hy.
      assert (forall z, z ∈ y :: s -> z <> x -> z ∈ l) as Hin by set_solver.
      destruct (decide (y = x)) as [-> |Hne].
      * apply sublist_skip. apply (IH s). split; [done|]. intros z Hz.
        apply Hin; [by right|]. specialize (Hy _ Hz). lia.
      * apply sublist_cons. apply (IH (y :: s)). split.
        { apply StronglySorted_cons. split; [by apply Forall_forall|done]. }
        intros z Hz. apply Hin; [done|]. apply elem_of_cons in Hz as [-> |Hz]; [done|].
        specialize (Hy _ Hz). specialize (Hx y (Hin y ltac:(by left) Hne)). lia.
Qed.

(** Lock sets that occur together in some combination. *)
Definition candidate (combos : list LockCombination) (h : hypo) : Prop :=
  hypothesis_ok h /\ exists lc, lc ∈ combos /\ h ⊆ locks_held lc.

Definition combos_sorted (combos : list LockCombination) : Prop :=
  Forall (fun lc => locks_held_sorted lc = sort_ids (locks_held lc)) combos.

Definition enum_all (depth : nat) (combos : list LockCombination) : list hypo :=
  mjoin ((fun lc => enum depth [] (locks_held_sorted lc)) <$> combos).

Lemma find_combinations_enum f depth lcs : forall m,
  find_combinations f depth lcs m = eval_all f (enum_all depth lcs) m.
Proof.
  induction lcs as [|lc lcs IH]; intros m; [done|]. cbn [find_combinations]. unfold enum_all.
  rewrite fmap_cons. simpl. rewrite eval_all_app, find_hypotheses_rek_enum.
  destruct (eval_all f _ m); [done|apply IH].
Qed.

Lemma enum_all_elem depth combos h : combos_sorted combos ->
  h ∈ enum_all depth combos <-> candidate combos h /\ length h = depth.
Proof.
  intros Hs. unfold combos_sorted in Hs. rewrite Forall_forall in Hs.
  unfold enum_all. rewrite list_elem_of_join. split.
  - intros (l & Hin & (lc & -> & Hlc)%list_elem_of_fmap).
    apply enum_elem in Hin as (s & -> & H1 & H2 & H3 & _). simpl.
    rewrite (Hs _ Hlc) in H1.
    destruct (proj1 (sorted_sublist _ (sort_ids_sorted _) s) (conj H1 H3)) as [H4 H5].
    rewrite sort_ids_perm in H5. split; [|done]. split; [done|]. by exists lc.
  - intros [[Ho (lc & Hlc & Hsub)] Hl].
    exists (enum depth [] (locks_held_sorted lc)). split; [|by apply list_elem_of_fmap_2 with (f := fun lc => enum depth [] (locks_held_sorted lc))].
    apply enum_elem. exists h. rewrite (Hs _ Hlc).
    destruct (proj2 (sorted_sublist _ (sort_ids_sorted (locks_held lc)) h)) as [H1 H2].
    { split; [done|]. by rewrite sort_ids_perm. }
    repeat split; try done. intros x _ Hx. by apply elem_of_nil in Hx.
Qed.

Lemma candidate_take combos h k : candidate combos h -> candidate combos (take k h).
Proof.
  intros [Ho (lc & Hlc & Hsub)]. split.
  - unfold hypothesis_ok in *. rewrite <- (take_drop k h) in Ho. by apply StronglySorted_app_1_l in Ho.
  - exists lc. split; [done|]. intros x Hx. apply Hsub. rewrite <- (take_drop k h).
    apply elem_of_app. by left.
Qed.

(** [max_hypo_len] of 0 is no limit. *)
Definition within (max_hypo_len : Z) (h : hypo) : Prop :=
  (max_hypo_len = 0 \/ Z.of_nat (length h) <= max_hypo_len)%Z.

Lemma find_depths_spec combos max_hypo_len bound :
  combos_sorted combos -> (0 <= max_hypo_len)%Z ->
  (forall h, candidate combos h -> length h < bound) ->
  forall n depth m, hyp_inv m -> combinations m = combos -> bound <= depth + n -> depth <= bound ->
  (0 < max_hypo_len -> Z.of_nat depth <= max_hypo_len)%Z ->
  (forall h, tested m h <-> candidate combos h /\ length h < depth) ->
  exists m', eventually (fun f => find_depths f (S n) depth max_hypo_len m) m'
    /\ hyp_inv m' /\ step m m'
    /\ (forall h, tested m' h <-> candidate combos h /\ within max_hypo_len h).
Proof.
  intros Hs Hmax Hbound. induction n as [|n IH]; intros depth m I Hc Hn Hd Hle Ht.
  all: destruct (eval_all_spec (enum_all depth combos) m I) as (m1 & E1 & I1 & S1 & T1).
  1,3: intros h [Hcand Hl]%enum_all_elem Hne; [|done]; apply Ht; rewrite removelast_take;
    split; [by apply candidate_take|]; rewrite length_take; destruct h; [done|simpl in *; lia].
  all: assert (forall h, tested m1 h <-> candidate combos h /\ length h <= depth) as T1'
    by (intros h; rewrite T1, Ht, enum_all_elem by done; destruct (decide (length h = depth)); intuition lia).
  all: assert (eventually (fun f => find_combinations f depth (combinations m) m) m1) as Ef
    by (destruct E1 as [f0 Hf0]; exists f0; intros f Hf; rewrite Hc, find_combinations_enum; auto).
  all: assert (length (hypotheses m) = length (hypotheses m1) ->
    forall h, candidate combos h -> length h < depth) as Hstop.
  1,3: intros Hlen h Hh; destruct (decide (length h < depth)) as [|Hge]; [done|exfalso];
    assert (tested m (take depth h)) as Hth by
      (apply (st_none _ _ S1 Hlen), T1'; split; [by apply candidate_take|rewrite length_take; lia]);
    apply Ht in Hth as [_ Hth]; rewrite length_take in Hth; lia.
  - assert (depth = bound) as -> by lia.
    assert (length (hypotheses m) = length (hypotheses m1)) as Hlen.
    { assert (enum_all bound combos = []) as He.
      { destruct (enum_all bound combos) as [|h hs] eqn:E; [done|].
        assert (h ∈ enum_all bound combos) as Hh by (rewrite E; by left).
        apply enum_all_elem in Hh as [Hh Hl]; [|done]. specialize (Hbound _ Hh). lia. }
      destruct E1 as [f0 Hf0]. specialize (Hf0 f0 (le_n _)). rewrite He in Hf0. simpl in Hf0.
      by injection Hf0 as ->. }
    exists m1. split; [|split; [done|split; [done|]]].
    + destruct Ef as [f0 Hf0]. exists f0. intros f Hf. cbn [find_depths]. rewrite Hf0 by done.
      rewrite (proj2 (Nat.eqb_eq _ _) Hlen). done.
    + intros h. rewrite T1'. split; intros [Hh Hl]; (split; [done|]).
      * specialize (Hbound _ Hh). unfold within. lia.
      * specialize (Hbound _ Hh). lia.
  - destruct (decide (length (hypotheses m) = length (hypotheses m1))) as [Hlen|Hlen].
    + exists m1. split; [|split; [done|split; [done|]]].
      * destruct Ef as [f0 Hf0]. exists f0. intros f Hf. cbn [find_depths]. rewrite Hf0 by done.
        by rewrite (proj2 (Nat.eqb_eq _ _) Hlen).
      * intros h. rewrite T1'. split; intros [Hh Hl]; (split; [done|]).
        -- specialize (Hstop Hlen _ Hh). unfold within. lia.
        -- specialize (Hstop Hlen _ Hh). lia.
    + destruct (decide (0 < max_hypo_len /\ max_hypo_len <= Z.of_nat depth)%Z) as [Hm|Hm].
      * exists m1. split; [|split; [done|split; [done|]]].
        -- destruct Ef as [f0 Hf0]. exists f0. intros f Hf. cbn [find_depths]. rewrite Hf0 by done.
           rewrite (proj2 (Nat.eqb_neq _ _) Hlen).
           rewrite (proj2 (Z.ltb_lt _ _)), (proj2 (Z.leb_le _ _)) by lia. done.
        -- intros h. rewrite T1'. unfold within. split; intros [Hh Hl]; (split; [done|]); lia.
      * destruct (IH (S depth) m1) as (m2 & E2 & I2 & S2 & T2).
        { done. }
        { rewrite (step_combinations _ _ S1). done. }
        { lia. }
        { destruct (decide (depth < bound)); [lia|]. exfalso. apply Hlen.
          assert (enum_all depth combos = []) as He.
          { destruct (enum_all depth combos) as [|h hs] eqn:E; [done|].
            assert (h ∈ enum_all depth combos) as Hh by (rewrite E; by left).
            apply enum_all_elem in Hh as [Hh Hl]; [|done]. specialize (Hbound _ Hh). lia. }
          destruct E1 as [f0 Hf0]. specialize (Hf0 f0 (le_n _)). rewrite He in Hf0. simpl in Hf0.
          by injection Hf0 as ->. }
        { lia. }
        { intros h. rewrite T1'. intuition lia. }
        exists m2. split; [|split; [done|split; [by eapply step_trans|done]]].
        destruct Ef as [f1 H1], E2 as [f2 H2]. exists (f1 + f2). intros f Hf. cbn [find_depths].
        rewrite H1 by lia. rewrite (proj2 (Nat.eqb_neq _ _) Hlen). simpl.
        replace ((0 <? max_hypo_len)%Z && (max_hypo_len <=? Z.of_nat depth)%Z) with false.
        { apply H2. lia. }
        symmetry. apply andb_false_iff. rewrite Z.ltb_ge, Z.leb_gt. lia.
Qed.
