(* ===== verification/HypoWin.v ===== *)
(** * The search for the winning hypothesis

    The breadth-first search terminates for every selection strategy, fails on
    no assertion, and its winner is a tested hypothesis in its most frequent
    order. *)
From S2P Require Import Prelude StdMap Hypothesizer HypoSpec HypoFind.
From Stdlib Require Import Floats.SpecFloat.
Local Open Scope list_scope.
Local Open Scope nat_scope.

(** ** What a callback may do *)

(** The relative support the search computes for a node. *)
Definition node_order (m : Member) (h : hypo) : hypo :=
  (best_order (matches (default empty_matches (sm_find h (hypotheses m))))).1.
Definition node_support (m : Member) (h : hypo) : double :=
  ddiv (to_double (default 0%Z (sm_find (node_order m h)
          (matches (default empty_matches (sm_find h (hypotheses m)))))))
       (to_double (occurrences m)).

(** The part of a member the search leaves alone. *)
Definition fixed_part (m : Member) :=
  (hypotheses m, occurrences m, occurrences_with_locks m, combinations m, (datatype m, name m, accesstype m)).

Record callback_ok (cur : hypo * hypo) (s s' : search) : Prop := mkCallbackOk {
  cb_fixed : fixed_part (sr_member s') = fixed_part (sr_member s);
  cb_children : forall x, children (sr_member s') x = children (sr_member s) x;
  cb_nodes : sr_nodes s' = sr_nodes s \/ sr_nodes s' = sr_nodes s ++ children (sr_member s) cur.1;
  cb_conflict : conflict_list (sr_member s') <> [] /\
    forall e, e ∈ conflict_list (sr_member s') ->
      e ∈ conflict_list (sr_member s) \/ e = cur \/ e = (root_node, root_node)
}.

Definition good_callback (eval : eval_cb) : Prop :=
  forall cs co rel s, conflict_list (sr_member s) <> [] ->
  exists s', eval cs co rel s = inr s' /\ callback_ok (cs, co) s s'.

Lemma callback_refl cur s : conflict_list (sr_member s) <> [] -> callback_ok cur s s.
Proof. intros Hne. split; [done|done|by left|]. split; [done|by left]. Qed.

Lemma callback_push cs co s s1 :
  callback_ok (cs, co) s s1 -> sr_nodes s1 = sr_nodes s ->
  callback_ok (cs, co) s (push_children cs s1).
Proof.
  intros [A1 A2 A3 A4] Hn. split; simpl.
  - done.
  - intros x. by rewrite children_touch.
  - right. by rewrite Hn, A2.
  - done.
Qed.

Lemma callback_save cs co s :
  conflict_list (sr_member s) <> [] -> callback_ok (cs, co) s (push_children cs (save_equal cs co s)).
Proof.
  intros Hne. unfold save_equal. destruct (in_conflict_list _ _).
  - apply callback_push; [by apply callback_refl|done].
  - apply callback_push; [|done]. split; simpl; [done|done|by left|]. split.
    + by destruct (conflict_list (sr_member s)).
    + intros e [He| ->%list_elem_of_singleton]%elem_of_app; auto.
Qed.

Lemma callback_reset cs co rel s : callback_ok (cs, co) s (push_children cs (reset_winner cs co rel s)).
Proof.
  apply callback_push; [|done]. split; simpl; [done|done|by left|]. split; [done|].
  intros e ->%list_elem_of_singleton. auto.
Qed.

Lemma front_size_ok m : conflict_list m <> [] -> exists n, front_size m = inr n.
Proof. unfold front_size. destruct (conflict_list m) as [|[h o] l]; [done|eauto]. Qed.

Create HintDb callbacks.
#[export] Hint Resolve callback_refl callback_save callback_reset callback_push : callbacks.

Ltac callback_cases := repeat match goal with
  | |- exists s', (if ?b then _ else _) = inr s' /\ _ => destruct b
  end; eexists; (split; [reflexivity|]); auto with callbacks.

Lemma bottomup_good t : good_callback (evaluate_hypothesis_bottomup t).
Proof.
  intros cs co rel s Hne. unfold evaluate_hypothesis_bottomup.
  destruct (front_size_ok _ Hne) as [n ->]. cbv zeta. callback_cases.
Qed.

Lemma sharpen_good r : good_callback (evaluate_hypothesis_sharpen r).
Proof.
  intros cs co rel s Hne. unfold evaluate_hypothesis_sharpen.
  destruct (front_size_ok _ Hne) as [n ->]. cbv zeta. callback_cases.
Qed.

Lemma lockset_good : good_callback evaluate_hypothesis_lockset.
Proof.
  intros cs co rel s Hne. unfold evaluate_hypothesis_lockset.
  destruct (front_size_ok _ Hne) as [n ->]. callback_cases.
Qed.

Lemma topdown_good a n : good_callback (evaluate_hypothesis_topdown a n).
Proof.
  intros cs co rel s Hne. unfold evaluate_hypothesis_topdown.
  destruct (front_size_ok _ Hne) as [k ->]. cbv zeta. callback_cases.
  split; simpl; [done|done|by left|].
  destruct (conflict_list (sr_member s)) as [|e l] eqn:E; [done|].
  split; [done|]. intros e' He'. by left.
Qed.

(** ** The search *)

Section search.
Context (eval : eval_cb) (m0 : Member) (bound : nat).
Hypothesis Heval : good_callback eval.
Hypothesis Hinv : hyp_inv m0.
Hypothesis Hbound : forall h, tested m0 h -> length h < bound.

(** Entries of the conflict list: the default, or a tested hypothesis in its
    most frequent order. *)
Definition winner_ok (e : hypo * hypo) : Prop :=
  e = (root_node, root_node) \/ tested m0 e.1 /\ e.2 = node_order m0 e.1.

Record search_ok (s : search) : Prop := mkSearchOk {
  so_fixed : fixed_part (sr_member s) = fixed_part m0;
  so_children : forall x, children (sr_member s) x = children m0 x;
  so_nodes : Forall (tested m0) (sr_nodes s);
  so_ne : conflict_list (sr_member s) <> [];
  so_conflict : Forall winner_ok (conflict_list (sr_member s))
}.

Definition search_cost (x : hypo) : nat := cost (bound - length x) m0 x.

Lemma search_cost_children x : tested m0 x ->
  sum_list_with search_cost (children m0 x) < search_cost x.
Proof.
  intros Hx. unfold search_cost at 2. pose proof (Hbound _ Hx) as Hb.
  destruct (bound - length x) as [|n] eqn:En; [lia|]. cbn [cost].
  assert (sum_list_with search_cost (children m0 x) = sum_list_with (cost n m0) (children m0 x)) as ->; [|lia].
  pose proof (hi_graded _ Hinv x) as Hc. revert Hc. generalize (children m0 x). intros cs.
  induction cs as [|c cs IH]; intros Hc; [done|]. simpl. rewrite IH by (intros c' Hc'; apply Hc; by right).
  unfold search_cost. rewrite (Hc c) by left. do 2 f_equal. lia.
Qed.

Lemma examine_ok x s : search_ok s -> tested m0 x ->
  exists s', examine eval x s = inr s' /\ search_ok s'
    /\ (sr_nodes s' = sr_nodes s \/ sr_nodes s' = sr_nodes s ++ children m0 x).
Proof.
  intros [S1 S2 S3 S4 S5] Hx. unfold examine. cbv zeta.
  assert (hypotheses (sr_member s) = hypotheses m0) as Hh by (by injection S1).
  set (m' := set_hypotheses _ _).
  assert (m' = sr_member s) as Hm'.
  { unfold m', sm_emplace. destruct Hx as [ms Hx]. rewrite Hh, Hx. simpl. rewrite <- Hh.
    by destruct (sr_member s). }
  clearbody m'. subst m'. set (co := (best_order _).1). set (rel := ddiv _ _).
  destruct (Heval x co rel (mkSearch (sr_member s) (sr_nodes s) (sr_rel_support_winner s))) as (s' & E & C).
  { done. }
  exists s'. split; [exact E|]. destruct C as [C1 C2 C3 [C4 C5]]. simpl in *.
  split; [split|].
  - congruence.
  - intros y. by rewrite C2.
  - destruct C3 as [-> | ->]; [done|]. apply Forall_app. split; [done|].
    apply Forall_forall. intros c Hc. rewrite S2 in Hc. by apply (hi_tested _ Hinv) in Hc.
  - done.
  - apply Forall_forall. intros e He. rewrite Forall_forall in S5.
    destruct (C5 _ He) as [|[-> | ->]]; [auto| |by left].
    right. split; [done|]. unfold co, node_order. simpl. by rewrite Hh.
  - by rewrite S2 in C3.
Qed.

Lemma search_loop_ok f : forall s,
  search_ok s -> sum_list_with search_cost (sr_nodes s) <= f ->
  exists s', search_loop f eval s = inr s' /\ search_ok s'.
Proof.
  induction f as [|f IH]; intros s Hs Hf; cbn [search_loop];
    destruct (sr_nodes s) as [|x nodes] eqn:En; [by exists s| |by exists s|].
  { pose proof (so_nodes _ Hs) as Hn. rewrite En in Hn. apply Forall_cons in Hn as [Hx _].
    pose proof (search_cost_children x Hx). simpl in Hf. lia. }
  destruct Hs as [S1 S2 S3 S4 S5]. rewrite En in S3. apply Forall_cons in S3 as [Hx S3].
  destruct (examine_ok x (mkSearch (sr_member s) nodes (sr_rel_support_winner s))) as (s1 & E & Hs1 & Hn).
  { by split. }
  { done. }
  rewrite E. apply IH; [done|]. pose proof (search_cost_children x Hx). simpl in Hf, Hn.
  destruct Hn as [-> | ->]; [lia|]. rewrite sum_list_with_app. lia.
Qed.

Lemma search_loop_mono f k : forall s s',
  search_loop f eval s = inr s' -> search_loop (f + k) eval s = inr s'.
Proof.
  induction f as [|f IH]; intros s s'; cbn [search_loop plus]; destruct (sr_nodes s) as [|x nodes] eqn:En.
  - destruct k; cbn [search_loop]; by rewrite En.
  - done.
  - done.
  - destruct (examine eval x _); [done|apply IH].
Qed.

Lemma determine_ok init_cb :
  tested m0 root_node ->
  (init_cb = None \/ init_cb = Some evaluate_hypothesis_init_topdown) ->
  exists m', eventually (fun f => determine_winning_hypothesis f eval init_cb m0) m'
    /\ fixed_part m' = fixed_part m0
    /\ Forall winner_ok (conflict_list m')
    /\ (winner_found m' = true ->
        exists h, winner_ok (h, winning_hypothesis m') /\ (h, winning_hypothesis m') ∈ conflict_list m').
Proof.
  intros Hroot Hinit. unfold determine_winning_hypothesis.
  set (s0 := mkSearch _ _ _). set (s1 := match init_cb with Some f => f s0 | None => s0 end).
  assert (search_ok s0) as H0.
  { split; simpl; [done| | |done|].
    - intros x. by rewrite children_touch.
    - apply Forall_forall. intros c Hc. by apply (hi_tested _ Hinv) in Hc.
    - constructor; [by left|constructor]. }
  assert (search_ok s1) as H1.
  { unfold s1. destruct Hinit as [-> | ->]; [done|]. destruct H0 as [S1 S2 S3 S4 S5].
    split; simpl; try done. by constructor. }
  destruct (search_loop_ok (sum_list_with search_cost (sr_nodes s1)) s1 H1 (le_n _)) as (s2 & E & H2).
  assert (eventually (fun f => match search_loop f eval s1 with inl e => inl e | inr s' =>
      let m' := sr_member s' in if winner_found m' then
        match conflict_list m' with
        | winner :: _ => inr (set_winning winner.2 m')
        | [] => inl (undefined "front() of an empty deque")
        end else inr m' end)
    (if winner_found (sr_member s2) then
       match conflict_list (sr_member s2) with w :: _ => set_winning w.2 (sr_member s2) | [] => m0 end
     else sr_member s2)) as Hev.
  { exists (sum_list_with search_cost (sr_nodes s1)). intros f Hf.
    replace f with (sum_list_with search_cost (sr_nodes s1) +
      (f - sum_list_with search_cost (sr_nodes s1))) by lia.
    rewrite (search_loop_mono _ _ _ _ E). cbv zeta. destruct H2 as [_ _ _ S4 _].
    destruct (winner_found (sr_member s2)); [|done]. by destruct (conflict_list (sr_member s2)). }
  eexists. split; [exact Hev|]. destruct H2 as [S1 S2 S3 S4 S5].
  destruct (winner_found (sr_member s2)) eqn:Ew; [|by rewrite Ew].
  destruct (conflict_list (sr_member s2)) as [|[h o] l] eqn:Ec; [done|]. simpl. rewrite Ec.
  split; [exact S1|]. split; [done|]. intros _. exists h.
  apply Forall_cons in S5 as [Hw _]. split; [exact Hw|by left].
Qed.
End search.

(** ** The acceptance threshold of the bottom-up search *)

Lemma Pcompare_cont_eq x y : Pos.compare_cont Eq x y = Eq -> x = y.
Proof. apply Pos.compare_eq. Qed.

(** Equal doubles compare alike. *)
Lemma SFeqb_leb t x y : SFeqb x y = true -> SFleb t x = SFleb t y.
Proof.
  unfold SFeqb, SFleb.
  destruct x as [sx|sx| |sx mx ex], y as [sy|sy| |sy my ey]; simpl; try done;
    try (destruct sx, sy; done); try (by destruct sx); try (by destruct sy).
  destruct sx, sy; try done; destruct (Z.compare_spec ex ey) as [->|H|H]; try done;
    destruct (Pos.compare_cont Eq mx my) eqn:E; try done;
    by apply Pcompare_cont_eq in E as ->.
Qed.

Lemma SFeqb_finite x s m e :
  SFeqb x (S754_finite s m e) = true -> x = S754_finite s m e.
Proof.
  unfold SFeqb. destruct x as [sx|sx| |sx mx ex]; simpl; try done; try (by destruct s);
    try (by destruct sx).
  destruct sx, s; try done; destruct (Z.compare_spec ex e) as [->|H|H]; try done;
    destruct (Pos.compare_cont Eq mx m) eqn:E; try done;
    by apply Pcompare_cont_eq in E as ->.
Qed.

Lemma SFeqb_one x : SFeqb x (to_double 1) = true -> x = to_double 1.
Proof.
  assert (to_double 1 = S754_finite false 4503599627370496 (-52)) as -> by (vm_compute; reflexivity).
  apply SFeqb_finite.
Qed.

(** A state property that every examined node preserves holds at the end. *)
Lemma search_loop_pres eval m0 (J : search -> Prop) :
  good_callback eval -> hyp_inv m0 ->
  (forall s nodes, J s -> J (mkSearch (sr_member s) nodes (sr_rel_support_winner s))) ->
  (forall x s s', J s -> search_ok m0 s -> tested m0 x -> examine eval x s = inr s' -> J s') ->
  forall f s s', search_loop f eval s = inr s' -> search_ok m0 s -> J s -> J s'.
Proof.
  intros Hg Hi Hpop HJ. induction f as [|f IH]; intros s s' E Hs Js; cbn [search_loop] in E;
    destruct (sr_nodes s) as [|x nodes] eqn:En; try done; try (by injection E as <-).
  destruct Hs as [S1 S2 S3 S4 S5]. rewrite En in S3. apply Forall_cons in S3 as [Hx S3].
  assert (search_ok m0 (mkSearch (sr_member s) nodes (sr_rel_support_winner s))) as Hs1 by (by split).
  destruct (examine_ok eval m0 Hg Hi x _ Hs1 Hx) as (s1 & E1 & Hs1' & _).
  rewrite E1 in E. eapply IH; [exact E|done|]. eapply HJ; [|exact Hs1|exact Hx|exact E1]. by apply Hpop.
Qed.

Section threshold.
Context (t : double) (m0 : Member).
Hypothesis Hinv : hyp_inv m0.

(** No lock at all, or a relative support of 1 or at least the threshold. *)
Definition accepted (e : hypo * hypo) : Prop :=
  e = (root_node, root_node) \/ node_support m0 e.1 = to_double 1
  \/ SFleb t (node_support m0 e.1) = true.

Definition accepting (s : search) : Prop :=
  (sr_rel_support_winner s = to_double 1 \/ SFleb t (sr_rel_support_winner s) = true)
  /\ Forall accepted (conflict_list (sr_member s)).

Lemma accepting_examine x s s' :
  accepting s -> search_ok m0 s -> tested m0 x ->
  examine (evaluate_hypothesis_bottomup t) x s = inr s' -> accepting s'.
Proof.
  intros [HR HF] [S1 _ _ _ _] Hx E. unfold examine in E. cbv zeta in E.
  assert (hypotheses (sr_member s) = hypotheses m0 /\ occurrences (sr_member s) = occurrences m0)
    as [Hh Ho] by (by injection S1).
  set (co := (best_order _).1) in E. set (rel := ddiv _ _) in E.
  assert (rel = node_support m0 x) as Hrel.
  { unfold rel, co, node_support, node_order. by rewrite Hh, Ho. }
  clearbody rel co. set (m' := set_hypotheses _ _) in E.
  assert (conflict_list m' = conflict_list (sr_member s)) as Hc by done. clearbody m'.
  assert (SFeqb rel (sr_rel_support_winner s) = true ->
    rel = to_double 1 \/ SFleb t rel = true) as Heq.
  { intros He. destruct HR as [HR|HR]; [left; rewrite HR in He; by apply SFeqb_one|right].
    by rewrite (SFeqb_leb t _ _ He). }
  unfold evaluate_hypothesis_bottomup in E. simpl in E.
  destruct (front_size m') as [e|n]; [done|].
  destruct ((n =? length x) && SFeqb rel (sr_rel_support_winner s)) eqn:E1.
  - injection E as <-. apply andb_true_iff in E1 as [_ E1]. specialize (Heq E1).
    unfold save_equal. simpl. destruct (in_conflict_list _ _); simpl; split; simpl; rewrite ?Hc; try done.
    apply Forall_app. split; [done|]. constructor; [|constructor]. right. simpl. by rewrite <- Hrel.
  - destruct ((SFleb t rel && SFltb rel (sr_rel_support_winner s))
      || ((n <? length x) && SFeqb rel (sr_rel_support_winner s))) eqn:E2.
    + injection E as <-.
      assert (rel = to_double 1 \/ SFleb t rel = true) as Hacc.
      { apply orb_true_iff in E2 as [E2|E2]; apply andb_true_iff in E2 as [E2 E3]; auto. }
      split; simpl; [done|]. constructor; [|constructor]. right. simpl. by rewrite <- Hrel.
    + injection E as <-. split; simpl; rewrite ?Hc; done.
Qed.

Lemma bottomup_accepts f m' :
  tested m0 root_node ->
  determine_winning_hypothesis f (evaluate_hypothesis_bottomup t) None m0 = inr m' ->
  Forall accepted (conflict_list m').
Proof.
  intros Hroot E. unfold determine_winning_hypothesis in E.
  set (s0 := mkSearch _ _ _) in E.
  assert (search_ok m0 s0) as H0.
  { split; simpl; [done| | |done|].
    - intros x. by rewrite children_touch.
    - apply Forall_forall. intros c Hc. by apply (hi_tested _ Hinv) in Hc.
    - constructor; [by left|constructor]. }
  destruct (search_loop f (evaluate_hypothesis_bottomup t) s0) as [|s'] eqn:El; [done|].
  assert (accepting s') as [_ Hf].
  { eapply (search_loop_pres _ m0 accepting (bottomup_good t) Hinv); [| |exact El|done|].
    - intros s nodes Hs. exact Hs.
    - intros x s s1. apply accepting_examine.
    - split; simpl; [by left|]. constructor; [by left|constructor]. }
  destruct (winner_found (sr_member s')); [|by injection E as <-].
  destruct (conflict_list (sr_member s')) as [|w l] eqn:Ec; [done|]. injection E as <-.
  simpl. by rewrite Ec.
Qed.
End threshold.
