(* ===== verification/HypoProps.v ===== *)
(** * Properties of the hypothesizer

    The claims about hypotheses and their selection, with concrete instances. *)
From S2P Require Import Prelude StdMap Hypothesizer HypoSpec HypoFind HypoWin.
From Stdlib Require Import Ascii Floats.SpecFloat.
From Stdlib Require List.
Local Open Scope string_scope.
Local Open Scope list_scope.
Local Open Scope Z_scope.

(** A member accessed under two combinations of locks and without locks. *)
Definition sample_combos : list LockCombination :=
  [new_LockCombination 10 [2; 1]; new_LockCombination 5 [1; 2; 3]; new_LockCombination 1 []].
Definition sample_member : Member :=
  mkMember "inode" "i_flags" 16 15 sample_combos [] [] [] [] false true "r".

Lemma fresh_inv m : hypotheses m = [] -> graph m = [] -> hyp_inv m.
Proof.
  intros Hh Hg. split; unfold graded, tested, children; rewrite ?Hh, ?Hg; simpl.
  - intros x c Hc. by apply elem_of_nil in Hc.
  - intros x c Hc. by apply elem_of_nil in Hc.
  - by intros h [? ?].
  - done.
Qed.

(** A length no lock set of the combinations reaches. *)
Definition length_bound (combos : list LockCombination) : nat :=
  S (sum_list_with (fun lc => length (locks_held lc)) combos).

Lemma candidate_length combos h : candidate combos h -> (length h < length_bound combos)%nat.
Proof.
  intros [Ho (lc & Hlc & Hsub)]. unfold length_bound.
  pose proof (sum_list_with_in lc (fun lc => length (locks_held lc)) combos Hlc).
  pose proof (submseteq_length _ _ (NoDup_submseteq _ _ (strict_NoDup _ Ho) Hsub)). simpl in *. lia.
Qed.

(** [h] can be reached from [x] along the edges of the graph. *)
Definition reaches (m : Member) : hypo -> hypo -> Prop := rtc (fun x c => c ∈ children m x).

Lemma tested_reached m : hyp_inv m -> forall h, tested m h -> reaches m root_node h.
Proof.
  intros I h. remember (length h) as n eqn:En. revert h En.
  induction n as [|n IH]; intros h En Ht.
  - destruct h; [constructor|done].
  - destruct (hi_prefix _ I h Ht) as [H1 H2]; [by destruct h|].
    eapply rtc_r; [|exact H2]. apply IH; [|done].
    rewrite removelast_take, length_take. lia.
Qed.

Lemma find_depths_mono f max n k : forall depth m m',
  find_depths f n depth max m = inr m' -> find_depths f (n + k) depth max m = inr m'.
Proof.
  induction n as [|n IH]; intros depth m m'; [done|]. cbn [find_depths Nat.add].
  destruct (find_combinations f depth (combinations m) m); [done|]. destruct (_ || _); [done|apply IH].
Qed.

(** The run of [find_hypotheses] on a member nothing has been derived for. *)
Lemma find_hypotheses_run m max_hypo_len :
  hypotheses m = [] -> graph m = [] -> combos_sorted (combinations m) -> 0 <= max_hypo_len ->
  exists m' f0,
    (forall f n, (f0 <= f)%nat -> (S (length_bound (combinations m)) <= n)%nat ->
       find_hypotheses f n m max_hypo_len = inr m')
    /\ hyp_inv m' /\ step m m'
    /\ (forall h, tested m' h <-> candidate (combinations m) h /\ within max_hypo_len h).
Proof.
  intros Hh Hg Hs Hmax.
  destruct (find_depths_spec (combinations m) max_hypo_len (length_bound (combinations m)) Hs Hmax
    (candidate_length _) (length_bound (combinations m)) 0%nat m (fresh_inv _ Hh Hg) eq_refl)
    as (m' & [f0 E] & I & St & T); try lia.
  { intros h. unfold tested. rewrite Hh. simpl. split; [by intros [? ?]|]. intros [_ ?]. lia. }
  exists m', f0. split; [|done]. intros f n Hf Hn. specialize (E f Hf).
  replace n with (S (length_bound (combinations m)) + (n - S (length_bound (combinations m))))%nat by lia.
  by apply find_depths_mono.
Qed.

(** (C15) [find_hypotheses] terminates and its assertions hold, whatever the
    combinations are; it tests exactly the sets of locks held together in some
    combination, up to the length limit if there is one, records for each the
    matches over all combinations, and connects each to the root. *)
Theorem find_hypotheses_correct m max_hypo_len :
  hypotheses m = [] -> graph m = [] -> combos_sorted (combinations m) -> 0 <= max_hypo_len ->
  exists m' f0,
    (forall f, (f0 <= f)%nat ->
       find_hypotheses f (S (length_bound (combinations m))) m max_hypo_len = inr m')
    /\ (forall h, tested m' h <-> candidate (combinations m) h /\ within max_hypo_len h)
    /\ (forall h ms, sm_find h (hypotheses m') = Some ms -> ms = matches_of (combinations m) h)
    /\ (forall h, tested m' h -> reaches m' root_node h)
    /\ occurrences m' = occurrences m.
Proof.
  intros Hh Hg Hs Hmax.
  destruct (find_hypotheses_run m max_hypo_len Hh Hg Hs Hmax) as (m' & f0 & E & I & St & T).
  exists m', f0. split; [by intros f Hf; apply E|]. split; [exact T|]. split.
  { intros h ms. rewrite <- (step_combinations _ _ St). apply (hi_val _ I). }
  split; [by apply tested_reached|]. rewrite (st_same _ _ St). by destruct m.
Qed.

Lemma find_hypotheses_correct_witness :
  exists m' f0, (forall f, (f0 <= f)%nat -> find_hypotheses f 7 sample_member 0 = inr m')
    /\ (forall h, tested m' h <-> candidate sample_combos h /\ within 0 h).
Proof.
  destruct (find_hypotheses_correct sample_member 0 eq_refl eq_refl) as (m' & f0 & E & T & _).
  - repeat constructor.
  - lia.
  - exists m', f0. split; [exact E|exact T].
Defined.

(** (C16) The matches of a hypothesis by lock order.  Their total is the number of
    observations of all combinations that hold the locks of the hypothesis.  There
    is one match for every order in which one of these combinations took the locks
    for the first time, and it counts the observations of exactly the combinations
    that took them in this order; the orders are different from each other, and each
    of them consists of the locks of the hypothesis. *)
Theorem matches_correct combos h :
  hypothesis_ok h -> support combos h < 2 ^ 64 ->
  Forall (fun lc => 0 <= lc_occurrences lc /\ locks_held_sorted lc = sort_ids (locks_held lc)) combos ->
  let ms := matches_of combos h in
  hm_occurrences ms = support combos h
  /\ sumZ (matches ms).*2 = support combos h
  /\ (forall o, default 0 (sm_find o (matches ms)) = taken_in_order combos h o)
  /\ (forall o, is_Some (sm_find o (matches ms)) <->
        exists lc, lc ∈ combos /\ h ⊆ locks_held lc /\ first_taken (locks_held lc) h = o)
  /\ NoDup (matches ms).*1
  /\ Forall (fun e : hypo * Z => 0 <= e.2 /\ e.1 ≡ₚ h) (matches ms).
Proof.
  intros Hh Hlt Hall ms.
  destruct (match_steps_spec h combos Hh empty_matches Hall (Z.le_refl 0) Hlt I eq_refl
    (List.Forall_nil _)) as (H1 & H2 & H3 & H4).
  assert (Hsort : Forall (fun lc => locks_held_sorted lc = sort_ids (locks_held lc)) combos)
    by (eapply Forall_impl; [exact Hall|]; by intros lc [_ ?]).
  rewrite Z.add_0_l in H1. split; [exact H1|]. split; [exact (eq_trans H2 H1)|]. split; [|split; [|split; [|exact H4]]].
  - intros o. destruct (match_steps_orders h combos o Hh empty_matches Hsort) as [Ho _].
    pose proof (taken_in_order_bounds combos h o Hh Hall) as Hb.
    destruct (sm_find_bounds (fun e => e.1 ≡ₚ h) o _ H4) as [Hf1 Hf2]. rewrite H2, H1 in Hf2. fold (matches_of combos h) in Ho, Hf1, Hf2.
    fold ms in Ho, Hf1, Hf2. rewrite !u64_small in Ho; [exact Ho|..]; cbn [empty_matches matches sm_find default from_option id]; lia.
  - intros o. destruct (match_steps_orders h combos o Hh empty_matches Hsort) as [_ Hs].
    fold (matches_of combos h) in Hs. fold ms in Hs. rewrite Hs, Exists_exists. unfold taken_as. split.
    + intros [[x Hx]|(lc & Hin & Ht)]; [done|]. apply andb_true_iff in Ht as [Hs1 Hs2].
      exists lc. by rewrite bool_decide_eq_true in Hs1, Hs2.
    + intros (lc & Hin & Hs1 & Hs2). right. exists lc. by rewrite !bool_decide_eq_true_2.
  - by apply sm_keys_NoDup.
Qed.

Lemma matches_correct_witness :
  matches (matches_of sample_combos [1; 2]) = [([1; 2], 5); ([2; 1], 10)]
  /\ default 0 (sm_find [2; 1] (matches (matches_of sample_combos [1; 2]))) = 10.
Proof.
  split; [vm_compute; reflexivity|].
  assert (hypothesis_ok [1; 2]) as Hh by (repeat constructor).
  assert (support sample_combos [1; 2] < 2 ^ 64) as Hs by (vm_compute; reflexivity).
  assert (Forall (fun lc => 0 <= lc_occurrences lc
    /\ locks_held_sorted lc = sort_ids (locks_held lc)) sample_combos) as Hall.
  { repeat constructor; simpl; lia. }
  destruct (matches_correct sample_combos [1; 2] Hh Hs Hall) as (_ & _ & H & _).
  rewrite H. vm_compute. reflexivity.
Defined.

(** A hypothesis matches a combination exactly when all its locks were
    held; then [lock_order] puts exactly its locks in the order in which the
    combination took them. *)
Theorem lock_order_correct n held h :
  hypothesis_ok h ->
  (contains_locks (new_LockCombination n held) h = true <-> h ⊆ held)
  /\ (h ⊆ held ->
      lock_order (new_LockCombination n held) h ≡ₚ h
      /\ lock_order (new_LockCombination n held) h `sublist_of` held).
Proof.
  intros Hh. split; [by apply contains_locks_spec|]. intros Hsub.
  by apply (lock_order_spec (new_LockCombination n held)).
Qed.

Lemma lock_order_correct_witness :
  contains_locks (new_LockCombination 1 [3; 2; 2; 1]) [1; 3] = true
  /\ lock_order (new_LockCombination 1 [3; 2; 2; 1]) [1; 3] ≡ₚ [1; 3].
Proof.
  assert (hypothesis_ok [1; 3]) as Hh by (repeat constructor).
  destruct (lock_order_correct 1 [3; 2; 2; 1] [1; 3] Hh) as [H1 H2].
  assert (contains_locks (new_LockCombination 1 [3; 2; 2; 1]) [1; 3] = true) as Hc
    by (vm_compute; reflexivity).
  split; [exact Hc|]. exact (proj1 (H2 (proj1 H1 Hc))).
Defined.

(** [diff_hypotheses] recognises contiguous parts only: it returns the
    number of additional locks when the shorter list occurs as a block in the
    longer one, and -1 otherwise, also when it is a proper subset with gaps. *)
Theorem diff_hypotheses_correct lhs rhs d :
  (length lhs <= length rhs)%nat -> diff_hypotheses lhs rhs = Some d ->
  (d = Z.of_nat (length rhs) - Z.of_nat (length lhs) <-> exists k1 k2, rhs = k1 ++ lhs ++ k2)
  /\ (d = -1 <-> ~ exists k1 k2, rhs = k1 ++ lhs ++ k2).
Proof.
  intros Hlen Hd. destruct (diff_hypotheses_spec lhs rhs Hlen) as [[Hin E]|[Hnin E]];
    rewrite E in Hd; injection Hd as <-.
  - split; split; try done; lia.
  - split; split; try done; lia.
Qed.

Lemma diff_hypotheses_correct_witness :
  diff_hypotheses [1; 3] [1; 2; 3] = Some (-1) /\ ~ exists k1 k2, [1; 2; 3] = k1 ++ [1; 3] ++ k2.
Proof.
  assert (diff_hypotheses [1; 3] [1; 2; 3] = Some (-1)) as E by reflexivity.
  split; [exact E|]. apply (diff_hypotheses_correct [1; 3] [1; 2; 3] (-1)); [simpl; lia|exact E|reflexivity].
Defined.

Lemma strategy_good s a n r : good_callback (strategy_eval s a n r).
Proof.
  destruct s; [apply topdown_good|apply bottomup_good|apply sharpen_good|apply lockset_good].
Qed.

Lemma select_winner_run s accept nolock reduction m bound :
  hyp_inv m -> tested m root_node -> (forall h, tested m h -> (length h < bound)%nat) ->
  exists m' f0, (forall f, (f0 <= f)%nat -> select_winner f s accept nolock reduction m = inr m')
    /\ fixed_part m' = fixed_part m
    /\ Forall (winner_ok m) (conflict_list m')
    /\ (winner_found m' = true ->
        winning_hypothesis m' = root_node
        \/ exists h, tested m h /\ winning_hypothesis m' = node_order m h).
Proof.
  intros I Hr Hb.
  destruct (determine_ok (strategy_eval s accept nolock reduction) m bound (strategy_good _ _ _ _) I Hb
    (strategy_init s) Hr) as (m' & [f0 E] & Hf & Hc & Hw).
  { destruct s; auto. }
  exists m', f0. do 3 (split; [done|]).
  intros Hwin. destruct (Hw Hwin) as (h & [Hh|[Ht Hh]] & _); simpl in *.
  - left. by injection Hh.
  - right. by exists h.
Qed.

(** (C19) For each strategy and any thresholds the search terminates without
    failing, leaves the hypotheses alone, and its winner, if it reports one, is
    the default "no lock" or a tested hypothesis in its most frequent order. *)
Theorem select_winner_correct s accept nolock reduction m bound :
  hyp_inv m -> tested m root_node -> (forall h, tested m h -> (length h < bound)%nat) ->
  exists m' f0, (forall f, (f0 <= f)%nat -> select_winner f s accept nolock reduction m = inr m')
    /\ hypotheses m' = hypotheses m
    /\ (winner_found m' = true ->
        winning_hypothesis m' = root_node
        \/ exists h, tested m h /\ winning_hypothesis m' = node_order m h).
Proof.
  intros I Hr Hb.
  destruct (select_winner_run s accept nolock reduction m bound I Hr Hb) as (m' & f0 & E & Hf & _ & Hw).
  exists m', f0. split; [exact E|]. split; [by injection Hf|exact Hw].
Qed.

Definition sample_tested : Member :=
  match find_hypotheses 100 7 sample_member 0 with inr m => m | inl _ => sample_member end.

#[local] Instance matches_eq_dec : EqDecision LockingHypothesisMatches.
Proof. solve_decision. Defined.

(** The invariant of a concrete member, by evaluation. *)
Definition hyp_inv_check (m : Member) : bool :=
  forallb (fun e : hypo * list hypo => forallb (fun c =>
    (length c =? S (length e.1))%nat && bool_decide (is_Some (sm_find c (hypotheses m)))) e.2) (graph m)
  && forallb (fun e : hypo * LockingHypothesisMatches =>
    (bool_decide (e.1 = [])
     || (bool_decide (is_Some (sm_find (removelast e.1) (hypotheses m)))
         && bool_decide (e.1 ∈ children m (removelast e.1))))
    && bool_decide (e.2 = matches_of (combinations m) e.1)) (hypotheses m).

Lemma hyp_inv_check_ok m : hyp_inv_check m = true -> hyp_inv m.
Proof.
  unfold hyp_inv_check. rewrite andb_true_iff, !List.forallb_forall. intros [Hg Hh].
  assert (forall x c, c ∈ children m x -> length c = S (length x) /\ tested m c) as Hc.
  { intros x c. unfold children. destruct (sm_find x (graph m)) as [cs|] eqn:E; simpl; [|by intros ?%elem_of_nil].
    intros Hin. apply sm_find_elem, list_elem_of_In in E. specialize (Hg _ E). simpl in Hg.
    rewrite List.forallb_forall in Hg. apply list_elem_of_In in Hin. specialize (Hg _ Hin).
    apply andb_true_iff in Hg as [H1 H2].
    split; [by apply Nat.eqb_eq|by apply bool_decide_eq_true in H2]. }
  assert (forall h ms, sm_find h (hypotheses m) = Some ms ->
    (h = [] \/ tested m (removelast h) /\ h ∈ children m (removelast h))
    /\ ms = matches_of (combinations m) h) as Hm.
  { intros h ms E%sm_find_elem%list_elem_of_In. specialize (Hh _ E). simpl in Hh.
    apply andb_true_iff in Hh as [H1 H2%bool_decide_eq_true]. split; [|done].
    apply orb_true_iff in H1 as [H1|H1]; [left; by apply bool_decide_eq_true in H1|right].
    apply andb_true_iff in H1 as [H1%bool_decide_eq_true H3%bool_decide_eq_true]. by split. }
  split.
  - intros x c Hin. by apply Hc.
  - intros x c Hin. by apply (Hc x).
  - intros h [ms E] Hne. destruct (Hm _ _ E) as [[|] _]; done.
  - intros h ms E. by apply Hm.
Qed.

Lemma sample_tested_inv : hyp_inv sample_tested /\ tested sample_tested root_node
  /\ forall h, tested sample_tested h -> (length h < 6)%nat.
Proof.
  split; [apply hyp_inv_check_ok; vm_compute; reflexivity|]. split.
  - unfold tested. destruct (sm_find root_node (hypotheses sample_tested)) eqn:E;
      [by eexists|vm_compute in E; discriminate].
  - assert (forallb (fun e : hypo * LockingHypothesisMatches => (length e.1 <? 6)%nat)
      (hypotheses sample_tested) = true) as H by (vm_compute; reflexivity).
    rewrite List.forallb_forall in H. intros h [ms E%sm_find_elem].
    apply list_elem_of_In in E. specialize (H _ E). by apply Nat.ltb_lt in H.
Qed.

Lemma select_winner_correct_witness :
  exists m' f0, (forall f, (f0 <= f)%nat ->
      select_winner f TOPDOWN (to_double 0) (to_double 1) (to_double 0) sample_tested = inr m')
    /\ hypotheses m' = hypotheses sample_tested.
Proof.
  destruct sample_tested_inv as (I & Hr & Hb).
  destruct (select_winner_correct TOPDOWN (to_double 0) (to_double 1) (to_double 0) sample_tested 6 I Hr Hb)
    as (m' & f0 & E & H & _).
  exists m', f0. split; [exact E|exact H].
Defined.

(** The bottom-up strategy reports no hypothesis below the acceptance
    threshold: every hypothesis of the conflict list, the winner included, is
    "no lock", has a relative support of 1, or a relative support of at least
    the threshold, as doubles. *)
Theorem bottomup_threshold t f m m' :
  hyp_inv m -> tested m root_node ->
  select_winner f BOTTOMUP t t t m = inr m' ->
  Forall (fun e => e = (root_node, root_node) \/ node_support m e.1 = to_double 1
                   \/ SFleb t (node_support m e.1) = true) (conflict_list m').
Proof. intros I Hr E. by apply (bottomup_accepts t m I f). Qed.

Lemma bottomup_threshold_witness :
  exists m', select_winner 100 BOTTOMUP (ddiv (to_double 9) (to_double 10))
      (ddiv (to_double 9) (to_double 10)) (ddiv (to_double 9) (to_double 10)) sample_tested = inr m'
    /\ Forall (fun e => e = (root_node, root_node) \/ node_support sample_tested e.1 = to_double 1
         \/ SFleb (ddiv (to_double 9) (to_double 10)) (node_support sample_tested e.1) = true)
         (conflict_list m').
Proof.
  destruct sample_tested_inv as (I & Hr & _).
  set (t := ddiv (to_double 9) (to_double 10)).
  destruct (select_winner 100 BOTTOMUP t t t sample_tested) as [e|m'] eqn:E;
    [vm_compute in E; discriminate|].
  exists m'. split; [reflexivity|]. exact (bottomup_threshold t 100 sample_tested m' I Hr E).
Defined.
