(* ===== verification/HypoInput.v ===== *)
(** * Reading the lock combinations: the input of hypothesizer.cc

    Every line of the input gives a data type, a list of members, a list of
    locks that were held, and how often.  Members and locks are numbered as they
    appear; every member collects the lock combinations it was accessed under. *)
From Stdlib Require Import Ascii String.
From S2P Require Import Prelude StdMap LockTypes CxxStd Hypothesizer.
Local Open Scope list_scope.
Local Open Scope Z_scope.

(** ** Members *)

(** [c_str()] read as a C string: up to the first NUL. *)
Fixpoint until_nul (s : string) : string :=
  match s with
  | EmptyString => EmptyString
  | String c s => if Ascii.eqb c "000"%char then EmptyString else String c (until_nul s)
  end.

(** [Member::parse_name]: the access type and the name.  [c_str() + 2] lies
    behind the terminator of a shorter string. *)
Definition parse_name (combined_name : string) : exn + (ascii * string) :=
  match combined_name with
  | String c (String _ s) => inr (c, until_nul s)
  | _ => inl (undefined "name of a member without an access type")
  end.

Definition new_Member (datatype combined_name : string) : exn + Member :=
  match parse_name combined_name with
  | inl e => inl e
  | inr (c, name) => inr (mkMember datatype name 0 0 [] [] [] [] [] false true c)
  end.

Definition combined_name (m : Member) : string :=
  String (accesstype m) (String ":"%char (name m)).

(** [Member::clear]. *)
Definition clear (m : Member) : Member :=
  mkMember (datatype m) EmptyString (occurrences m) (occurrences_with_locks m) [] [] [] [] []
    (winner_found m) (show m) (accesstype m).
Definition hide (m : Member) : Member :=
  mkMember (datatype m) (name m) (occurrences m) (occurrences_with_locks m) (combinations m)
    (hypotheses m) (graph m) (conflict_list m) (winning_hypothesis m) (winner_found m) false
    (accesstype m).
Definition add_occurrences (n : Z) (with_locks : bool) (m : Member) : Member :=
  mkMember (datatype m) (name m) (u64 (occurrences m + n))
    (if with_locks then u64 (occurrences_with_locks m + n) else occurrences_with_locks m)
    (combinations m) (hypotheses m) (graph m) (conflict_list m) (winning_hypothesis m)
    (winner_found m) (show m) (accesstype m).
Definition set_combinations (l : list LockCombination) (m : Member) : Member :=
  mkMember (datatype m) (name m) (occurrences m) (occurrences_with_locks m) l
    (hypotheses m) (graph m) (conflict_list m) (winning_hypothesis m) (winner_found m) (show m)
    (accesstype m).

(** ** The state of the loop over the lines *)

Notation combination_map := (list (hypo * LockCombination)).

Record input := mkInput {
  in_members : list Member;
  in_locks : list string;
  lock_to_id : list (string * myid_t);
  member_to_id : list (string * string * myid_t);
  members_combinations : list combination_map;
  accesscount : Z
}.

Definition input0 : input := mkInput [] [] [] [] [] 0.

(** [std::numeric_limits<myid_t>::max()] *)
Definition max_id : Z := 65535.

Definition IM (A : Type) : Type := M input exn A.

(** ** Locks *)

Definition lock_id_of (e : string) : IM myid_t :=
  s ← get_st;
  match sm_find e (lock_to_id s) with
  | Some id => mret id
  | None =>
      let locks := in_locks s ++ [e] in
      let id := Z.of_nat (length locks) - 1 in
      if max_id <? id then raise (exit_with 1) else
      put_st (mkInput (in_members s) locks (sm_set e id (lock_to_id s)) (member_to_id s)
        (members_combinations s) (accesscount s));;;
      mret id
  end.

(** The comma-separated locks; empty ones are skipped. *)
Fixpoint read_locks (l : list string) : IM (list myid_t) :=
  match l with
  | [] => mret []
  | e :: l =>
      if bool_decide (e = EmptyString) then read_locks l else
      id ← lock_id_of e;
      ids ← read_locks l;
      mret (id :: ids)
  end.

(** ** Members *)

Definition member_id_of (datatype e : string) : IM myid_t :=
  s ← get_st;
  match sm_find (datatype, e) (member_to_id s) with
  | Some id => mret id
  | None =>
      match new_Member datatype e with
      | inl e => raise e
      | inr m =>
          let members := in_members s ++ [m] in
          let id := Z.of_nat (length members) - 1 in
          if max_id <? id then raise (exit_with 1) else
          put_st (mkInput members (in_locks s) (lock_to_id s) (sm_set (datatype, e) id (member_to_id s))
            (members_combinations s ++ [[]]) (accesscount s));;;
          mret id
      end
  end.

(** [emplace], or adding to the occurrences of the combination that is there. *)
Definition add_combination (locks_held : hypo) (occurrences : Z) (m : combination_map) : combination_map :=
  match sm_find locks_held m with
  | Some lc => sm_set locks_held
      (mkLC (u64 (lc_occurrences lc + occurrences)) (Hypothesizer.locks_held lc) (locks_held_sorted lc)) m
  | None => sm_set locks_held (new_LockCombination occurrences locks_held) m
  end.

(** [members[id]] and [members_combinations[id]]. *)
Definition upd_member (id : myid_t) (occurrences : Z) (locks_held : hypo) : IM unit :=
  s ← get_st;
  let i := Z.to_nat id in
  match in_members s !! i, members_combinations s !! i with
  | Some m, Some c =>
      put_st (mkInput
        (<[i := add_occurrences occurrences (bool_decide (locks_held <> [])) m]> (in_members s))
        (in_locks s) (lock_to_id s) (member_to_id s)
        (<[i := add_combination locks_held occurrences c]> (members_combinations s)) (accesscount s))
  | _, _ => raise (undefined "members index")
  end.

Fixpoint read_members (datatype : string) (occurrences : Z) (locks_held : hypo) (l : list string) : IM unit :=
  match l with
  | [] => mret tt
  | e :: l =>
      id ← member_id_of datatype e;
      upd_member id occurrences locks_held;;;
      read_members datatype occurrences locks_held l
  end.

(** ** Lines *)

Definition TAB : ascii := "009"%char.
Definition COMMA : ascii := ","%char.
Definition NEWLINE : ascii := "010"%char.

Definition isdigit (c : ascii) : bool :=
  let n := nat_of_ascii c in ((48 <=? n) && (n <=? 57))%nat.
Definition last_char (s : string) : option ascii := last (list_ascii_of_string s).

(** The first line is skipped when it is empty or ends in something else than a
    digit. *)
Definition is_header (s : string) : bool :=
  match last_char s with Some c => negb (isdigit c) | None => true end.

Definition lift_exn {A} (r : exn + A) : IM A :=
  match r with inl e => raise e | inr a => mret a end.

Definition count_accesses (n : Z) : IM unit :=
  modify (fun s => mkInput (in_members s) (in_locks s) (lock_to_id s) (member_to_id s)
    (members_combinations s) (u64 (accesscount s + n))).

(** A line without four columns is reported and skipped. *)
Definition read_line (line : string) : IM unit :=
  match tokens TAB line with
  | [datatype; member_list; lock_list; count] =>
      occurrences ← lift_exn (stoull 10 count);
      count_accesses occurrences;;;
      locks_held ← read_locks (tokens COMMA lock_list);
      read_members datatype occurrences locks_held (tokens COMMA member_list)
  | _ => mret tt
  end.

(** The lines from number [counter] on. *)
Fixpoint read_lines (counter : Z) (lines : list string) : IM unit :=
  match lines with
  | [] => mret tt
  | line :: lines =>
      (if (counter =? 0) && is_header line then mret tt else read_line line);;;
      read_lines (u32 (counter + 1)) lines
  end.

(** ** Combinations *)

Definition map2vec {K V} (m : list (K * V)) : list V := map snd m.

(** The loop that copies the combinations.  The counter is a [myid_t]. *)
Fixpoint copy_combinations (n : nat) (combos : list combination_map) (i : myid_t) (members : list Member)
    : exn + list Member :=
  if i <? Z.of_nat (length members) then
    match n with
    | O => inl out_of_fuel
    | S n =>
        match members !! Z.to_nat i, combos !! Z.to_nat i with
        | Some m, Some c =>
            copy_combinations n combos (u16 (i + 1))
              (<[Z.to_nat i := set_combinations (combinations m ++ map2vec c) m]> members)
        | _, _ => inl (undefined "members index")
        end
    end
  else inr members.

(** As many steps as there can be members. *)
Definition copy_fuel : nat := Z.to_nat 65536.

(** The members and locks of a file, and the number of accesses. *)
Definition load_input (n : nat) (file : string) : exn + (list Member * list string * Z) :=
  match read_lines 0 (tokens NEWLINE file) input0 with
  | inl e => inl e
  | inr (_, s) =>
      match copy_combinations n (members_combinations s) 0 (in_members s) with
      | inl e => inl e
      | inr members => inr (members, in_locks s, accesscount s)
      end
  end.
