(* ===== verification/HypoInputProps.v ===== *)
(** * What has been read is consistent

    The members, locks and lock combinations after any number of lines. *)
From Stdlib Require Import Ascii String.
From S2P Require Import Prelude StdMap LockTypes CxxStd Hypothesizer HypoSpec HypoFind HypoInput.
Local Open Scope list_scope.
Local Open Scope Z_scope.

#[local] Arguments kcmp : simpl never.

(** ** Sums of occurrences *)

(** The occurrences of the combinations whose locks satisfy [p]. *)
Definition total (p : hypo -> bool) (c : combination_map) : Z :=
  foldr (fun e acc => (if p e.1 then lc_occurrences e.2 else 0) + acc) 0 c.

Lemma total_set p k lc c :
  sm_sorted c ->
  total p (sm_set k lc c) =
  total p c + if p k then lc_occurrences lc - default 0 (lc_occurrences <$> sm_find k c) else 0.
Proof.
  induction c as [|[k' lc'] c IH]; intros Hs; simpl.
  - destruct (p k); lia.
  - destruct Hs as [Hlt Hs]. destruct (kcmp k k') eqn:E; simpl.
    + apply kcmp_eq in E as ->. destruct (p k'); simpl; lia.
    + rewrite sm_sorted_lt_find; [destruct (p k); simpl; lia|].
      eapply Forall_impl; [exact Hlt|]. intros e. simpl. eauto using kcmp_trans.
    + rewrite IH by done. destruct (p k), (p k'); lia.
Qed.

(** ** One member *)

Definition has_locks (l : hypo) : bool := bool_decide (l <> []).

(** The combinations of a member: keyed by their locks, and counted by it. *)
Record member_ok (nlocks : nat) (m : Member) (c : combination_map) : Prop := {
  mo_sorted : sm_sorted c;
  mo_key k lc : (k, lc) ∈ c ->
    locks_held lc = k /\ locks_held_sorted lc = sort_ids k /\
    Forall (fun id => 0 <= id < Z.of_nat nlocks) k;
  mo_total : occurrences m = u64 (total (fun _ => true) c);
  mo_locks : occurrences_with_locks m = u64 (total has_locks c);
  mo_fresh : combinations m = [] /\ hypotheses m = [] /\ graph m = [] /\ show m = true
}.

Lemma u64_congr x y z : u64 x = u64 y -> u64 (z + x) = u64 (z + y).
Proof. unfold u64, wrap. intros Hxy. rewrite Zplus_mod, Hxy. by rewrite <- Zplus_mod. Qed.

Lemma add_combination_total p (l : hypo) n c :
  sm_sorted c -> u64 (total p (add_combination l n c)) = u64 (total p c + if p l then n else 0).
Proof.
  intros Hs. unfold add_combination. destruct (sm_find l c) as [lc|] eqn:Hf; rewrite total_set by done;
    rewrite Hf; destruct (p l); try done; simpl; apply u64_congr.
  - unfold u64, wrap. rewrite Zminus_mod_idemp_l. f_equal. lia.
  - f_equal. lia.
Qed.

Lemma member_ok_add nlocks m c (l : hypo) n :
  Forall (fun id => 0 <= id < Z.of_nat nlocks) l -> member_ok nlocks m c ->
  member_ok nlocks (add_occurrences n (has_locks l) m) (add_combination l n c).
Proof.
  intros Hl [Hs Hk Ht Hw Hf]. split; simpl.
  - unfold add_combination. destruct (sm_find l c); by apply sm_sorted_set.
  - intros k lc. unfold add_combination. destruct (sm_find l c) as [lc0|] eqn:Hf0; intros Hin;
      apply sm_set_elem in Hin as [[= -> ->]|Hin]; eauto. simpl.
    apply sm_find_elem in Hf0. destruct (Hk _ _ Hf0) as (? & ? & ?). done.
  - rewrite add_combination_total by done. by rewrite Ht, u64_add_l.
  - rewrite add_combination_total by done. rewrite Hw. destruct (has_locks l); [by rewrite u64_add_l|].
    by rewrite Z.add_0_r.
  - done.
Qed.

Lemma member_ok_more n n' m c : (n <= n')%nat -> member_ok n m c -> member_ok n' m c.
Proof.
  intros Hn [Hs Hk Ht Hw Hf]. split; try done. intros k lc Hin. destruct (Hk k lc Hin) as (? & ? & Hids).
  split; [done|]. split; [done|]. eapply Forall_impl; [exact Hids|]. simpl. lia.
Qed.

(** ** Everything read so far *)

Record input_ok (s : input) : Prop := {
  io_lock_sorted : sm_sorted (lock_to_id s);
  io_lock e i : sm_find e (lock_to_id s) = Some i <-> 0 <= i /\ in_locks s !! Z.to_nat i = Some e;
  io_member_sorted : sm_sorted (member_to_id s);
  io_member k i : sm_find k (member_to_id s) = Some i ->
    0 <= i /\ exists m, in_members s !! Z.to_nat i = Some m /\ datatype m = k.1 /\
      parse_name k.2 = inr (accesstype m, name m);
  io_member_inj k k' i : sm_find k (member_to_id s) = Some i -> sm_find k' (member_to_id s) = Some i -> k = k';
  io_sizes : Z.of_nat (length (in_locks s)) <= 65536 /\ Z.of_nat (length (in_members s)) <= 65536;
  io_members : Forall2 (member_ok (length (in_locks s))) (in_members s) (members_combinations s)
}.

(** Every member has a combination. *)
Definition all_used (s : input) : Prop := Forall (fun c => c <> []) (members_combinations s).

Lemma input_ok_0 : input_ok input0.
Proof.
  split; simpl; try done.
  - intros e i. rewrite lookup_nil. split; [done|by intros [_ ?]].
Qed.

(** What reading may change: numbers are only added. *)
Definition grown (s s' : input) : Prop :=
  (length (in_locks s) <= length (in_locks s'))%nat.

Definition ids_ok (s : input) (l : list myid_t) : Prop :=
  Forall (fun id => 0 <= id < Z.of_nat (length (in_locks s))) l.

Lemma ids_ok_grown s s' l : grown s s' -> ids_ok s l -> ids_ok s' l.
Proof. unfold grown. intros Hg Hl. eapply Forall_impl; [exact Hl|]. simpl. lia. Qed.

Lemma lock_id_of_ok e s id s' :
  lock_id_of e s = inr (id, s') -> input_ok s ->
  input_ok s' /\ grown s s' /\ 0 <= id < Z.of_nat (length (in_locks s')) /\
  (all_used s -> all_used s').
Proof.
  unfold lock_id_of. intros Hrun Hs. apply dbind_inv in Hrun as (? & ? & [= <- <-] & Hrun).
  destruct (sm_find e (lock_to_id s)) as [i|] eqn:Hf.
  - injection Hrun as <- <-. unfold grown. split; [done|]. split; [lia|]. split; [|done].
    apply (io_lock _ Hs) in Hf as [Hi Hl]. apply lookup_lt_Some in Hl. lia.
  - destruct Hs as [Hls Hl Hms Hm Hinj [Hn1 Hn2] Hmem].
    destruct (Z.ltb_spec max_id (Z.of_nat (length (in_locks s ++ [e])) - 1)) as [|Hmax]; [done|].
    apply dbind_inv in Hrun as (? & ? & [= <- <-] & [= <- <-]).
    rewrite length_app in *. simpl in *. unfold max_id in Hmax.
    replace (Z.of_nat (length (in_locks s) + 1) - 1) with (Z.of_nat (length (in_locks s))) in * by lia.
    unfold grown. cbn [in_locks]. rewrite length_app. simpl.
    split; [|split; [lia|split; [lia|done]]].
    split; simpl; rewrite ?length_app; simpl; try done.
    + by apply sm_sorted_set.
    + intros e' i. destruct (decide (e' = e)) as [->|Hne].
      * rewrite sm_find_set_eq. split.
        -- intros [= <-]. split; [lia|]. rewrite Nat2Z.id. by apply list_lookup_middle.
        -- intros [Hi Hlk]. f_equal. apply lookup_app_Some in Hlk as [Hlk|[Hge Hlk]].
           ++ exfalso. enough (sm_find e (lock_to_id s) = Some i) by congruence. by apply Hl.
           ++ apply list_lookup_singleton_Some in Hlk as [Hlk _]. lia.
      * rewrite sm_find_set_ne by done. rewrite Hl. split; intros [Hi Hlk]; (split; [done|]).
        -- by apply lookup_app_l_Some.
        -- apply lookup_app_Some in Hlk as [Hlk|[Hge Hlk]]; [done|].
           apply list_lookup_singleton_Some in Hlk as [_ Hlk]. congruence.
    + split; [lia|done].
    + eapply Forall2_impl; [exact Hmem|]. intros m c. apply member_ok_more. lia.
Qed.

Lemma grown_trans s1 s2 s3 : grown s1 s2 -> grown s2 s3 -> grown s1 s3.
Proof. unfold grown. lia. Qed.

Lemma read_locks_ok l : forall s ids s',
  read_locks l s = inr (ids, s') -> input_ok s ->
  input_ok s' /\ grown s s' /\ ids_ok s' ids /\ (all_used s -> all_used s').
Proof.
  induction l as [|e l IH]; intros s ids s' Hrun Hs; simpl in Hrun.
  - injection Hrun as <- <-. unfold grown. split; [done|]. split; [lia|]. split; [constructor|done].
  - destruct (bool_decide (e = EmptyString)); [by apply IH|].
    apply dbind_inv in Hrun as (id & s1 & H1 & Hrun). apply dbind_inv in Hrun as (ids' & s2 & H2 & [= <- <-]).
    apply lock_id_of_ok in H1 as (Hs1 & Hg1 & Hid & Hu1); [|done].
    apply IH in H2 as (Hs2 & Hg2 & Hids & Hu2); [|done].
    split; [done|]. split; [by eapply grown_trans|]. split; [|by auto].
    constructor; [|done]. unfold grown in Hg2. lia.
Qed.

Lemma member_id_of_ok d e s id s' :
  member_id_of d e s = inr (id, s') -> input_ok s ->
  input_ok s' /\ in_locks s' = in_locks s /\
  exists i m c, id = Z.of_nat i /\ in_members s' !! i = Some m /\ members_combinations s' !! i = Some c /\
    (all_used s -> forall j c', j <> i -> members_combinations s' !! j = Some c' -> c' <> []).
Proof.
  unfold member_id_of. intros Hrun Hs. apply dbind_inv in Hrun as (? & ? & [= <- <-] & Hrun).
  pose proof (Forall2_length _ _ _ (io_members _ Hs)) as Hlen.
  destruct (sm_find (d, e) (member_to_id s)) as [i|] eqn:Hf.
  - injection Hrun as <- <-. split; [done|]. split; [done|].
    apply (io_member _ Hs) in Hf as (Hi & m & Hm & _).
    destruct (members_combinations s !! Z.to_nat i) as [c|] eqn:Hc.
    2:{ apply lookup_ge_None in Hc. apply lookup_lt_Some in Hm. lia. }
    exists (Z.to_nat i), m, c. split; [lia|]. split; [done|]. split; [done|].
    intros Hu j c' _ Hj. by eapply Forall_lookup_1 in Hu.
  - destruct (new_Member d e) as [|m] eqn:Hnew; [done|].
    destruct Hs as [Hls Hl Hms Hm Hinj [Hn1 Hn2] Hmem].
    destruct (Z.ltb_spec max_id (Z.of_nat (length (in_members s ++ [m])) - 1)) as [|Hmax]; [done|].
    apply dbind_inv in Hrun as (? & ? & [= <- <-] & [= <- <-]).
    rewrite length_app in *. simpl in *. unfold max_id in Hmax.
    replace (Z.of_nat (length (in_members s) + 1) - 1) with (Z.of_nat (length (in_members s))) in * by lia.
    unfold new_Member in Hnew. destruct (parse_name e) as [|[ch nm]] eqn:Hp; [done|]. injection Hnew as <-.
    split; [|split; [done|]].
    + split; simpl; rewrite ?length_app; simpl; try done.
      * by apply sm_sorted_set.
      * intros k i. destruct (decide (k = (d, e))) as [->|Hne].
        -- rewrite sm_find_set_eq. intros [= <-]. split; [lia|]. rewrite Nat2Z.id.
           eexists. split; [by apply list_lookup_middle|]. simpl. by rewrite Hp.
        -- rewrite sm_find_set_ne by done. intros Hk. destruct (Hm k i Hk) as (Hi & m & Hmi & Hrest).
           split; [done|]. exists m. split; [by apply lookup_app_l_Some|done].
      * intros k k' i. destruct (decide (k = (d, e))) as [->|Hne], (decide (k' = (d, e))) as [->|Hne'];
          rewrite ?sm_find_set_eq, ?sm_find_set_ne by done; try done.
        -- intros [= <-] Hk'. destruct (Hm _ _ Hk') as (_ & m & Hmi & _). apply lookup_lt_Some in Hmi. lia.
        -- intros Hk [= <-]. destruct (Hm _ _ Hk) as (_ & m & Hmi & _). apply lookup_lt_Some in Hmi. lia.
        -- apply Hinj.
      * split; [done|lia].
      * apply Forall2_app; [done|]. constructor; [|constructor]. split; try done.
        intros k lc Hin. by apply elem_of_nil in Hin.
    + simpl. eexists (length (in_members s)), _, []. split; [done|].
      split; [by apply list_lookup_middle|]. split; [by apply list_lookup_middle|].
      intros Hu j c' Hj Hc'. apply lookup_app_Some in Hc' as [Hc'|[Hge Hc']].
      * by eapply Forall_lookup_1 in Hu.
      * apply list_lookup_singleton_Some in Hc' as [Hz _]. lia.
Qed.

Lemma upd_member_ok i n l s u s' m c :
  upd_member (Z.of_nat i) n l s = inr (u, s') -> input_ok s -> ids_ok s l ->
  in_members s !! i = Some m -> members_combinations s !! i = Some c ->
  input_ok s' /\ in_locks s' = in_locks s /\
  ((forall j c', j <> i -> members_combinations s !! j = Some c' -> c' <> []) -> all_used s').
Proof.
  unfold upd_member. intros Hrun Hs Hl Hm Hc. apply dbind_inv in Hrun as (? & ? & [= <- <-] & Hrun).
  rewrite Nat2Z.id, Hm, Hc in Hrun. injection Hrun as <- <-. split; [|split; [done|]].
  - destruct Hs as [Hls Hlk Hms Hmm Hinj Hn Hmem]. split; simpl; rewrite ?length_insert; try done.
    + intros k j Hk. destruct (Hmm k j Hk) as (Hj & m' & Hm' & Hd & Hp). split; [done|].
      destruct (decide (Z.to_nat j = i)) as [Hji|Hji].
      * rewrite Hji in *. rewrite Hm in Hm'. injection Hm' as <-.
        eexists. split; [apply list_lookup_insert_eq; by eapply lookup_lt_Some|]. done.
      * exists m'. by rewrite list_lookup_insert_ne.
    + apply Forall2_insert; [done|].
      pose proof (Forall2_lookup_lr _ _ _ _ _ _ Hmem Hm Hc) as Hok. by apply member_ok_add.
  - intros Hu. apply Forall_lookup_2. simpl. intros j c' Hj. destruct (decide (j = i)) as [->|Hne].
    + rewrite list_lookup_insert_eq in Hj by (by eapply lookup_lt_Some). injection Hj as <-.
      intros Hnil. assert (sm_find l (add_combination l n c) = None) as Hf by by rewrite Hnil.
      unfold add_combination in Hf. destruct (sm_find l c); by rewrite sm_find_set_eq in Hf.
    + rewrite list_lookup_insert_ne in Hj by done. by eapply Hu.
Qed.

Lemma read_members_ok d n l es : forall s u s',
  read_members d n l es s = inr (u, s') -> input_ok s -> ids_ok s l -> all_used s ->
  input_ok s' /\ all_used s'.
Proof.
  induction es as [|e es IH]; intros s u s' Hrun Hs Hl Hu; simpl in Hrun.
  - by injection Hrun as <- <-.
  - apply dbind_inv in Hrun as (id & s1 & H1 & Hrun). apply dbind_inv in Hrun as ([] & s2 & H2 & Hrun).
    apply member_id_of_ok in H1 as (Hs1 & Hl1 & i & m & c & -> & Hm & Hc & Hothers); [|done].
    assert (ids_ok s1 l) as Hids1 by (unfold ids_ok; by rewrite Hl1).
    apply (upd_member_ok i n l s1 tt s2 m c) in H2 as (Hs2 & Hl2 & Hu2); try done.
    apply IH in Hrun; [done|done|by unfold ids_ok; rewrite Hl2, Hl1|]. by apply Hu2, Hothers.
Qed.

Lemma read_line_ok line s u s' :
  read_line line s = inr (u, s') -> input_ok s -> all_used s -> input_ok s' /\ all_used s'.
Proof.
  unfold read_line. intros Hrun Hs Hu.
  destruct (tokens TAB line) as [|d [|ml [|ll [|cnt [|]]]]]; try by injection Hrun as <- <-.
  apply dbind_inv in Hrun as (n & s0 & Hn & Hrun). unfold lift_exn in Hn.
  destruct (stoull 10 cnt) as [|n']; [done|]. injection Hn as <- <-.
  apply dbind_inv in Hrun as (? & ? & [= <- <-] & Hrun).
  apply dbind_inv in Hrun as (l & s1 & H1 & Hrun).
  apply read_locks_ok in H1 as (Hs1 & _ & Hids & Hu1); [|by destruct Hs; split].
  eapply read_members_ok; [exact Hrun|done|done|by apply Hu1].
Qed.

Lemma read_lines_ok lines : forall k s u s',
  read_lines k lines s = inr (u, s') -> input_ok s -> all_used s -> input_ok s' /\ all_used s'.
Proof.
  induction lines as [|line lines IH]; intros k s u s' Hrun Hs Hu; simpl in Hrun.
  - by injection Hrun as <- <-.
  - apply dbind_inv in Hrun as (? & s1 & H1 & Hrun).
    assert (input_ok s1 /\ all_used s1) as [Hs1 Hu1].
    { destruct ((k =? 0) && is_header line); [by injection H1 as <- <-|by eapply read_line_ok]. }
    by eapply IH.
Qed.

(** ** The combinations of the members *)

Definition with_combinations (m : Member) (c : combination_map) : Member :=
  set_combinations (combinations m ++ map2vec c) m.

Lemma copy_run combos n : forall i members,
  length combos = length members -> (Z.of_nat (length members) <= 65535) ->
  (Z.of_nat (length members) - Z.of_nat i <= Z.of_nat n) ->
  exists members', copy_combinations n combos (Z.of_nat i) members = inr members' /\
    length members' = length members /\
    (forall j, (j < i)%nat -> members' !! j = members !! j) /\
    (forall j m c, (i <= j)%nat -> members !! j = Some m -> combos !! j = Some c ->
       members' !! j = Some (with_combinations m c)).
Proof.
  induction n as [|n IH]; intros i members Hlen Hmax Hn; cbn [copy_combinations];
    destruct (Z.ltb_spec (Z.of_nat i) (Z.of_nat (length members))) as [Hi|Hi].
  - lia.
  - exists members. split; [done|]. split; [done|]. split; [done|].
    intros j m c Hj Hm. apply lookup_lt_Some in Hm. lia.
  - rewrite Nat2Z.id. destruct (lookup_lt_is_Some_2 members i ltac:(lia)) as [m Hm].
    destruct (lookup_lt_is_Some_2 combos i ltac:(lia)) as [c Hc]. rewrite Hm, Hc.
    rewrite u16_small by lia. replace (Z.of_nat i + 1) with (Z.of_nat (S i)) by lia.
    destruct (IH (S i) (<[i := with_combinations m c]> members)) as (ms & Hrun & Hl & Hlt & Hge);
      rewrite ?length_insert; [done|done|lia|]. rewrite length_insert in Hl.
    exists ms. split; [done|]. split; [done|]. split.
    + intros j Hj. rewrite Hlt by lia. by rewrite list_lookup_insert_ne by lia.
    + intros j m' c' Hj Hm' Hc'. destruct (decide (j = i)) as [->|Hne].
      * rewrite Hlt by lia. rewrite Hm in Hm'. rewrite Hc in Hc'. injection Hm' as <-. injection Hc' as <-.
        apply list_lookup_insert_eq. lia.
      * apply (Hge j); [lia| |done]. by rewrite list_lookup_insert_ne by done.
  - exists members. split; [done|]. split; [done|]. split; [done|].
    intros j m c Hj Hm. apply lookup_lt_Some in Hm. lia.
Qed.

(** With one member more than the counter can count, the loop starts again. *)
Lemma copy_diverges combos n : forall i members,
  length combos = length members -> Z.of_nat (length members) = 65536 -> 0 <= i < 65536 ->
  copy_combinations n combos i members = inl out_of_fuel.
Proof.
  induction n as [|n IH]; intros i members Hlen Hmax Hi; cbn [copy_combinations];
    rewrite (proj2 (Z.ltb_lt _ _)) by lia; [done|].
  destruct (lookup_lt_is_Some_2 members (Z.to_nat i) ltac:(lia)) as [m Hm].
  destruct (lookup_lt_is_Some_2 combos (Z.to_nat i) ltac:(lia)) as [c Hc]. rewrite Hm, Hc.
  apply IH; rewrite ?length_insert; [done|done|]. unfold u16. apply (wrap_range 16). lia.
Qed.

(** ** The result *)

(** The occurrences of the combinations whose locks satisfy [p]. *)
Definition sum_of (p : hypo -> bool) (l : list LockCombination) : Z :=
  foldr (fun lc acc => (if p (locks_held lc) then lc_occurrences lc else 0) + acc) 0 l.

(** A member as the search for hypotheses expects it. *)
Record loaded (nlocks : nat) (m : Member) : Prop := {
  ld_used : combinations m <> [];
  ld_distinct : NoDup (map locks_held (combinations m));
  ld_combo lc : lc ∈ combinations m ->
    lc = new_LockCombination (lc_occurrences lc) (locks_held lc) /\
    Forall (fun id => 0 <= id < Z.of_nat nlocks) (locks_held lc);
  ld_sorted : combos_sorted (combinations m);
  ld_occurrences : occurrences m = u64 (sum_of (fun _ => true) (combinations m));
  ld_with_locks : occurrences_with_locks m = u64 (sum_of has_locks (combinations m));
  ld_fresh : hypotheses m = [] /\ graph m = [] /\ show m = true
}.

Lemma sum_of_total p c :
  (forall k lc, (k, lc) ∈ c -> locks_held lc = k) -> sum_of p (map2vec c) = total p c.
Proof.
  induction c as [|[k lc] c IH]; intros Hk; [done|]. simpl.
  rewrite (Hk k lc) by apply list_elem_of_here. f_equal. apply IH. intros k' lc' Hin. apply Hk.
  by apply list_elem_of_further.
Qed.

Lemma held_keys (c : combination_map) :
  (forall k lc, (k, lc) ∈ c -> locks_held lc = k) -> map locks_held (map2vec c) = map fst c.
Proof.
  induction c as [|[k lc] c IH]; intros Hk; [done|]. simpl.
  rewrite (Hk k lc) by apply list_elem_of_here. f_equal. apply IH. intros k' lc' Hin. apply Hk.
  by apply list_elem_of_further.
Qed.

Lemma loaded_member nlocks m c : member_ok nlocks m c -> c <> [] -> loaded nlocks (with_combinations m c).
Proof.
  intros [Hs Hk Ht Hw (Hc0 & Hh & Hg & Hsh)] Hne. unfold with_combinations. rewrite Hc0, app_nil_l.
  assert (forall k lc, (k, lc) ∈ c -> locks_held lc = k) as Hheld by (intros; by apply Hk).
  assert (forall lc, lc ∈ map2vec c -> (locks_held lc, lc) ∈ c) as Hin.
  { intros lc Hlc. apply list_elem_of_In, in_map_iff in Hlc as ([k lc'] & Hlc & Hin). simpl in Hlc. subst.
    apply list_elem_of_In in Hin. by rewrite (Hheld k lc Hin). }
  split; simpl.
  - by destruct c.
  - rewrite held_keys by done. by apply sm_keys_NoDup.
  - intros lc Hlc. destruct (Hk _ _ (Hin lc Hlc)) as (_ & Hsort & Hids). split; [|done].
    destruct lc as [n held sorted]. simpl in *. unfold new_LockCombination. by rewrite Hsort.
  - apply Forall_forall. intros lc Hlc. destruct (Hk _ _ (Hin lc Hlc)) as (_ & -> & _).
    done.
  - by rewrite sum_of_total.
  - by rewrite sum_of_total.
  - done.
Qed.

(** The names are different, since each of them leads to its own number. *)
Lemma numbered_NoDup (names : list string) (f : string -> option Z) :
  (forall e i, f e = Some i <-> 0 <= i /\ names !! Z.to_nat i = Some e) -> NoDup names.
Proof.
  intros Hf. apply NoDup_alt. intros i j e Hi Hj.
  assert (f e = Some (Z.of_nat i)) as H1 by (apply Hf; rewrite Nat2Z.id; split; [lia|done]).
  assert (f e = Some (Z.of_nat j)) as H2 by (apply Hf; rewrite Nat2Z.id; split; [lia|done]).
  rewrite H1 in H2. injection H2. lia.
Qed.

(** The members after a complete reading. *)
Lemma load_input_run file s :
  read_lines 0 (tokens NEWLINE file) input0 = inr (tt, s) -> Z.of_nat (length (in_members s)) < 65536 ->
  exists members, load_input copy_fuel file = inr (members, in_locks s, accesscount s) /\
    length members = length (in_members s) /\
    Forall (loaded (length (in_locks s))) members /\
    (forall k i, sm_find k (member_to_id s) = Some i -> exists m, members !! Z.to_nat i = Some m /\
       datatype m = k.1 /\ parse_name k.2 = inr (accesstype m, name m)).
Proof.
  intros Hrun Hmax. destruct (read_lines_ok _ _ _ _ _ Hrun input_ok_0 ltac:(constructor)) as [Hs Hu].
  pose proof (Forall2_length _ _ _ (io_members _ Hs)) as Hlen. unfold load_input. rewrite Hrun.
  destruct (copy_run (members_combinations s) copy_fuel 0 (in_members s)) as
    (ms & Hc & Hl & _ & Hget); [done|lia|unfold copy_fuel; lia|].
  exists ms. change (Z.of_nat 0) with 0 in Hc. rewrite Hc. split; [done|]. split; [done|].
  assert (forall j m, in_members s !! j = Some m -> exists c, ms !! j = Some (with_combinations m c) /\
    loaded (length (in_locks s)) (with_combinations m c)) as Hat.
  { intros j m Hm. destruct (Forall2_lookup_l _ _ _ _ _ (io_members _ Hs) Hm) as (c & Hcj & Hok).
    exists c. split; [apply (Hget j); [lia|done|done]|]. apply loaded_member; [done|].
    by eapply Forall_lookup_1 in Hu. }
  split.
  - apply Forall_lookup_2. intros j m Hm.
    destruct (lookup_lt_is_Some_2 (in_members s) j) as [m0 Hm0].
    { apply lookup_lt_Some in Hm. lia. }
    destruct (Hat j m0 Hm0) as (c & Hc' & Hok). rewrite Hm in Hc'. by injection Hc' as ->.
  - intros k i Hk. destruct (io_member _ Hs k i Hk) as (Hi & m & Hm & Hd & Hp).
    destruct (Hat _ _ Hm) as (c & Hc' & _). by eexists.
Qed.

(** ** What the input says

    The lines as records, independent of the reader's state: the locks in order of
    their first appearance, the members in order of their first appearance, and
    the observations, one for every member of a line. *)
Section Firsts.
Context {A : Type} `{EqDecision A}.

(** [x] at the end of a list that does not have it yet; the different elements of
    a list in order of their first appearance. *)
Definition push (l : list A) (x : A) : list A := if bool_decide (x ∈ l) then l else l ++ [x].
Definition firsts (l : list A) : list A := foldl push [] l.

Fixpoint index_of (l : list A) (x : A) : Z :=
  match l with [] => 0 | y :: l => if bool_decide (y = x) then 0 else 1 + index_of l x end.

Lemma push_elem l x y : y ∈ push l x <-> y = x \/ y ∈ l.
Proof. unfold push. case_bool_decide; rewrite ?elem_of_app, ?list_elem_of_singleton; naive_solver. Qed.

Lemma push_NoDup l x : NoDup l -> NoDup (push l x).
Proof.
  unfold push. intros Hl. case_bool_decide; [done|]. apply NoDup_app. split; [done|]. split; [|apply NoDup_singleton].
  intros y Hy ->%list_elem_of_singleton. done.
Qed.

Lemma push_prefix l x : l `prefix_of` push l x.
Proof. unfold push. case_bool_decide; [done|by apply prefix_app_r]. Qed.

Lemma foldl_push_prefix xs : forall l, l `prefix_of` foldl push l xs.
Proof. induction xs as [|x xs IH]; intros l; [done|]. etrans; [apply push_prefix|apply IH]. Qed.

Lemma index_of_lookup l x i : NoDup l -> l !! i = Some x -> index_of l x = Z.of_nat i.
Proof.
  revert i. induction l as [|y l IH]; intros i Hnd Hi; [done|]. apply NoDup_cons in Hnd as [Hy Hnd]. cbn [index_of].
  destruct i as [|i]; [injection Hi as ->; by rewrite bool_decide_eq_true_2|]. cbn in Hi.
  rewrite bool_decide_eq_false_2 by (intros ->; apply Hy; by eapply list_elem_of_lookup_2).
  rewrite (IH i) by done. lia.
Qed.

Lemma index_of_prefix l l' x : l `prefix_of` l' -> x ∈ l -> index_of l' x = index_of l x.
Proof.
  intros [k ->] Hx. induction l as [|y l IH]; [by apply elem_of_nil in Hx|]. cbn [index_of app].
  case_bool_decide; [done|]. apply elem_of_cons in Hx as [->|Hx]; [done|]. by rewrite IH.
Qed.
End Firsts.

(** A data type, members, locks, and how often. *)
Record record := mkRecord { rec_type : string; rec_members : list string; rec_locks : list string; rec_count : Z }.
Definition record_of (line : string) : option record :=
  match tokens TAB line with
  | [d; ml; ll; cnt] =>
      match stoull 10 cnt with
      | inr n => Some (mkRecord d (tokens COMMA ml) (filter (fun e => e <> EmptyString) (tokens COMMA ll)) n)
      | inl _ => None
      end
  | _ => None
  end.

(** The first line may be a header; lines are counted modulo 2^32. *)
Fixpoint records (k : Z) (lines : list string) : list record :=
  match lines with
  | [] => []
  | line :: lines =>
      (if (k =? 0) && is_header line then [] else option_list (record_of line)) ++ records (u32 (k + 1)) lines
  end.

(** A member, the numbers of the locks, and how often. *)
Definition observation : Type := (string * string) * hypo * Z.
Definition observations (locks : list string) (r : record) : list observation :=
  map (fun e => (rec_type r, e, map (index_of locks) (rec_locks r), rec_count r)) (rec_members r).

Definition observed (k : string * string) (l : hypo) (os : list observation) : Z :=
  foldr (fun o acc => (if bool_decide (o.1 = (k, l)) then o.2 else 0) + acc) 0 os.

Lemma observed_app k l os os' : observed k l (os ++ os') = observed k l os + observed k l os'.
Proof. unfold observed. induction os as [|o os IH]; [done|]. cbn [app foldr]. rewrite IH. lia. Qed.

(** ** The reader follows the records *)

(** The combinations of a member count its observations. *)
Definition counts (k : string * string) (os : list observation) (c : combination_map) : Prop := forall l,
  default 0 (lc_occurrences <$> sm_find l c) = u64 (observed k l os) /\
  (is_Some (sm_find l c) <-> (k, l) ∈ map fst os).

Record tracked (keys : list (string * string)) (os : list observation) (s : input) : Prop := {
  tr_distinct : NoDup keys;
  tr_observed o : o ∈ os -> o.1.1 ∈ keys;
  tr_find k i : sm_find k (member_to_id s) = Some i <-> 0 <= i /\ keys !! Z.to_nat i = Some k;
  tr_length : length (in_members s) = length keys;
  tr_counts i k c : keys !! i = Some k -> members_combinations s !! i = Some c -> counts k os c
}.

Lemma tracked_0 : tracked [] [] input0.
Proof. split; [constructor|..]; try done; [by intros o ?%elem_of_nil|]. intros k i. rewrite lookup_nil. by split; [|intros []]. Qed.

(** A new lock is numbered after all others. *)
Lemma lock_id_of_spec e s id s' : lock_id_of e s = inr (id, s') -> input_ok s ->
  in_locks s' = push (in_locks s) e /\ id = index_of (in_locks s') e /\
  in_members s' = in_members s /\ member_to_id s' = member_to_id s /\
  members_combinations s' = members_combinations s /\ accesscount s' = accesscount s.
Proof.
  intros Hrun Hs. pose proof (lock_id_of_ok e s id s' Hrun Hs) as (Hs' & _).
  pose proof (numbered_NoDup _ _ (io_lock _ Hs')) as Hnd. revert Hrun.
  unfold lock_id_of. intros Hrun. apply dbind_inv in Hrun as (? & ? & [= <- <-] & Hrun). unfold push.
  destruct (sm_find e (lock_to_id s)) as [i|] eqn:Hf.
  - injection Hrun as <- <-. apply (io_lock _ Hs) in Hf as [Hi Hl].
    rewrite bool_decide_eq_true_2 by (by eapply list_elem_of_lookup_2). split; [done|]. split; [|done].
    rewrite (index_of_lookup _ _ _ Hnd Hl). lia.
  - assert (Hne : e ∉ in_locks s).
    { intros [i Hi]%list_elem_of_lookup. enough (sm_find e (lock_to_id s) = Some (Z.of_nat i)) by congruence.
      apply (io_lock _ Hs). rewrite Nat2Z.id. split; [lia|done]. }
    rewrite bool_decide_eq_false_2 by done.
    destruct (max_id <? _); [done|]. apply dbind_inv in Hrun as (? & ? & [= <- <-] & [= <- <-]). cbn [in_locks] in *.
    split; [done|]. split; [|done]. rewrite (index_of_lookup _ _ (length (in_locks s)) Hnd) by by apply list_lookup_middle.
    rewrite length_app. simpl. lia.
Qed.

Lemma read_locks_spec l : forall s ids s', read_locks l s = inr (ids, s') -> input_ok s ->
  let names := filter (fun e => e <> EmptyString) l in
  in_locks s' = foldl push (in_locks s) names /\ ids = map (index_of (in_locks s')) names /\
  in_members s' = in_members s /\ member_to_id s' = member_to_id s /\
  members_combinations s' = members_combinations s /\ accesscount s' = accesscount s.
Proof.
  induction l as [|e l IH]; intros s ids s' Hrun Hs; simpl in Hrun.
  - by injection Hrun as <- <-.
  - destruct (decide (e = EmptyString)) as [->|He].
    { rewrite bool_decide_eq_true_2 in Hrun by done. rewrite filter_cons_False by auto. by apply IH. }
    rewrite bool_decide_eq_false_2 in Hrun by done. rewrite filter_cons_True by done.
    apply dbind_inv in Hrun as (id & s1 & H1 & Hrun). apply dbind_inv in Hrun as (ids' & s2 & H2 & [= <- <-]).
    destruct (lock_id_of_ok _ _ _ _ H1 Hs) as (Hs1 & _).
    destruct (lock_id_of_spec _ _ _ _ H1 Hs) as (E1 & E2 & E3 & E4 & E5 & E6).
    destruct (IH _ _ _ H2 Hs1) as (F1 & F2 & F3 & F4 & F5 & F6). cbn [foldl map].
    rewrite <-E1. split; [done|]. split; [|by rewrite F3, F4, F5, F6].
    rewrite F2 at 1. f_equal. rewrite E2. symmetry. apply index_of_prefix; [rewrite F1; apply foldl_push_prefix|].
    rewrite E1. apply push_elem. by left.
Qed.

Lemma observed_none k l os : (k, l) ∉ map fst os -> observed k l os = 0.
Proof.
  induction os as [|[kl n] os IH]; [done|]. cbn [map fst]. rewrite not_elem_of_cons. intros [Hne Hos].
  unfold observed in *. cbn [foldr fst snd]. by rewrite bool_decide_eq_false_2, IH by done.
Qed.

Lemma counts_add k l n os c : 0 <= n < 2 ^ 64 -> counts k os c -> counts k (os ++ [(k, l, n)]) (add_combination l n c).
Proof.
  intros Hn Hc l'. destruct (Hc l') as [H1 H2]. rewrite observed_app, map_app, elem_of_app, <-H2. cbn [map fst].
  rewrite list_elem_of_singleton. unfold observed at 2. cbn [foldr fst snd]. rewrite Z.add_0_r.
  unfold add_combination. destruct (decide (l' = l)) as [->|Hne].
  - rewrite bool_decide_eq_true_2 by done. destruct (sm_find l c) as [lc|]; rewrite sm_find_set_eq; cbn in *.
    + rewrite H1. split; [apply u64_add_l|naive_solver].
    + rewrite <-u64_add_l, <-H1. cbn. rewrite u64_small by lia. naive_solver.
  - rewrite bool_decide_eq_false_2 by congruence. rewrite Z.add_0_r.
    destruct (sm_find l c); rewrite sm_find_set_ne by done; (split; [done|naive_solver]).
Qed.

Lemma counts_other k k' l n os c : k' <> k -> counts k' os c -> counts k' (os ++ [(k, l, n)]) c.
Proof.
  intros Hne Hc l'. destruct (Hc l') as [H1 H2]. rewrite observed_app, map_app, elem_of_app. cbn [map fst].
  rewrite list_elem_of_singleton. unfold observed at 2. cbn [foldr fst snd].
  rewrite bool_decide_eq_false_2 by congruence. rewrite !Z.add_0_r. split; [done|]. rewrite H2. naive_solver.
Qed.

Lemma member_id_of_spec d e s id s' keys os :
  member_id_of d e s = inr (id, s') -> input_ok s -> tracked keys os s ->
  tracked (push keys (d, e)) os s' /\ in_locks s' = in_locks s /\ accesscount s' = accesscount s /\
  exists i, id = Z.of_nat i /\ push keys (d, e) !! i = Some (d, e).
Proof.
  unfold member_id_of. intros Hrun Hs Ht. apply dbind_inv in Hrun as (? & ? & [= <- <-] & Hrun).
  pose proof (Forall2_length _ _ _ (io_members _ Hs)) as Hlen. unfold push.
  destruct (sm_find (d, e) (member_to_id s)) as [i|] eqn:Hf.
  - injection Hrun as <- <-. apply (tr_find _ _ _ Ht) in Hf as [Hi Hk].
    rewrite bool_decide_eq_true_2 by (by eapply list_elem_of_lookup_2). split; [done|]. split; [done|]. split; [done|].
    exists (Z.to_nat i). split; [lia|done].
  - destruct (new_Member d e) as [|m]; [done|]. destruct (max_id <? _); [done|].
    apply dbind_inv in Hrun as (? & ? & [= <- <-] & [= <- <-]).
    destruct Ht as [Hd Ho Hfi Hl Hc].
    assert (Hne : (d, e) ∉ keys).
    { intros [i Hi]%list_elem_of_lookup. enough (sm_find (d, e) (member_to_id s) = Some (Z.of_nat i)) by congruence.
      apply Hfi. rewrite Nat2Z.id. split; [lia|done]. }
    rewrite bool_decide_eq_false_2 by done. rewrite !length_app. simpl.
    replace (Z.of_nat (length (in_members s) + 1) - 1) with (Z.of_nat (length keys)) by lia.
    split; [|split; [done|split; [done|exists (length keys); split; [done|by apply list_lookup_middle]]]].
    split; cbn [member_to_id in_members members_combinations].
    + apply NoDup_app. split; [done|]. split; [|apply NoDup_singleton]. intros k Hk ->%list_elem_of_singleton. done.
    + intros o Hin. apply elem_of_app. left. by apply Ho.
    + intros k i. destruct (decide (k = (d, e))) as [->|Hk].
      * rewrite sm_find_set_eq. split.
        -- intros [= <-]. split; [lia|]. rewrite Nat2Z.id. by apply list_lookup_middle.
        -- intros [Hi Hlk]. f_equal. apply lookup_app_Some in Hlk as [Hlk|[Hge Hlk]].
           ++ exfalso. apply Hne. by eapply list_elem_of_lookup_2.
           ++ apply list_lookup_singleton_Some in Hlk as [Hlk _]. lia.
      * rewrite sm_find_set_ne by done. rewrite Hfi. split; intros [Hi Hlk]; (split; [done|]).
        -- by apply lookup_app_l_Some.
        -- apply lookup_app_Some in Hlk as [Hlk|[Hge Hlk]]; [done|].
           apply list_lookup_singleton_Some in Hlk as [_ Hlk]. congruence.
    + rewrite !length_app. simpl. lia.
    + intros i k c Hk Hci. apply lookup_app_Some in Hk as [Hk|[Hge Hk]].
      * apply (Hc i); [done|]. apply lookup_app_Some in Hci as [Hci|[Hge _]]; [done|].
        apply lookup_lt_Some in Hk. lia.
      * apply list_lookup_singleton_Some in Hk as [Hi <-]. apply lookup_app_Some in Hci as [Hci|[_ Hci]].
        { apply lookup_lt_Some in Hci. lia. }
        apply list_lookup_singleton_Some in Hci as [_ <-]. intros l.
        assert (Hno : (d, e, l) ∉ map fst os).
        { intros Hin%list_elem_of_In%in_map_iff. destruct Hin as ([[k' l'] n'] & [= -> ->] & Hin%list_elem_of_In).
          apply Hne. exact (Ho _ Hin). }
        rewrite observed_none by done. split; [done|]. split; [by intros [? ?]|done].
Qed.

Lemma upd_member_spec i n l s u s' keys os k :
  upd_member (Z.of_nat i) n l s = inr (u, s') -> tracked keys os s -> keys !! i = Some k -> 0 <= n < 2 ^ 64 ->
  tracked keys (os ++ [(k, l, n)]) s' /\ in_locks s' = in_locks s /\ accesscount s' = accesscount s.
Proof.
  unfold upd_member. intros Hrun [Hd Ho Hfi Hl Hc] Hk Hn. apply dbind_inv in Hrun as (? & ? & [= <- <-] & Hrun).
  rewrite Nat2Z.id in Hrun. destruct (in_members s !! i) as [m|]; [|done].
  destruct (members_combinations s !! i) as [c|] eqn:Hci; [|done]. injection Hrun as <- <-.
  split; [|done]. split; cbn [member_to_id in_members members_combinations]; [done| |done|by rewrite length_insert|].
  - intros o [Hin|Hin]%elem_of_app; [by apply Ho|]. apply list_elem_of_singleton in Hin as ->. by eapply list_elem_of_lookup_2.
  - intros j k' c' Hk' Hc'. destruct (decide (j = i)) as [->|Hne].
    + rewrite list_lookup_insert_eq in Hc' by (by eapply lookup_lt_Some). injection Hc' as <-.
      rewrite Hk in Hk'. injection Hk' as <-. by apply counts_add, (Hc i).
    + rewrite list_lookup_insert_ne in Hc' by done. apply counts_other; [|by apply (Hc j)].
      intros ->. apply Hne. by eapply NoDup_lookup.
Qed.

(** One line. *)
Definition keys_of (r : record) : list (string * string) := map (fun e => (rec_type r, e)) (rec_members r).

Lemma read_members_spec d n l es : forall s u s' keys os,
  read_members d n l es s = inr (u, s') -> input_ok s -> ids_ok s l -> tracked keys os s -> 0 <= n < 2 ^ 64 ->
  tracked (foldl push keys (map (fun e => (d, e)) es)) (os ++ map (fun e => (d, e, l, n)) es) s' /\
  in_locks s' = in_locks s /\ accesscount s' = accesscount s.
Proof.
  induction es as [|e es IH]; intros s u s' keys os Hrun Hs Hl Ht Hn; simpl in Hrun.
  - injection Hrun as <- <-. by rewrite app_nil_r.
  - apply dbind_inv in Hrun as (id & s1 & H1 & Hrun). apply dbind_inv in Hrun as ([] & s2 & H2 & Hrun).
    destruct (member_id_of_spec _ _ _ _ _ _ _ H1 Hs Ht) as (Ht1 & El1 & Ea1 & i & -> & Hk).
    pose proof (member_id_of_ok _ _ _ _ _ H1 Hs) as (Hs1 & _ & i' & m & c & Hi' & Hm & Hc & _).
    apply Nat2Z.inj in Hi' as <-. assert (Hl1 : ids_ok s1 l) by (unfold ids_ok; by rewrite El1).
    destruct (upd_member_ok _ _ _ _ _ _ _ _ H2 Hs1 Hl1 Hm Hc) as (Hs2 & _ & _).
    destruct (upd_member_spec _ _ _ _ _ _ _ _ _ H2 Ht1 Hk Hn) as (Ht2 & El2 & Ea2).
    destruct (IH s2 u s' (push keys (d, e)) (os ++ [(d, e, l, n)]) Hrun Hs2) as (Ht3 & El3 & Ea3);
      [by unfold ids_ok; rewrite El2, El1|exact Ht2|done|].
    cbn [map foldl]. rewrite <-app_assoc in Ht3. by rewrite El3, El2, El1, Ea3, Ea2, Ea1.
Qed.

Lemma scan_digits_nonneg base : 0 <= base -> forall s acc some v,
  0 <= acc -> scan_digits base acc some s = Some v -> 0 <= v.
Proof.
  intros Hb. induction s as [|c s IH]; intros acc some v Ha; cbn [scan_digits]; [by destruct some; [intros [= <-]|]|].
  destruct (base_digit base c) as [x|] eqn:Hx; [|by destruct some; [intros [= <-]|]]. apply IH.
  unfold base_digit, digit_val in Hx. repeat case_match; simplify_eq; rewrite ?andb_true_iff in *; lia.
Qed.

Lemma stoull_range base s n : 0 <= base -> stoull base s = inr n -> 0 <= n < 2 ^ 64.
Proof.
  intros Hb. unfold stoull, scan_number. destruct (scan_sign (skip_space s)) as [neg s1].
  destruct (scan_digits base 0 false (scan_prefix base s1)) as [v|] eqn:Hv; [|done].
  apply scan_digits_nonneg in Hv; [|done|lia]. destruct (Z.ltb_spec (2 ^ 64 - 1) v); [done|].
  destruct neg; intros [= <-]; [|lia]. apply (wrap_range 64). lia.
Qed.

Lemma foldl_push_elem {A} `{EqDecision A} xs : forall (l : list A) x, x ∈ foldl push l xs <-> x ∈ xs \/ x ∈ l.
Proof.
  induction xs as [|y xs IH]; intros l x; cbn [foldl]; [rewrite elem_of_nil; tauto|].
  rewrite IH, push_elem, elem_of_cons. tauto.
Qed.

(** The numbers of locks do not change when more locks follow. *)
Lemma observations_prefix locks locks' r :
  locks `prefix_of` locks' -> (forall e, e ∈ rec_locks r -> e ∈ locks) -> observations locks r = observations locks' r.
Proof.
  intros Hp Hin. unfold observations. assert (map (index_of locks) (rec_locks r) = map (index_of locks') (rec_locks r)) as ->; [|done].
  apply map_ext_in. intros e He%list_elem_of_In. symmetry. apply index_of_prefix; [done|by apply Hin].
Qed.

Definition follows (s s' : input) (keys : list (string * string)) (os : list observation) (rs : list record) : Prop :=
  in_locks s' = foldl push (in_locks s) (concat (map rec_locks rs)) /\
  accesscount s' = u64 (accesscount s + foldr (fun r acc => rec_count r + acc) 0 rs) /\
  tracked (foldl push keys (concat (map keys_of rs))) (os ++ concat (map (observations (in_locks s')) rs)) s'.

Lemma follows_none s keys os : accesscount s = u64 (accesscount s) -> tracked keys os s -> follows s s keys os [].
Proof. intros Ha Ht. split; [done|]. cbn. by rewrite Z.add_0_r, app_nil_r. Qed.

Lemma read_line_spec line s u s' keys os :
  read_line line s = inr (u, s') -> input_ok s -> tracked keys os s -> accesscount s = u64 (accesscount s) ->
  follows s s' keys os (option_list (record_of line)).
Proof.
  unfold read_line, record_of. intros Hrun Hs Ht Ha.
  destruct (tokens TAB line) as [|d [|ml [|ll [|cnt [|]]]]]; try by injection Hrun as <- <-; apply follows_none.
  apply dbind_inv in Hrun as (n & s0 & Hn & Hrun). unfold lift_exn in Hn.
  destruct (stoull 10 cnt) as [|n'] eqn:Hc; [done|]. injection Hn as <- <-. apply stoull_range in Hc; [|done].
  apply dbind_inv in Hrun as (? & s0 & [= <- <-] & Hrun).
  apply dbind_inv in Hrun as (l & s1 & H1 & Hrun).
  match type of H1 with read_locks _ ?x = _ => set (sc := x) in * end.
  assert (Hsc : input_ok sc) by (by destruct Hs; split).
  destruct (read_locks_ok _ _ _ _ H1 Hsc) as (Hs1 & _ & Hids & _).
  destruct (read_locks_spec _ _ _ _ H1 Hsc) as (El & Ei & Em & Ef & Ec & Eac).
  assert (Ht1 : tracked keys os s1).
  { destruct Ht as [T1 T2 T3 T4 T5]. split; rewrite ?Em, ?Ef, ?Ec; done. }
  destruct (read_members_spec _ _ _ _ _ _ _ _ _ Hrun Hs1 Hids Ht1 Hc) as (Ht' & El' & Ea').
  unfold follows, option_list. cbn [option_rect map concat rec_locks rec_count foldr]. rewrite !app_nil_r, Z.add_0_r.
  split; [by rewrite El', El|]. split; [by rewrite Ea', Eac|].
  unfold keys_of, observations. cbn [rec_type rec_members rec_locks rec_count]. by rewrite El', <-Ei.
Qed.

Lemma follows_cons s s1 s' keys os os1 rs1 rs :
  follows s s1 keys os rs1 -> os1 = os ++ concat (map (observations (in_locks s1)) rs1) ->
  follows s1 s' (foldl push keys (concat (map keys_of rs1))) os1 rs ->
  follows s s' keys os (rs1 ++ rs).
Proof.
  intros (L1 & A1 & T1) -> (L2 & A2 & T2). unfold follows. rewrite !map_app, !concat_app, !foldl_app.
  split; [by rewrite L2, L1|]. split.
  - rewrite A2, A1, u64_add_l. f_equal. clear. induction rs1 as [|r rs1 IH]; [cbn; lia|]. cbn [foldr app]. lia.
  - rewrite <-app_assoc in T2.
    assert (E : map (observations (in_locks s1)) rs1 = map (observations (in_locks s')) rs1); [|by rewrite E in T2].
    apply map_ext_in. intros r Hr%list_elem_of_In. apply observations_prefix; [rewrite L2; apply foldl_push_prefix|].
    intros e He. rewrite L1. apply foldl_push_elem. left. apply list_elem_of_In, in_concat.
    exists (rec_locks r). split; [apply in_map; by apply list_elem_of_In|by apply list_elem_of_In].
Qed.

Lemma read_lines_spec lines : forall k s u s' keys os,
  read_lines k lines s = inr (u, s') -> input_ok s -> all_used s -> tracked keys os s -> accesscount s = u64 (accesscount s) ->
  follows s s' keys os (records k lines).
Proof.
  induction lines as [|line lines IH]; intros k s u s' keys os Hrun Hs Hu Ht Ha; simpl in Hrun.
  - injection Hrun as <- <-. by apply follows_none.
  - apply dbind_inv in Hrun as (? & s1 & H1 & Hrun). cbn [records].
    destruct ((k =? 0) && is_header line).
    + injection H1 as <- <-. by apply (IH _ _ u s').
    + destruct (read_line_ok _ _ _ _ H1 Hs Hu) as [Hs1 Hu1].
      pose proof (read_line_spec _ _ _ _ _ _ H1 Hs Ht Ha) as Hf. pose proof Hf as (_ & Ha1 & Ht1).
      eapply follows_cons; [exact Hf|reflexivity|]. apply (IH _ _ u s'); try done.
      rewrite Ha1. unfold u64, wrap. by rewrite Zmod_mod.
Qed.


(** What a member of the result has counted. *)
Definition counted (k : string * string) (os : list observation) (m : Member) : Prop :=
  (forall lc, lc ∈ combinations m -> lc_occurrences lc = u64 (observed k (locks_held lc) os)) /\
  (forall l, l ∈ map locks_held (combinations m) <-> (k, l) ∈ map fst os).

Lemma counted_member nlocks k os m c :
  member_ok nlocks m c -> counts k os c -> counted k os (with_combinations m c).
Proof.
  intros [Hs Hk _ _ (Hc0 & _)] Hc. unfold counted, with_combinations. cbn [combinations set_combinations].
  rewrite Hc0, app_nil_l.
  assert (Hheld : forall k lc, (k, lc) ∈ c -> locks_held lc = k) by (intros ?? Hin; apply (Hk _ _ Hin)).
  split.
  - intros lc Hlc. apply list_elem_of_In, in_map_iff in Hlc as ([l lc'] & Hlc & Hin). cbn in Hlc. subst lc'.
    apply list_elem_of_In in Hin. rewrite (Hheld _ _ Hin). destruct (Hc l) as [<- _].
    by rewrite (sm_elem_find _ _ _ Hs Hin).
  - intros l. rewrite held_keys by done. destruct (Hc l) as [_ <-]. rewrite list_elem_of_fmap. split.
    + intros ([l' lc] & -> & Hin). cbn [fst]. rewrite (sm_elem_find _ _ _ Hs Hin). by eexists.
    + intros [lc Hf%sm_find_elem]. by exists (l, lc).
Qed.

(** (C18) Reading the input, in terms of the records on its lines.  When all lines
    are read without a failure, the locks are the different non-empty lock names of
    the records, numbered without gaps in the order of their first appearance, and
    the members are the different pairs of a data type and a member, in the same
    way; there are at most 65536 of each.  Unless there are exactly 65536 members,
    in which case the loop that copies the combinations never ends, the result has a
    member for every such pair, with this type, access type and name.  Its
    combinations are different from each other and not none; they are exactly the
    lists of lock numbers, in the order on the line, of the records that name the
    member, and each counts the occurrences on these lines, modulo 2^64; the
    counters of the member are the sums of them, the number of accesses is the sum
    over all records, and nothing has been derived yet. *)
Theorem load_input_correct file s :
  read_lines 0 (tokens NEWLINE file) input0 = inr (tt, s) ->
  let rs := records 0 (tokens NEWLINE file) in
  let locks := firsts (concat (map rec_locks rs)) in
  let keys := firsts (concat (map keys_of rs)) in
  let os := concat (map (observations locks) rs) in
  Z.of_nat (length locks) <= 65536 /\ Z.of_nat (length keys) <= 65536 /\
  (Z.of_nat (length keys) = 65536 -> forall n, load_input n file = inl out_of_fuel) /\
  (Z.of_nat (length keys) < 65536 ->
   exists members, load_input copy_fuel file =
       inr (members, locks, u64 (foldr (fun r acc => rec_count r + acc) 0 rs)) /\
     Forall2 (fun k m => datatype m = k.1 /\ parse_name k.2 = inr (accesstype m, name m) /\
       counted k os m /\ loaded (length locks) m) keys members).
Proof.
  intros Hrun rs locks keys os. destruct (read_lines_ok _ _ _ _ _ Hrun input_ok_0 ltac:(constructor)) as [Hs Hu].
  destruct (read_lines_spec _ _ _ _ _ [] [] Hrun input_ok_0 ltac:(constructor) tracked_0 eq_refl) as (El & Ea & Ht).
  assert (Hlocks : in_locks s = locks) by exact El. rewrite Hlocks in Ht. cbn [app] in Ht.
  change (foldl push [] (concat (map keys_of (records 0 (tokens NEWLINE file))))) with keys in Ht.
  change (concat (map (observations locks) (records 0 (tokens NEWLINE file)))) with os in Ht.
  assert (Hn : length (in_members s) = length keys) by apply (tr_length _ _ _ Ht).
  destruct (io_sizes _ Hs) as [Hn1 Hn2]. pose proof (Forall2_length _ _ _ (io_members _ Hs)) as Hlen.
  rewrite Hlocks in Hn1. split; [done|]. split; [lia|]. split.
  - intros Hmax n. unfold load_input. rewrite Hrun. by rewrite copy_diverges by lia.
  - intros Hmax. unfold load_input. rewrite Hrun.
    destruct (copy_run (members_combinations s) copy_fuel 0 (in_members s)) as
      (ms & Hc & Hl & _ & Hget); [done|lia|unfold copy_fuel; lia|]. change (Z.of_nat 0) with 0 in Hc. rewrite Hc, Hlocks.
    exists ms. split; [by rewrite Ea|]. apply Forall2_same_length_lookup. split; [lia|].
    intros j k m Hk Hm. destruct (lookup_lt_is_Some_2 (in_members s) j) as [m0 Hm0].
    { apply lookup_lt_Some in Hk. lia. }
    destruct (Forall2_lookup_l _ _ _ _ _ (io_members _ Hs) Hm0) as (c & Hcj & Hok). rewrite Hlocks in Hok.
    rewrite (Hget j m0 c ltac:(lia) Hm0 Hcj) in Hm. injection Hm as <-.
    assert (Hf : sm_find k (member_to_id s) = Some (Z.of_nat j)) by (apply (tr_find _ _ _ Ht); rewrite Nat2Z.id; split; [lia|done]).
    destruct (io_member _ Hs _ _ Hf) as (_ & m' & Hm' & Hd & Hp). rewrite Nat2Z.id, Hm0 in Hm'. injection Hm' as <-.
    split; [done|]. split; [done|]. split.
    + eapply counted_member; [exact Hok|]. by apply (tr_counts _ _ _ Ht j).
    + apply loaded_member; [done|]. by eapply Forall_lookup_1 in Hu.
Qed.

(** A header and three lines; the second and third name the same locks. *)
Definition ex_input : string :=
  let t := String TAB EmptyString in let n := String NEWLINE EmptyString in
  "type" +:+ t +:+ "members" +:+ t +:+ "locks" +:+ t +:+ "occurrences" +:+ n +:+
  "inode" +:+ t +:+ "r:i_flags,w:i_state" +:+ t +:+ "EMBSAME(i_lock),rcu" +:+ t +:+ "10" +:+ n +:+
  "inode" +:+ t +:+ "r:i_flags" +:+ t +:+ t +:+ "3" +:+ n +:+
  "inode" +:+ t +:+ "w:i_state" +:+ t +:+ "rcu,EMBSAME(i_lock)" +:+ t +:+ "4".

Lemma load_input_correct_witness :
  exists members, load_input copy_fuel ex_input = inr (members, ["EMBSAME(i_lock)"; "rcu"]%string, 17) /\
    map (fun m => (combined_name m, occurrences m, occurrences_with_locks m, map locks_held (combinations m)))
      members =
    [("r:i_flags"%string, 13, 10, [[]; [0; 1]]); ("w:i_state"%string, 14, 14, [[0; 1]; [1; 0]])].
Proof.
  destruct (read_lines 0 (tokens NEWLINE ex_input) input0) as [|[[] s]] eqn:Hrun.
  { exfalso. vm_compute in Hrun. discriminate Hrun. }
  destruct (load_input_correct ex_input s Hrun) as (_ & _ & _ & Hload).
  destruct (Hload ltac:(vm_compute; reflexivity)) as (members & Hl & _).
  exists members. split; [exact Hl|]. clear Hrun Hload. unfold load_input in Hl. vm_compute in Hl.
  injection Hl as <-. vm_compute. reflexivity.
Defined.
