(* ===== verification/OptionParser.v ===== *)
(** * The option parser of the hypothesizer and of sfctool

    src/hypothesizer/optionparser.h and optionparser_ext.h; src/coverage/sfctool
    has a later version whose parser does the same.  A word of the command line is a string, a
    pointer into it is the rest of the string.  Messages on standard error and the
    layout of the usage text are left out. *)
From Stdlib Require Import Ascii String.
From S2P Require Import Prelude CxxStd.
Local Open Scope list_scope.
Local Open Scope nat_scope.

(** ** Data *)

Inductive ArgStatus := ARG_NONE | ARG_OK | ARG_IGNORE | ARG_ILLEGAL.

(** What the functions that check an argument look at: the name of an option with
    what follows it in the same word, and the argument. *)
Record Option := mkOption { desc : option nat; name : option string; arg : option string; namelen : nat }.

(** An entry of [usage]; [type] is not used, and [help] (null or a text) by the usage
    text only. *)
Record Descriptor := mkDesc {
  index : nat; shortopt : string; longopt : string; check_arg : Option -> ArgStatus; help : option string }.

(** The number of characters before the first ['='] or the end. *)
Fixpoint name_end (s : string) : nat :=
  match s with
  | EmptyString => 0
  | String c s => if Ascii.eqb c "=" then 0 else S (name_end s)
  end.

(** [Option::init]; the entry is given by its place in [usage]. *)
Definition init_option (d : option nat) (n a : option string) : Option :=
  mkOption d n a
    (match n with
     | None => 0
     | Some (String "-" rest) => S (name_end rest)
     | Some _ => 1
     end).

Definition null_option : Option := mkOption None None None 0.

(** *** The functions that check arguments *)

Definition Arg_None (o : Option) : ArgStatus := ARG_NONE.
Definition Arg_Optional (o : Option) : ArgStatus :=
  match arg o, name o with
  | Some _, Some n => if String.length n <=? namelen o then ARG_IGNORE else ARG_OK
  | _, _ => ARG_IGNORE
  end.
Definition Arg_Unknown (o : Option) : ArgStatus := ARG_ILLEGAL.
Definition Arg_Required (o : Option) : ArgStatus :=
  match arg o with Some _ => ARG_OK | None => ARG_ILLEGAL end.
Definition Arg_NonEmpty (o : Option) : ArgStatus :=
  match arg o with Some (String _ _) => ARG_OK | _ => ARG_ILLEGAL end.

(** What [strtol] leaves behind a number in base 10. *)
Fixpoint skip_digits (s : string) : string :=
  match s with
  | String c rest => match base_digit 10 c with Some _ => skip_digits rest | None => s end
  | EmptyString => EmptyString
  end.

(** Without an argument [endptr] and the argument are both null; without a number
    [endptr] is the argument itself. *)
Definition Arg_Numeric (o : Option) : ArgStatus :=
  match arg o with
  | None => ARG_ILLEGAL
  | Some a =>
      let digits := snd (scan_sign (skip_space a)) in
      match scan_digits 10 0 false digits with
      | Some _ => match skip_digits digits with EmptyString => ARG_OK | _ => ARG_ILLEGAL end
      | None => ARG_ILLEGAL
      end
  end.

(** ** Lists of options

    The elements of the array of options and of the buffer.  The low bit of a
    pointer marks the link from the last element of a list to the first one and
    back. *)
Inductive place := in_options (i : nat) | in_buffer (k : nat).
#[export] Instance place_eq : EqDecision place.
Proof. solve_decision. Defined.

Definition link : Type := bool * place.
Definition tag (p : place) : link := (true, p).
Definition untag (l : link) : place := snd l.
Definition isTagged (l : link) : bool := fst l.

Record node := mkNode { next_ : link; prev_ : link; value : Option }.

Record store := mkStore { options : list node; buffer : list node }.

Definition fresh_node (o : Option) (p : place) : node := mkNode (tag p) (tag p) o.
Definition fresh_store (nopt nbuf : nat) : store :=
  mkStore (map (fun i => fresh_node null_option (in_options i)) (seq 0 nopt))
          (map (fun k => fresh_node null_option (in_buffer k)) (seq 0 nbuf)).

Definition node_at (s : store) (p : place) : option node :=
  match p with in_options i => options s !! i | in_buffer k => buffer s !! k end.
Definition set_node (p : place) (n : node) (s : store) : store :=
  match p with
  | in_options i => mkStore (<[i := n]> (options s)) (buffer s)
  | in_buffer k => mkStore (options s) (<[k := n]> (buffer s))
  end.

Definition get_node (s : store) (p : place) : exn + node :=
  match node_at s p with Some n => inr n | None => inl (undefined "no such option") end.

(** [operator Option*]: whether the element is used. *)
Definition used (n : node) : bool := match desc (value n) with Some _ => true | None => false end.

Definition isFirst (n : node) : bool := isTagged (prev_ n).
Definition isLast (n : node) : bool := isTagged (next_ n).

(** [this->first()], along the elements before it. *)
Fixpoint first (fuel : nat) (s : store) (p : place) : exn + place :=
  match fuel with
  | O => inl out_of_fuel
  | S fuel =>
      match get_node s p with
      | inl e => inl e
      | inr n => if isFirst n then inr p else first fuel s (untag (prev_ n))
      end
  end.

Definition last_of (fuel : nat) (s : store) (p : place) : exn + place :=
  match first fuel s p with
  | inl e => inl e
  | inr f => match get_node s f with inl e => inl e | inr n => inr (untag (prev_ n)) end
  end.

(** [next()], [nextwrap()], [prev()], [prevwrap()] of an element. *)
Definition next (n : node) : option place := if isLast n then None else Some (untag (next_ n)).
Definition nextwrap (n : node) : place := untag (next_ n).
Definition prev (n : node) : option place := if isFirst n then None else Some (untag (prev_ n)).
Definition prevwrap (n : node) : place := untag (prev_ n).

Fixpoint count_from (fuel : nat) (s : store) (p : place) (c : nat) : exn + nat :=
  match fuel with
  | O => inl out_of_fuel
  | S fuel =>
      match get_node s p with
      | inl e => inl e
      | inr n => if isLast n then inr c else count_from fuel s (untag (next_ n)) (S c)
      end
  end.

Definition count (fuel : nat) (s : store) (p : place) : exn + nat :=
  match get_node s p, first fuel s p with
  | inl e, _ | _, inl e => inl e
  | inr n, inr f => count_from fuel s f (if used n then 1 else 0)
  end.

(** [p->append(new_last)]; the number of elements of the store is enough fuel. *)
Definition store_size (s : store) : nat := length (options s) + length (buffer s).

Definition set_next (p : place) (l : link) (s : store) : exn + store :=
  match get_node s p with inl e => inl e | inr n => inr (set_node p (mkNode l (prev_ n) (value n)) s) end.
Definition set_prev (p : place) (l : link) (s : store) : exn + store :=
  match get_node s p with inl e => inl e | inr n => inr (set_node p (mkNode (next_ n) l (value n)) s) end.

Local Notation "'let*' x := c 'in' k" := (match c with inl e => inl e | inr x => k end)
  (at level 200, x name, k at level 200).

Definition append (p new_last : place) (s : store) : exn + store :=
  let* l := last_of (S (store_size s)) s p in
  let* f := first (S (store_size s)) s p in
  let* s := set_next l (false, new_last) s in
  let* s := set_prev new_last (false, l) s in
  let* s := set_next new_last (tag f) s in
  set_prev f (tag new_last) s.

(** The options of a list, as the loops over [next()] see them. *)
Fixpoint chain_from (fuel : nat) (s : store) (p : place) : exn + list Option :=
  match fuel with
  | O => inl out_of_fuel
  | S fuel =>
      let* n := get_node s p in
      match next n with
      | None => inr [value n]
      | Some q => let* l := chain_from fuel s q in inr (value n :: l)
      end
  end.

Definition chain (s : store) (i : nat) : exn + list Option :=
  let* n := get_node s (in_options i) in
  if used n then chain_from (S (store_size s)) s (in_options i) else inr [].

(** ** Strings *)

(** [st1] is the name of an option, [st2] may go on behind it with ['=']. *)
Definition at_end (s : string) : bool := match s with EmptyString => true | String c _ => Ascii.eqb c "=" end.

Fixpoint streq (st1 st2 : string) : bool :=
  match st1 with
  | EmptyString => at_end st2
  | String c1 r1 => match st2 with String c2 r2 => Ascii.eqb c1 c2 && streq r1 r2 | EmptyString => false end
  end.

(** At least [min] characters are the same; [n] of them were so far. *)
Fixpoint streqabbr_from (n : Z) (st1 st2 : string) (min : Z) : bool :=
  match st1, st2 with
  | String c1 r1, String c2 r2 =>
      if Ascii.eqb c1 c2 then streqabbr_from (n + 1) r1 r2 min
      else ((0 <? min) && (min <=? n) && at_end st2)%Z
  | EmptyString, _ => at_end st2
  | _, EmptyString => ((0 <? min) && (min <=? n))%Z
  end.
Definition streqabbr (st1 st2 : string) (min : Z) : bool := streqabbr_from 0 st1 st2 min.

Fixpoint instr (ch : ascii) (st : string) : bool :=
  match st with EmptyString => false | String c st => Ascii.eqb c ch || instr ch st end.

(** The first entry of [usage] from [i] on that satisfies [p]. *)
Fixpoint find_entry (p : Descriptor -> bool) (i : nat) (usage : list Descriptor) : option nat :=
  match usage with [] => None | d :: usage => if p d then Some i else find_entry p (S i) usage end.

Definition is_empty (s : string) : bool := match s with EmptyString => true | _ => false end.

(** ** The words *)

(** The array of the words, the place [args] points to, [numargs] (negative when it
    is not known), and the words before that place that are no options. *)
Record scan := mkScan { words : list string; at_ : nat; numargs : Z; nonops : nat }.

(** [shift(args, count)]: the word at [args] goes before the [count] words in front
    of it. *)
Definition shift (l : list string) (i count : nat) : list string :=
  match l !! i with
  | Some w => take (i - count) l ++ w :: take count (drop (i - count) l) ++ drop (S i) l
  | None => l
  end.

Definition minus1 (n : Z) : Z := (if 0 <? n then n - 1 else n)%Z.

(** [shift(args, nonops); ++args; --numargs]. *)
Definition take_word (s : scan) : scan :=
  mkScan (shift (words s) (at_ s) (nonops s)) (S (at_ s)) (minus1 (numargs s)) (nonops s).

Definition next_arg (s : scan) (have_more_args : bool) : option string :=
  if have_more_args then words s !! S (at_ s) else None.

(** An argument and whether it is the next word. *)
Definition attached (a : string) : option string * bool := (Some a, false).
Definition detached (s : scan) (have_more_args : bool) : option string * bool :=
  let a := next_arg s have_more_args in (a, match a with Some _ => true | None => false end).

(** What follows the name of a long option. *)
Fixpoint after_equals (s : string) : option string :=
  match s with
  | EmptyString => None
  | String c s => if Ascii.eqb c "=" then Some s else after_equals s
  end.

Section Workhorse.
Context (gnu single_minus_longopt : bool) (usage : list Descriptor) (min_abbr_len : Z).

(** The entry of a long option. *)
Definition find_longopt (longopt_name : string) : option nat :=
  match find_entry (fun d => streq (longopt d) longopt_name) 0 usage with
  | Some i => Some i
  | None =>
      if (0 <? min_abbr_len)%Z then
        match find_entry (fun d => streqabbr (longopt d) longopt_name min_abbr_len) 0 usage with
        | None => None
        | Some i1 =>
            match find_entry (fun d => streqabbr (longopt d) longopt_name min_abbr_len) (S i1) (drop (S i1) usage) with
            | None => Some i1
            | Some _ => None
            end
        end
      else None
  end.

Definition find_shortopt (c : ascii) : option nat := find_entry (fun d => instr c (shortopt d)) 0 usage.

(** The entry for unknown options. *)
Definition unknown_entry : option nat := find_entry (fun d => is_empty (shortopt d) && is_empty (longopt d)) 0 usage.

(** What is done with the options, on a state of type [A]; [false] ends the run. *)
Context {A : Type} (perform : Option -> A -> exn + (bool * A)).

(** An option was recognised or not: whether the run goes on, whether the letters
    of the word go on, and the states. *)
Definition handle (entry : option nat) (param : string) (optarg : option string * bool) (s : scan) (a : A) :
    exn + (bool * bool * scan * A) :=
  match match entry with Some i => Some i | None => unknown_entry end with
  | None => inr (true, true, s, a)
  | Some i =>
      match usage !! i with
      | None => inl (undefined "no such entry")
      | Some d =>
          let o := init_option (Some i) (Some param) (fst optarg) in
          match check_arg d o with
          | ARG_ILLEGAL => inr (false, false, s, a)
          | ARG_OK =>
              let s := if snd optarg then take_word s else s in
              match perform o a with
              | inl e => inl e
              | inr (ok, a) => inr (ok, false, s, a)
              end
          | ARG_IGNORE | ARG_NONE =>
              match perform (mkOption (desc o) (name o) None (namelen o)) a with
              | inl e => inl e
              | inr (ok, a) => inr (ok, true, s, a)
              end
          end
      end
  end.

(** The letters of a word. *)
Fixpoint letters (have_more_args : bool) (param : string) (s : scan) (a : A) : exn + (bool * scan * A) :=
  match param with
  | EmptyString => inr (true, s, a)
  | String c rest =>
      let optarg := match rest with EmptyString => detached s have_more_args | _ => attached rest end in
      match handle (find_shortopt c) param optarg s a with
      | inl e => inl e
      | inr (false, _, s, a) => inr (false, s, a)
      | inr (true, false, s, a) => inr (true, s, a)
      | inr (true, true, s, a) => letters have_more_args rest s a
      end
  end.

(** A long option; [param] is the whole word. *)
Definition long_option (have_more_args : bool) (param longopt_name : string) (entry : option nat) (s : scan) (a : A) :
    exn + (bool * scan * A) :=
  let optarg :=
    match after_equals longopt_name with Some v => attached v | None => detached s have_more_args end in
  match handle entry param optarg s a with
  | inl e => inl e
  | inr (ok, _, s, a) => inr (ok, s, a)
  end.

(** A word that is an option: [param] without its dash. *)
Definition option_word (word rest : string) (s : scan) (a : A) : exn + (bool * scan * A) :=
  let have_more_args := ((1 <? numargs s) || (numargs s <? 0))%Z in
  match rest with
  | String "-" longopt_name => long_option have_more_args word longopt_name (find_longopt longopt_name) s a
  | _ =>
      if single_minus_longopt then
        match find_longopt rest with
        | Some i => long_option have_more_args word rest (Some i) s a
        | None => letters have_more_args rest s a
        end
      else letters have_more_args rest s a
  end.

(** The loop over the words: whether it came to the end. *)
Fixpoint workhorse_loop (fuel : nat) (s : scan) (a : A) : exn + (bool * scan * A) :=
  match fuel with
  | O => inl out_of_fuel
  | S fuel =>
      if (numargs s =? 0)%Z then inr (true, s, a) else
      match words s !! at_ s with
      | None => inr (true, s, a)
      | Some "--"%string => inr (true, take_word s, a)
      | Some (String "-" ((String _ _) as rest) as word) =>
          match option_word word rest s a with
          | inl e => inl e
          | inr (false, s, a) => inr (false, s, a)
          | inr (true, s, a) => workhorse_loop fuel (take_word s) a
          end
      | Some _ =>
          if gnu then workhorse_loop fuel (mkScan (words s) (S (at_ s)) (minus1 (numargs s)) (S (nonops s))) a
          else inr (true, s, a)
      end
  end.

(** What [finished] gets: the number of the words that are no options, and the
    place of the first. *)
Definition rest_of (s : scan) : Z * nat :=
  let n :=
    match words s !! at_ s with
    | None => if (0 <? numargs s)%Z then 0%Z else numargs s
    | Some _ => numargs s
    end in
  let n := if (n <? 0)%Z then Z.of_nat (length (drop (at_ s) (words s))) else n in
  ((n + Z.of_nat (nonops s))%Z, at_ s - nonops s).

(** The loop and the words it leaves; when it is ended early, [finished] is not
    called. *)
Definition workhorse (argc : Z) (argv : list string) (a : A) : exn + (option (Z * nat) * list string * A) :=
  match workhorse_loop (S (length argv)) (mkScan argv 0 argc 0) a with
  | inl e => inl e
  | inr (ok, s, a) => inr (if ok : bool then Some (rest_of s) else None, words s, a)
  end.
End Workhorse.

(** ** Stats *)

Record Stats := mkStats { buffer_max : Z; options_max : Z }.
Definition stats0 : Stats := mkStats 1 1.

Definition count_option (o : Option) (n : Z) : exn + (bool * Z) :=
  if (n =? 2 ^ 31 - 1)%Z then inr (false, n) else inr (true, u32 (n + 1)).

(** The sizes and the words, which may have been permuted. *)
Definition stats_add (gnu : bool) (usage : list Descriptor) (argc : Z) (argv : list string) (min_abbr_len : Z)
    (single_minus_longopt : bool) (s : Stats) : exn + (Stats * list string) :=
  let m := foldl (fun m d =>
    let i := u32 (Z.of_nat (index d) + 1) in if (m <=? i)%Z then u32 (i + 1) else m) (options_max s) usage in
  match workhorse gnu single_minus_longopt usage min_abbr_len count_option argc argv (buffer_max s) with
  | inl e => inl e
  | inr (_, argv, n) => inr (mkStats n m, argv)
  end.

(** ** Parser *)

Record Parser := mkParser { op_count : nat; nonop_count : Z; nonop_args : option nat; err : bool }.
Definition parser0 : Parser := mkParser 0 0 None false.

(** The elements of the buffer that are in use already. *)
Fixpoint used_count (bufmax : Z) (k : nat) (l : list node) : exn + nat :=
  if ((0 <=? bufmax) && (bufmax <=? Z.of_nat k))%Z then inr k else
  match l with
  | [] => inl (undefined "read behind the buffer")
  | n :: l => if used n then used_count bufmax (S k) l else inr k
  end.

(** [StoreOptionAction]; [options[idx] = buffer[n]] makes a list of its own. *)
Definition store_option (usage : list Descriptor) (bufmax : Z) (o : Option) (st : nat * store) :
    exn + (bool * (nat * store)) :=
  let '(n, s) := st in
  if ((bufmax <? 0) || (Z.of_nat n <? bufmax))%Z then
    if (Z.of_nat n =? 2 ^ 31 - 1)%Z then inr (false, st) else
    let* _ := get_node s (in_buffer n) in
    let o := init_option (desc o) (name o) (arg o) in
    let s := set_node (in_buffer n) (fresh_node o (in_buffer n)) s in
    match desc o with
    | None => inl (undefined "index of no descriptor")
    | Some d =>
        match usage !! d with
        | None => inl (undefined "no such entry")
        | Some d =>
            let* target := get_node s (in_options (index d)) in
            if used target then
              let* s := append (in_options (index d)) (in_buffer n) s in
              inr (true, (S n, s))
            else
              inr (true, (S n, set_node (in_options (index d)) (fresh_node o (in_options (index d))) s))
        end
    end
  else inr (true, st).

(** [Parser::parse]: the parser, the lists of options and the words. *)
Definition parse (gnu : bool) (usage : list Descriptor) (argc : Z) (argv : list string) (min_abbr_len : Z)
    (single_minus_longopt : bool) (bufmax : Z) (p : Parser) (s : store) : exn + (Parser * store * list string) :=
  let* n := used_count bufmax 0 (buffer s) in
  match workhorse gnu single_minus_longopt usage min_abbr_len (store_option usage bufmax) argc argv (n, s) with
  | inl e => inl e
  | inr (None, argv, (n, s)) => inr (mkParser n (nonop_count p) (nonop_args p) true, s, argv)
  | inr (Some (numargs, args), argv, (n, s)) =>
      inr (if (0 <? numargs)%Z then mkParser n numargs (Some args) false
           else mkParser n (nonop_count p) (nonop_args p) false, s, argv)
  end.

(** What both programs do with their words: arrays of the sizes that Stats
    computes, and the parser with its default arguments. *)
Definition parse_words (usage : list Descriptor) (argv : list string) : exn + (Parser * store * list string) :=
  match stats_add false usage (Z.of_nat (length argv)) argv 0 false stats0 with
  | inl e => inl e
  | inr (stats, argv) =>
      parse false usage (Z.of_nat (length argv)) argv 0 false (-1) parser0
        (fresh_store (Z.to_nat (options_max stats)) (Z.to_nat (buffer_max stats)))
  end.

Definition nonOptions (p : Parser) (argv : list string) : list string :=
  match nonop_args p with Some i => take (Z.to_nat (nonop_count p)) (drop i argv) | None => [] end.
