(* ===== verification/UsageText.v ===== *)
(** * The usage text of the option parser

    [printUsage] of src/hypothesizer/optionparser.h (and of the copy in
    src/coverage/sfctool): the help texts of the entries are split into tables, rows
    and parts of columns, which are printed below each other, and what is too long
    for the last column is wrapped.  A text is a list of characters, a pointer into
    it is the rest of the list, and the output is the list of what was written.
    Widths and lengths are taken to be smaller than an [int] can hold. *)
From Stdlib Require Import Ascii String.
From S2P Require Import Prelude CxxStd OptionParser.
Local Open Scope list_scope.
Local Open Scope Z_scope.

Abbreviation text := (list ascii).
Definition NL : ascii := "010".
Definition TAB : ascii := "009".
Definition VT : ascii := "011".
Definition SPACE : ascii := " ".

(** ** Characters *)

Definition isWideChar (ch : Z) : bool :=
  if ch =? 0x303F then false else
  ((0x1100 <=? ch) && (ch <=? 0x115F)) || ((0x2329 <=? ch) && (ch <=? 0x232A)) || ((0x2E80 <=? ch) && (ch <=? 0xA4C6))
  || ((0xA960 <=? ch) && (ch <=? 0xA97C)) || ((0xAC00 <=? ch) && (ch <=? 0xD7FB)) || ((0xF900 <=? ch) && (ch <=? 0xFAFF))
  || ((0xFE10 <=? ch) && (ch <=? 0xFE6B)) || ((0xFF01 <=? ch) && (ch <=? 0xFF60)) || ((0xFFE0 <=? ch) && (ch <=? 0xFFE6))
  || (0x1B000 <=? ch).

Definition byte (c : ascii) : Z := Z.of_nat (nat_of_ascii c).

(** The continuation bytes at the start of a text: the character code they make,
    and their number. *)
Fixpoint continuation (ch : Z) (s : text) : Z * nat :=
  match s with
  | c :: s =>
      if Z.lxor (byte c) 0x80 <=? 0x3F then
        let '(ch, n) := continuation (Z.lxor (Z.lxor (u32 (Z.shiftl ch 6)) (byte c)) 0x80) s in (ch, S n)
      else (ch, O)
  | [] => (ch, O)
  end.

(** The character at the start of a text: the number of its bytes and whether it is
    wide.  [__builtin_clz] of 0 is undefined. *)
Definition next_char (s : text) : exn + (nat * bool) :=
  match s with
  | [] => inl (undefined "no character")
  | c :: s =>
      let ch := byte c in
      if 0xC1 <? ch then
        let rest := Z.lxor ch 0xFF in
        if rest =? 0 then inl (undefined "__builtin_clz(0)") else
        let mask := Z.shiftr (2 ^ 32 - 1) (31 - Z.log2 rest) in
        let '(ch, n) := continuation (Z.land ch mask) s in
        inr (S n, (0x1100 <=? ch) && isWideChar ch)
      else inr (1%nat, false)
  end.

(** ** Tables, rows and parts *)

Record LinePartIterator := mkPart {
  tablestart : nat; rowdesc : option nat; rowstart : option text; ptr : option text;
  col : Z; len : nat; screenlen : Z;
  max_line_in_block : Z; line_in_block : Z; target_line_in_block : Z; hit_target_line : bool }.

Definition ends_part (c : ascii) : bool :=
  Ascii.eqb c VT || Ascii.eqb c TAB || Ascii.eqb c NL.

(** The bytes and the columns of the part at the start of a text. *)
Fixpoint part_length (fuel : nat) (s : text) : exn + (nat * Z) :=
  match s with
  | [] => inr (O, 0)
  | c :: _ =>
      if ends_part c then inr (O, 0) else
      match fuel with
      | O => inl out_of_fuel
      | S fuel =>
          match next_char s with
          | inl e => inl e
          | inr (n, wide) =>
              match part_length fuel (drop n s) with
              | inl e => inl e
              | inr (l, w) => inr ((n + l)%nat, w + (if wide : bool then 2 else 1))
              end
          end
      end
  end.

Definition update_length (p : text) (it : LinePartIterator) : exn + LinePartIterator :=
  match part_length (length p) p with
  | inl e => inl e
  | inr (l, w) =>
      inr (mkPart (tablestart it) (rowdesc it) (rowstart it) (Some p) (col it) l w
             (max_line_in_block it) (line_in_block it) (target_line_in_block it) (hit_target_line it))
  end.

Section Iterator.
Context (usage : list Descriptor).

(** [usage[i].help]; the entry behind the last one has null pointers. *)
Definition help_at (i : nat) : option text := d ← usage !! i; list_ascii_of_string <$> help d.

Definition new_iterator : LinePartIterator := mkPart 0 None None None (-1) 0 0 0 0 0 true.

(** The number of leading entries with or without a help text. *)
Fixpoint skip_entries (with_help : bool) (l : list Descriptor) : nat :=
  match l with
  | d :: l => if bool_decide (is_Some (help d)) then (if with_help then S (skip_entries with_help l) else 0)%nat
              else (if with_help then 0 else S (skip_entries with_help l))%nat
  | [] => O
  end.

Definition restartTable (it : LinePartIterator) : LinePartIterator :=
  mkPart (tablestart it) (Some (tablestart it)) (help_at (tablestart it)) None (col it) (len it) (screenlen it)
    (max_line_in_block it) (line_in_block it) (target_line_in_block it) (hit_target_line it).

Definition nextTable (it : LinePartIterator) : bool * LinePartIterator :=
  let t := tablestart it in
  let t := match rowdesc it with Some _ => (t + skip_entries true (drop t usage))%nat | None => t end in
  let t := (t + skip_entries false (drop t usage))%nat in
  let it := restartTable (mkPart t (rowdesc it) (rowstart it) (ptr it) (col it) (len it) (screenlen it)
    (max_line_in_block it) (line_in_block it) (target_line_in_block it) (hit_target_line it)) in
  (match rowstart it with Some _ => true | None => false end, it).

Definition restartRow (it : LinePartIterator) : LinePartIterator :=
  mkPart (tablestart it) (rowdesc it) (rowstart it) (rowstart it) (-1) 0 0 0 0 0 true.

(** The text behind the row, with its line break. *)
Fixpoint row_end (s : text) : text :=
  match s with [] => [] | c :: s' => if Ascii.eqb c NL then s else row_end s' end.

Definition with_row (d : option nat) (r : option text) (it : LinePartIterator) : LinePartIterator :=
  mkPart (tablestart it) d r (ptr it) (col it) (len it) (screenlen it)
    (max_line_in_block it) (line_in_block it) (target_line_in_block it) (hit_target_line it).

Definition nextRow (it : LinePartIterator) : exn + (bool * LinePartIterator) :=
  match ptr it with
  | None => inr (match rowstart it with Some _ => true | None => false end, restartRow it)
  | Some p =>
      match row_end p with
      | _ :: p => inr (true, restartRow (with_row (rowdesc it) (Some p) it))
      | [] =>
          match rowdesc it with
          | None => inl (undefined "no row")
          | Some d =>
              match help_at (S d) with
              | None => inr (false, mkPart (tablestart it) (rowdesc it) (rowstart it) (Some []) (col it) (len it) (screenlen it)
                  (max_line_in_block it) (line_in_block it) (target_line_in_block it) (hit_target_line it))
              | Some h => inr (true, restartRow (with_row (Some (S d)) (Some h) it))
              end
          end
      end
  end.

(** A part that was found at [p], empty when the column has none on this line. *)
Definition found_part (p : text) (it : LinePartIterator) : exn + (bool * LinePartIterator) :=
  match update_length p it with
  | inl e => inl e
  | inr it => inr (true, mkPart (tablestart it) (rowdesc it) (rowstart it) (ptr it) (col it) (len it) (screenlen it)
      (max_line_in_block it) (line_in_block it) (target_line_in_block it) true)
  end.

Definition at_line (c line : Z) (max : Z) (target : Z) (hit : bool) (it : LinePartIterator) : LinePartIterator :=
  mkPart (tablestart it) (rowdesc it) (rowstart it) (ptr it) c (len it) (screenlen it) max line target hit.

(** The loop of [next] from the place [p] on. *)
Fixpoint next_loop (fuel : nat) (p : text) (it : LinePartIterator) : exn + (bool * LinePartIterator) :=
  match fuel with
  | O => inl out_of_fuel
  | S fuel =>
      let check p it :=
        if line_in_block it =? target_line_in_block it then found_part p it else next_loop fuel p it in
      let end_of_row :=
        if negb (hit_target_line it) then found_part p it else
        let target := target_line_in_block it + 1 in
        if max_line_in_block it <? target then
          match update_length p (at_line (col it) (line_in_block it) (max_line_in_block it) target true it) with
          | inl e => inl e
          | inr it => inr (false, it)
          end
        else
          match rowstart it with
          | None => inl (undefined "no row")
          | Some r => next_loop fuel r (at_line 0 0 (max_line_in_block it) target false it)
          end in
      match p with
      | [] => end_of_row
      | c :: p' =>
          if Ascii.eqb c VT then
            let line := line_in_block it + 1 in
            check p' (at_line (col it) line (Z.max (max_line_in_block it) line) (target_line_in_block it) (hit_target_line it) it)
          else if Ascii.eqb c TAB then
            if negb (hit_target_line it) then found_part p it else
            check p' (at_line (col it + 1) 0 (max_line_in_block it) (target_line_in_block it) false it)
          else if Ascii.eqb c NL then end_of_row
          else next_loop fuel p' it
      end
  end.

Definition next (it : LinePartIterator) : exn + (bool * LinePartIterator) :=
  match ptr it with
  | None => inr (false, it)
  | Some p =>
      if col it =? -1 then
        match update_length p (at_line 0 (line_in_block it) (max_line_in_block it) (target_line_in_block it)
                                 (hit_target_line it) it) with
        | inl e => inl e
        | inr it => inr (true, it)
        end
      else
        let p := drop (len it) p in
        next_loop (S (S (length p + length (default [] (rowstart it))))) p it
  end.
End Iterator.

(** ** Wrapped columns *)

Definition indent (x want_x : Z) : text * Z :=
  let i := want_x - x in
  let '(nl, i) := if i <? 0 then ([NL], want_x) else ([], i) in
  if 0 <? i then (nl ++ replicate (Z.to_nat i) SPACE, want_x) else (nl, x).

(** The ring buffer holds the pieces that are still to be written. *)
Definition bufmask : nat := 15.
Record LineWrapper := mkWrap {
  buf : list (option text); wr_x : Z; wr_width : Z; buf_head : nat; buf_tail : nat; wrote_something : bool }.

Definition new_wrapper (x1 x2 : Z) : LineWrapper :=
  mkWrap (replicate (S bufmask) None) x1 (Z.max 2 (x2 - x1)) 0 bufmask false.

Definition buf_empty (w : LineWrapper) : bool := (Nat.land (S (buf_tail w)) bufmask =? buf_head w)%nat.
Definition buf_full (w : LineWrapper) : bool := (buf_tail w =? buf_head w)%nat.
Definition buf_store (d : text) (w : LineWrapper) : LineWrapper :=
  mkWrap (<[buf_head w := Some d]> (buf w)) (wr_x w) (wr_width w) (Nat.land (S (buf_head w)) bufmask) (buf_tail w)
    (wrote_something w).
Definition set_wrote (b : bool) (w : LineWrapper) : LineWrapper :=
  mkWrap (buf w) (wr_x w) (wr_width w) (buf_head w) (buf_tail w) b.

(** The wrapper afterwards and what is written. *)
Definition write_one_line (w : LineWrapper) : exn + (LineWrapper * text) :=
  let start := if wrote_something w then NL :: fst (indent 0 (wr_x w)) else [] in
  if buf_empty w then inr (set_wrote true w, start) else
  let t := Nat.land (S (buf_tail w)) bufmask in
  match buf w !! t with
  | Some (Some d) => inr (mkWrap (buf w) (wr_x w) (wr_width w) (buf_head w) t true, start ++ d)
  | _ => inl (undefined "an element of the buffer that was never written")
  end.

Definition output (d : text) (w : LineWrapper) : exn + (LineWrapper * text) :=
  if buf_full w then
    match write_one_line w with inl e => inl e | inr (w, t) => inr (buf_store d w, t) end
  else inr (buf_store d w, []).

(** The bytes of the characters that fit, from [maxi] on. *)
Fixpoint fit (fuel : nat) (width utf8width : Z) (maxi : nat) (data : text) : exn + nat :=
  match drop maxi data with
  | [] => inr maxi
  | _ =>
      if width <=? utf8width then inr maxi else
      match fuel with
      | O => inl out_of_fuel
      | S fuel =>
          match next_char (drop maxi data) with
          | inl e => inl e
          | inr (n, wide) =>
              if (wide : bool) && (width <? utf8width + 2) then inr maxi
              else fit fuel width (utf8width + (if wide then 2 else 1)) (maxi + n) data
          end
      end
  end.

(** The last space at [i] or before. *)
Fixpoint last_space (data : text) (i : nat) : option nat :=
  if bool_decide (data !! i = Some SPACE) then Some i
  else match i with O => None | S j => last_space data j end.

(** The next line of a text, and what is left of the text. *)
Definition split_line (width : Z) (data : text) : exn + (text * text) :=
  if Z.of_nat (length data) <=? width then inr (data, []) else
  match fit (length data) width 0 0 data with
  | inl e => inl e
  | inr maxi =>
      if (maxi =? length data)%nat then inr (data, []) else
      match last_space data maxi with
      | Some i => inr (take i data, drop (S i) data)
      | None => inr (take maxi data, drop maxi data)
      end
  end.

Fixpoint process_loop (fuel : nat) (data : text) (w : LineWrapper) : exn + (LineWrapper * text) :=
  match data with
  | [] => inr (w, [])
  | _ =>
      match fuel with
      | O => inl out_of_fuel
      | S fuel =>
          match split_line (wr_width w) data with
          | inl e => inl e
          | inr (d, data) =>
              match output d w with
              | inl e => inl e
              | inr (w, t1) =>
                  match process_loop fuel data w with inl e => inl e | inr (w, t2) => inr (w, t1 ++ t2) end
              end
          end
      end
  end.

Definition process (data : text) (w : LineWrapper) : exn + (LineWrapper * text) :=
  match process_loop (length data) data (set_wrote false w) with
  | inl e => inl e
  | inr (w, t) =>
      if wrote_something w then inr (w, t) else
      match write_one_line w with inl e => inl e | inr (w, t2) => inr (w, t ++ t2) end
  end.

Fixpoint write_lines (fuel : nat) (w : LineWrapper) : exn + (LineWrapper * text) :=
  if buf_empty w then inr (w, []) else
  match fuel with
  | O => inl out_of_fuel
  | S fuel =>
      match write_one_line w with
      | inl e => inl e
      | inr (w, t1) => match write_lines fuel w with inl e => inl e | inr (w, t2) => inr (w, t1 ++ t2) end
      end
  end.

Definition flush (w : LineWrapper) : exn + (LineWrapper * text) :=
  if buf_empty w then inr (w, []) else
  match write_lines (S bufmask) (set_wrote false w) with
  | inl e => inl e
  | inr (w, t) => inr (w, fst (indent 0 (wr_x w)) ++ t ++ [NL])
  end.

(** ** The widths of the columns *)

Definition maxcolumns : nat := 8.

(** The part is followed by another one in its row, or is not in the first line of
    the first column: interjections do not count for the layout. *)
Definition in_table (it : LinePartIterator) : bool :=
  (0 <? col it) || (0 <? target_line_in_block it) ||
  match drop (len it) (default [] (ptr it)) with c :: _ => Ascii.eqb c TAB || Ascii.eqb c VT | [] => false end.

Definition column (it : LinePartIterator) : nat := Z.to_nat (col it).

(** The greatest column and the widths. *)
Definition layout : Type := nat * list Z.

Definition measure_part (threshold : Z) (it : LinePartIterator) (l : layout) : layout :=
  let '(lastcolumn, col_width) := l in
  if (column it <? maxcolumns)%nat then
    (Nat.max lastcolumn (column it),
     if (screenlen it <? threshold) && in_table it
     then <[column it := Z.max (default 0 (col_width !! column it)) (screenlen it)]> col_width else col_width)
  else l.

(** Loops over the parts of a row, and over the rows of a table. *)
Definition parts_fuel (it : LinePartIterator) : nat :=
  let n := length (default [] (rowstart it)) in S (S (S n) * (2 * n + 4)).

Fixpoint for_parts {A} (fuel : nat) (f : LinePartIterator -> A -> exn + A) (it : LinePartIterator) (a : A) :
    exn + (LinePartIterator * A) :=
  match fuel with
  | O => inl out_of_fuel
  | S fuel =>
      match next it with
      | inl e => inl e
      | inr (false, it) => inr (it, a)
      | inr (true, it) => match f it a with inl e => inl e | inr a => for_parts fuel f it a end
      end
  end.

Section Print.
Context (usage : list Descriptor).

(** The number of characters of all help texts, with one more for each. *)
Definition rows_fuel : nat := S (sum_list ((fun d => S (String.length (default EmptyString (help d)))) <$> usage)).

(** [f] gets the iterator on the row and leaves it somewhere in the row. *)
Fixpoint for_rows {A} (fuel : nat) (f : LinePartIterator -> A -> exn + (LinePartIterator * A))
    (it : LinePartIterator) (a : A) : exn + (LinePartIterator * A) :=
  match fuel with
  | O => inl out_of_fuel
  | S fuel =>
      match nextRow usage it with
      | inl e => inl e
      | inr (false, it) => inr (it, a)
      | inr (true, it) => match f it a with inl e => inl e | inr (it, a) => for_rows fuel f it a end
      end
  end.

Definition measure_table (threshold : Z) (it : LinePartIterator) : exn + (LinePartIterator * layout) :=
  for_rows (S rows_fuel) (fun it l => for_parts (parts_fuel it) (fun it l => inr (measure_part threshold it l)) it l)
    (restartTable usage it) (O, replicate maxcolumns 0).

(** The widths of the columns but the last one, summed up, and the widest. *)
Definition left_of (l : layout) : Z * Z :=
  let ws := take (fst l) (snd l) in (foldr Z.add 0 ws, foldr Z.max 0 ws).

(** Parts that are too wide are ignored until the columns fit. *)
Fixpoint find_widths (fuel : nat) (width threshold : Z) (it : LinePartIterator) : exn + (LinePartIterator * layout) :=
  match fuel with
  | O => inl out_of_fuel
  | S fuel =>
      match measure_table threshold it with
      | inl e => inl e
      | inr (it, l) =>
          let '(leftwidth, widest) := left_of l in
          if width <? leftwidth then find_widths fuel width widest it else inr (it, l)
      end
  end.

Definition overlong : Z := 10000.

(** ** The tables *)

Record columns := mkColumns {
  lastcolumn : nat; tabstop : list Z; cl_width : Z; rightwidth : Z; print_last_column_on_own_line : bool }.

Definition tabstops (col_width : list Z) : list Z :=
  (fun i => foldr Z.add 0 (take i col_width)) <$> seq 0 maxcolumns.

Definition place_columns (width last_column_min_width last_column_own_line_max_width : Z) (l : layout) : columns :=
  let '(last, col_width) := l in
  let stops := tabstops col_width in
  let rightwidth := width - default 0 (stops !! last) in
  let w := default 0 (col_width !! last) in
  let own := (rightwidth <? last_column_min_width) && ((w =? 0) || (rightwidth <? w)) in
  mkColumns last stops width (if own then last_column_own_line_max_width else rightwidth)
    (own && negb (last =? 0)%nat).

(** The cursor, the wrappers of the last column and of the interjections, and the
    output. *)
Record printer := mkPrinter { pr_x : Z; lastColumn : LineWrapper; interjection : LineWrapper; pr_out : text }.

Definition emit (t : text) (p : printer) : printer := mkPrinter (pr_x p) (lastColumn p) (interjection p) (pr_out p ++ t).

Definition wrap (in_last : bool) (d : text) (p : printer) : exn + printer :=
  match process d (if in_last then lastColumn p else interjection p) with
  | inl e => inl e
  | inr (w, t) =>
      inr (if in_last then mkPrinter (pr_x p) w (interjection p) (pr_out p ++ t)
           else mkPrinter (pr_x p) (lastColumn p) w (pr_out p ++ t))
  end.

Definition data (it : LinePartIterator) : text := take (len it) (default [] (ptr it)).

Definition print_part (c : columns) (it : LinePartIterator) (p : printer) : exn + printer :=
  if (lastcolumn c <? column it)%nat then inr p else
  let p := if (column it =? 0)%nat
           then mkPrinter 0 (lastColumn p) (interjection p) (pr_out p ++ (if 0 <=? pr_x p then [NL] else [])) else p in
  let '(t, x) := indent (pr_x p) (default 0 (tabstop c !! column it)) in
  let p := mkPrinter x (lastColumn p) (interjection p) (pr_out p ++ t) in
  if (column it <? lastcolumn c)%nat && in_table it then
    inr (mkPrinter (pr_x p + screenlen it) (lastColumn p) (interjection p) (pr_out p ++ data it))
  else if negb (print_last_column_on_own_line c) || negb (column it =? lastcolumn c)%nat then
    wrap (negb (column it =? 0)%nat) (data it) p
  else inr p.

Definition print_own_line (c : columns) (it : LinePartIterator) (p : printer) : exn + printer :=
  if (column it =? lastcolumn c)%nat then
    wrap true (data it) (emit (NL :: fst (indent 0 (cl_width c - rightwidth c))) p)
  else inr p.

Definition flush_both (p : printer) : exn + printer :=
  match flush (lastColumn p) with
  | inl e => inl e
  | inr (w1, t1) =>
      match flush (interjection p) with
      | inl e => inl e
      | inr (w2, t2) => inr (mkPrinter (pr_x p) w1 w2 (pr_out p ++ t1 ++ t2))
      end
  end.

Definition print_row (c : columns) (it : LinePartIterator) (p : printer) : exn + (LinePartIterator * printer) :=
  match for_parts (parts_fuel it) (print_part c) it (mkPrinter (-1) (lastColumn p) (interjection p) (pr_out p)) with
  | inl e => inl e
  | inr (it, p) =>
      match (if print_last_column_on_own_line c
             then for_parts (parts_fuel it) (print_own_line c) (restartRow it) p else inr (it, p)) with
      | inl e => inl e
      | inr (it, p) => match flush_both (emit [NL] p) with inl e => inl e | inr p => inr (it, p) end
      end
  end.

(** One table, after its widths have been found. *)
Definition print_table (c : columns) (it : LinePartIterator) (out : text) : exn + (LinePartIterator * text) :=
  match for_rows (S rows_fuel) (print_row c) (restartTable usage it)
          (mkPrinter 0 (new_wrapper (cl_width c - rightwidth c) (cl_width c)) (new_wrapper 0 (cl_width c)) out) with
  | inl e => inl e
  | inr (it, p) => inr (it, pr_out p)
  end.

Fixpoint print_tables (fuel : nat) (width min_width own_line_max_width : Z) (it : LinePartIterator) (out : text) :
    exn + text :=
  match fuel with
  | O => inl out_of_fuel
  | S fuel =>
      match nextTable usage it with
      | (false, _) => inr out
      | (true, it) =>
          match find_widths (S (Z.to_nat overlong)) width overlong it with
          | inl e => inl e
          | inr (it, l) =>
              match print_table (place_columns width min_width own_line_max_width l) it out with
              | inl e => inl e
              | inr (it, out) => print_tables fuel width min_width own_line_max_width it out
              end
          end
      end
  end.
End Print.

(** Division of C, which rounds to zero. *)
Definition printUsage (usage : list Descriptor) (width last_column_min_percent last_column_own_line_max_percent : Z) :
    exn + text :=
  let width := if width <? 1 then 80 else width in
  let width := if 10000 <? width then 10000 else width in
  let last_column_min_width := Z.quot (width * last_column_min_percent + 50) 100 in
  let own := Z.quot (width * last_column_own_line_max_percent + 50) 100 in
  let own := if own =? 0 then 1 else own in
  print_tables usage (S (length usage)) width last_column_min_width own new_iterator [].

(** The characters of help texts that a literal does not show. *)
Definition nl : string := String NL EmptyString.
Definition tab : string := String TAB EmptyString.
Definition quote : string := String "034" EmptyString.

(** What the programs print: lines of 80 columns, half of them for the last one. *)
Definition usage_text (usage : list Descriptor) : exn + string :=
  match printUsage usage 80 50 75 with inl e => inl e | inr t => inr (string_of_list_ascii t) end.

(** ** Characters and lines *)

(** A byte that cannot be told from an undefined case: no text has it. *)
Definition no_ff (s : text) : Prop := Forall (fun c => byte c <> 255) s.

Definition is_continuation (c : ascii) : bool := Z.lxor (byte c) 0x80 <=? 0x3F.

Lemma byte_range c : 0 <= byte c < 256.
Proof. unfold byte. pose proof (nat_ascii_bounded c). lia. Qed.

Lemma continuation_length s : forall ch, (snd (continuation ch s) <= length s)%nat.
Proof.
  induction s as [|c s IH]; intros ch; cbn [continuation length]; [done|].
  destruct (_ <=? _); [|cbn; lia]. specialize (IH (Z.lxor (Z.lxor (u32 (Z.shiftl ch 6)) (byte c)) 0x80)).
  destruct (continuation _ s) as [ch' n]. cbn [snd] in *. lia.
Qed.

(** What follows the character does not matter. *)
Lemma continuation_take s : forall ch k, (snd (continuation ch s) <= k)%nat -> continuation ch (take k s) = continuation ch s.
Proof.
  induction s as [|c s IH]; intros ch k; cbn [continuation]; [by rewrite take_nil|].
  destruct k as [|k]; cbn [take continuation]; destruct (_ <=? _); try done.
  - destruct (continuation _ s); cbn [snd]. lia.
  - destruct (continuation _ s) as [ch' n] eqn:E. cbn [snd]. intros Hn.
    rewrite IH; rewrite E; [done|cbn [snd]; lia].
Qed.

Lemma next_char_ok s : s <> [] -> no_ff s ->
  exists n wide, next_char s = inr (n, wide) /\ (1 <= n <= length s)%nat /\ (wide = true -> (2 <= n)%nat) /\
    forall k, (n <= k)%nat -> next_char (take k s) = inr (n, wide).
Proof.
  intros Hs Hff. destruct s as [|c s]; [done|]. apply Forall_inv in Hff. cbn [next_char length].
  assert (Hk : forall k, (1 <= k)%nat -> take k (c :: s) = c :: take (k - 1) s).
  { intros [|k] ?; [lia|]. cbn. by rewrite Nat.sub_0_r. }
  destruct (Z.ltb_spec 0xC1 (byte c)) as [Hc|Hc].
  2:{ exists 1%nat, false. split_and!; [done|lia|lia|done|]. intros k Hn. rewrite Hk by done. cbn [next_char].
      by rewrite (proj2 (Z.ltb_ge _ _)) by lia. }
  assert (Hx : Z.lxor (byte c) 0xFF =? 0 = false) by (apply Z.eqb_neq; intros E%Z.lxor_eq; done).
  rewrite Hx. set (ch := Z.land _ _).
  pose proof (continuation_length s ch) as Hl. pose proof (continuation_take s ch) as Ht.
  assert (Hch : 0 <= ch < 256).
  { unfold ch. replace (byte c) with (Z.land (byte c) (Z.ones 8)) by
      (rewrite Z.land_ones by lia; apply Z.mod_small, byte_range).
    rewrite <-Z.land_assoc, (Z.land_comm (Z.ones 8)), Z.land_assoc, Z.land_ones by lia. apply Z.mod_pos_bound. lia. }
  assert (H0 : snd (continuation ch s) = 0%nat -> fst (continuation ch s) = ch).
  { destruct s as [|c' s]; cbn [continuation]; [done|]. destruct (_ <=? _); [|done]. destruct (continuation _ s). done. }
  destruct (continuation ch s) as [ch' n]. cbn [fst snd] in *. eexists _, _. split; [reflexivity|].
  split; [lia|]. split.
  - intros Hw. destruct n; [|lia]. rewrite H0 in Hw by done. apply andb_true_iff in Hw as [Hw _]. lia.
  - intros k Hn. rewrite Hk by lia. cbn [next_char]. rewrite (proj2 (Z.ltb_lt _ _)), Hx by lia. fold ch.
    by rewrite Ht by lia.
Qed.

(** The columns of a text on the screen. *)
Fixpoint columns_of (fuel : nat) (s : text) : Z :=
  match s, fuel with
  | [], _ | _, O => 0
  | _, S fuel =>
      match next_char s with
      | inr (n, wide) => (if wide : bool then 2 else 1) + columns_of fuel (drop n s)
      | inl _ => 0
      end
  end.
Definition screen_columns (s : text) : Z := columns_of (length s) s.

Lemma columns_of_fuel s : no_ff s -> forall f1 f2, (length s <= f1)%nat -> (length s <= f2)%nat ->
  columns_of f1 s = columns_of f2 s.
Proof.
  intros Hff f1. revert s Hff. induction f1 as [|f1 IH]; intros [|c s] Hff f2 H1 H2; cbn [length] in *; try lia;
    destruct f2; try done; try lia.
  cbn [columns_of]. destruct (next_char_ok (c :: s) ltac:(done) Hff) as (n & w & -> & Hn & _).
  f_equal. cbn [length] in Hn. apply IH; [by apply Forall_drop|rewrite length_drop; cbn [length]; lia..].
Qed.

Lemma screen_columns_char s n wide : no_ff s -> next_char s = inr (n, wide) -> (1 <= n)%nat -> s <> [] ->
  screen_columns s = (if wide then 2 else 1) + screen_columns (drop n s).
Proof.
  intros Hff Hn Hn1 Hs. destruct s as [|c s]; [done|]. unfold screen_columns. cbn [columns_of length]. rewrite Hn.
  f_equal. apply columns_of_fuel; [by apply Forall_drop|rewrite length_drop; cbn [length]; lia..].
Qed.

Lemma screen_columns_bounds s : no_ff s -> 0 <= screen_columns s <= Z.of_nat (length s).
Proof.
  remember (length s) as k eqn:Hk. assert (Hle : (length s <= k)%nat) by lia. rewrite Hk. clear Hk. revert s Hle.
  induction k as [|k IH]; intros [|c s] Hk Hff; cbn [length] in Hk; try lia; try (cbn; lia).
  destruct (next_char_ok (c :: s) ltac:(done) Hff) as (n & w & Hn & Hl & Hw & _).
  rewrite (screen_columns_char _ _ _ Hff Hn) by (done || lia).
  specialize (IH (drop n (c :: s))). rewrite length_drop in IH. cbn [length] in *.
  specialize (IH ltac:(lia) ltac:(by apply Forall_drop)). destruct w; [specialize (Hw eq_refl)|]; lia.
Qed.

(** A text up to a character that starts there. *)
Lemma screen_columns_app s1 s2 : no_ff (s1 ++ s2) -> match s2 with c :: _ => is_continuation c = false | [] => True end ->
  screen_columns (s1 ++ s2) = screen_columns s1 + screen_columns s2.
Proof.
  intros Hff Hs2. remember (length s1) as k eqn:Hk. assert (Hle : (length s1 <= k)%nat) by lia. clear Hk.
  revert s1 Hle Hff. induction k as [|k IH]; intros [|c s1] Hk Hff; cbn [length] in Hk; try lia; try done.
  pose proof Hff as [Hff1 _]%Forall_app. destruct (next_char_ok (c :: s1) ltac:(done) Hff1) as (n & w & Hn & Hl & _ & _).
  assert (Hn2 : next_char ((c :: s1) ++ s2) = inr (n, w)).
  { assert (Hcont : forall s ch, continuation ch (s ++ s2) = continuation ch s).
    { induction s as [|c' s IHs]; intros ch; cbn [app continuation]; [|by rewrite IHs].
      destruct s2 as [|c2 s2]; [done|]. cbn [continuation]. unfold is_continuation in Hs2. by rewrite Hs2. }
    revert Hn. cbn [app next_char]. by rewrite Hcont. }
  rewrite (screen_columns_char _ _ _ Hff Hn2), (screen_columns_char _ _ _ Hff1 Hn) by (done || lia).
  rewrite drop_app_le by lia. rewrite IH; [lia|rewrite length_drop; cbn [length] in *; lia|].
  rewrite <-drop_app_le by lia. by apply Forall_drop.
Qed.

(** [fit] stops at a character and keeps inside the width. *)
Lemma fit_spec width data fuel : no_ff data -> forall u maxi, 0 <= u <= width -> (maxi <= length data)%nat ->
  (length data - maxi <= fuel)%nat ->
  exists m, fit fuel width u maxi data = inr m /\ (maxi <= m <= length data)%nat /\
    u + screen_columns (take (m - maxi) (drop maxi data)) <= width /\
    ((m < length data)%nat -> u + 2 <= width -> (maxi < m)%nat).
Proof.
  intros Hff. induction fuel as [|fuel IH]; intros u maxi Hu Hm Hf.
  { exists maxi. cbn [fit]. rewrite drop_ge by lia. split_and!; [done|lia|lia|rewrite take_nil; cbn; lia|lia]. }
  cbn [fit]. destruct (drop maxi data) as [|c s] eqn:Hd.
  { exists maxi. split_and!; [done|lia|lia|rewrite take_nil; cbn; lia|].
    apply (f_equal length) in Hd. rewrite length_drop in Hd. cbn in Hd. lia. }
  assert (Hffs : no_ff (c :: s)) by (rewrite <-Hd; by apply Forall_drop).
  assert (Hls : length (c :: s) = (length data - maxi)%nat) by (rewrite <-Hd; apply length_drop).
  assert (Hstop : width - 1 <= u -> exists m, (inr maxi : exn + nat) = inr m /\ (maxi <= m <= length data)%nat /\
    u + screen_columns (take (m - maxi) (c :: s)) <= width /\ ((m < length data)%nat -> u + 2 <= width -> (maxi < m)%nat)).
  { intros Hw. exists maxi. rewrite Nat.sub_diag. cbn [take]. split_and!; [done|lia|lia|cbn; lia|lia]. }
  destruct (Z.leb_spec width u) as [Hw|Hw]; [apply Hstop; lia|].
  destruct (next_char_ok (c :: s) ltac:(done) Hffs) as (n & w & Hn & Hl & _ & Ht). rewrite Hn.
  destruct (w && (width <? u + 2)) eqn:Ewide.
  { apply andb_true_iff in Ewide as [_ Ewide]. apply Hstop. lia. }
  assert (Hu2 : u + (if w then 2 else 1) <= width) by (destruct w; cbn [andb] in Ewide; lia).
  destruct (IH (u + (if w then 2 else 1)) (maxi + n)%nat) as (m & Hfit & Hm2 & Hcol & _); [destruct w; lia|lia|lia|].
  exists m. split; [exact Hfit|]. split; [lia|]. split; [|lia].
  rewrite (screen_columns_char (take (m - maxi) (c :: s)) n w); [|by apply Forall_take|apply Ht; lia|lia|].
  - rewrite skipn_firstn_comm, <-Hd, drop_drop. replace (m - maxi - n)%nat with (m - (maxi + n))%nat by lia. lia.
  - destruct (m - maxi)%nat eqn:E; [lia|done].
Qed.

Lemma last_space_spec data i j : last_space data i = Some j -> (j <= i)%nat /\ data !! j = Some SPACE.
Proof.
  induction i as [|i IH]; cbn [last_space]; destruct (bool_decide _) eqn:E; try done.
  - intros [= <-]. split; [lia|]. by apply bool_decide_eq_true in E.
  - intros [= <-]. split; [lia|]. by apply bool_decide_eq_true in E.
  - intros H%IH. split; [lia|apply H].
Qed.

(** A text cut into lines of at most [width] columns; a space is dropped where the
    text is cut at one. *)
Inductive wrapped (width : Z) : text -> list text -> Prop :=
  | wrapped_nil : wrapped width [] []
  | wrapped_cut d rest ds : screen_columns d <= width -> wrapped width rest ds -> wrapped width (d ++ rest) (d :: ds)
  | wrapped_space d rest ds : screen_columns d <= width -> wrapped width rest ds ->
      wrapped width (d ++ SPACE :: rest) (d :: ds).

Lemma split_line_spec width s : 2 <= width -> s <> [] -> no_ff s ->
  exists d rest, split_line width s = inr (d, rest) /\ screen_columns d <= width /\ (length rest < length s)%nat /\
    no_ff rest /\ (s = d ++ rest \/ s = d ++ SPACE :: rest).
Proof.
  intros Hwidth Hs Hff. unfold split_line. assert (Hlen : (0 < length s)%nat) by (destruct s; [done|cbn; lia]).
  destruct (Z.leb_spec (Z.of_nat (length s)) width) as [Hw|Hw].
  { exists s, []. pose proof (screen_columns_bounds s Hff). split_and!; [done|lia|cbn; lia|constructor|left; by rewrite app_nil_r]. }
  destruct (fit_spec width s (length s) Hff 0 0) as (m & -> & Hm & Hcol & Hpos); [lia|lia|lia|].
  rewrite Nat.sub_0_r, drop_0 in Hcol. destruct (Nat.eqb_spec m (length s)) as [->|Hne].
  { exists s, []. rewrite take_ge in Hcol by lia. split_and!; [done|lia|cbn; lia|constructor|left; by rewrite app_nil_r]. }
  destruct (last_space s m) as [i|] eqn:El.
  - apply last_space_spec in El as [Hi Hsp]. exists (take i s), (drop (S i) s).
    assert (Hsplit : s = take i s ++ SPACE :: drop (S i) s) by (symmetry; by apply take_drop_middle).
    split; [done|]. split; [|split; [rewrite length_drop; lia|split; [by apply Forall_drop|by right]]].
    assert (Htake : take m s = take i s ++ take (m - i) (SPACE :: drop (S i) s)).
    { rewrite Hsplit at 1. rewrite take_app_ge by (rewrite length_take; lia). by rewrite length_take, Nat.min_l by lia. }
    rewrite Htake, screen_columns_app in Hcol.
    + pose proof (screen_columns_bounds (take (m - i) (SPACE :: drop (S i) s))) as Hb.
      rewrite Hsplit in Hff. apply Forall_app in Hff as [_ Hff]. specialize (Hb ltac:(by apply Forall_take)). lia.
    + rewrite <-Htake. by apply Forall_take.
    + by destruct (m - i)%nat.
  - exists (take m s), (drop m s). split_and!; [done|lia|rewrite length_drop; lia|by apply Forall_drop|].
    left. symmetry. apply take_drop.
Qed.

(** ** The ring buffer is a queue *)

Record queued (w : LineWrapper) (q : list text) : Prop := mkQueued {
  q_cells : length (buf w) = S bufmask;
  q_tail : (buf_tail w <= bufmask)%nat;
  q_length : (length q <= bufmask)%nat;
  q_head : buf_head w = Nat.land (buf_tail w + 1 + length q) bufmask;
  q_pieces : forall i d, q !! i = Some d -> buf w !! Nat.land (buf_tail w + 1 + i) bufmask = Some (Some d) }.

Lemma land_bufmask n : Nat.land n bufmask = (n mod 16)%nat.
Proof. change bufmask with (Nat.ones 4). by rewrite Nat.land_ones. Qed.

Lemma mod16_inj a b : (a < b < a + 16)%nat -> (a mod 16 <> b mod 16)%nat.
Proof.
  intros H E. pose proof (Nat.div_mod_eq a 16). pose proof (Nat.div_mod_eq b 16). nia.
Qed.

Lemma queued_new x1 x2 : queued (new_wrapper x1 x2) [].
Proof. split; [done|cbn; lia|cbn; lia|done|done]. Qed.

Lemma queued_empty w q : queued w q -> buf_empty w = bool_decide (q = []).
Proof.
  intros [_ Ht Hl Hh _]. unfold buf_empty. rewrite Hh, !land_bufmask. change bufmask with 15%nat in *.
  destruct q as [|d q].
  - cbn [length]. rewrite bool_decide_true by done. apply Nat.eqb_eq. f_equal. lia.
  - rewrite bool_decide_false by done. apply Nat.eqb_neq. apply mod16_inj. cbn [length] in *. lia.
Qed.

Lemma queued_full w q : queued w q -> buf_full w = bool_decide (length q = bufmask).
Proof.
  intros [_ Ht Hl Hh _]. unfold buf_full. rewrite Hh, land_bufmask. change bufmask with 15%nat in *.
  rewrite <-(Nat.mod_small (buf_tail w) 16) at 1 by lia. case_bool_decide as E.
  - rewrite E. apply Nat.eqb_eq. replace (buf_tail w + 1 + 15)%nat with (buf_tail w + 1 * 16)%nat by lia.
    by rewrite Nat.Div0.mod_add.
  - apply Nat.eqb_neq. apply mod16_inj. lia.
Qed.

Lemma queued_store w q d : queued w q -> (length q < bufmask)%nat -> queued (buf_store d w) (q ++ [d]).
Proof.
  intros [Hc Ht Hl Hh Hp] Hlt. change bufmask with 15%nat in *. split; cbn [buf_store buf buf_tail buf_head].
  - by rewrite length_insert.
  - done.
  - rewrite length_app. cbn. change bufmask with 15%nat. lia.
  - rewrite Hh, !land_bufmask, length_app. cbn [length].
    replace (buf_tail w + 1 + (length q + 1))%nat with (1 + (buf_tail w + 1 + length q))%nat by lia.
    apply (Nat.Div0.add_mod_idemp_r 1).
  - intros i x Hi. rewrite land_bufmask, Hh, land_bufmask. destruct (Nat.lt_ge_cases i (length q)) as [Hiq|Hiq].
    + rewrite lookup_app_l in Hi by done. rewrite list_lookup_insert_ne by (apply not_eq_sym, mod16_inj; lia).
      rewrite <-land_bufmask. by apply Hp.
    + assert (i = length q) as -> by (apply lookup_lt_Some in Hi; rewrite length_app in Hi; cbn in Hi; lia).
      rewrite list_lookup_middle in Hi by done. injection Hi as <-. apply list_lookup_insert_eq.
      rewrite Hc. apply Nat.mod_upper_bound. lia.
Qed.

(** Lines below each other in a column that starts at [x]; [wrote] tells whether
    there is a line before the first one. *)
Definition line_start (wrote : bool) (x : Z) : text := if wrote then NL :: fst (indent 0 x) else [].
Fixpoint lines_text (wrote : bool) (x : Z) (ls : list text) : text :=
  match ls with [] => [] | d :: ls => line_start wrote x ++ d ++ lines_text true x ls end.

Lemma no_lines : bool_decide (([] : list text) <> []) = false.
Proof. done. Qed.

Lemma lines_text_app x l1 : forall wrote l2,
  lines_text wrote x (l1 ++ l2) = lines_text wrote x l1 ++ lines_text (wrote || bool_decide (l1 <> [])) x l2.
Proof.
  induction l1 as [|d l1 IH]; intros wrote l2; cbn [app lines_text]; [by rewrite no_lines, orb_false_r|].
  rewrite IH, (bool_decide_true (d :: l1 <> [])), orb_true_r by done. cbn [orb]. by rewrite <-!app_assoc.
Qed.

(** The same column, and a queue of pieces. *)
Definition is_wrapper (w w' : LineWrapper) (q : list text) (wrote : bool) : Prop :=
  queued w' q /\ wr_x w' = wr_x w /\ wr_width w' = wr_width w /\ wrote_something w' = wrote.

Lemma write_one_line_nil w : queued w [] ->
  write_one_line w = inr (set_wrote true w, line_start (wrote_something w) (wr_x w)).
Proof. intros Hq. unfold write_one_line. by rewrite (queued_empty w [] Hq), bool_decide_true. Qed.

Lemma write_one_line_cons w d q : queued w (d :: q) -> exists w',
  write_one_line w = inr (w', line_start (wrote_something w) (wr_x w) ++ d) /\ is_wrapper w w' q true.
Proof.
  intros Hq. unfold write_one_line. rewrite (queued_empty _ _ Hq), bool_decide_false by done.
  destruct Hq as [Hc Ht Hl Hh Hp]. cbn [length] in *. cbv zeta.
  pose proof (Hp 0%nat d eq_refl) as H0. rewrite Nat.add_0_r, Nat.add_1_r in H0. rewrite H0.
  eexists. split; [reflexivity|]. split; [|done]. rewrite <-(Nat.add_1_r (buf_tail w)), !land_bufmask in *. change bufmask with 15%nat in *.
  split; cbn [buf buf_tail buf_head]; change bufmask with 15%nat.
  - done.
  - pose proof (Nat.mod_upper_bound (buf_tail w + 1) 16). lia.
  - lia.
  - rewrite land_bufmask, Hh, <-(Nat.add_assoc (_ mod 16)), Nat.Div0.add_mod_idemp_l. f_equal; lia.
  - intros i x Hi. rewrite land_bufmask, <-(Nat.add_assoc (_ mod 16)), Nat.Div0.add_mod_idemp_l.
    specialize (Hp (S i) x Hi). rewrite land_bufmask in Hp. rewrite <-Hp. repeat f_equal; lia.
Qed.

Lemma set_wrote_wrapper w q b : queued w q -> is_wrapper w (set_wrote b w) q b.
Proof. intros [? ? ? ? ?]. by repeat split. Qed.

(** What the operations on the queue [q] write: the lines [out], while [q'] stays. *)
Definition writes (w : LineWrapper) (q q' out : list text) (r : exn + (LineWrapper * text)) : Prop :=
  exists w', r = inr (w', lines_text (wrote_something w) (wr_x w) out) /\
    is_wrapper w w' q' (wrote_something w || bool_decide (out <> [])).

Lemma output_spec w q d : queued w q -> exists q' out, q ++ [d] = out ++ q' /\ writes w q q' out (output d w).
Proof.
  intros Hq. unfold output. rewrite (queued_full _ _ Hq). pose proof (q_length _ _ Hq) as Hl. case_bool_decide as E.
  - destruct q as [|d1 q]; [done|]. destruct (write_one_line_cons w d1 q Hq) as (w1 & -> & Hq1 & Hx & Hw & Hwr).
    exists (q ++ [d]), [d1]. split; [done|]. exists (buf_store d w1). split; [cbn [lines_text]; by rewrite app_nil_r|].
    rewrite bool_decide_true, orb_true_r by done. split; [|done]. apply queued_store; [done|]. cbn [length] in *. lia.
  - exists (q ++ [d]), []. split; [done|]. exists (buf_store d w). split; [done|].
    rewrite no_lines, orb_false_r. split; [|done]. apply queued_store; [done|]. lia.
Qed.

Lemma process_loop_spec fuel : forall s w q, (length s <= fuel)%nat -> no_ff s -> 2 <= wr_width w -> queued w q ->
  exists ds q' out, wrapped (wr_width w) s ds /\ q ++ ds = out ++ q' /\ writes w q q' out (process_loop fuel s w).
Proof.
  induction fuel as [|fuel IH]; intros [|c s] w q Hf Hff Hw Hq; cbn [length] in Hf; try lia;
    try (exists [], q, []; split; [constructor|]; split; [by rewrite app_nil_r|]; exists w; split; [done|];
         rewrite no_lines, orb_false_r; done).
  cbn [process_loop]. destruct (split_line_spec (wr_width w) (c :: s) Hw ltac:(done) Hff)
    as (d & rest & -> & Hcol & Hlen & Hffr & Hs).
  destruct (output_spec w q d Hq) as (q1 & out1 & Heq1 & w1 & -> & Hq1 & Hx1 & Hw1 & Hwr1).
  destruct (IH rest w1 q1) as (ds & q2 & out2 & Hds & Heq2 & w2 & -> & Hq2 & Hx2 & Hw2 & Hwr2);
    [cbn [length] in Hlen; lia|done|lia|done|].
  exists (d :: ds), q2, (out1 ++ out2). split; [|split].
  - rewrite Hw1 in Hds. destruct Hs as [-> | ->]; [by apply wrapped_cut|by apply wrapped_space].
  - change (d :: ds) with ([d] ++ ds). by rewrite app_assoc, Heq1, <-app_assoc, Heq2, app_assoc.
  - exists w2. split.
    + rewrite lines_text_app, Hx1, Hwr1. done.
    + split; [done|]. split; [congruence|]. split; [congruence|]. rewrite Hwr2, Hwr1, <-orb_assoc. f_equal.
      destruct out1, out2; done.
Qed.

(** [process] queues the lines of its text and writes at least one line if there is
    one. *)
Lemma process_spec s w q : no_ff s -> 2 <= wr_width w -> queued w q ->
  exists ds q' out w', wrapped (wr_width w) s ds /\ q ++ ds = out ++ q' /\ (out = [] -> q' = []) /\
    process s w = inr (w', lines_text false (wr_x w) out) /\ is_wrapper w w' q' true.
Proof.
  intros Hff Hw Hq. destruct (set_wrote_wrapper w q false Hq) as (Hq0 & Hx0 & Hw0 & Hwr0).
  destruct (process_loop_spec (length s) s (set_wrote false w) q) as (ds & q1 & out & Hds & Heq & w1 & Hrun & Hq1 & Hx1 & Hw1 & Hwr1);
    [lia|done|by rewrite Hw0|done|].
  unfold process. rewrite Hrun, Hwr1, Hwr0, Hx0. cbn [orb]. rewrite Hw0 in Hds, Hw1. rewrite Hx0 in Hx1.
  rewrite Hwr0 in Hwr1. cbn [orb] in Hwr1. case_bool_decide as E.
  - exists ds, q1, out, w1. split_and!; try done.
  - assert (out = []) as -> by (destruct out; [done|by destruct E]). destruct q1 as [|d q2].
    + exists ds, [], [], (set_wrote true w1). split_and!; try done.
      * rewrite (write_one_line_nil w1 Hq1), Hwr1. done.
      * destruct (set_wrote_wrapper w1 [] true Hq1) as (? & ? & ? & ?). split_and!; congruence || done.
    + destruct (write_one_line_cons w1 d q2 Hq1) as (w2 & Hrun2 & Hq2 & Hx2 & Hw2 & Hwr2).
      exists ds, q2, [d], w2. split_and!; [done|done|done| |split_and!; congruence || done].
      rewrite Hrun2, Hwr1. cbn. by rewrite app_nil_r.
Qed.

Lemma write_lines_spec fuel : forall w q, queued w q -> (length q <= fuel)%nat ->
  writes w q [] q (write_lines fuel w).
Proof.
  induction fuel as [|fuel IH]; intros w q Hq Hf; cbn [write_lines]; rewrite (queued_empty _ _ Hq);
    destruct q as [|d q]; cbn [length] in Hf; try lia;
    try (rewrite bool_decide_true by done; exists w; split; [done|]; by rewrite no_lines, orb_false_r).
  rewrite bool_decide_false by done. destruct (write_one_line_cons w d q Hq) as (w1 & -> & Hq1 & Hx1 & Hw1 & Hwr1).
  destruct (IH w1 q Hq1 ltac:(lia)) as (w2 & -> & Hq2 & Hx2 & Hw2 & Hwr2). exists w2. split.
  - cbn [lines_text]. by rewrite Hx1, Hwr1, <-app_assoc.
  - rewrite bool_decide_true, orb_true_r by done. split; [done|]. split; [congruence|]. split; [congruence|]. by rewrite Hwr2, Hwr1.
Qed.

Definition flushed_text (x : Z) (q : list text) : text :=
  match q with [] => [] | _ => fst (indent 0 x) ++ lines_text false x q ++ [NL] end.

Lemma flush_spec w q : queued w q -> exists w', flush w = inr (w', flushed_text (wr_x w) q) /\
  queued w' [] /\ wr_x w' = wr_x w /\ wr_width w' = wr_width w.
Proof.
  intros Hq. unfold flush. rewrite (queued_empty _ _ Hq). case_bool_decide as E; [subst q; by exists w|].
  destruct (set_wrote_wrapper w q false Hq) as (Hq0 & Hx0 & Hw0 & Hwr0).
  destruct (write_lines_spec (S bufmask) (set_wrote false w) q Hq0) as (w1 & -> & Hq1 & Hx1 & Hw1 & _);
    [pose proof (q_length _ _ Hq); lia|].
  exists w1. rewrite Hwr0, Hx0, Hx1, Hx0. split; [by destruct q|]. split; [done|]. split; [done|congruence].
Qed.

(** ** The iterator ends *)

(** The iterator stands at [p] in the row that starts at [r]. *)
Record in_row (it : LinePartIterator) (p r : text) : Prop := mkInRow {
  ir_start : rowstart it = Some r;
  ir_suffix : p `suffix_of` r;
  ir_text : no_ff r;
  ir_line : 0 <= line_in_block it /\ line_in_block it + Z.of_nat (length p) <= Z.of_nat (length r);
  ir_max : 0 <= max_line_in_block it <= Z.of_nat (length r);
  ir_target : 0 <= target_line_in_block it <= Z.of_nat (length r);
  ir_col : -1 <= col it }.

(** The table and the entry stay. *)
Definition same_row (it it' : LinePartIterator) : Prop :=
  tablestart it' = tablestart it /\ rowdesc it' = rowdesc it /\ rowstart it' = rowstart it.

Lemma same_row_trans it1 it2 it3 : same_row it1 it2 -> same_row it2 it3 -> same_row it1 it3.
Proof. intros (? & ? & ?) (? & ? & ?). split; [|split]; congruence. Qed.

(** What is left for [next] to do. *)
Definition to_do (it : LinePartIterator) (p r : text) : Z :=
  let n := Z.of_nat (length r) in
  (n + 1 - target_line_in_block it) * (2 * n + 2) + 2 * Z.of_nat (length p) + (if hit_target_line it then 0 else 1).

(** A part that was found at [p]. *)
Definition part_at (it : LinePartIterator) (p r : text) : Prop :=
  ptr it = Some p /\ in_row it p r /\ hit_target_line it = true /\ (len it <= length p)%nat /\ 0 <= col it /\ 0 <= screenlen it.

Lemma suffix_no_ff p r : p `suffix_of` r -> no_ff r -> no_ff p.
Proof. intros [k ->] H. by apply Forall_app in H as [_ H]. Qed.

Lemma part_length_ok fuel : forall s, (length s <= fuel)%nat -> no_ff s ->
  exists l w, part_length fuel s = inr (l, w) /\ (l <= length s)%nat /\ 0 <= w.
Proof.
  induction fuel as [|fuel IH]; intros [|c s] Hf Hff; cbn [length] in Hf; try lia;
    try (exists 0%nat, 0; split_and!; [done|cbn; lia|lia]).
  cbn [part_length]. destruct (ends_part c); [exists 0%nat, 0; split_and!; [done|lia|lia]|].
  destruct (next_char_ok (c :: s) ltac:(done) Hff) as (n & w & -> & Hn & _).
  destruct (IH (drop n (c :: s))) as (l & w' & -> & Hl & Hw'); [rewrite length_drop; cbn [length] in *; lia|by apply Forall_drop|].
  rewrite length_drop in Hl. eexists _, _. split; [reflexivity|]. split; [lia|]. destruct w; lia.
Qed.

Lemma update_length_ok p it : no_ff p -> exists l w,
  update_length p it = inr (mkPart (tablestart it) (rowdesc it) (rowstart it) (Some p) (col it) l w
    (max_line_in_block it) (line_in_block it) (target_line_in_block it) (hit_target_line it)) /\ (l <= length p)%nat /\ 0 <= w.
Proof.
  intros Hff. unfold update_length. destruct (part_length_ok (length p) p ltac:(lia) Hff) as (l & w & -> & Hl & Hw). eauto.
Qed.

Lemma in_row_ext it it' p r : in_row it p r -> rowstart it' = rowstart it -> line_in_block it' = line_in_block it ->
  max_line_in_block it' = max_line_in_block it -> target_line_in_block it' = target_line_in_block it -> -1 <= col it' ->
  in_row it' p r.
Proof. intros [] E1 E2 E3 E4 ?. split; by rewrite ?E1, ?E2, ?E3, ?E4. Qed.

Lemma found_part_ok it p r : in_row it p r -> 0 <= col it -> exists it', found_part p it = inr (true, it') /\
  same_row it it' /\ part_at it' p r /\ target_line_in_block it' = target_line_in_block it.
Proof.
  intros Hr Hc. pose proof Hr as [_ Hs Hff _ _ _ _]. unfold found_part.
  destruct (update_length_ok p it (suffix_no_ff _ _ Hs Hff)) as (l & w & -> & Hl & Hw).
  eexists. split; [reflexivity|]. split; [done|]. split; [|done].
  split; [done|]. split; [eapply in_row_ext; [exact Hr|done..|cbn; lia]|done].
Qed.

(** A step to the next character. *)
Lemma in_row_step it p c r : in_row it (c :: p) r -> in_row it p r.
Proof.
  intros [H1 H2 H3 H4 H5 H6 H7]. split; try done; [by eapply suffix_cons_l|]. cbn [length] in H4. lia.
Qed.

Lemma in_row_vt it p c r : in_row it (c :: p) r ->
  let line := line_in_block it + 1 in
  in_row (at_line (col it) line (Z.max (max_line_in_block it) line) (target_line_in_block it) (hit_target_line it) it) p r.
Proof.
  intros [H1 H2 H3 H4 H5 H6 H7]. cbn [length] in H4. split; cbn [at_line rowstart line_in_block max_line_in_block target_line_in_block col];
    try done; [by eapply suffix_cons_l|lia|lia].
Qed.

Lemma in_row_tab it p c r : in_row it (c :: p) r -> 0 <= col it ->
  in_row (at_line (col it + 1) 0 (max_line_in_block it) (target_line_in_block it) false it) p r.
Proof.
  intros [H1 H2 H3 H4 H5 H6 H7] Hc. cbn [length] in H4. split; cbn [at_line rowstart line_in_block max_line_in_block target_line_in_block col];
    try done; [by eapply suffix_cons_l|lia|lia].
Qed.

Lemma in_row_again it p r target : in_row it p r -> 0 <= target <= max_line_in_block it ->
  in_row (at_line 0 0 (max_line_in_block it) target false it) r r.
Proof. intros [H1 H2 H3 H4 H5 H6 H7] Ht. by split; cbn; try lia. Qed.

(** What a run of [next] gives from [p] on. *)
Definition next_result (it : LinePartIterator) (p r : text) (res : exn + (bool * LinePartIterator)) : Prop :=
  exists b it' p', res = inr (b, it') /\ same_row it it' /\ ptr it' = Some p' /\ p' `suffix_of` r /\
    (b = true -> part_at it' p' r /\ to_do it' p' r < to_do it p r).

(** On a line that was not found yet in its column, a part comes before the end. *)
Lemma next_loop_missing fuel : forall p it r, (length p < fuel)%nat -> in_row it p r -> 0 <= col it -> hit_target_line it = false ->
  exists it' p', next_loop fuel p it = inr (true, it') /\ same_row it it' /\ part_at it' p' r /\
    target_line_in_block it' = target_line_in_block it /\ (length p' <= length p)%nat.
Proof.
  induction fuel as [|fuel IH]; intros p it r Hf Hr Hc Hh; [lia|].
  assert (Hfound : exists it' p', found_part p it = inr (true, it') /\ same_row it it' /\ part_at it' p' r /\
    target_line_in_block it' = target_line_in_block it /\ (length p' <= length p)%nat).
  { destruct (found_part_ok it p r Hr Hc) as (it' & ? & ? & ? & ?). by exists it', p. }
  cbn [next_loop]. rewrite Hh. cbn [negb]. destruct p as [|c p]; [exact Hfound|]. cbn [length] in Hf.
  destruct (Ascii.eqb c VT); [|destruct (Ascii.eqb c TAB); [exact Hfound|destruct (Ascii.eqb c NL); [exact Hfound|]]].
  - pose proof (in_row_vt it p c r Hr) as Hv. cbv zeta in Hv. rewrite Hh in Hv. set (it1 := at_line _ _ _ _ _ _) in *.
    destruct (line_in_block it1 =? target_line_in_block it1).
    + destruct (found_part_ok it1 p r Hv Hc) as (it' & ? & ? & ? & ?). exists it', p. split_and!; try done. cbn; lia.
    + destruct (IH p it1 r) as (it' & p' & ? & ? & ? & ? & ?); [lia|done|done|done|]. exists it', p'. split_and!; try done. cbn; lia.
  - destruct (IH p it r) as (it' & p' & ? & ? & ? & ? & ?); [lia|by eapply in_row_step|done|done|].
    exists it', p'. split_and!; try done. cbn; lia.
Qed.

Lemma next_result_part it (p r : text) it1 (p1 : text) it' (p' : text) res : res = inr (true, it') -> same_row it it1 -> same_row it1 it' ->
  part_at it' p' r -> target_line_in_block it' = target_line_in_block it1 -> (length p' <= length p1)%nat ->
  hit_target_line it = true ->
  (target_line_in_block it1 = target_line_in_block it /\ (length p1 < length p)%nat \/
   target_line_in_block it1 = target_line_in_block it + 1 /\ (length p1 <= length r)%nat) ->
  next_result it p r res.
Proof.
  intros -> Hsame1 Hsame2 Hp Ht Hl Hh Hcase. exists true, it', p'. split; [done|].
  split; [by eapply same_row_trans|]. pose proof Hp as (P1 & P2 & P3 & _). split; [done|]. split; [apply P2|]. intros _.
  split; [done|]. unfold to_do. rewrite P3, Ht, Hh. destruct Hcase as [[-> Hc]|[-> Hc]]; [lia|].
  set (n := Z.of_nat (length r)). set (t := target_line_in_block it).
  replace ((n + 1 - (t + 1)) * (2 * n + 2)) with ((n + 1 - t) * (2 * n + 2) - (2 * n + 2)) by ring. lia.
Qed.

(** At the end of a row the next line begins, or nothing is left. *)
Lemma next_loop_end fuel it p r : (S (length r) <= fuel)%nat -> in_row it p r -> 0 <= col it -> hit_target_line it = true ->
  next_result it p r
    (let target := target_line_in_block it + 1 in
     if max_line_in_block it <? target then
       match update_length p (at_line (col it) (line_in_block it) (max_line_in_block it) target true it) with
       | inl e => inl e
       | inr it => inr (false, it)
       end
     else
       match rowstart it with
       | None => inl (undefined "no row")
       | Some r => next_loop fuel r (at_line 0 0 (max_line_in_block it) target false it)
       end).
Proof.
  intros Hf Hr Hc Hh. pose proof Hr as [H1 H2 H3 _ _ H6 _]. cbv zeta.
  destruct (Z.ltb_spec (max_line_in_block it) (target_line_in_block it + 1)) as [Hlt|Hge].
  - destruct (update_length_ok p (at_line (col it) (line_in_block it) (max_line_in_block it)
      (target_line_in_block it + 1) true it) (suffix_no_ff _ _ H2 H3)) as (l & w & -> & _).
    eexists false, _, p. by split_and!.
  - rewrite H1. destruct (next_loop_missing fuel r (at_line 0 0 (max_line_in_block it) (target_line_in_block it + 1) false it) r)
      as (it' & p' & Hrun & Hsame & Hp & Ht & Hl); [lia|apply (in_row_again it p); [done|lia]|done|done|].
    eapply (next_result_part it p r (at_line 0 0 _ _ _ it)); [exact Hrun|done|exact Hsame|exact Hp|exact Ht|exact Hl|done|]. right. by split.
Qed.

Lemma next_loop_ok r : forall p it fuel, (S (length p) + S (length r) <= fuel)%nat -> in_row it p r -> 0 <= col it ->
  hit_target_line it = true -> next_result it p r (next_loop fuel p it).
Proof.
  induction p as [|c p IH]; intros it fuel Hf Hr Hc Hh; (destruct fuel as [|fuel]; [cbn in Hf; lia|]); cbn [length] in Hf;
    cbn [next_loop]; rewrite Hh; cbn [negb].
  { apply next_loop_end; [lia|done..]. }
  destruct (Ascii.eqb c VT); [|destruct (Ascii.eqb c TAB); [|destruct (Ascii.eqb c NL); [apply next_loop_end; [lia|done..]|]]].
  - pose proof (in_row_vt it p c r Hr) as Hv. cbv zeta in Hv. rewrite Hh in Hv. set (it1 := at_line _ _ _ _ _ _) in *.
    destruct (line_in_block it1 =? target_line_in_block it1).
    + destruct (found_part_ok it1 p r Hv Hc) as (it' & Hrun & Hsame & Hp & Ht).
      eapply (next_result_part it (c :: p) r it1 p it' p); try done. left. split; [done|]. cbn. lia.
    + destruct (IH it1 fuel ltac:(lia) Hv Hc eq_refl) as (b & it' & p' & Hrun & (S1 & S2 & S3) & Hp & Hs & Hb).
      exists b, it', p'. split; [done|]. split; [by split_and!|]. do 2 (split; [done|]). intros Hbt.
      destruct (Hb Hbt) as [? Hlt]. split; [done|]. unfold to_do in *. rewrite Hh. cbn [it1 at_line target_line_in_block hit_target_line length] in *. lia.
  - pose proof (in_row_tab it p c r Hr Hc) as Hv. set (it1 := at_line _ _ _ _ _ _) in *.
    destruct (line_in_block it1 =? target_line_in_block it1).
    + destruct (found_part_ok it1 p r Hv ltac:(cbn; lia)) as (it' & Hrun & Hsame & Hp & Ht).
      eapply (next_result_part it (c :: p) r it1 p it' p); try done. left. split; [done|]. cbn. lia.
    + destruct (next_loop_missing fuel p it1 r) as (it' & p' & Hrun & Hsame & Hp & Ht & Hl); [lia|done|cbn; lia|done|].
      eapply (next_result_part it (c :: p) r it1 p); try done. left. split; [done|]. cbn. lia.
  - destruct (IH it fuel ltac:(lia) (in_row_step _ _ _ _ Hr) Hc Hh) as (b & it' & p' & Hrun & Hsame & Hp & Hs & Hb).
    exists b, it', p'. split; [done|]. do 3 (split; [done|]). intros Hbt. destruct (Hb Hbt) as [? Hlt]. split; [done|].
    unfold to_do in *. cbn [length]. lia.
Qed.

(** The first part of a row, and the following ones. *)
Lemma next_first it r : ptr it = Some r -> in_row it r r -> col it = -1 -> hit_target_line it = true ->
  exists it', next it = inr (true, it') /\ same_row it it' /\ part_at it' r r /\ to_do it' r r = to_do it r r.
Proof.
  intros Hp Hr Hc Hh. unfold next. rewrite Hp, Hc. cbn [Z.eqb Pos.eqb].
  pose proof Hr as [H1 H2 H3 H4 H5 H6 H7].
  destruct (update_length_ok r (at_line 0 (line_in_block it) (max_line_in_block it) (target_line_in_block it)
    (hit_target_line it) it) H3) as (l & w & -> & Hl & Hw).
  eexists. split; [reflexivity|]. split; [done|]. split; [|done].
  split; [done|]. split; [eapply in_row_ext; [exact Hr|done..]|]. done.
Qed.

Lemma next_part it p r : part_at it p r -> next_result it p r (next it).
Proof.
  intros (Hp & Hr & Hh & Hl & Hc & _). unfold next. rewrite Hp. rewrite (proj2 (Z.eqb_neq _ _)) by lia.
  pose proof Hr as [H1 H2 H3 H4 H5 H6 H7].
  assert (Hr2 : in_row it (drop (len it) p) r).
  { split; try done; [|rewrite length_drop; lia]. etrans; [|exact H2]. exists (take (len it) p). symmetry. apply take_drop. }
  destruct (next_loop_ok r (drop (len it) p) it (S (S (length (drop (len it) p) + length (default [] (rowstart it)))))) as
    (b & it' & p' & Hrun & Hsame & Hp' & Hs & Hb); [rewrite H1; cbn; lia|done|done|done|].
  exists b, it', p'. split; [exact Hrun|]. do 3 (split; [done|]). intros Hbt. destruct (Hb Hbt) as [? Hlt]. split; [done|].
  unfold to_do in *. rewrite length_drop in Hlt. lia.
Qed.

(** *** Loops over the parts of a row *)

(** At the start of a row. *)
Definition at_row (it : LinePartIterator) (r : text) : Prop :=
  ptr it = Some r /\ in_row it r r /\ col it = -1 /\ hit_target_line it = true /\ target_line_in_block it = 0.

Section ForParts.
Context {A : Type} (f : LinePartIterator -> A -> exn + A) (P : A -> Prop) (r : text).
Context (Hf : forall it p a, part_at it p r -> P a -> exists a', f it a = inr a' /\ P a').

Lemma for_parts_more fuel : forall it p a, part_at it p r -> to_do it p r < Z.of_nat fuel -> P a ->
  exists it' p' a', for_parts fuel f it a = inr (it', a') /\ P a' /\ same_row it it' /\ ptr it' = Some p' /\ p' `suffix_of` r.
Proof.
  induction fuel as [|fuel IH]; intros it p a Hp Hlt Ha.
  { destruct Hp as (_ & [_ _ _ _ _ ? _] & _). unfold to_do in Hlt. destruct (hit_target_line it); nia. }
  cbn [for_parts]. destruct (next_part it p r Hp) as (b & it' & p' & -> & Hsame & Hp' & Hs & Hb). destruct b.
  2:{ exists it', p', a. done. }
  destruct (Hb eq_refl) as [Hpart Hlt2]. destruct (Hf it' p' a Hpart Ha) as (a' & -> & Ha').
  destruct (IH it' p' a' Hpart ltac:(lia) Ha') as (it2 & p2 & a2 & Hrun & Ha2 & Hsame2 & Hp2 & Hs2).
  exists it2, p2, a2. split_and!; try done. by eapply same_row_trans.
Qed.

Lemma for_parts_ok it a : at_row it r -> P a ->
  exists it' p' a', for_parts (parts_fuel it) f it a = inr (it', a') /\ P a' /\ same_row it it' /\ ptr it' = Some p' /\
    p' `suffix_of` r.
Proof.
  intros (Hp & Hr & Hc & Hh & Ht) Ha. pose proof Hr as [Hrow _ _ _ _ _ _].
  destruct (next_first it r Hp Hr Hc Hh) as (it1 & Hrun & Hsame & Hpart & Hdo).
  destruct (Hf it1 r a Hpart Ha) as (a1 & Hf1 & Ha1).
  destruct (for_parts_more (pred (parts_fuel it)) it1 r a1) as (it2 & p2 & a2 & Hrun2 & Ha2 & Hsame2 & Hp2 & Hs2);
    [done| |done|].
  { rewrite Hdo. unfold to_do, parts_fuel. rewrite Hrow, Ht, Hh. cbn [default from_option id pred]. nia. }
  exists it2, p2, a2. split_and!; try done; [|by eapply same_row_trans].
  unfold parts_fuel in *. cbn [pred] in Hrun2. cbn [for_parts]. by rewrite Hrun, Hf1.
Qed.
End ForParts.

(** *** Loops over the rows of a table *)

Section Rows.
Context (usage : list Descriptor).

Definition texts_ok : Prop :=
  Forall (fun d => match help d with Some s => no_ff (list_ascii_of_string s) | None => True end) usage.
Context (Husage : texts_ok).

Definition entry_size (d : Descriptor) : nat := S (String.length (default EmptyString (help d))).
Definition rows_left (d : nat) (r : text) : nat := length r + sum_list (entry_size <$> drop (S d) usage).

Lemma sum_entries n l : sum_list (n :: l) = (n + sum_list l)%nat.
Proof. done. Qed.

Lemma entries_drop i : (sum_list (entry_size <$> drop i usage) <= sum_list (entry_size <$> usage))%nat.
Proof.
  clear Husage. revert i. induction usage as [|d u IH]; intros [|i]; cbn [drop]; [done..|].
  rewrite fmap_cons, sum_entries. specialize (IH i). lia.
Qed.

Definition row_state (it : LinePartIterator) (d : nat) (r : text) : Prop :=
  rowdesc it = Some d /\ rowstart it = Some r /\ no_ff r.

Lemma list_ascii_length s : length (list_ascii_of_string s) = String.length s.
Proof. induction s; cbn; [done|by f_equal]. Qed.

Lemma help_at_ok i h : help_at usage i = Some h -> no_ff h /\
  exists d, usage !! i = Some d /\ entry_size d = S (length h) /\ drop i usage = d :: drop (S i) usage.
Proof.
  unfold help_at. destruct (usage !! i) as [d|] eqn:E; [|done]. cbn [mbind option_bind].
  destruct (help d) as [s|] eqn:Es; [|done]. intros [= <-]. unfold texts_ok in Husage. rewrite Forall_lookup in Husage.
  specialize (Husage i d E). rewrite Es in Husage. split; [done|]. exists d. split; [done|]. split; [|by apply drop_S].
  unfold entry_size. rewrite Es, list_ascii_length. done.
Qed.

Lemma restart_at_row it r : rowstart it = Some r -> no_ff r -> at_row (restartRow it) r.
Proof.
  intros Hr Hff. unfold at_row, restartRow. cbn [ptr rowstart col hit_target_line target_line_in_block].
  split; [done|]. split; [|done]. split; cbn [rowstart line_in_block max_line_in_block target_line_in_block col]; done || lia.
Qed.

Lemma row_end_suffix p : row_end p `suffix_of` p.
Proof. induction p as [|c p IH]; [done|]. cbn [row_end]. destruct (Ascii.eqb c NL); [done|]. by apply suffix_cons_r. Qed.

Lemma next_row_more it d r p : row_state it d r -> ptr it = Some p -> p `suffix_of` r ->
  exists b it', nextRow usage it = inr (b, it') /\ tablestart it' = tablestart it /\ is_Some (rowdesc it') /\
    (b = true -> exists d' r', row_state it' d' r' /\ at_row it' r' /\ (rows_left d' r' < rows_left d r)%nat).
Proof.
  intros (Hd & Hr & Hff) Hp Hs. unfold nextRow. rewrite Hp, Hd.
  pose proof (row_end_suffix p) as He. destruct (row_end p) as [|c q].
  - destruct (help_at usage (S d)) as [h|] eqn:Eh.
    + destruct (help_at_ok _ _ Eh) as (Hffh & x & _ & Hx & Hdrop). eexists true, _. split; [reflexivity|].
      split; [done|]. split; [done|]. intros _. exists (S d), h. split; [done|]. split; [by apply restart_at_row|].
      unfold rows_left. rewrite Hdrop, fmap_cons, sum_entries, Hx. lia.
    + eexists false, _. split; [reflexivity|]. split; [done|]. by split.
  - assert (Hq : q `suffix_of` r) by (etrans; [|exact Hs]; by eapply suffix_cons_l).
    assert (Hql : (S (length q) <= length r)%nat).
    { apply suffix_length in Hs. apply suffix_length in He. cbn [length] in He. lia. }
    eexists true, _. split; [reflexivity|]. split; [done|]. split; [done|]. intros _. exists d, q.
    assert (Hffq : no_ff q) by (by eapply suffix_no_ff). split; [done|]. split; [by apply restart_at_row|].
    unfold rows_left. lia.
Qed.

Section ForRows.
Context {A : Type} (f : LinePartIterator -> A -> exn + (LinePartIterator * A)) (P : A -> Prop).
Context (Hf : forall it d r a, row_state it d r -> at_row it r -> P a -> exists it' p a', f it a = inr (it', a') /\ P a' /\
  same_row it it' /\ ptr it' = Some p /\ p `suffix_of` r).

Lemma for_rows_more fuel : forall it d r a, row_state it d r -> at_row it r -> (rows_left d r < fuel)%nat -> P a ->
  exists it' p a' it2 a2, f it a = inr (it', a') /\ P a' /\ ptr it' = Some p /\ for_rows usage fuel f it' a' = inr (it2, a2) /\ P a2 /\
    tablestart it2 = tablestart it /\ is_Some (rowdesc it2).
Proof.
  induction fuel as [|fuel IH]; intros it d r a Hst Hrow Hlt Ha; [lia|].
  destruct (Hf it d r a Hst Hrow Ha) as (it1 & p1 & a1 & Hrun & Ha1 & (S1 & S2 & S3) & Hp1 & Hs1).
  exists it1, p1, a1. cbn [for_rows]. destruct Hst as (T1 & T2 & T3).
  destruct (next_row_more it1 d r p1) as (b & it' & -> & Hts & Hrd & Hb); [split_and!; congruence || done|done|done|].
  destruct b; [|exists it', a1; split_and!; try done; congruence].
  destruct (Hb eq_refl) as (d' & r' & Hst' & Hrow' & Hlt').
  destruct (IH it' d' r' a1 Hst' Hrow' ltac:(lia) Ha1) as (it2 & p2 & a2 & it3 & a3 & Hf2 & _ & _ & Hrun3 & Ha3 & Hts3 & Hrd3).
  exists it3, a3. rewrite Hf2. split_and!; try done. congruence.
Qed.

Lemma for_rows_ok it a : is_Some (help_at usage (tablestart it)) -> P a ->
  exists it' a', for_rows usage (S (rows_fuel usage)) f (restartTable usage it) a = inr (it', a') /\ P a' /\
    tablestart it' = tablestart it /\ is_Some (rowdesc it').
Proof.
  intros [h Hh] Ha. destruct (help_at_ok _ _ Hh) as (Hff & x & Hx & Hsize & Hdrop).
  assert (Hst : row_state (restartRow (restartTable usage it)) (tablestart it) h) by (by split_and!).
  assert (Hrow : at_row (restartRow (restartTable usage it)) h) by (by apply restart_at_row).
  destruct (for_rows_more (rows_fuel usage) _ _ _ a Hst Hrow) as (it1 & p1 & a1 & it2 & a2 & Hf1 & _ & _ & Hrun & Ha2 & Hts & Hrd);
    [|done|].
  - unfold rows_left, rows_fuel. fold entry_size. pose proof (entries_drop (tablestart it)) as Hsum.
    rewrite Hdrop, fmap_cons, sum_entries, Hsize in Hsum. unfold entry_size in *. lia.
  - exists it2, a2. cbn [for_rows]. unfold nextRow. cbn [restartTable ptr rowstart]. rewrite Hh. rewrite Hf1. done.
Qed.
End ForRows.

(** *** The widths *)

Definition width_ok (threshold w : Z) : Prop := 0 <= w /\ (w = 0 \/ w < threshold).
Definition layout_ok (threshold : Z) (l : layout) : Prop :=
  (fst l < maxcolumns)%nat /\ length (snd l) = maxcolumns /\ Forall (width_ok threshold) (snd l).

Lemma measure_part_ok threshold it p r l : part_at it p r -> layout_ok threshold l -> layout_ok threshold (measure_part threshold it l).
Proof.
  intros (_ & _ & _ & _ & _ & Hs) (H1 & H2 & H3). unfold measure_part. destruct l as [last ws]. cbn [fst snd] in *.
  destruct (Nat.ltb_spec (column it) maxcolumns) as [Hc|Hc]; [|by split_and!].
  split; cbn [fst snd]; [lia|]. destruct (Z.ltb_spec (screenlen it) threshold); cbn [andb]; [|by split_and!].
  destruct (in_table it); [|by split_and!]. split; [by rewrite length_insert|]. apply Forall_insert; [done|].
  destruct (lookup_lt_is_Some_2 ws (column it)) as [w Hw]; [by rewrite H2|]. rewrite Hw. cbn [default from_option id].
  rewrite Forall_lookup in H3. destruct (H3 _ _ Hw) as [Hw0 Hw1]. split; lia.
Qed.

(** The iterator stays in its table. *)
Definition in_same_table (it it' : LinePartIterator) : Prop := tablestart it' = tablestart it /\ is_Some (rowdesc it').

Lemma measure_table_ok threshold it : is_Some (help_at usage (tablestart it)) ->
  exists it' l, measure_table usage threshold it = inr (it', l) /\ layout_ok threshold l /\ in_same_table it it'.
Proof.
  intros Hh. unfold measure_table.
  destruct (for_rows_ok (fun it l => for_parts (parts_fuel it) (fun it l => inr (measure_part threshold it l)) it l)
    (layout_ok threshold)) with (it := it) (a := (0%nat, replicate maxcolumns 0)) as (it' & l & Hrun & Hl & Ht); [|done| |by exists it', l].
  - intros it1 d r l1 _ Hrow Hl1.
    destruct (for_parts_ok (fun it l => inr (measure_part threshold it l)) (layout_ok threshold) r) with (it := it1) (a := l1)
      as (it' & p' & l' & Hrun & Hl' & Hs & Hp & Hsuf); [|done|done|by exists it', p', l'].
    intros it2 p l2 Hp Hl2. eexists. split; [done|]. by eapply measure_part_ok.
  - split_and!; [cbn; unfold maxcolumns; lia|done|]. apply Forall_replicate. split; lia.
Qed.

Lemma left_of_bound threshold l leftwidth widest : layout_ok threshold l -> left_of l = (leftwidth, widest) ->
  0 < leftwidth -> 0 < widest < threshold.
Proof.
  intros (_ & _ & Hws) [= <- <-] Hpos. apply (Forall_take _ (fst l)) in Hws. revert Hpos.
  assert (H : 0 <= foldr Z.max 0 (take l.1 l.2) /\ (0 < foldr Z.add 0 (take l.1 l.2) -> 0 < foldr Z.max 0 (take l.1 l.2)) /\
    (0 < foldr Z.max 0 (take l.1 l.2) -> foldr Z.max 0 (take l.1 l.2) < threshold)).
  { induction Hws as [|w ws [Hw0 Hw1] _ IH]; cbn [foldr]; lia. }
  lia.
Qed.

(** Each round ignores the widest column of the round before it. *)
Lemma find_widths_ok fuel width : 0 <= width -> forall threshold it, threshold < Z.of_nat fuel -> 0 <= threshold ->
  is_Some (help_at usage (tablestart it)) ->
  exists it' l t, find_widths usage fuel width threshold it = inr (it', l) /\ layout_ok t l /\ in_same_table it it' /\
    fst (left_of l) <= width.
Proof.
  intros Hw. induction fuel as [|fuel IH]; intros threshold it Hf Ht Hh; [lia|]. cbn [find_widths].
  destruct (measure_table_ok threshold it Hh) as (it1 & l & -> & Hl & Hts & Hrd).
  destruct (left_of l) as [leftwidth widest] eqn:El. destruct (Z.ltb_spec width leftwidth) as [Hlt|Hge].
  - pose proof (left_of_bound _ _ _ _ Hl El ltac:(lia)).
    destruct (IH widest it1) as (it2 & l2 & t & Hrun & Hl2 & [Hts2 Hrd2] & Hleft); [lia|lia|by rewrite Hts|].
    exists it2, l2, t. split_and!; try done. split; [congruence|done].
  - exists it1, l, threshold. split_and!; try done. by rewrite El.
Qed.

(** *** Printing *)

Definition wrapper_ok (w : LineWrapper) : Prop := 2 <= wr_width w /\ exists q, queued w q.
Definition printer_ok (p : printer) : Prop := wrapper_ok (lastColumn p) /\ wrapper_ok (interjection p).

Lemma wrapper_ok_new x1 x2 : wrapper_ok (new_wrapper x1 x2).
Proof. split; [cbn; lia|]. exists []. apply queued_new. Qed.

Lemma process_ok w s : wrapper_ok w -> no_ff s -> exists w' t, process s w = inr (w', t) /\ wrapper_ok w'.
Proof.
  intros [Hw [q Hq]] Hff. destruct (process_spec s w q Hff Hw Hq) as (ds & q' & out & w' & _ & _ & _ & Hrun & Hq' & _ & Hw' & _).
  eexists _, _. split; [exact Hrun|]. split; [lia|eauto].
Qed.

Lemma flush_ok w : wrapper_ok w -> exists w' t, flush w = inr (w', t) /\ wrapper_ok w'.
Proof.
  intros [Hw [q Hq]]. destruct (flush_spec w q Hq) as (w' & Hrun & Hq' & _ & Hw'). eexists _, _. split; [exact Hrun|].
  split; [lia|eauto].
Qed.

Lemma wrap_ok in_last s p : printer_ok p -> no_ff s -> exists p', wrap in_last s p = inr p' /\ printer_ok p'.
Proof.
  intros [H1 H2] Hff. unfold wrap.
  destruct (process_ok (if in_last then lastColumn p else interjection p) s) as (w & t & -> & Hw); [by destruct in_last|done|].
  destruct in_last; eexists; (split; [done|]); by split.
Qed.

Lemma data_ok it p r : part_at it p r -> no_ff (data it).
Proof.
  intros (Hp & [_ Hs Hff _ _ _ _] & _). unfold data. rewrite Hp. cbn [default from_option id]. apply Forall_take. by eapply suffix_no_ff.
Qed.

Lemma print_part_ok c it p r pr : part_at it p r -> printer_ok pr -> exists pr', print_part c it pr = inr pr' /\ printer_ok pr'.
Proof.
  intros Hp Hpr. pose proof (data_ok it p r Hp) as Hff. unfold print_part. destruct (_ <? _)%nat; [by exists pr|].
  set (pr1 := if (column it =? 0)%nat then _ else pr). assert (H1 : printer_ok pr1) by (unfold pr1; by destruct (_ =? _)%nat).
  destruct (indent _ _) as [t x]. destruct (_ && _); [eexists; split; [done|]; exact H1|].
  destruct (_ || _); [|eexists; split; [done|]; exact H1]. apply wrap_ok; [exact H1|done].
Qed.

Lemma print_own_line_ok c it p r pr : part_at it p r -> printer_ok pr -> exists pr', print_own_line c it pr = inr pr' /\ printer_ok pr'.
Proof.
  intros Hp Hpr. unfold print_own_line. destruct (_ =? _)%nat; [|by exists pr]. apply wrap_ok; [exact Hpr|]. by eapply data_ok.
Qed.

Lemma print_row_ok c it d r p : row_state it d r -> at_row it r -> printer_ok p ->
  exists it' q p', print_row c it p = inr (it', p') /\ printer_ok p' /\ same_row it it' /\ ptr it' = Some q /\ q `suffix_of` r.
Proof.
  intros (T1 & T2 & T3) Hrow Hp. unfold print_row.
  destruct (for_parts_ok (print_part c) printer_ok r) with (it := it)
    (a := mkPrinter (-1) (lastColumn p) (interjection p) (pr_out p))
    as (it1 & q1 & p1 & -> & Hp1 & Hs1 & Hq1 & Hsuf1); [intros; by eapply print_part_ok|done|exact Hp|].
  assert (Hown : exists it2 q2 p2, (if print_last_column_on_own_line c
      then for_parts (parts_fuel it1) (print_own_line c) (restartRow it1) p1 else inr (it1, p1)) = inr (it2, p2) /\
    printer_ok p2 /\ same_row it it2 /\ ptr it2 = Some q2 /\ q2 `suffix_of` r).
  { destruct (print_last_column_on_own_line c); [|by exists it1, q1, p1]. pose proof Hs1 as (_ & _ & R3).
    destruct (for_parts_ok (print_own_line c) printer_ok r) with (it := restartRow it1) (a := p1)
      as (it2 & q2 & p2 & Hrun & Hp2 & Hs2 & Hq2 & Hsuf2); [intros; by eapply print_own_line_ok|apply restart_at_row; congruence || done|done|].
    exists it2, q2, p2. split; [exact Hrun|]. split_and!; try done. eapply same_row_trans; [exact Hs1|]. exact Hs2. }
  destruct Hown as (it2 & q2 & p2 & -> & Hp2 & Hs2 & Hq2 & Hsuf2). destruct Hp2 as [H1 H2].
  unfold flush_both. destruct (flush_ok (lastColumn (emit [NL] p2)) H1) as (w1 & t1 & -> & Hw1).
  destruct (flush_ok (interjection (emit [NL] p2)) H2) as (w2 & t2 & -> & Hw2).
  exists it2, q2. eexists. split; [done|]. by split_and!.
Qed.

Lemma print_table_ok c it out : is_Some (help_at usage (tablestart it)) ->
  exists it' out', print_table usage c it out = inr (it', out') /\ in_same_table it it'.
Proof.
  intros Hh. unfold print_table. set (p := mkPrinter _ _ _ _).
  destruct (for_rows_ok (print_row c) printer_ok) with (it := it) (a := p) as (it' & p' & -> & _ & Ht);
    [intros; by eapply print_row_ok|done|split; apply wrapper_ok_new|]. by exists it', (pr_out p').
Qed.

(** Every table begins behind the one before it. *)
Lemma skip_help l d rest : l = d :: rest -> is_Some (help d) -> (0 < skip_entries true l)%nat.
Proof. intros -> Hd. cbn [skip_entries]. rewrite bool_decide_true by done. lia. Qed.

Lemma skip_entries_le b l : (skip_entries b l <= length l)%nat.
Proof. induction l as [|d l IH]; cbn [skip_entries length]; [done|]. destruct (bool_decide _), b; lia. Qed.

Lemma print_tables_ok width min_width own : 0 <= width -> forall fuel it out,
  (length usage + (match rowdesc it with Some _ => 0 | None => 1 end) <= fuel + tablestart it)%nat ->
  (0 < fuel)%nat ->
  (is_Some (rowdesc it) -> is_Some (help_at usage (tablestart it))) ->
  exists out', print_tables usage fuel width min_width own it out = inr out'.
Proof.
  intros Hw. induction fuel as [|fuel IH]; intros it out Hf Hpos Hit; [lia|]. cbn [print_tables].
  destruct (nextTable usage it) as [b it1] eqn:En. unfold nextTable in En.
  assert (Hb : match rowstart it1 with Some _ => true | None => false end = b) by (by injection En as <- <-).
  injection En as _ Hit1.
  set (t := (match rowdesc it with Some _ => tablestart it + skip_entries true (drop (tablestart it) usage) | None => tablestart it end)%nat) in *.
  destruct b; [|eauto].
  assert (Hts : tablestart it1 = (t + skip_entries false (drop t usage))%nat) by (by rewrite <-Hit1).
  assert (Hh : is_Some (help_at usage (tablestart it1))).
  { assert (Hrow : rowstart it1 = help_at usage (tablestart it1)) by (by rewrite <-Hit1).
    rewrite Hrow in Hb. destruct (help_at usage (tablestart it1)); [by eexists|done]. }
  destruct (find_widths_ok (S (Z.to_nat overlong)) width Hw overlong it1) as (it2 & l & th & -> & _ & [Hts2 Hrd2] & _);
    [unfold overlong; lia|unfold overlong; lia|done|].
  destruct (print_table_ok (place_columns width min_width own l) it2 out) as (it3 & out3 & -> & Hts3 & Hrd3); [by rewrite Hts2|].
  assert (Hlt : (tablestart it1 < length usage)%nat).
  { destruct Hh as [h Hh]. apply help_at_ok in Hh as (_ & d & Hd & _). by apply lookup_lt_Some in Hd. }
  assert (Hnext : (match rowdesc it with Some _ => S (tablestart it) | None => tablestart it end <= tablestart it1)%nat).
  { rewrite Hts. unfold t. destruct (rowdesc it) as [d|] eqn:Erd; [|lia]. destruct (Hit ltac:(done)) as [h Hh'].
    unfold help_at in Hh'. destruct (usage !! tablestart it) as [x|] eqn:Ex; [|done].
    pose proof (skip_help _ x _ (drop_S _ _ _ Ex)). cbn [mbind option_bind] in Hh'. destruct (help x); [|done].
    specialize (H ltac:(done)). lia. }
  destruct Hrd3 as [d3 Hrd3]. apply IH.
  - rewrite Hrd3, Hts3, Hts2. destruct (rowdesc it); lia.
  - destruct (rowdesc it); lia.
  - intros _. by rewrite Hts3, Hts2.
Qed.
End Rows.

(** ** The column and the whole text *)

(** One line of output after the other. *)
Fixpoint process_all (ss : list text) (w : LineWrapper) : exn + (LineWrapper * list text) :=
  match ss with
  | [] => inr (w, [])
  | s :: ss =>
      match process s w with
      | inl e => inl e
      | inr (w, t) => match process_all ss w with inl e => inl e | inr (w, ts) => inr (w, t :: ts) end
      end
  end.

Lemma process_all_spec ss : forall w q, Forall no_ff ss -> 2 <= wr_width w -> queued w q ->
  exists dss outs q' w', process_all ss w = inr (w', lines_text false (wr_x w) <$> outs) /\
    Forall2 (wrapped (wr_width w)) ss dss /\ q ++ concat dss = concat outs ++ q' /\ length outs = length ss /\
    queued w' q' /\ wr_x w' = wr_x w.
Proof.
  induction ss as [|s ss IH]; intros w q Hff Hw Hq; cbn [process_all].
  { exists [], [], q, w. split_and!; try done. by rewrite app_nil_r. }
  apply Forall_cons in Hff as [Hs Hff]. destruct (process_spec s w q Hs Hw Hq) as (ds & q1 & out & w1 & Hds & Heq & _ & -> & Hq1 & Hx1 & Hw1 & _).
  destruct (IH w1 q1 Hff ltac:(lia) Hq1) as (dss & outs & q2 & w2 & -> & Hdss & Heq2 & Hlen & Hq2 & Hx2).
  exists (ds :: dss), (out :: outs), q2, w2. rewrite Hx1, Hw1 in *. split_and!; try done.
  - by constructor.
  - cbn [concat]. by rewrite app_assoc, Heq, <-app_assoc, Heq2, app_assoc.
  - cbn. by rewrite Hlen.
Qed.

Lemma printUsage_total usage width p1 p2 : texts_ok usage -> exists t, printUsage usage width p1 p2 = inr t.
Proof.
  intros Hu. unfold printUsage. cbv zeta. apply print_tables_ok; [done| |cbn; lia|lia|by intros [? ?]].
  destruct (Z.ltb_spec width 1); [done|]. destruct (Z.ltb_spec 10000 width); lia.
Qed.

(** (C11) The usage text.  For every array of entries, whatever the widths asked for,
    [printUsage] ends without leaving a text or a buffer.  A column from [x1] to
    [x2] never gets a line of more columns on the screen than it has, wide
    characters counted twice (but two, if it has less); through the ring buffer,
    which holds at most fifteen lines, the lines come out in their order, some
    with each part and the rest at the flush; and together, with the spaces at
    which they were cut, they are the texts that were put in. *)
Theorem printUsage_correct :
  (forall usage width p1 p2, texts_ok usage -> exists t, printUsage usage width p1 p2 = inr t) /\
  (forall x1 x2 ss, Forall no_ff ss ->
    exists dss outs q w w', process_all ss (new_wrapper x1 x2) = inr (w, lines_text false x1 <$> outs) /\
      flush w = inr (w', flushed_text x1 q) /\
      Forall2 (wrapped (Z.max 2 (x2 - x1))) ss dss /\ concat dss = concat outs ++ q /\
      length outs = length ss /\ (length q <= 15)%nat).
Proof.
  split; [apply printUsage_total|]. intros x1 x2 ss Hff.
  destruct (process_all_spec ss (new_wrapper x1 x2) [] Hff ltac:(cbn; lia) (queued_new x1 x2))
    as (dss & outs & q & w & Hrun & Hdss & Heq & Hlen & Hq & Hx).
  destruct (flush_spec w q Hq) as (w' & Hflush & _). rewrite Hx in Hflush.
  exists dss, outs, q, w, w'. split_and!; try done. exact (q_length _ _ Hq).
Qed.

Definition ex_text : text := list_ascii_of_string "a line that is too long".

Lemma printUsage_correct_witness :
  (exists t, printUsage [mkDesc 0 EmptyString EmptyString Arg_None (Some "Options:"%string)] 80 50 75 = inr t) /\
  exists dss outs q w w', process_all [ex_text; ex_text] (new_wrapper 4 16) = inr (w, lines_text false 4 <$> outs) /\
    flush w = inr (w', flushed_text 4 q) /\ concat dss = concat outs ++ q /\ Forall2 (wrapped 12) [ex_text; ex_text] dss.
Proof.
  destruct printUsage_correct as [Htotal Hcolumn].
  assert (Hff : no_ff ex_text) by (apply (bool_decide_unpack _); vm_compute; exact I).
  split.
  - apply Htotal. apply Forall_singleton. cbn [help]. apply (bool_decide_unpack _). vm_compute. exact I.
  - destruct (Hcolumn 4 16 [ex_text; ex_text]) as (dss & outs & q & w & w' & H1 & H2 & H3 & H4 & _); [by repeat constructor|].
    exists dss, outs, q, w, w'. split; [exact H1|]. split; [exact H2|]. split; [exact H4|exact H3].
Defined.

(** The column at work: two lines are cut at spaces, the rest comes with the flush. *)
Example wrapped_column :
  (fun r => match r with
            | inr (w, ts) => (string_of_list_ascii <$> ts,
                match flush w with inr (_, t) => Some (string_of_list_ascii t) | inl _ => None end)
            | inl _ => ([], None) end) (process_all [ex_text] (new_wrapper 2 14)) =
  (["a line that"%string], Some ("  is too long" ++ String NL EmptyString)%string).
Proof. vm_compute. reflexivity. Qed.
