(* ===== verification/OptionParserProps.v ===== *)
(** * The option parser reads every command line

    The lists of options are kept as circles of links; the arrays have the sizes
    the program needs; and what is in the lists are the options of the command line
    in their order. *)
From Stdlib Require Import Ascii String.
From S2P Require Import Prelude CxxStd OptionParser.
Local Open Scope list_scope.
Local Open Scope nat_scope.

(** ** Circles *)

Lemma node_at_set p n s q : is_Some (node_at s p) ->
  node_at (set_node p n s) q = if decide (q = p) then Some n else node_at s q.
Proof.
  intros Hp. destruct p as [i|k], q as [j|m]; cbn [node_at set_node options buffer] in *;
    try (rewrite decide_False by done; done).
  - destruct (decide (in_options j = in_options i)) as [[= ->]|Hne].
    + apply list_lookup_insert_eq. by apply lookup_lt_is_Some.
    + apply list_lookup_insert_ne. congruence.
  - destruct (decide (in_buffer m = in_buffer k)) as [[= ->]|Hne].
    + apply list_lookup_insert_eq. by apply lookup_lt_is_Some.
    + apply list_lookup_insert_ne. congruence.
Qed.

Lemma store_size_set p n s : store_size (set_node p n s) = store_size s.
Proof. destruct p; unfold store_size; cbn [set_node options buffer]; by rewrite length_insert. Qed.

(** The links of the [j]-th element of a list of places that starts with [p0]. *)
Definition link_next (p0 : place) (l : list place) (j : nat) : link :=
  match l !! S j with Some q => (false, q) | None => tag p0 end.
Definition link_prev (l : list place) (j : nat) : link :=
  match j with O => tag (default (in_options 0) (last l)) | S i => (false, default (in_options 0) (l !! i)) end.

(** The places [p0 :: ps] are linked in this order and hold the options [os]. *)
Definition circle (s : store) (p0 : place) (ps : list place) (os : list Option) : Prop :=
  length os = length (p0 :: ps) /\ NoDup (p0 :: ps) /\
  forall j p o, (p0 :: ps) !! j = Some p -> os !! j = Some o ->
    node_at s p = Some (mkNode (link_next p0 (p0 :: ps) j) (link_prev (p0 :: ps) j) o).

Lemma circle_head s p0 ps os : circle s p0 ps os -> exists o, head os = Some o /\
  node_at s p0 = Some (mkNode (link_next p0 (p0 :: ps) 0) (tag (default p0 (last ps))) o).
Proof.
  intros (Hl & _ & Hc). destruct os as [|o os]; [done|]. exists o. split; [done|].
  rewrite (Hc 0 p0 o) by done. unfold link_prev. rewrite last_cons. by destruct (last ps).
Qed.

(** Storing elsewhere does not matter. *)
Lemma circle_frame s p0 ps os s' : circle s p0 ps os ->
  (forall p, p ∈ p0 :: ps -> node_at s' p = node_at s p) -> circle s' p0 ps os.
Proof.
  intros (Hl & Hnd & Hc) Hs. split; [done|]. split; [done|]. intros j p o Hp Ho.
  rewrite Hs by (by eapply list_elem_of_lookup_2). by apply Hc.
Qed.

Lemma last_append s p0 ps os : circle s p0 ps os ->
  first (S (store_size s)) s p0 = inr p0 /\ last_of (S (store_size s)) s p0 = inr (default p0 (last ps)).
Proof.
  intros Hc. destruct (circle_head _ _ _ _ Hc) as (o & _ & Hn).
  assert (Hf : first (S (store_size s)) s p0 = inr p0).
  { cbn [first]. unfold get_node. by rewrite Hn. }
  split; [done|]. unfold last_of. rewrite Hf. unfold get_node. by rewrite Hn.
Qed.

Lemma set_next_run p l s n : node_at s p = Some n ->
  set_next p l s = inr (set_node p (mkNode l (prev_ n) (value n)) s).
Proof. intros Hn. unfold set_next, get_node. by rewrite Hn. Qed.
Lemma set_prev_run p l s n : node_at s p = Some n ->
  set_prev p l s = inr (set_node p (mkNode (next_ n) l (value n)) s).
Proof. intros Hn. unfold set_prev, get_node. by rewrite Hn. Qed.

(** The nodes after [append]. *)
Lemma append_nodes s p0 ps os new o : circle s p0 ps os -> new ∉ p0 :: ps ->
  node_at s new = Some (fresh_node o new) ->
  exists s', append p0 new s = inr s' /\ store_size s' = store_size s /\
    length (options s') = length (options s) /\ length (buffer s') = length (buffer s) /\
    forall q, node_at s' q =
      if decide (q = new) then Some (mkNode (tag p0) (false, default p0 (last ps)) o) else
      match node_at s q with
      | Some n => Some (mkNode (if decide (q = default p0 (last ps)) then (false, new) else next_ n)
                         (if decide (q = p0) then tag new else prev_ n) (value n))
      | None => None
      end.
Proof.
  intros Hc Hnew Hn. destruct (last_append _ _ _ _ Hc) as [Hf Hl].
  unfold append. rewrite Hl, Hf. set (pl := default p0 (last ps)).
  assert (Hpl : pl ∈ p0 :: ps).
  { unfold pl. destruct (last ps) as [x|] eqn:E; [|left]. right. by apply last_Some_elem_of. }
  assert (Hat : forall p, p ∈ p0 :: ps -> exists n, node_at s p = Some n).
  { intros p Hp. apply list_elem_of_lookup_1 in Hp as [j Hj]. destruct Hc as (Hlen & _ & Hc).
    destruct (lookup_lt_is_Some_2 os j) as [x Hx]; [rewrite Hlen; by eapply lookup_lt_Some|]. eexists. by apply (Hc j p x). }
  destruct (Hat pl Hpl) as [nl Hnl]. destruct (Hat p0 ltac:(left)) as [n0 Hn0].
  assert (Hne : pl <> new /\ p0 <> new) by (split; intros E; apply Hnew; rewrite <-E; [exact Hpl|left]).
  destruct Hne as [Hne1 Hne2].
  rewrite (set_next_run _ _ _ nl Hnl). set (s1 := set_node pl _ s).
  assert (H1 : forall q, node_at s1 q = if decide (q = pl) then Some (mkNode (false, new) (prev_ nl) (value nl)) else node_at s q)
    by (intros q; apply node_at_set; by rewrite Hnl).
  rewrite (set_prev_run new _ s1 (fresh_node o new)) by (by rewrite H1, decide_False by done). set (s2 := set_node new _ s1).
  assert (H2 : forall q, node_at s2 q = if decide (q = new) then Some (mkNode (tag new) (false, pl) o) else node_at s1 q).
  { intros q. apply node_at_set. rewrite H1, decide_False by done. by rewrite Hn. }
  rewrite (set_next_run new _ s2 (mkNode (tag new) (false, pl) o)) by (by rewrite H2, decide_True by done).
  set (s3 := set_node new _ s2).
  assert (H3 : forall q, node_at s3 q = if decide (q = new) then Some (mkNode (tag p0) (false, pl) o) else node_at s2 q).
  { intros q. apply node_at_set. by rewrite H2, decide_True by done. }
  assert (Hn3 : node_at s3 p0 = Some (mkNode (if decide (p0 = pl) then (false, new) else next_ n0) (prev_ n0) (value n0))).
  { rewrite H3, decide_False, H2, decide_False, H1 by done. destruct (decide (p0 = pl)) as [E|E].
    - rewrite E in Hn0. rewrite Hnl in Hn0. by injection Hn0 as ->.
    - rewrite Hn0. by destruct n0. }
  rewrite (set_prev_run p0 _ s3 _ Hn3). eexists. split; [reflexivity|].
  split; [unfold s3, s2, s1; by rewrite !store_size_set|].
  assert (Hlen : forall p n s, length (options (set_node p n s)) = length (options s) /\
    length (buffer (set_node p n s)) = length (buffer s)).
  { intros [i|k] n s'; cbn [set_node options buffer]; by rewrite ?length_insert. }
  split; [unfold s3, s2, s1; by rewrite !(proj1 (Hlen _ _ _))|].
  split; [unfold s3, s2, s1; by rewrite !(proj2 (Hlen _ _ _))|].
  intros q. rewrite node_at_set by (by rewrite Hn3). cbn [next_ value].
  destruct (decide (q = p0)) as [->|Hq0].
  - rewrite (decide_False _ _ Hne2), Hn0. done.
  - rewrite H3. destruct (decide (q = new)) as [->|Hqn]; [done|]. rewrite H2, decide_False, H1 by done.
    destruct (decide (q = pl)) as [->|Hql]; [by rewrite Hnl|]. destruct (node_at s q) as [[]|]; done.
Qed.

Lemma append_circle s p0 ps os new o : circle s p0 ps os -> new ∉ p0 :: ps ->
  node_at s new = Some (fresh_node o new) ->
  exists s', append p0 new s = inr s' /\ circle s' p0 (ps ++ [new]) (os ++ [o]) /\
    (forall q, q ∉ p0 :: ps ++ [new] -> node_at s' q = node_at s q) /\
    length (options s') = length (options s) /\ length (buffer s') = length (buffer s).
Proof.
  intros Hc Hnew Hn. destruct (append_nodes _ _ _ _ _ _ Hc Hnew Hn) as (s' & Hrun & _ & Hlo & Hlb & Hnodes).
  exists s'. split; [done|]. pose proof Hc as (Hlen & Hnd & Hat). set (pl := default p0 (last ps)) in *.
  assert (Hlast : forall j p, (p0 :: ps) !! j = Some p -> p = pl <-> j = length ps).
  { intros j p Hj. assert (Hpl : (p0 :: ps) !! length ps = Some pl).
    { unfold pl. destruct ps as [|x ps'] using rev_ind; [done|]. rewrite last_snoc, length_app. cbn [length default from_option id].
      rewrite Nat.add_1_r. cbn [lookup list_lookup]. by apply list_lookup_middle. }
    split; [intros ->; by eapply NoDup_lookup|intros ->]. rewrite Hj in Hpl. by injection Hpl. }
  split_and!; [|intros q Hq|done|done].
  - split_and!.
    + rewrite length_app, Hlen. cbn [length]. rewrite length_app. cbn [length]. lia.
    + change (p0 :: ps ++ [new]) with ((p0 :: ps) ++ [new]). apply NoDup_app. split; [done|].
      split; [|apply NoDup_singleton]. intros q Hq Hq2. apply list_elem_of_singleton in Hq2 as ->. done.
    + change (p0 :: ps ++ [new]) with ((p0 :: ps) ++ [new]). intros j p x Hp Hx. rewrite Hnodes.
      unfold link_next, link_prev. rewrite last_snoc. cbn [default from_option id].
      destruct (Nat.lt_ge_cases j (length (p0 :: ps))) as [Hj|Hj].
      * rewrite lookup_app_l in Hp by done. rewrite lookup_app_l in Hx by (by rewrite Hlen).
        rewrite decide_False by (intros ->; by eapply Hnew, list_elem_of_lookup_2).
        rewrite (Hat j p x Hp Hx). cbn [next_ prev_ value]. specialize (Hlast j p Hp).
        assert (H0 : p = p0 <-> j = 0).
        { split; [intros ->; eapply (NoDup_lookup (p0 :: ps)); eauto|intros ->; by injection Hp]. }
        f_equal. f_equal.
        -- destruct (decide (p = pl)) as [E|E].
           ++ apply Hlast in E as ->. rewrite lookup_app_r by (cbn; lia). cbn [length]. by rewrite Nat.sub_diag.
           ++ assert (j <> length ps) by tauto. cbn [length] in Hj. rewrite lookup_app_l by (cbn [length]; lia). unfold link_next.
              destruct ((p0 :: ps) !! S j) as [q|] eqn:Hq; [done|]. apply lookup_ge_None_1 in Hq. cbn [length] in Hq. lia.
        -- destruct (decide (p = p0)) as [E|E]; [by apply H0 in E as ->|]. destruct j as [|j]; [by destruct E; apply H0|].
           cbn [link_prev]. by rewrite lookup_app_l by lia.
      * assert (j = length (p0 :: ps)) as ->.
        { apply lookup_lt_Some in Hp. rewrite length_app in Hp. cbn [length] in *. lia. }
        rewrite list_lookup_middle in Hp by done. injection Hp as <-.
        rewrite <-Hlen in Hx. rewrite list_lookup_middle in Hx by done. injection Hx as <-.
        rewrite decide_True by done. rewrite lookup_ge_None_2 by (rewrite length_app; cbn [length]; lia).
        f_equal. f_equal. cbn [length]. rewrite lookup_app_l by (cbn [length]; lia).
        f_equal. assert (Hpl : exists q, (p0 :: ps) !! length ps = Some q).
        { apply lookup_lt_is_Some_2. cbn [length]. lia. }
        destruct Hpl as [q Hq]. rewrite Hq. cbn [default from_option id]. symmetry. by apply (Hlast _ _ Hq).
  - assert (q ≠ new /\ q ∉ p0 :: ps) as [Hq1 Hq2].
    { rewrite elem_of_cons, elem_of_app, list_elem_of_singleton in Hq. split; [tauto|]. rewrite elem_of_cons. tauto. }
    rewrite Hnodes, decide_False by done. destruct (node_at s q) as [[nx pv v]|]; [|done]. cbn [next_ prev_ value].
    rewrite !decide_False; [done| |].
    + intros ->. apply Hq2. left.
    + intros ->. apply Hq2. unfold pl. destruct (last ps) as [x|] eqn:E; [|left]. right. by apply last_Some_elem_of.
Qed.

(** The elements of a circle, from one of its places on. *)
Lemma chain_from_circle s p0 ps os : circle s p0 ps os -> forall fuel j p, (p0 :: ps) !! j = Some p ->
  length os - j <= fuel -> chain_from fuel s p = inr (drop j os).
Proof.
  intros (Hlen & _ & Hat). induction fuel as [|fuel IH]; intros j p Hp Hf.
  { apply lookup_lt_Some in Hp. rewrite <-Hlen in Hp. lia. }
  assert (Hj : j < length os) by (apply lookup_lt_Some in Hp; by rewrite Hlen).
  destruct (lookup_lt_is_Some_2 os j Hj) as [o Ho]. cbn [chain_from]. unfold get_node.
  rewrite (Hat j p o Hp Ho). unfold next, isLast, isTagged, untag. cbn [next_ value].
  rewrite (drop_S _ _ _ Ho). unfold link_next. destruct ((p0 :: ps) !! S j) as [q|] eqn:Hq; cbn [fst snd tag].
  - by rewrite (IH (S j) q Hq ltac:(lia)).
  - apply lookup_ge_None_1 in Hq. rewrite drop_ge; [done|lia].
Qed.

(** ** The lists while options are stored *)

Section Store.
Context (usage : list Descriptor) (nopt nbuf : nat).
Implicit Types (o : Option) (s : store) (seen : list Option).

(** The place of an option in the array of options. *)
Definition option_place o : option nat := d ← desc o; index <$> usage !! d.

Definition options_of (i : nat) seen : list Option := filter (fun o => option_place o = Some i) seen.

(** An option the parser hands out: what [init] makes of its name and argument. *)
Definition made o : Prop :=
  o = init_option (desc o) (name o) (arg o) /\ exists i d, desc o = Some i /\ usage !! i = Some d.

(** The elements behind the first one of list [i] are elements of the buffer that
    were given to this list. *)
Definition owned seen (i : nat) (p : place) : Prop :=
  exists k o, p = in_buffer k /\ seen !! k = Some o /\ option_place o = Some i.

Definition holds_list seen s (i : nat) : Prop :=
  match options_of i seen with
  | [] => exists nd, node_at s (in_options i) = Some nd /\ used nd = false
  | os => exists ps, circle s (in_options i) ps os /\ Forall (owned seen i) ps
  end.

Record holds seen (st : nat * store) : Prop := mkHolds {
  holds_count : st.1 = length seen;
  holds_made : Forall made seen;
  holds_options : length (options st.2) = nopt;
  holds_buffer : length (buffer st.2) = nbuf;
  holds_lists : forall i, i < nopt -> holds_list seen st.2 i }.

Lemma holds_fresh : holds [] (0, fresh_store nopt nbuf).
Proof.
  split; [done|constructor|by cbn; rewrite length_map, length_seq|by cbn; rewrite length_map, length_seq|].
  intros i Hi. exists (fresh_node null_option (in_options i)). split; [|done].
  cbn. rewrite list_lookup_fmap, lookup_seq_lt by done. done.
Qed.

Lemma owned_weaken seen seen' i p : owned seen i p -> owned (seen ++ seen') i p.
Proof. intros (k & o & -> & Hk & Ho). exists k, o. by rewrite lookup_app_l by (by eapply lookup_lt_Some). Qed.

Lemma options_of_app i seen o :
  options_of i (seen ++ [o]) = options_of i seen ++ (if decide (option_place o = Some i) then [o] else []).
Proof. unfold options_of. rewrite filter_app, filter_cons. by destruct (decide _). Qed.

Lemma in_circle seen i ps p : p ∈ in_options i :: ps -> Forall (owned seen i) ps -> p = in_options i \/ owned seen i p.
Proof. intros [->|Hp]%elem_of_cons Ho; [by left|right]. rewrite Forall_forall in Ho. by apply Ho. Qed.

(** A list stays when its places do. *)
Lemma holds_list_frame seen s s' i : holds_list seen s i ->
  (forall p, p = in_options i \/ owned seen i p -> node_at s' p = node_at s p) -> holds_list seen s' i.
Proof.
  unfold holds_list. intros Hl Hs. destruct (options_of i seen) as [|o os].
  - destruct Hl as (nd & Hn & Hu). exists nd. by rewrite Hs by (by left).
  - destruct Hl as (ps & Hc & Ho). exists ps. split; [|done]. eapply circle_frame; [done|].
    intros p Hp. apply Hs. by eapply in_circle.
Qed.

Lemma holds_list_more seen o s i : holds_list seen s i -> option_place o <> Some i -> holds_list (seen ++ [o]) s i.
Proof.
  unfold holds_list. intros Hl Hne. rewrite options_of_app, decide_False, app_nil_r by done.
  destruct (options_of i seen); [done|]. destruct Hl as (ps & Hc & Ho). exists ps. split; [done|].
  eapply Forall_impl; [done|]. intros p. apply owned_weaken.
Qed.

Lemma made_used o : made o -> forall l1 l2, used (mkNode l1 l2 o) = true.
Proof. intros (_ & i & d & Hd & _) l1 l2. unfold used. cbn [value]. by rewrite Hd. Qed.

(** The first element tells whether a list has options. *)
Lemma holds_list_head seen s i : Forall made seen -> holds_list seen s i ->
  exists nd, node_at s (in_options i) = Some nd /\ used nd = bool_decide (options_of i seen <> []).
Proof.
  intros Hm Hl. unfold holds_list in Hl. destruct (options_of i seen) as [|o os] eqn:E.
  { destruct Hl as (nd & Hn & Hu). exists nd. by rewrite bool_decide_false by (intros H; by apply H). }
  destruct Hl as (ps & Hc & _). destruct (circle_head _ _ _ _ Hc) as (x & [= <-] & Hn). eexists. split; [done|].
  rewrite bool_decide_true by done. apply made_used. rewrite Forall_forall in Hm. apply Hm.
  assert (o ∈ options_of i seen) as Hin by (rewrite E; left). by apply list_elem_of_filter in Hin as [].
Qed.

(** A list of one element. *)
Lemma circle_one o s p : is_Some (node_at s p) -> circle (set_node p (fresh_node o p) s) p [] [o].
Proof.
  intros Hp. split_and!; [done|apply NoDup_singleton|]. intros [|j] q x [= <-] [= <-].
  by rewrite node_at_set, decide_True by done.
Qed.

(** The element of the buffer that is written is not in a list yet. *)
Lemma not_owned seen i : ~ owned seen i (in_buffer (length seen)).
Proof. intros (k & o & [= <-] & Hk & _). apply lookup_lt_Some in Hk. lia. Qed.

(** The lists are disjoint. *)
Lemma owned_apart seen i j p : owned seen i p -> owned seen j p -> i = j.
Proof. intros (k & o & -> & Hk & Hi) (k' & o' & [= <-] & Hk' & Hj). rewrite Hk in Hk'. injection Hk' as <-. congruence. Qed.

Lemma option_entry o : made o -> exists i d, desc o = Some i /\ usage !! i = Some d /\ option_place o = Some (index d).
Proof.
  intros (_ & i & d & Hd & Hu). exists i, d. split_and!; [done|done|]. unfold option_place. rewrite Hd. cbn. by rewrite Hu.
Qed.

(** The other lists stay, and list [j] gets its new last element. *)
Lemma holds_snoc seen o s s' j : holds seen (length seen, s) -> made o -> option_place o = Some j ->
  length (options s') = nopt -> length (buffer s') = nbuf ->
  (forall i p, i <> j -> p = in_options i \/ owned seen i p -> node_at s' p = node_at s p) ->
  holds_list (seen ++ [o]) s' j -> holds (seen ++ [o]) (S (length seen), s').
Proof.
  intros [_ Hmade _ _ Hlists] Ho Hpl Hlo Hlb Hframe Hj. cbn [fst snd] in *. split; cbn [fst snd]; [..|done|done|].
  - rewrite length_app. cbn. lia.
  - apply Forall_app. split; [done|]. by constructor.
  - intros i Hi. destruct (decide (i = j)) as [->|Hne]; [done|].
    apply holds_list_more; [|rewrite Hpl; congruence].
    eapply holds_list_frame; [by apply Hlists|]. intros p. by apply Hframe.
Qed.

Lemma store_option_step seen o st : holds seen st -> made o -> length seen < nbuf -> (Z.of_nat nbuf < 2 ^ 31)%Z ->
  (forall j, option_place o = Some j -> j < nopt) ->
  exists st', store_option usage (-1) o st = inr (true, st') /\ holds (seen ++ [o]) st'.
Proof.
  destruct st as [n s]. intros Hh Ho Hn Hmax Hplace. pose proof Hh as [Hcount Hmade Hlo Hlb Hlists]. cbn [fst snd] in *. subst n.
  destruct (option_entry o Ho) as (d & e & Hd & He & Hj). pose proof Ho as [Hinit _].
  assert (Hbuf : is_Some (node_at s (in_buffer (length seen)))) by (apply lookup_lt_is_Some; by rewrite Hlb).
  unfold store_option. change ((-1 <? 0)%Z) with true. cbn [orb].
  rewrite (proj2 (Z.eqb_neq _ _)) by lia. unfold get_node at 1. destruct Hbuf as [nb Hbuf]. rewrite Hbuf.
  rewrite <-Hinit, Hd, He. cbv zeta.
  set (b := in_buffer (length seen)) in *. set (s1 := set_node b (fresh_node o b) s).
  assert (H1 : forall q, node_at s1 q = if decide (q = b) then Some (fresh_node o b) else node_at s q)
    by (intros q; apply node_at_set; by rewrite Hbuf).
  set (j := index e) in *. specialize (Hplace j Hj).
  destruct (holds_list_head _ _ _ Hmade (Hlists j Hplace)) as (nd & Hnd & Hused).
  unfold get_node. rewrite H1, decide_False, Hnd, Hused by done.
  assert (Hs1 : length (options s1) = nopt /\ length (buffer s1) = nbuf) by (unfold s1, b; cbn; by rewrite length_insert).
  assert (Howned : forall i p, p = in_options i \/ owned seen i p -> p <> b).
  { intros i p [E|Hp] Eb; subst p; [discriminate Eb|]. by eapply not_owned. }
  specialize (Hlists j Hplace) as Hl. unfold holds_list in Hl. destruct (options_of j seen) as [|o1 os] eqn:Eos.
  - rewrite bool_decide_false by (intros H; by apply H). eexists. split; [reflexivity|].
    assert (Hsome : is_Some (node_at s1 (in_options j))) by (rewrite H1, decide_False, Hnd by done; done).
    apply (holds_snoc seen o s _ j); [done|done|done|cbn; by rewrite length_insert; apply Hs1|apply Hs1| |].
    + intros i p Hne Hp. rewrite node_at_set by done. rewrite decide_False.
      2:{ intros ->. destruct Hp as [Hp|(k & x & Hp & _)]; congruence. }
      rewrite H1, decide_False; [done|]. by eapply Howned.
    + unfold holds_list. rewrite options_of_app, Eos, decide_True by done. exists []. split; [|constructor].
      by apply circle_one.
  - rewrite bool_decide_true by done. destruct Hl as (ps & Hc & Hps).
    destruct (append_circle s1 (in_options j) ps (o1 :: os) b o) as (s' & Hrun & Hc' & Hout & Hlo' & Hlb').
    { eapply circle_frame; [exact Hc|]. intros p Hp. rewrite H1, decide_False; [done|]. eapply Howned. by eapply in_circle. }
    { intros Hb. eapply (in_circle seen) in Hb; [|done]. by apply (Howned j b Hb). }
    { by rewrite H1, decide_True. }
    rewrite Hrun. eexists. split; [reflexivity|].
    apply (holds_snoc seen o s _ j); [done|done|done|rewrite Hlo'; apply Hs1|rewrite Hlb'; apply Hs1| |].
    + intros i p Hne Hp. assert (p <> b) by (by eapply Howned). rewrite Hout, H1, decide_False; [done|done|].
      intros Hin. apply elem_of_cons in Hin as [->|[Hin|Hin%list_elem_of_singleton]%elem_of_app]; [|..|done].
      * destruct Hp as [[= ->]|(k & x & Hp & _)]; done.
      * rewrite Forall_forall in Hps. specialize (Hps _ Hin). destruct Hp as [->|Hp]; [by destruct Hps as (k & x & Hk & _)|].
        by eapply Hne, owned_apart.
    + unfold holds_list. rewrite options_of_app, Eos, decide_True by done. exists (ps ++ [b]). split; [done|].
      apply Forall_app. split; [eapply Forall_impl; [done|]; intros p; apply owned_weaken|].
      constructor; [|constructor]. exists (length seen), o. by rewrite list_lookup_middle.
Qed.

(** What the loop over [next()] sees. *)
Lemma chain_holds seen st i : holds seen st -> length seen <= nbuf -> i < nopt ->
  chain st.2 i = inr (options_of i seen).
Proof.
  intros [_ Hmade Hlo Hlb Hlists] Hn Hi. specialize (Hlists i Hi).
  destruct (holds_list_head _ _ _ Hmade Hlists) as (nd & Hnd & Hused).
  unfold chain, get_node. rewrite Hnd, Hused. unfold holds_list in Hlists.
  destruct (options_of i seen) as [|o os] eqn:E; [by rewrite bool_decide_false by (intros H; by apply H)|].
  rewrite bool_decide_true by done. destruct Hlists as (ps & Hc & _).
  rewrite (chain_from_circle _ _ _ _ Hc _ 0); [done|done|].
  rewrite <-E. transitivity (length seen); [|unfold store_size; lia].
  rewrite Nat.sub_0_r. apply length_filter.
Qed.
End Store.

(** ** What the options of a command line are

    The reading of the words without the array of pointers and the counters: the
    options in their order and, unless an argument is refused, the words that are
    left. *)
Section Reading.
Context (single_minus_longopt : bool) (usage : list Descriptor) (min_abbr_len : Z).

(** The options of an entry ([None] when its argument is refused), whether letters
    may follow, and whether the next word was taken. *)
Definition entry_options (entry : option nat) (param : string) (optarg : option string * bool) :
    option (list Option * bool * bool) :=
  match match entry with Some i => Some i | None => unknown_entry usage end with
  | None => Some ([], true, false)
  | Some i =>
      d ← usage !! i;
      let o := init_option (Some i) (Some param) (fst optarg) in
      match check_arg d o with
      | ARG_ILLEGAL => None
      | ARG_OK => Some ([o], false, snd optarg)
      | ARG_NONE | ARG_IGNORE => Some ([init_option (Some i) (Some param) None], true, false)
      end
  end.

(** An argument in the same word, or the next word. *)
Definition argument (own next : option string) : option string * bool :=
  match own with Some a => (Some a, false) | None => (next, match next with Some _ => true | None => false end) end.

(** The options of some letters, and whether the next word was taken. *)
Fixpoint letter_options (next : option string) (param : string) : list Option * option bool :=
  match param with
  | EmptyString => ([], Some false)
  | String c rest =>
      let own := match rest with EmptyString => None | _ => Some rest end in
      match entry_options (find_shortopt usage c) param (argument own next) with
      | None => ([], None)
      | Some (os, false, took) => (os, Some took)
      | Some (os, true, _) => let r := letter_options next rest in (os ++ r.1, r.2)
      end
  end.

Definition long_options (next : option string) (param longopt_name : string) (entry : option nat) :
    list Option * option bool :=
  match entry_options entry param (argument (after_equals longopt_name) next) with
  | None => ([], None)
  | Some (os, _, took) => (os, Some took)
  end.

Definition word_options (next : option string) (word rest : string) : list Option * option bool :=
  match rest with
  | String "-" longopt_name => long_options next word longopt_name (find_longopt usage min_abbr_len longopt_name)
  | _ =>
      match (if single_minus_longopt then find_longopt usage min_abbr_len rest else None) with
      | Some i => long_options next word rest (Some i)
      | None => letter_options next rest
      end
  end.

(** The options of the words and the words behind them. *)
Fixpoint read (words : list string) : list Option * option (list string) :=
  match words with
  | [] => ([], Some [])
  | "--"%string :: rest => ([], Some rest)
  | (String "-" ((String _ _) as name) as word) :: rest =>
      let r := word_options (head rest) word name in
      match r.2, rest with
      | None, _ => (r.1, None)
      | Some true, _ :: rest => let q := read rest in (r.1 ++ q.1, q.2)
      | Some _, _ => let q := read rest in (r.1 ++ q.1, q.2)
      end
  | _ => ([], Some words)
  end.

(** *** The parser reads them

    [perform] is run on the options of [all], one after the other; [R] relates
    the options it has been run on to its state. *)
Section Performed.
Context {A : Type} (perform : Option -> A -> exn + (bool * A)).
Context (R : list Option -> A -> Prop) (all : list Option).
Context (Hperform : forall l o a, R l a -> made usage o -> l ++ [o] `prefix_of` all ->
  exists a', perform o a = inr (true, a') /\ R (l ++ [o]) a').

Lemma find_entry_lt p i u j : find_entry p i u = Some j -> i <= j < i + length u.
Proof.
  revert i. induction u as [|d u IH]; intros i; cbn [find_entry length]; [done|].
  destruct (p d); [intros [= <-]; lia|]. intros E%IH. lia.
Qed.

Lemma find_longopt_lt nm j : find_longopt usage min_abbr_len nm = Some j -> j < length usage.
Proof.
  unfold find_longopt. destruct (find_entry _ 0 usage) as [i|] eqn:E; [intros [= <-]; apply find_entry_lt in E; lia|].
  destruct (0 <? min_abbr_len)%Z; [|done]. destruct (find_entry (fun d => streqabbr _ _ _) 0 usage) as [i|] eqn:E2; [|done].
  destruct (find_entry _ (S i) _); [done|]. intros [= <-]. apply find_entry_lt in E2. lia.
Qed.

Lemma entry_lt entry i : (forall j, entry = Some j -> j < length usage) ->
  match entry with Some i => Some i | None => unknown_entry usage end = Some i -> i < length usage.
Proof. intros He. destruct entry as [j|]; [intros [= <-]; by apply He|]. intros E%find_entry_lt. lia. Qed.

Lemma init_made i d n a : usage !! i = Some d -> made usage (init_option (Some i) n a).
Proof. intros Hd. split; [done|]. by exists i, d. Qed.

(** What becomes of the scan when the next word was or was not taken. *)
Definition moved (took : bool) (s : scan) : scan := if took then take_word s else s.

Lemma handle_read entry param optarg s l a : (forall j, entry = Some j -> j < length usage) -> R l a ->
  match entry_options entry param optarg with
  | None => handle usage perform entry param optarg s a = inr (false, false, s, a)
  | Some (os, more, took) => l ++ os `prefix_of` all ->
      exists a', handle usage perform entry param optarg s a = inr (true, more, moved took s, a') /\ R (l ++ os) a'
  end.
Proof.
  intros He Ha. unfold entry_options, handle.
  destruct (match entry with Some i => Some i | None => unknown_entry usage end) as [i|] eqn:Ei.
  2:{ intros _. exists a. by rewrite app_nil_r. }
  apply entry_lt in Ei; [|done]. destruct (lookup_lt_is_Some_2 usage i Ei) as [d Hd]. rewrite Hd.
  cbn [mbind option_bind]. cbv zeta. destruct (check_arg d _); [..|done]; intros Hp;
    match goal with H : l ++ [?o] `prefix_of` all |- _ =>
      destruct (Hperform l o a Ha (init_made _ _ _ _ Hd) H) as (a' & Hrun & Ha') end; exists a'.
  all: unfold init_option in *; cbn [desc name namelen] in *; rewrite Hrun; split; [done|exact Ha'].
Qed.

Lemma entry_options_more entry param optarg os took :
  entry_options entry param optarg = Some (os, true, took) -> took = false.
Proof.
  unfold entry_options. destruct (match entry with Some i => Some i | None => unknown_entry usage end) as [i|]; [|congruence].
  destruct (usage !! i) as [d|]; [|done]. cbn [mbind option_bind]. cbv zeta. destruct (check_arg d _); congruence.
Qed.

(** What a run makes of the options [r.1] of a word; [r.2] is [None] when an
    argument is refused. *)
Definition reads {B} (run : exn + B) (result : bool -> scan -> A -> B) (s : scan) (l : list Option)
    (r : list Option * option bool) : Prop :=
  l ++ r.1 `prefix_of` all ->
  exists a', run = inr (result (match r.2 with Some _ => true | None => false end)
                               (moved (default false r.2) s) a') /\ R (l ++ r.1) a'.

Lemma find_shortopt_lt c j : find_shortopt usage c = Some j -> j < length usage.
Proof. intros E%find_entry_lt. lia. Qed.

Lemma letters_read have_more s : forall param l a, R l a ->
  reads (letters usage perform have_more param s a) (fun ok s a => (ok, s, a)) s l
        (letter_options (next_arg s have_more) param).
Proof.
  unfold reads. induction param as [|c rest IH]; intros l a Ha; cbn [letters letter_options fst snd].
  { intros _. exists a. by rewrite app_nil_r. }
  set (optarg := match rest with EmptyString => detached s have_more | _ => attached rest end).
  replace (argument (match rest with EmptyString => None | _ => Some rest end) (next_arg s have_more)) with optarg
    by (unfold optarg, detached, attached, argument; by destruct rest).
  pose proof (handle_read (find_shortopt usage c) (String c rest) optarg s l a (find_shortopt_lt c) Ha) as Hh.
  destruct (entry_options _ _ _) as [[[os more] took]|] eqn:Ho; cbn [fst snd].
  2:{ rewrite app_nil_r, Hh. intros _. by exists a. }
  destruct more; cbn [fst snd].
  - intros Hp. rewrite app_assoc in Hp. destruct Hh as (a1 & Hrun & Ha1); [by eapply prefix_app_l|].
    rewrite Hrun, (entry_options_more _ _ _ _ _ Ho). cbn [moved]. destruct (IH _ _ Ha1 Hp) as (a2 & Hrun2 & Ha2).
    exists a2. by rewrite Hrun2, app_assoc.
  - intros Hp. destruct (Hh Hp) as (a1 & Hrun & Ha1). exists a1. by rewrite Hrun.
Qed.

Lemma long_read have_more param nm entry s l a : (forall j, entry = Some j -> j < length usage) -> R l a ->
  reads (long_option usage perform have_more param nm entry s a) (fun ok s a => (ok, s, a)) s l
        (long_options (next_arg s have_more) param nm entry).
Proof.
  unfold reads, long_option, long_options. intros He Ha.
  set (optarg := match after_equals nm with Some v => attached v | None => detached s have_more end).
  replace (argument (after_equals nm) (next_arg s have_more)) with optarg
    by (unfold optarg, detached, attached, argument; by destruct (after_equals nm)).
  pose proof (handle_read entry param optarg s l a He Ha) as Hh.
  destruct (entry_options _ _ _) as [[[os more] took]|]; cbn [fst snd].
  - intros Hp. destruct (Hh Hp) as (a1 & Hrun & Ha1). exists a1. by rewrite Hrun.
  - rewrite app_nil_r, Hh. intros _. by exists a.
Qed.

(** The next word, seen from the array and from the list of the words. *)
Definition scan_at (argv ws : list string) : scan :=
  mkScan argv (length argv - length ws) (Z.of_nat (length ws)) 0.

Lemma next_word_at pre word ws : let s := scan_at (pre ++ word :: ws) (word :: ws) in
  next_arg s ((1 <? numargs s) || (numargs s <? 0))%Z = head ws.
Proof.
  unfold next_arg, scan_at. cbn [numargs words at_]. rewrite length_app. cbn [length].
  replace (length pre + S (length ws) - S (length ws)) with (length pre) by lia.
  rewrite (proj2 (Z.ltb_ge _ 0)) by lia. rewrite orb_false_r. destruct (Z.ltb_spec 1 (Z.of_nat (S (length ws)))) as [H|H].
  - rewrite lookup_app_r by lia. replace (S (length pre) - length pre) with 1 by lia. by destruct ws.
  - destruct ws; [done|]. cbn [length] in H. lia.
Qed.

Lemma word_read pre word nm ws l a : R l a -> let s := scan_at (pre ++ word :: ws) (word :: ws) in
  reads (option_word single_minus_longopt usage min_abbr_len perform word nm s a) (fun ok s a => (ok, s, a)) s l
        (word_options (head ws) word nm).
Proof.
  intros Ha s. rewrite <-(next_word_at pre word ws). fold s.
  assert (Hw : forall m, reads (if single_minus_longopt
      then match find_longopt usage min_abbr_len nm with
           | Some i => long_option usage perform m word nm (Some i) s a
           | None => letters usage perform m nm s a end
      else letters usage perform m nm s a) (fun ok s a => (ok, s, a)) s l
    (match (if single_minus_longopt then find_longopt usage min_abbr_len nm else None) with
     | Some i => long_options (next_arg s m) word nm (Some i)
     | None => letter_options (next_arg s m) nm end)).
  { intros m. destruct single_minus_longopt; [|by apply letters_read].
    destruct (find_longopt usage min_abbr_len nm) as [i|] eqn:E; [|by apply letters_read].
    apply long_read; [|done]. intros j [= <-]. by apply find_longopt_lt in E. }
  assert (Hl : forall m longopt_name,
    reads (long_option usage perform m word longopt_name (find_longopt usage min_abbr_len longopt_name) s a)
      (fun ok s a => (ok, s, a)) s l
      (long_options (next_arg s m) word longopt_name (find_longopt usage min_abbr_len longopt_name))).
  { intros m nm'. apply long_read; [|done]. intros j. apply find_longopt_lt. }
  unfold option_word, word_options. destruct nm as [|c nm]; [apply Hw|].
  destruct (Ascii.eqb_spec c "-") as [->|Hc]; [apply Hl|].
  destruct c as [[] [] [] [] [] [] [] []]; try apply Hw; by destruct Hc.
Qed.

(** The three kinds of words. *)
Definition plain (w : string) : bool :=
  match w with String "-" (String _ _) => false | _ => true end.

Lemma plain_cases w : plain w = true \/ w = "--"%string \/
  exists d r, w = String "-" (String d r) /\ String d r <> "-"%string.
Proof.
  destruct w as [|c [|d r]]; [by left|destruct c as [[] [] [] [] [] [] [] []]; by left|].
  destruct (Ascii.eqb_spec c "-") as [->|Hc].
  2:{ left. destruct c as [[] [] [] [] [] [] [] []]; try reflexivity. by destruct Hc. }
  right. destruct (String.eqb_spec (String d r) "-") as [[= -> ->]|Hne]; [by left|right; eauto].
Qed.

Definition read_rest (ws : list string) (r : list Option * option bool) : list Option * option (list string) :=
  match r.2, ws with
  | None, _ => (r.1, None)
  | Some true, _ :: rest => (r.1 ++ (read rest).1, (read rest).2)
  | Some _, _ => (r.1 ++ (read ws).1, (read ws).2)
  end.

Lemma read_plain w ws : plain w = true -> read (w :: ws) = ([], Some (w :: ws)).
Proof. destruct w as [|[[] [] [] [] [] [] [] []] [|d r]]; done. Qed.

Lemma read_option d r ws : String d r <> "-"%string ->
  read (String "-" (String d r) :: ws) = read_rest ws (word_options (head ws) (String "-" (String d r)) (String d r)).
Proof.
  intros Hne. destruct r as [|c r]; destruct d as [[] [] [] [] [] [] [] []]; try reflexivity. by destruct Hne.
Qed.

Local Abbreviation loop := (workhorse_loop false single_minus_longopt usage min_abbr_len perform).
Local Abbreviation one_word := (option_word single_minus_longopt usage min_abbr_len perform).

Lemma loop_plain fuel w s a : (numargs s =? 0)%Z = false -> words s !! at_ s = Some w -> plain w = true ->
  loop (S fuel) s a = inr (true, s, a).
Proof.
  intros Hn Hw Hp. cbn [workhorse_loop]. rewrite Hn, Hw. destruct w as [|[[] [] [] [] [] [] [] []] [|d r]]; done.
Qed.

Lemma loop_option fuel d r s a : (numargs s =? 0)%Z = false -> words s !! at_ s = Some (String "-" (String d r)) ->
  String d r <> "-"%string ->
  loop (S fuel) s a =
  match one_word (String "-" (String d r)) (String d r) s a with
  | inl e => inl e
  | inr (false, s, a) => inr (false, s, a)
  | inr (true, s, a) => loop fuel (take_word s) a
  end.
Proof.
  intros Hn Hw Hne. cbn [workhorse_loop]. rewrite Hn, Hw.
  destruct r as [|c r]; destruct d as [[] [] [] [] [] [] [] []]; try reflexivity. by destruct Hne.
Qed.

Lemma scan_word pre w ws : let s := scan_at (pre ++ w :: ws) (w :: ws) in
  (numargs s =? 0)%Z = false /\ words s !! at_ s = Some w /\ take_word s = scan_at (pre ++ w :: ws) ws.
Proof.
  cbv zeta. unfold scan_at, take_word. cbn [numargs words at_ nonops]. rewrite length_app. cbn [length].
  replace (length pre + S (length ws) - S (length ws)) with (length pre) by lia. split_and!.
  - apply Z.eqb_neq. lia.
  - by apply list_lookup_middle.
  - f_equal; [|lia|unfold minus1; destruct (Z.ltb_spec 0 (Z.of_nat (S (length ws)))); lia].
    unfold shift. rewrite list_lookup_middle, Nat.sub_0_r by done. rewrite take_app_length. f_equal. f_equal.
    rewrite take_0. cbn [app]. rewrite drop_app_ge by lia. by replace (S (length pre) - length pre) with 1 by lia.
Qed.

(** What a run of the loop makes of the options [q.1]; [q.2] are the words left. *)
Definition loop_reads (argv ws : list string) (l : list Option) (q : list Option * option (list string))
    (run : exn + (bool * scan * A)) : Prop :=
  l ++ q.1 `prefix_of` all ->
  exists s' a', run = inr (match q.2 with Some _ => true | None => false end, s', a') /\ R (l ++ q.1) a' /\
    words s' = argv /\
    match q.2 with Some rest => s' = scan_at argv rest /\ rest `suffix_of` ws | None => True end.

(** The loop goes on behind the words a word has taken. *)
Lemma loop_goes_on argv ws0 ws l os q s (run : exn + (bool * scan * A)) k :
  reads run (fun ok s a => (ok, s, a)) s l (os, Some q) -> ws `suffix_of` ws0 ->
  take_word (moved q s) = scan_at argv ws ->
  (forall a1, R (l ++ os) a1 -> loop_reads argv ws (l ++ os) (read ws) (k (scan_at argv ws) a1)) ->
  loop_reads argv ws0 l (os ++ (read ws).1, (read ws).2)
    (match run with
     | inl e => inl e
     | inr (false, s, a) => inr (false, s, a)
     | inr (true, s, a) => k (take_word s) a
     end).
Proof.
  unfold loop_reads, reads. cbn [fst snd]. intros Hr Hsuf Hs Hk Hp. rewrite app_assoc in Hp.
  destruct Hr as (a1 & -> & Ha1); [by eapply prefix_app_l|]. cbn [default from_option id]. rewrite Hs.
  destruct (Hk a1 Ha1 Hp) as (s' & a' & Hl & Ha' & Hw & Hrest). exists s', a'.
  split; [exact Hl|]. split; [by rewrite app_assoc|]. split; [done|].
  destruct ((read ws).2) as [rest|]; [|done]. destruct Hrest as [-> Hr]. split; [done|]. by etrans.
Qed.

(** Without a next word none is taken. *)
Lemma entry_options_none entry param own os more took :
  entry_options entry param (argument own None) = Some (os, more, took) -> took = false.
Proof.
  unfold entry_options. destruct (match entry with Some i => Some i | None => unknown_entry usage end) as [i|]; [|congruence].
  destruct (usage !! i) as [d|]; [|done]. cbn [mbind option_bind]. cbv zeta.
  destruct own; destruct (check_arg d _); cbn; congruence.
Qed.

Lemma letter_options_none param : (letter_options None param).2 <> Some true.
Proof.
  induction param as [|c rest IH]; cbn [letter_options]; [done|].
  destruct (entry_options _ _ _) as [[[os [|]] took]|] eqn:E; cbn [snd]; [done| |done].
  apply entry_options_none in E as ->. done.
Qed.

Lemma word_options_none word nm : (word_options None word nm).2 <> Some true.
Proof.
  assert (Hl : forall param nm entry, (long_options None param nm entry).2 <> Some true).
  { intros param nm' entry. unfold long_options. destruct (entry_options _ _ _) as [[[os more] took]|] eqn:E; [|done].
    by apply entry_options_none in E as ->. }
  unfold word_options. destruct nm as [|c nm]; [|destruct c as [[] [] [] [] [] [] [] []]]; try apply Hl;
    (destruct (if single_minus_longopt then _ else _); [apply Hl|apply letter_options_none]).
Qed.

Lemma loop_read fuel : forall pre ws l a, length ws < fuel -> R l a ->
  loop_reads (pre ++ ws) ws l (read ws) (loop fuel (scan_at (pre ++ ws) ws) a).
Proof.
  induction fuel as [|fuel IH]; intros pre ws l a Hf Ha; [lia|]. destruct ws as [|w ws].
  { intros _. exists (scan_at (pre ++ []) []), a. split_and!; [done|cbn; by rewrite app_nil_r|done..]. }
  destruct (scan_word pre w ws) as (Hn & Hw & Ht). cbn [length] in Hf.
  destruct (plain_cases w) as [Hp|[->|(d & r & -> & Hne)]].
  - rewrite (read_plain _ _ Hp), (loop_plain _ _ _ _ Hn Hw Hp). intros _. eexists _, a. cbn [fst snd]. by rewrite app_nil_r.
  - intros _. cbn [workhorse_loop]. rewrite Hn, Hw, Ht. cbn. rewrite app_nil_r. eexists _, a. split_and!; [done..|].
    by exists ["--"%string].
  - rewrite (read_option _ _ _ Hne), (loop_option _ _ _ _ _ Hn Hw Hne).
    pose proof (word_read pre (String "-" (String d r)) (String d r) ws l a Ha) as Hr. cbv zeta in Hr.
    pose proof (word_options_none (String "-" (String d r)) (String d r)) as Hnone.
    destruct (word_options (head ws) _ _) as [os [took|]] eqn:Ewo; unfold read_rest; cbn [fst snd].
    2:{ intros Hp. destruct (Hr Hp) as (a1 & Hrun & Ha1). rewrite Hrun. by eexists _, a1. }
    assert (Hone : forall ws1 ws2, ws = ws1 ++ ws2 -> forall a1, R (l ++ os) a1 ->
      loop_reads (pre ++ String "-" (String d r) :: ws) ws2 (l ++ os) (read ws2)
        (loop fuel (scan_at (pre ++ String "-" (String d r) :: ws) ws2) a1)).
    { intros ws1 ws2 Hws a1 Ha1. replace (pre ++ String "-" (String d r) :: ws) with ((pre ++ String "-" (String d r) :: ws1) ++ ws2)
        by (rewrite Hws, <-app_assoc; done).
      apply IH; [|done]. apply (f_equal length) in Hws. rewrite length_app in Hws. lia. }
    destruct took; [destruct ws as [|w' ws]|].
    + cbn [head] in Ewo. rewrite Ewo in Hnone. by destruct Hnone.
    + eapply (loop_goes_on _ _ ws); [exact Hr|by exists [String "-" (String d r); w']| |by apply (Hone [w'])].
      cbn [moved]. rewrite Ht. change (String "-" (String d r) :: w' :: ws) with ([String "-" (String d r)] ++ w' :: ws).
      rewrite app_assoc. apply scan_word.
    + eapply (loop_goes_on _ _ ws); [exact Hr|by exists [String "-" (String d r)]|exact Ht|by apply (Hone [])].
Qed.

(** The whole run. *)
Lemma workhorse_read argv a : R [] a -> (read argv).1 = all ->
  exists a', workhorse false single_minus_longopt usage min_abbr_len perform (Z.of_nat (length argv)) argv a =
    inr ((fun rest => (Z.of_nat (length rest), length argv - length rest)) <$> (read argv).2, argv, a') /\ R all a' /\
    forall rest, (read argv).2 = Some rest -> rest `suffix_of` argv.
Proof.
  intros Ha Hall. destruct (loop_read (S (length argv)) [] argv [] a ltac:(lia) Ha) as (s' & a' & Hl & Ha' & Hw & Hrest).
  { by rewrite Hall. }
  exists a'. split_and!; [|by rewrite <-Hall|by intros rest Hr; rewrite Hr in Hrest; apply Hrest]. unfold workhorse. unfold scan_at in Hl. rewrite Nat.sub_diag in Hl. cbn [app] in Hl, Hw. rewrite Hl.
  destruct ((read argv).2) as [rest|]; cbn [fmap option_fmap option_map]; [|by rewrite Hw].
  destruct Hrest as [-> [pre Hpre]]. cbn [app] in Hpre. do 4 f_equal.
  unfold rest_of, scan_at. cbn [app words at_ numargs nonops]. rewrite Nat.sub_0_r, Z.add_0_r. f_equal.
  destruct (argv !! _) eqn:E; [by rewrite (proj2 (Z.ltb_ge _ 0)) by lia|].
  apply lookup_ge_None_1 in E. rewrite Hpre, length_app in E. destruct rest; [done|]. cbn [length] in E. lia.
Qed.
End Performed.

(** *** How many options there are *)

Lemma entry_options_length entry param optarg os more took :
  entry_options entry param optarg = Some (os, more, took) -> length os <= 1.
Proof.
  unfold entry_options. destruct (match entry with Some i => Some i | None => unknown_entry usage end) as [i|].
  2:{ intros [= <- _ _]. cbn. lia. }
  destruct (usage !! i) as [d|]; [|done]. cbn [mbind option_bind]. cbv zeta.
  destruct (check_arg d _); try done; intros [= <- _ _]; done.
Qed.

Lemma letter_options_length next param : length (letter_options next param).1 <= String.length param.
Proof.
  induction param as [|c rest IH]; cbn [letter_options String.length]; [done|].
  destruct (entry_options _ _ _) as [[[os more] took]|] eqn:E; [|cbn; lia].
  apply entry_options_length in E. destruct more; cbn [fst]; [rewrite length_app|]; lia.
Qed.

Lemma word_options_length next word d r : length (word_options next word (String d r)).1 <= S (String.length r).
Proof.
  assert (Hl : forall param nm entry, length (long_options next param nm entry).1 <= 1).
  { intros param nm entry. unfold long_options. destruct (entry_options _ _ _) as [[[os more] took]|] eqn:E; [|cbn; lia].
    by apply entry_options_length in E. }
  assert (Hw : length (match (if single_minus_longopt then find_longopt usage min_abbr_len (String d r) else None) with
    | Some i => long_options next word (String d r) (Some i)
    | None => letter_options next (String d r) end).1 <= S (String.length r)).
  { destruct (if single_minus_longopt then _ else _); [etransitivity; [apply Hl|lia]|apply letter_options_length]. }
  unfold word_options. destruct d as [[] [] [] [] [] [] [] []]; try exact Hw. etransitivity; [apply Hl|lia].
Qed.

Definition total_length (ws : list string) : nat := sum_list (String.length <$> ws).

Lemma total_length_cons w ws : total_length (w :: ws) = String.length w + total_length ws.
Proof. done. Qed.

Lemma read_length ws : length (read ws).1 <= total_length ws.
Proof.
  remember (length ws) as n eqn:Hn. assert (Hle : length ws <= n) by lia. clear Hn.
  revert ws Hle. induction n as [|n IH]; intros [|w ws] Hn; cbn [length] in Hn; try (cbn; lia).
  rewrite total_length_cons. destruct (plain_cases w) as [Hp|[->|(d & r & -> & Hne)]]; [rewrite read_plain by done; cbn; lia|cbn; lia|].
  rewrite read_option by done. cbn [String.length].
  pose proof (word_options_length (head ws) (String "-" (String d r)) d r) as Hw.
  unfold read_rest. pose proof (IH ws ltac:(lia)) as H1. destruct (word_options _ _ _) as [os [[]|]];
    cbn [fst snd] in *; [|rewrite ?length_app; lia..].
  destruct ws as [|w' ws]; cbn [fst length] in *; rewrite length_app; [lia|].
  rewrite total_length_cons. pose proof (IH ws ltac:(lia)). lia.
Qed.
End Reading.

(** ** Two runs over the words *)

Lemma options_max_bound usage m : (0 <= m < 2 ^ 32)%Z -> Forall (fun d => (Z.of_nat (index d) + 2 < 2 ^ 32)%Z) usage ->
  let m' := foldl (fun m d =>
    let i := u32 (Z.of_nat (index d) + 1) in if (m <=? i)%Z then u32 (i + 1) else m) m usage in
  (m <= m')%Z /\ Forall (fun d => (Z.of_nat (index d) < m')%Z) usage.
Proof.
  intros Hm Hu. revert m Hm. induction Hu as [|d usage Hd Hu IH]; intros m Hm; cbn [foldl]; [split; [lia|constructor]|].
  assert (Hi : u32 (Z.of_nat (index d) + 1) = (Z.of_nat (index d) + 1)%Z) by (apply u32_small; lia).
  cbv zeta in *. rewrite Hi. rewrite u32_small by lia.
  destruct (Z.leb_spec m (Z.of_nat (index d) + 1)) as [H|H].
  - destruct (IH (Z.of_nat (index d) + 1 + 1)%Z ltac:(lia)) as [H1 H2]. split; [lia|]. constructor; [lia|done].
  - destruct (IH m Hm) as [H1 H2]. split; [lia|]. constructor; [lia|done].
Qed.

Section Parse.
Context (usage : list Descriptor) (argv : list string).

(** The command line and the entries are not larger than a number can count. *)
Definition countable : Prop :=
  (Z.of_nat (total_length argv) < 2 ^ 31 - 2)%Z /\ Forall (fun d => (Z.of_nat (index d) + 2 < 2 ^ 32)%Z) usage.

Local Abbreviation given := (read false usage 0 argv).

Lemma stats_add_read : countable -> exists m,
  stats_add false usage (Z.of_nat (length argv)) argv 0 false stats0 =
    inr (mkStats (1 + Z.of_nat (length given.1)) m, argv) /\
  Forall (fun d => (Z.of_nat (index d) < m)%Z) usage.
Proof.
  intros [Hlen Hidx]. pose proof (read_length false usage 0 argv) as Hl.
  destruct (workhorse_read false usage 0 count_option (fun l n => n = 1 + Z.of_nat (length l))%Z given.1)
    with (argv := argv) (a := 1%Z) as (n & Hrun & -> & _); [|done|done|].
  { intros l o n -> _ Hp%prefix_length. rewrite length_app in Hp. cbn [length] in Hp. unfold count_option.
    rewrite (proj2 (Z.eqb_neq _ _)) by lia. eexists. split; [done|]. rewrite u32_small, length_app by lia. cbn. lia. }
  unfold stats_add. cbn [buffer_max options_max stats0]. rewrite Hrun. eexists. split; [reflexivity|].
  by apply options_max_bound.
Qed.

Lemma parse_words_read : countable -> exists p s nopt nbuf,
  parse_words usage argv = inr (p, s, argv) /\
  holds usage nopt nbuf given.1 (op_count p, s) /\ length given.1 < nbuf /\
  Forall (fun d => index d < nopt) usage /\
  err p = bool_decide (given.2 = None) /\
  nonop_count p = Z.of_nat (length (default [] given.2)) /\ nonOptions p argv = default [] given.2.
Proof.
  intros Hc. destruct (stats_add_read Hc) as (m & Hs & Hm). destruct Hc as [Hlen Hidx].
  pose proof (read_length false usage 0 argv) as Hl.
  set (nopt := Z.to_nat m). set (nbuf := Z.to_nat (1 + Z.of_nat (length given.1))).
  assert (Hnopt : Forall (fun d => index d < nopt) usage) by (eapply Forall_impl; [exact Hm|]; cbn; intros; lia).
  destruct (workhorse_read false usage 0 (store_option usage (-1)) (holds usage nopt nbuf) given.1)
    with (argv := argv) (a := (0, fresh_store nopt nbuf)) as ([n s] & Hrun & Hh & Hsuf); [|apply holds_fresh|done|].
  { intros l o st Hst Ho Hp%prefix_length. rewrite length_app in Hp. cbn [length] in Hp.
    apply (store_option_step usage nopt nbuf); [done|done|lia|lia|].
    intros j Hj. destruct (option_entry _ _ Ho) as (i & d & _ & Hd & Hj'). rewrite Hj' in Hj. injection Hj as <-.
    rewrite Forall_lookup in Hnopt. by eapply Hnopt. }
  unfold parse_words. rewrite Hs. cbn [options_max buffer_max]. fold nopt nbuf. unfold parse.
  assert (Hu : used_count (-1) 0 (buffer (fresh_store nopt nbuf)) = inr 0).
  { unfold nbuf. rewrite Z2Nat.inj_add by lia. done. }
  rewrite Hu, Hrun.
  destruct (given.2) as [rest|]; cbn [fmap option_fmap option_map default from_option id].
  2:{ eexists _, s, nopt, nbuf. split; [reflexivity|]. split_and!; [exact Hh|lia|done..]. }
  destruct (Hsuf rest eq_refl) as [pre Hpre]. destruct (Z.ltb_spec 0 (Z.of_nat (length rest))) as [H|H].
  - eexists _, s, nopt, nbuf. split; [reflexivity|]. split_and!; [exact Hh|lia|done..|].
    unfold nonOptions. cbn [nonop_args nonop_count]. rewrite Nat2Z.id, Hpre, length_app, Nat.add_sub, drop_app_length.
    by rewrite take_ge by lia.
  - destruct rest; [|cbn [length] in H; lia].
    eexists _, s, nopt, nbuf. split; [reflexivity|]. split_and!; [exact Hh|lia|done..].
Qed.
End Parse.

(** (C28) Every command line that can be counted is read by the parser with the
    arrays the program gives it: it ends, never leaves the arrays, reports an error
    exactly when an argument is refused, leaves the words as they are and finds the
    ones behind the options; and the list of links that starts at the place of an
    entry holds the options of this entry in the order of the command line. *)
Theorem parse_words_correct usage argv : countable usage argv ->
  let '(os, rest) := read false usage 0 argv in
  exists p s, parse_words usage argv = inr (p, s, argv) /\
    err p = bool_decide (rest = None) /\
    nonop_count p = Z.of_nat (length (default [] rest)) /\ nonOptions p argv = default [] rest /\
    op_count p = length os /\ length os <= total_length argv /\
    forall d, d ∈ usage -> chain s (index d) = inr (options_of usage (index d) os).
Proof.
  intros Hc. destruct (parse_words_read usage argv Hc) as (p & s & nopt & nbuf & Hrun & Hh & Hn & Hidx & He & Hno & Hrest).
  pose proof (read_length false usage 0 argv) as Hl.
  destruct (read false usage 0 argv) as [os rest]. cbn [fst snd] in *. exists p, s. split_and!; [done..|apply Hh|lia|].
  intros d Hd. rewrite Forall_forall in Hidx. apply (chain_holds usage nopt nbuf os (op_count p, s)); [done|lia|by apply Hidx].
Qed.

(** A flag and an option with an argument: [-vfout -v --file=x -- -v in]. *)
Definition ex_usage : list Descriptor :=
  [mkDesc 0 EmptyString EmptyString Arg_None None; mkDesc 1 "v" "verbose" Arg_None None; mkDesc 2 "f" "file" Arg_Required None]%string.
Definition ex_words : list string := ["-vfout"; "-v"; "--file=x"; "--"; "-v"; "in"]%string.

Lemma parse_words_correct_witness :
  exists p s, parse_words ex_usage ex_words = inr (p, s, ex_words) /\ err p = false /\
    nonOptions p ex_words = ["-v"; "in"]%string /\
    chain s 1 = inr [init_option (Some 1) (Some "vfout") None; init_option (Some 1) (Some "v") None]%string /\
    chain s 2 = inr [init_option (Some 2) (Some "fout") (Some "out");
                     init_option (Some 2) (Some "--file=x") (Some "x")]%string.
Proof.
  assert (Hc : countable ex_usage ex_words).
  { split; [vm_compute; reflexivity|]. repeat constructor. }
  destruct (parse_words_correct ex_usage ex_words Hc) as (p & s & Hrun & He & _ & Hn & _ & _ & Hl).
  exists p, s. split; [exact Hrun|]. split; [exact He|]. split; [exact Hn|].
  split; [apply (Hl (mkDesc 1 "v" "verbose" Arg_None None)%string)|apply (Hl (mkDesc 2 "f" "file" Arg_Required None)%string)].
  - right. left.
  - right. right. left.
Defined.
