(* ===== verification/HypoReport.v ===== *)
(** * Reports: the output of hypothesizer.cc

    What is written to the standard output for a member, and the loop of [main]
    over the members.  Numbers are kept as numbers: an item of the output is a
    text, an integer, or a double with the precision and the width it is printed
    with.  [std::sort] may order equal elements in any way; it is a parameter,
    which also covers the order in which an [std::unordered_map] is traversed.
    The end of the file is the command line, and the program that starts there. *)
From Stdlib Require Import Ascii String Floats.SpecFloat.
From S2P Require Import OptionParser UsageText.
From S2P Require Import Prelude StdMap LockTypes CxxStd Hypothesizer HypoInput.
Local Open Scope list_scope.
Local Open Scope Z_scope.

Inductive out :=
  | OText (s : string)
  | OInt (n : Z)
  | ODouble (precision width : Z) (d : double).

Inductive SortCriterion := SORT_NONE | SORT_MEMBER | SORT_COMBINATIONS | SORT_HYPOTHESES.
Inductive ReportMode := NORMAL | CSV | CSVWINNER | DOC.
#[export] Instance ReportMode_eq_dec : EqDecision ReportMode.
Proof. solve_decision. Defined.
#[export] Instance SortCriterion_eq_dec : EqDecision SortCriterion.
Proof. solve_decision. Defined.

(** Members by type and by the locks that protect them. *)
Definition doc_map_t : Type := list (string * list (hypo * list string)).

(** The stream, with its precision, and [doc_map]. *)
Record report := mkReport { r_out : list out; r_precision : Z; doc_map : doc_map_t }.

Definition RM (A : Type) : Type := M report exn A.

Definition emit (l : list out) : RM unit :=
  modify (fun r => mkReport (r_out r ++ l) (r_precision r) (doc_map r)).
Definition text (s : string) : RM unit := emit [OText s].
Definition int (n : Z) : RM unit := emit [OInt n].
Definition dbl (width : Z) (d : double) : RM unit := r ← get_st; emit [ODouble (r_precision r) width d].
Definition set_precision (p : Z) : RM unit := modify (fun r => mkReport (r_out r) p (doc_map r)).

Definition endl : string := String NEWLINE EmptyString.

Fixpoint for_each {A} (f : A -> RM unit) (l : list A) : RM unit :=
  match l with [] => mret tt | a :: l => f a;;; for_each f l end.

Section Report.
Context (std_sort : forall A : Type, (A -> A -> bool) -> list A -> list A).
(** The names of the locks. *)
Context (locks : list string).

(** ** Locks *)

(** The text from an element on; [first] tells whether a separator is due. *)

Fixpoint locks_text (l : list myid_t) (separator quote : string) : RM string :=
  match l with
  | [] => mret EmptyString
  | id :: l =>
      match locks !! Z.to_nat id with
      | None => raise (undefined "locks index")
      | Some name =>
          rest ← locks_text l separator quote;
          mret (quote +:+ name +:+ quote +:+
                (match l with [] => EmptyString | _ => separator +:+ rest end))
      end
  end.

Definition locks2string (l : list myid_t) (separator quote : string) : RM string :=
  match l with [] => mret "(no locks held)"%string | _ => locks_text l separator quote end.

Definition arrow : string := " -> ".
Definition plus : string := " + ".
Definition ordered (l : hypo) : RM string := locks2string l arrow EmptyString.

Definition print_bugsql (prefix postfix : string) (m : Member) (l : hypo) (order_matters : bool)
    (expected_counterexamples : Z) : RM unit :=
  if 0 <? expected_counterexamples then
    s ← locks2string l " " "'";
    text (prefix +:+ "counterexample.sql.sh " +:+ datatype m +:+ " " +:+ combined_name m +:+ " " +:+ "CEX "
      +:+ (if order_matters then "SEQ " else "ANY ") +:+ s +:+ postfix)
  else
    text (prefix +:+
      "(no counterexamples to be expected, this hypothesis has 100% support in the observation set)"
      +:+ postfix).

(** ** One member *)

(** The comparison functions of the two sorts. *)

Definition before_hypothesis (a b : LockingHypothesisMatches) : bool :=
  (hm_occurrences b <? hm_occurrences a) ||
  ((hm_occurrences a =? hm_occurrences b) &&
   (length (sorted_hypothesis b) <? length (sorted_hypothesis a))%nat).
Definition before_match (a b : hypo * Z) : bool := b.2 <? a.2.

Definition support (n : Z) (m : Member) : double := ddiv (to_double n) (to_double (occurrences m)).
Definition percent (d : double) : double := dmul d (to_double 100).

Definition is_winner (m : Member) (found_winner : bool) (h : hypo) : bool :=
  negb found_winner && bool_decide (winning_hypothesis m = h) && winner_found m.
Definition is_conflict (m : Member) (winner : bool) (h : hypo) : bool :=
  negb winner && in_conflict_list (conflict_list m) h && winner_found m.

Definition mark (winner conflict : bool) : string :=
  if winner then "!" else if conflict then "?" else " ".

(** The other hypotheses of the conflict list, from an element on. *)
Fixpoint print_conflicts (l : list (hypo * hypo)) (h : hypo) : RM unit :=
  match l with
  | [] => mret tt
  | e :: l =>
      (if bool_decide (e.2 = h) then mret tt else
       s ← ordered e.2; text s;;;
       match l with [] => mret tt | _ => text "," end);;;
      print_conflicts l h
  end.

Definition print_csv_row (m : Member) (mt : hypo * Z) (winner conflict : bool)
    (relative_support confidence_threshold : double) : RM unit :=
  s ← ordered mt.1;
  text (datatype m +:+ ";" +:+ name m +:+ ";" +:+ String (accesstype m) EmptyString +:+ ";" +:+ s +:+ ";");;;
  (if winner : bool then print_conflicts (conflict_list m) mt.1 else mret tt);;;
  text ";";;; int mt.2;;; text ";";;; int (occurrences m);;; text ";";;;
  set_precision 5;;;
  dbl 0 (percent relative_support);;; text ";";;;
  int (if winner then 1 else if conflict then 2 else 0);;; text ";";;;
  dbl 0 (dmul relative_support (smoothstep (to_double 0) confidence_threshold (to_double mt.2)));;;
  text ";";;;
  print_bugsql EmptyString endl m mt.1 true (u64 (occurrences m - mt.2)).

Definition add_doc (m : Member) (h : hypo) : RM unit :=
  modify (fun r =>
    let by_locks := default [] (sm_find (datatype m) (doc_map r)) in
    let members := default [] (sm_find h by_locks) in
    mkReport (r_out r) (r_precision r)
      (sm_set (datatype m) (sm_set h (members ++ [combined_name m]) by_locks) (doc_map r))).

(** One locking order of a hypothesis; the result is [found_winner]. *)
Definition print_match (m : Member) (reportmode : ReportMode) (bugsql : bool)
    (confidence_threshold : double) (h : LockingHypothesisMatches) (found_winner : bool) (mt : hypo * Z)
    : RM bool :=
  let local_fraction := ddiv (to_double mt.2) (to_double (hm_occurrences h)) in
  let relative_support := support mt.2 m in
  let winner := is_winner m found_winner mt.1 in
  let conflict := is_conflict m winner mt.1 in
  (match reportmode with
   | NORMAL =>
       let prefix := (mark winner conflict +:+ "      ")%string in
       s ← ordered mt.1;
       text prefix;;; dbl 5 (percent local_fraction);;; text ("% " +:+ s +:+ endl);;;
       (if bugsql then print_bugsql prefix endl m mt.1 true (u64 (occurrences m - mt.2)) else mret tt)
   | CSV => print_csv_row m mt winner conflict relative_support confidence_threshold
   | CSVWINNER =>
       if winner then print_csv_row m mt winner conflict relative_support confidence_threshold
       else mret tt
   | DOC => if winner then add_doc m mt.1 else mret tt
   end);;;
  mret (found_winner || winner).

Fixpoint print_matches (m : Member) (reportmode : ReportMode) (bugsql : bool)
    (confidence_threshold : double) (h : LockingHypothesisMatches) (found_winner : bool)
    (l : list (hypo * Z)) : RM bool :=
  match l with
  | [] => mret found_winner
  | mt :: l =>
      found ← print_match m reportmode bugsql confidence_threshold h found_winner mt;
      print_matches m reportmode bugsql confidence_threshold h found l
  end.

(** The numbers in front of a set of locks or a single order. *)
Definition print_share (prefix : string) (m : Member) (h : LockingHypothesisMatches) (s : string) : RM unit :=
  text prefix;;; dbl 5 (percent (support (hm_occurrences h) m));;; text "% (";;;
  int (hm_occurrences h);;; text " out of ";;; int (occurrences m);;;
  text (" mem accesses): " +:+ s +:+ endl).

Definition print_single (m : Member) (bugsql : bool) (h : LockingHypothesisMatches) (found_winner : bool)
    : RM bool :=
  match matches h with
  | [] => raise (undefined "begin() of an empty map")
  | (w, _) :: _ =>
      let winner := is_winner m found_winner w in
      let prefix := (mark winner (is_conflict m winner w) +:+ "   ")%string in
      s ← ordered w;
      print_share prefix m h s;;;
      (if bugsql then print_bugsql prefix endl m w true (u64 (occurrences m - hm_occurrences h))
       else mret tt);;;
      mret (found_winner || winner)
  end.

(** One hypothesis of the sorted list. *)
Definition print_hypothesis (m : Member) (cutoff_threshold : double) (reportmode : ReportMode)
    (bugsql : bool) (confidence_threshold : double) (h : LockingHypothesisMatches) (found_winner : bool)
    : RM bool :=
  if SFltb (support (hm_occurrences h) m) cutoff_threshold then mret found_winner else
  if (1 <? length (matches h))%nat || negb (bool_decide (reportmode = NORMAL)) then
    (if bool_decide (reportmode = NORMAL) then
       s ← locks2string (sorted_hypothesis h) plus EmptyString;
       print_share "    " m h s;;;
       (if bugsql then print_bugsql "    " endl m (sorted_hypothesis h) false
          (u64 (occurrences m - hm_occurrences h)) else mret tt)
     else mret tt);;;
    print_matches m reportmode bugsql confidence_threshold h found_winner
      (std_sort _ before_match (matches h))
  else print_single m bugsql h found_winner.

Fixpoint print_all (m : Member) (cutoff_threshold : double) (reportmode : ReportMode)
    (bugsql : bool) (confidence_threshold : double) (found_winner : bool)
    (l : list LockingHypothesisMatches) : RM bool :=
  match l with
  | [] => mret found_winner
  | h :: l =>
      found ← print_hypothesis m cutoff_threshold reportmode bugsql confidence_threshold h found_winner;
      print_all m cutoff_threshold reportmode bugsql confidence_threshold found l
  end.

Definition print_heading (m : Member) : RM unit :=
  text (datatype m +:+ " member: " +:+ name m +:+ " [" +:+ String (accesstype m) EmptyString +:+ "] (");;;
  int (Z.of_nat (length (combinations m)));;; text (" lock combinations)" +:+ endl);;;
  text "  hypotheses: ";;; int (Z.of_nat (length (hypotheses m)));;; text endl;;;
  text "  accesses without any locks:";;;
  int (u64 (occurrences m - occurrences_with_locks m));;; text endl.

Definition print_hypotheses (m : Member) (cutoff_threshold : double) (reportmode : ReportMode)
    (bugsql : bool) (confidence_threshold : double) : RM unit :=
  (if bool_decide (reportmode = NORMAL) then print_heading m else mret tt);;;
  let sorted_hypotheses := std_sort _ before_hypothesis (map2vec (hypotheses m)) in
  set_precision 3;;;
  _ ← print_all m cutoff_threshold reportmode bugsql confidence_threshold false sorted_hypotheses;
  mret tt.

(** ** The documentation *)

Definition doc_prefix : string := " * ".

Definition print_protected (e : hypo * list string) : RM unit :=
  (match e.1 with
   | [] => text (doc_prefix +:+ "No locks needed for:" +:+ endl)
   | _ => s ← ordered e.1; text (doc_prefix +:+ s +:+ " protects:" +:+ endl)
   end);;;
  match e.2 with
  | [] => raise (undefined "element of an empty vector")
  | first :: others =>
      text (doc_prefix +:+ "  " +:+ first);;;
      for_each (fun s => text (", " +:+ s)) others;;;
      text (endl +:+ doc_prefix +:+ endl)
  end.

Definition print_doc : RM unit :=
  r ← get_st;
  for_each (fun e =>
    text (doc_prefix +:+ e.1 +:+ " locking rules:" +:+ endl +:+ doc_prefix +:+ endl);;;
    for_each print_protected e.2) (doc_map r).

(** ** main *)

(** What the command line asks for. *)

Record options := mkOptions {
  op_strategy : SelectionStrategy;
  op_accept : double;
  op_nolock : double;
  op_reduction : double;
  op_cutoff : double;
  op_confidence : double;
  op_max_hypo_len : Z;
  op_datatypes : list string;
  op_members : list string;
  op_sort : SortCriterion;
  op_report : ReportMode;
  op_bugsql : bool
}.

(** [a.find(b) == 0] *)
Definition starts_with (a b : string) : bool := String.prefix b a.

Definition filtered_out (op : options) (m : Member) : bool :=
  (negb (bool_decide (op_datatypes op = [])) && negb (existsb (starts_with (datatype m)) (op_datatypes op))) ||
  (negb (bool_decide (op_members op = [])) && negb (bool_decide (name m ∈ op_members op)) &&
   negb (bool_decide (combined_name m ∈ op_members op))).

(** One round of the loop: the member afterwards. *)
Definition synthesize (f n : nat) (op : options) (m : Member) : RM Member :=
  if filtered_out op m then mret (hide (clear m)) else
  match find_hypotheses f n m (op_max_hypo_len op) with
  | inl e => raise e
  | inr m =>
      match select_winner f (op_strategy op) (op_accept op) (op_nolock op) (op_reduction op) m with
      | inl e => raise e
      | inr m =>
          if decide (op_sort op = SORT_NONE) then
            print_hypotheses m (op_cutoff op) (op_report op) (op_bugsql op) (op_confidence op);;;
            mret (clear m)
          else mret m
      end
  end.

(** The threads take the members in some order. *)
Fixpoint synthesize_all (f n : nat) (op : options) (order : list nat) (members : list Member)
    : RM (list Member) :=
  match order with
  | [] => mret members
  | i :: order =>
      match members !! i with
      | None => raise (undefined "members index")
      | Some m => m' ← synthesize f n op m; synthesize_all f n op order (<[i := m']> members)
      end
  end.

Definition string_lt (a b : string) : bool := match kcmp a b with Lt => true | _ => false end.
(** [char] is signed on x86. *)
Definition char_value (c : ascii) : Z :=
  let n := Z.of_nat (nat_of_ascii c) in if 128 <=? n then n - 256 else n.

Definition before_member (criterion : SortCriterion) (a b : Member) : bool :=
  match criterion with
  | SORT_NONE => false
  | SORT_MEMBER =>
      string_lt (datatype a) (datatype b) ||
      (bool_decide (datatype a = datatype b) && string_lt (name a) (name b)) ||
      (bool_decide (datatype a = datatype b) && bool_decide (name a = name b) &&
       (char_value (accesstype a) <? char_value (accesstype b)))
  | SORT_COMBINATIONS => (length (combinations a) <? length (combinations b))%nat
  | SORT_HYPOTHESES => (length (hypotheses a) <? length (hypotheses b))%nat
  end.

Definition csv_header : string :=
  "type;member;accesstype;locks;conflictlist;occurrences;total;percentage;accepted;confidence;counterexample-parameters".

(** [main] after the input has been read. *)
Definition report_members (f n : nat) (op : options) (order : list nat) (members : list Member) : RM unit :=
  (match op_report op with CSV | CSVWINNER => text (csv_header +:+ endl) | _ => mret tt end);;;
  members ← synthesize_all f n op order members;
  (if decide (op_sort op = SORT_NONE) then mret tt else
   for_each (fun m =>
     if show m then print_hypotheses m (op_cutoff op) (op_report op) (op_bugsql op) (op_confidence op)
     else mret tt) (std_sort _ (before_member (op_sort op)) members));;;
  (if bool_decide (op_report op = DOC) then
     text ("/*" +:+ endl);;; print_doc;;; text ("*/" +:+ endl)
   else mret tt).

End Report.

(** The whole program: the sort, the order of the threads, the options and the
    contents of the file are given. *)
Definition hypothesizer_main (std_sort : forall A : Type, (A -> A -> bool) -> list A -> list A)
    (f n : nat) (op : options) (order : nat -> list nat) (file : string) : exn + list out :=
  match load_input copy_fuel file with
  | inl e => inl e
  | inr (members, locks, _) =>
      match report_members std_sort locks f n op (order (length members)) members (mkReport [] 6 []) with
      | inl e => inl e
      | inr (_, r) => inr (r_out r)
      end
  end.

(** ** The command line of the hypothesizer

    [main] of hypothesizer.cc up to the opening of the input.  The options arrive
    in the order of the command line, as the option parser leaves them; numbers
    are read by [std::stod], which is written out here. *)

(** *** std::stod *)

(** Digits with at most one point: their value, the number of digits behind the
    point, whether there are any, and the rest. *)
Fixpoint scan_mantissa (base acc frac : Z) (point some : bool) (s : string) : Z * Z * bool * string :=
  match s with
  | String c s' =>
      match base_digit base c with
      | Some d => scan_mantissa base (acc * base + d) (if point then frac + 1 else frac) point true s'
      | None => if bool_decide (c = "."%char) && negb point then scan_mantissa base acc frac true some s'
                else (acc, frac, some, s)
      end
  | EmptyString => (acc, frac, some, s)
  end.

(** [e+12], or [p-3] behind hexadecimal digits; zero if there is none. *)
Definition scan_exponent (lower upper : ascii) (s : string) : Z :=
  match s with
  | String c s =>
      if bool_decide (c = lower) || bool_decide (c = upper) then
        let '(neg, s) := scan_sign s in
        match scan_digits 10 0 false s with
        | Some v => if neg : bool then - v else v
        | None => 0
        end
      else 0
  | EmptyString => 0
  end.

(** The double nearest to [m * 10 ^ e]. *)
Definition decimal (m e : Z) : double :=
  if 0 <=? e then to_double (m * 10 ^ e) else
  match m with
  | Zpos m => match 10 ^ (- e) with Zpos d => ddiv (S754_finite false m 0) (S754_finite false d 0) | _ => S754_nan end
  | _ => S754_zero false
  end.
Definition binary (m e : Z) : double := binary_normalize 53 1024 m e false.

(** [ERANGE]: too large, or below the normal numbers and not exact, where the
    value is [num / den]. *)
Definition in_range (num den : Z) (x : double) : bool :=
  match x with
  | S754_infinity _ | S754_nan => false
  | S754_zero _ => num =? 0
  | S754_finite _ m e => (2 ^ 52 <=? Zpos m) || (Zpos m * den =? num * 2 ^ (- e))
  end.

Definition lower_case (c : ascii) : ascii :=
  let n := nat_of_ascii c in if ((65 <=? n) && (n <=? 90))%nat then ascii_of_nat (n + 32) else c.
Fixpoint prefix_nocase (p s : string) : bool :=
  match p, s with
  | EmptyString, _ => true
  | String a p, String c s => bool_decide (lower_case c = a) && prefix_nocase p s
  | _, _ => false
  end.

(** The magnitude; [None] when an exception is thrown. *)
Definition strtod_abs (s : string) : option double :=
  let hex := match s with
    | String z (String x s') =>
        if bool_decide (z = "0"%char) && bool_decide (lower_case x = "x"%char) then
          let '(m, frac, some, rest) := scan_mantissa 16 0 0 false false s' in
          if some : bool then Some (m, scan_exponent "p" "P" rest - 4 * frac) else None
        else None
    | _ => None end in
  match hex with
  | Some (m, e) =>
      let x := binary m e in
      if in_range (m * 2 ^ Z.max e 0) (2 ^ Z.max (- e) 0) x then Some x else None
  | None =>
      let '(m, frac, some, rest) := scan_mantissa 10 0 0 false false s in
      if some : bool then
        let e := scan_exponent "e" "E" rest - frac in
        let x := decimal m e in
        if in_range (m * 10 ^ Z.max e 0) (10 ^ Z.max (- e) 0) x then Some x else None
      else if prefix_nocase "inf" s then Some (S754_infinity false)
      else if prefix_nocase "nan" s then Some S754_nan
      else None
  end.
Definition stod (s : string) : option double :=
  let '(neg, s) := scan_sign (skip_space s) in
  x ← strtod_abs s; Some (if neg : bool then SFopp x else x).

(** A double converted to [unsigned]: what is cut off is lost, and a value out of
    range is undefined. *)
Definition trunc (x : double) : option Z :=
  match x with
  | S754_zero _ => Some 0
  | S754_finite s m e => let n := if 0 <=? e then Zpos m * 2 ^ e else Zpos m / 2 ^ (- e) in
                         Some (if s : bool then - n else n)
  | _ => None
  end.
Definition to_unsigned (x : double) : exn + Z :=
  match trunc x with
  | Some n => if (0 <=? n) && (n <? 2 ^ 32) then inr n else inl (undefined "double to unsigned")
  | None => inl (undefined "double to unsigned")
  end.

(** *** The options *)

Inductive optionIndex :=
  | UNKNOWN | HELP | REDUCTIONFACTOR | SELECTIONSTRATEGY | NOLOCKTHRESHOLD | ACCEPTTHRESHOLD | CUTOFFTHRESHOLD
  | DATATYPE | MEMBER | SORT | REPORT | BUGSQL | CONFIDENCETHRESHOLD | MAXHYPOLEN.
#[export] Instance optionIndex_eq_dec : EqDecision optionIndex.
Proof. solve_decision. Defined.

(** What the parser makes of the arguments: [argc] without the program's name,
    whether it complained, the options with their arguments (empty where they have
    none), and the other arguments. *)
Record parsed := mkParsed {
  pr_argc : Z;
  pr_error : bool;
  pr_options : list (optionIndex * string);
  pr_nonOptions : list string
}.

(** The numbers of the options, as the entries of [usage] and the array of the
    parser have them. *)
Definition all_options : list optionIndex :=
  [UNKNOWN; HELP; REDUCTIONFACTOR; SELECTIONSTRATEGY; NOLOCKTHRESHOLD; ACCEPTTHRESHOLD; CUTOFFTHRESHOLD;
   DATATYPE; MEMBER; SORT; REPORT; BUGSQL; CONFIDENCETHRESHOLD; MAXHYPOLEN].
Definition option_number (i : optionIndex) : nat :=
  match i with
  | UNKNOWN => 0 | HELP => 1 | REDUCTIONFACTOR => 2 | SELECTIONSTRATEGY => 3 | NOLOCKTHRESHOLD => 4
  | ACCEPTTHRESHOLD => 5 | CUTOFFTHRESHOLD => 6 | DATATYPE => 7 | MEMBER => 8 | SORT => 9 | REPORT => 10
  | BUGSQL => 11 | CONFIDENCETHRESHOLD => 12 | MAXHYPOLEN => 13
  end%nat.

Definition entry (i : optionIndex) (short long : string) (check : Option -> ArgStatus) (text : string) : Descriptor :=
  mkDesc (option_number i) short long check (Some text).
Definition usage : list Descriptor :=
  [entry UNKNOWN EmptyString EmptyString Arg_None
     ("Usage: hypothesizer [options] input.csv" ++ nl ++ nl ++ "Options:");
   entry HELP "h" "help" Arg_None
     ("--help  " ++ tab ++ "Print usage and exit");
   entry NOLOCKTHRESHOLD "n" "nolock-threshold" Arg_Required
     ("-n/--nolock-threshold n  " ++ tab ++
      "Set threshold for assuming that no lock is required to n% (default: 5.0)");
   entry ACCEPTTHRESHOLD "a" "accept-threshold" Arg_Required
     ("-a/--accept-threshold n  " ++ tab ++ "Set hypothesis accept threshold to n% (default: 90.0)");
   entry REDUCTIONFACTOR "f" "reduction-factor" Arg_Required
     ("-f/--reduction-factor n  " ++ tab ++
      "Set max. allowed reduction in rel. support when selecting a more restrictive hypothesis to n% (default: 5.0)");
   entry SELECTIONSTRATEGY "g" "selection-strategy" Arg_Required
     ("-g/--selection-strategy n  " ++ tab ++
      "Select the strategy for determining the winning hypothesis: " ++ quote ++ "list" ++ quote ++
      ", or a " ++ quote ++ "graph" ++ quote ++ ". ");
   entry CUTOFFTHRESHOLD "t" "cutoff-threshold" Arg_Required
     ("-t/--cutoff-threshold n  " ++ tab ++ "Set hypothesis cutoff threshold to n% (default: 10.0)");
   entry DATATYPE "d" "datatype" Arg_Required
     ("-d/--datatype typename  " ++ tab ++
      "Only create/test hypotheses for a specific data structure that name starts with $datatype; may be used more than once");
   entry MEMBER "m" "member" Arg_Required
     ("-m/--member member  " ++ tab ++
      "Only create/test hypotheses for specific data-structure member; may be used more than once");
   entry SORT "s" "sort" Arg_Required
     ("-s/--sort criterion  " ++ tab ++ "Sort output by criterion " ++ quote ++ "member" ++ quote ++
      " = datatype/member name, " ++ quote ++ "combinations" ++ quote ++
      " = number of lock combinations, or " ++ quote ++ "hypotheses" ++ quote ++ " = number of hypotheses");
   entry REPORT "r" "report" Arg_Required
     ("-r/--report mode  " ++ tab ++ "Generate report (mode: " ++ "normal = human-readable, " ++
      "csv = machine-readable CSV, " ++ "csvwinner = like csv but only winning hypothesis, " ++
      "doc = C source-code comment" ++ ")");
   entry BUGSQL "b" "bugsql" Arg_None
     ("-b/--bugsql  " ++ tab ++ "Generate parameters for counterexamples.sql.sh, " ++
      "which helps locating counterexamples in the kernel source code; " ++
      "effective in combination with --report normal, implicit with --report csv or csvwinner");
   entry CONFIDENCETHRESHOLD "c" "confidence-threshold" Arg_Required
     ("-c/--confidence-threshold n  " ++ tab ++
      "Set observations threshold for assuming a hypothesis is trustworthy to n (default: 50). " ++
      "Values below lead to a scaled relative support of the respective hypothesis.");
   entry MAXHYPOLEN "l" "hypothesis-length" Arg_Required
     ("-l/--hypothesis-length n  " ++ tab ++
      "Limit length of derived hypothesis to n locks (default: 0). " ++ "0 means no limit.")]%string.

(** What is written to the standard output where [exit_with] ends a program that
    has been asked for help or cannot make sense of its words. *)
Definition usage_output : exn + string := usage_text usage.

(** The options of the lists of the parser, with their arguments. *)
Definition with_arguments (i : optionIndex) (os : list Option) : list (optionIndex * string) :=
  (fun o => (i, default EmptyString (arg o))) <$> os.
Fixpoint read_lists (s : store) (l : list optionIndex) : exn + list (optionIndex * string) :=
  match l with
  | [] => inr []
  | i :: l =>
      match chain s (option_number i), read_lists s l with
      | inl e, _ | _, inl e => inl e
      | inr os, inr rest => inr (with_arguments i os ++ rest)
      end
  end.

(** What [main] makes of its words; the first is the name of the program. *)
Definition read_arguments (argv : list string) : exn + parsed :=
  match parse_words usage (tail argv) with
  | inl e => inl e
  | inr (p, s, words) =>
      match read_lists s all_options with
      | inl e => inl e
      | inr l => inr (mkParsed (Z.of_nat (length (tail argv))) (err p) l (nonOptions p words))
      end
  end.

Definition accept_threshold_default : double := decimal 9 (-1).
Definition nolock_threshold_default : double := decimal 5 (-2).
Definition cutoff_threshold_default : double := decimal 1 (-1).
Definition confidence_threshold_default : double := decimal 500 (-1).
Definition reduction_factor_default : double := decimal 5 (-2).
Definition max_hypo_len_default : Z := 0.

Section Options.
Context (p : parsed).

(** All arguments of an option, and the one of [last()]. *)
Definition args (i : optionIndex) : list string :=
  snd <$> filter (fun o : optionIndex * string => o.1 = i) (pr_options p).
Definition given (i : optionIndex) : bool := negb (bool_decide (args i = [])).
Definition last_arg (i : optionIndex) : option string := last (args i).

(** A number, or the default; what cannot be parsed ends the program. *)
Definition number_option (i : optionIndex) (default : double) (scale : double -> double) : exn + double :=
  match last_arg i with
  | None => inr default
  | Some arg => match stod arg with Some x => inr (scale x) | None => inl (exit_with 1) end
  end.
Definition from_percent (x : double) : double := ddiv x (to_double 100).

(** One of some words, or the default. *)
Definition word_option {A} (i : optionIndex) (default : A) (words : list (string * A)) : exn + A :=
  match last_arg i with
  | None => inr default
  | Some arg => match List.find (fun w => String.eqb w.1 arg) words with
                | Some w => inr w.2
                | None => inl (exit_with 1) end
  end.

Definition strategy_words : list (string * SelectionStrategy) :=
  [("topdown", TOPDOWN); ("bottomup", BOTTOMUP); ("sharpen", SHARPEN); ("lockset", LOCKSET)]%string.
Definition sort_words : list (string * SortCriterion) :=
  [("member", SORT_MEMBER); ("combinations", SORT_COMBINATIONS); ("hypotheses", SORT_HYPOTHESES)]%string.
Definition report_words : list (string * ReportMode) :=
  [("normal", NORMAL); ("csv", CSV); ("csvwinner", CSVWINNER); ("doc", DOC)]%string.

Definition length_option : exn + Z :=
  match last_arg MAXHYPOLEN with
  | None => inr max_hypo_len_default
  | Some arg => match stod arg with Some x => to_unsigned x | None => inl (exit_with 1) end
  end.

(** [std::set<std::string>] *)
Definition set_option (i : optionIndex) : list string := foldl (fun s a => ss_insert a s) [] (args i).

Local Notation "'let*' x := c 'in' k" := (match c with inl e => inl e | inr x => k end)
  (at level 200, x name, k at level 200).

(** The settings and the name of the input file. *)
Definition parse_command_line : exn + (options * string) :=
  if pr_error p then inl (exit_with 1) else
  match pr_nonOptions p with
  | [filename] =>
      if given HELP || given UNKNOWN || (pr_argc p =? 0) then inl (exit_with (if given HELP then 0 else 1)) else
      let* reduction_factor := number_option REDUCTIONFACTOR reduction_factor_default from_percent in
      let* strategy := word_option SELECTIONSTRATEGY SHARPEN strategy_words in
      let* accept_threshold := number_option ACCEPTTHRESHOLD accept_threshold_default from_percent in
      let* nolock_threshold := number_option NOLOCKTHRESHOLD nolock_threshold_default from_percent in
      let* cutoff_threshold := number_option CUTOFFTHRESHOLD cutoff_threshold_default from_percent in
      let* confidence_threshold := number_option CONFIDENCETHRESHOLD confidence_threshold_default (fun x => x) in
      let* max_hypo_len := length_option in
      let* sortby := word_option SORT SORT_NONE sort_words in
      let* reportmode := word_option REPORT NORMAL report_words in
      inr (mkOptions strategy accept_threshold nolock_threshold reduction_factor cutoff_threshold
        confidence_threshold max_hypo_len (set_option DATATYPE) (set_option MEMBER) sortby reportmode (given BUGSQL),
        filename)
  | _ => inl (exit_with (if given HELP then 0 else 1))
  end.
End Options.

(** The program; [open_file] gives the contents of a file that can be read. *)
Definition hypothesizer (std_sort : forall A : Type, (A -> A -> bool) -> list A -> list A)
    (f n : nat) (open_file : string -> option string) (order : nat -> list nat) (argv : list string) : exn + list out :=
  match read_arguments argv with
  | inl e => inl e
  | inr p =>
      match parse_command_line p with
      | inl e => inl e
      | inr (op, filename) =>
          match open_file filename with
          | None => inl (exit_with 1)
          | Some file => hypothesizer_main std_sort f n op order file
          end
      end
  end.

(** *** What the settings are like *)

Lemma length_option_range p n : length_option p = inr n -> 0 <= n < 2 ^ 32.
Proof.
  unfold length_option, to_unsigned. destruct (last_arg p MAXHYPOLEN); [|by intros [= <-]].
  destruct (stod _) as [x|]; [|done]. destruct (trunc x) as [k|]; [|done].
  destruct (_ && _) eqn:E; [|done]. intros [= <-]. apply andb_true_iff in E as [E1 E2]. lia.
Qed.

Lemma parse_command_line_length p op filename :
  parse_command_line p = inr (op, filename) -> 0 <= op_max_hypo_len op < 2 ^ 32.
Proof.
  unfold parse_command_line. destruct (pr_error p); [done|]. destruct (pr_nonOptions p) as [|? [|? ?]]; try done.
  destruct (_ || _); [done|].
  repeat match goal with |- context [match ?c with inl _ => _ | inr _ => _ end] =>
    lazymatch c with length_option p => fail | _ => destruct c as [|?]; [done|] end end.
  destruct (length_option p) as [|k] eqn:E; [done|].
  repeat match goal with |- context [match ?c with inl _ => _ | inr _ => _ end] => destruct c as [|?]; [done|] end.
  intros [= <- _]. by apply length_option_range in E.
Qed.

(** Numbers as they are written on the command line. *)
Example stod_numbers :
  stod "5.0" = Some (to_double 5) /\ stod " +90" = Some (to_double 90) /\ stod "0.25x" = Some (ddiv (to_double 1) (to_double 4)) /\
  stod "-1e2" = Some (to_double (-100)) /\ stod "0x1.8p1" = Some (to_double 3) /\ stod ".1" = Some (ddiv (to_double 1) (to_double 10)) /\
  stod "1e400" = None /\ stod "1e-400" = None /\ stod "graph" = None /\ stod "Infinity" = Some (S754_infinity false).
Proof. vm_compute. repeat split. Qed.

(** The words the usage text offers for -g are refused. *)
Example usage_words_refused :
  (fun w => word_option (mkParsed 3 false [(SELECTIONSTRATEGY, w)] ["in.csv"%string]) SELECTIONSTRATEGY SHARPEN strategy_words) <$>
    ["list"; "graph"]%string = [inl (exit_with 1); inl (exit_with 1)].
Proof. reflexivity. Qed.

(** The usage text keeps inside its 80 columns. *)
Example usage_output_lines :
  match usage_output with
  | inr t => forallb (fun l => String.length l <=? 80)%nat (tokens NEWLINE t) && String.prefix "Usage: hypothesizer" t
  | inl _ => false
  end = true.
Proof. vm_compute. reflexivity. Qed.
