(* ===== verification/HypoReportProps.v ===== *)
(** * The rows of the CSV report

    [print_hypotheses] prints every tested order with enough support once, and
    marks at most one of them as the winner. *)
From Stdlib Require Import Ascii String Floats.SpecFloat.
From S2P Require Import Prelude StdMap LockTypes CxxStd Hypothesizer HypoProps HypoInput HypoReport.
Local Open Scope list_scope.
Local Open Scope Z_scope.

(** ** What [std::sort] promises *)

(** A strict weak ordering, as [std::sort] requires it. *)
Record weak_order {A} (cmp : A -> A -> bool) : Prop := {
  wo_irrefl a : cmp a a = false;
  wo_trans a b c : cmp a b = true -> cmp b c = true -> cmp a c = true;
  wo_equiv a b c : cmp a b = false -> cmp b a = false -> cmp b c = false -> cmp c b = false ->
    cmp a c = false /\ cmp c a = false
}.

(** The result has the same elements, and none is before an earlier one. *)
Definition sort_ok (std_sort : forall A : Type, (A -> A -> bool) -> list A -> list A) : Prop :=
  forall A (cmp : A -> A -> bool) l,
    std_sort A cmp l ≡ₚ l /\
    (weak_order cmp -> StronglySorted (fun a b => cmp b a = false) (std_sort A cmp l)).

Lemma before_hypothesis_weak : weak_order before_hypothesis.
Proof.
  unfold before_hypothesis. split.
  - intros a. rewrite Z.ltb_irrefl, Nat.ltb_irrefl. by destruct (_ =? _).
  - intros a b c. rewrite !orb_true_iff, !andb_true_iff, !Z.ltb_lt, !Z.eqb_eq, !Nat.ltb_lt. lia.
  - intros a b c. rewrite !orb_false_iff, !andb_false_iff, !Z.ltb_ge, !Z.eqb_neq, !Nat.ltb_ge. lia.
Qed.

(** ** Pieces of output *)

Section Rows.
Context (std_sort : forall A : Type, (A -> A -> bool) -> list A -> list A) (Hsort : sort_ok std_sort).
Context (locks : list string).

(** A computation that only appends [items], from precision [p] to [p']. *)
Definition writes {A} (p : Z) (c : RM A) (a : A) (items : list out) (p' : Z) : Prop :=
  forall out doc, c (mkReport out p doc) = inr (a, mkReport (out ++ items) p' doc).

Lemma writes_ret {A} p (a : A) : writes p (mret a) a [] p.
Proof. intros out doc. by rewrite app_nil_r. Qed.

Lemma writes_bind {A B} p (c : RM A) a i1 p1 (k : A -> RM B) b i2 p2 :
  writes p c a i1 p1 -> writes p1 (k a) b i2 p2 -> writes p (c ≫= k) b (i1 ++ i2) p2.
Proof. intros Hc Hk out doc. rewrite (dbind _ _ _ _ _ (Hc out doc)), Hk. by rewrite app_assoc. Qed.

Lemma writes_text p s : writes p (text s) tt [OText s] p.
Proof. done. Qed.
Lemma writes_int p n : writes p (int n) tt [OInt n] p.
Proof. done. Qed.
Lemma writes_dbl p w d : writes p (dbl w d) tt [ODouble p w d] p.
Proof. done. Qed.
Lemma writes_precision p p' : writes p (set_precision p') tt [] p'.
Proof. intros out doc. by rewrite app_nil_r. Qed.

(** ** Locks by name *)

Definition lock_name (id : myid_t) : string := default EmptyString (locks !! Z.to_nat id).

Fixpoint names_text (l : list myid_t) (separator quote : string) : string :=
  match l with
  | [] => EmptyString
  | id :: l => quote +:+ lock_name id +:+ quote +:+
      (match l with [] => EmptyString | _ => separator +:+ names_text l separator quote end)
  end.
Definition locks_string (l : list myid_t) (separator quote : string) : string :=
  match l with [] => "(no locks held)" | _ => names_text l separator quote end.

Definition known (l : list myid_t) : Prop := Forall (fun id => is_Some (locks !! Z.to_nat id)) l.

Lemma locks2string_writes p l separator quote :
  known l -> writes p (locks2string locks l separator quote) (locks_string l separator quote) [] p.
Proof.
  intros Hl. unfold locks2string, locks_string. destruct l as [|id l]; [apply writes_ret|].
  revert Hl. generalize (id :: l) as l0. clear. induction l0 as [|id l IH]; intros Hl; simpl.
  - apply writes_ret.
  - apply Forall_cons in Hl as [[s Hs] Hl]. unfold lock_name. rewrite Hs. simpl.
    change (@nil out) with (@nil out ++ []). eapply writes_bind; [by apply IH|].
    destruct l; apply writes_ret.
Qed.

Definition bugsql_text (m : Member) (l : hypo) (n : Z) : string :=
  if 0 <? n then
    (EmptyString +:+ "counterexample.sql.sh " +:+ datatype m +:+ " " +:+ combined_name m +:+ " " +:+ "CEX "
      +:+ "SEQ " +:+ locks_string l " " "'" +:+ endl)%string
  else (EmptyString +:+ "(no counterexamples to be expected, this hypothesis has 100% support in the observation set)"
      +:+ endl)%string.

Lemma print_bugsql_writes p m l n :
  known l -> writes p (print_bugsql locks EmptyString endl m l true n) tt [OText (bugsql_text m l n)] p.
Proof.
  intros Hl. unfold print_bugsql, bugsql_text. destruct (0 <? n); [|apply writes_text].
  change [OText _] with ([] ++ [OText (EmptyString +:+ "counterexample.sql.sh " +:+ datatype m +:+ " " +:+
    combined_name m +:+ " " +:+ "CEX " +:+ "SEQ " +:+ locks_string l " " "'" +:+ endl)%string]).
  eapply writes_bind; [by apply locks2string_writes|apply writes_text].
Qed.

Fixpoint conflict_items (l : list (hypo * hypo)) (h : hypo) : list out :=
  match l with
  | [] => []
  | e :: l =>
      (if bool_decide (e.2 = h) then [] else
       OText (locks_string e.2 arrow EmptyString) :: match l with [] => [] | _ => [OText ","] end)
      ++ conflict_items l h
  end.

Lemma print_conflicts_writes p l h :
  Forall (fun e => known e.2) l -> writes p (print_conflicts locks l h) tt (conflict_items l h) p.
Proof.
  induction l as [|e l IH]; intros Hl; simpl; [apply writes_ret|].
  apply Forall_cons in Hl as [He Hl]. eapply writes_bind; [|by apply IH].
  repeat case_bool_decide; try done; [apply writes_ret|].
  change (OText ?s :: ?r) with ([] ++ [OText s] ++ r).
  eapply writes_bind; [by apply locks2string_writes|]. eapply writes_bind; [apply writes_text|].
  destruct l; [apply writes_ret|apply writes_text].
Qed.

(** ** Rows *)

(** The mark of a row: the winner, in conflict with it, or neither. *)
Inductive flag := Winner | Conflict | Other.
#[local] Instance flag_eq_dec : EqDecision flag.
Proof. solve_decision. Defined.
Definition flag_of (winner conflict : bool) : flag :=
  if winner then Winner else if conflict then Conflict else Other.
Definition flag_number (f : flag) : Z := match f with Winner => 1 | Conflict => 2 | Other => 0 end.

Definition row_items (m : Member) (confidence : double) (row : hypo * Z * flag) : list out :=
  let '(h, n, f) := row in
  [OText (datatype m +:+ ";" +:+ name m +:+ ";" +:+ String (accesstype m) EmptyString +:+ ";" +:+
     locks_string h arrow EmptyString +:+ ";")%string] ++
  (if bool_decide (f = Winner) then conflict_items (conflict_list m) h else []) ++
  [OText ";"; OInt n; OText ";"; OInt (occurrences m); OText ";";
   ODouble 5 0 (percent (support n m)); OText ";"; OInt (flag_number f); OText ";";
   ODouble 5 0 (dmul (support n m) (smoothstep (to_double 0) confidence (to_double n))); OText ";";
   OText (bugsql_text m h (u64 (occurrences m - n)))].

Lemma writes_eq {A} p (c : RM A) a i i' p' : writes p c a i p' -> i = i' -> writes p c a i' p'.
Proof. by intros ? <-. Qed.

Lemma print_csv_row_writes p m h n winner conflict confidence :
  known h -> Forall (fun e => known e.2) (conflict_list m) ->
  writes p (print_csv_row locks m (h, n) winner conflict (support n m) confidence) tt
    (row_items m confidence (h, n, flag_of winner conflict)) 5.
Proof.
  intros Hh Hc. unfold print_csv_row. eapply writes_eq.
  - eapply writes_bind; [by apply locks2string_writes|]. eapply writes_bind; [apply writes_text|].
    eapply (writes_bind _ _ _ (if winner then conflict_items (conflict_list m) h else [])).
    { destruct winner; [by apply print_conflicts_writes|apply writes_ret]. }
    repeat (eapply writes_bind; [apply writes_text || apply writes_int || apply writes_dbl ||
      apply writes_precision|]).
    by apply print_bugsql_writes.
  - unfold row_items, flag_of. destruct winner, conflict; reflexivity.
Qed.

(** ** One hypothesis *)

(** The row of an order, and whether the winner has been printed after it. *)
Definition row_of (m : Member) (found : bool) (mt : hypo * Z) : hypo * Z * flag :=
  let w := is_winner m found mt.1 in (mt, flag_of w (is_conflict m w mt.1)).

Fixpoint rows_from (m : Member) (found : bool) (l : list (hypo * Z)) : list (hypo * Z * flag) :=
  match l with
  | [] => []
  | mt :: l => row_of m found mt :: rows_from m (found || is_winner m found mt.1) l
  end.

Fixpoint found_after (m : Member) (found : bool) (l : list (hypo * Z)) : bool :=
  match l with
  | [] => found
  | mt :: l => found_after m (found || is_winner m found mt.1) l
  end.

Lemma rows_from_app m found l1 l2 :
  rows_from m found (l1 ++ l2) = rows_from m found l1 ++ rows_from m (found_after m found l1) l2.
Proof. revert found. induction l1 as [|mt l1 IH]; intros found; simpl; [done|]. by rewrite IH. Qed.

Lemma found_after_app m found l1 l2 :
  found_after m found (l1 ++ l2) = found_after m (found_after m found l1) l2.
Proof. revert found. induction l1 as [|mt l1 IH]; intros found; simpl; [done|]. by rewrite IH. Qed.

Lemma rows_from_fst m found l : fst <$> rows_from m found l = l.
Proof. revert found. induction l as [|mt l IH]; intros found; simpl; [done|]. by rewrite IH. Qed.

(** The precision after the rows [l]. *)
Definition precision_after {A} (p : Z) (l : list A) : Z := match l with [] => p | _ => 5 end.

Lemma precision_after_app {A} p (l1 l2 : list A) :
  precision_after (precision_after p l1) l2 = precision_after p (l1 ++ l2).
Proof. destruct l1, l2; reflexivity. Qed.

Definition rows_items (m : Member) (confidence : double) (rows : list (hypo * Z * flag)) : list out :=
  concat (row_items m confidence <$> rows).

Lemma rows_items_app m confidence rows1 rows2 :
  rows_items m confidence (rows1 ++ rows2) = rows_items m confidence rows1 ++ rows_items m confidence rows2.
Proof. unfold rows_items. by rewrite fmap_app, concat_app. Qed.

Section Member.
Context (m : Member) (bugsql : bool) (cutoff confidence : double).
Context (Hconflicts : Forall (fun e => known e.2) (conflict_list m)).

Lemma print_match_writes p h found mt :
  known mt.1 ->
  writes p (print_match locks m CSV bugsql confidence h found mt) (found || is_winner m found mt.1)
    (row_items m confidence (row_of m found mt)) 5.
Proof.
  intros Hk. destruct mt as [l n]. unfold print_match. eapply writes_eq.
  - eapply writes_bind; [by apply print_csv_row_writes|apply writes_ret].
  - by rewrite app_nil_r.
Qed.

Lemma print_matches_writes p h found l :
  Forall (fun mt : hypo * Z => known mt.1) l ->
  writes p (print_matches locks m CSV bugsql confidence h found l) (found_after m found l)
    (rows_items m confidence (rows_from m found l)) (precision_after p l).
Proof.
  revert p found. induction l as [|mt l IH]; intros p found Hl; simpl; [apply writes_ret|].
  apply Forall_cons in Hl as [Hmt Hl]. eapply writes_bind; [by apply print_match_writes|].
  specialize (IH 5 (found || is_winner m found mt.1) Hl). by destruct l.
Qed.

Definition enough_support (h : LockingHypothesisMatches) : bool :=
  negb (SFltb (support (hm_occurrences h) m) cutoff).

(** The orders of the hypotheses with enough support, as they are printed. *)
Definition printed (hs : list LockingHypothesisMatches) : list (hypo * Z) :=
  flat_map (fun h => std_sort _ before_match (matches h)) (List.filter enough_support hs).

Lemma print_all_writes p found hs :
  Forall (fun h => Forall (fun mt : hypo * Z => known mt.1) (matches h)) hs ->
  writes p (print_all std_sort locks m cutoff CSV bugsql confidence found hs)
    (found_after m found (printed hs)) (rows_items m confidence (rows_from m found (printed hs)))
    (precision_after p (printed hs)).
Proof.
  unfold printed. revert p found. induction hs as [|h hs IH]; intros p found Hhs; cbn [print_all List.filter].
  { apply writes_ret. }
  apply Forall_cons in Hhs as [Hh Hhs]. unfold print_hypothesis.
  destruct (enough_support h) eqn:He; unfold enough_support in He.
  2:{ apply negb_false_iff in He. rewrite He.
    change (rows_items ?a ?b ?c) with ([] ++ rows_items a b c). eapply writes_bind; [apply writes_ret|].
    by apply IH. }
  apply negb_true_iff in He. rewrite He.
  rewrite (bool_decide_eq_false_2 (CSV = NORMAL)), orb_true_r by done.
  cbn [flat_map]. rewrite found_after_app, rows_from_app, rows_items_app, <-precision_after_app.
  eapply writes_bind; [|by apply IH].
  change (rows_items ?a ?b ?c) with ([] ++ rows_items a b c). eapply writes_bind; [apply writes_ret|].
  apply print_matches_writes. by rewrite (proj1 (Hsort _ before_match (matches h))).
Qed.
End Member.

(** ** The winner *)

Definition winner_row (row : hypo * Z * flag) : bool := match row.2 with Winner => true | _ => false end.

(** At most one row is the winner's: it is if the winner is among the orders. *)
Lemma rows_from_winner (m : Member) (found : bool) (l : list (hypo * Z)) :
  length (List.filter winner_row (rows_from m found l)) =
  (if negb found && winner_found m && existsb (fun mt : hypo * Z => bool_decide (winning_hypothesis m = mt.1)) l
   then 1 else 0)%nat.
Proof.
  revert found. induction l as [|mt l IH]; intros found; cbn [rows_from List.filter existsb].
  { by rewrite andb_false_r. }
  unfold winner_row at 1, row_of at 1, is_winner. cbn [snd].
  destruct found, (winner_found m), (bool_decide (winning_hypothesis m = mt.1)) eqn:Hb;
    unfold is_winner in IH; rewrite ?Hb in IH;
    cbn [negb andb orb flag_of]; try destruct (is_conflict _ _ _); cbn [flag_of length]; rewrite IH;
    cbn [negb andb orb]; auto.
Qed.

Lemma rows_from_flags (m : Member) (found : bool) (l : list (hypo * Z)) (row : hypo * Z * flag) :
  row ∈ rows_from m found l ->
  match row.2 with
  | Winner => winner_found m = true /\ row.1.1 = winning_hypothesis m
  | Conflict => winner_found m = true /\ in_conflict_list (conflict_list m) row.1.1 = true
  | Other => True
  end.
Proof.
  revert found. induction l as [|mt l IH]; intros found; cbn [rows_from]; [by intros ?%elem_of_nil|].
  intros [->|Hr]%elem_of_cons; [|by eapply IH].
  unfold row_of, is_conflict, is_winner. cbn [snd fst].
  destruct (winner_found m), (negb found), (bool_decide _) eqn:Hb; cbn [andb negb flag_of]; auto.
  1: apply bool_decide_eq_true in Hb; by rewrite Hb.
  all: rewrite ?andb_false_r; cbn [flag_of]; auto.
  all: destruct (in_conflict_list _ _) eqn:Hc; cbn [andb flag_of]; auto.
Qed.
End Rows.

Lemma before_match_weak : weak_order before_match.
Proof.
  unfold before_match. split.
  - intros a. apply Z.ltb_irrefl.
  - intros a b c. rewrite !Z.ltb_lt. lia.
  - intros a b c. rewrite !Z.ltb_ge. lia.
Qed.

Lemma filter_permutation {A} (p : A -> bool) (l l' : list A) : l ≡ₚ l' -> List.filter p l ≡ₚ List.filter p l'.
Proof.
  induction 1 as [|a l l' _ IH|a b l|l1 l2 l3 _ IH1 _ IH2]; simpl.
  - done.
  - destruct (p a); [by constructor|done].
  - destruct (p a), (p b); try done. apply Permutation_swap.
  - by etransitivity.
Qed.

Lemma existsb_permutation {A} (p : A -> bool) (l l' : list A) : l ≡ₚ l' -> existsb p l = existsb p l'.
Proof.
  intros Hl. apply eq_true_iff_eq. rewrite !existsb_exists.
  split; intros (x & Hx & Hp); exists x; (split; [|done]); eauto using Permutation_in, Permutation_sym.
Qed.

Lemma concat_groups {A B} (f : A -> list B) (P : list B -> Prop) (p : A -> bool) (l sorted : list A)
    (groups : list (list B)) :
  sorted ≡ₚ l -> Forall2 (fun h g => g ≡ₚ f h /\ P g) (List.filter p sorted) groups ->
  concat groups ≡ₚ flat_map f (List.filter p l).
Proof.
  intros Hp Hg. transitivity (flat_map f (List.filter p sorted)).
  - clear Hp. induction Hg as [|h g l' gs [Hg _] _ IH]; simpl; [done|]. by rewrite Hg, IH.
  - rewrite !flat_map_concat_map. by rewrite (filter_permutation p _ _ Hp).
Qed.

(** Everything the member prints can be named. *)
Definition known_member (locks : list string) (m : Member) : Prop :=
  Forall (fun h => Forall (fun mt : hypo * Z => known locks mt.1) (matches h)) (map2vec (hypotheses m)) /\
  Forall (fun e => known locks e.2) (conflict_list m).

(** The report of a member: the rows of the printed orders, hypotheses sorted. *)
Lemma print_hypotheses_writes std_sort locks (m : Member) (cutoff confidence : double) (bugsql : bool) p :
  sort_ok std_sort -> known_member locks m ->
  let rows := rows_from m false (printed std_sort m cutoff (std_sort _ before_hypothesis (map2vec (hypotheses m)))) in
  writes p (print_hypotheses std_sort locks m cutoff CSV bugsql confidence) tt
    (rows_items locks m confidence rows) (precision_after 3 rows).
Proof.
  intros Hsort [Hm Hc] rows. subst rows. set (sorted := std_sort _ before_hypothesis (map2vec (hypotheses m))).
  assert (Hall : Forall (fun h => Forall (fun mt : hypo * Z => known locks mt.1) (matches h)) sorted)
    by (unfold sorted; by rewrite (proj1 (Hsort _ before_hypothesis (map2vec (hypotheses m))))).
  unfold print_hypotheses. rewrite bool_decide_eq_false_2 by done. fold sorted.
  eapply writes_eq; [|apply (app_nil_r (rows_items _ _ _ _))].
  eapply (writes_bind _ _ _ [] _ _ _ (_ ++ _)); [apply writes_ret|].
  eapply (writes_bind _ _ _ [] _ _ _ (_ ++ _)); [apply writes_precision|].
  eapply writes_bind; [by apply print_all_writes|].
  destruct (printed std_sort m cutoff sorted); apply writes_ret.
Qed.

(** (C23) The CSV report of a member.  The hypotheses are taken by falling
    number of occurrences; those below the cutoff are left out; of every other
    one each tested order gets exactly one row, by falling number of
    occurrences.  A row carries the order's own numbers; there is one row with
    the winner's flag if the winner was selected and is among the printed
    orders, and none otherwise; the winner's flag is on the winning hypothesis,
    and the conflict's only on members of the conflict list. *)
Theorem print_hypotheses_csv (std_sort : forall A : Type, (A -> A -> bool) -> list A -> list A)
    (locks : list string) (m : Member) (cutoff confidence : double) (bugsql : bool) :
  sort_ok std_sort -> known_member locks m ->
  exists (sorted : list LockingHypothesisMatches) (groups : list (list (hypo * Z)))
      (rows : list (hypo * Z * flag)),
    sorted ≡ₚ map2vec (hypotheses m) /\
    StronglySorted (fun a b => hm_occurrences b <= hm_occurrences a) sorted /\
    Forall2 (fun h g => g ≡ₚ matches h /\ StronglySorted (fun a b : hypo * Z => b.2 <= a.2) g)
      (List.filter (enough_support m cutoff) sorted) groups /\
    fst <$> rows = concat groups /\
    length (List.filter winner_row rows) =
      (if winner_found m && existsb (fun mt : hypo * Z => bool_decide (winning_hypothesis m = mt.1)) (concat groups)
       then 1 else 0)%nat /\
    Forall (fun row : hypo * Z * flag => match row.2 with
      | Winner => row.1.1 = winning_hypothesis m
      | Conflict => in_conflict_list (conflict_list m) row.1.1 = true
      | Other => True end) rows /\
    forall (l : list out) (p : Z) (doc : doc_map_t),
      print_hypotheses std_sort locks m cutoff CSV bugsql confidence (mkReport l p doc) =
      inr (tt, mkReport (l ++ concat (row_items locks m confidence <$> rows)) (precision_after 3 rows) doc).
Proof.
  intros Hsort Hm. set (sorted := std_sort _ before_hypothesis (map2vec (hypotheses m))).
  destruct (Hsort _ before_hypothesis (map2vec (hypotheses m))) as [Hp Hs]. fold sorted in Hp, Hs.
  set (eligible := List.filter (enough_support m cutoff) sorted).
  exists sorted, ((fun h => std_sort _ before_match (matches h)) <$> eligible),
    (rows_from m false (printed std_sort m cutoff sorted)).
  assert (Hg : concat ((fun h => std_sort _ before_match (matches h)) <$> eligible) =
    printed std_sort m cutoff sorted) by (symmetry; apply flat_map_concat_map).
  rewrite Hg, rows_from_fst, rows_from_winner. repeat split.
  - done.
  - eapply strongly_sorted_impl; [|apply Hs, before_hypothesis_weak].
    intros a b. unfold before_hypothesis. rewrite orb_false_iff, Z.ltb_ge. lia.
  - apply Forall2_fmap_r, Forall_Forall2_diag, Forall_true. intros h.
    destruct (Hsort _ before_match (matches h)) as [Hp' Hs']. split; [done|].
    eapply strongly_sorted_impl; [|apply Hs', before_match_weak]. intros a b. apply Z.ltb_ge.
  - apply Forall_forall. intros row Hr%rows_from_flags. destruct row.2; tauto.
  - intros l p doc. revert l doc. by apply print_hypotheses_writes.
Qed.

(** ** A sort *)

Section InsertionSort.
Context {A : Type} (cmp : A -> A -> bool).

Fixpoint insert_sorted (a : A) (l : list A) : list A :=
  match l with
  | [] => [a]
  | b :: l => if cmp a b then a :: b :: l else b :: insert_sorted a l
  end.
Definition insertion_sort (l : list A) : list A := foldr insert_sorted [] l.

Lemma insert_sorted_perm a l : insert_sorted a l ≡ₚ a :: l.
Proof.
  induction l as [|b l IH]; simpl; [done|]. destruct (cmp a b); [done|].
  rewrite IH. apply Permutation_swap.
Qed.

Lemma insert_sorted_sorted (Hcmp : weak_order cmp) a l :
  StronglySorted (fun a b => cmp b a = false) l -> StronglySorted (fun a b => cmp b a = false) (insert_sorted a l).
Proof.
  induction 1 as [|b l Hl IH Hb]; simpl; [by repeat constructor|].
  destruct (cmp a b) eqn:Hab.
  - assert (forall c, cmp c b = false -> cmp c a = false) as Hc.
    { intros c Hcb. destruct (cmp c a) eqn:Hca; [|done].
      rewrite (wo_trans _ Hcmp _ _ _ Hca Hab) in Hcb. done. }
    repeat constructor; [done..| |].
    + apply Hc, (wo_irrefl _ Hcmp).
    + eapply Forall_impl; eauto.
  - constructor; [done|]. rewrite insert_sorted_perm. by constructor.
Qed.
End InsertionSort.

Lemma insertion_sort_ok : sort_ok (@insertion_sort).
Proof.
  intros A cmp l. split.
  - induction l as [|a l IH]; simpl; [done|]. by rewrite insert_sorted_perm, IH.
  - intros Hcmp. induction l as [|a l IH]; simpl; [constructor|]. by apply insert_sorted_sorted.
Qed.

(** A member whose winner is an order of two locks. *)
Definition reported_member : Member :=
  match find_hypotheses 200 7 sample_member 0 with
  | inr m =>
      match select_winner 200 TOPDOWN (ddiv (to_double 9) (to_double 10)) (to_double 2) (to_double 1) m with
      | inr m => m
      | inl _ => sample_member
      end
  | inl _ => sample_member
  end.

Lemma print_hypotheses_csv_witness :
  exists rows r, print_hypotheses (@insertion_sort) ["rcu"; "i_lock"; "i_mutex"; "s_lock"]%string reported_member
      (to_double 0) CSV false (to_double 1) (mkReport [] 6 []) = inr (tt, r) /\
    r_out r = concat (row_items ["rcu"; "i_lock"; "i_mutex"; "s_lock"]%string reported_member (to_double 1) <$> rows) /\
    length rows = 9%nat /\ length (List.filter winner_row rows) = 1%nat.
Proof.
  assert (known_member ["rcu"; "i_lock"; "i_mutex"; "s_lock"]%string reported_member) as Hk.
  { unfold known_member, known. apply (bool_decide_unpack _). vm_compute. exact I. }
  destruct (print_hypotheses_csv (@insertion_sort) ["rcu"; "i_lock"; "i_mutex"; "s_lock"]%string reported_member
    (to_double 0) (to_double 1) false insertion_sort_ok Hk)
    as (sorted & groups & rows & Hs & _ & Hg & Hrows & Hw & _ & Hrun).
  exists rows, (mkReport ([] ++ concat (row_items ["rcu"; "i_lock"; "i_mutex"; "s_lock"]%string reported_member
    (to_double 1) <$> rows)) (precision_after 3 rows) []).
  split; [apply (Hrun [] 6 [])|]. split; [done|].
  pose proof (concat_groups _ _ _ _ _ _ Hs Hg) as Hperm.
  split.
  - rewrite <-(length_fmap fst), Hrows. etransitivity; [apply Permutation_length, Hperm|].
    vm_compute. reflexivity.
  - rewrite Hw, (existsb_permutation _ _ _ Hperm). vm_compute. reflexivity.
Defined.
