(* ===== verification/HypoMain.v ===== *)
(** * The hypothesizer from the command line to the report

    The command line, the reading of the input, the search for hypotheses, the selection of the
    winner and the CSV report fit together: what each stage leaves is what the
    next one needs, whatever the order in which the threads take the members. *)
From Stdlib Require Import Ascii String Floats.SpecFloat.
From S2P Require Import OptionParser OptionParserProps.
From S2P Require Import Prelude StdMap LockTypes CxxStd Hypothesizer HypoSpec HypoFind HypoWin HypoProps.
From S2P Require Import HypoInput HypoInputProps HypoReport HypoReportProps.
Local Open Scope list_scope.
Local Open Scope Z_scope.

(** ** Everything in the report can be named *)

Section Known.
Context (locks : list string).

Lemma lock_order_known lc h : known locks (locks_held lc) -> known locks (lock_order lc h).
Proof.
  intros Hl. unfold lock_order. destruct h as [|x h]; [constructor|].
  apply Forall_forall. intros id Hid. unfold known in Hl. rewrite Forall_forall in Hl. apply Hl.
  eapply elem_of_submseteq; [exact Hid|]. apply sublist_submseteq, lock_order_loop_sublist.
Qed.

Definition orders_known (ms : LockingHypothesisMatches) : Prop :=
  Forall (fun mt : hypo * Z => known locks mt.1) (matches ms).

Lemma match_step_known h a lc : orders_known a -> known locks (locks_held lc) -> orders_known (match_step h a lc).
Proof.
  intros Ha Hl. unfold match_step. destruct (contains_locks lc h); [|done].
  apply Forall_forall. intros e [->|He]%sm_set_elem; [by apply lock_order_known|].
  unfold orders_known in Ha. rewrite Forall_forall in Ha. by apply Ha.
Qed.

Lemma matches_of_known combos h :
  Forall (fun lc => known locks (locks_held lc)) combos -> orders_known (matches_of combos h).
Proof.
  unfold matches_of. intros Hc. assert (orders_known empty_matches) as Ha by constructor. revert Ha.
  generalize empty_matches. induction Hc as [|lc combos Hlc _ IH]; intros a Ha; simpl; [done|].
  apply IH. by apply match_step_known.
Qed.

Lemma best_order_elem (l : list (hypo * Z)) : (best_order l).1 = [] \/ exists n, ((best_order l).1, n) ∈ l.
Proof.
  assert (forall b : hypo * Z, (foldl (fun best e : hypo * Z => if best.2 <? e.2 then e else best) b l) = b \/
    (foldl (fun best e : hypo * Z => if best.2 <? e.2 then e else best) b l) ∈ l) as H.
  { induction l as [|e l IH]; intros b; simpl; [by left|].
    destruct (IH (if b.2 <? e.2 then e else b)) as [->|H]; [|right; by right].
    destruct (b.2 <? e.2); [right; by left|by left]. }
  specialize (H ([], 0)). change (best_order l = ([], 0) \/ best_order l ∈ l) in H.
  destruct H as [->|Hin]; [by left|]. right. exists (best_order l).2. by rewrite <- surjective_pairing.
Qed.

(** The entries of [hypotheses] stay sorted. *)
Lemma add_loop_hypotheses f h : forall nodes m m', add_loop f nodes h m = inr m' -> hypotheses m' = hypotheses m.
Proof.
  induction f as [|f IH]; intros [|x nodes] m m'; cbn [add_loop]; try (by intros [= <-]).
  destruct (diff_hypotheses x h) as [d|]; [|done]. destruct (d =? 0); [done|].
  destruct (0 <? d); [destruct (d =? 1)|]; intros E; rewrite (IH _ _ _ E); by destruct m.
Qed.

Lemma evaluate_sorted f m h m' :
  evaluate_hypothesis f m h = inr m' -> sm_sorted (hypotheses m) -> sm_sorted (hypotheses m').
Proof.
  unfold evaluate_hypothesis, add_hypothesis_to_graph. destruct (sm_find h (hypotheses m)); [by intros [= <-]|].
  intros E Hs. assert (hypotheses m' = sm_set h (matches_of (combinations m) h) (hypotheses m)) as ->;
    [|by apply sm_sorted_set].
  destruct h; [by injection E as <-|]. by apply add_loop_hypotheses in E.
Qed.

Lemma eval_all_sorted f hs : forall m m',
  eval_all f hs m = inr m' -> sm_sorted (hypotheses m) -> sm_sorted (hypotheses m').
Proof.
  induction hs as [|h hs IH]; intros m m'; cbn [eval_all]; [by intros [= <-]|].
  destruct (evaluate_hypothesis f m h) as [|m1] eqn:E; [done|]. intros E' Hs.
  eapply IH; [exact E'|]. by eapply evaluate_sorted.
Qed.

Lemma find_depths_sorted f max n : forall depth m m',
  find_depths f n depth max m = inr m' -> sm_sorted (hypotheses m) -> sm_sorted (hypotheses m').
Proof.
  induction n as [|n IH]; intros depth m m'; cbn [find_depths]; [done|].
  rewrite find_combinations_enum. destruct (eval_all f _ m) as [|m1] eqn:E; [done|].
  intros E' Hs. apply eval_all_sorted in E; [|done].
  destruct (_ || _); [by injection E' as <-|]. by eapply IH.
Qed.

(** A member whose hypotheses have been found and whose winner has been selected. *)
Lemma selected_known m m' :
  hyp_inv m -> sm_sorted (hypotheses m) -> Forall (fun lc => known locks (locks_held lc)) (combinations m) ->
  fixed_part m' = fixed_part m -> Forall (winner_ok m) (conflict_list m') -> known_member locks m'.
Proof.
  intros I Hs Hc Hf Hw. injection Hf as Hh _ _ _ _ _ _.
  assert (forall h ms, sm_find h (hypotheses m) = Some ms -> orders_known ms) as Hk.
  { intros h ms Hms. rewrite (hi_val _ I _ _ Hms). by apply matches_of_known. }
  split.
  - rewrite Hh. apply Forall_forall. intros ms Hms. apply list_elem_of_In, in_map_iff in Hms as ([h ms'] & <- & Hin).
    apply (Hk h). apply sm_elem_find; [done|]. by apply list_elem_of_In.
  - eapply Forall_impl; [exact Hw|]. intros [h o] [[= -> ->]|[[ms Ht] Ho]]; [constructor|].
    cbn [fst snd] in *. rewrite Ho. unfold node_order. rewrite Ht. cbn [default from_option id].
    destruct (best_order_elem (matches ms)) as [->|[n Hn]]; [constructor|].
    specialize (Hk _ _ Ht). unfold orders_known in Hk. rewrite Forall_forall in Hk. by apply (Hk _ Hn).
Qed.
End Known.

(** ** One member *)

Section Program.
Context (std_sort : forall A : Type, (A -> A -> bool) -> list A -> list A) (Hsort : sort_ok std_sort).
Context (locks : list string) (op : options).
Context (Hreport : op_report op = CSV) (Hnosort : op_sort op = SORT_NONE) (Hlen : 0 <= op_max_hypo_len op).

(** What is reported about a member [m]: the sets of locks held together under
    some combination are tested up to the length limit, with the matches over all
    combinations; the winner, if there is one, is the default or a tested set in
    its most frequent order; every order with enough support has one row with its
    own numbers, at most one of them as the winner. *)
Definition member_report (m : Member) (items : list out) : Prop :=
  exists (m' : Member) (rows : list (hypo * Z * flag)),
    (datatype m', name m', accesstype m', occurrences m') = (datatype m, name m, accesstype m, occurrences m) /\
    (forall h, tested m' h <-> candidate (combinations m) h /\ within (op_max_hypo_len op) h) /\
    (forall h ms, sm_find h (hypotheses m') = Some ms -> ms = matches_of (combinations m) h) /\
    (winner_found m' = true -> winning_hypothesis m' = root_node \/
       exists h, tested m' h /\ winning_hypothesis m' = node_order m' h) /\
    fst <$> rows ≡ₚ flat_map matches (List.filter (enough_support m' (op_cutoff op)) (map2vec (hypotheses m'))) /\
    length (List.filter winner_row rows) =
      (if winner_found m' && existsb (fun mt : hypo * Z => bool_decide (winning_hypothesis m' = mt.1)) (fst <$> rows)
       then 1 else 0)%nat /\
    Forall (fun row : hypo * Z * flag => match row.2 with
      | Winner => row.1.1 = winning_hypothesis m'
      | Conflict => in_conflict_list (conflict_list m') row.1.1 = true
      | Other => True end) rows /\
    items = concat (row_items locks m' (op_confidence op) <$> rows).

(** What is printed about a member; nothing if the command line leaves it out. *)
Definition member_items (m : Member) (items : list out) : Prop :=
  if filtered_out op m then items = [] else member_report m items.

(** The body of the loop over the members runs, for any precision of the numbers. *)
Definition member_step (f n : nat) (m : Member) (r : Member * list out) : Prop :=
  forall p, exists p', writes p (synthesize std_sort locks f n op m) r.1 r.2 p'.

Lemma loaded_known m : loaded (length locks) m -> Forall (fun lc => known locks (locks_held lc)) (combinations m).
Proof.
  intros Hm. apply Forall_forall. intros lc Hlc. destruct (ld_combo _ _ Hm lc Hlc) as [_ Hids].
  eapply Forall_impl; [exact Hids|]. intros id Hid. cbn in Hid. apply lookup_lt_is_Some. lia.
Qed.

(** The rows of a member whose winner has been selected. *)
Lemma rows_of_member m m' :
  (datatype m', name m', accesstype m', occurrences m') = (datatype m, name m, accesstype m, occurrences m) ->
  (forall h, tested m' h <-> candidate (combinations m) h /\ within (op_max_hypo_len op) h) ->
  (forall h ms, sm_find h (hypotheses m') = Some ms -> ms = matches_of (combinations m) h) ->
  (winner_found m' = true -> winning_hypothesis m' = root_node \/
     exists h, tested m' h /\ winning_hypothesis m' = node_order m' h) ->
  member_report m (rows_items locks m' (op_confidence op) (rows_from m' false
    (printed std_sort m' (op_cutoff op) (std_sort _ before_hypothesis (map2vec (hypotheses m')))))).
Proof.
  intros Hid Ht Hv Hw. set (sorted := std_sort _ before_hypothesis (map2vec (hypotheses m'))).
  exists m', (rows_from m' false (printed std_sort m' (op_cutoff op) sorted)).
  do 4 (split; [assumption|]). rewrite rows_from_fst, rows_from_winner. split; [|split; [done|split; [|done]]].
  - unfold printed. rewrite flat_map_concat_map.
    apply (concat_groups matches (fun _ => True) _ _ sorted).
    + apply Hsort.
    + apply Forall2_fmap_r, Forall_Forall2_diag, Forall_true. intros h. split; [apply Hsort|done].
  - apply Forall_forall. intros row Hr%rows_from_flags. destruct row.2; tauto.
Qed.

Lemma member_runs m : loaded (length locks) m ->
  exists r F N, member_items m r.2 /\ forall f n, (F <= f)%nat -> (N <= n)%nat -> member_step f n m r.
Proof.
  intros Hm. unfold member_items, member_step, synthesize. destruct (filtered_out op m).
  { exists (hide (clear m), []), 0%nat, 0%nat. split; [done|]. intros f n _ _ p. exists p. apply writes_ret. }
  destruct (ld_fresh _ _ Hm) as (Hh & Hg & _).
  destruct (find_hypotheses_run m (op_max_hypo_len op) Hh Hg (ld_sorted _ _ Hm) Hlen)
    as (m1 & f1 & E1 & I1 & S1 & T1).
  assert (Hsorted : sm_sorted (hypotheses m1)).
  { eapply find_depths_sorted; [apply (E1 f1 _ (le_n _) (le_n _))|]. by rewrite Hh. }
  destruct (select_winner_run (op_strategy op) (op_accept op) (op_nolock op) (op_reduction op) m1
    (length_bound (combinations m)) I1) as (m2 & f2 & E2 & Hf & Hc & Hw).
  { apply T1. split; [|unfold within; simpl; lia]. split; [constructor|].
    destruct (combinations m) as [|lc l] eqn:Ec; [by destruct (ld_used _ _ Hm)|].
    exists lc. split; [by left|apply list_subseteq_nil]. }
  { intros h Ht. by apply candidate_length, T1. }
  pose proof (step_combinations _ _ S1) as Hcombos.
  assert (Hk : known_member locks m2).
  { apply (selected_known locks m1); try done. rewrite Hcombos. by apply loaded_known. }
  injection Hf as Hhyp Hocc _ _ Hd Hn Ha.
  assert (Hid : (datatype m2, name m2, accesstype m2, occurrences m2) = (datatype m, name m, accesstype m, occurrences m)).
  { rewrite Hd, Hn, Ha, Hocc, (st_same _ _ S1). by destruct m. }
  exists (clear m2, rows_items locks m2 (op_confidence op) (rows_from m2 false
    (printed std_sort m2 (op_cutoff op) (std_sort _ before_hypothesis (map2vec (hypotheses m2)))))),
    (f1 + f2)%nat, (S (length_bound (combinations m))).
  split.
  - apply rows_of_member; [done|..].
    + intros h. unfold tested. rewrite Hhyp. apply T1.
    + intros h ms. rewrite Hhyp, <- Hcombos. apply (hi_val _ I1).
    + unfold tested, node_order. by rewrite Hhyp.
  - intros f n Hfu Hnu p. rewrite E1, E2, decide_True, Hreport by (lia || done). eexists.
    eapply writes_eq; [|apply app_nil_r].
    eapply writes_bind; [by apply print_hypotheses_writes|apply writes_ret].
Qed.

(** ** All members, in the order the threads take them *)

Lemma all_members_run members : Forall (loaded (length locks)) members ->
  exists rs F N, Forall2 (fun m r => member_items m r.2) members rs /\
    forall f n, (F <= f)%nat -> (N <= n)%nat -> Forall2 (member_step f n) members rs.
Proof.
  induction 1 as [|m members Hm _ (rs & F & N & Hrs & Hruns)].
  { exists [], 0%nat, 0%nat. split; [constructor|]. intros. constructor. }
  destruct (member_runs m Hm) as (r & F' & N' & Hr & Hrun).
  exists (r :: rs), (F + F')%nat, (N + N')%nat. split; [by constructor|].
  intros f n Hf Hn. constructor; [apply Hrun; lia|apply Hruns; lia].
Qed.

Definition items_at (rs : list (Member * list out)) (i : nat) : list out := default [] (snd <$> rs !! i).

Lemma synthesize_all_writes f n rs order : NoDup order -> forall members p,
  (forall i, i ∈ order -> exists m r, members !! i = Some m /\ rs !! i = Some r /\ member_step f n m r) ->
  exists ms p', writes p (synthesize_all std_sort locks f n op order members) ms (concat (items_at rs <$> order)) p'.
Proof.
  induction 1 as [|i order Hi _ IH]; intros members p Hsteps; cbn [synthesize_all].
  { exists members, p. apply writes_ret. }
  destruct (Hsteps i ltac:(by left)) as (m & r & Hm & Hr & Hstep). rewrite Hm.
  destruct (Hstep p) as [p1 Hw]. destruct (IH (<[i:=r.1]> members) p1) as (ms & p2 & Hall).
  { intros j Hj. rewrite list_lookup_insert_ne by (intros ->; done). apply Hsteps. by right. }
  exists ms, p2. rewrite fmap_cons. cbn [concat]. eapply writes_bind; [|exact Hall].
  unfold items_at. by rewrite Hr.
Qed.
End Program.

(** ** The command line *)

(** What the words of the program say, as the reading of OptionParserProps has it. *)
Definition command_line (argv : list string) : parsed :=
  let '(os, rest) := read false usage 0 (tail argv) in
  mkParsed (Z.of_nat (length (tail argv))) (bool_decide (rest = None))
    (concat ((fun i => with_arguments i (options_of usage (option_number i) os)) <$> all_options)) (default [] rest).

Lemma entry_of i : exists d, d ∈ usage /\ index d = option_number i.
Proof.
  assert (H : existsb (fun d => Nat.eqb (index d) (option_number i)) usage = true) by (by destruct i).
  apply existsb_exists in H as (d & Hd & E). exists d. split; [by apply list_elem_of_In|by apply Nat.eqb_eq].
Qed.

Lemma read_lists_run s f : (forall i, chain s (option_number i) = inr (f i)) ->
  forall l, read_lists s l = inr (concat ((fun i => with_arguments i (f i)) <$> l)).
Proof.
  intros Hs. induction l as [|i l IH]; cbn [read_lists]; [done|]. by rewrite Hs, IH.
Qed.

Lemma read_arguments_run argv : countable usage (tail argv) -> read_arguments argv = inr (command_line argv).
Proof.
  intros Hc. destruct (parse_words_read usage (tail argv) Hc)
    as (p & s & nopt & nbuf & Hrun & Hh & Hn & Hidx & He & _ & Hrest).
  unfold read_arguments, command_line. rewrite Hrun, He, Hrest. destruct (read false usage 0 (tail argv)) as [os rest].
  cbn [fst snd] in *. rewrite (read_lists_run s (fun i => options_of usage (option_number i) os)); [done|].
  intros i. destruct (entry_of i) as (d & Hd & <-). rewrite Forall_forall in Hidx.
  apply (chain_holds usage nopt nbuf os (op_count p, s)); [done|lia|by apply Hidx].
Qed.

(** (C7) The hypothesizer with the CSV report, from its words and the text of the
    input to the output.  If the settings that stand in the words are accepted, the
    file can be opened, and its lines can be read and name fewer than 65536 members, the
    program ends without a failure, whatever the sort makes of equal elements and
    in whatever order the threads take the members; it prints the header and, in
    this order, for each member that the command line does not leave out the rows
    of the tested orders with enough support, with the matches of the
    combinations that were read and at most one row as the winner. *)
Theorem hypothesizer_main_csv std_sort open_file order argv op filename file s :
  sort_ok std_sort -> countable usage (tail argv) ->
  parse_command_line (command_line argv) = inr (op, filename) -> op_report op = CSV -> op_sort op = SORT_NONE ->
  open_file filename = Some file ->
  read_lines 0 (tokens NEWLINE file) input0 = inr (tt, s) ->
  Z.of_nat (length (in_members s)) < 65536 ->
  (forall k, order k ≡ₚ seq 0 k) ->
  exists members outs F N,
    load_input copy_fuel file = inr (members, in_locks s, accesscount s) /\
    length members = length (in_members s) /\
    Forall (loaded (length (in_locks s))) members /\
    Forall2 (member_items (in_locks s) op) members outs /\
    forall f n, (F <= f)%nat -> (N <= n)%nat ->
      hypothesizer std_sort f n open_file order argv =
      inr (OText (csv_header +:+ endl) :: concat ((fun i => default [] (outs !! i)) <$> order (length members))).
Proof.
  intros Hsort Hargv Hp Hreport Hnosort Hopen Hread Hmax Horder.
  assert (Hlen : 0 <= op_max_hypo_len op) by (apply parse_command_line_length in Hp; lia).
  destruct (load_input_run file s Hread Hmax) as (members & Hload & Hl & Hok & _).
  destruct (all_members_run std_sort Hsort (in_locks s) op Hreport Hnosort Hlen members Hok) as (rs & F & N & Hrs & Hruns).
  exists members, (snd <$> rs), F, N. do 3 (split; [done|]). split; [by apply Forall2_fmap_r|].
  intros f n Hf Hn. specialize (Hruns f n Hf Hn).
  destruct (synthesize_all_writes std_sort (in_locks s) op f n rs (order (length members))
    ltac:(rewrite Horder; apply NoDup_seq) members 6) as (ms & p' & Hall).
  { intros i Hi. rewrite Horder in Hi. apply elem_of_seq in Hi.
    destruct (lookup_lt_is_Some_2 members i) as [m Hm]; [lia|].
    destruct (Forall2_lookup_l _ _ _ _ _ Hruns Hm) as (r & Hr & Hstep). eauto. }
  unfold hypothesizer. rewrite (read_arguments_run argv Hargv), Hp, Hopen. unfold hypothesizer_main. rewrite Hload. unfold report_members. rewrite Hreport, Hnosort.
  erewrite (dbind _ _ _ _ _ (writes_text 6 _ [] [])), (dbind _ _ _ _ _ (Hall _ _)). cbn.
  do 2 f_equal. cbn [r_out]. f_equal. f_equal. apply list_fmap_ext. intros _ i _. unfold items_at. by rewrite list_lookup_fmap.
Qed.

(** The input of HypoInputProps, [-gbottomup --report=csv -t 0 in.csv], and threads
    that take the members from the end. *)
Definition ex_command_line : list string :=
  ["hypothesizer"; "-gbottomup"; "--report=csv"; "-t"; "0"; "in.csv"]%string.
Definition ex_open (filename : string) : option string := if String.eqb filename "in.csv" then Some ex_input else None.
Definition ex_order (k : nat) : list nat := rev (seq 0 k).
Definition ex_report (f n : nat) : exn + list out :=
  hypothesizer (@insertion_sort) f n ex_open ex_order ex_command_line.

(** The rows of a report: the texts it starts with. *)
Definition row_starts (r : exn + list out) : list string :=
  match r with
  | inr l => omap (fun o => match o with OText t => if String.prefix "inode" t then Some t else None | _ => None end) l
  | inl _ => []
  end.

Example ex_report_rows : row_starts (ex_report 100 10) =
  ["inode;i_state;w;EMBSAME(i_lock) -> rcu;"; "inode;i_state;w;rcu -> EMBSAME(i_lock);"; "inode;i_state;w;rcu;";
   "inode;i_state;w;EMBSAME(i_lock);"; "inode;i_state;w;(no locks held);";
   "inode;i_flags;r;(no locks held);"; "inode;i_flags;r;EMBSAME(i_lock) -> rcu;"; "inode;i_flags;r;rcu;";
   "inode;i_flags;r;EMBSAME(i_lock);"]%string.
Proof. vm_compute. reflexivity. Qed.

Lemma hypothesizer_main_csv_witness :
  exists outs F N, length outs = 2%nat /\
    forall f n, (F <= f)%nat -> (N <= n)%nat ->
      ex_report f n = inr (OText (csv_header +:+ endl) :: concat ((fun i => default [] (outs !! i)) <$> [1; 0]%nat)).
Proof.
  destruct (read_lines 0 (tokens NEWLINE ex_input) input0) as [|[[] s]] eqn:Hrun.
  { exfalso. vm_compute in Hrun. discriminate Hrun. }
  assert (Hn : length (in_members s) = 2%nat) by (vm_compute in Hrun; by injection Hrun as <-).
  assert (Hop : match parse_command_line (command_line ex_command_line) with
      | inr (op, filename) => op_report op = CSV /\ op_sort op = SORT_NONE /\ filename = "in.csv"%string
      | inl _ => False end) by (vm_compute; repeat split).
  assert (Hargv : countable usage (tail ex_command_line)).
  { split; [vm_compute; reflexivity|]. repeat (constructor; [vm_compute; reflexivity|]). constructor. }
  destruct (parse_command_line (command_line ex_command_line)) as [|[op filename]] eqn:Hp; [done|].
  destruct Hop as (Hr & Hso & ->). assert (Ho : ex_open "in.csv" = Some ex_input) by reflexivity.
  destruct (hypothesizer_main_csv (@insertion_sort) ex_open ex_order ex_command_line op "in.csv" ex_input s
    insertion_sort_ok Hargv Hp Hr Hso Ho Hrun ltac:(rewrite Hn; lia)) as (members & outs & F & N & _ & Hl & _ & Hout & Hrep).
  { intros k. apply Permutation_sym, Permutation_rev. }
  apply Forall2_length in Hout. rewrite Hl, Hn in *.
  exists outs, F, N. split; [by symmetry|]. intros f n Hf Hn'. exact (Hrep f n Hf Hn').
Defined.
