(* ===== verification/ListHead.v ===== *)
(** * Doubly linked lists: dwarves/list.h

    The circular lists of [struct list_head] on a heap with one map per field,
    and what each operation does to the sequence of entries it represents. *)
From S2P Require Import Prelude.
Local Open Scope list_scope.
Local Open Scope Z_scope.

(** ** The heap *)

Record heap := mkHeap { hnext : gmap loc loc; hprev : gmap loc loc }.

Definition HM (A : Type) : Type := M heap exn A.

Definition null_deref : exn := undefined "dereference of an invalid list_head".

Definition load_next (p : loc) : HM loc := fun h =>
  match hnext h !! p with Some q => inr (q, h) | None => inl null_deref end.
Definition load_prev (p : loc) : HM loc := fun h =>
  match hprev h !! p with Some q => inr (q, h) | None => inl null_deref end.
Definition store_next (p q : loc) : HM unit := fun h =>
  match hnext h !! p with
  | Some _ => inr (tt, mkHeap (<[p := q]> (hnext h)) (hprev h))
  | None => inl null_deref
  end.
Definition store_prev (p q : loc) : HM unit := fun h =>
  match hprev h !! p with
  | Some _ => inr (tt, mkHeap (hnext h) (<[p := q]> (hprev h)))
  | None => inl null_deref
  end.

Definition LIST_POISON1 : loc := 1048832.   (* 0x00100100 *)
Definition LIST_POISON2 : loc := 2097664.   (* 0x00200200 *)

(** ** Operations *)

Definition INIT_LIST_HEAD (list : loc) : HM unit :=
  store_next list list;;; store_prev list list.

Definition __list_add (new prev next : loc) : HM unit :=
  store_prev next new;;; store_next new next;;; store_prev new prev;;; store_next prev new.

Definition list_add (new head : loc) : HM unit :=
  n ← load_next head; __list_add new head n.

Definition list_add_tail (new head : loc) : HM unit :=
  p ← load_prev head; __list_add new p head.

Definition __list_del (prev next : loc) : HM unit :=
  store_prev next prev;;; store_next prev next.

Definition list_del (entry : loc) : HM unit :=
  p ← load_prev entry; n ← load_next entry; __list_del p n;;;
  store_next entry LIST_POISON1;;; store_prev entry LIST_POISON2.

Definition list_del_range (begin_ end_ : loc) : HM unit :=
  bp ← load_prev begin_; en ← load_next end_; store_next bp en;;;
  en' ← load_next end_; bp' ← load_prev begin_; store_prev en' bp'.

Definition list_replace (old new : loc) : HM unit :=
  n ← load_next old; store_next new n;;;
  n' ← load_next new; store_prev n' new;;;
  p ← load_prev old; store_prev new p;;;
  p' ← load_prev new; store_next p' new.

Definition list_replace_init (old new : loc) : HM unit :=
  list_replace old new;;; INIT_LIST_HEAD old.

Definition list_del_init (entry : loc) : HM unit :=
  p ← load_prev entry; n ← load_next entry; __list_del p n;;; INIT_LIST_HEAD entry.

Definition list_move (list head : loc) : HM unit :=
  p ← load_prev list; n ← load_next list; __list_del p n;;; list_add list head.

Definition list_move_tail (list head : loc) : HM unit :=
  p ← load_prev list; n ← load_next list; __list_del p n;;; list_add_tail list head.

Definition list_is_last (list head : loc) : HM bool :=
  n ← load_next list; mret (n =? head).

Definition list_empty (head : loc) : HM bool :=
  n ← load_next head; mret (n =? head).

Definition list_empty_careful (head : loc) : HM bool :=
  n ← load_next head;
  if n =? head then p ← load_prev head; mret (n =? p) else mret false.

Definition __list_splice (list head : loc) : HM unit :=
  first ← load_next list; last ← load_prev list; at_ ← load_next head;
  store_prev first head;;; store_next head first;;;
  store_next last at_;;; store_prev at_ last.

Definition list_splice (list head : loc) : HM unit :=
  e ← list_empty list; if e : bool then mret tt else __list_splice list head.

Definition list_splice_init (list head : loc) : HM unit :=
  e ← list_empty list;
  if e : bool then mret tt else __list_splice list head;;; INIT_LIST_HEAD list.

(** The entries visited by [list_for_each] and [list_for_each_prev] from
    [pos] on; [n] bounds their number. *)
Fixpoint list_for_each_from (n : nat) (pos head : loc) : HM (list loc) :=
  if pos =? head then mret [] else
  match n with
  | O => raise out_of_fuel
  | S n => q ← load_next pos; l ← list_for_each_from n q head; mret (pos :: l)
  end.
Definition list_for_each (n : nat) (head : loc) : HM (list loc) :=
  p ← load_next head; list_for_each_from n p head.

Fixpoint list_for_each_prev_from (n : nat) (pos head : loc) : HM (list loc) :=
  if pos =? head then mret [] else
  match n with
  | O => raise out_of_fuel
  | S n => q ← load_prev pos; l ← list_for_each_prev_from n q head; mret (pos :: l)
  end.
Definition list_for_each_prev (n : nat) (head : loc) : HM (list loc) :=
  p ← load_prev head; list_for_each_prev_from n p head.

(** [list_for_each_safe] with a body that may unlink the current entry: the
    successor is read before the body runs. *)
Fixpoint list_for_each_safe_from (n : nat) (body : loc -> HM unit) (pos nxt head : loc) : HM unit :=
  if pos =? head then mret tt else
  match n with
  | O => raise out_of_fuel
  | S n => body pos;;; nxt' ← load_next nxt; list_for_each_safe_from n body nxt nxt' head
  end.
Definition list_for_each_safe (n : nat) (body : loc -> HM unit) (head : loc) : HM unit :=
  p ← load_next head; nxt ← load_next p; list_for_each_safe_from n body p nxt head.

(** ** Representation *)

(** From [a] along [next] through the entries of [l] to [b], with [prev] back. *)
Fixpoint seg (h : heap) (a : loc) (l : list loc) (b : loc) : Prop :=
  match l with
  | [] => hnext h !! a = Some b /\ hprev h !! b = Some a
  | c :: l' => (hnext h !! a = Some c /\ hprev h !! c = Some a) /\ seg h c l' b
  end.

(** The objects of [c] form one circular list, in this order. *)
Definition cycle (h : heap) (c : list loc) : Prop :=
  NoDup c /\ match c with [] => True | a :: l => seg h a l a end.

(** [head] is the head of a list with the entries [xs]. *)
Definition is_list (h : heap) (head : loc) (xs : list loc) : Prop :=
  cycle h (head :: xs).

(** [p] is a [list_head] object. *)
Definition allocated (h : heap) (p : loc) : Prop :=
  is_Some (hnext h !! p) /\ is_Some (hprev h !! p).

(** What a step may change: the fields of the objects in [l]. *)
Definition only_changes (l : list loc) (h h' : heap) : Prop :=
  (forall p, p ∉ l -> hnext h' !! p = hnext h !! p /\ hprev h' !! p = hprev h !! p) /\
  (forall p, allocated h p -> allocated h' p).

Lemma seg_app h a l c l2 b :
  seg h a (l ++ c :: l2) b <-> seg h a l c /\ seg h c l2 b.
Proof. revert a. induction l as [|d l IH]; intros a; simpl; [tauto|]. rewrite IH. tauto. Qed.

(** The fields [seg] depends on. *)
Lemma seg_frame h h' a l b :
  (forall p, p ∈ a :: l -> hnext h' !! p = hnext h !! p) ->
  (forall p, p ∈ l ++ [b] -> hprev h' !! p = hprev h !! p) ->
  seg h a l b -> seg h' a l b.
Proof.
  revert a. induction l as [|c l IH]; intros a Hn Hp; simpl.
  - rewrite (Hn a), (Hp b) by (by left). done.
  - rewrite (Hn a), (Hp c) by (by left). intros [? ?]. split; [done|].
    apply IH; [intros; apply Hn; by right|intros; apply Hp; by right|done].
Qed.

Lemma seg_allocated h a l b :
  seg h a l b -> (forall p, p ∈ a :: l -> is_Some (hnext h !! p)) /\
                 (forall p, p ∈ l ++ [b] -> is_Some (hprev h !! p)).
Proof.
  revert a. induction l as [|c l IH]; intros a; simpl.
  - intros [H1 H2]. split; intros p ->%list_elem_of_singleton; eauto.
  - intros [[H1 H2] [H3 H4]%IH]. split; intros p [-> | Hp]%elem_of_cons; eauto.
Qed.

Lemma cycle_rotate h l1 l2 : cycle h (l1 ++ l2) -> cycle h (l2 ++ l1).
Proof.
  intros [Hnd Hs]. split; [by rewrite Permutation_app_comm|].
  destruct l1 as [|a l1]; [by rewrite app_nil_r in *|].
  destruct l2 as [|b l2]; [by rewrite app_nil_r in *|].
  simpl in *. apply seg_app in Hs as [H1 H2]. apply seg_app. done.
Qed.

Lemma cycle_allocated h c p : cycle h c -> p ∈ c -> allocated h p.
Proof.
  destruct c as [|a l]; [intros _ Hp; by apply elem_of_nil in Hp|].
  intros [_ [H1 H2]%seg_allocated] Hp. split; [by apply H1|].
  apply H2. apply elem_of_app. apply elem_of_cons in Hp as [-> | ?]; [right; by left|by left].
Qed.

Lemma cycle_frame h h' c :
  (forall p, p ∈ c -> hnext h' !! p = hnext h !! p /\ hprev h' !! p = hprev h !! p) ->
  cycle h c -> cycle h' c.
Proof.
  intros Hf [Hnd Hs]. split; [done|]. destruct c as [|a l]; [done|].
  revert Hs. apply seg_frame.
  - intros p Hp. by apply Hf.
  - intros p [? | ->%list_elem_of_singleton]%elem_of_app; apply Hf; [by right|by left].
Qed.

(** The neighbours of the first object of a cycle. *)
Lemma cycle_next h a l : cycle h (a :: l) -> hnext h !! a = Some (hd a l).
Proof. intros [_ Hs]. destruct l as [|b l]; simpl in *; tauto. Qed.

Lemma last_cons_default (a c : loc) l : List.last (c :: l) a = List.last l c.
Proof.
  revert a c. induction l as [|d l IH]; intros a c; [done|].
  change (List.last (d :: l) a = List.last (d :: l) c). by rewrite !IH.
Qed.

Lemma seg_prev h a l b : seg h a l b -> hprev h !! b = Some (List.last l a).
Proof.
  revert a. induction l as [|c l IH]; intros a; [intros [_ ?]; done|].
  intros [_ Hs]. apply IH in Hs. by rewrite last_cons_default.
Qed.

Lemma cycle_prev h a l : cycle h (a :: l) -> hprev h !! a = Some (List.last l a).
Proof. intros [_ Hs]. by apply seg_prev in Hs. Qed.

(** ** Steps on the heap *)

Definition set_next (p q : loc) (h : heap) : heap := mkHeap (<[p := q]> (hnext h)) (hprev h).
Definition set_prev (p q : loc) (h : heap) : heap := mkHeap (hnext h) (<[p := q]> (hprev h)).

Lemma load_next_run h p q : hnext h !! p = Some q -> load_next p h = inr (q, h).
Proof. unfold load_next. by intros ->. Qed.
Lemma load_prev_run h p q : hprev h !! p = Some q -> load_prev p h = inr (q, h).
Proof. unfold load_prev. by intros ->. Qed.
Lemma store_next_run h p q : is_Some (hnext h !! p) -> store_next p q h = inr (tt, set_next p q h).
Proof. unfold store_next. by intros [? ->]. Qed.
Lemma store_prev_run h p q : is_Some (hprev h !! p) -> store_prev p q h = inr (tt, set_prev p q h).
Proof. unfold store_prev. by intros [? ->]. Qed.

Lemma bind_step {A B} (c : HM A) (k : A -> HM B) h a h1 :
  c h = inr (a, h1) -> (c ≫= k) h = k a h1.
Proof. unfold mbind, M_bind. by intros ->. Qed.

Lemma is_Some_insert {A} (m : gmap loc A) p q x : is_Some (m !! q) -> is_Some (<[p := x]> m !! q).
Proof. intros H. apply lookup_insert_is_Some'. by right. Qed.

(** Solves the side condition that a field exists. *)
Ltac field_ok :=
  cbn [hnext hprev set_next set_prev];
  repeat first [assumption | apply is_Some_insert
               | match goal with H : allocated _ ?p |- is_Some (_ !! ?p) =>
                     first [exact (proj1 H) | exact (proj2 H)] end].

(** Runs the loads and stores at the head of the goal. *)
Ltac heap_step :=
  first
    [ erewrite bind_step; [| apply store_next_run; solve [field_ok]]
    | erewrite bind_step; [| apply store_prev_run; solve [field_ok]]
    | rewrite store_next_run by solve [field_ok]
    | rewrite store_prev_run by solve [field_ok]
    | erewrite bind_step;
      [| apply load_next_run; cbn [hnext set_next set_prev]; simplify_map_eq; reflexivity]
    | erewrite bind_step;
      [| apply load_prev_run; cbn [hprev set_next set_prev]; simplify_map_eq; reflexivity] ];
  cbv beta.

Lemma only_changes_set_next l p q h : p ∈ l -> only_changes l h (set_next p q h).
Proof.
  intros Hp. split.
  - intros r Hr. assert (p <> r) by (by intros ->). unfold set_next. simpl. by simplify_map_eq.
  - intros r [? ?]. split; [by apply is_Some_insert|done].
Qed.
Lemma only_changes_set_prev l p q h : p ∈ l -> only_changes l h (set_prev p q h).
Proof.
  intros Hp. split.
  - intros r Hr. assert (p <> r) by (by intros ->). unfold set_prev. simpl. by simplify_map_eq.
  - intros r [? ?]. split; [done|by apply is_Some_insert].
Qed.
Lemma only_changes_trans l h1 h2 h3 :
  only_changes l h1 h2 -> only_changes l h2 h3 -> only_changes l h1 h3.
Proof.
  intros [H1 H2] [H3 H4]. split; [|auto]. intros p Hp.
  destruct (H1 p Hp), (H3 p Hp). split; etransitivity; eauto.
Qed.
Lemma only_changes_weaken l l' h h' :
  (forall p, p ∈ l -> p ∈ l') -> only_changes l h h' -> only_changes l' h h'.
Proof. intros Hl [H1 H2]. split; [|done]. intros p Hp. apply H1. auto. Qed.

(** Proves [only_changes] for a chain of stores. *)
Ltac changes :=
  repeat match goal with
  | |- only_changes _ ?h ?h => split; [done|done]
  | |- only_changes _ _ (set_next _ _ _) =>
      eapply only_changes_trans; [|apply only_changes_set_next; set_solver]
  | |- only_changes _ _ (set_prev _ _ _) =>
      eapply only_changes_trans; [|apply only_changes_set_prev; set_solver]
  end.

(** ** The four surgeries *)

(** Inserting an object after the first one of a cycle. *)
Lemma cycle_insert h new a l :
  cycle h (a :: l) -> allocated h new -> new ∉ a :: l ->
  exists h', __list_add new a (hd a l) h = inr (tt, h') /\
    cycle h' (a :: new :: l) /\ only_changes (new :: a :: l) h h'.
Proof.
  intros Hc Hnew Hin.
  assert (Ha : allocated h a) by (eapply cycle_allocated; [done|by left]).
  assert (Hb : allocated h (hd a l)).
  { eapply cycle_allocated; [done|]. destruct l; [by left|right; by left]. }
  assert (Hb' : hd a l ∈ a :: l) by (destruct l; [by left|right; by left]).
  eexists. split.
  { unfold __list_add. do 4 heap_step. reflexivity. }
  split; [|changes].
  destruct Hc as [Hnd Hs].
  assert (new <> a /\ new ∉ l) as [Hna Hnl] by set_solver.
  split; [apply NoDup_cons; apply NoDup_cons in Hnd as [? ?]; split; [set_solver|by apply NoDup_cons]|].
  simpl. split; [simplify_map_eq; split; [done|]|].
  { destruct (decide (hd a l = new)) as [E|]; [set_solver|by simplify_map_eq]. }
  destruct l as [|b l]; simpl in *.
  - simplify_map_eq. by split.
  - assert (new <> b) by set_solver. split; [simplify_map_eq; by split|].
    destruct Hs as [_ Hs]. apply NoDup_cons in Hnd as [Ha1 [Hb1 _]%NoDup_cons].
    revert Hs. apply seg_frame; cbn [hnext hprev set_next set_prev]; intros p Hp.
    + rewrite !lookup_insert_ne; [done|set_solver|set_solver].
    + rewrite !lookup_insert_ne; [done|set_solver|set_solver].
Qed.

(** Unlinking the first object of a cycle. *)
Lemma cycle_delete h e l :
  cycle h (e :: l) ->
  exists h', __list_del (List.last l e) (hd e l) h = inr (tt, h') /\
    cycle h' l /\ only_changes (e :: l) h h' /\
    (l <> [] -> hnext h' !! e = Some (hd e l) /\ hprev h' !! e = Some (List.last l e)).
Proof.
  intros Hc. pose proof (cycle_next _ _ _ Hc) as Hn. pose proof (cycle_prev _ _ _ Hc) as Hp.
  assert (Hin : forall x, x ∈ e :: l -> allocated h x) by (intros; by eapply cycle_allocated).
  destruct Hc as [Hnd Hs]. apply NoDup_cons in Hnd as [He Hnd].
  destruct l as [|n l].
  - assert (allocated h e) by (apply Hin; by left). eexists. split.
    { unfold __list_del. simpl. do 2 heap_step. reflexivity. }
    split; [by split|]. split; [changes|done].
  - destruct (@exists_last _ (n :: l)) as (m & p & Em); [done|].
    rewrite Em in *. rewrite last_last in *.
    assert (hd e (m ++ [p]) = n) as Ehd by (by rewrite <- Em). rewrite Ehd in *.
    assert (Hap : allocated h p) by (apply Hin; set_solver).
    assert (Han : allocated h n) by (apply Hin; rewrite <- Em; set_solver).
    assert (Hnin : n ∈ m ++ [p]) by (rewrite <- Em; by left).
    eexists. split.
    { unfold __list_del. do 2 heap_step. reflexivity. }
    assert (n <> e) as Hne by (by intros ->).
    assert (p <> e) as Hpe by (intros ->; apply He; set_solver).
    split; [|split; [changes|intros _; cbn [hnext hprev set_next set_prev]; simplify_map_eq; by split]].
    split; [done|]. destruct m as [|n' m]; simplify_eq/=.
    + simplify_map_eq. by split.
    + destruct Hs as [_ [Hs1 Hs2]%seg_app].
      apply NoDup_cons in Hnd as [Hn1 Hnd]. apply seg_app. split.
      * revert Hs1. apply seg_frame; cbn [hnext hprev set_next set_prev]; intros q Hq.
        -- rewrite lookup_insert_ne; [done|]. apply NoDup_app in Hnd as (_ & Hd & _). set_solver.
        -- rewrite lookup_insert_ne; [done|set_solver].
      * simpl. simplify_map_eq. by split.
Qed.

(** A new object takes the place of the first one of a cycle. *)
Lemma cycle_replace h old new l :
  cycle h (old :: l) -> allocated h new -> new ∉ old :: l ->
  exists h', list_replace old new h = inr (tt, h') /\
    cycle h' (new :: l) /\ only_changes (new :: old :: l) h h'.
Proof.
  intros Hc Hnew Hin. pose proof (cycle_next _ _ _ Hc) as Hn. pose proof (cycle_prev _ _ _ Hc) as Hp.
  assert (Hal : forall x, x ∈ old :: l -> allocated h x) by (intros; by eapply cycle_allocated).
  destruct Hc as [Hnd Hs]. apply NoDup_cons in Hnd as [He Hnd].
  assert (new <> old /\ new ∉ l) as [Hno Hnl] by set_solver.
  destruct l as [|n l].
  - assert (allocated h old) by (apply Hal; by left). simpl in Hn, Hp. eexists. split.
    { unfold list_replace. do 8 heap_step. reflexivity. }
    split; [|changes]. split; [apply NoDup_singleton|]. simpl. simplify_map_eq. by split.
  - destruct (@exists_last _ (n :: l)) as (m & p & Em); [done|]. simpl in Hn.
    rewrite Em in *. rewrite last_last in *.
    assert (Hap : allocated h p) by (apply Hal; set_solver).
    assert (Han : allocated h n) by (apply Hal; rewrite <- Em; set_solver).
    assert (new <> n) as Hnn by (intros ->; apply Hnl; rewrite <- Em; by left).
    assert (new <> p) as Hnp by (intros ->; apply Hnl; set_solver).
    assert (n <> old) as Hne by (intros ->; apply He; rewrite <- Em; by left).
    assert (p <> old) as Hpe by (intros ->; apply He; set_solver).
    assert (Hnin : n ∈ m ++ [p]) by (rewrite <- Em; by left).
    eexists. split.
    { unfold list_replace. do 8 heap_step. reflexivity. }
    split; [|changes]. split; [by apply NoDup_cons|]. rewrite <- Em. simpl.
    split; [simplify_map_eq; by split|].
    destruct m as [|n' m]; simplify_eq/=.
    + simplify_map_eq. by split.
    + destruct Hs as [_ [Hs1 Hs2]%seg_app].
      apply NoDup_cons in Hnd as [Hn1 Hnd]. apply seg_app. split.
      * revert Hs1. apply seg_frame; cbn [hnext hprev set_next set_prev]; intros q Hq.
        -- rewrite !lookup_insert_ne; [done|set_solver|].
           apply NoDup_app in Hnd as (_ & Hd & _). set_solver.
        -- rewrite !lookup_insert_ne; [done|set_solver|set_solver].
      * simpl. simplify_map_eq. by split.
Qed.

(** The entries of one list moved behind the head of another. *)
Lemma cycle_splice h list n l head b :
  cycle h (list :: n :: l) -> cycle h (head :: b) -> NoDup ((list :: n :: l) ++ head :: b) ->
  exists h', __list_splice list head h = inr (tt, h') /\
    cycle h' (head :: (n :: l) ++ b) /\ only_changes ((n :: l) ++ head :: b) h h' /\
    hnext h' !! list = hnext h !! list /\ hprev h' !! list = hprev h !! list.
Proof.
  intros Hc1 Hc2 Hall. pose proof (cycle_next _ _ _ Hc1) as Hn. pose proof (cycle_prev _ _ _ Hc1) as Hp.
  pose proof (cycle_next _ _ _ Hc2) as Hat.
  assert (Hal1 : forall x, x ∈ list :: n :: l -> allocated h x)
    by (intros x; apply (cycle_allocated _ _ x Hc1)).
  assert (Hal2 : forall x, x ∈ head :: b -> allocated h x)
    by (intros x; apply (cycle_allocated _ _ x Hc2)).
  destruct Hc1 as [_ Hs1]. destruct Hc2 as [_ Hs2].
  apply NoDup_app in Hall as (Hnd1 & Hd & Hnd2).
  apply NoDup_cons in Hnd1 as [Hl Hnd1]. simpl in Hn.
  destruct (@exists_last _ (n :: l)) as (m & p & Em); [done|].
  assert (Hpl : List.last (n :: l) list = p) by (rewrite Em; apply last_last).
  rewrite Hpl in Hp. clear Hpl.
  assert (Hpin : p ∈ n :: l) by (rewrite Em; set_solver).
  assert (Hatin : hd head b ∈ head :: b) by (destruct b; [by left|right; by left]).
  assert (allocated h p) by (apply Hal1; by right). assert (allocated h n) by (apply Hal1; right; by left).
  assert (allocated h head) by (apply Hal2; by left). assert (allocated h (hd head b)) by auto.
  assert (Hdn : forall x y, x ∈ list :: n :: l -> y ∈ head :: b -> x <> y)
    by (intros x y Hx Hy ->; by eapply Hd).
  assert (n <> head) by (apply Hdn; set_solver). assert (n <> hd head b) by (apply Hdn; set_solver).
  assert (p <> head) by (apply Hdn; set_solver). assert (p <> hd head b) by (apply Hdn; set_solver).
  assert (list <> head) by (apply Hdn; set_solver).
  assert (list <> hd head b) by (apply Hdn; set_solver).
  assert (list <> n) by (intros ->; apply Hl; by left).
  assert (list <> p) by (by intros ->).
  eexists. split.
  { unfold __list_splice. do 6 heap_step. apply store_prev_run. field_ok. }
  split; [|split; [changes|cbn [hnext hprev set_next set_prev]; by simplify_map_eq]].
  split.
  { apply NoDup_cons in Hnd2 as [? ?]. apply NoDup_cons. split.
    - intros [Hx | Hx]%elem_of_app; [|done]. by eapply (Hdn head head); [by right|by left|].
    - apply NoDup_app. split; [done|]. split; [|done]. intros x Hx Hx'.
      by eapply (Hdn x x); [by right|by right|]. }
  simpl. split; [simplify_map_eq; by split|].
  match goal with |- seg ?h2 _ _ _ => assert (Hpb : seg h2 p b head) end.
  { destruct b as [|c b]; simpl in *; [simplify_map_eq; by split|].
    split; [simplify_map_eq; by split|]. destruct Hs2 as [_ Hs2].
    apply NoDup_cons in Hnd2 as [Hh [Hcb _]%NoDup_cons].
    revert Hs2. apply seg_frame; cbn [hnext hprev set_next set_prev]; intros q Hq.
    - rewrite !lookup_insert_ne; [done|by intros ->|]. apply Hdn; [by right|by right].
    - apply elem_of_app in Hq as [Hq | ->%list_elem_of_singleton];
        (rewrite !lookup_insert_ne; [done| |]).
      + apply Hdn; [right; by left|right; by right].
      + by intros ->.
      + apply Hdn; [right; by left|by left].
      + intros ->. apply Hh. by left. }
  destruct m as [|n' m]; simplify_eq/=; [done|].
  rewrite <- app_assoc. apply seg_app. split; [|exact Hpb].
  destruct Hs1 as [_ [Hs1 _]%seg_app]. apply NoDup_cons in Hnd1 as [Hn1 Hnd1].
  apply NoDup_app in Hnd1 as (_ & Hd1 & _).
  revert Hs1. apply seg_frame; cbn [hnext hprev set_next set_prev]; intros q Hq.
  - assert (q <> p).
    { apply elem_of_cons in Hq as [-> | Hq]; intros ->;
        [apply Hn1; set_solver|apply (Hd1 p Hq); by left]. }
    assert (q <> head) by (apply Hdn; [|by left]; set_solver).
    by rewrite !lookup_insert_ne.
  - assert (q <> n') by (intros ->; by apply Hn1).
    assert (q <> hd head b) by (apply Hdn; [by right; right|done]).
    by rewrite !lookup_insert_ne.
Qed.

(** Unlinking the entries from [b] to [e] of a cycle. *)
Lemma cycle_del_range h b mid n l :
  cycle h ((b :: mid) ++ n :: l) ->
  exists h', list_del_range b (List.last mid b) h = inr (tt, h') /\
    cycle h' (n :: l) /\ only_changes (n :: l) h h'.
Proof.
  intros Hc. pose proof (cycle_prev h b (mid ++ n :: l) Hc) as Hp.
  destruct (@exists_last _ (n :: l)) as (m & p & Em); [done|].
  assert (Hpe : List.last (mid ++ n :: l) b = p) by (rewrite Em, app_assoc; apply last_last).
  rewrite Hpe in Hp. clear Hpe.
  assert (Hal : forall x, x ∈ (b :: mid) ++ n :: l -> allocated h x)
    by (intros x; apply (cycle_allocated _ _ x Hc)).
  assert (He : hnext h !! List.last mid b = Some n).
  { destruct (@exists_last _ (b :: mid)) as (m' & e & Ee); [done|].
    assert (List.last mid b = e) as ->.
    { rewrite <- (last_cons_default b). rewrite Ee. apply last_last. }
    rewrite Ee, <- app_assoc in Hc. apply cycle_rotate in Hc. by apply cycle_next in Hc. }
  destruct Hc as [Hnd Hs]. apply NoDup_app in Hnd as (Hnd1 & Hd & Hnd).
  simpl in Hs. apply seg_app in Hs as [_ Hs].
  assert (Hpin : p ∈ n :: l) by (rewrite Em; set_solver).
  assert (allocated h p) by (apply Hal, elem_of_app; by right).
  assert (allocated h n) by (apply Hal, elem_of_app; right; by left).
  assert (List.last mid b <> p).
  { intros E. apply (Hd (List.last mid b)); [|by rewrite E].
    rewrite <- (last_cons_default b). destruct (@exists_last _ (b :: mid)) as (m' & e & ->); [done|].
    rewrite last_last. set_solver. }
  assert (b <> n) by (intros ->; eapply Hd; [by left|by left]).
  eexists. split.
  { unfold list_del_range. do 5 heap_step. apply store_prev_run. field_ok. }
  split; [|changes]. split; [done|]. destruct m as [|n' m]; simplify_eq/=.
  - simplify_map_eq. by split.
  - apply seg_app in Hs as [Hs _]. apply NoDup_cons in Hnd as [Hn1 Hnd].
    apply seg_app. split; [|simpl; simplify_map_eq; by split].
    apply NoDup_app in Hnd as (_ & Hd1 & _).
    revert Hs. apply seg_frame; cbn [hnext hprev set_next set_prev]; intros q Hq.
    + rewrite lookup_insert_ne; [done|]. intros <-. apply elem_of_cons in Hq as [-> | Hq];
        [apply Hn1; set_solver|apply (Hd1 _ Hq); by left].
    + rewrite lookup_insert_ne; [done|]. intros ->. by apply Hn1.
Qed.
