(* ===== verification/ListProps.v ===== *)
(** * What the list operations do

    A heap of circular lists is abstracted to the sequences of its cycles and
    the objects in none of them; every operation of list.h is a step between
    such configurations, and the code implements it.  At the end: the macros and
    loops over the structures that embed a [list_head]. *)
From S2P Require Import Prelude ListHead.
Local Open Scope list_scope.
Local Open Scope Z_scope.

(** ** Configurations *)

Definition conf : Type := list (list loc) * list loc.

(** The heap [h] holds the cycles of the configuration, and its free objects. *)

Definition heap_rep (h : heap) (s : conf) : Prop :=
  Forall (cycle h) s.1 /\ Forall (allocated h) s.2 /\ NoDup (concat s.1 ++ s.2).

(** The operations of list.h that change a list. *)
Inductive list_op :=
  | OInit (p : loc) | OAdd (new head : loc) | OAddTail (new head : loc)
  | ODel (e : loc) | ODelRange (b e : loc) | OReplace (old new : loc)
  | OReplaceInit (old new : loc) | ODelInit (e : loc) | OMove (e head : loc)
  | OMoveTail (e head : loc) | OSplice (list head : loc) | OSpliceInit (list head : loc).

Definition exec_op (o : list_op) : HM unit :=
  match o with
  | OInit p => INIT_LIST_HEAD p
  | OAdd new head => list_add new head
  | OAddTail new head => list_add_tail new head
  | ODel e => list_del e
  | ODelRange b e => list_del_range b e
  | OReplace old new => list_replace old new
  | OReplaceInit old new => list_replace_init old new
  | ODelInit e => list_del_init e
  | OMove e head => list_move e head
  | OMoveTail e head => list_move_tail e head
  | OSplice list head => list_splice list head
  | OSpliceInit list head => list_splice_init list head
  end.

Fixpoint exec_ops (os : list list_op) : HM unit :=
  match os with [] => mret tt | o :: os => exec_op o;;; exec_ops os end.

(** The order of the cycles, where a cycle starts and the order of the free
    objects do not matter. *)
Inductive conf_eq : conf -> conf -> Prop :=
  | ceq_perm cs cs' F F' : cs ≡ₚ cs' -> F ≡ₚ F' -> conf_eq (cs, F) (cs', F')
  | ceq_rotate l1 l2 cs F : conf_eq ((l1 ++ l2) :: cs, F) ((l2 ++ l1) :: cs, F)
  | ceq_trans s1 s2 s3 : conf_eq s1 s2 -> conf_eq s2 s3 -> conf_eq s1 s3.

(** What each operation does. *)
Inductive lstep : list_op -> conf -> conf -> Prop :=
  | s_init p cs F : lstep (OInit p) (cs, p :: F) ([p] :: cs, F)
  | s_reinit p cs F : lstep (OInit p) ([p] :: cs, F) ([p] :: cs, F)
  | s_add new head xs cs F :
      lstep (OAdd new head) ((head :: xs) :: cs, new :: F) ((head :: new :: xs) :: cs, F)
  | s_add_tail new head xs cs F :
      lstep (OAddTail new head) ((head :: xs) :: cs, new :: F) ((head :: xs ++ [new]) :: cs, F)
  | s_del e l cs F : lstep (ODel e) ((e :: l) :: cs, F) (l :: cs, e :: F)
  | s_del_range b mid n l cs F :
      lstep (ODelRange b (List.last mid b)) (((b :: mid) ++ n :: l) :: cs, F)
            ((n :: l) :: cs, (b :: mid) ++ F)
  | s_replace old new l cs F :
      lstep (OReplace old new) ((old :: l) :: cs, new :: F) ((new :: l) :: cs, old :: F)
  | s_replace_init old new l cs F :
      lstep (OReplaceInit old new) ((old :: l) :: cs, new :: F) ([old] :: (new :: l) :: cs, F)
  | s_del_init e l cs F : lstep (ODelInit e) ((e :: l) :: cs, F) ([e] :: l :: cs, F)
  | s_move e head l xs cs F :
      lstep (OMove e head) ((e :: l) :: (head :: xs) :: cs, F) (l :: (head :: e :: xs) :: cs, F)
  | s_move_same e head xs ys cs F :
      lstep (OMove e head) ((e :: ys ++ head :: xs) :: cs, F) ((head :: e :: xs ++ ys) :: cs, F)
  | s_move_tail e head l xs cs F :
      lstep (OMoveTail e head) ((e :: l) :: (head :: xs) :: cs, F)
            (l :: (head :: xs ++ [e]) :: cs, F)
  | s_move_tail_same e head xs ys cs F :
      lstep (OMoveTail e head) ((e :: ys ++ head :: xs) :: cs, F)
            ((head :: xs ++ ys ++ [e]) :: cs, F)
  | s_splice_empty list head cs F : lstep (OSplice list head) ([list] :: cs, F) ([list] :: cs, F)
  | s_splice list n l head xs cs F :
      lstep (OSplice list head) ((list :: n :: l) :: (head :: xs) :: cs, F)
            ((head :: (n :: l) ++ xs) :: cs, list :: F)
  | s_splice_init_empty list head cs F :
      lstep (OSpliceInit list head) ([list] :: cs, F) ([list] :: cs, F)
  | s_splice_init list n l head xs cs F :
      lstep (OSpliceInit list head) ((list :: n :: l) :: (head :: xs) :: cs, F)
            ([list] :: (head :: (n :: l) ++ xs) :: cs, F)
  | s_equiv o s1 s2 s3 s4 : conf_eq s1 s2 -> lstep o s2 s3 -> conf_eq s3 s4 -> lstep o s1 s4.

Inductive lsteps : list list_op -> conf -> conf -> Prop :=
  | ss_nil s : lsteps [] s s
  | ss_cons o os s1 s2 s3 : lstep o s1 s2 -> lsteps os s2 s3 -> lsteps (o :: os) s1 s3.

(** ** Lemmas on configurations *)

Lemma concat_perm {A} (l1 l2 : list (list A)) : l1 ≡ₚ l2 -> concat l1 ≡ₚ concat l2.
Proof.
  induction 1; simpl; [done|by f_equiv| |by etransitivity].
  rewrite !app_assoc. by rewrite (Permutation_app_comm x).
Qed.

Lemma elem_of_concat {A} (x : A) ls : x ∈ concat ls <-> exists l, x ∈ l /\ l ∈ ls.
Proof.
  induction ls as [|l ls IH]; simpl; [set_solver|]. rewrite elem_of_app, IH. split.
  - intros [? | (k & ? & ?)]; [exists l|exists k]; split; try done; [by left|by right].
  - intros (k & ? & [-> | ?]%elem_of_cons); [by left|right; eauto].
Qed.

Lemma rep_equiv h s s' : conf_eq s s' -> heap_rep h s -> heap_rep h s'.
Proof.
  unfold heap_rep. induction 1 as [cs cs' F F' Hc HF|l1 l2 cs F|]; simpl; [| |tauto].
  - by rewrite <- Hc, <- HF.
  - rewrite !Forall_cons. intros ((Hc & ?) & ? & Hnd). split; [split; [by apply cycle_rotate|done]|].
    split; [done|]. by rewrite (Permutation_app_comm l2 l1).
Qed.

(** A step that touches only the cycles [cs0] and the free objects [F0]. *)

Lemma rep_update h h' cs0 F0 cs1 F1 cs F L :
  heap_rep h (cs0 ++ cs, F0 ++ F) -> only_changes L h h' ->
  (forall p, p ∈ L -> p ∈ concat cs0 ++ F0) -> Forall (cycle h') cs1 ->
  concat cs1 ++ F1 ≡ₚ concat cs0 ++ F0 -> heap_rep h' (cs1 ++ cs, F1 ++ F).
Proof.
  intros (Hcs & HF & Hnd) [Hch Hal] HL Hcs1 Hperm. unfold heap_rep. cbn [fst snd] in *.
  rewrite concat_app in *.
  assert (Hp1 : (concat cs1 ++ concat cs) ++ F1 ++ F ≡ₚ (concat cs1 ++ F1) ++ concat cs ++ F)
    by solve_Permutation.
  assert (Hp0 : (concat cs0 ++ concat cs) ++ F0 ++ F ≡ₚ (concat cs0 ++ F0) ++ concat cs ++ F)
    by solve_Permutation.
  rewrite Hp1, Hperm. rewrite Hp0 in Hnd. split; [|split; [|done]].
  - apply Forall_app in Hcs as [_ Hcs]. apply Forall_app. split; [done|].
    apply NoDup_app in Hnd as (_ & Hd & _). apply Forall_forall. intros c Hc.
    rewrite Forall_forall in Hcs. apply (cycle_frame h); [|by apply Hcs].
    intros p Hp. apply Hch. intros HpL. apply (Hd p); [by apply HL|].
    apply elem_of_app. left. apply elem_of_concat. eauto.
  - apply Forall_app in HF as [HF0 HF]. apply Forall_app in Hcs as [Hcs0 _].
    apply Forall_app. split; [|by eapply Forall_impl].
    apply Forall_forall. intros p Hp. apply Hal.
    assert (p ∈ concat cs0 ++ F0) as Hin by (rewrite <- Hperm; set_solver).
    apply elem_of_app in Hin as [(c & Hc1 & Hc2)%elem_of_concat | ?].
    + rewrite Forall_forall in Hcs0. eapply cycle_allocated; [by apply Hcs0|done].
    + rewrite Forall_forall in HF0. auto.
Qed.

(** ** The operations on their cycles *)

Lemma INIT_LIST_HEAD_run h p : allocated h p ->
  exists h', INIT_LIST_HEAD p h = inr (tt, h') /\ cycle h' [p] /\ only_changes [p] h h'.
Proof.
  intros Hp. eexists. split; [unfold INIT_LIST_HEAD; do 2 heap_step; reflexivity|].
  split; [|changes]. split; [apply NoDup_singleton|]. simpl. simplify_map_eq. by split.
Qed.

Lemma list_add_run h new head xs :
  cycle h (head :: xs) -> allocated h new -> new ∉ head :: xs ->
  exists h', list_add new head h = inr (tt, h') /\ cycle h' (head :: new :: xs) /\
    only_changes (new :: head :: xs) h h'.
Proof.
  intros Hc Hn Hin. unfold list_add.
  rewrite (bind_step _ _ h _ _ (load_next_run h _ _ (cycle_next h head xs Hc))).
  by apply cycle_insert.
Qed.

Lemma list_add_tail_run h new head xs :
  cycle h (head :: xs) -> allocated h new -> new ∉ head :: xs ->
  exists h', list_add_tail new head h = inr (tt, h') /\ cycle h' (head :: xs ++ [new]) /\
    only_changes (new :: head :: xs) h h'.
Proof.
  intros Hc Hn Hin. unfold list_add_tail.
  rewrite (bind_step _ _ h _ _ (load_prev_run h _ _ (cycle_prev h head xs Hc))).
  destruct (decide (xs = [])) as [-> | Hne]; [by apply (cycle_insert h new head [])|].
  destruct (exists_last Hne) as (l & p & ->). rewrite last_last.
  assert (Hc' : cycle h (p :: head :: l)) by (by apply (cycle_rotate h (head :: l) [p])).
  destruct (cycle_insert h new p (head :: l) Hc' Hn) as (h' & Hr & Hc'' & Hch); [set_solver|].
  exists h'. split; [exact Hr|]. split.
  - apply (cycle_rotate h' [p; new] (head :: l)) in Hc''. by rewrite <- app_assoc.
  - eapply only_changes_weaken; [|done]. set_solver.
Qed.

(** [__list_del] of an object: it keeps its fields when it has neighbours. *)

Lemma unlink_run h e l {A} (k : HM A) :
  cycle h (e :: l) ->
  exists h', (p ← load_prev e; n ← load_next e; __list_del p n;;; k) h = k h' /\
    cycle h' l /\ only_changes (e :: l) h h'.
Proof.
  intros Hc. destruct (cycle_delete h e l Hc) as (h' & Hr & Hc' & Hch & _).
  exists h'. split; [|done].
  rewrite (bind_step _ _ h _ _ (load_prev_run h _ _ (cycle_prev h e l Hc))).
  rewrite (bind_step _ _ h _ _ (load_next_run h _ _ (cycle_next h e l Hc))).
  by rewrite (bind_step _ _ h _ _ Hr).
Qed.

(** The cycle left by an unlinked object is not touched by changes to it. *)
Lemma cycle_unlinked h h' e l :
  e ∉ l -> only_changes [e] h h' -> cycle h l -> cycle h' l.
Proof. intros He [Hch _]. apply cycle_frame. intros p Hp. apply Hch. set_solver. Qed.

Lemma list_del_run h e l : cycle h (e :: l) ->
  exists h', list_del e h = inr (tt, h') /\ cycle h' l /\ only_changes (e :: l) h h'.
Proof.
  intros Hc. assert (He : allocated h e) by (eapply cycle_allocated; [done|by left]).
  pose proof (proj1 (NoDup_cons e l) (proj1 Hc)) as [Hnin _].
  destruct (unlink_run h e l (store_next e LIST_POISON1;;; store_prev e LIST_POISON2) Hc)
    as (h1 & Hr & Hc1 & Hch1).
  unfold list_del. rewrite Hr. pose proof (proj2 Hch1 e He).
  eexists. split; [do 2 heap_step; reflexivity|]. split.
  - eapply (cycle_unlinked h1); [done|changes|done].
  - eapply only_changes_trans; [exact Hch1|changes].
Qed.

Lemma list_del_init_run h e l : cycle h (e :: l) ->
  exists h', list_del_init e h = inr (tt, h') /\ cycle h' l /\ cycle h' [e] /\
    only_changes (e :: l) h h'.
Proof.
  intros Hc. assert (He : allocated h e) by (eapply cycle_allocated; [done|by left]).
  pose proof (proj1 (NoDup_cons e l) (proj1 Hc)) as [Hnin _].
  destruct (unlink_run h e l (INIT_LIST_HEAD e) Hc) as (h1 & Hr & Hc1 & Hch1).
  destruct (INIT_LIST_HEAD_run h1 e) as (h2 & Hr2 & Hc2 & Hch2); [by apply Hch1|].
  exists h2. unfold list_del_init. rewrite Hr. split; [done|]. split; [|split; [done|]].
  - by eapply (cycle_unlinked h1).
  - eapply only_changes_trans; [exact Hch1|]. eapply only_changes_weaken; [|done]. set_solver.
Qed.

(** [list_move] and [list_move_tail]: unlink, then [add]. *)
Section Move.
Context (add : loc -> loc -> HM unit) (put : loc -> list loc -> list loc).
Hypothesis add_run : forall h new head xs,
  cycle h (head :: xs) -> allocated h new -> new ∉ head :: xs ->
  exists h', add new head h = inr (tt, h') /\ cycle h' (head :: put new xs) /\
    only_changes (new :: head :: xs) h h'.
Definition move_via (e head : loc) : HM unit :=
  p ← load_prev e; n ← load_next e; __list_del p n;;; add e head.

Lemma move_via_run h e l head xs :
  cycle h (e :: l) -> cycle h (head :: xs) -> NoDup ((e :: l) ++ head :: xs) ->
  exists h', move_via e head h = inr (tt, h') /\ cycle h' l /\ cycle h' (head :: put e xs) /\
    only_changes ((e :: l) ++ head :: xs) h h'.
Proof.
  intros Hc1 Hc2 Hnd.
  assert (He : allocated h e) by (apply (cycle_allocated _ _ e Hc1); by left).
  apply NoDup_app in Hnd as (Hnd & Hd & _). apply NoDup_cons in Hnd as [Hel Hndl].
  destruct (unlink_run h e l (add e head) Hc1) as (h1 & Hr & Hl1 & Hch1).
  assert (Hc2' : cycle h1 (head :: xs)).
  { revert Hc2. apply cycle_frame. intros p Hp. apply Hch1. intros Hp'. by apply (Hd p). }
  destruct (add_run h1 e head xs Hc2') as (h2 & Hr2 & Hc3 & Hch2);
    [by apply Hch1|apply Hd; by left|].
  exists h2. unfold move_via. rewrite Hr. split; [done|]. split; [|split; [done|]].
  - revert Hl1. apply cycle_frame. intros p Hp. apply Hch2. intros [-> | Hp']%elem_of_cons; [done|].
    by apply (Hd p); [right|].
  - eapply only_changes_trans; (eapply only_changes_weaken; [|done]); set_solver.
Qed.

Lemma move_via_same_run h e head xs ys :
  cycle h (e :: ys ++ head :: xs) ->
  exists h', move_via e head h = inr (tt, h') /\ cycle h' (head :: put e (xs ++ ys)) /\
    only_changes (e :: ys ++ head :: xs) h h'.
Proof.
  intros Hc. assert (He : allocated h e) by (apply (cycle_allocated _ _ e Hc); by left).
  pose proof (proj1 (NoDup_cons _ _) (proj1 Hc)) as [Hnin _].
  destruct (unlink_run h e _ (add e head) Hc) as (h1 & Hr & Hl1 & Hch1).
  apply (cycle_rotate h1 ys (head :: xs)) in Hl1.
  destruct (add_run h1 e head (xs ++ ys) Hl1) as (h2 & Hr2 & Hc3 & Hch2);
    [by apply Hch1|set_solver|].
  exists h2. unfold move_via. rewrite Hr. split; [done|]. split; [done|].
  eapply only_changes_trans; [exact Hch1|]. eapply only_changes_weaken; [|done]. set_solver.
Qed.
End Move.

Lemma list_replace_init_run h old new l :
  cycle h (old :: l) -> allocated h new -> new ∉ old :: l ->
  exists h', list_replace_init old new h = inr (tt, h') /\ cycle h' [old] /\
    cycle h' (new :: l) /\ only_changes (new :: old :: l) h h'.
Proof.
  intros Hc Hfree Hfresh.
  destruct (cycle_replace h old new l Hc Hfree Hfresh) as (h1 & Hr & Hc' & Hch).
  assert (Hold : allocated h1 old) by (apply Hch, (cycle_allocated _ _ old Hc); by left).
  destruct (INIT_LIST_HEAD_run h1 old Hold) as (h2 & Hr2 & Hc2 & Hch2).
  exists h2. unfold list_replace_init. rewrite (bind_step _ _ _ _ _ Hr). split; [done|].
  split; [done|]. pose proof (proj1 Hc) as [Hnin _]%NoDup_cons. split.
  - apply (cycle_unlinked h1 _ old); [|done|done]. intros [-> | ?]%elem_of_cons; [|done].
    apply Hfresh. by left.
  - eapply only_changes_trans; [done|]. eapply only_changes_weaken; [|done]. set_solver.
Qed.

Lemma list_empty_run h head xs : cycle h (head :: xs) ->
  list_empty head h = inr (bool_decide (xs = []), h).
Proof.
  intros Hc. unfold list_empty.
  rewrite (bind_step _ _ h _ _ (load_next_run h _ _ (cycle_next h head xs Hc))).
  unfold mret, M_ret. do 2 f_equal. destruct Hc as [[Hh _]%NoDup_cons _].
  destruct xs as [|x xs]; simpl; [by rewrite Z.eqb_refl|].
  apply Z.eqb_neq. intros ->. apply Hh. by left.
Qed.

Lemma list_splice_run h list n l head xs :
  cycle h (list :: n :: l) -> cycle h (head :: xs) -> NoDup ((list :: n :: l) ++ head :: xs) ->
  exists h', list_splice list head h = inr (tt, h') /\ cycle h' (head :: (n :: l) ++ xs) /\
    only_changes ((n :: l) ++ head :: xs) h h'.
Proof.
  intros Hc1 Hc2 Hnd. unfold list_splice. rewrite (bind_step _ _ _ _ _ (list_empty_run _ _ _ Hc1)).
  destruct (cycle_splice h list n l head xs Hc1 Hc2 Hnd) as (h' & Hr & Hc & Hch & _). eauto.
Qed.

Lemma list_splice_init_run h list n l head xs :
  cycle h (list :: n :: l) -> cycle h (head :: xs) -> NoDup ((list :: n :: l) ++ head :: xs) ->
  exists h', list_splice_init list head h = inr (tt, h') /\ cycle h' [list] /\
    cycle h' (head :: (n :: l) ++ xs) /\ only_changes ((list :: n :: l) ++ head :: xs) h h'.
Proof.
  intros Hc1 Hc2 Hnd. unfold list_splice_init.
  rewrite (bind_step _ _ _ _ _ (list_empty_run _ _ _ Hc1)).
  destruct (cycle_splice h list n l head xs Hc1 Hc2 Hnd) as (h1 & Hr & Hc & Hch & _).
  assert (Hal : allocated h1 list) by (apply Hch, (cycle_allocated _ _ list Hc1); by left).
  destruct (INIT_LIST_HEAD_run h1 list Hal) as (h2 & Hr2 & Hc' & Hch2).
  exists h2. split; [by etransitivity; [exact (bind_step _ _ _ _ _ Hr)|]|]. split; [done|].
  apply NoDup_app in Hnd as (Hnd1 & Hd & _). split.
  - apply (cycle_unlinked h1 _ list); [|done|done]. apply NoDup_cons in Hnd1 as [? _].
    pose proof (Hd list ltac:(by left)). set_solver.
  - eapply only_changes_trans; (eapply only_changes_weaken; [|done]); set_solver.
Qed.

(** ** Refinement *)

Lemma heap_rep_cycle h c cs F : heap_rep h (c :: cs, F) -> cycle h c.
Proof. intros (Hc & _). by apply Forall_cons in Hc as [? _]. Qed.

Lemma heap_rep_cycle2 h c1 c2 cs F :
  heap_rep h (c1 :: c2 :: cs, F) -> cycle h c1 /\ cycle h c2 /\ NoDup (c1 ++ c2).
Proof.
  intros (Hc & _ & Hnd). apply Forall_cons in Hc as [? Hc]. apply Forall_cons in Hc as [? _].
  split; [done|]. split; [done|]. simpl in Hnd. apply NoDup_app in Hnd as [Hnd _].
  rewrite app_assoc in Hnd. by apply NoDup_app in Hnd as [Hnd _].
Qed.

Lemma heap_rep_free h cs p F : heap_rep h (cs, p :: F) -> allocated h p.
Proof. intros (_ & HF & _). by apply Forall_cons in HF as [? _]. Qed.

Lemma heap_rep_fresh h c cs p F : heap_rep h (c :: cs, p :: F) -> p ∉ c.
Proof.
  intros (_ & _ & Hnd) Hp. simpl in Hnd. apply NoDup_app in Hnd as (_ & Hd & _).
  apply (Hd p); set_solver.
Qed.

(** Applies [rep_update] to a step that replaces [cs0], [F0] by [cs1], [F1]. *)

Ltac update cs0 F0 cs1 F1 :=
  eapply (rep_update _ _ cs0 F0 cs1 F1);
  [eassumption|eassumption|set_solver|rewrite ?Forall_cons; by auto|simpl; try solve_Permutation].

Lemma list_op_step o s s' h :
  lstep o s s' -> heap_rep h s ->
  exists h', exec_op o h = inr (tt, h') /\ heap_rep h' s'.
Proof.
  intros Hs. revert h. induction Hs; intros h Hrep; cbn [exec_op];
    try pose proof (heap_rep_cycle _ _ _ _ Hrep) as Hc;
    try pose proof (heap_rep_free _ _ _ _ Hrep) as Hfree;
    try pose proof (heap_rep_fresh _ _ _ _ _ Hrep) as Hfresh;
    try pose proof (heap_rep_cycle2 _ _ _ _ _ Hrep) as (Hc1 & Hc2 & Hnd).
  - destruct (INIT_LIST_HEAD_run h p Hfree) as (h' & Hr & Hc' & Hch).
    exists h'. split; [done|]. update (@nil (list loc)) [p] [[p]] (@nil loc).
  - destruct (INIT_LIST_HEAD_run h p) as (h' & Hr & Hc' & Hch).
    { apply (cycle_allocated _ _ p Hc). by left. }
    exists h'. split; [done|]. update [[p]] (@nil loc) [[p]] (@nil loc).
  - destruct (list_add_run h new head xs Hc Hfree Hfresh) as (h' & Hr & Hc' & Hch).
    exists h'. split; [done|]. update [head :: xs] [new] [head :: new :: xs] (@nil loc).
  - destruct (list_add_tail_run h new head xs Hc Hfree Hfresh) as (h' & Hr & Hc' & Hch).
    exists h'. split; [done|]. update [head :: xs] [new] [head :: xs ++ [new]] (@nil loc).
  - destruct (list_del_run h e l Hc) as (h' & Hr & Hc' & Hch).
    exists h'. split; [done|]. update [e :: l] (@nil loc) [l] [e].
  - destruct (cycle_del_range h b mid n l Hc) as (h' & Hr & Hc' & Hch).
    exists h'. split; [done|]. update [(b :: mid) ++ n :: l] (@nil loc) [n :: l] (b :: mid).
  - destruct (cycle_replace h old new l Hc Hfree Hfresh) as (h' & Hr & Hc' & Hch).
    exists h'. split; [done|]. update [old :: l] [new] [new :: l] [old].
  - destruct (list_replace_init_run h old new l Hc Hfree Hfresh) as (h' & Hr & Hc' & Hc2 & Hch).
    exists h'. split; [done|]. update [old :: l] [new] [[old]; new :: l] (@nil loc).
  - destruct (list_del_init_run h e l Hc) as (h' & Hr & Hc' & Hc2 & Hch).
    exists h'. split; [done|]. update [e :: l] (@nil loc) [[e]; l] (@nil loc).
  - destruct (move_via_run list_add _ list_add_run h e l head xs Hc1 Hc2 Hnd)
      as (h' & Hr & Hl & Hh & Hch).
    exists h'. split; [done|]. update [e :: l; head :: xs] (@nil loc) [l; head :: e :: xs] (@nil loc).
  - destruct (move_via_same_run list_add _ list_add_run h e head xs ys Hc) as (h' & Hr & Hh & Hch).
    exists h'. split; [done|].
    update [e :: ys ++ head :: xs] (@nil loc) [head :: e :: xs ++ ys] (@nil loc).
  - destruct (move_via_run list_add_tail _ list_add_tail_run h e l head xs Hc1 Hc2 Hnd)
      as (h' & Hr & Hl & Hh & Hch).
    exists h'. split; [done|].
    update [e :: l; head :: xs] (@nil loc) [l; head :: xs ++ [e]] (@nil loc).
  - destruct (move_via_same_run list_add_tail _ list_add_tail_run h e head xs ys Hc)
      as (h' & Hr & Hh & Hch). rewrite <- app_assoc in Hh.
    exists h'. split; [done|].
    update [e :: ys ++ head :: xs] (@nil loc) [head :: xs ++ ys ++ [e]] (@nil loc).
  - exists h. unfold list_splice. by rewrite (bind_step _ _ _ _ _ (list_empty_run _ _ _ Hc)).
  - destruct (list_splice_run h list n l head xs Hc1 Hc2 Hnd) as (h' & Hr & Hc' & Hch).
    exists h'. split; [done|].
    update [list :: n :: l; head :: xs] (@nil loc) [head :: (n :: l) ++ xs] [list].
  - exists h. unfold list_splice_init. by rewrite (bind_step _ _ _ _ _ (list_empty_run _ _ _ Hc)).
  - destruct (list_splice_init_run h list n l head xs Hc1 Hc2 Hnd) as (h' & Hr & Hc' & Hl & Hch).
    exists h'. split; [done|].
    update [list :: n :: l; head :: xs] (@nil loc) [[list]; head :: (n :: l) ++ xs] (@nil loc).
  - destruct (IHHs h) as (h' & Hr & Hrep'); [by eapply rep_equiv|].
    exists h'. split; [done|]. by eapply rep_equiv.
Qed.

(** ** Traversals *)

Lemma for_each_from_run h a l head n :
  seg h a l head -> head ∉ l -> (List.length l <= n)%nat ->
  list_for_each_from n (hd head l) head h = inr (l, h).
Proof.
  revert a n. induction l as [|x l IH]; intros a n Hs Hin Hn; simpl.
  - destruct n; simpl; by rewrite Z.eqb_refl.
  - destruct n as [|n]; simpl in *; [lia|]. destruct Hs as [_ Hs].
    rewrite (proj2 (Z.eqb_neq x head)) by (intros ->; apply Hin; by left).
    assert (Hx : hnext h !! x = Some (hd head l)) by (destruct l; simpl in Hs; tauto).
    rewrite (bind_step _ _ _ _ _ (load_next_run _ _ _ Hx)).
    rewrite (bind_step _ _ _ _ _ (IH x n Hs ltac:(set_solver) ltac:(lia))). done.
Qed.

Lemma for_each_prev_from_run h l head b n :
  seg h head l b -> head ∉ l -> (List.length l <= n)%nat ->
  list_for_each_prev_from n (List.last l head) head h = inr (reverse l, h).
Proof.
  revert b n. induction l as [|x l IH] using rev_ind; intros b n Hs Hin Hn; simpl.
  - destruct n; simpl; by rewrite Z.eqb_refl.
  - rewrite length_app in Hn. destruct n as [|n]; simpl in *; [lia|].
    apply seg_app in Hs as [Hs _]. rewrite last_last.
    rewrite (proj2 (Z.eqb_neq x head)) by (intros ->; apply Hin; set_solver).
    rewrite (bind_step _ _ _ _ _ (load_prev_run _ _ _ (seg_prev _ _ _ _ Hs))).
    rewrite (bind_step _ _ _ _ _ (IH x n Hs ltac:(set_solver) ltac:(lia))).
    by rewrite reverse_snoc.
Qed.

Lemma for_each_safe_filter_from head f n : forall l2 l1 nxt h,
  cycle h (head :: l1 ++ l2) ->
  match l2 with [] => True | _ :: l => nxt = hd head l end -> (List.length l2 <= n)%nat ->
  exists h', list_for_each_safe_from n
      (fun p => if f p : bool then list_del p else mret tt) (hd head l2) nxt head h = inr (tt, h') /\
    cycle h' (head :: l1 ++ filter (fun p => f p = false) l2) /\ only_changes (l1 ++ l2 ++ [head]) h h'.
Proof.
  induction n as [|n IH]; intros l2 l1 nxt h Hc Hnx Hn.
  { destruct l2; simpl in *; [|lia]. rewrite Z.eqb_refl. exists h. split; [done|].
    split; [done|]. split; done. }
  destruct l2 as [|x l2]; simpl.
  { rewrite Z.eqb_refl. exists h. split; [done|]. split; [done|]. split; done. }
  simpl in Hn. subst nxt. pose proof (proj1 Hc) as [Hhd _]%NoDup_cons.
  rewrite (proj2 (Z.eqb_neq x head)) by (intros ->; apply Hhd; set_solver).
  assert (Hnext : forall h' l, cycle h' (head :: l ++ l2) ->
            exists nxt', load_next (hd head l2) h' = inr (nxt', h') /\
              match l2 with [] => True | _ :: l => nxt' = hd head l end).
  { intros h' l Hc'. destruct l2 as [|y l3]; simpl.
    - eexists. split; [apply load_next_run, (cycle_next _ _ _ Hc')|done].
    - eexists. split; [|reflexivity]. apply load_next_run.
      apply (cycle_rotate h' (head :: l) (y :: l3)), cycle_next in Hc'. by destruct l3. }
  rewrite filter_cons. destruct (f x) eqn:Ef.
  - assert (Hc' : cycle h (x :: l2 ++ head :: l1))
      by (apply (cycle_rotate h (head :: l1) (x :: l2)) in Hc; exact Hc).
    destruct (list_del_run h x _ Hc') as (h1 & Hr & Hc1 & Hch).
    apply (cycle_rotate h1 l2 (head :: l1)) in Hc1.
    destruct (Hnext h1 l1 Hc1) as (nxt' & Hl & Hnx').
    destruct (IH l2 l1 nxt' h1 Hc1 Hnx' ltac:(lia)) as (h' & Hr' & Hc'' & Hch').
    rewrite (bind_step _ _ _ _ _ Hr), (bind_step _ _ _ _ _ Hl).
    exists h'. split; [done|]. rewrite decide_False by done. split; [done|].
    eapply only_changes_trans; (eapply only_changes_weaken; [|done]); set_solver.
  - replace (l1 ++ x :: l2) with ((l1 ++ [x]) ++ l2) in Hc by by rewrite <- app_assoc.
    destruct (Hnext h _ Hc) as (nxt' & Hl & Hnx').
    destruct (IH l2 _ nxt' h Hc Hnx' ltac:(lia)) as (h' & Hr' & Hc'' & Hch').
    rewrite (bind_step (mret tt) _ h tt h eq_refl), (bind_step _ _ _ _ _ Hl).
    exists h'. split; [done|]. rewrite decide_True by done. rewrite <- app_assoc in Hc''.
    split; [done|]. eapply only_changes_weaken; [|done]. set_solver.
Qed.

(** ** Properties *)

(** (C21) Every sequence of list operations that is meaningful for the
    configuration of a heap runs without touching an invalid object, and
    leaves the lists the configuration predicts. *)

Theorem list_ops_refine os s s' h :
  lsteps os s s' -> heap_rep h s ->
  exists h', exec_ops os h = inr (tt, h') /\ heap_rep h' s'.
Proof.
  intros Hs. revert h. induction Hs as [s|o os s1 s2 s3 Hs1 Hs IH]; intros h Hrep; [by exists h|].
  destruct (list_op_step o s1 s2 h Hs1 Hrep) as (h1 & Hr1 & Hrep1).
  destruct (IH h1 Hrep1) as (h2 & Hr2 & Hrep2). exists h2. split; [|done].
  cbn [exec_ops]. by rewrite (bind_step _ _ _ _ _ Hr1).
Qed.

(** On a well-formed list, the tests answer for its entries and both
    traversals visit every entry once, in order and in reverse order, within
    as many steps as there are entries. *)
Theorem list_observers head xs n h :
  is_list h head xs -> (List.length xs <= n)%nat ->
  list_empty head h = inr (bool_decide (xs = []), h) /\
  list_empty_careful head h = inr (bool_decide (xs = []), h) /\
  (forall e, e ∈ xs -> list_is_last e head h = inr (bool_decide (last xs = Some e), h)) /\
  list_for_each n head h = inr (xs, h) /\
  list_for_each_prev n head h = inr (reverse xs, h).
Proof.
  intros Hc Hn. pose proof (list_empty_run _ _ _ Hc) as He. pose proof (proj1 Hc) as Hnd.
  pose proof (cycle_next _ _ _ Hc) as Hnx. pose proof (cycle_prev _ _ _ Hc) as Hpv.
  pose proof (proj1 (proj1 (NoDup_cons _ _) Hnd)) as Hh.
  split; [done|]. split; [|split; [|split]].
  - unfold list_empty_careful. rewrite (bind_step _ _ _ _ _ (load_next_run _ _ _ Hnx)).
    unfold list_empty in He. rewrite (bind_step _ _ _ _ _ (load_next_run _ _ _ Hnx)) in He.
    unfold mret, M_ret in He. injection He as He. rewrite He.
    destruct (bool_decide_reflect (xs = [])) as [-> |]; [|done].
    rewrite (bind_step _ _ _ _ _ (load_prev_run _ _ _ Hpv)). simpl. by rewrite Z.eqb_refl.
  - intros e (l1 & l2 & ->)%list_elem_of_split. unfold list_is_last.
    apply (cycle_rotate h (head :: l1) (e :: l2)) in Hc. apply cycle_next in Hc.
    rewrite (bind_step _ _ _ _ _ (load_next_run _ _ _ Hc)). unfold mret, M_ret. do 2 f_equal.
    rewrite last_app. destruct l2 as [|y l2]; simpl.
    + rewrite Z.eqb_refl. by rewrite bool_decide_eq_true_2.
    + rewrite bool_decide_eq_false_2.
      * apply Z.eqb_neq. intros ->. apply Hh. set_solver.
      * intros Hl. apply NoDup_cons in Hnd as [_ Hnd]. apply NoDup_app in Hnd as (_ & _ & Hnd).
        apply NoDup_cons in Hnd as [Hnin _]. apply Hnin, last_Some_elem_of.
        destruct (last (y :: l2)) eqn:El; [done|]. by apply last_None in El.
  - unfold list_for_each. rewrite (bind_step _ _ _ _ _ (load_next_run _ _ _ Hnx)).
    by apply (for_each_from_run h head); [apply Hc| |].
  - unfold list_for_each_prev. rewrite (bind_step _ _ _ _ _ (load_prev_run _ _ _ Hpv)).
    by apply (for_each_prev_from_run h xs head head); [apply Hc| |].
Qed.

(** Deleting entries from within [list_for_each_safe] is safe: whatever
    entries the body unlinks, the loop visits all of them within as many steps
    as there are entries, and the remaining ones are left linked in order. *)
Theorem list_for_each_safe_filter head xs f n h :
  is_list h head xs -> (List.length xs <= n)%nat ->
  exists h', list_for_each_safe n (fun p => if f p : bool then list_del p else mret tt) head h
      = inr (tt, h') /\
    is_list h' head (filter (fun p => f p = false) xs).
Proof.
  intros Hc Hn. unfold list_for_each_safe.
  rewrite (bind_step _ _ _ _ _ (load_next_run _ _ _ (cycle_next _ _ _ Hc))).
  assert (exists nxt, load_next (hd head xs) h = inr (nxt, h) /\
            match xs with [] => True | _ :: l => nxt = hd head l end) as (nxt & Hl & Hnx).
  { destruct xs as [|x xs].
    - eexists. split; [apply load_next_run, (cycle_next _ _ _ Hc)|done].
    - eexists. split; [|reflexivity]. apply load_next_run.
      apply (cycle_rotate h [head] (x :: xs)), cycle_next in Hc. by destruct xs. }
  rewrite (bind_step _ _ _ _ _ Hl).
  destruct (for_each_safe_filter_from head f n xs [] nxt h Hc Hnx Hn) as (h' & Hr & Hc' & _).
  eauto.
Qed.

(** ** The theorems at work *)

(** Two empty lists at 1 and 2, and the loose objects 3 and 4. *)

Definition ex_heap : heap :=
  mkHeap (list_to_map [(1, 1); (2, 2); (3, 0); (4, 0)]) (list_to_map [(1, 1); (2, 2); (3, 0); (4, 0)]).

(** The list at 1 with the entries 3 and 4. *)
Definition ex_list : heap :=
  mkHeap (list_to_map [(1, 3); (3, 4); (4, 1)]) (list_to_map [(1, 4); (3, 1); (4, 3)]).

Lemma list_ops_refine_witness :
  exists h', exec_ops [OAdd 3 1; OAddTail 4 1; OSplice 1 2] ex_heap = inr (tt, h') /\
    heap_rep h' ([[2; 3; 4]], [1]).
Proof.
  apply (list_ops_refine _ ([[1]; [2]], [3; 4])).
  - eapply ss_cons; [apply s_add|]. eapply ss_cons; [apply s_add_tail|].
    eapply ss_cons; [apply s_splice|]. apply ss_nil.
  - split; [|split].
    + repeat constructor; by apply not_elem_of_nil.
    + repeat constructor; eexists; vm_compute; reflexivity.
    + apply (bool_decide_unpack _). vm_compute. exact I.
Defined.

Lemma list_observers_witness :
  list_for_each 2 1 ex_list = inr ([3; 4], ex_list) /\
  list_for_each_prev 2 1 ex_list = inr ([4; 3], ex_list).
Proof.
  assert (H : is_list ex_list 1 [3; 4]).
  { split; [apply (bool_decide_unpack _); vm_compute; exact I|]. vm_compute. tauto. }
  apply (list_observers 1 [3; 4] 2 ex_list H). simpl. lia.
Defined.

Lemma list_for_each_safe_filter_witness :
  exists h', list_for_each_safe 2 (fun p => if p =? 3 then list_del p else mret tt) 1 ex_list
      = inr (tt, h') /\ is_list h' 1 [4].
Proof.
  assert (H : is_list ex_list 1 [3; 4]).
  { split; [apply (bool_decide_unpack _); vm_compute; exact I|]. vm_compute. tauto. }
  apply (list_for_each_safe_filter 1 [3; 4] (fun p => p =? 3) 2 ex_list H). simpl. lia.
Defined.

(** ** Lists of structures: the entry macros of dwarves/list.h

    [list_entry] is the address of the structure that embeds a [list_head] at
    the offset [member]; the loops over entries are those over [list_head]s with
    this shift. *)

Section Entries.
Context (member : Z).

Definition list_entry (ptr : loc) : loc := ptr - member.
(** [&pos->member] *)
Definition entry_list (pos : loc) : loc := pos + member.

Definition list_first_entry (ptr : loc) : HM loc := q ← load_next ptr; mret (list_entry q).
Definition list_prepare_entry (pos head : loc) : loc := if pos =? 0 then list_entry head else pos.

(** The entry after [pos] in the direction of [link]. *)
Definition entry_after (link : loc -> HM loc) (pos : loc) : HM loc :=
  q ← link (entry_list pos); mret (list_entry q).

(** The loop of the macros that are not safe against removal. *)
Fixpoint for_entries (n : nat) (link : loc -> HM loc) (body : loc -> HM unit) (pos head : loc) : HM unit :=
  if entry_list pos =? head then mret tt else
  match n with
  | O => raise out_of_fuel
  | S n => body pos;;; q ← entry_after link pos; for_entries n link body q head
  end.

(** The loop of the safe ones: [nxt] has been read before the body runs. *)
Fixpoint for_entries_safe (n : nat) (link : loc -> HM loc) (body : loc -> HM unit) (pos nxt head : loc) : HM unit :=
  if entry_list pos =? head then mret tt else
  match n with
  | O => raise out_of_fuel
  | S n => body pos;;; q ← entry_after link nxt; for_entries_safe n link body nxt q head
  end.

Definition list_for_each_entry (n : nat) (body : loc -> HM unit) (head : loc) : HM unit :=
  q ← load_next head; for_entries n load_next body (list_entry q) head.
Definition list_for_each_entry_reverse (n : nat) (body : loc -> HM unit) (head : loc) : HM unit :=
  q ← load_prev head; for_entries n load_prev body (list_entry q) head.
Definition list_for_each_entry_continue (n : nat) (body : loc -> HM unit) (pos head : loc) : HM unit :=
  q ← entry_after load_next pos; for_entries n load_next body q head.
Definition list_for_each_entry_from (n : nat) (body : loc -> HM unit) (pos head : loc) : HM unit :=
  for_entries n load_next body pos head.
Definition list_for_each_entry_safe_from (n : nat) (body : loc -> HM unit) (pos head : loc) : HM unit :=
  q ← entry_after load_next pos; for_entries_safe n load_next body pos q head.
Definition list_for_each_entry_safe (n : nat) (body : loc -> HM unit) (head : loc) : HM unit :=
  p ← load_next head; list_for_each_entry_safe_from n body (list_entry p) head.
Definition list_for_each_entry_safe_continue (n : nat) (body : loc -> HM unit) (pos head : loc) : HM unit :=
  p ← entry_after load_next pos; list_for_each_entry_safe_from n body p head.
Definition list_for_each_entry_safe_reverse (n : nat) (body : loc -> HM unit) (head : loc) : HM unit :=
  p ← load_prev head; q ← entry_after load_prev (list_entry p);
  for_entries_safe n load_prev body (list_entry p) q head.

(** *** Entries and links *)

Lemma entry_list_entry p : entry_list (list_entry p) = p.
Proof. unfold entry_list, list_entry. lia. Qed.

Lemma entry_after_entry link p h q : link p h = inr (q, h) -> entry_after link (list_entry p) h = inr (list_entry q, h).
Proof. intros H. unfold entry_after. rewrite entry_list_entry. by rewrite (dbind _ _ _ _ _ H). Qed.

(** The bodies one after the other. *)
Fixpoint run_all (body : loc -> HM unit) (l : list loc) : HM unit :=
  match l with [] => mret tt | p :: l => body p;;; run_all body l end.

(** The body leaves the links of a list alone. *)
Definition keeps_links (ns : list loc) (body : loc -> HM unit) : Prop :=
  forall p h r h', body p h = inr (r, h') ->
    forall x, x ∈ ns -> hnext h' !! x = hnext h !! x /\ hprev h' !! x = hprev h !! x.

Lemma for_entries_next body head ns : keeps_links ns body -> forall xs a n h,
  seg h a xs head -> head ∉ xs -> a :: xs ++ [head] ⊆ ns -> (List.length xs <= n)%nat ->
  for_entries n load_next body (list_entry (hd head xs)) head h = run_all body (list_entry <$> xs) h.
Proof.
  intros Hb. induction xs as [|x xs IH]; intros a n h Hs Hin Hns Hn.
  { destruct n; simpl; by rewrite entry_list_entry, Z.eqb_refl. }
  destruct n as [|n]; simpl in Hn; [lia|]. cbn [for_entries hd fmap list_fmap run_all].
  rewrite entry_list_entry, (proj2 (Z.eqb_neq x head)) by set_solver.
  unfold mbind, M_bind. destruct (body (list_entry x) h) as [|[[] h1]] eqn:Hr; [done|].
  destruct Hs as [_ Hs].
  assert (Hs1 : seg h1 x xs head).
  { clear IH Hn Hin. assert (Hk := Hb _ _ _ _ Hr). clear Hr Hb. assert (Hsub : x :: xs ++ [head] ⊆ ns) by set_solver.
    clear Hns a. revert x Hs Hsub. induction xs as [|y xs IH]; intros x; simpl.
    - intros [H1 H2] Hsub. destruct (Hk x) as [-> _]; [set_solver|]. destruct (Hk head) as [_ ->]; [set_solver|done].
    - intros [[H1 H2] H3] Hsub. destruct (Hk x) as [-> _]; [set_solver|].
      destruct (Hk y) as [_ ->]; [set_solver|]. split; [done|]. apply IH; [done|set_solver]. }
  assert (Hx : hnext h1 !! x = Some (hd head xs)) by (destruct xs; simpl in Hs1; tauto).
  rewrite (entry_after_entry _ _ _ _ (load_next_run _ _ _ Hx)).
  apply (IH x); [done|set_solver|set_solver|lia].
Qed.

(** [list_for_each_entry] runs the body for every entry of a list in order. *)
Lemma list_for_each_entry_run body head xs n h :
  is_list h head xs -> keeps_links (head :: xs) body -> (List.length xs <= n)%nat ->
  list_for_each_entry n body head h = run_all body (list_entry <$> xs) h.
Proof.
  intros Hc Hb Hn. unfold list_for_each_entry.
  rewrite (dbind _ _ _ _ _ (load_next_run _ _ _ (cycle_next _ _ _ Hc))).
  destruct Hc as [[Hh _]%NoDup_cons Hs]. eapply for_entries_next; [done|exact Hs|done|set_solver|done].
Qed.

(** The safe loop is the one over [list_head]s with the shifted body. *)
Lemma for_entries_safe_eq body head n : forall p q h,
  for_entries_safe n load_next body (list_entry p) (list_entry q) head h =
  list_for_each_safe_from n (fun x => body (list_entry x)) p q head h.
Proof.
  induction n as [|n IH]; intros p q h; simpl; rewrite entry_list_entry; [done|].
  destruct (p =? head); [done|]. unfold mbind, M_bind.
  destruct (body (list_entry p) h) as [|[[] h1]]; [done|]. unfold entry_after, mbind, M_bind.
  rewrite entry_list_entry. destruct (load_next q h1) as [|[q' h2]]; [done|]. apply IH.
Qed.

Lemma list_for_each_entry_safe_eq body head n h :
  list_for_each_entry_safe n body head h = list_for_each_safe n (fun x => body (list_entry x)) head h.
Proof.
  unfold list_for_each_entry_safe, list_for_each_entry_safe_from, list_for_each_safe, entry_after.
  unfold mbind, M_bind. destruct (load_next head h) as [|[p h1]]; [done|]. rewrite entry_list_entry.
  destruct (load_next p h1) as [|[q h2]]; [done|]. apply for_entries_safe_eq.
Qed.
End Entries.
