(* ===== verification/HList.v ===== *)
(** * Lists with a single head pointer: the hlist half of dwarves/list.h

    A node of an [hlist] knows the cell that points to it: the [first] pointer
    of a head or the [next] pointer of the node before it.  The operations are
    steps on a collection of lists, one for each head. *)
From S2P Require Import Prelude ListHead.
Local Open Scope list_scope.
Local Open Scope Z_scope.

(** ** The heap *)

(** The values of [struct hlist_node **pprev]. *)
Inductive cell :=
  | c_null
  | c_first (h : loc)   (* &h->first *)
  | c_next (n : loc)    (* &n->next *)
  | c_poison.           (* LIST_POISON2 *)

#[export] Instance cell_eq_dec : EqDecision cell.
Proof. solve_decision. Defined.

Record hheap := mkHHeap {
  h_first : gmap loc loc;
  n_next : gmap loc loc;
  n_pprev : gmap loc cell
}.

Definition HLM (A : Type) : Type := M hheap exn A.

Definition bad_cell : exn := undefined "dereference of an invalid hlist pointer".

(** [*c] *)
Definition peek (h : hheap) (c : cell) : option loc :=
  match c with c_first p => h_first h !! p | c_next n => n_next h !! n | _ => None end.
Definition poke (c : cell) (q : loc) (h : hheap) : hheap :=
  match c with
  | c_first p => mkHHeap (<[p := q]> (h_first h)) (n_next h) (n_pprev h)
  | c_next n => mkHHeap (h_first h) (<[n := q]> (n_next h)) (n_pprev h)
  | _ => h
  end.

Definition load_cell (c : cell) : HLM loc := fun h =>
  match peek h c with Some q => inr (q, h) | None => inl bad_cell end.
Definition store_cell (c : cell) (q : loc) : HLM unit := fun h =>
  match peek h c with Some _ => inr (tt, poke c q h) | None => inl bad_cell end.
Definition load_pprev (n : loc) : HLM cell := fun h =>
  match n_pprev h !! n with Some c => inr (c, h) | None => inl bad_cell end.
Definition store_pprev (n : loc) (c : cell) : HLM unit := fun h =>
  match n_pprev h !! n with
  | Some _ => inr (tt, mkHHeap (h_first h) (n_next h) (<[n := c]> (n_pprev h)))
  | None => inl bad_cell
  end.

(** ** Operations *)

Definition INIT_HLIST_HEAD (h : loc) : HLM unit := store_cell (c_first h) 0.
Definition INIT_HLIST_NODE (n : loc) : HLM unit := store_cell (c_next n) 0;;; store_pprev n c_null.

Definition hlist_unhashed (n : loc) : HLM bool :=
  c ← load_pprev n; mret (bool_decide (c = c_null)).
Definition hlist_empty (h : loc) : HLM bool :=
  p ← load_cell (c_first h); mret (p =? 0).

Definition __hlist_del (n : loc) : HLM unit :=
  next ← load_cell (c_next n); pprev ← load_pprev n;
  store_cell pprev next;;;
  if next =? 0 then mret tt else store_pprev next pprev.

Definition hlist_del (n : loc) : HLM unit :=
  __hlist_del n;;; store_cell (c_next n) LIST_POISON1;;; store_pprev n c_poison.

Definition hlist_del_init (n : loc) : HLM unit :=
  u ← hlist_unhashed n;
  if u : bool then mret tt else __hlist_del n;;; INIT_HLIST_NODE n.

Definition hlist_add_head (n h : loc) : HLM unit :=
  first ← load_cell (c_first h);
  store_cell (c_next n) first;;;
  (if first =? 0 then mret tt else store_pprev first (c_next n));;;
  store_cell (c_first h) n;;;
  store_pprev n (c_first h).

(** [next] must not be NULL. *)
Definition hlist_add_before (n next : loc) : HLM unit :=
  c ← load_pprev next;
  store_pprev n c;;;
  store_cell (c_next n) next;;;
  store_pprev next (c_next n);;;
  c ← load_pprev n;
  store_cell c n.

(** [next] becomes the successor of [n]. *)
Definition hlist_add_after (n next : loc) : HLM unit :=
  q ← load_cell (c_next n);
  store_cell (c_next next) q;;;
  store_cell (c_next n) next;;;
  store_pprev next (c_next n);;;
  q ← load_cell (c_next next);
  if q =? 0 then mret tt else store_pprev q (c_next next).

(** The nodes visited by [hlist_for_each]. *)
Fixpoint hlist_for_each_from (k : nat) (pos : loc) : HLM (list loc) :=
  if pos =? 0 then mret [] else
  match k with
  | O => raise out_of_fuel
  | S k => q ← load_cell (c_next pos); l ← hlist_for_each_from k q; mret (pos :: l)
  end.
Definition hlist_for_each (k : nat) (h : loc) : HLM (list loc) :=
  p ← load_cell (c_first h); hlist_for_each_from k p.

(** [hlist_for_each_safe]: the successor is read before the body runs. *)
Fixpoint hlist_for_each_safe_from (k : nat) (body : loc -> HLM unit) (pos : loc) : HLM unit :=
  if pos =? 0 then mret tt else
  match k with
  | O => raise out_of_fuel
  | S k => q ← load_cell (c_next pos); body pos;;; hlist_for_each_safe_from k body q
  end.
Definition hlist_for_each_safe (k : nat) (body : loc -> HLM unit) (h : loc) : HLM unit :=
  p ← load_cell (c_first h); hlist_for_each_safe_from k body p.

(** ** What the operations do to the heap *)

Lemma peek_poke c q r h d : peek h c = Some r -> peek (poke c q h) d = if decide (d = c) then Some q else peek h d.
Proof.
  destruct c as [|p|n|]; intros Hc; try done; destruct d as [|p'|n'|]; simpl; try done;
    try (destruct (decide _) as [E|E]; try done; injection E as ->; by rewrite lookup_insert_eq).
  - destruct (decide (c_first p' = c_first p)) as [[=->]|E]; [by rewrite lookup_insert_eq|].
    rewrite lookup_insert_ne; [done|congruence].
  - destruct (decide (c_next n' = c_next n)) as [[=->]|E]; [by rewrite lookup_insert_eq|].
    rewrite lookup_insert_ne; [done|congruence].
Qed.

Lemma pprev_poke c q h : n_pprev (poke c q h) = n_pprev h.
Proof. by destruct c. Qed.

Lemma load_cell_run h c q : peek h c = Some q -> load_cell c h = inr (q, h).
Proof. unfold load_cell. by intros ->. Qed.

Lemma load_pprev_run h n c : n_pprev h !! n = Some c -> load_pprev n h = inr (c, h).
Proof. unfold load_pprev. by intros ->. Qed.

Lemma skip_run {B} (k : HLM B) h : ((mret tt : HLM unit);;; k) h = k h.
Proof. done. Qed.

Lemma assoc_run {A B C} (c : HLM A) (k : A -> HLM B) (k' : B -> HLM C) h :
  ((c ≫= k) ≫= k') h = (c ≫= (fun a => k a ≫= k')) h.
Proof. apply dbind_assoc. Qed.

(** A write of a pointer cell, of a [pprev] field. *)
Lemma store_cell_run h c q r :
  peek h c = Some r ->
  exists h', store_cell c q h = inr (tt, h') /\
    (forall d, peek h' d = if decide (d = c) then Some q else peek h d) /\ n_pprev h' = n_pprev h.
Proof.
  intros Hc. exists (poke c q h). unfold store_cell. rewrite Hc.
  split; [done|]. split; [intros d; by eapply peek_poke|apply pprev_poke].
Qed.

Lemma store_pprev_run h n c c0 :
  n_pprev h !! n = Some c0 ->
  exists h', store_pprev n c h = inr (tt, h') /\
    (forall d, peek h' d = peek h d) /\
    (forall x, n_pprev h' !! x = if decide (x = n) then Some c else n_pprev h !! x).
Proof.
  intros Hn. eexists. unfold store_pprev. rewrite Hn. split; [done|]. split.
  - by intros [].
  - intros x. simpl. destruct (decide (x = n)) as [->|]; [apply lookup_insert_eq|].
    by rewrite lookup_insert_ne.
Qed.

(** [n] was put between the cell [c] and the node [q] (0 for none). *)
Definition inserted (c : cell) (n q : loc) (h h' : hheap) : Prop :=
  (forall d, peek h' d = if decide (d = c) then Some n else if decide (d = c_next n) then Some q else peek h d) /\
  (forall x, n_pprev h' !! x = if decide (x = n) then Some c else
     if decide (x = q /\ q <> 0) then Some (c_next n) else n_pprev h !! x).

(** [n] was taken out between them; [q'] and [c'] are now its fields. *)
Definition removed (c : cell) (n q q' : loc) (c' : cell) (h h' : hheap) : Prop :=
  (forall d, peek h' d = if decide (d = c_next n) then Some q' else if decide (d = c) then Some q else peek h d) /\
  (forall x, n_pprev h' !! x = if decide (x = n) then Some c' else
     if decide (x = q /\ q <> 0) then Some c else n_pprev h !! x).

(** One write of a run: the bind steps over it and the context keeps what it did. *)
#[local] Ltac hcell := match goal with
  | |- exists h', (store_cell ?c ?q ≫= _) ?h = _ /\ _ =>
      let h1 := fresh "h" in let R := fresh "R" in let K := fresh "K" in let P := fresh "P" in
      edestruct (store_cell_run h c q) as (h1 & R & K & P);
      [|rewrite (dbind _ _ _ _ _ R); clear R]
  | |- exists h', (store_pprev ?n ?c ≫= _) ?h = _ /\ _ =>
      let h1 := fresh "h" in let R := fresh "R" in let K := fresh "K" in let P := fresh "P" in
      edestruct (store_pprev_run h n c) as (h1 & R & K & P);
      [|rewrite (dbind _ _ _ _ _ R); clear R]
  end.

(** The fields of the last heap in terms of the first one. *)
#[local] Ltac fields := repeat match goal with
  | P : n_pprev ?h' = n_pprev ?h |- context [n_pprev ?h'] => rewrite P
  | P : forall x, n_pprev ?h' !! x = _ |- context [n_pprev ?h' !! _] => rewrite P
  | K : forall d, peek ?h' d = _ |- context [peek ?h' _] => rewrite K
  end.
#[local] Ltac cells := repeat (case_decide; simplify_eq); try done; try naive_solver.

Lemma add_head_run h n p first nx c0 :
  peek h (c_first p) = Some first -> peek h (c_next n) = Some nx -> n_pprev h !! n = Some c0 ->
  n <> first -> (first <> 0 -> is_Some (n_pprev h !! first)) ->
  exists h', hlist_add_head n p h = inr (tt, h') /\ inserted (c_first p) n first h h'.
Proof.
  intros Hf Hn Hp Hne Hq. unfold hlist_add_head. rewrite (dbind _ _ _ _ _ (load_cell_run _ _ _ Hf)).
  hcell; [done|]. destruct (Z.eqb_spec first 0) as [->|H0].
  - rewrite skip_run. hcell; [by fields; cells|].
    edestruct (store_pprev_run h1 n (c_first p)) as (h2 & R & K1 & P1); [by fields|].
    exists h2. split; [exact R|]. split; intros; fields; cells.
  - destruct (Hq H0) as [cq Hcq].
    edestruct (store_pprev_run h0 first (c_next n)) as (h1 & R & K0 & P0); [by fields|].
    rewrite (dbind _ _ _ _ _ R). clear R. hcell; [by fields; cells|].
    edestruct (store_pprev_run h2 n (c_first p)) as (h3 & R & K2 & P2); [by fields; cells|].
    exists h3. split; [exact R|]. split; intros; fields; cells.
Qed.

Lemma add_before_run h n next c nx c0 :
  n_pprev h !! next = Some c -> peek h c = Some next -> peek h (c_next n) = Some nx ->
  n_pprev h !! n = Some c0 -> next <> 0 -> n <> next -> c <> c_next n ->
  exists h', hlist_add_before n next h = inr (tt, h') /\ inserted c n next h h'.
Proof.
  intros Hc Hpk Hn Hp H0 Hne Hcn. unfold hlist_add_before.
  rewrite (dbind _ _ _ _ _ (load_pprev_run _ _ _ Hc)).
  hcell; [done|]. hcell; [by fields|]. hcell; [by fields; cells|].
  assert (Hc' : n_pprev h2 !! n = Some c) by (fields; cells).
  rewrite (dbind _ _ _ _ _ (load_pprev_run _ _ _ Hc')).
  edestruct (store_cell_run h2 c n) as (h3 & R & K2 & P2); [by fields; cells|].
  exists h3. split; [exact R|]. split; intros; fields; cells.
Qed.

Lemma add_after_run h n next q nx c0 :
  peek h (c_next n) = Some q -> peek h (c_next next) = Some nx -> n_pprev h !! next = Some c0 ->
  n <> next -> q <> next -> (q <> 0 -> is_Some (n_pprev h !! q)) ->
  exists h', hlist_add_after n next h = inr (tt, h') /\ inserted (c_next n) next q h h'.
Proof.
  intros Hq Hn Hp Hne Hqn Hex. unfold hlist_add_after.
  rewrite (dbind _ _ _ _ _ (load_cell_run _ _ _ Hq)).
  hcell; [done|]. hcell; [by fields; cells|]. hcell; [by fields|].
  assert (Hl : peek h2 (c_next next) = Some q) by (fields; cells).
  rewrite (dbind _ _ _ _ _ (load_cell_run _ _ _ Hl)).
  destruct (Z.eqb_spec q 0) as [->|H0].
  - exists h2. split; [done|]. split; intros; fields; cells.
  - destruct (Hex H0) as [cq Hcq].
    edestruct (store_pprev_run h2 q (c_next next)) as (h3 & R & K2 & P2); [by fields; cells|].
    exists h3. split; [exact R|]. split; intros; fields; cells.
Qed.

(** [__hlist_del] and the two writes after it. *)
Lemma del_run h n c q q' c' :
  n_pprev h !! n = Some c -> peek h c = Some n -> peek h (c_next n) = Some q ->
  c <> c_next n -> q <> n -> (q <> 0 -> is_Some (n_pprev h !! q)) ->
  exists h', (__hlist_del n;;; store_cell (c_next n) q';;; store_pprev n c') h = inr (tt, h') /\
    removed c n q q' c' h h'.
Proof.
  intros Hp Hc Hq Hcn Hqn Hex. unfold __hlist_del.
  rewrite assoc_run, (dbind _ _ _ _ _ (load_cell_run _ _ _ Hq)).
  rewrite assoc_run, (dbind _ _ _ _ _ (load_pprev_run _ _ _ Hp)), assoc_run.
  hcell; [done|]. destruct (Z.eqb_spec q 0) as [->|H0].
  - rewrite skip_run. hcell; [by fields; cells|].
    edestruct (store_pprev_run h1 n c') as (h2 & R & K1 & P1); [by fields|].
    exists h2. split; [exact R|]. split; intros; fields; cells.
  - destruct (Hex H0) as [cq Hcq]. hcell; [by fields|]. hcell; [by fields; cells|].
    edestruct (store_pprev_run h2 n c') as (h3 & R & K2 & P2); [by fields; cells|].
    exists h3. split; [exact R|]. split; intros; fields; cells.
Qed.
