(* ===== verification/HListProps.v ===== *)
(** * What the hlist operations do

    A collection of lists, one for each head, and the loose nodes beside them:
    every operation is a step between such collections. *)
From S2P Require Import Prelude ListHead HList.
Local Open Scope list_scope.
Local Open Scope Z_scope.

#[local] Arguments peek : simpl never.

(** ** One list *)

(** The nodes [xs] hang on the cell [c]. *)
Fixpoint chain (h : hheap) (c : cell) (xs : list loc) : Prop :=
  match xs with
  | [] => peek h c = Some 0
  | x :: xs => x <> 0 /\ peek h c = Some x /\ n_pprev h !! x = Some c /\ chain h (c_next x) xs
  end.

(** The cell behind the nodes [xs] that hang on [c]. *)
Fixpoint last_cell (c : cell) (xs : list loc) : cell :=
  match xs with [] => c | x :: xs => last_cell (c_next x) xs end.

Lemma last_cell_snoc c xs x : last_cell c (xs ++ [x]) = c_next x.
Proof. revert c. induction xs as [|y xs IH]; intros c; simpl; auto. Qed.

Lemma last_cell_case c xs : xs = [] /\ last_cell c xs = c \/ exists x, x ∈ xs /\ last_cell c xs = c_next x.
Proof.
  destruct xs as [|x xs _] using rev_ind; [by left|right]. exists x. rewrite last_cell_snoc.
  split; [set_solver|done].
Qed.

Lemma chain_app h c xs ys : chain h c (xs ++ ys) -> chain h (last_cell c xs) ys.
Proof. revert c. induction xs as [|x xs IH]; intros c; simpl; [done|]. intros (_ & _ & _ & H). by apply IH. Qed.

Lemma chain_nonzero h c xs : chain h c xs -> 0 ∉ xs.
Proof.
  revert c. induction xs as [|x xs IH]; intros c; simpl; [set_solver|].
  intros (Hx & _ & _ & H%IH). set_solver.
Qed.

Lemma chain_head h c xs : chain h c xs -> peek h c = Some (hd 0 xs).
Proof. destruct xs; simpl; tauto. Qed.

Lemma chain_head_pprev h c xs : chain h c xs -> hd 0 xs <> 0 -> n_pprev h !! hd 0 xs = Some c.
Proof. destruct xs; simpl; tauto. Qed.

(** What the fields around a node are. *)
Lemma chain_at h c xs n ys :
  chain h c (xs ++ n :: ys) ->
  n <> 0 /\ peek h (last_cell c xs) = Some n /\ n_pprev h !! n = Some (last_cell c xs) /\
  peek h (c_next n) = Some (hd 0 ys) /\ (hd 0 ys <> 0 -> n_pprev h !! hd 0 ys = Some (c_next n)).
Proof.
  intros (H0 & Hp & Hpp & Hc)%chain_app. split; [done|]. split; [done|]. split; [done|].
  split; [by apply chain_head|by apply chain_head_pprev].
Qed.

Lemma chain_frame h h' c xs :
  (forall d, d = c \/ (exists x, x ∈ xs /\ d = c_next x) -> peek h' d = peek h d) ->
  (forall x, x ∈ xs -> n_pprev h' !! x = n_pprev h !! x) ->
  chain h c xs -> chain h' c xs.
Proof.
  revert c. induction xs as [|x xs IH]; intros c Hpk Hpp; simpl.
  - by rewrite Hpk by (by left).
  - rewrite Hpk by (by left). rewrite Hpp by (by left). intros (H0 & H1 & H2 & H3).
    split; [done|]. split; [done|]. split; [done|]. apply IH; [| |done].
    + intros d [->|(y & Hy & ->)]; apply Hpk; right; eexists; split; eauto; set_solver.
    + set_solver.
Qed.

(** [c] is not the [next] cell of one of the nodes. *)
Definition apart (c : cell) (xs : list loc) : Prop := forall x, x ∈ xs -> c <> c_next x.

Lemma apart_next x xs : x ∉ xs -> apart (c_next x) xs.
Proof. intros Hx y Hy [= ->]. done. Qed.

Lemma chain_inserted h h' c xs n ys :
  chain h c (xs ++ ys) -> NoDup (xs ++ ys) -> n ∉ xs ++ ys -> n <> 0 -> apart c (n :: xs ++ ys) ->
  inserted (last_cell c xs) n (hd 0 ys) h h' -> chain h' c (xs ++ n :: ys).
Proof.
  revert c. induction xs as [|x xs IH]; intros c Hc Hnd Hn H0 Hap [Hpk Hpp]; simpl in *.
  - split; [done|]. split; [by rewrite Hpk, decide_True|]. split; [by rewrite Hpp, decide_True|].
    assert (Hne : c_next n <> c) by (intros E; apply (Hap n); [by left|done]).
    destruct ys as [|y ys]; simpl in *.
    + rewrite Hpk, decide_False, decide_True by done. done.
    + destruct Hc as (Hy0 & Hcy & Hyc & Hc). apply NoDup_cons in Hnd as [Hy Hnd].
      split; [done|]. split; [by rewrite Hpk, decide_False, decide_True|].
      split; [rewrite Hpp, decide_False by set_solver; by rewrite decide_True|].
      eapply chain_frame; [| |exact Hc].
      * intros d Hd. assert (exists z, z ∈ y :: ys /\ d = c_next z) as (z & Hz & ->).
        { destruct Hd as [->|(z & Hz & ->)]; eexists; split; eauto; set_solver. }
        rewrite Hpk, decide_False by (intros E; apply (Hap z); [set_solver|done]).
        rewrite decide_False; [done|]. intros [= ->]. set_solver.
      * intros z Hz. rewrite Hpp, decide_False, decide_False by set_solver. done.
  - destruct Hc as (Hx0 & Hcx & Hxc & Hc). pose proof (chain_nonzero _ _ _ Hc) as Hz.
    apply NoDup_cons in Hnd as [Hx Hnd].
    assert (Hl : c <> last_cell (c_next x) xs).
    { destruct (last_cell_case (c_next x) xs) as [[_ ->]|(y & Hy & ->)]; apply Hap; set_solver. }
    split; [done|]. split; [|split].
    + rewrite Hpk, decide_False, decide_False by (first [done|apply Hap; set_solver]). done.
    + rewrite Hpp, decide_False by set_solver. rewrite decide_False; [done|].
      intros [-> Hy]. destruct ys; set_solver.
    + apply IH; [done|done|set_solver|done| |by split].
      apply apart_next. set_solver.
Qed.

Lemma chain_removed h h' c xs n ys q' c' :
  chain h c (xs ++ n :: ys) -> NoDup (xs ++ n :: ys) -> apart c (xs ++ n :: ys) ->
  removed (last_cell c xs) n (hd 0 ys) q' c' h h' -> chain h' c (xs ++ ys).
Proof.
  revert c. induction xs as [|x xs IH]; intros c Hc Hnd Hap [Hpk Hpp]; simpl in *.
  - destruct Hc as (H0 & Hcn & Hnc & Hc). apply NoDup_cons in Hnd as [Hn Hnd].
    assert (Hne : c <> c_next n) by (apply Hap; by left).
    destruct ys as [|y ys]; simpl in *.
    + rewrite Hpk, decide_False, decide_True by done. done.
    + destruct Hc as (Hy0 & Hcy & Hyc & Hc). apply NoDup_cons in Hnd as [Hy Hnd].
      split; [done|]. split; [by rewrite Hpk, decide_False, decide_True|].
      split; [rewrite Hpp, decide_False by set_solver; by rewrite decide_True|].
      eapply chain_frame; [| |exact Hc].
      * intros d Hd. assert (exists z, z ∈ y :: ys /\ d = c_next z) as (z & Hz & ->).
        { destruct Hd as [->|(z & Hz & ->)]; eexists; split; eauto; set_solver. }
        rewrite Hpk, decide_False by (intros [= ->]; set_solver).
        rewrite decide_False; [done|]. intros E. apply (Hap z); [set_solver|done].
      * intros z Hz. rewrite Hpp, decide_False, decide_False by set_solver. done.
  - destruct Hc as (Hx0 & Hcx & Hxc & Hc). pose proof (chain_nonzero _ _ _ Hc) as Hz.
    apply NoDup_cons in Hnd as [Hx Hnd].
    assert (Hl : c <> last_cell (c_next x) xs).
    { destruct (last_cell_case (c_next x) xs) as [[_ ->]|(y & Hy & ->)]; apply Hap; set_solver. }
    split; [done|]. split; [|split].
    + rewrite Hpk, decide_False, decide_False by (first [done|apply Hap; set_solver]). done.
    + rewrite Hpp, decide_False by set_solver. rewrite decide_False; [done|].
      intros [-> Hy]. destruct ys; set_solver.
    + apply IH; [done|done| |by split]. apply apart_next. set_solver.
Qed.

(** ** Collections of lists *)

(** The lists by their heads, and the loose nodes: [true] for one whose [pprev]
    is NULL. *)
Definition lists : Type := gmap loc (list loc) * gmap loc bool.

(** Nodes that belong to no list. *)
Definition outside (L : gmap loc (list loc)) (n : loc) : Prop := forall p xs, L !! p = Some xs -> n ∉ xs.

Record hl_rep (h : hheap) (s : lists) : Prop := {
  rep_chain p xs : s.1 !! p = Some xs -> NoDup xs /\ chain h (c_first p) xs;
  rep_disjoint p q xs ys n : s.1 !! p = Some xs -> s.1 !! q = Some ys -> n ∈ xs -> n ∈ ys -> p = q;
  rep_loose n b : s.2 !! n = Some b ->
    n <> 0 /\ is_Some (peek h (c_next n)) /\ outside s.1 n /\
    exists c, n_pprev h !! n = Some c /\ (b = true -> c = c_null)
}.

(** Only fields of the list at [p] and of its nodes before or after differ. *)
Definition local_change (p : loc) (ns : list loc) (h h' : hheap) : Prop :=
  (forall d, d <> c_first p -> (forall x, x ∈ ns -> d <> c_next x) -> peek h' d = peek h d) /\
  (forall x, x ∉ ns -> n_pprev h' !! x = n_pprev h !! x).

(** The list at [p] changes from [xs] to [ys], a node [n] changes between the
    list and the loose nodes. *)
Lemma hl_rep_update h h' s p n xs ys F :
  hl_rep h s -> s.1 !! p = Some xs -> NoDup ys -> chain h' (c_first p) ys ->
  (forall x, x ∈ ys -> x ∈ xs \/ x = n /\ outside s.1 n) ->
  (n ∈ xs \/ outside s.1 n) ->
  local_change p (n :: xs) h h' ->
  (forall x b, F !! x = Some b -> x <> n -> s.2 !! x = Some b) ->
  (forall b, F !! n = Some b -> n <> 0 /\ n ∉ ys /\ is_Some (peek h' (c_next n)) /\
    exists c, n_pprev h' !! n = Some c /\ (b = true -> c = c_null)) ->
  hl_rep h' (<[p := ys]> s.1, F).
Proof.
  intros [Hch Hdis Hlo] Hp Hnd Hc Hys Hn [Hpk Hpp] HF HFn.
  assert (Hother : forall q zs, q <> p -> s.1 !! q = Some zs -> forall z, z ∈ zs -> z ∉ n :: xs).
  { intros q zs Hq Hzs z Hz [->|Hx]%elem_of_cons.
    - destruct Hn as [Hx|Ho]; [|by apply (Ho q zs)]. by apply Hq, (Hdis q p zs xs n).
    - by apply Hq, (Hdis q p zs xs z). }
  split; cbn [fst snd].
  - intros q zs. destruct (decide (q = p)) as [->|Hq].
    + rewrite lookup_insert_eq. by intros [= <-].
    + rewrite lookup_insert_ne by done. intros Hzs. destruct (Hch q zs Hzs) as [Hnz Hcz].
      split; [done|]. eapply chain_frame; [| |exact Hcz].
      * intros d [->|(z & Hz & ->)]; apply Hpk; try congruence.
        intros x Hx [= ->]. by eapply Hother.
      * intros z Hz. apply Hpp. by eapply Hother.
  - intros q r zs zs' x Hq Hr Hx Hx'. rewrite lookup_insert_Some in Hq, Hr.
    destruct Hq as [[<- <-]|[Hqp Hq]], Hr as [[<- <-]|[Hrp Hr]]; [done| | |].
    + exfalso. destruct (Hys x Hx) as [Hxs|[-> Ho]]; [|by apply (Ho r zs')].
      eapply Hother; eauto. by right.
    + exfalso. destruct (Hys x Hx') as [Hxs|[-> Ho]]; [|by apply (Ho q zs)].
      eapply Hother; eauto. by right.
    + by eapply Hdis.
  - intros x b Hx. destruct (decide (x = n)) as [->|Hxn].
    + destruct (HFn b Hx) as (H0 & Hin & Hpx & Hcx). split; [done|]. split; [done|]. split; [|done].
      intros q zs. destruct (decide (q = p)) as [->|Hq].
      * rewrite lookup_insert_eq. by intros [= <-].
      * rewrite lookup_insert_ne by done. intros Hzs Hz. eapply Hother; eauto. by left.
    + destruct (Hlo x b (HF x b Hx Hxn)) as (H0 & Hpx & Ho & c & Hcx & Hb).
      assert (Hxs : x ∉ n :: xs) by (intros [?|?]%elem_of_cons; [done|by apply (Ho p xs)]).
      split; [done|]. split.
      { rewrite Hpk; [done|done|]. intros y Hy [= ->]. done. }
      split; [|exists c; by rewrite Hpp].
      intros q zs. destruct (decide (q = p)) as [->|Hq].
      * rewrite lookup_insert_eq. intros [= <-] Hin. destruct (Hys x Hin) as [?|[-> ?]]; [set_solver|done].
      * rewrite lookup_insert_ne by done. apply Ho.
Qed.

Lemma inserted_local p xs1 ys n h h' :
  inserted (last_cell (c_first p) xs1) n (hd 0 ys) h h' -> local_change p (n :: xs1 ++ ys) h h'.
Proof.
  intros [Hpk Hpp]. split.
  - intros d Hd Hx. rewrite Hpk, decide_False, decide_False; [done|apply Hx; by left|].
    destruct (last_cell_case (c_first p) xs1) as [[_ ->]|(y & Hy & ->)]; [done|apply Hx; set_solver].
  - intros x Hx. rewrite Hpp, decide_False, decide_False; [done| |set_solver].
    intros [-> H0]. destruct ys; set_solver.
Qed.

Lemma removed_local p xs1 ys n q' c' h h' :
  removed (last_cell (c_first p) xs1) n (hd 0 ys) q' c' h h' -> local_change p (n :: xs1 ++ n :: ys) h h'.
Proof.
  intros [Hpk Hpp]. split.
  - intros d Hd Hx. rewrite Hpk, decide_False, decide_False; [done| |apply Hx; by left].
    destruct (last_cell_case (c_first p) xs1) as [[_ ->]|(y & Hy & ->)]; [done|apply Hx; set_solver].
  - intros x Hx. rewrite Hpp, decide_False, decide_False; [done| |set_solver].
    intros [-> H0]. destruct ys; set_solver.
Qed.

(** A loose node enters the list at [p] between [xs1] and [ys]. *)
Lemma rep_inserted h h' s p xs1 ys n b :
  hl_rep h s -> s.1 !! p = Some (xs1 ++ ys) -> s.2 !! n = Some b ->
  inserted (last_cell (c_first p) xs1) n (hd 0 ys) h h' ->
  hl_rep h' (<[p := xs1 ++ n :: ys]> s.1, delete n s.2).
Proof.
  intros Hrep Hp Hn Hins. destruct (rep_chain _ _ Hrep _ _ Hp) as [Hnd Hc].
  destruct (rep_loose _ _ Hrep _ _ Hn) as (H0 & _ & Ho & _). pose proof (Ho _ _ Hp) as Hni.
  apply (hl_rep_update h h' s p n (xs1 ++ ys)); try done.
  - rewrite <- Permutation_middle. by constructor.
  - by eapply chain_inserted.
  - intros x. rewrite !elem_of_app, elem_of_cons. naive_solver.
  - by right.
  - by apply inserted_local.
  - intros x b' Hx Hne. by rewrite lookup_delete_ne in Hx.
  - intros b'. by rewrite lookup_delete_eq.
Qed.

(** A node leaves its list and becomes loose. *)
Lemma rep_removed h h' s p xs1 ys n q' c' b :
  hl_rep h s -> s.1 !! p = Some (xs1 ++ n :: ys) ->
  removed (last_cell (c_first p) xs1) n (hd 0 ys) q' c' h h' -> (b = true -> c' = c_null) ->
  hl_rep h' (<[p := xs1 ++ ys]> s.1, <[n := b]> s.2).
Proof.
  intros Hrep Hp Hrem Hb. destruct (rep_chain _ _ Hrep _ _ Hp) as [Hnd Hc].
  pose proof (chain_at _ _ _ _ _ Hc) as (H0 & _).
  pose proof Hnd as Hnd'. rewrite <- Permutation_middle in Hnd'. apply NoDup_cons in Hnd' as [Hni Hnd'].
  apply (hl_rep_update h h' s p n (xs1 ++ n :: ys)); try done.
  - eapply chain_removed; [exact Hc|exact Hnd|done|exact Hrem].
  - set_solver.
  - left. set_solver.
  - by eapply removed_local.
  - intros x b' Hx Hne. by rewrite lookup_insert_ne in Hx.
  - intros b'. rewrite lookup_insert_eq. intros [= <-]. destruct Hrem as [Hpk Hpp].
    split; [done|]. split; [done|]. split; [rewrite Hpk, decide_True by done; eauto|].
    exists c'. split; [by rewrite Hpp, decide_True|done].
Qed.

(** ** Operations as steps *)

Inductive hop :=
  | HInit (n : loc)
  | HAdd (n p : loc)
  | HBefore (n next : loc)
  | HAfter (n next : loc)
  | HDel (n : loc)
  | HDelInit (n : loc).

Definition exec_hop (o : hop) : HLM unit :=
  match o with
  | HInit n => INIT_HLIST_NODE n
  | HAdd n p => hlist_add_head n p
  | HBefore n next => hlist_add_before n next
  | HAfter n next => hlist_add_after n next
  | HDel n => hlist_del n
  | HDelInit n => hlist_del_init n
  end.
Fixpoint exec_hops (os : list hop) : HLM unit :=
  match os with [] => mret tt | o :: os => exec_hop o;;; exec_hops os end.

Inductive hstep : hop -> lists -> lists -> Prop :=
  | h_init n b L F : F !! n = Some b -> hstep (HInit n) (L, F) (L, <[n := true]> F)
  | h_add n p b xs L F : F !! n = Some b -> L !! p = Some xs ->
      hstep (HAdd n p) (L, F) (<[p := n :: xs]> L, delete n F)
  | h_before n p b xs next ys L F : F !! n = Some b -> L !! p = Some (xs ++ next :: ys) ->
      hstep (HBefore n next) (L, F) (<[p := xs ++ n :: next :: ys]> L, delete n F)
  | h_after n p b xs pos ys L F : F !! n = Some b -> L !! p = Some (xs ++ pos :: ys) ->
      hstep (HAfter pos n) (L, F) (<[p := xs ++ pos :: n :: ys]> L, delete n F)
  | h_del n p xs ys L F : L !! p = Some (xs ++ n :: ys) ->
      hstep (HDel n) (L, F) (<[p := xs ++ ys]> L, <[n := false]> F)
  | h_del_init n p xs ys L F : L !! p = Some (xs ++ n :: ys) ->
      hstep (HDelInit n) (L, F) (<[p := xs ++ ys]> L, <[n := true]> F)
  | h_del_loose n L F : F !! n = Some true -> hstep (HDelInit n) (L, F) (L, F).

Inductive hsteps : list hop -> lists -> lists -> Prop :=
  | hs_nil s : hsteps [] s s
  | hs_cons o os s1 s2 s3 : hstep o s1 s2 -> hsteps os s2 s3 -> hsteps (o :: os) s1 s3.

Lemma is_Some_or_zero (A : Type) (m : gmap loc A) (q : loc) (a : A) :
  (q <> 0 -> m !! q = Some a) -> q <> 0 -> is_Some (m !! q).
Proof. intros H H0. rewrite (H H0). eauto. Qed.

(** The cell in front of a node is not the node's own. *)
Lemma last_cell_apart p xs n : n ∉ xs -> last_cell (c_first p) xs <> c_next n.
Proof.
  intros Hn. destruct (last_cell_case (c_first p) xs) as [[_ ->]|(y & Hy & ->)]; [done|].
  intros [= ->]. done.
Qed.

Lemma del_step h s p xs n ys q' c' b :
  hl_rep h s -> s.1 !! p = Some (xs ++ n :: ys) -> (b = true -> c' = c_null) ->
  exists h', (__hlist_del n;;; store_cell (c_next n) q';;; store_pprev n c') h = inr (tt, h') /\
    hl_rep h' (<[p := xs ++ ys]> s.1, <[n := b]> s.2).
Proof.
  intros Hrep Hp Hb. destruct (rep_chain _ _ Hrep _ _ Hp) as [Hnd Hc].
  destruct (chain_at _ _ _ _ _ Hc) as (H0 & Hpk & Hpp & Hnx & Hq).
  apply NoDup_app in Hnd as (_ & Hd & [Hn _]%NoDup_cons).
  destruct (del_run h n _ (hd 0 ys) q' c' Hpp Hpk Hnx) as (h' & Hr & Hrem).
  - apply last_cell_apart. intros ?. eapply Hd; [done|set_solver].
  - intros E. destruct ys; simpl in E; [done|]. set_solver.
  - by eapply is_Some_or_zero.
  - exists h'. split; [done|]. by eapply rep_removed.
Qed.

Lemma hop_step o s s' h :
  hstep o s s' -> hl_rep h s -> exists h', exec_hop o h = inr (tt, h') /\ hl_rep h' s'.
Proof.
  intros Hs Hrep. destruct Hs as [n b L F Hn|n p b xs L F Hn Hp|n p b xs next ys L F Hn Hp
    |n p b xs pos ys L F Hn Hp|n p xs ys L F Hp|n p xs ys L F Hp|n L F Hn]; simpl.
  - destruct (rep_loose _ _ Hrep n b Hn) as (H0 & [q Hq] & Ho & c & Hcn & _).
    destruct (store_cell_run h (c_next n) 0 q Hq) as (h1 & R1 & K1 & P1).
    destruct (store_pprev_run h1 n c_null c) as (h2 & R2 & K2 & P2); [by rewrite P1|].
    exists h2. unfold INIT_HLIST_NODE. rewrite (dbind _ _ _ _ _ R1). split; [done|].
    destruct Hrep as [Hch Hdis Hlo]. split; [|exact Hdis|]; cbn [fst snd] in *.
    + intros p xs Hp. destruct (Hch p xs Hp) as [Hnd Hc]. pose proof (Ho p xs Hp) as Hni.
      split; [done|]. eapply chain_frame; [| |exact Hc].
      * intros d Hd. rewrite K2, K1, decide_False; [done|]. destruct Hd as [->|(x & Hx & ->)]; [done|].
        intros [= ->]. done.
      * intros x Hx. rewrite P2, decide_False by (intros ->; done). by rewrite P1.
    + intros x b'. destruct (decide (x = n)) as [->|Hx].
      * intros _. split; [done|]. split; [rewrite K2, K1, decide_True by done; eauto|].
        split; [done|]. exists c_null. by rewrite P2, decide_True.
      * rewrite lookup_insert_ne by done. intros Hb. destruct (Hlo x b' Hb) as (? & Hpx & ? & ? & ? & ?).
        split; [done|]. split; [by rewrite K2, K1, decide_False by congruence|]. split; [done|].
        eexists. rewrite P2, decide_False, P1 by done. eauto.
  - destruct (rep_loose _ _ Hrep n b Hn) as (H0 & [nx Hnx] & Ho & c & Hcn & _).
    destruct (rep_chain _ _ Hrep _ _ Hp) as [Hnd Hc].
    destruct (add_head_run h n p (hd 0 xs) nx c) as (h' & Hr & Hins);
      [by apply chain_head|done|done| |by eapply is_Some_or_zero, chain_head_pprev|].
    + intros E. apply (Ho _ _ Hp). destruct xs; simpl in E; [done|]. subst. set_solver.
    + exists h'. split; [done|]. by apply (rep_inserted h h' (L, F) p [] xs n b).
  - destruct (rep_loose _ _ Hrep n b Hn) as (H0 & [nx Hnx] & Ho & c & Hcn & _).
    destruct (rep_chain _ _ Hrep _ _ Hp) as [Hnd Hc]. pose proof (Ho _ _ Hp) as Hni.
    destruct (chain_at _ _ _ _ _ Hc) as (Hx0 & Hpk & Hpp & _).
    destruct (add_before_run h n next _ nx c Hpp Hpk Hnx Hcn Hx0) as (h' & Hr & Hins);
      [set_solver|apply last_cell_apart; set_solver|].
    exists h'. split; [done|]. by apply (rep_inserted h h' (L, F) p xs (next :: ys) n b).
  - destruct (rep_loose _ _ Hrep n b Hn) as (H0 & [nx Hnx] & Ho & c & Hcn & _).
    destruct (rep_chain _ _ Hrep _ _ Hp) as [Hnd Hc]. pose proof (Ho _ _ Hp) as Hni.
    destruct (chain_at _ _ _ _ _ Hc) as (Hx0 & _ & _ & Hq & Hqp).
    destruct (add_after_run h pos n (hd 0 ys) nx c Hq Hnx Hcn) as (h' & Hr & Hins);
      [set_solver|destruct ys; set_solver|by eapply is_Some_or_zero|].
    exists h'. split; [done|]. replace (xs ++ pos :: n :: ys) with ((xs ++ [pos]) ++ n :: ys) by by rewrite <-app_assoc.
    apply (rep_inserted h h' (L, F) p (xs ++ [pos]) ys n b); [done| |done|by rewrite last_cell_snoc].
    by rewrite <-app_assoc.
  - by apply (del_step h (L, F) p xs n ys LIST_POISON1 c_poison false).
  - destruct (rep_chain _ _ Hrep _ _ Hp) as [_ Hc]. destruct (chain_at _ _ _ _ _ Hc) as (_ & _ & Hpp & _).
    unfold hlist_del_init, hlist_unhashed. rewrite assoc_run, (dbind _ _ _ _ _ (load_pprev_run _ _ _ Hpp)).
    rewrite bool_decide_eq_false_2 by (destruct (last_cell_case (c_first p) xs) as [[_ ->]|(? & _ & ->)]; done).
    by apply (del_step h (L, F) p xs n ys 0 c_null true).
  - destruct (rep_loose _ _ Hrep n true Hn) as (_ & _ & _ & c & Hcn & Hb). rewrite (Hb eq_refl) in Hcn.
    exists h. split; [|done]. unfold hlist_del_init, hlist_unhashed.
    by rewrite assoc_run, (dbind _ _ _ _ _ (load_pprev_run _ _ _ Hcn)).
Qed.

(** ** What the tests and traversals say *)

Lemma for_each_run h xs : forall c k, chain h c xs -> (List.length xs <= k)%nat ->
  hlist_for_each_from k (hd 0 xs) h = inr (xs, h).
Proof.
  induction xs as [|x xs IH]; intros c k Hc Hk; simpl; [by destruct k|].
  destruct k as [|k]; simpl in *; [lia|]. destruct Hc as (H0 & _ & _ & Hc).
  rewrite (proj2 (Z.eqb_neq x 0) H0), (dbind _ _ _ _ _ (load_cell_run _ _ _ (chain_head _ _ _ Hc))).
  by rewrite (dbind _ _ _ _ _ (IH (c_next x) k Hc ltac:(lia))).
Qed.

(** Every node that [f] selects is taken out while the list is walked. *)
Lemma for_each_safe_run f k : forall ys xs h s p,
  hl_rep h s -> s.1 !! p = Some (xs ++ ys) -> (List.length ys <= k)%nat ->
  exists h' F, hlist_for_each_safe_from k (fun n => if f n : bool then hlist_del n else mret tt) (hd 0 ys) h
      = inr (tt, h') /\
    hl_rep h' (<[p := xs ++ filter (fun n => f n = false) ys]> s.1, F).
Proof.
  induction k as [|k IH]; intros ys xs h s p Hrep Hp Hk.
  { destruct ys; simpl in Hk; [|lia]. exists h, s.2. split; [done|]. rewrite filter_nil.
    rewrite insert_id by done. by destruct s. }
  destruct ys as [|y ys]; simpl in *.
  { exists h, s.2. split; [done|]. rewrite insert_id by done. by destruct s. }
  destruct (rep_chain _ _ Hrep _ _ Hp) as [_ Hc]. destruct (chain_at _ _ _ _ _ Hc) as (H0 & _ & _ & Hq & _).
  rewrite (proj2 (Z.eqb_neq y 0) H0), (dbind _ _ _ _ _ (load_cell_run _ _ _ Hq)).
  rewrite filter_cons. destruct (f y) eqn:Hf.
  - destruct (hop_step (HDel y) s (<[p := xs ++ ys]> s.1, <[y := false]> s.2) h
      ltac:(destruct s; by eapply h_del) Hrep) as (h1 & Hr1 & Hrep1).
    rewrite (dbind _ _ _ _ _ Hr1), decide_False by done.
    destruct (IH ys xs h1 _ p Hrep1) as (h' & F & Hr & Hrep'); [apply lookup_insert_eq|lia|].
    exists h', F. split; [done|]. cbn [fst] in Hrep'. by rewrite insert_insert_eq in Hrep'.
  - rewrite skip_run, decide_True by done.
    destruct (IH ys (xs ++ [y]) h s p Hrep) as (h' & F & Hr & Hrep'); [by rewrite <-app_assoc|lia|].
    exists h', F. split; [done|]. by rewrite <-app_assoc in Hrep'.
Qed.

(** (C22) The hlist operations.  A sequence of operations that makes sense for
    a collection of lists runs without an invalid access and leaves the
    collection it predicts.  Then every list is walked in its order within as
    many steps as it has nodes, [hlist_empty] answers for it, [hlist_unhashed]
    for nodes in a list and for initialised loose ones, and nodes can be
    deleted while a list is walked with [hlist_for_each_safe]. *)
Theorem hlist_ops_refine os s s' h :
  hsteps os s s' -> hl_rep h s ->
  exists h', exec_hops os h = inr (tt, h') /\ hl_rep h' s' /\
    (forall p xs, s'.1 !! p = Some xs ->
      hlist_for_each (List.length xs) p h' = inr (xs, h') /\
      hlist_empty p h' = inr (bool_decide (xs = []), h') /\
      (forall n, n ∈ xs -> hlist_unhashed n h' = inr (false, h')) /\
      forall f, exists h'' F,
        hlist_for_each_safe (List.length xs) (fun n => if f n : bool then hlist_del n else mret tt) p h'
          = inr (tt, h'') /\
        hl_rep h'' (<[p := filter (fun n => f n = false) xs]> s'.1, F)) /\
    (forall n, s'.2 !! n = Some true -> hlist_unhashed n h' = inr (true, h')).
Proof.
  intros Hs. revert h. induction Hs as [s|o os s1 s2 s3 Hs1 Hs IH]; intros h Hrep.
  - exists h. split; [done|]. split; [done|]. split.
    + intros p xs Hp. destruct (rep_chain _ _ Hrep _ _ Hp) as [Hnd Hc].
      pose proof (load_cell_run _ _ _ (chain_head _ _ _ Hc)) as Hl. split; [|split; [|split]].
      * unfold hlist_for_each. rewrite (dbind _ _ _ _ _ Hl). by eapply for_each_run.
      * unfold hlist_empty. rewrite (dbind _ _ _ _ _ Hl). pose proof (chain_nonzero _ _ _ Hc).
        destruct xs as [|x xs]; [done|]. simpl. unfold mret, M_ret.
        rewrite (proj2 (Z.eqb_neq x 0)); [done|set_solver].
      * intros n (xs1 & ys & ->)%list_elem_of_split.
        destruct (chain_at _ _ _ _ _ Hc) as (_ & _ & Hpp & _).
        unfold hlist_unhashed. rewrite (dbind _ _ _ _ _ (load_pprev_run _ _ _ Hpp)).
        rewrite bool_decide_eq_false_2; [done|].
        by destruct (last_cell_case (c_first p) xs1) as [[_ ->]|(? & _ & ->)].
      * intros f. unfold hlist_for_each_safe. rewrite (dbind _ _ _ _ _ Hl).
        by apply (for_each_safe_run f _ xs [] h s p).
    + intros n Hn. destruct (rep_loose _ _ Hrep n true Hn) as (_ & _ & _ & c & Hcn & Hb). rewrite (Hb eq_refl) in Hcn.
      unfold hlist_unhashed. by rewrite (dbind _ _ _ _ _ (load_pprev_run _ _ _ Hcn)).
  - destruct (hop_step o s1 s2 h Hs1 Hrep) as (h1 & Hr1 & Hrep1).
    destruct (IH h1 Hrep1) as (h2 & Hr2 & H). exists h2. split; [|done].
    cbn [exec_hops]. by rewrite (dbind _ _ _ _ _ Hr1).
Qed.

(** Two empty lists at 1 and 2, and the loose nodes 3, 4 and 5. *)
Definition ex_hheap : hheap :=
  mkHHeap (list_to_map [(1, 0); (2, 0)]) (list_to_map [(3, 7); (4, 7); (5, 7)])
    (list_to_map [(3, c_poison); (4, c_poison); (5, c_poison)]).

Lemma ex_hheap_rep :
  hl_rep ex_hheap (list_to_map [(1, []); (2, [])], list_to_map [(3, false); (4, false); (5, false)]).
Proof.
  split; cbn [fst snd].
  - intros p xs Hp%elem_of_list_to_map_2. repeat (apply elem_of_cons in Hp as [[= -> ->]|Hp]);
      [split; [constructor|reflexivity]..|by apply elem_of_nil in Hp].
  - intros p q xs ys n Hp%elem_of_list_to_map_2.
    repeat (apply elem_of_cons in Hp as [[= -> ->]|Hp]); [|by intros _ ?%elem_of_nil..|by apply elem_of_nil in Hp].
    by intros _ ?%elem_of_nil.
  - intros n b Hn%elem_of_list_to_map_2.
    assert (forall p xs, (list_to_map [(1, []); (2, [])] : gmap loc (list loc)) !! p = Some xs -> xs = []) as Hempty.
    { intros p xs Hp%elem_of_list_to_map_2. repeat (apply elem_of_cons in Hp as [[= -> ->]|Hp]);
        [done..|by apply elem_of_nil in Hp]. }
    repeat (apply elem_of_cons in Hn as [[= -> ->]|Hn]); [..|by apply elem_of_nil in Hn];
      (split; [done|]; split; [eexists; reflexivity|]; split;
       [intros p xs ->%Hempty; apply not_elem_of_nil|exists c_poison; by split]).
Qed.

Lemma hlist_ops_refine_witness :
  exists h', exec_hops [HAdd 3 1; HAdd 4 1; HAfter 3 5; HDelInit 4; HBefore 4 3; HDel 3] ex_hheap = inr (tt, h') /\
    hlist_for_each 2 1 h' = inr ([4; 5], h').
Proof.
  edestruct (hlist_ops_refine [HAdd 3 1; HAdd 4 1; HAfter 3 5; HDelInit 4; HBefore 4 3; HDel 3])
    as (h' & Hr & _ & Hobs & _); [|exact ex_hheap_rep|].
  - eapply hs_cons; [by eapply (h_add 3 1 false [])|].
    eapply hs_cons; [by eapply (h_add 4 1 false [3])|].
    eapply hs_cons; [by eapply (h_after 5 1 false [4] 3 [])|].
    eapply hs_cons; [by eapply (h_del_init 4 1 [] [3; 5])|].
    eapply hs_cons; [by eapply (h_before 4 1 true [] 3 [5])|].
    eapply hs_cons; [by eapply (h_del 3 1 [4] [5])|]. apply hs_nil.
  - exists h'. split; [exact Hr|]. by apply (Hobs 1 [4; 5]).
Defined.
