(* ===== verification/RbTree.v ===== *)
(** * Red-black trees: dwarves/rbtree.h and dwarves/rbtree.c

    Nodes are objects of a heap that carry the parent pointer and the colour
    in one word, as the code packs them. *)
From S2P Require Import Prelude.
Local Open Scope list_scope.
Local Open Scope Z_scope.

(** ** Nodes and the heap *)

Definition RB_RED : Z := 0.
Definition RB_BLACK : Z := 1.

Record rb_node := mkNode { rb_parent_color : Z; rb_right : loc; rb_left : loc }.

(** The nodes, and the [rb_node] member of each [rb_root]. *)
Record rbheap := mkRbheap { nodes : gmap loc rb_node; roots : gmap loc loc }.

Definition RM (A : Type) : Type := M rbheap exn A.

Definition null_node : exn := undefined "dereference of an invalid rb_node".

Definition load (p : loc) : RM rb_node := fun h =>
  match nodes h !! p with Some n => inr (n, h) | None => inl null_node end.
Definition store (p : loc) (f : rb_node -> rb_node) : RM unit := fun h =>
  match nodes h !! p with
  | Some n => inr (tt, mkRbheap (<[p := f n]> (nodes h)) (roots h))
  | None => inl null_node
  end.
Definition load_root (r : loc) : RM loc := fun h =>
  match roots h !! r with Some p => inr (p, h) | None => inl null_node end.
Definition store_root (r p : loc) : RM unit := fun h =>
  match roots h !! r with
  | Some _ => inr (tt, mkRbheap (nodes h) (<[r := p]> (roots h)))
  | None => inl null_node
  end.

Definition load_left (p : loc) : RM loc := n ← load p; mret (rb_left n).
Definition load_right (p : loc) : RM loc := n ← load p; mret (rb_right n).
Definition store_left (p q : loc) : RM unit :=
  store p (fun n => mkNode (rb_parent_color n) (rb_right n) q).
Definition store_right (p q : loc) : RM unit :=
  store p (fun n => mkNode (rb_parent_color n) q (rb_left n)).
Definition store_parent_color (p : loc) (f : Z -> Z) : RM unit :=
  store p (fun n => mkNode (f (rb_parent_color n)) (rb_right n) (rb_left n)).

Definition rb_parent (r : loc) : RM loc :=
  n ← load r; mret (Z.land (rb_parent_color n) (Z.lnot 3)).
Definition rb_color (r : loc) : RM Z := n ← load r; mret (Z.land (rb_parent_color n) 1).
Definition rb_is_red (r : loc) : RM bool := c ← rb_color r; mret (c =? 0).
Definition rb_is_black (r : loc) : RM bool := c ← rb_color r; mret (negb (c =? 0)).
Definition rb_set_red (r : loc) : RM unit := store_parent_color r (fun w => Z.land w (Z.lnot 1)).
Definition rb_set_black (r : loc) : RM unit := store_parent_color r (fun w => Z.lor w 1).
Definition rb_set_parent (rb p : loc) : RM unit :=
  store_parent_color rb (fun w => Z.lor (Z.land w 3) p).
Definition rb_set_color (rb : loc) (color : Z) : RM unit :=
  store_parent_color rb (fun w => Z.lor (Z.land w (Z.lnot 1)) color).

Definition RB_EMPTY_ROOT (root : loc) : RM bool := p ← load_root root; mret (p =? 0).
Definition RB_EMPTY_NODE (node : loc) : RM bool := p ← rb_parent node; mret (p =? node).
Definition RB_CLEAR_NODE (node : loc) : RM unit := rb_set_parent node node.

(** Where an [rb_node **] points to. *)
Inductive slot := RootSlot (root : loc) | LeftSlot (p : loc) | RightSlot (p : loc).
Definition load_slot (s : slot) : RM loc :=
  match s with RootSlot r => load_root r | LeftSlot p => load_left p | RightSlot p => load_right p end.
Definition store_slot (s : slot) (q : loc) : RM unit :=
  match s with
  | RootSlot r => store_root r q | LeftSlot p => store_left p q | RightSlot p => store_right p q
  end.

Definition rb_link_node (node parent : loc) (rb_link : slot) : RM unit :=
  store_parent_color node (fun _ => parent);;;
  store_right node 0;;; store_left node 0;;;
  store_slot rb_link node.

(** ** rbtree.c *)

Definition __rb_rotate_left (node root : loc) : RM unit :=
  right ← load_right node; parent ← rb_parent node;
  rl ← load_left right; store_right node rl;;;
  (if rl =? 0 then mret tt else rl' ← load_left right; rb_set_parent rl' node);;;
  store_left right node;;;
  rb_set_parent right parent;;;
  (if parent =? 0 then store_root root right
   else pl ← load_left parent;
        if node =? pl then store_left parent right else store_right parent right);;;
  rb_set_parent node right.

Definition __rb_rotate_right (node root : loc) : RM unit :=
  left ← load_left node; parent ← rb_parent node;
  lr ← load_right left; store_left node lr;;;
  (if lr =? 0 then mret tt else lr' ← load_right left; rb_set_parent lr' node);;;
  store_right left node;;;
  rb_set_parent left parent;;;
  (if parent =? 0 then store_root root left
   else pr ← load_right parent;
        if node =? pr then store_right parent left else store_left parent left);;;
  rb_set_parent node left.

(** [p && rb_is_red(p)] and [!p || rb_is_black(p)] *)
Definition and_red (p : loc) : RM bool := if p =? 0 then mret false else rb_is_red p.
Definition or_black (p : loc) : RM bool := if p =? 0 then mret true else rb_is_black p.

(** The loop of [rb_insert_color]; an iteration takes one unit of fuel. *)
Fixpoint rb_insert_color_loop (n : nat) (node root : loc) : RM unit :=
  parent ← rb_parent node;
  red ← and_red parent;
  if negb red then mret tt else
  match n with
  | O => raise out_of_fuel
  | S n =>
      gparent ← rb_parent parent;
      gl ← load_left gparent;
      if parent =? gl then
        uncle ← load_right gparent;
        ured ← and_red uncle;
        if ured : bool then
          rb_set_black uncle;;; rb_set_black parent;;; rb_set_red gparent;;;
          rb_insert_color_loop n gparent root
        else
          pr ← load_right parent;
          pn ← (if pr =? node then __rb_rotate_left parent root;;; mret (node, parent)
                else mret (parent, node));
          rb_set_black (fst pn);;; rb_set_red gparent;;;
          __rb_rotate_right gparent root;;;
          rb_insert_color_loop n (snd pn) root
      else
        uncle ← load_left gparent;
        ured ← and_red uncle;
        if ured : bool then
          rb_set_black uncle;;; rb_set_black parent;;; rb_set_red gparent;;;
          rb_insert_color_loop n gparent root
        else
          pl ← load_left parent;
          pn ← (if pl =? node then __rb_rotate_right parent root;;; mret (node, parent)
                else mret (parent, node));
          rb_set_black (fst pn);;; rb_set_red gparent;;;
          __rb_rotate_left gparent root;;;
          rb_insert_color_loop n (snd pn) root
  end.

Definition rb_insert_color (n : nat) (node root : loc) : RM unit :=
  rb_insert_color_loop n node root;;;
  top ← load_root root; rb_set_black top.

(** The loop of [__rb_erase_color]; it yields the last value of [node]. *)
Fixpoint __rb_erase_color_loop (n : nat) (node parent root : loc) : RM loc :=
  nb ← or_black node;
  if negb nb then mret node else
  top ← load_root root;
  if node =? top then mret node else
  match n with
  | O => raise out_of_fuel
  | S n =>
      pl ← load_left parent;
      if pl =? node then
        other ← load_right parent;
        ored ← rb_is_red other;
        other ← (if ored : bool then
                   rb_set_black other;;; rb_set_red parent;;;
                   __rb_rotate_left parent root;;; load_right parent
                 else mret other);
        l ← load_left other; lb ← or_black l;
        both ← (if lb : bool then r ← load_right other; or_black r else mret false);
        if both : bool then
          rb_set_red other;;;
          parent' ← rb_parent parent;
          __rb_erase_color_loop n parent parent' root
        else
          r ← load_right other; rb ← or_black r;
          other ← (if rb : bool then
                     l ← load_left other; rb_set_black l;;; rb_set_red other;;;
                     __rb_rotate_right other root;;; load_right parent
                   else mret other);
          c ← rb_color parent; rb_set_color other c;;;
          rb_set_black parent;;;
          r ← load_right other; rb_set_black r;;;
          __rb_rotate_left parent root;;;
          load_root root
      else
        other ← load_left parent;
        ored ← rb_is_red other;
        other ← (if ored : bool then
                   rb_set_black other;;; rb_set_red parent;;;
                   __rb_rotate_right parent root;;; load_left parent
                 else mret other);
        l ← load_left other; lb ← or_black l;
        both ← (if lb : bool then r ← load_right other; or_black r else mret false);
        if both : bool then
          rb_set_red other;;;
          parent' ← rb_parent parent;
          __rb_erase_color_loop n parent parent' root
        else
          l ← load_left other; lb ← or_black l;
          other ← (if lb : bool then
                     r ← load_right other; rb_set_black r;;; rb_set_red other;;;
                     __rb_rotate_left other root;;; load_left parent
                   else mret other);
          c ← rb_color parent; rb_set_color other c;;;
          rb_set_black parent;;;
          l ← load_left other; rb_set_black l;;;
          __rb_rotate_right parent root;;;
          load_root root
  end.

Definition __rb_erase_color (n : nat) (node parent root : loc) : RM unit :=
  node ← __rb_erase_color_loop n node parent root;
  if node =? 0 then mret tt else rb_set_black node.

(** [while ((left = node->rb_left) != NULL) node = left;] *)
Fixpoint leftmost (n : nat) (node : loc) : RM loc :=
  left ← load_left node;
  if left =? 0 then mret node else
  match n with O => raise out_of_fuel | S n => leftmost n left end.
Fixpoint rightmost (n : nat) (node : loc) : RM loc :=
  right ← load_right node;
  if right =? 0 then mret node else
  match n with O => raise out_of_fuel | S n => rightmost n right end.

(** [rb_erase] of a node with at most one child. *)
Definition rb_erase_one (n : nat) (node child root : loc) : RM unit :=
  parent ← rb_parent node;
  color ← rb_color node;
  (if child =? 0 then mret tt else rb_set_parent child parent);;;
  (if parent =? 0 then store_root root child
   else pl ← load_left parent;
        if pl =? node then store_left parent child else store_right parent child);;;
  if color =? RB_BLACK then __rb_erase_color n child parent root else mret tt.

(** [rb_erase] of a node with two children: its successor takes its place. *)
Definition rb_erase_two (n : nat) (old root : loc) : RM unit :=
  first ← load_right old;
  node ← leftmost n first;
  child ← load_right node;
  parent ← rb_parent node;
  color ← rb_color node;
  (if child =? 0 then mret tt else rb_set_parent child parent);;;
  parent ← (if parent =? old then store_right parent child;;; mret node
            else store_left parent child;;; mret parent);
  o ← load old; store_parent_color node (fun _ => rb_parent_color o);;;
  r ← load_right old; store_right node r;;;
  l ← load_left old; store_left node l;;;
  op ← rb_parent old;
  (if op =? 0 then store_root root node
   else opl ← load_left op;
        if opl =? old then op ← rb_parent old; store_left op node
        else op ← rb_parent old; store_right op node);;;
  ol ← load_left old; rb_set_parent ol node;;;
  or ← load_right old;
  (if or =? 0 then mret tt else or ← load_right old; rb_set_parent or node);;;
  if color =? RB_BLACK then __rb_erase_color n child parent root else mret tt.

Definition rb_erase (n : nat) (node root : loc) : RM unit :=
  l ← load_left node;
  if l =? 0 then child ← load_right node; rb_erase_one n node child root
  else
    r ← load_right node;
    if r =? 0 then child ← load_left node; rb_erase_one n node child root
    else rb_erase_two n node root.

Definition rb_first (n : nat) (root : loc) : RM loc :=
  p ← load_root root; if p =? 0 then mret 0 else leftmost n p.
Definition rb_last (n : nat) (root : loc) : RM loc :=
  p ← load_root root; if p =? 0 then mret 0 else rightmost n p.

(** [while ((parent = rb_parent(node)) && node == parent->rb_right) node = parent;] *)
Fixpoint climb_right (n : nat) (node : loc) : RM loc :=
  parent ← rb_parent node;
  if parent =? 0 then mret parent else
  r ← load_right parent;
  if node =? r then match n with O => raise out_of_fuel | S n => climb_right n parent end
  else mret parent.
Fixpoint climb_left (n : nat) (node : loc) : RM loc :=
  parent ← rb_parent node;
  if parent =? 0 then mret parent else
  l ← load_left parent;
  if node =? l then match n with O => raise out_of_fuel | S n => climb_left n parent end
  else mret parent.

Definition rb_next (n : nat) (node : loc) : RM loc :=
  p ← rb_parent node;
  if p =? node then mret 0 else
  r ← load_right node;
  if r =? 0 then climb_right n node else leftmost n r.

Definition rb_prev (n : nat) (node : loc) : RM loc :=
  p ← rb_parent node;
  if p =? node then mret 0 else
  l ← load_left node;
  if l =? 0 then climb_left n node else rightmost n l.

Definition rb_replace_node (victim new root : loc) : RM unit :=
  parent ← rb_parent victim;
  (if parent =? 0 then store_root root new
   else pl ← load_left parent;
        if victim =? pl then store_left parent new else store_right parent new);;;
  l ← load_left victim;
  (if l =? 0 then mret tt else l ← load_left victim; rb_set_parent l new);;;
  r ← load_right victim;
  (if r =? 0 then mret tt else r ← load_right victim; rb_set_parent r new);;;
  v ← load victim; store new (fun _ => v).
