(* ===== verification/RbTreeRep.v ===== *)
(** * Red-black trees on the heap

    Binary search trees, their contexts, and the heap cells they occupy; a
    small program logic over the cells, in which the steps of rbtree.c on a
    node of a tree become steps on the tree. *)
From S2P Require Import Prelude RbTree.
Local Open Scope list_scope.
Local Open Scope Z_scope.

(** ** Trees and contexts *)

Inductive side := Lft | Rgt.
#[export] Instance side_eq_dec : EqDecision side.
Proof. solve_decision. Defined.
Definition opp (d : side) : side := match d with Lft => Rgt | Rgt => Lft end.

(** Trees of nodes; the flag says that the node is black. *)
Inductive tree := E | T (black : bool) (l : tree) (p : loc) (r : tree).

(** A node with the child [a] on side [d] and [b] on the other side. *)
Definition mk (d : side) (c : bool) (p : loc) (a b : tree) : tree :=
  match d with Lft => T c a p b | Rgt => T c b p a end.

(** A step from a node to its child on side [d], with the other child. *)
Record frame := Fr { f_side : side; f_black : bool; f_loc : loc; f_sib : tree }.

(** From the focus up to the root. *)
Fixpoint plug (t : tree) (k : list frame) : tree :=
  match k with [] => t | Fr d c p s :: k => plug (mk d c p t s) k end.

Fixpoint inorder (t : tree) : list loc :=
  match t with E => [] | T _ l p r => inorder l ++ p :: inorder r end.

(** The nodes before and after the focus. *)
Fixpoint before (k : list frame) : list loc :=
  match k with
  | [] => []
  | Fr Lft _ _ _ :: k => before k
  | Fr Rgt _ p s :: k => before k ++ inorder s ++ [p]
  end.
Fixpoint after (k : list frame) : list loc :=
  match k with
  | [] => []
  | Fr Lft _ p s :: k => p :: inorder s ++ after k
  | Fr Rgt _ _ _ :: k => after k
  end.

Lemma inorder_plug t k : inorder (plug t k) = before k ++ inorder t ++ after k.
Proof.
  revert t. induction k as [|[[] c p s] k IH]; intros t; simpl;
    [by rewrite app_nil_r| |]; rewrite IH; simpl; by rewrite <- ?app_assoc.
Qed.

(** ** Cells *)

Definition rootp (t : tree) : loc := match t with E => 0 | T _ _ p _ => p end.
Definition cpar (k : list frame) : loc := match k with [] => 0 | f :: _ => f_loc f end.

Definition cell : Type := loc * rb_node.

(** The word that packs the parent pointer and the colour. *)
Definition word (par : loc) (c : bool) : Z := par + (if c then 1 else 0).

(** A node whose child on side [d] is [a]. *)
Definition nd (d : side) (par : loc) (c : bool) (a b : loc) : rb_node :=
  match d with Lft => mkNode (word par c) b a | Rgt => mkNode (word par c) a b end.

Fixpoint cells (par : loc) (t : tree) : list cell :=
  match t with
  | E => []
  | T c l p r => (p, nd Lft par c (rootp l) (rootp r)) :: cells p l ++ cells p r
  end.

Fixpoint ccells (q : loc) (k : list frame) : list cell :=
  match k with
  | [] => []
  | Fr d c p s :: k => (p, nd d (cpar k) c q (rootp s)) :: cells p s ++ ccells p k
  end.

Lemma rootp_mk d c p a b : rootp (mk d c p a b) = p.
Proof. by destruct d. Qed.

Lemma cells_mk par d c p a b :
  cells par (mk d c p a b) ≡ₚ (p, nd d par c (rootp a) (rootp b)) :: cells p a ++ cells p b.
Proof. destruct d; simpl; [done|]. by rewrite (Permutation_app_comm (cells p b)). Qed.

Lemma cells_plug t k : cells 0 (plug t k) ≡ₚ cells (cpar k) t ++ ccells (rootp t) k.
Proof.
  revert t. induction k as [|[d c p s] k IH]; intros t; simpl; [by rewrite app_nil_r|].
  rewrite IH, cells_mk, rootp_mk. solve_Permutation.
Qed.

Lemma cells_locs par t : (cells par t).*1 ≡ₚ inorder t.
Proof.
  revert par. induction t as [|c l IHl p r IHr]; intros par; [done|]. cbn [cells inorder].
  rewrite fmap_cons, fmap_app. rewrite (IHl p), (IHr p). solve_Permutation.
Qed.

(** ** The cells a heap holds *)

Definition valid (p : loc) : Prop := 0 < p /\ p mod 4 = 0.

Definition own (h : rbheap) (L : list cell) : Prop :=
  NoDup L.*1 /\ forall p n, (p, n) ∈ L -> nodes h !! p = Some n /\ valid p.

#[export] Instance own_proper h : Proper ((≡ₚ) ==> iff) (own h).
Proof.
  intros L1 L2 HL. unfold own. rewrite HL. split; intros [? H]; split; try done; intros p n Hp;
    apply H; by rewrite ?HL in *; rewrite <- ?HL in *.
Qed.

(** The cell of [p] in a list of cells, and the rest. *)
Class FindCell (p : loc) (L : list cell) (n : rb_node) (R : list cell) : Prop :=
  find_cell : L ≡ₚ (p, n) :: R.
#[export] Hint Mode FindCell + + - - : typeclass_instances.
#[export] Instance find_here p n R : FindCell p ((p, n) :: R) n R | 0.
Proof. unfold FindCell. reflexivity. Qed.
#[export] Instance find_cons p c L n R : FindCell p L n R -> FindCell p (c :: L) n (c :: R) | 10.
Proof. unfold FindCell. intros ->. solve_Permutation. Qed.
#[export] Instance find_app_l p L1 L2 n R : FindCell p L1 n R -> FindCell p (L1 ++ L2) n (R ++ L2) | 11.
Proof. unfold FindCell. by intros ->. Qed.
#[export] Instance find_app_r p L1 L2 n R : FindCell p L2 n R -> FindCell p (L1 ++ L2) n (L1 ++ R) | 12.
Proof. unfold FindCell. intros ->. solve_Permutation. Qed.

Lemma own_find h L p n R : own h L -> FindCell p L n R ->
  nodes h !! p = Some n /\ valid p /\ forall q m, (q, m) ∈ R -> q <> p.
Proof.
  intros Ho Hf. rewrite Hf in Ho. destruct Ho as [Hnd Ho].
  destruct (Ho p n) as [? ?]; [by left|]. split; [done|]. split; [done|].
  intros q m Hq ->. rewrite fmap_cons in Hnd. apply NoDup_cons in Hnd as [Hp _].
  apply Hp. apply list_elem_of_fmap. by exists (p, m).
Qed.

(** ** Runs *)

(** The run succeeds with a value and a heap that satisfy [Q]. *)
Definition wp {A} (c : RM A) (h : rbheap) (Q : A -> rbheap -> Prop) : Prop :=
  match c h with inr (a, h') => Q a h' | inl _ => False end.

Lemma rwp_bind {A B} (c : RM A) (k : A -> RM B) h Q :
  wp c h (fun a h' => wp (k a) h' Q) -> wp (c ≫= k) h Q.
Proof. unfold wp, mbind, M_bind. by destruct (c h) as [|[a h']]. Qed.

Lemma wp_bind_inv {A B} (c : RM A) (k : A -> RM B) h Q :
  wp (c ≫= k) h Q -> wp c h (fun a h' => wp (k a) h' Q).
Proof. unfold wp, mbind, M_bind. by destruct (c h) as [|[a h']]. Qed.

Lemma rwp_ret {A} (a : A) h Q : Q a h -> wp (mret a) h Q.
Proof. done. Qed.

Lemma rwp_mono {A} (c : RM A) h (Q1 Q2 : A -> rbheap -> Prop) :
  wp c h Q1 -> (forall a h', Q1 a h' -> Q2 a h') -> wp c h Q2.
Proof. unfold wp. destruct (c h) as [|[a h']]; auto. Qed.

Lemma wp_elim {A} (c : RM A) h Q : wp c h Q -> exists a h', c h = inr (a, h') /\ Q a h'.
Proof. unfold wp. destruct (c h) as [|[a h']]; [done|eauto]. Qed.

(** [h] holds the cells [L], and its roots are [rs]. *)
Definition holds (rs : gmap loc loc) (L : list cell) (h : rbheap) : Prop :=
  roots h = rs /\ own h L.

#[export] Instance holds_proper : Proper ((=) ==> (≡ₚ) ==> (=) ==> iff) holds.
Proof. intros ? rs -> L1 L2 HL ? h ->. unfold holds. by rewrite HL. Qed.

Lemma rwp_load rs L p n R h Q :
  holds rs L h -> FindCell p L n R -> Q n h -> wp (load p) h Q.
Proof. intros [_ Ho] Hf HQ. unfold wp, load. by rewrite (proj1 (own_find _ _ _ _ _ Ho Hf)). Qed.

Lemma wp_store rs L p n R f h Q :
  holds rs L h -> FindCell p L n R ->
  (forall h', holds rs ((p, f n) :: R) h' -> Q tt h') -> wp (store p f) h Q.
Proof.
  intros [Hr Ho] Hf HQ. pose proof (own_find _ _ _ _ _ Ho Hf) as (Hp & Hv & Hne).
  unfold wp, store. rewrite Hp. apply HQ. split; [done|]. rewrite Hf in Ho.
  destruct Ho as [Hnd Ho]. split; [exact Hnd|]. simpl.
  intros q m [E | Hq]%elem_of_cons.
  - injection E as -> ->. by rewrite lookup_insert_eq.
  - rewrite lookup_insert_ne by (intros <-; by eapply Hne). apply Ho. by right.
Qed.

Lemma wp_load_root rs L r p h Q :
  holds rs L h -> rs !! r = Some p -> Q p h -> wp (load_root r) h Q.
Proof. intros [<- _] Hr HQ. unfold wp, load_root. by rewrite Hr. Qed.

Lemma wp_store_root rs L r q h Q :
  holds rs L h -> is_Some (rs !! r) ->
  (forall h', holds (<[r := q]> rs) L h' -> Q tt h') -> wp (store_root r q) h Q.
Proof.
  intros [<- Ho] [p Hr] HQ. unfold wp, store_root. rewrite Hr. apply HQ. by split.
Qed.

(** ** The packed word *)

Lemma land_lnot3 w : Z.land w (Z.lnot 3) = w - w mod 4.
Proof.
  rewrite <- Z.ldiff_land. change 3 with (Z.ones 2). rewrite Z.ldiff_ones_r by lia.
  rewrite Z.shiftl_mul_pow2, Z.shiftr_div_pow2 by lia. change (2 ^ 2) with 4.
  pose proof (Z.div_mod w 4). lia.
Qed.

Lemma land_lnot1 w : Z.land w (Z.lnot 1) = w - w mod 2.
Proof.
  rewrite <- Z.ldiff_land. change 1 with (Z.ones 1) at 1. rewrite Z.ldiff_ones_r by lia.
  rewrite Z.shiftl_mul_pow2, Z.shiftr_div_pow2 by lia. change (2 ^ 1) with 2.
  pose proof (Z.div_mod w 2). lia.
Qed.

Lemma lor_low w b k : w mod 2 ^ k = 0 -> 0 <= b < 2 ^ k -> 0 <= k -> Z.lor w b = w + b.
Proof.
  intros Hw Hb Hk. assert (Z.land w b = 0) as H0.
  { apply Z.bits_inj'. intros i Hi. rewrite Z.land_spec, Z.bits_0.
    destruct (decide (i < k)).
    - rewrite <- (Z.mod_pow2_bits_low w k) by lia. by rewrite Hw, Z.bits_0.
    - rewrite andb_false_iff. right.
      destruct (decide (b = 0)) as [-> |]; [apply Z.bits_0|].
      apply Z.bits_above_log2; [lia|]. apply Z.log2_lt_pow2; [lia|].
      eapply Z.lt_le_trans; [apply Hb|]. apply Z.pow_le_mono_r; lia. }
  pose proof (Z.add_lor_land w b). lia.
Qed.

Definition aligned (p : loc) : Prop := 0 <= p /\ p mod 4 = 0.

Lemma word_mod4 par c : aligned par -> word par c mod 4 = if c then 1 else 0.
Proof. intros [? ?]. unfold word. rewrite Z.add_mod, H0 by lia. by destruct c. Qed.

Lemma word_parent par c : aligned par -> Z.land (word par c) (Z.lnot 3) = par.
Proof. intros H. rewrite land_lnot3, word_mod4 by done. unfold word. destruct c; lia. Qed.

Lemma word_color par c : aligned par -> Z.land (word par c) 1 = if c then 1 else 0.
Proof.
  intros H. change 1 with (Z.ones 1) at 1. rewrite Z.land_ones by lia. change (2 ^ 1) with 2.
  pose proof (word_mod4 par c H). destruct H. unfold word in *.
  destruct c; Z.to_euclidean_division_equations; lia.
Qed.

Lemma aligned_lor par c : aligned par -> Z.lor par (if c : bool then 1 else 0) = word par c.
Proof.
  intros [H1 H2]. unfold word. apply (lor_low _ _ 2); [done| |lia]. destruct c; lia.
Qed.

Lemma word_set_red par c : aligned par -> Z.land (word par c) (Z.lnot 1) = word par false.
Proof.
  intros H. rewrite land_lnot1. pose proof (word_mod4 par c H). destruct H.
  unfold word in *. destruct c; Z.to_euclidean_division_equations; lia.
Qed.

Lemma word_set_black par c : aligned par -> Z.lor (word par c) 1 = word par true.
Proof.
  intros H. rewrite <- (aligned_lor par c H), <- (aligned_lor par true H), <- Z.lor_assoc.
  f_equal. by destruct c.
Qed.

Lemma word_set_color par c c' : aligned par ->
  Z.lor (Z.land (word par c) (Z.lnot 1)) (if c' : bool then 1 else 0) = word par c'.
Proof.
  intros H. rewrite word_set_red by done. rewrite <- (aligned_lor par false H).
  rewrite Z.lor_0_r. by apply aligned_lor.
Qed.

Lemma word_set_parent par c q : aligned par -> aligned q ->
  Z.lor (Z.land (word par c) 3) q = word q c.
Proof.
  intros Hp Hq. change 3 with (Z.ones 2). rewrite Z.land_ones by lia. change (2 ^ 2) with 4.
  rewrite word_mod4, Z.lor_comm by done. by apply aligned_lor.
Qed.

(** ** The accesses of rbtree.c *)

Definition load_child (d : side) : loc -> RM loc :=
  match d with Lft => load_left | Rgt => load_right end.
Definition store_child (d : side) : loc -> loc -> RM unit :=
  match d with Lft => store_left | Rgt => store_right end.

Section Access.
Context (rs : gmap loc loc) (L : list cell) (p : loc) (d : side) (par : loc) (c : bool)
  (a b : loc) (R : list cell) (h : rbheap).
Hypothesis Hh : holds rs L h.
Hypothesis Hf : FindCell p L (nd d par c a b) R.

Lemma wp_child (Q : loc -> rbheap -> Prop) : Q a h -> wp (load_child d p) h Q.
Proof.
  intros HQ. destruct d; (eapply rwp_bind, rwp_load; [exact Hh|exact Hf|]); exact HQ.
Qed.
Lemma wp_child_opp (Q : loc -> rbheap -> Prop) : Q b h -> wp (load_child (opp d) p) h Q.
Proof.
  intros HQ. destruct d; (eapply rwp_bind, rwp_load; [exact Hh|exact Hf|]); exact HQ.
Qed.
Lemma wp_store_child q (Q : unit -> rbheap -> Prop) :
  (forall h', holds rs ((p, nd d par c q b) :: R) h' -> Q tt h') -> wp (store_child d p q) h Q.
Proof. intros HQ. destruct d; (eapply wp_store; [exact Hh|exact Hf|]); exact HQ. Qed.
Lemma wp_store_child_opp q (Q : unit -> rbheap -> Prop) :
  (forall h', holds rs ((p, nd d par c a q) :: R) h' -> Q tt h') ->
  wp (store_child (opp d) p q) h Q.
Proof. intros HQ. destruct d; (eapply wp_store; [exact Hh|exact Hf|]); exact HQ. Qed.

Lemma nd_word : rb_parent_color (nd d par c a b) = word par c.
Proof. by destruct d. Qed.
Lemma nd_set_word par' c' :
  mkNode (word par' c') (rb_right (nd d par c a b)) (rb_left (nd d par c a b))
  = nd d par' c' a b.
Proof. by destruct d. Qed.

Hypothesis Ha : aligned par.

Lemma wp_parent (Q : loc -> rbheap -> Prop) : Q par h -> wp (rb_parent p) h Q.
Proof.
  intros HQ. eapply rwp_bind, rwp_load; [exact Hh|exact Hf|]. apply rwp_ret.
  by rewrite nd_word, word_parent.
Qed.
Lemma wp_color (Q : Z -> rbheap -> Prop) : Q (if c then 1 else 0) h -> wp (rb_color p) h Q.
Proof.
  intros HQ. eapply rwp_bind, rwp_load; [exact Hh|exact Hf|]. apply rwp_ret.
  by rewrite nd_word, word_color.
Qed.
Lemma wp_is_red (Q : bool -> rbheap -> Prop) : Q (negb c) h -> wp (rb_is_red p) h Q.
Proof. intros HQ. apply rwp_bind, wp_color, rwp_ret. by destruct c. Qed.
Lemma wp_is_black (Q : bool -> rbheap -> Prop) : Q c h -> wp (rb_is_black p) h Q.
Proof. intros HQ. apply rwp_bind, wp_color, rwp_ret. by destruct c. Qed.

Lemma wp_store_word f par' c' (Q : unit -> rbheap -> Prop) :
  f (word par c) = word par' c' ->
  (forall h', holds rs ((p, nd d par' c' a b) :: R) h' -> Q tt h') ->
  wp (store_parent_color p f) h Q.
Proof.
  intros E HQ. eapply wp_store; [exact Hh|exact Hf|]. by rewrite nd_word, E, nd_set_word.
Qed.
Lemma wp_set_red (Q : unit -> rbheap -> Prop) :
  (forall h', holds rs ((p, nd d par false a b) :: R) h' -> Q tt h') -> wp (rb_set_red p) h Q.
Proof. apply wp_store_word. by apply word_set_red. Qed.
Lemma wp_set_black (Q : unit -> rbheap -> Prop) :
  (forall h', holds rs ((p, nd d par true a b) :: R) h' -> Q tt h') -> wp (rb_set_black p) h Q.
Proof. apply wp_store_word. by apply word_set_black. Qed.
Lemma wp_set_color (c' : bool) (Q : unit -> rbheap -> Prop) :
  (forall h', holds rs ((p, nd d par c' a b) :: R) h' -> Q tt h') ->
  wp (rb_set_color p (if c' then 1 else 0)) h Q.
Proof. apply wp_store_word. by apply word_set_color. Qed.
Lemma wp_set_parent q (Q : unit -> rbheap -> Prop) : aligned q ->
  (forall h', holds rs ((p, nd d q c a b) :: R) h' -> Q tt h') -> wp (rb_set_parent p q) h Q.
Proof. intros Hq. apply wp_store_word. by apply word_set_parent. Qed.

End Access.

(** ** A tree on the heap *)

(** The tree [t] is rooted at [root]; the heap holds other cells [F] and roots. *)
Definition tree_at (rs : gmap loc loc) (root : loc) (t : tree) (F : list cell) (h : rbheap) : Prop :=
  holds (<[root := rootp t]> rs) (cells 0 t ++ F) h.

Lemma tree_at_plug rs root t k F h :
  tree_at rs root (plug t k) F h <->
  holds (<[root := rootp (plug t k)]> rs) (cells (cpar k) t ++ ccells (rootp t) k ++ F) h.
Proof. unfold tree_at. by rewrite cells_plug, <- app_assoc. Qed.

Lemma holds_valid rs L h p n R : holds rs L h -> FindCell p L n R -> valid p.
Proof. intros [_ Ho] Hf. by apply (own_find _ _ _ _ _ Ho Hf). Qed.

Lemma valid_aligned p : valid p -> aligned p.
Proof. intros [? ?]. split; [lia|done]. Qed.
Lemma valid_neq0 p : valid p -> (p =? 0) = false.
Proof. intros [? ?]. apply Z.eqb_neq. lia. Qed.

Lemma cpar_aligned rs A q k F h : holds rs (A ++ ccells q k ++ F) h -> aligned (cpar k).
Proof.
  destruct k as [|[d c p s] k]; [intros _; by split|]. intros Hh. simpl in *.
  eapply valid_aligned, holds_valid; [exact Hh|]. apply _.
Qed.

(** Two different cells. *)
Lemma holds_neq rs L h p n R q m R' :
  holds rs L h -> FindCell p L n R -> FindCell q R m R' -> (p =? q) = false.
Proof.
  intros [_ Ho] Hf Hf'. pose proof (own_find _ _ _ _ _ Ho Hf) as (_ & _ & Hne).
  apply Z.eqb_neq. intros ->. apply (Hne q m); [rewrite Hf'; by left|done].
Qed.

Lemma holds_neq_root rs L h p n R par s R' :
  holds rs L h -> FindCell p L n R -> R ≡ₚ cells par s ++ R' -> (p =? rootp s) = false.
Proof.
  intros Hh Hf HR. destruct s as [|c l q r].
  - by eapply valid_neq0, holds_valid.
  - eapply (holds_neq rs L h p n R q _ (cells q l ++ cells q r ++ R')); [done|done|].
    unfold FindCell. rewrite HR. simpl. by rewrite <- app_assoc.
Qed.

Lemma holds_perm rs L L' h : holds rs L h -> L ≡ₚ L' -> holds rs L' h.
Proof. intros Hh HL. by rewrite <- HL. Qed.

(** The root above a focus whose address is [q]. *)
Fixpoint ptop (q : loc) (k : list frame) : loc :=
  match k with [] => q | f :: k => ptop (f_loc f) k end.

Lemma rootp_plug t k : rootp (plug t k) = ptop (rootp t) k.
Proof. revert t. induction k as [|[d c p s] k IH]; intros t; simpl; [done|]. by rewrite IH, rootp_mk. Qed.

(** The context [k] around a focus at [q], whose cells are [A]. *)
Definition zip_at (rs : gmap loc loc) (root : loc) (A : list cell) (q : loc) (k : list frame)
    (F : list cell) (h : rbheap) : Prop :=
  holds (<[root := ptop q k]> rs) (A ++ ccells q k ++ F) h.

Lemma tree_at_zip rs root t k F h :
  tree_at rs root (plug t k) F h <-> zip_at rs root (cells (cpar k) t) (rootp t) k F h.
Proof. rewrite tree_at_plug, rootp_plug. done. Qed.

(** The parent's pointer to [x], or the root, is redirected to [y]. *)
Definition relink (d : side) (parent x y root : loc) : RM unit :=
  if parent =? 0 then store_root root y
  else pl ← load_child d parent;
       if x =? pl then store_child d parent y else store_child (opp d) parent y.

Ltac run_bind := apply rwp_bind.
Ltac cell_rule lem := eapply lem; [eassumption|apply _|..].

Lemma wp_relink rs root d A x n R y k F h Q :
  zip_at rs root A x k F h -> FindCell x A n R ->
  (forall h', zip_at rs root A y k F h' -> Q tt h') -> wp (relink d (cpar k) x y root) h Q.
Proof.
  intros Hh Hx HQ. unfold relink. destruct k as [|[d' cp p s] k]; unfold zip_at in *; simpl in *.
  - eapply wp_store_root; [exact Hh|rewrite lookup_insert_eq; eauto|]. intros h'.
    rewrite insert_insert_eq. apply HQ.
  - rewrite (valid_neq0 p) by (eapply holds_valid; [exact Hh|apply _]).
    assert (Hne : (x =? rootp s) = false).
    { eapply (holds_neq_root _ _ _ _ _ _ p s); [exact Hh|apply _|].
      instantiate (1 := R ++ (p, nd d' (cpar k) cp x (rootp s)) :: ccells p k ++ F). solve_Permutation. }
    run_bind. assert (Hend : forall h' d2,
      holds (<[root:=ptop p k]> rs)
        ((p, nd d' (cpar k) cp y (rootp s)) :: A ++ (cells p s ++ ccells p k) ++ F) h' -> d2 = tt ->
      Q d2 h').
    { intros h' [] Hh' _. apply HQ. eapply holds_perm; [exact Hh'|]. solve_Permutation. }
    destruct d, d'; simpl.
    + eapply (wp_child _ _ p Lft); [exact Hh|apply _|]. rewrite Z.eqb_refl.
      eapply (wp_store_child _ _ p Lft); [exact Hh|apply _|]. intros h' Hh'. by eapply Hend.
    + eapply (wp_child_opp _ _ p Rgt); [exact Hh|apply _|]. rewrite Hne.
      eapply (wp_store_child _ _ p Rgt); [exact Hh|apply _|]. intros h' Hh'. by eapply Hend.
    + eapply (wp_child_opp _ _ p Lft); [exact Hh|apply _|]. rewrite Hne.
      eapply (wp_store_child _ _ p Lft); [exact Hh|apply _|]. intros h' Hh'. by eapply Hend.
    + eapply (wp_child _ _ p Rgt); [exact Hh|apply _|]. rewrite Z.eqb_refl.
      eapply (wp_store_child _ _ p Rgt); [exact Hh|apply _|]. intros h' Hh'. by eapply Hend.
Qed.

Definition rotate (d : side) : loc -> loc -> RM unit :=
  match d with Lft => __rb_rotate_left | Rgt => __rb_rotate_right end.

Lemma rotate_unfold d node root : rotate d node root =
  (right ← load_child (opp d) node; parent ← rb_parent node;
   rl ← load_child d right; store_child (opp d) node rl;;;
   (if rl =? 0 then mret tt else rl' ← load_child d right; rb_set_parent rl' node);;;
   store_child d right node;;; rb_set_parent right parent;;;
   relink d parent node right root;;; rb_set_parent node right).
Proof. by destruct d. Qed.

(** The child on side [d'] gets a new parent, if there is one. *)
Lemma wp_adopt rs L x b q R h Q {c : RM loc} :
  holds rs L h -> L ≡ₚ cells x b ++ R -> aligned x -> aligned q ->
  (forall Q' h', h' = h -> Q' (rootp b) h -> wp c h' Q') ->
  (forall h', holds rs (cells q b ++ R) h' -> Q tt h') ->
  wp (if rootp b =? 0 then mret tt else b' ← c; rb_set_parent b' q) h Q.
Proof.
  intros Hh HL Hx Hq Hc HQ. rewrite HL in Hh. destruct b as [|cb l p r]; simpl.
  - apply rwp_ret. by apply HQ.
  - simpl in Hh. rewrite (valid_neq0 p) by (eapply holds_valid; [exact Hh|apply _]).
    run_bind. apply Hc; [done|].
    eapply (wp_set_parent _ _ p Lft); [exact Hh|apply _|done|done|]. intros h' Hh'.
    by apply HQ.
Qed.

Lemma wp_rotate rs root d c x a c2 y b e k F h Q :
  tree_at rs root (plug (mk d c x a (mk d c2 y b e)) k) F h ->
  (forall h', tree_at rs root (plug (mk d c2 y (mk d c x a b) e) k) F h' -> Q tt h') ->
  wp (rotate d x root) h Q.
Proof.
  intros Hh HQ. rewrite tree_at_zip in Hh. unfold zip_at in Hh.
  rewrite !cells_mk, !rootp_mk in Hh. rewrite rotate_unfold.
  assert (Hk : aligned (cpar k)) by (eapply cpar_aligned; exact Hh).
  assert (Hx : aligned x) by (eapply valid_aligned, holds_valid; [exact Hh|apply _]).
  assert (Hy : aligned y) by (eapply valid_aligned, holds_valid; [exact Hh|apply _]).
  run_bind. eapply (wp_child_opp _ _ x d); [exact Hh|apply _|].
  run_bind. eapply (wp_parent _ _ x d); [exact Hh|apply _|done|].
  run_bind. eapply (wp_child _ _ y d); [exact Hh|apply _|].
  run_bind. eapply (wp_store_child_opp _ _ x d); [exact Hh|apply _|]. intros h1 Hh1.
  run_bind. eapply (wp_adopt _ _ y b x); [exact Hh1| |done|done|..].
  { instantiate (1 := (x, nd d (cpar k) c (rootp a) (rootp b)) :: (y, nd d x c2 (rootp b) (rootp e))
       :: cells x a ++ cells y e ++ ccells x k ++ F). solve_Permutation. }
  { intros Q' h' -> HQ'. eapply (wp_child _ _ y d); [exact Hh1|apply _|done]. }
  intros h2 Hh2. run_bind. eapply (wp_store_child _ _ y d); [exact Hh2|apply _|]. intros h3 Hh3.
  run_bind. eapply (wp_set_parent _ _ y d); [exact Hh3|apply _|done|done|]. intros h4 Hh4.
  run_bind. eapply (wp_relink rs root d
    ((y, nd d (cpar k) c2 x (rootp e)) :: (x, nd d (cpar k) c (rootp a) (rootp b))
       :: cells x a ++ cells x b ++ cells y e) x _ _ y k F).
  { eapply holds_perm; [exact Hh4|]. solve_Permutation. }
  { apply _. }
  intros h5 Hh5. eapply (wp_set_parent _ _ x d); [exact Hh5|apply _|done|done|]. intros h6 Hh6.
  apply HQ. rewrite tree_at_zip. unfold zip_at. rewrite !cells_mk, !rootp_mk.
  eapply holds_perm; [exact Hh6|]. solve_Permutation.
Qed.

(** ** The accesses at a node of a tree *)

Section TreeAccess.
Context (rs : gmap loc loc) (root : loc) (d : side) (c : bool) (p : loc) (a b : tree)
  (k : list frame) (F : list cell) (h : rbheap).
Hypothesis Hh : tree_at rs root (plug (mk d c p a b) k) F h.

Lemma tree_node : holds (<[root := ptop p k]> rs)
  (((p, nd d (cpar k) c (rootp a) (rootp b)) :: cells p a ++ cells p b) ++ ccells p k ++ F) h.
Proof.
  apply tree_at_zip in Hh. unfold zip_at in Hh. by rewrite cells_mk, rootp_mk in Hh.
Qed.
Lemma tree_valid : valid p.
Proof. eapply holds_valid; [exact tree_node|apply _]. Qed.
Lemma tree_cpar : aligned (cpar k).
Proof. eapply cpar_aligned. exact tree_node. Qed.

Lemma tree_node_back c' h' :
  holds (<[root := ptop p k]> rs)
    ((p, nd d (cpar k) c' (rootp a) (rootp b))
       :: (cells p a ++ cells p b) ++ ccells p k ++ F) h' ->
  tree_at rs root (plug (mk d c' p a b) k) F h'.
Proof. intros H. rewrite tree_at_zip. unfold zip_at. by rewrite cells_mk, rootp_mk. Qed.

Lemma tree_child (Q : loc -> rbheap -> Prop) : Q (rootp a) h -> wp (load_child d p) h Q.
Proof. eapply wp_child; [exact tree_node|apply _]. Qed.
Lemma tree_child_opp (Q : loc -> rbheap -> Prop) : Q (rootp b) h -> wp (load_child (opp d) p) h Q.
Proof. eapply wp_child_opp; [exact tree_node|apply _]. Qed.
Lemma tree_parent (Q : loc -> rbheap -> Prop) : Q (cpar k) h -> wp (rb_parent p) h Q.
Proof. eapply wp_parent; [exact tree_node|apply _|exact tree_cpar]. Qed.
Lemma tree_color (Q : Z -> rbheap -> Prop) : Q (if c then 1 else 0) h -> wp (rb_color p) h Q.
Proof. eapply wp_color; [exact tree_node|apply _|exact tree_cpar]. Qed.
Lemma tree_is_red (Q : bool -> rbheap -> Prop) : Q (negb c) h -> wp (rb_is_red p) h Q.
Proof. eapply wp_is_red; [exact tree_node|apply _|exact tree_cpar]. Qed.
Lemma tree_is_black (Q : bool -> rbheap -> Prop) : Q c h -> wp (rb_is_black p) h Q.
Proof. eapply wp_is_black; [exact tree_node|apply _|exact tree_cpar]. Qed.
Lemma tree_set_red (Q : unit -> rbheap -> Prop) :
  (forall h', tree_at rs root (plug (mk d false p a b) k) F h' -> Q tt h') ->
  wp (rb_set_red p) h Q.
Proof.
  intros HQ. eapply wp_set_red; [exact tree_node|apply _|exact tree_cpar|].
  intros h' Hh'. by apply HQ, tree_node_back.
Qed.
Lemma tree_set_black (Q : unit -> rbheap -> Prop) :
  (forall h', tree_at rs root (plug (mk d true p a b) k) F h' -> Q tt h') ->
  wp (rb_set_black p) h Q.
Proof.
  intros HQ. eapply wp_set_black; [exact tree_node|apply _|exact tree_cpar|].
  intros h' Hh'. by apply HQ, tree_node_back.
Qed.
Lemma tree_set_color (c' : bool) (Q : unit -> rbheap -> Prop) :
  (forall h', tree_at rs root (plug (mk d c' p a b) k) F h' -> Q tt h') ->
  wp (rb_set_color p (if c' then 1 else 0)) h Q.
Proof.
  intros HQ. eapply wp_set_color; [exact tree_node|apply _|exact tree_cpar|].
  intros h' Hh'. by apply HQ, tree_node_back.
Qed.
End TreeAccess.

Lemma tree_load_root rs root t F h (Q : loc -> rbheap -> Prop) :
  tree_at rs root t F h -> Q (rootp t) h -> wp (load_root root) h Q.
Proof. intros Hh. eapply wp_load_root; [exact Hh|]. by rewrite lookup_insert_eq. Qed.

Definition is_black_tree (t : tree) : bool := match t with E => true | T c _ _ _ => c end.

(** [p && rb_is_red(p)] and [!p || rb_is_black(p)] at the root of a subtree. *)
Lemma tree_and_red rs root t k F h (Q : bool -> rbheap -> Prop) :
  tree_at rs root (plug t k) F h -> Q (negb (is_black_tree t)) h -> wp (and_red (rootp t)) h Q.
Proof.
  intros Hh HQ. destruct t as [|c l p r]; [by apply rwp_ret|]. unfold and_red. simpl rootp.
  rewrite (valid_neq0 p) by exact (tree_valid rs root Lft c p l r k F h Hh).
  by apply (tree_is_red rs root Lft c p l r k F h Hh).
Qed.
Lemma tree_or_black rs root t k F h (Q : bool -> rbheap -> Prop) :
  tree_at rs root (plug t k) F h -> Q (is_black_tree t) h -> wp (or_black (rootp t)) h Q.
Proof.
  intros Hh HQ. destruct t as [|c l p r]; [by apply rwp_ret|]. unfold or_black. simpl rootp.
  rewrite (valid_neq0 p) by exact (tree_valid rs root Lft c p l r k F h Hh).
  by apply (tree_is_black rs root Lft c p l r k F h Hh).
Qed.

(** The child of a node is not its other child. *)
Lemma tree_child_neq rs root d c p s e c' x l r k F h :
  tree_at rs root (plug (mk d c p (mk e c' x l r) s) k) F h -> (x =? rootp s) = false.
Proof.
  intros Hh. apply tree_node in Hh. rewrite cells_mk, rootp_mk in Hh.
  eapply (holds_neq_root _ _ _ x _ _ p s); [exact Hh|apply _|].
  instantiate (1 := (p, nd d (cpar k) c x (rootp s)) :: cells x l ++ cells x r ++ ccells p k ++ F).
  solve_Permutation.
Qed.

(** ** Heaps made from trees *)

Definition heap_of (root : loc) (t : tree) (F : list cell) : rbheap :=
  mkRbheap (list_to_map (cells 0 t ++ F)) {[ root := rootp t ]}.

Lemma heap_of_tree_at root t F :
  NoDup (cells 0 t ++ F).*1 -> Forall (fun c => 0 < c.1 /\ c.1 mod 4 = 0) (cells 0 t ++ F) ->
  tree_at ∅ root t F (heap_of root t F).
Proof.
  intros Hnd Hv. split; [done|]. split; [done|]. intros p n Hp. split.
  - by apply elem_of_list_to_map.
  - rewrite Forall_forall in Hv. exact (Hv _ Hp).
Qed.

(** ** Allocating and freeing a cell outside the tree *)

Lemma tree_at_alloc rs root t F h p n :
  tree_at rs root t F h -> nodes h !! p = None -> valid p ->
  tree_at rs root t ((p, n) :: F) (mkRbheap (<[p := n]> (nodes h)) (roots h)).
Proof.
  intros [Hr [Hnd Ho]] Hp Hv. split; [done|].
  assert (Hperm : cells 0 t ++ (p, n) :: F ≡ₚ (p, n) :: cells 0 t ++ F) by solve_Permutation.
  rewrite Hperm. split.
  - rewrite fmap_cons. apply NoDup_cons. split; [|done]. intros ([p' n'] & Hpc & Hin)%list_elem_of_fmap.
    destruct (Ho p' n' Hin). simpl in Hpc. congruence.
  - intros p' n' [[= -> ->] | Hin]%elem_of_cons; simpl.
    + by rewrite lookup_insert_eq.
    + destruct (Ho p' n' Hin) as [Hl ?]. rewrite lookup_insert_ne; [done|congruence].
Qed.

Lemma tree_at_free rs root t F h p n :
  tree_at rs root t ((p, n) :: F) h ->
  tree_at rs root t F (mkRbheap (delete p (nodes h)) (roots h)).
Proof.
  intros [Hr Ho]. split; [done|].
  assert (Hf : FindCell p (cells 0 t ++ (p, n) :: F) n (cells 0 t ++ F)) by apply _.
  pose proof (own_find _ _ _ _ _ Ho Hf) as (_ & _ & Hne). rewrite Hf in Ho. destruct Ho as [Hnd Ho].
  rewrite fmap_cons in Hnd. apply NoDup_cons in Hnd as [_ Hnd]. split; [done|].
  intros q m Hq. simpl. rewrite lookup_delete_ne by (intros <-; by eapply Hne).
  apply Ho. by right.
Qed.
