(* ===== verification/RbInsert.v ===== *)
(** * Insertion into a red-black tree

    The colour and height discipline of trees and contexts, and the proof that
    [rb_insert_color] restores it without changing the order of the nodes. *)
From S2P Require Import Prelude RbTree RbTreeRep.
Local Open Scope list_scope.
Local Open Scope Z_scope.

(** ** The red-black discipline *)

(** [rb c n t]: the root has colour [c], every path has [n] black nodes, no
    red node has a red child. *)
Inductive rb : bool -> nat -> tree -> Prop :=
  | rb_E : rb true 0 E
  | rb_R n l p r : rb true n l -> rb true n r -> rb false n (T false l p r)
  | rb_B n c1 c2 l p r : rb c1 n l -> rb c2 n r -> rb true (S n) (T true l p r).

(** [rbk c n k]: [k] accepts a tree of height [n], with a black root if [c]. *)
Inductive rbk : bool -> nat -> list frame -> Prop :=
  | rbk_top n : rbk true n []
  | rbk_R n d p s k : rb true n s -> rbk false n k -> rbk true n (Fr d false p s :: k)
  | rbk_B n c c' d p s k : rb c' n s -> rbk true (S n) k -> rbk c n (Fr d true p s :: k).

Lemma rb_mk_R n d p a b : rb true n a -> rb true n b -> rb false n (mk d false p a b).
Proof. destruct d; by constructor. Qed.
Lemma rb_mk_B n d p c1 c2 a b : rb c1 n a -> rb c2 n b -> rb true (S n) (mk d true p a b).
Proof. destruct d; by econstructor. Qed.
#[export] Hint Resolve rb_E rb_mk_R rb_mk_B rbk_top : lockdoc.
#[export] Hint Constructors rbk : lockdoc.

Lemma rb_color_root c n t : rb c n t -> is_black_tree t = c.
Proof. by destruct 1. Qed.

Lemma rbk_weaken c n k : rbk c n k -> rbk true n k.
Proof. destruct 1; econstructor; done. Qed.

Lemma rb_plug c c' n t k :
  rbk c n k -> rb c' n t -> (c = true -> c' = true) -> exists c'' m, rb c'' m (plug t k).
Proof.
  intros Hk. revert c' t. induction Hk; intros cc t Ht Hc; simpl; [eauto| |].
  - rewrite Hc in Ht by done. apply (IHHk false); [auto with lockdoc|done].
  - eapply (IHHk true); [eauto with lockdoc|done].
Qed.

Lemma mk_opp d c p a b : mk (opp d) c p a b = mk d c p b a.
Proof. by destruct d. Qed.
Lemma opp_opp d : opp (opp d) = d.
Proof. by destruct d. Qed.

(** Moving the focus to the other child. *)
Lemma plug_sibling d c p a b k : plug (mk d c p a b) k = plug b (Fr (opp d) c p a :: k).
Proof. simpl. by rewrite mk_opp. Qed.

Lemma inorder_rotate d c p a c2 q b e :
  inorder (mk d c p a (mk d c2 q b e)) = inorder (mk d c2 q (mk d c p a b) e).
Proof. destruct d; simpl; by rewrite <- ?app_assoc, <- ?app_comm_cons, <- ?app_assoc. Qed.
Lemma inorder_color d c c' p a b : inorder (mk d c p a b) = inorder (mk d c' p a b).
Proof. by destruct d. Qed.
Lemma inorder_mk_cong d c p a a' b b' :
  inorder a = inorder a' -> inorder b = inorder b' ->
  inorder (mk d c p a b) = inorder (mk d c p a' b').
Proof. intros Ha Hb. destruct d; simpl; by rewrite Ha, Hb. Qed.
Lemma inorder_plug_cong t t' k : inorder t = inorder t' -> inorder (plug t k) = inorder (plug t' k).
Proof. intros H. by rewrite !inorder_plug, H. Qed.

(** ** One iteration of the loop, for either side *)

Definition insert_step (g : side) (n : nat) (node parent gparent root : loc) : RM unit :=
  uncle ← load_child (opp g) gparent;
  ured ← and_red uncle;
  if ured : bool then
    rb_set_black uncle;;; rb_set_black parent;;; rb_set_red gparent;;;
    rb_insert_color_loop n gparent root
  else
    pr ← load_child (opp g) parent;
    pn ← (if pr =? node then rotate g parent root;;; mret (node, parent)
          else mret (parent, node));
    rb_set_black (fst pn);;; rb_set_red gparent;;;
    rotate (opp g) gparent root;;;
    rb_insert_color_loop n (snd pn) root.

Lemma insert_loop_unfold n node root : rb_insert_color_loop (S n) node root =
  (parent ← rb_parent node; red ← and_red parent;
   if negb red then mret tt else
   gparent ← rb_parent parent; gl ← load_left gparent;
   if parent =? gl then insert_step Lft n node parent gparent root
   else insert_step Rgt n node parent gparent root).
Proof. reflexivity. Qed.

(** What the loop ends with. *)
Definition insert_post rs root F (xs : list loc) (_ : unit) (h : rbheap) : Prop :=
  exists t c m, tree_at rs root t F h /\ inorder t = xs /\ rb c m t.

Definition insert_loop_ok (rs : gmap loc loc) (root : loc) (F : list cell) (n : nat) : Prop :=
  forall e x a b m k h,
  (List.length k <= n)%nat -> tree_at rs root (plug (mk e false x a b) k) F h ->
  rb true m a -> rb true m b -> rbk true m k ->
  wp (rb_insert_color_loop n x root) h (insert_post rs root F (inorder (plug (mk e false x a b) k))).

(** The uncle is red: the conflict moves up to the grandparent. *)
Lemma insert_recolor rs root F n g e d x p s gp a b ul q ur m k h :
  insert_loop_ok rs root F n -> (List.length k <= n)%nat ->
  tree_at rs root (plug (mk e false x a b) (Fr d false p s :: Fr g true gp (T false ul q ur) :: k)) F h ->
  rb true m a -> rb true m b -> rb true m s -> rb false m (T false ul q ur) -> rbk true (S m) k ->
  wp (insert_step g n x p gp root) h
    (insert_post rs root F
       (inorder (plug (mk e false x a b) (Fr d false p s :: Fr g true gp (T false ul q ur) :: k)))).
Proof.
  intros IH Hn Hh Ha Hb Hs Hu Hk. cbn [plug] in *. unfold insert_step.
  run_bind. eapply tree_child_opp; [exact Hh|].
  run_bind. rewrite plug_sibling in Hh. eapply tree_and_red; [exact Hh|].
  run_bind. eapply (tree_set_black _ _ Lft); [exact Hh|]. intros h1 H1.
  change (mk Lft true q ul ur) with (T true ul q ur) in H1. rewrite <- plug_sibling in H1.
  run_bind. eapply (tree_set_black _ _ d _ _ _ _ (Fr g true gp _ :: k)); [exact H1|]. intros h2 H2.
  run_bind. eapply (tree_set_red _ _ g); [exact H2|]. intros h3 H3.
  eapply rwp_mono; [apply (IH g gp _ _ (S m) k h3 Hn H3)|].
  - by eauto with lockdoc.
  - inversion Hu; subst. by econstructor.
  - done.
  - intros [] h4 (t & c & m' & Ht & Hin & Hrb). exists t, c, m'. split; [done|]. split; [|done].
    rewrite Hin. apply inorder_plug_cong. rewrite (inorder_color g false true).
    apply inorder_mk_cong; [apply inorder_color|done].
Qed.

(** The last rotation, after which the loop stops. *)
Lemma insert_rotate rs root F n g x p s gp t u m k h xs :
  insert_loop_ok rs root F n -> (S (List.length k) <= n)%nat ->
  tree_at rs root (plug (mk g false p t s) (Fr g true gp u :: k)) F h ->
  (exists e a b, t = mk e false x a b /\ rb true m a /\ rb true m b) ->
  rb true m s -> rb true m u -> rbk true (S m) k ->
  inorder (plug (mk g false p t s) (Fr g true gp u :: k)) = xs ->
  wp (rb_set_black p;;; rb_set_red gp;;; rotate (opp g) gp root;;; rb_insert_color_loop n x root) h
    (insert_post rs root F xs).
Proof.
  intros IH Hn Hh (e & a & b & -> & Ha & Hb) Hs Hu Hk <-.
  run_bind. eapply (tree_set_black _ _ g _ _ _ _ (Fr g true gp u :: k)); [exact Hh|]. intros h1 H1.
  run_bind. eapply (tree_set_red _ _ g); [exact H1|]. intros h2 H2.
  rewrite <- !(mk_opp g) in H2.
  run_bind. eapply wp_rotate; [exact H2|]. intros h3 H3. rewrite mk_opp in H3.
  eapply rwp_mono; [apply (IH e x a b m (Fr g true p _ :: k) h3 Hn H3 Ha Hb)|].
  - econstructor; [|exact Hk]. by apply rb_mk_R.
  - intros [] h4 (t & c & m' & Ht & Hin & Hrb). exists t, c, m'. split; [done|]. split; [|done].
    rewrite Hin. cbn [plug]. apply inorder_plug_cong. rewrite <- !(mk_opp g), <- inorder_rotate.
    rewrite (inorder_color _ true false). by destruct g.
Qed.

(** The uncle is black: one or two rotations. *)
Lemma insert_rotations rs root F n g e d x p s gp u a b m k h :
  insert_loop_ok rs root F n -> (S (List.length k) <= n)%nat ->
  tree_at rs root (plug (mk e false x a b) (Fr d false p s :: Fr g true gp u :: k)) F h ->
  rb true m a -> rb true m b -> rb true m s -> rb true m u -> rbk true (S m) k ->
  wp (pr ← load_child (opp g) p;
      pn ← (if pr =? x then rotate g p root;;; mret (x, p) else mret (p, x));
      rb_set_black (fst pn);;; rb_set_red gp;;; rotate (opp g) gp root;;;
      rb_insert_color_loop n (snd pn) root) h
    (insert_post rs root F
       (inorder (plug (mk e false x a b) (Fr d false p s :: Fr g true gp u :: k)))).
Proof.
  intros IH Hn Hh Ha Hb Hs Hu Hk.
  destruct (decide (d = g)) as [-> | Hdg].
  - run_bind. eapply (tree_child_opp _ _ g _ p _ s (Fr g true gp u :: k)); [exact Hh|].
    assert (Hne : (x =? rootp s) = false).
    { by eapply (tree_child_neq rs root g false p s e _ x _ _ (Fr g true gp u :: k)). }
    rewrite Z.eqb_sym, Hne. run_bind. apply rwp_ret. cbn [fst snd].
    apply (insert_rotate rs root F n g x p s gp (mk e false x a b) u m k); eauto 6.
  - assert (d = opp g) as -> by (by destruct d, g). clear Hdg.
    cbn [plug] in *. rewrite mk_opp in Hh. run_bind.
    eapply (tree_child_opp _ _ g _ p s _ (Fr g true gp u :: k)); [exact Hh|].
    rewrite rootp_mk, Z.eqb_refl. run_bind. run_bind.
    set (a' := if decide (e = g) then a else b). set (b' := if decide (e = g) then b else a).
    assert (mk e false x a b = mk g false x a' b') as Ex by (by destruct e, g).
    assert (rb true m a' /\ rb true m b') as [Ha' Hb'].
    { subst a' b'. by destruct (decide (e = g)). }
    rewrite Ex in *. rewrite mk_opp.
    eapply (wp_rotate _ _ g _ p s _ x a' b' (Fr g true gp u :: k)); [exact Hh|].
    intros h1 H1. apply rwp_ret. cbn [fst snd].
    apply (insert_rotate rs root F n g p x b' gp (mk g false p s a') u m k); eauto 6.
    cbn [plug]. apply inorder_plug_cong, inorder_mk_cong; [|done]. symmetry. apply inorder_rotate.
Qed.

Lemma insert_step_ok rs root F n g e d x p s gp u cu a b m k h :
  insert_loop_ok rs root F n -> (S (List.length k) <= n)%nat ->
  tree_at rs root (plug (mk e false x a b) (Fr d false p s :: Fr g true gp u :: k)) F h ->
  rb true m a -> rb true m b -> rb true m s -> rb cu m u -> rbk true (S m) k ->
  wp (insert_step g n x p gp root) h
    (insert_post rs root F
       (inorder (plug (mk e false x a b) (Fr d false p s :: Fr g true gp u :: k)))).
Proof.
  intros IH Hn Hh Ha Hb Hs Hu Hk. destruct cu.
  - pose proof Hh as Hh'. unfold insert_step. cbn [plug] in Hh'.
    run_bind. eapply tree_child_opp; [exact Hh'|].
    run_bind. rewrite plug_sibling in Hh'. eapply tree_and_red; [exact Hh'|].
    rewrite (rb_color_root _ _ _ Hu). by apply (insert_rotations rs root F n g e d x p s gp u a b m).
  - inversion Hu; subst. eapply insert_recolor; try done. lia.
Qed.

Lemma insert_loop_correct rs root F n : insert_loop_ok rs root F n.
Proof.
  induction n as [|n IH]; intros e x a b m k h Hn Hh Ha Hb Hk.
  - destruct k; [|simpl in Hn; lia]. change (wp (parent ← rb_parent x; red ← and_red parent;
      if negb red then mret tt else raise out_of_fuel) h
      (insert_post rs root F (inorder (plug (mk e false x a b) [])))).
    run_bind. eapply tree_parent; [exact Hh|]. simpl.
    exists (mk e false x a b), false, m. eauto with lockdoc.
  - rewrite insert_loop_unfold. run_bind. eapply tree_parent; [exact Hh|].
    destruct k as [|[d cp p s] k]; [exists (mk e false x a b), false, m; by eauto with lockdoc|].
    run_bind. pose proof Hh as Hp. cbn [plug] in Hp. cbn [cpar f_loc].
    rewrite <- (rootp_mk d cp p (mk e false x a b) s). eapply tree_and_red; [exact Hp|].
    rewrite rootp_mk. inversion Hk as [|? ? ? ? ? Hs Hk1|? ? ? ? ? ? ? Hs Hk1]; subst.
    + replace (is_black_tree _) with false by (by destruct d). simpl negb.
      inversion Hk1 as [| |? ? cu g gp u k2 Hu Hk2]; subst.
      run_bind. eapply (tree_parent _ _ d); [exact Hp|]. cbn [cpar f_loc].
      assert (Hg : tree_at rs root (plug (mk g true gp (mk d false p (mk e false x a b) s) u) k2) F h)
        by exact Hp.
      assert (Hstep : wp (insert_step g n x p gp root) h (insert_post rs root F
          (inorder (plug (mk e false x a b) (Fr d false p s :: Fr g true gp u :: k2))))).
      { eapply insert_step_ok; try done. simpl in Hn. lia. }
      run_bind. destruct g.
      * eapply (tree_child _ _ Lft); [exact Hg|]. by rewrite rootp_mk, Z.eqb_refl.
      * eapply (tree_child_opp _ _ Rgt); [exact Hg|].
        assert ((p =? rootp u) = false) as -> by (by eapply tree_child_neq). done.
    + replace (is_black_tree _) with true by (by destruct d). apply rwp_ret.
      destruct (rb_plug false false m (mk e false x a b) (Fr d true p s :: k)) as (c & m' & Hrb);
        [by econstructor|by apply rb_mk_R|done|].
      exists (plug (mk e false x a b) (Fr d true p s :: k)), c, m'. done.
Qed.

(** ** Linking a node *)

(** The pointer that leads to the focus of a context. *)
Definition slot_of (root : loc) (k : list frame) : slot :=
  match k with
  | [] => RootSlot root
  | Fr Lft _ p _ :: _ => LeftSlot p
  | Fr Rgt _ p _ :: _ => RightSlot p
  end.

Lemma wp_link_node rs root x nx k F h Q :
  tree_at rs root (plug E k) ((x, nx) :: F) h ->
  (forall h', tree_at rs root (plug (mk Lft false x E E) k) F h' -> Q tt h') ->
  wp (rb_link_node x (cpar k) (slot_of root k)) h Q.
Proof.
  intros Hh HQ. apply tree_at_zip in Hh. unfold zip_at in Hh. simpl in Hh.
  unfold rb_link_node, store_parent_color, store_right, store_left.
  run_bind. eapply wp_store; [exact Hh|apply _|]. intros h1 H1.
  run_bind. eapply wp_store; [exact H1|apply _|]. intros h2 H2.
  run_bind. eapply wp_store; [exact H2|apply _|]. intros h3 H3. cbn [rb_parent_color rb_right rb_left] in H3.
  replace (mkNode (cpar k) 0 0) with (nd Lft (cpar k) false 0 0) in H3
    by (unfold nd, word; by rewrite Z.add_0_r).
  assert (Hend : forall h', zip_at rs root (cells (cpar k) (mk Lft false x E E)) x k F h' -> Q tt h').
  { intros h' H'. apply HQ. by rewrite tree_at_zip. }
  destruct k as [|[d cp p s] k]; simpl.
  - eapply wp_store_root; [exact H3|rewrite lookup_insert_eq; eauto|]. intros h4 H4. apply Hend.
    rewrite insert_insert_eq in H4. exact H4.
  - simpl in H3. assert (wp (store_child d p x) h3 Q) as Hw; [|by destruct d].
    eapply (wp_store_child _ _ p d); [exact H3|apply _|]. intros h4 H4. apply Hend.
    eapply holds_perm; [exact H4|]. simpl. solve_Permutation.
Qed.

Lemma rb_unplug m t k : rb true m (plug t k) -> exists c n, rb c n t /\ rbk c n k.
Proof.
  revert t. induction k as [|[d cp p s] k IH]; intros t Ht; simpl in *; [by eauto with lockdoc|].
  destruct (IH _ Ht) as (c1 & n1 & Hm & Hk).
  destruct d, cp; simpl in Hm; inversion Hm; subst; eauto with lockdoc.
Qed.

(** A red-black tree is balanced. *)
Lemma rb_size c m t : rb c m t -> (2 ^ m <= S (List.length (inorder t)))%nat.
Proof. induction 1; simpl; rewrite ?length_app; simpl; lia. Qed.

Lemma rb_height_unique c m t c' m' : rb c m t -> rb c' m' t -> m = m'.
Proof.
  intros H. revert c' m'. induction H; intros c' m' H'; inversion H'; subst; eauto.
Qed.

(** The depth of a context in a tree of height [m]. *)
Lemma rbk_depth c n k : rbk c n k ->
  forall c' t, rb c' n t -> (c = true -> c' = true) ->
  exists m, rb true m (plug t k) /\ (List.length k + 2 * n + (if c then 0 else 1) <= 2 * m)%nat.
Proof.
  induction 1 as [n|n d p s k Hs Hk IH|n c c'' d p s k Hs Hk IH]; intros c' t Ht Hc; simpl.
  - rewrite Hc in Ht by done. exists n. split; [done|lia].
  - rewrite Hc in Ht by done. destruct (IH false (mk d false p t s)) as (m & ? & ?);
      [by apply rb_mk_R|done|]. exists m. split; [done|lia].
  - destruct (IH true (mk d true p t s)) as (m & ? & ?); [by eapply rb_mk_B|done|].
    exists m. split; [done|]. destruct c; lia.
Qed.

(** The fuel for a search path, in terms of the number of nodes. *)
Definition rb_fuel (t : tree) : nat := 2 * Nat.log2 (S (List.length (inorder t))).

Lemma rb_path_fuel m t k : rb true m (plug t k) -> (List.length k <= rb_fuel (plug t k))%nat.
Proof.
  intros Hrb. destruct (rb_unplug _ _ _ Hrb) as (c & n & Ht & Hk).
  destruct (rbk_depth _ _ _ Hk c t Ht) as (m' & Hm & Hl); [done|].
  rewrite (rb_height_unique _ _ _ _ _ Hm Hrb) in Hl.
  pose proof (rb_size _ _ _ Hrb) as Hs. apply Nat.log2_le_pow2 in Hs; [|lia].
  unfold rb_fuel. destruct c; lia.
Qed.

(** The two calls with which the clients of rbtree.c insert a node. *)
Definition rb_insert (n : nat) (node parent : loc) (rb_link : slot) (root : loc) : RM unit :=
  rb_link_node node parent rb_link;;; rb_insert_color n node root.

Lemma wp_rb_insert rs root x nx k F m n h :
  tree_at rs root (plug E k) ((x, nx) :: F) h -> rb true m (plug E k) ->
  (rb_fuel (plug E k) <= n)%nat ->
  wp (rb_insert n x (cpar k) (slot_of root k) root) h
    (fun _ h' => exists t', tree_at rs root t' F h' /\ inorder t' = before k ++ x :: after k /\
                   exists m', rb true m' t').
Proof.
  intros Hh Hrb Hn. pose proof (rb_path_fuel _ _ _ Hrb) as Hl.
  destruct (rb_unplug _ _ _ Hrb) as (c & m0 & HE & Hk). inversion HE; subst.
  run_bind. eapply wp_link_node; [exact Hh|]. intros h1 H1. unfold rb_insert_color. run_bind.
  eapply rwp_mono.
  { apply (insert_loop_correct rs root F n Lft x E E 0%nat k h1); [lia|exact H1|..];
      auto with lockdoc. }
  intros [] h2 (t & c & m' & Ht & Hin & Hrb2). rewrite inorder_plug in Hin. simpl in Hin.
  run_bind. eapply tree_load_root; [exact Ht|].
  destruct t as [|ct l p r]; [by destruct (before k)|].
  eapply (tree_set_black rs root Lft ct p l r []); [exact Ht|]. intros h3 H3.
  exists (T true l p r). split; [exact H3|]. split; [exact Hin|].
  inversion Hrb2; subst; eauto using rb.
Qed.

(** (C24) Inserting a node into a red-black tree at a leaf position and calling
    [rb_insert_color] never touches an invalid node; within [2 log2 (size + 1)]
    iterations it ends with a red-black tree that holds the old nodes in their
    order with the new one at that position, and leaves all other nodes and
    roots as they were. *)
Theorem rb_insert_correct rs root x nx k F m n h :
  tree_at rs root (plug E k) ((x, nx) :: F) h -> rb true m (plug E k) ->
  (rb_fuel (plug E k) <= n)%nat ->
  exists h' t', rb_insert n x (cpar k) (slot_of root k) root h = inr (tt, h') /\
    tree_at rs root t' F h' /\ inorder t' = before k ++ x :: after k /\
    exists m', rb true m' t'.
Proof.
  intros Hh Hrb Hn. destruct (wp_elim _ _ _ (wp_rb_insert _ _ _ _ _ _ _ _ _ Hh Hrb Hn))
    as ([] & h' & Hr & t' & Ht). by exists h', t'.
Qed.

(** A root with one red child at 32, below which the node 48 is inserted. *)
Definition ex_ctx : list frame := [Fr Rgt false 32 E; Fr Rgt true 16 E].
Definition ex_cells : list cell := [(48, mkNode 0 0 0); (64, mkNode 7 0 0)].

Lemma rb_insert_correct_witness :
  exists h' t', rb_insert 2 48 (cpar ex_ctx) (slot_of 8 ex_ctx) 8 (heap_of 8 (plug E ex_ctx) ex_cells)
      = inr (tt, h') /\
    tree_at ∅ 8 t' [(64, mkNode 7 0 0)] h' /\ inorder t' = [16; 32; 48] /\
    exists m', rb true m' t'.
Proof.
  apply (rb_insert_correct ∅ 8 48 (mkNode 0 0 0) ex_ctx [(64, mkNode 7 0 0)] 1).
  - apply heap_of_tree_at; apply (bool_decide_unpack _); vm_compute; exact I.
  - apply (rb_B 0 true false E 16 (T false E 32 E)); repeat constructor.
  - vm_compute. lia.
Defined.
