(* ===== verification/RbErase.v ===== *)
(** * Removal from a red-black tree

    [rb_erase] unlinks a node and repairs the black heights; the order of the
    other nodes is kept. *)
From S2P Require Import Prelude RbTree RbTreeRep RbInsert.
Local Open Scope list_scope.
Local Open Scope Z_scope.

(** ** One iteration of [__rb_erase_color], for either side *)

Definition erase_finish (g : side) (other parent root : loc) : RM loc :=
  c ← rb_color parent; rb_set_color other c;;;
  rb_set_black parent;;;
  f ← load_child (opp g) other; rb_set_black f;;;
  rotate g parent root;;;
  load_root root.

Definition erase_black (g : side) (n : nat) (other parent root : loc) : RM loc :=
  l ← load_left other; lb ← or_black l;
  both ← (if lb : bool then r ← load_right other; or_black r else mret false);
  if both : bool then
    rb_set_red other;;;
    parent' ← rb_parent parent;
    __rb_erase_color_loop n parent parent' root
  else
    f ← load_child (opp g) other; fb ← or_black f;
    other ← (if fb : bool then
               l ← load_child g other; rb_set_black l;;; rb_set_red other;;;
               rotate (opp g) other root;;; load_child (opp g) parent
             else mret other);
    erase_finish g other parent root.

Definition erase_step (g : side) (n : nat) (parent root : loc) : RM loc :=
  other ← load_child (opp g) parent;
  ored ← rb_is_red other;
  other ← (if ored : bool then
             rb_set_black other;;; rb_set_red parent;;;
             rotate g parent root;;; load_child (opp g) parent
           else mret other);
  erase_black g n other parent root.

Lemma erase_loop_unfold n node parent root : __rb_erase_color_loop (S n) node parent root =
  (nb ← or_black node; if negb nb then mret node else
   top ← load_root root; if node =? top then mret node else
   pl ← load_left parent;
   if pl =? node then erase_step Lft n parent root else erase_step Rgt n parent root).
Proof. reflexivity. Qed.

(** ** The repair *)

Definition blacken (t : tree) : tree := match t with E => E | T _ l p r => T true l p r end.

Lemma blacken_mk d c p a b : blacken (mk d c p a b) = mk d true p a b.
Proof. by destruct d. Qed.
Lemma blacken_root t : rootp (blacken t) = rootp t.
Proof. by destruct t. Qed.
Lemma inorder_blacken t : inorder (blacken t) = inorder t.
Proof. by destruct t. Qed.
Lemma blacken_black t : is_black_tree t = true -> blacken t = t.
Proof. destruct t; simpl; [done|]. by intros ->. Qed.
Lemma is_black_mk d c p a b : is_black_tree (mk d c p a b) = c.
Proof. by destruct d. Qed.

(** A tree that lacks one black node on each path, unless its root is red. *)
Definition short (m : nat) (t : tree) : Prop :=
  if is_black_tree t then rb true m t else rb true (S m) (blacken t).

Definition erase_post rs root F xs (q : loc) (h : rbheap) : Prop :=
  exists t k m, tree_at rs root (plug t k) F h /\ q = rootp t /\
    inorder (plug t k) = xs /\ rb true m (plug (blacken t) k).

Definition erase_loop_ok rs root F n : Prop :=
  forall t k m h, (is_black_tree t = true -> (List.length k <= n)%nat) ->
  tree_at rs root (plug t k) F h -> short m t -> rbk true (S m) k ->
  wp (__rb_erase_color_loop n (rootp t) (cpar k) root) h
    (erase_post rs root F (inorder (plug t k))).

(** The context of the parent of a short tree. *)
Definition parent_ctx (cp : bool) (m : nat) (k : list frame) : Prop :=
  if cp then rbk true (S (S m)) k else rbk false (S m) k.

Lemma rb_mk_inv d c0 m p a b : rb true m (mk d c0 p a b) ->
  c0 = true /\ exists m' c1 c2, m = S m' /\ rb c1 m' a /\ rb c2 m' b.
Proof. destruct d; inversion 1; subst; eauto 8. Qed.

Lemma erase_finish_ok rs root F g cp p t y nr w e fl fr m k h :
  tree_at rs root (plug (mk g cp p t (mk g true y nr (mk e false w fl fr))) k) F h ->
  rb true m t -> rb true m nr \/ rb false m nr -> rb true m fl -> rb true m fr -> parent_ctx cp m k ->
  wp (erase_finish g y p root) h
    (erase_post rs root F (inorder (plug (mk g cp p t (mk g true y nr (mk e false w fl fr))) k))).
Proof.
  intros Hh Ht Hnr Hfl Hfr Hk. unfold erase_finish.
  assert (exists c, rb c m nr) as [cn Hnr'] by (destruct Hnr; eauto). clear Hnr.
  run_bind. eapply (tree_color _ _ g); [exact Hh|].
  rewrite plug_sibling in Hh.
  run_bind. eapply (tree_set_color _ _ g); [exact Hh|]. intros h1 H1. rewrite <- plug_sibling in H1.
  run_bind. eapply (tree_set_black _ _ g); [exact H1|]. intros h2 H2. rewrite plug_sibling in H2.
  run_bind. eapply tree_child_opp; [exact H2|]. rewrite rootp_mk.
  run_bind. rewrite plug_sibling in H2. eapply (tree_set_black _ _ e); [exact H2|]. intros h3 H3.
  rewrite <- !plug_sibling in H3.
  run_bind. eapply wp_rotate; [exact H3|]. intros h4 H4.
  eapply tree_load_root; [exact H4|].
  assert (exists m', rb true m' (plug (mk g cp y (mk g true p t nr) (mk e true w fl fr)) k))
    as (m' & Hrb).
  { assert (rb cp (if cp then S (S m) else S m) (mk g cp y (mk g true p t nr) (mk e true w fl fr)))
      as Hrb by (destruct cp; [|apply rb_mk_R]; by eauto with lockdoc).
    destruct cp; destruct (rbk_depth _ _ _ Hk _ _ Hrb) as (m' & ? & _); by eauto. }
  exists (plug (mk g cp y (mk g true p t nr) (mk e true w fl fr)) k), [], m'.
  split; [exact H4|]. split; [done|]. split.
  - cbn [plug]. apply inorder_plug_cong. rewrite <- inorder_rotate. by destruct g, e.
  - cbn [plug]. by rewrite blacken_black by (by eapply rb_color_root).
Qed.

(** The sibling is black. *)
Lemma erase_black_ok rs root F n g cp p t y nr fr c1 c2 m k h :
  erase_loop_ok rs root F n -> (cp = true -> (List.length k <= n)%nat) ->
  tree_at rs root (plug (mk g cp p t (mk g true y nr fr)) k) F h ->
  rb true m t -> rb c1 m nr -> rb c2 m fr -> parent_ctx cp m k ->
  wp (erase_black g n y p root) h
    (erase_post rs root F (inorder (plug (mk g cp p t (mk g true y nr fr)) k))).
Proof.
  intros IH Hn Hh Ht Hnr Hfr Hk. unfold erase_black.
  set (xs := inorder _).
  pose proof Hh as Hy. rewrite plug_sibling in Hy. pose proof Hy as Hf. rewrite plug_sibling in Hf.
  assert (Hnear : tree_at rs root (plug nr (Fr g true y fr :: Fr (opp g) cp p t :: k)) F h)
    by exact Hy.
  assert (Hboth : forall {A} (k : bool -> RM A) Q, wp (k (c1 && c2)) h Q ->
    wp (l ← load_left y; lb ← or_black l;
        both ← (if lb : bool then r ← load_right y; or_black r else mret false); k both) h Q).
  { intros A k0 Q HQ. pose proof (rb_color_root _ _ _ Hnr) as En.
    pose proof (rb_color_root _ _ _ Hfr) as Ef. run_bind. destruct g.
    - eapply (tree_child _ _ Lft); [exact Hy|]. run_bind.
      eapply tree_or_black; [exact Hnear|]. rewrite En.
      destruct c1; [|run_bind; by apply rwp_ret]. run_bind. run_bind.
      eapply (tree_child_opp _ _ Lft); [exact Hy|].
      eapply tree_or_black; [exact Hf|]. by rewrite Ef.
    - eapply (tree_child_opp _ _ Rgt); [exact Hy|]. run_bind.
      eapply tree_or_black; [exact Hf|]. rewrite Ef, andb_comm in *.
      destruct c2; [|run_bind; by apply rwp_ret]. run_bind. run_bind.
      eapply (tree_child _ _ Rgt); [exact Hy|].
      eapply tree_or_black; [exact Hnear|]. by rewrite En. }
  apply Hboth. clear Hboth. destruct (c1 && c2) eqn:E12.
  - (* both children of the sibling are black *)
    apply andb_true_iff in E12 as [-> ->].
    run_bind. eapply tree_set_red; [exact Hy|]. intros h1 H1. rewrite <- plug_sibling in H1.
    run_bind. eapply tree_parent; [exact H1|].
    rewrite <- (rootp_mk g cp p t (mk g false y nr fr)).
    eapply rwp_mono; [apply (IH _ k (if cp then S m else m) h1); [|exact H1|..]|].
    + rewrite is_black_mk. exact Hn.
    + unfold short. rewrite is_black_mk, blacken_mk. destruct cp; eauto with lockdoc.
    + destruct cp; [exact Hk|]. by eapply rbk_weaken.
    + intros q h2 (t' & k' & m' & ? & ? & Hin & ?). exists t', k', m'. do 2 (split; [done|]).
      split; [|done]. rewrite Hin. apply inorder_plug_cong. by destruct g.
  - run_bind. eapply tree_child_opp; [exact Hy|]. run_bind. eapply tree_or_black; [exact Hf|].
    rewrite (rb_color_root _ _ _ Hfr). destruct c2.
    + (* only the near child is red: a second rotation *)
      destruct c1; [done|].
      assert (exists z a b, nr = mk g false z a b /\ rb true m a /\ rb true m b)
        as (z & a & b & -> & Ha & Hb).
      { inversion Hnr as [|? a z b Ha Hb|]; subst. destruct g; [by exists z, a, b|by exists z, b, a]. }
      run_bind. run_bind. eapply tree_child; [exact Hy|]. rewrite rootp_mk. run_bind.
      eapply (tree_set_black _ _ g); [exact Hnear|]. intros h1 H1.
      run_bind. eapply (tree_set_red _ _ g _ _ _ _ (Fr (opp g) cp p t :: k)); [exact H1|]. intros h2 H2.
      rewrite <- !(mk_opp g) in H2. run_bind. eapply wp_rotate; [exact H2|]. intros h3 H3.
      rewrite !mk_opp in H3. rewrite <- plug_sibling in H3.
      eapply tree_child_opp; [exact H3|]. rewrite rootp_mk.
      eapply rwp_mono; [apply (erase_finish_ok rs root F g cp p t z a y g b fr m k h3); auto|].
      intros q h4 (t' & k' & m' & ? & ? & Hin & ?). exists t', k', m'. do 2 (split; [done|]).
      split; [|done]. rewrite Hin. apply inorder_plug_cong, inorder_mk_cong; [done|].
      rewrite <- !(mk_opp g). rewrite <- inorder_rotate. by destruct g.
    + (* the far child is red *)
      inversion Hfr as [|? fl w fr' Hfl Hfr'|]; subst. run_bind. apply rwp_ret.
      eapply (erase_finish_ok rs root F g cp p t y nr w Lft fl fr' m k h); try done.
      destruct c1; auto.
Qed.

Lemma erase_step_ok rs root F n g cp p t s cs m k h :
  erase_loop_ok rs root F n -> (List.length k <= n)%nat ->
  tree_at rs root (plug t (Fr g cp p s :: k)) F h -> rb true m t -> rb cs (S m) s ->
  (if cp then rbk true (S (S m)) k else cs = true /\ rbk false (S m) k) ->
  wp (erase_step g n p root) h (erase_post rs root F (inorder (plug t (Fr g cp p s :: k)))).
Proof.
  intros IH Hn Hh Ht Hs Hk. unfold erase_step. cbn [plug] in *.
  run_bind. eapply tree_child_opp; [exact Hh|].
  pose proof Hh as Hsib. rewrite plug_sibling in Hsib.
  assert (exists y a b, s = mk g cs y a b) as (y & a & b & ->).
  { inversion Hs; subst; destruct g; eauto. }
  rewrite rootp_mk. run_bind. eapply tree_is_red; [exact Hsib|]. destruct cs; cbn [negb].
  - destruct (rb_mk_inv _ _ _ _ _ _ Hs) as (_ & m' & c1 & c2 & Em & Ha & Hb).
    injection Em as <-. run_bind. apply rwp_ret.
    eapply (erase_black_ok rs root F n g cp p t y a b); try done. destruct cp; [done|]. by destruct Hk.
  - destruct cp; [|by destruct Hk].
    assert (rb true (S m) a /\ rb true (S m) b) as [Ha Hb]
      by (destruct g; inversion Hs; subst; done).
    run_bind. run_bind. eapply tree_set_black; [exact Hsib|]. intros h1 H1. rewrite <- plug_sibling in H1.
    run_bind. eapply tree_set_red; [exact H1|]. intros h2 H2.
    run_bind. eapply wp_rotate; [exact H2|]. intros h3 H3.
    eapply (tree_child_opp _ _ g _ p t a (Fr g true y b :: k)); [exact H3|].
    assert (exists z a1 a2, a = mk g true z a1 a2) as (z & a1 & a2 & ->).
    { inversion Ha; subst; destruct g; eauto. }
    destruct (rb_mk_inv _ _ _ _ _ _ Ha) as (_ & m' & c1 & c2 & Em & Ha1 & Ha2).
    injection Em as <-. rewrite rootp_mk.
    eapply rwp_mono; [eapply (erase_black_ok rs root F n g false p t z a1 a2 c1 c2 m (Fr g true y b :: k));
      try done; by econstructor|].
    intros q h4 (t' & k' & m' & ? & ? & Hin & ?). exists t', k', m'. do 2 (split; [done|]).
    split; [|done]. rewrite Hin. cbn [plug]. apply inorder_plug_cong.
    rewrite <- inorder_rotate. by destruct g.
Qed.

(** The root above a focus inside the tree is another node. *)
Lemma ptop_find q k : k <> [] -> exists n R, FindCell (ptop q k) (ccells q k) n R.
Proof.
  revert q. induction k as [|[d c p s] k IH]; intros q Hk; [done|]. simpl.
  destruct k as [|f k].
  - exists (nd d 0 c q (rootp s)), (cells p s ++ []). apply _.
  - destruct (IH p) as (n & R & Hf); [done|]. unfold FindCell in *. do 2 eexists.
    rewrite Hf. instantiate (2 := n).
    instantiate (1 := (p, nd d (cpar (f :: k)) c q (rootp s)) :: cells p s ++ R). solve_Permutation.
Qed.

Lemma tree_root_neq rs root t f k F h :
  tree_at rs root (plug t (f :: k)) F h -> (rootp t =? rootp (plug t (f :: k))) = false.
Proof.
  intros Hh. rewrite rootp_plug. apply tree_at_zip in Hh. unfold zip_at in Hh.
  destruct (ptop_find (rootp t) (f :: k)) as (n & R & Hf); [done|].
  rewrite Z.eqb_sym. eapply holds_neq_root; [exact Hh| |].
  { apply find_app_r. apply find_app_l. exact Hf. }
  done.
Qed.

Lemma erase_loop_correct rs root F n : erase_loop_ok rs root F n.
Proof.
  assert (Hexit : forall t k m h, tree_at rs root (plug t k) F h -> short m t -> rbk true (S m) k ->
    is_black_tree t = false \/ k = [] ->
    erase_post rs root F (inorder (plug t k)) (rootp t) h).
  { intros t k m h Hh Hs Hk Hor. unfold short in Hs. destruct (is_black_tree t) eqn:Et.
    - destruct Hor as [? | ->]; [done|]. exists t, [], m. do 3 (split; [done|]).
      simpl. by rewrite blacken_black.
    - destruct (rbk_depth _ _ _ Hk _ _ Hs) as (m' & ? & _); [done|]. by exists t, k, m'. }
  induction n as [|n IH]; intros t k m h Hn Hh Hs Hk.
  - assert (wp (nb ← or_black (rootp t); if negb nb then mret (rootp t) else
       top ← load_root root; if rootp t =? top then mret (rootp t) else raise out_of_fuel) h
       (erase_post rs root F (inorder (plug t k)))); [|done].
    run_bind. eapply tree_or_black; [exact Hh|]. destruct (is_black_tree t) eqn:Et; simpl negb.
    + destruct k; [|specialize (Hn eq_refl); simpl in Hn; lia].
      run_bind. eapply tree_load_root; [exact Hh|]. simpl. rewrite Z.eqb_refl. apply rwp_ret.
      eapply (Hexit t []); eauto.
    + apply rwp_ret. eapply Hexit; eauto.
  - rewrite erase_loop_unfold. run_bind. eapply tree_or_black; [exact Hh|].
    destruct (is_black_tree t) eqn:Et; simpl negb; [|apply rwp_ret; eapply Hexit; by eauto].
    run_bind. eapply tree_load_root; [exact Hh|].
    destruct k as [|[d cp p s] k].
    { simpl. rewrite Z.eqb_refl. apply rwp_ret. eapply (Hexit t []); eauto. }
    rewrite (tree_root_neq _ _ _ _ _ _ _ Hh). cbn [cpar f_loc].
    specialize (Hn eq_refl). simpl in Hn. unfold short in Hs. rewrite Et in Hs.
    assert (exists cs, rb cs (S m) s /\ (if cp then rbk true (S (S m)) k else cs = true /\ rbk false (S m) k))
      as (cs & Hsib & Hctx) by (inversion Hk; subst; eauto).
    assert (Hstep : wp (erase_step d n p root) h
              (erase_post rs root F (inorder (plug t (Fr d cp p s :: k)))))
      by (eapply erase_step_ok; try done; lia).
    run_bind. destruct d.
    + eapply (tree_child _ _ Lft); [exact Hh|]. by rewrite Z.eqb_refl.
    + eapply (tree_child_opp _ _ Rgt _ p t s k); [exact Hh|].
      assert ((rootp s =? rootp t) = false) as ->; [|done].
      inversion Hsib; subst; (eapply (tree_child_neq rs root Lft cp p t Lft); exact Hh).
Qed.

(** [__rb_erase_color] repairs a tree that is one black node short at the focus. *)
Lemma erase_color_ok rs root F n t k m h :
  (List.length k <= n)%nat -> tree_at rs root (plug t k) F h -> short m t -> rbk true (S m) k ->
  wp (__rb_erase_color n (rootp t) (cpar k) root) h
    (fun _ h' => exists t' m', tree_at rs root t' F h' /\ inorder t' = inorder (plug t k) /\
                   rb true m' t').
Proof.
  intros Hn Hh Hs Hk. unfold __rb_erase_color. run_bind.
  eapply rwp_mono; [by eapply (erase_loop_correct rs root F n t k m)|].
  intros q h1 (t' & k' & m' & Ht & -> & Hin & Hrb). destruct t' as [|c l x r]; simpl.
  - apply rwp_ret. exists (plug E k'), m'. auto.
  - rewrite (valid_neq0 x) by exact (tree_valid rs root Lft c x l r k' F h1 Ht).
    eapply (tree_set_black _ _ Lft); [exact Ht|]. intros h2 H2.
    exists (plug (T true l x r) k'), m'. split; [exact H2|]. split; [|done].
    rewrite <- Hin. by apply inorder_plug_cong.
Qed.
