(* ===== verification/RbRemove.v ===== *)
(** * Removal, replacement and traversal of a red-black tree

    [rb_erase], [rb_replace_node], [rb_first], [rb_last], [rb_next] and
    [rb_prev] as operations on the sequence of nodes of a tree, and the searches in
    a tree that its users write. *)
From S2P Require Import Prelude RbTree RbTreeRep RbInsert RbErase.
Local Open Scope list_scope.
Local Open Scope Z_scope.

(** ** Pointer surgery *)

(** The child [b] of [x], if any, gets the parent [q]. *)
Lemma wp_adopt_child rs L x b q R h Q :
  holds rs L h -> L ≡ₚ cells x b ++ R -> aligned x -> aligned q ->
  (forall h', holds rs (cells q b ++ R) h' -> Q tt h') ->
  wp (if rootp b =? 0 then mret tt else rb_set_parent (rootp b) q) h Q.
Proof.
  intros Hh HL Hx Hq HQ.
  cut (wp (if rootp b =? 0 then mret tt else b' ← mret (rootp b); rb_set_parent b' q) h Q);
    [by destruct (rootp b =? 0)|].
  eapply (wp_adopt rs L x b q R h Q (c := mret (rootp b))); try done.
  intros Q' h' ->. done.
Qed.

(** [rb_replace_node]: [new] takes the place of the node at the focus. *)
Lemma wp_replace rs root d c p a b k nw nn F h Q :
  tree_at rs root (plug (mk d c p a b) k) ((nw, nn) :: F) h ->
  (forall h' np, tree_at rs root (plug (mk d c nw a b) k) ((p, np) :: F) h' -> Q tt h') ->
  wp (rb_replace_node p nw root) h Q.
Proof.
  intros Hh HQ. assert (exists l r, mk d c p a b = mk Lft c p l r /\ mk d c nw a b = mk Lft c nw l r)
    as (l & r & E1 & E2) by (destruct d; eauto).
  rewrite E1 in Hh. rewrite E2 in HQ. clear d a b E1 E2.
  pose proof (tree_cpar _ _ _ _ _ _ _ _ _ _ Hh) as Hk.
  pose proof (valid_aligned _ (tree_valid _ _ _ _ _ _ _ _ _ _ Hh)) as Hp.
  apply tree_node in Hh.
  assert (Hnw : aligned nw) by (eapply valid_aligned, holds_valid; [exact Hh|apply _]).
  unfold rb_replace_node. run_bind. eapply (wp_parent _ _ p Lft); [exact Hh|apply _|done|].
  run_bind. eapply (wp_relink rs root Lft _ p _ _ nw k); [exact Hh|apply _|]. intros h1 H1. unfold zip_at in H1.
  run_bind. eapply (wp_child _ _ p Lft); [exact H1|apply _|].
  run_bind. eapply (wp_adopt _ _ p l nw
    ((p, nd Lft (cpar k) c (rootp l) (rootp r)) :: cells p r ++ ccells nw k ++ (nw, nn) :: F));
    [exact H1|solve_Permutation|done|done|..].
  { intros Q' h' -> HQ'. eapply (wp_child _ _ p Lft); [exact H1|apply _|done]. }
  intros h2 H2. run_bind. eapply (wp_child_opp _ _ p Lft); [exact H2|apply _|].
  run_bind. eapply (wp_adopt _ _ p r nw
    (cells nw l ++ (p, nd Lft (cpar k) c (rootp l) (rootp r)) :: ccells nw k ++ (nw, nn) :: F));
    [exact H2|solve_Permutation|done|done|..].
  { intros Q' h' -> HQ'. eapply (wp_child_opp _ _ p Lft); [exact H2|apply _|done]. }
  intros h3 H3. run_bind. eapply rwp_load; [exact H3|apply _|].
  eapply wp_store; [exact H3|apply _|]. intros h4 H4. eapply (HQ h4).
  rewrite tree_at_zip. unfold zip_at. rewrite rootp_mk. simpl.
  eapply holds_perm; [exact H4|]. solve_Permutation.
Qed.

(** A node with one child, [ch], is taken out: its child moves up. *)
Definition detach (d : side) (node child parent root : loc) : RM unit :=
  (if child =? 0 then mret tt else rb_set_parent child parent);;;
  relink d parent node child root.

Lemma wp_detach rs root d d' c p ch k F h Q :
  tree_at rs root (plug (mk d' c p E ch) k) F h ->
  (forall h' np, tree_at rs root (plug ch k) ((p, np) :: F) h' -> Q tt h') ->
  wp (detach d p (rootp ch) (cpar k) root) h Q.
Proof.
  intros Hh HQ. pose proof (tree_cpar _ _ _ _ _ _ _ _ _ _ Hh) as Hk.
  pose proof (valid_aligned _ (tree_valid _ _ _ _ _ _ _ _ _ _ Hh)) as Hp.
  apply tree_node in Hh. unfold detach. run_bind.
  eapply (wp_adopt_child _ _ p ch (cpar k) ((p, nd d' (cpar k) c 0 (rootp ch)) :: ccells p k ++ F));
    [exact Hh|simpl; solve_Permutation|done|done|].
  intros h1 H1. eapply (wp_relink rs root d ((p, nd d' (cpar k) c 0 (rootp ch)) :: cells (cpar k) ch)
    p _ _ (rootp ch) k F); [|apply _|].
  { eapply holds_perm; [exact H1|]. solve_Permutation. }
  intros h2 H2. eapply (HQ h2). rewrite tree_at_zip. unfold zip_at in *.
  eapply holds_perm; [exact H2|]. solve_Permutation.
Qed.

Lemma wp_relink_sym (parent node child root : loc) h Q :
  wp (relink Lft parent node child root) h Q ->
  wp (if parent =? 0 then store_root root child
      else pl ← load_left parent;
           if pl =? node then store_left parent child else store_right parent child) h Q.
Proof.
  unfold relink. destruct (parent =? 0); [done|]. unfold wp, mbind, M_bind. simpl load_child.
  destruct (load_left parent h) as [|[pl h1]]; [done|]. by rewrite (Z.eqb_sym pl).
Qed.

(** ** Depth and fuel *)

Fixpoint dep (t : tree) : nat :=
  match t with E => 0 | T _ l _ r => S (Nat.max (dep l) (dep r)) end.

Lemma dep_plug t k : (List.length k + dep t <= dep (plug t k))%nat.
Proof.
  revert t. induction k as [|[d c p s] k IH]; intros t; simpl; [lia|].
  specialize (IH (mk d c p t s)). destruct d; simpl in *; lia.
Qed.

Lemma dep_rb c m t : rb c m t -> (dep t <= 2 * m + (if c then 0 else 1))%nat.
Proof.
  induction 1; simpl in *; [lia|lia|]. destruct c1, c2; lia.
Qed.

Lemma dep_fuel m t : rb true m t -> (dep t <= rb_fuel t)%nat.
Proof.
  intros Hrb. pose proof (dep_rb _ _ _ Hrb) as Hd. cbv iota in Hd. pose proof (rb_size _ _ _ Hrb) as Hs.
  apply Nat.log2_le_pow2 in Hs; [|lia]. unfold rb_fuel. lia.
Qed.

(** ** Removing the node at the focus *)

Definition erased rs root F xs (t : tree) (h : rbheap) : Prop :=
  tree_at rs root t F h /\ inorder t = xs /\ exists m, rb true m t.

(** The colour repair after a node of colour [c] has lost its place. *)
Lemma erase_fix rs root F n c ch k m h xs :
  (List.length k <= n)%nat -> tree_at rs root (plug ch k) F h -> inorder (plug ch k) = xs ->
  (if c : bool then short m ch /\ rbk true (S m) k else rb true m ch /\ rbk false m k) ->
  wp (if (if c then 1 else 0) =? RB_BLACK then __rb_erase_color n (rootp ch) (cpar k) root else mret tt) h
    (fun _ h' => exists t, erased rs root F xs t h').
Proof.
  intros Hn Hh <- Hm. destruct c; simpl.
  - destruct Hm as [Hs Hk]. eapply rwp_mono; [by eapply (erase_color_ok rs root F n ch k m)|].
    intros _ h' (t' & m' & Ht & Hin & Hrb). exists t'. split; [done|]. split; [done|by exists m'].
  - destruct Hm as [Hc Hk]. apply rwp_ret. destruct (rbk_depth _ _ _ Hk _ _ Hc) as (m' & ? & _); [done|].
    exists (plug ch k). split; [done|]. split; [done|by exists m'].
Qed.

(** What [erase_fix] needs, from the tree before the removal. *)
Lemma erase_fix_pre m d c p ch k k' :
  rb true m (plug (mk d c p E ch) k) -> (forall c n, rbk c n k -> rbk c n k') ->
  exists m', if c : bool then short m' ch /\ rbk true (S m') k' else rb true m' ch /\ rbk false m' k'.
Proof.
  intros Hrb Hkk. destruct (rb_unplug _ _ _ Hrb) as (c0 & n0 & Hm & Hk).
  destruct c.
  - destruct (rb_mk_inv d true n0 p E ch) as (_ & m' & c1 & c2 & -> & HE & Hch).
    { destruct d; inversion Hm; subst; econstructor; done. }
    inversion HE; subst. exists 0%nat. split.
    + unfold short. rewrite (rb_color_root _ _ _ Hch). destruct c2; [done|].
      inversion Hch; subst. by econstructor.
    + apply Hkk. by eapply rbk_weaken.
  - exists n0. destruct d; inversion Hm; subst; auto.
Qed.

Lemma wp_erase_one rs root n d c p ch k m F h Q :
  tree_at rs root (plug (mk d c p E ch) k) F h -> rb true m (plug (mk d c p E ch) k) ->
  (List.length k <= n)%nat ->
  (forall h' np t, erased rs root ((p, np) :: F) (before k ++ inorder ch ++ after k) t h' -> Q tt h') ->
  wp (rb_erase_one n p (rootp ch) root) h Q.
Proof.
  intros Hh Hrb Hn HQ. unfold rb_erase_one.
  run_bind. eapply tree_parent; [exact Hh|]. run_bind. eapply tree_color; [exact Hh|].
  pose proof (wp_detach rs root Lft d c p ch k F h) as Hdet. unfold detach in Hdet.
  destruct (erase_fix_pre m d c p ch k k Hrb ltac:(done)) as (m' & Hpre).
  assert (Hd := fun Q H => Hdet Q Hh H). clear Hdet.
  set (fix_ := if (if c then 1 else 0) =? RB_BLACK then _ else _).
  assert (wp ((if rootp ch =? 0 then mret tt else rb_set_parent (rootp ch) (cpar k));;;
              relink Lft (cpar k) p (rootp ch) root) h (fun _ h' => wp fix_ h' Q)) as Hw.
  { apply Hd. intros h1 np H1. eapply rwp_mono; [apply (erase_fix _ _ _ n c ch k m' h1 _ Hn H1 eq_refl Hpre)|].
    intros [] h2 (t & Ht). eapply HQ. rewrite <- inorder_plug. exact Ht. }
  run_bind. eapply rwp_mono; [exact (wp_bind_inv _ _ _ _ Hw)|]. intros [] h1 H1.
  run_bind. apply wp_relink_sym. exact H1.
Qed.

(** ** The outermost node on one side *)

Definition most (d : side) : nat -> loc -> RM loc :=
  match d with Lft => leftmost | Rgt => rightmost end.

Lemma most_unfold d n node : most d n node =
  (c ← load_child d node;
   if c =? 0 then mret node else
   match n with O => raise out_of_fuel | S n => most d n c end).
Proof. by destruct d, n. Qed.

Lemma plug_app t k1 k2 : plug t (k1 ++ k2) = plug (plug t k1) k2.
Proof. revert t. induction k1 as [|[d c p s] k1 IH]; intros t; simpl; [done|apply IH]. Qed.

(** A path that only descends on side [d]. *)
Definition all_side (d : side) (k : list frame) : Prop := Forall (fun f => f_side f = d) k.

Lemma tree_mk t d : t <> E -> exists c p a b, t = mk d c p a b.
Proof. destruct t as [|c l p r]; [done|]. intros _. destruct d; simpl; eauto. Qed.

Lemma wp_most rs root d n t k F h Q :
  t <> E -> (dep t <= S n)%nat -> tree_at rs root (plug t k) F h ->
  (forall ks c q rc, t = plug (mk d c q E rc) ks -> all_side d ks -> Q q h) ->
  wp (most d n (rootp t)) h Q.
Proof.
  revert t k Q. induction n as [|n IH]; intros t k Q Ht Hn Hh HQ;
    destruct (tree_mk t d Ht) as (c & p & a & b & ->); rewrite most_unfold, rootp_mk; run_bind;
    (eapply tree_child; [exact Hh|]).
  - destruct a as [|ca la qa ra]; [|destruct d; simpl in Hn; lia].
    apply rwp_ret, (HQ [] c p b); [done|constructor].
  - destruct a as [|ca la qa ra]; [apply rwp_ret, (HQ [] c p b); [done|constructor]|].
    pose proof (tree_valid rs root Lft ca qa la ra (Fr d c p b :: k) F h Hh) as Hv.
    simpl rootp. rewrite (valid_neq0 _ Hv).
    apply (IH (T ca la qa ra) (Fr d c p b :: k)); [done| |exact Hh|].
    + destruct d; simpl in *; lia.
    + intros ks c' q rc E Hks. apply (HQ (ks ++ [Fr d c p b]) c' q rc).
      * by rewrite plug_app, <- E.
      * apply Forall_app. split; [done|by repeat constructor].
Qed.

Lemma before_all_lt ks : all_side Lft ks -> before ks = [].
Proof. induction 1 as [|[d c p s] ks Hd _ IH]; [done|]. simpl in *. by subst. Qed.
Lemma before_app k1 k2 : before (k1 ++ k2) = before k2 ++ before k1.
Proof.
  induction k1 as [|[[] c p s] k1 IH]; simpl; [by rewrite app_nil_r|done|].
  by rewrite IH, <- app_assoc.
Qed.
Lemma after_app k1 k2 : after (k1 ++ k2) = after k1 ++ after k2.
Proof. induction k1 as [|[[] c p s] k1 IH]; simpl; [done| |done]. by rewrite IH, <- app_assoc. Qed.

(** ** Removing a node with two children *)

(** The context of the successor once it has taken the place of [old]. *)
Lemma rbk_rename ks d cc p p' s k c n :
  rbk c n (ks ++ Fr d cc p s :: k) -> rbk c n (ks ++ Fr d cc p' s :: k).
Proof.
  revert c n. induction ks as [|[d' c' q s'] ks IH]; intros c n Hk; simpl in *;
    inversion Hk; subst; econstructor; eauto.
Qed.

(** The successor [s] leaves its place below [old]. *)
Definition detach_successor (child parent node old : loc) : RM loc :=
  (if child =? 0 then mret tt else rb_set_parent child parent);;;
  (if parent =? old then store_right parent child;;; mret node
   else store_left parent child;;; mret parent).

Lemma wp_detach_successor rs root c cs l old s rc ks k F h Q :
  tree_at rs root (plug (T cs E s rc) (ks ++ Fr Rgt c old l :: k)) F h -> all_side Lft ks ->
  (forall h' ns, tree_at rs root (plug rc (ks ++ Fr Rgt c old l :: k)) ((s, ns) :: F) h' ->
     Q (match ks with [] => s | f :: _ => f_loc f end) h') ->
  wp (detach_successor (rootp rc) (cpar (ks ++ Fr Rgt c old l :: k)) s old) h Q.
Proof.
  intros Hh Hks HQ.
  pose proof (tree_cpar rs root Lft cs s E rc _ F h Hh) as Hk.
  pose proof (valid_aligned _ (tree_valid rs root Lft cs s E rc _ F h Hh)) as Hs.
  apply (tree_node rs root Lft cs s E rc) in Hh. unfold detach_successor. run_bind.
  set (K := ks ++ Fr Rgt c old l :: k) in *. simpl rootp in Hh.
  eapply (wp_adopt_child _ _ s rc (cpar K) ((s, nd Lft (cpar K) cs 0 (rootp rc)) :: ccells s K ++ F));
    [exact Hh|simpl; solve_Permutation|done|done|].
  intros h1 H1.
  assert (Hend : forall h', holds (<[root := ptop s K]> rs)
            (cells (cpar K) rc ++ ccells (rootp rc) K ++ (s, nd Lft (cpar K) cs 0 (rootp rc)) :: F) h' ->
          Q (match ks with [] => s | f :: _ => f_loc f end) h').
  { intros h' H'. eapply HQ. rewrite tree_at_zip. unfold zip_at.
    replace (ptop (rootp rc) K) with (ptop s K) by (by destruct ks). exact H'. }
  destruct ks as [|[d c1 p1 s1] ks]; simpl in *.
  - rewrite Z.eqb_refl. run_bind.
    eapply (wp_store_child _ _ old Rgt); [exact H1|apply _|]. intros h2 H2. apply rwp_ret, Hend.
    eapply holds_perm; [exact H2|]. subst K. simpl. solve_Permutation.
  - apply Forall_cons in Hks as [Hd _]. simpl in Hd. subst d.
    assert (exists n R, FindCell old (ccells p1 (ks ++ Fr Rgt c old l :: k)) n R) as (no & R & Hfo).
    { clear. revert p1. induction ks as [|[d2 c2 p2 s2] ks IH]; intros p1; simpl; [do 2 eexists; apply _|].
      destruct (IH p2) as (n & R & Hf). exists n. eexists. apply find_cons, find_app_r. exact Hf. }
    assert (Hne : (p1 =? old) = false).
    { eapply holds_neq; [exact H1|apply _|apply _]. }
    rewrite Hne.
    run_bind. eapply (wp_store_child _ _ p1 Lft); [exact H1|apply _|]. intros h2 H2. apply rwp_ret, Hend.
    eapply holds_perm; [exact H2|]. subst K. simpl. solve_Permutation.
Qed.

(** The successor [s] takes over the links of [old]; [K] comes next. *)
Lemma wp_take_over {A} rs root c l old r s ns k F h (K : RM A) Q :
  tree_at rs root (plug (T c l old r) k) ((s, ns) :: F) h -> l <> E ->
  (forall h' no, tree_at rs root (plug (T c l s r) k) ((old, no) :: F) h' -> wp K h' Q) ->
  wp (o ← load old; store_parent_color s (fun _ => rb_parent_color o);;;
      r ← load_right old; store_right s r;;;
      l ← load_left old; store_left s l;;;
      op ← rb_parent old;
      (if op =? 0 then store_root root s
       else opl ← load_left op;
            if opl =? old then op ← rb_parent old; store_left op s
            else op ← rb_parent old; store_right op s);;;
      ol ← load_left old; rb_set_parent ol s;;;
      or ← load_right old;
      (if or =? 0 then mret tt else or ← load_right old; rb_set_parent or s);;; K) h Q.
Proof.
  intros Hh Hl HQ.
  pose proof (tree_cpar rs root Lft c old l r k _ h Hh) as Hk.
  pose proof (valid_aligned _ (tree_valid rs root Lft c old l r k _ h Hh)) as Hold.
  apply (tree_node rs root Lft c old l r) in Hh.
  assert (Hs : aligned s) by (eapply valid_aligned, holds_valid; [exact Hh|apply _]).
  run_bind. eapply rwp_load; [exact Hh|apply _|]. cbn [rb_parent_color nd].
  run_bind. eapply wp_store; [exact Hh|apply _|]. intros h1 H1.
  run_bind. eapply (wp_child_opp _ _ old Lft); [exact H1|apply _|].
  run_bind. eapply wp_store; [exact H1|apply _|]. intros h2 H2.
  run_bind. eapply (wp_child _ _ old Lft); [exact H2|apply _|].
  run_bind. eapply wp_store; [exact H2|apply _|]. intros h3 H3.
  cbn [rb_parent_color rb_right rb_left] in H3.
  change (mkNode (word (cpar k) c) (rootp r) (rootp l)) with (nd Lft (cpar k) c (rootp l) (rootp r)) in H3.
  run_bind. eapply (wp_parent _ _ old Lft); [exact H3|apply _|done|].
  set (A0 := (s, nd Lft (cpar k) c (rootp l) (rootp r)) :: (old, nd Lft (cpar k) c (rootp l) (rootp r))
               :: cells old l ++ cells old r).
  assert (H3' : zip_at rs root A0 old k F h3).
  { eapply holds_perm; [exact H3|]. subst A0. simpl. solve_Permutation. }
  assert (Hw : wp (relink Lft (cpar k) old s root) h3 (fun _ h4 => zip_at rs root A0 s k F h4)).
  { eapply (wp_relink rs root Lft A0 old); [exact H3'|apply _|]. done. }
  run_bind. eapply rwp_mono with (Q1 := fun _ h4 => zip_at rs root A0 s k F h4).
  { revert Hw. unfold relink. destruct (cpar k =? 0); [done|]. intros Hw%wp_bind_inv. run_bind.
    assert (Hsame : forall v h', load_left (cpar k) h3 = inr (v, h') -> h' = h3).
    { intros v h'. unfold load_left, load, mbind, M_bind. destruct (nodes h3 !! cpar k); [|done].
      unfold mret, M_ret. by intros [= _ ->]. }
    unfold wp in Hw |- *. simpl load_child in Hw.
    destruct (load_left (cpar k) h3) as [|[opl h4]] eqn:El; [done|]. rewrite (Hsame _ _ eq_refl) in *.
    rewrite Z.eqb_sym in Hw.
    destruct (opl =? old); (apply rwp_bind; eapply (wp_parent _ _ old Lft);
      [exact H3'|subst A0; apply _|done|exact Hw]). }
  intros [] h4 H4. unfold zip_at, A0 in H4.
  run_bind. eapply (wp_child _ _ old Lft); [exact H4|apply _|].
  destruct l as [|cl ll q rl]; [done|]. run_bind. cbn [rootp cells] in *.
  eapply (wp_set_parent _ _ q Lft); [exact H4|apply _|done|done|]. intros h5 H5.
  run_bind. eapply (wp_child_opp _ _ old Lft); [exact H5|apply _|].
  run_bind. eapply (wp_adopt _ _ old r s
    (cells s (T cl ll q rl) ++ (s, nd Lft (cpar k) c q (rootp r)) :: (old, nd Lft (cpar k) c q (rootp r))
       :: ccells s k ++ F)); [exact H5|cbn [cells]; solve_Permutation|done|done|..].
  { intros Q' h' -> HQ'. eapply (wp_child_opp _ _ old Lft); [exact H5|apply _|done]. }
  intros h6 H6. eapply (HQ h6). rewrite tree_at_zip. unfold zip_at. cbn [rootp cells] in *.
  eapply holds_perm; [exact H6|]. solve_Permutation.
Qed.

Lemma wp_erase_two rs root n c l old r k m F h Q :
  tree_at rs root (plug (T c l old r) k) F h -> l <> E -> r <> E ->
  rb true m (plug (T c l old r) k) -> (dep (plug (T c l old r) k) <= n)%nat ->
  (forall h' no t, erased rs root ((old, no) :: F)
     (before k ++ (inorder l ++ inorder r) ++ after k) t h' -> Q tt h') ->
  wp (rb_erase_two n old root) h Q.
Proof.
  intros Hh Hl Hr Hrb Hn HQ. unfold rb_erase_two.
  pose proof (dep_plug (T c l old r) k) as Hd. simpl in Hd.
  run_bind. eapply (tree_child_opp rs root Lft); [exact Hh|].
  run_bind. eapply (wp_most rs root Lft n r (Fr Rgt c old l :: k)); [done|lia|exact Hh|].
  intros ks cs s rc -> Hks. simpl mk in *.
  set (K := ks ++ Fr Rgt c old l :: k).
  assert (HK : plug (T c l old (plug (T cs E s rc) ks)) k = plug (T cs E s rc) K)
    by (unfold K; by rewrite plug_app).
  rewrite HK in *. run_bind. eapply (tree_child_opp rs root Lft _ s); [exact Hh|].
  run_bind. eapply (tree_parent rs root Lft _ s); [exact Hh|].
  run_bind. eapply (tree_color rs root Lft _ s); [exact Hh|].
  destruct (erase_fix_pre m Lft cs s rc K (ks ++ Fr Rgt c s l :: k) Hrb) as (m' & Hpre).
  { intros c0 n0. apply rbk_rename. }
  assert (Hlen : (List.length (ks ++ Fr Rgt c s l :: k) <= n)%nat).
  { pose proof (dep_plug (T cs E s rc) K) as HdK.
    replace (List.length (ks ++ Fr Rgt c s l :: k)) with (List.length K)
      by (unfold K; by rewrite !length_app). lia. }
  assert (Hdet : wp (detach_successor (rootp rc) (cpar K) s old) h (fun p2 h2 =>
    p2 = cpar (ks ++ Fr Rgt c s l :: k) /\
    exists ns, tree_at rs root (plug (T c l old (plug rc ks)) k) ((s, ns) :: F) h2)).
  { eapply (wp_detach_successor rs root c cs l old s rc ks k F); [exact Hh|done|].
    intros h2 ns H2. split; [by destruct ks|]. exists ns. by rewrite plug_app in H2. }
  apply wp_bind_inv in Hdet. run_bind. eapply rwp_mono; [exact Hdet|]. intros [] h1 H1.
  run_bind. eapply rwp_mono; [exact H1|]. intros p2 h2 (-> & ns & H2).
  eapply wp_take_over; [exact H2|done|]. intros h3 no H3.
  assert (H3' : tree_at rs root (plug rc (ks ++ Fr Rgt c s l :: k)) ((old, no) :: F) h3)
    by (by rewrite plug_app).
  eapply rwp_mono; [apply (erase_fix _ _ _ n cs rc _ m' h3 _ Hlen H3' eq_refl Hpre)|].
  intros [] h4 (t & Ht). eapply HQ. revert Ht. unfold erased. rewrite plug_app. simpl plug.
  rewrite inorder_plug. cbn [inorder mk]. rewrite !inorder_plug, (before_all_lt ks Hks).
  simpl. intros (? & Hin & ?). split; [done|]. split; [|done]. rewrite Hin.
  by rewrite <- !app_assoc, <- app_comm_cons, <- app_assoc.
Qed.

(** ** Locating a node *)

Lemma tree_split t x xs ys : inorder t = xs ++ x :: ys ->
  exists c l r k, t = plug (T c l x r) k /\
    xs = before k ++ inorder l /\ ys = inorder r ++ after k.
Proof.
  revert xs ys. induction t as [|c l IHl p r IHr]; intros xs ys H; simpl in H;
    [by destruct xs|].
  assert (Hroot : x = p -> xs = inorder l -> ys = inorder r ->
    exists c' l' r' k, T c l p r = plug (T c' l' x r') k /\
      xs = before k ++ inorder l' /\ ys = inorder r' ++ after k).
  { intros -> -> ->. exists c, l, r, []. simpl. by rewrite !app_nil_r. }
  apply app_eq_app in H as [zs [[H1 H2] | [H1 H2]]].
  - destruct zs as [|z zs]; simplify_eq/=; [apply Hroot; [done| |done]; by rewrite app_nil_r in H1|].
    destruct (IHl xs zs H1) as (c' & l' & r' & k & -> & -> & ->).
    exists c', l', r', (k ++ [Fr Lft c p r]). rewrite plug_app, before_app, after_app. simpl.
    split; [done|]. split; [done|]. by rewrite app_nil_r, <- app_assoc.
  - destruct zs as [|z zs]; simpl in H2; injection H2 as <- H2; subst xs;
      [apply Hroot; [done| |done]; by rewrite app_nil_r|].
    destruct (IHr zs ys H2) as (c' & l' & r' & k & -> & -> & ->).
    exists c', l', r', (k ++ [Fr Rgt c p l]). rewrite plug_app, before_app, after_app. simpl.
    split; [done|]. split; [|by rewrite app_nil_r]. by rewrite <- !app_assoc, <- app_comm_cons, <- ?app_assoc.
Qed.

(** ** [rb_erase] *)

Lemma wp_rb_erase rs root t x xs ys F m n h :
  tree_at rs root t F h -> rb true m t -> inorder t = xs ++ x :: ys -> (rb_fuel t <= n)%nat ->
  wp (rb_erase n x root) h (fun _ h' => exists t' nx, erased rs root ((x, nx) :: F) (xs ++ ys) t' h').
Proof.
  intros Hh Hrb Hin Hn. destruct (tree_split _ _ _ _ Hin) as (c & l & r & k & -> & -> & ->).
  pose proof (dep_fuel _ _ Hrb) as Hd. pose proof (dep_plug (T c l x r) k) as Hk.
  replace ((before k ++ inorder l) ++ inorder r ++ after k)
    with (before k ++ (inorder l ++ inorder r) ++ after k) by (by rewrite <- !app_assoc).
  unfold rb_erase. run_bind. eapply (tree_child rs root Lft); [exact Hh|].
  destruct l as [|cl ll q rl].
  - run_bind. eapply (tree_child_opp rs root Lft); [exact Hh|].
    eapply (wp_erase_one rs root n Lft c x r k m F); [exact Hh|done|lia|eauto].
  - assert ((q =? 0) = false) as Hq.
    { apply valid_neq0. exact (tree_valid rs root Lft cl q ll rl (Fr Lft c x r :: k) F h Hh). }
    simpl rootp at 1. rewrite Hq. run_bind. eapply (tree_child_opp rs root Lft); [exact Hh|].
    destruct r as [|cr lr q' rr].
    + simpl rootp at 1. run_bind. eapply (tree_child rs root Lft); [exact Hh|].
      eapply (wp_erase_one rs root n Rgt c x (T cl ll q rl) k m F); [exact Hh|done|lia|].
      rewrite app_nil_r. eauto.
    + assert ((q' =? 0) = false) as Hq'.
      { apply valid_neq0.
        exact (tree_valid rs root Lft cr q' lr rr (Fr Rgt c x (T cl ll q rl) :: k) F h Hh). }
      simpl rootp at 1. rewrite Hq'.
      eapply (wp_erase_two rs root n c _ x _ k m F); [exact Hh|done|done|done|lia|eauto].
Qed.

(** ** No operation allocates or frees *)

Definition keeps_dom {A} (c : RM A) : Prop :=
  forall h a h', c h = inr (a, h') ->
    dom (nodes h') = dom (nodes h) /\ dom (roots h') = dom (roots h).

Lemma keeps_dom_ret {A} (a : A) : keeps_dom (mret a).
Proof. by intros h b h' [= -> ->]. Qed.
Lemma keeps_dom_raise {A} e : keeps_dom (raise e : RM A).
Proof. by intros h b h'. Qed.
Lemma keeps_dom_bind {A B} (c : RM A) (k : A -> RM B) :
  keeps_dom c -> (forall a, keeps_dom (k a)) -> keeps_dom (c ≫= k).
Proof.
  intros Hc Hk h b h'. unfold mbind, M_bind. destruct (c h) as [|[a h1]] eqn:E; [done|].
  intros H. destruct (Hc _ _ _ E) as [H1 H2]. destruct (Hk _ _ _ _ H) as [H3 H4].
  split; by etransitivity.
Qed.
Lemma keeps_dom_load p : keeps_dom (load p).
Proof. intros h b h'. unfold load. destruct (nodes h !! p); by intros [= -> ->]. Qed.
Lemma keeps_dom_load_root p : keeps_dom (load_root p).
Proof. intros h b h'. unfold load_root. destruct (roots h !! p); by intros [= -> ->]. Qed.
Lemma keeps_dom_store p f : keeps_dom (store p f).
Proof.
  intros h b h'. unfold store. destruct (nodes h !! p) eqn:E; [|done]. intros [= <- <-]. simpl.
  split; [|done]. rewrite dom_insert_L. apply elem_of_dom_2 in E. set_solver.
Qed.
Lemma keeps_dom_store_root r q : keeps_dom (store_root r q).
Proof.
  intros h b h'. unfold store_root. destruct (roots h !! r) eqn:E; [|done]. intros [= <- <-]. simpl.
  split; [done|]. rewrite dom_insert_L. apply elem_of_dom_2 in E. set_solver.
Qed.
#[export] Hint Resolve keeps_dom_ret keeps_dom_raise keeps_dom_load keeps_dom_load_root
  keeps_dom_store keeps_dom_store_root : lockdoc.

Ltac keeps_dom_tac :=
  repeat first
    [ progress intros
    | solve [auto 2 with lockdoc]
    | match goal with
      | |- keeps_dom (if ?b then _ else _) => destruct b
      | |- keeps_dom (mbind _ _) => apply keeps_dom_bind
      end
    | progress (unfold and_red, or_black, rb_is_red, rb_is_black, rb_color, rb_parent, load_left, load_right,
        store_left, store_right, rb_set_red, rb_set_black, rb_set_parent, rb_set_color,
        store_parent_color) ].

Lemma keeps_dom_rotate_left p root : keeps_dom (__rb_rotate_left p root).
Proof. unfold __rb_rotate_left. keeps_dom_tac. Qed.
Lemma keeps_dom_rotate_right p root : keeps_dom (__rb_rotate_right p root).
Proof. unfold __rb_rotate_right. keeps_dom_tac. Qed.
Lemma keeps_dom_leftmost n p : keeps_dom (leftmost n p).
Proof. revert p. induction n; intros p; simpl; keeps_dom_tac. Qed.
#[export] Hint Resolve keeps_dom_rotate_left keeps_dom_rotate_right keeps_dom_leftmost : lockdoc.
Lemma keeps_dom_erase_color_loop n p q root : keeps_dom (__rb_erase_color_loop n p q root).
Proof. revert p q. induction n; intros p q; simpl; keeps_dom_tac. Qed.
#[export] Hint Resolve keeps_dom_erase_color_loop : lockdoc.
Lemma keeps_dom_erase_color n p q root : keeps_dom (__rb_erase_color n p q root).
Proof. unfold __rb_erase_color. keeps_dom_tac. Qed.
#[export] Hint Resolve keeps_dom_erase_color : lockdoc.
Lemma keeps_dom_erase n p root : keeps_dom (rb_erase n p root).
Proof. unfold rb_erase, rb_erase_one, rb_erase_two. keeps_dom_tac. Qed.

(** (C25) [rb_erase] of any node of a red-black tree never touches an invalid
    node; with fuel [2 log2 (size + 1)] it ends with a red-black tree of the
    other nodes in their order; the removed node is no part of the tree any more
    and all other nodes and roots are as they were. *)
Theorem rb_erase_correct rs root t x xs ys F m n h :
  tree_at rs root t F h -> rb true m t -> inorder t = xs ++ x :: ys -> (rb_fuel t <= n)%nat ->
  exists h' t' nx, rb_erase n x root h = inr (tt, h') /\
    tree_at rs root t' ((x, nx) :: F) h' /\ inorder t' = xs ++ ys /\ exists m', rb true m' t'.
Proof.
  intros Hh Hrb Hin Hn. destruct (wp_elim _ _ _ (wp_rb_erase _ _ _ _ _ _ _ _ _ _ Hh Hrb Hin Hn))
    as ([] & h' & Hr & t' & nx & Ht). by exists h', t', nx.
Qed.

(** ** Neighbours *)

Definition climb (d : side) : nat -> loc -> RM loc :=
  match d with Lft => climb_left | Rgt => climb_right end.

Lemma climb_unfold d n node : climb d n node =
  (parent ← rb_parent node;
   if parent =? 0 then mret parent else
   c ← load_child d parent;
   if node =? c then match n with O => raise out_of_fuel | S n => climb d n parent end
   else mret parent).
Proof. by destruct d, n. Qed.

(** The nearest ancestor whose child on the other side leads to the focus. *)
Fixpoint ancestor (d : side) (k : list frame) : loc :=
  match k with
  | [] => 0
  | f :: k => if decide (f_side f = d) then ancestor d k else f_loc f
  end.

Lemma wp_climb rs root d n t k F h Q :
  t <> E -> (List.length k <= n)%nat -> tree_at rs root (plug t k) F h -> Q (ancestor d k) h ->
  wp (climb d n (rootp t)) h Q.
Proof.
  revert t n. induction k as [|[d' c p s] k IH]; intros t n Ht Hn Hh HQ;
    rewrite climb_unfold; run_bind;
    destruct t as [|ct l x r]; try done; (eapply (tree_parent rs root Lft ct x l r); [exact Hh|]).
  - by apply rwp_ret.
  - cbn [cpar f_loc].
    rewrite (valid_neq0 p) by exact (tree_valid rs root d' c p (T ct l x r) s k F h Hh).
    run_bind. simpl in HQ. destruct (decide (d' = d)) as [-> | Hd].
    + eapply tree_child; [exact Hh|]. simpl rootp. rewrite Z.eqb_refl.
      destruct n as [|n]; [simpl in Hn; lia|]. rewrite <- (rootp_mk d c p (T ct l x r) s).
      apply (IH (mk d c p (T ct l x r) s) n); [by destruct d|simpl in Hn; lia|exact Hh|exact HQ].
    + assert (d = opp d') as -> by (by destruct d, d').
      eapply tree_child_opp; [exact Hh|].
      change (rootp (T ct l x r)) with x.
      assert ((x =? rootp s) = false) as ->; [|by apply rwp_ret].
      eapply (tree_child_neq rs root d' c p s Lft); exact Hh.
Qed.

Lemma ancestor_after k : ancestor Rgt k = hd 0 (after k).
Proof. induction k as [|[[] c p s] k IH]; simpl; done. Qed.
Lemma ancestor_before k : ancestor Lft k = List.last (before k) 0.
Proof.
  induction k as [|[[] c p s] k IH]; simpl; [done|done|]. by rewrite app_assoc, last_last.
Qed.

Lemma after_all_lt_first t ks c q rc xs :
  t = plug (mk Lft c q E rc) ks -> all_side Lft ks -> hd 0 (inorder t ++ xs) = q.
Proof.
  intros -> Hks. rewrite inorder_plug, (before_all_lt _ Hks). by destruct rc.
Qed.
Lemma after_all_rt ks : all_side Rgt ks -> after ks = [].
Proof. induction 1 as [|[d c p s] ks Hd _ IH]; [done|]. simpl in *. by subst. Qed.
Lemma before_all_rt_last t ks c q lc xs :
  t = plug (mk Rgt c q E lc) ks -> all_side Rgt ks -> List.last (xs ++ inorder t) 0 = q.
Proof.
  intros -> Hks. rewrite inorder_plug, (after_all_rt _ Hks), app_nil_r. simpl.
  by rewrite !app_assoc, last_last.
Qed.

Lemma rwp_pure {A} (c : RM A) h v : wp c h (fun a h' => a = v /\ h' = h) -> c h = inr (v, h).
Proof. intros (a & h' & Hc & -> & ->)%wp_elim. exact Hc. Qed.

Lemma tree_cpar_neq rs root c l x r k F h :
  tree_at rs root (plug (T c l x r) k) F h -> (cpar k =? x) = false.
Proof.
  intros Hh. destruct k as [|[d cp p s] k].
  - rewrite Z.eqb_sym. apply valid_neq0. exact (tree_valid rs root Lft c x l r [] F h Hh).
  - apply (tree_node rs root Lft) in Hh. cbn [cpar f_loc ccells] in *.
    eapply holds_neq; [exact Hh|apply _|apply _].
Qed.

(** The value at the end of a sequence that side [d] leads to. *)
Definition end_of (d : side) (l : list loc) : loc :=
  match d with Lft => hd 0 l | Rgt => List.last l 0 end.

Lemma wp_end rs root d n t F h : tree_at rs root t F h -> (dep t <= S n)%nat ->
  wp (if rootp t =? 0 then mret 0 else most d n (rootp t)) h
    (fun a h' => a = end_of d (inorder t) /\ h' = h).
Proof.
  intros Hh Hd. destruct t as [|c l p r]; [apply rwp_ret; by destruct d|].
  assert (rootp (T c l p r) =? 0 = false) as ->
    by (apply valid_neq0; exact (tree_valid rs root Lft c p l r [] F h Hh)).
  apply (wp_most rs root d n (T c l p r) [] F h); [done|done|exact Hh|].
  intros ks c' q rc E Hks. split; [|done]. destruct d; unfold end_of; symmetry.
  - rewrite <- (app_nil_r (inorder _)). by eapply (after_all_lt_first (T c l p r)).
  - by apply (before_all_rt_last (T c l p r) ks c' q rc []).
Qed.

(** The neighbour of [x] on the other side of [d]: the end of its subtree [b]
    there, or an ancestor. *)
Lemma wp_neighbour rs root d n c x a b k F h :
  tree_at rs root (plug (mk d c x a b) k) F h ->
  (List.length k <= n)%nat /\ (dep b <= S n)%nat ->
  wp (if rootp b =? 0 then climb (opp d) n x else most d n (rootp b)) h
    (fun v h' => v = match d with Lft => hd 0 (inorder b ++ after k)
                    | Rgt => List.last (before k ++ inorder b) 0 end /\ h' = h).
Proof.
  intros Hh [Hk Hb]. destruct b as [|cb lb q rb_].
  - simpl rootp. rewrite Z.eqb_refl. rewrite <- (rootp_mk d c x a E).
    eapply (wp_climb rs root (opp d) n (mk d c x a E) k F h); [by destruct d|done|exact Hh|].
    split; [|done]. destruct d; simpl; [apply ancestor_after|rewrite app_nil_r; apply ancestor_before].
  - rewrite plug_sibling in Hh.
    assert (rootp (T cb lb q rb_) =? 0 = false) as ->
      by (apply valid_neq0; exact (tree_valid rs root Lft cb q lb rb_ _ F h Hh)).
    eapply wp_most; [done|exact Hb|exact Hh|]. intros ks c' q' rc E Hks. split; [|done].
    destruct d; symmetry; [by eapply after_all_lt_first|by eapply before_all_rt_last].
Qed.

Lemma rb_end_run rs root d n t F m h :
  tree_at rs root t F h -> rb true m t -> (rb_fuel t <= n)%nat ->
  (p ← load_root root; if p =? 0 then mret 0 else most d n p) h = inr (end_of d (inorder t), h).
Proof.
  intros Hh Hrb Hn. pose proof (dep_fuel _ _ Hrb) as Hd. apply rwp_pure.
  run_bind. eapply tree_load_root; [exact Hh|]. by apply (wp_end rs root d n t F h Hh ltac:(lia)).
Qed.

Lemma rb_next_run rs root t F m n h xs x ys :
  tree_at rs root t F h -> rb true m t -> (rb_fuel t <= n)%nat -> inorder t = xs ++ x :: ys ->
  rb_next n x h = inr (hd 0 ys, h) /\ rb_prev n x h = inr (List.last xs 0, h).
Proof.
  intros Hh Hrb Hn Hin. pose proof (dep_fuel _ _ Hrb) as Hd.
  destruct (tree_split _ _ _ _ Hin) as (c & l & r & k & -> & -> & ->).
  pose proof (dep_plug (T c l x r) k) as Hk. simpl in Hk.
  pose proof (tree_cpar_neq _ _ _ _ _ _ _ _ _ Hh) as Hne. split; apply rwp_pure.
  + unfold rb_next. run_bind. eapply (tree_parent rs root Lft); [exact Hh|]. rewrite Hne.
    run_bind. eapply (tree_child_opp rs root Lft); [exact Hh|].
    by apply (wp_neighbour rs root Lft n c x l r k F h Hh ltac:(simpl; lia)).
  + unfold rb_prev. run_bind. eapply (tree_parent rs root Lft); [exact Hh|]. rewrite Hne.
    run_bind. eapply (tree_child rs root Lft); [exact Hh|].
    by apply (wp_neighbour rs root Rgt n c x r l k F h Hh ltac:(simpl; lia)).
Qed.

(** (C26) [rb_first] and [rb_last] return the ends of a tree, [rb_next] and
    [rb_prev] the neighbours of a node, and the null pointer where there is
    none; all of them within as much fuel as the tree is deep, and without
    changing the heap. *)
Theorem rb_traversal_correct rs root t F m n h :
  tree_at rs root t F h -> rb true m t -> (rb_fuel t <= n)%nat ->
  rb_first n root h = inr (hd 0 (inorder t), h) /\
  rb_last n root h = inr (List.last (inorder t) 0, h) /\
  forall xs x ys, inorder t = xs ++ x :: ys ->
    rb_next n x h = inr (hd 0 ys, h) /\ rb_prev n x h = inr (List.last xs 0, h).
Proof.
  intros Hh Hrb Hn. split; [|split].
  - by apply (rb_end_run rs root Lft n t F m).
  - by apply (rb_end_run rs root Rgt n t F m).
  - intros xs x ys Hin. by apply (rb_next_run rs root t F m).
Qed.

(** [rb_replace_node] puts another node in the place of one, with its colour. *)
Theorem rb_replace_correct rs root c l x r k nw nn F h :
  tree_at rs root (plug (T c l x r) k) ((nw, nn) :: F) h ->
  exists h' nx, rb_replace_node x nw root h = inr (tt, h') /\
    tree_at rs root (plug (T c l nw r) k) ((x, nx) :: F) h'.
Proof.
  intros Hh.
  assert (Hwp : wp (rb_replace_node x nw root) h (fun _ h' => exists nx,
    tree_at rs root (plug (T c l nw r) k) ((x, nx) :: F) h')).
  { apply (wp_replace rs root Lft c x l r k nw nn F h); [exact Hh|eauto]. }
  apply wp_elim in Hwp as ([] & h' & Hr & nx & Ht). eauto.
Qed.

(** A tree of four nodes. *)
Definition ex_tree : tree := T true (T true E 16 E) 32 (T true E 48 (T false E 64 E)).

Lemma ex_tree_rb : rb true 2 ex_tree.
Proof. repeat econstructor. Qed.
Lemma ex_tree_at : tree_at ∅ 8 ex_tree [] (heap_of 8 ex_tree []).
Proof. apply heap_of_tree_at; apply (bool_decide_unpack _); vm_compute; exact I. Qed.

Lemma rb_erase_correct_witness :
  exists h' t' nx, rb_erase 4 32 8 (heap_of 8 ex_tree []) = inr (tt, h') /\
    tree_at ∅ 8 t' [(32, nx)] h' /\ inorder t' = [16; 48; 64] /\ exists m', rb true m' t'.
Proof.
  apply (rb_erase_correct ∅ 8 ex_tree 32 [16] [48; 64] [] 2 4 _ ex_tree_at ex_tree_rb eq_refl).
  vm_compute. lia.
Defined.

Lemma rb_traversal_correct_witness :
  rb_first 4 8 (heap_of 8 ex_tree []) = inr (16, heap_of 8 ex_tree []) /\
  rb_next 4 48 (heap_of 8 ex_tree []) = inr (64, heap_of 8 ex_tree []).
Proof.
  destruct (rb_traversal_correct ∅ 8 ex_tree [] 2 4 _ ex_tree_at ex_tree_rb) as (Hf & _ & Hn);
    [vm_compute; lia|].
  split; [exact Hf|]. exact (proj1 (Hn [16; 32] 48 [64] eq_refl)).
Defined.

(** ** Searching a red-black tree

    The descent with which the clients of rbtree.h find a node or the place
    for a new one, and what it finds in a sorted tree. *)
(** The loop [while ( *p != NULL)] of the clients: [dir q] says how the key of
    the node [q] compares with the one searched for ([None] when it cannot be
    read).  The result is a node with an equal key, or the empty slot reached
    and its node. *)
Fixpoint rb_search (n : nat) (dir : loc -> option comparison) (p : slot) (parent : loc)
    : RM (slot * loc + loc) :=
  cur ← load_slot p;
  if cur =? 0 then mret (inl (p, parent)) else
  match n with
  | O => raise out_of_fuel
  | S n =>
      match dir cur with
      | None => raise null_node
      | Some Gt => rb_search n dir (LeftSlot cur) cur
      | Some Lt => rb_search n dir (RightSlot cur) cur
      | Some Eq => mret (inr cur)
      end
  end.

(** The same descent on the tree. *)
Fixpoint locate (dir : loc -> comparison) (t : tree) (k : list frame) : list frame + loc :=
  match t with
  | E => inl k
  | T c l p r =>
      match dir p with
      | Gt => locate dir l (Fr Lft c p r :: k)
      | Lt => locate dir r (Fr Rgt c p l :: k)
      | Eq => inr p
      end
  end.

Lemma tree_load_slot rs root t k F h (Q : loc -> rbheap -> Prop) :
  tree_at rs root (plug t k) F h -> Q (rootp t) h -> wp (load_slot (slot_of root k)) h Q.
Proof.
  intros Hh HQ. destruct k as [|[[] c p s] k]; simpl.
  - by eapply tree_load_root.
  - by apply (tree_child rs root Lft c p t s k F h Hh).
  - by apply (tree_child rs root Rgt c p t s k F h Hh).
Qed.

Lemma wp_search rs root dir dirp n t k F h (Q : slot * loc + loc -> rbheap -> Prop) :
  tree_at rs root (plug t k) F h -> (dep t <= n)%nat ->
  (forall p, p ∈ inorder t -> dir p = Some (dirp p)) ->
  Q (match locate dirp t k with inl k' => inl (slot_of root k', cpar k') | inr p => inr p end) h ->
  wp (rb_search n dir (slot_of root k) (cpar k)) h Q.
Proof.
  revert t k. induction n as [|n IH]; intros t k Hh Hn Hdir HQ; simpl; run_bind;
    (eapply tree_load_slot; [exact Hh|]); (destruct t as [|c l p r]; [by apply rwp_ret|simpl in Hn]);
    [lia|].
  simpl rootp. rewrite (valid_neq0 p) by exact (tree_valid rs root Lft c p l r k F h Hh).
  rewrite Hdir by (simpl; set_solver). simpl in HQ. destruct (dirp p).
  - by apply rwp_ret.
  - apply (IH r (Fr Rgt c p l :: k)); [exact Hh|lia| |exact HQ].
    intros q Hq. apply Hdir. simpl. set_solver.
  - apply (IH l (Fr Lft c p r :: k)); [exact Hh|lia| |exact HQ].
    intros q Hq. apply Hdir. simpl. set_solver.
Qed.

(** The keys of a sequence ascend, seen from the key searched for. *)
Definition monotone (dir : loc -> comparison) (l : list loc) : Prop :=
  forall xs p ys, l = xs ++ p :: ys ->
    (dir p = Gt -> Forall (fun q => dir q = Gt) ys) /\
    (dir p = Lt -> Forall (fun q => dir q = Lt) xs).

Lemma locate_correct dir t k :
  monotone dir (inorder (plug t k)) ->
  Forall (fun q => dir q = Lt) (before k) -> Forall (fun q => dir q = Gt) (after k) ->
  match locate dir t k with
  | inl k' => plug E k' = plug t k /\
      Forall (fun q => dir q = Lt) (before k') /\ Forall (fun q => dir q = Gt) (after k')
  | inr p => p ∈ inorder t /\ dir p = Eq
  end.
Proof.
  revert k. induction t as [|c l IHl p r IHr]; intros k Hm Hb Ha; simpl; [done|].
  assert (Hp : inorder (plug (T c l p r) k) = (before k ++ inorder l) ++ p :: (inorder r ++ after k))
    by (rewrite inorder_plug; simpl; by rewrite <- !app_assoc).
  destruct (Hm _ _ _ Hp) as [Hgt Hlt]. destruct (dir p) eqn:Ed.
  - split; [set_solver|done].
  - specialize (IHr (Fr Rgt c p l :: k) Hm). specialize (Hlt eq_refl).
    destruct (locate dir r (Fr Rgt c p l :: k)) as [k'|q].
    + apply IHr; [|done]. simpl. rewrite app_assoc. apply Forall_app. split; [done|].
      by apply Forall_singleton.
    + destruct IHr as [Hq Ed']; [|done|split; [set_solver|done]].
      simpl. rewrite app_assoc. apply Forall_app. split; [done|]. by apply Forall_singleton.
  - specialize (IHl (Fr Lft c p r :: k) Hm). specialize (Hgt eq_refl).
    destruct (locate dir l (Fr Lft c p r :: k)) as [k'|q].
    + apply IHl; [done|]. simpl. by apply Forall_cons.
    + destruct IHl as [Hq Ed']; [done|simpl; by apply Forall_cons|split; [set_solver|done]].
Qed.

(** A search from the root of a red-black tree. *)
Lemma wp_search_root rs root dir dirp n t F m h :
  tree_at rs root t F h -> rb true m t -> (rb_fuel t <= n)%nat ->
  (forall p, p ∈ inorder t -> dir p = Some (dirp p)) -> monotone dirp (inorder t) ->
  exists r, rb_search n dir (RootSlot root) 0 h = inr (r, h) /\
    match r with
    | inl (sl, parent) => exists k, sl = slot_of root k /\ parent = cpar k /\ t = plug E k /\
        Forall (fun q => dirp q = Lt) (before k) /\ Forall (fun q => dirp q = Gt) (after k)
    | inr p => p ∈ inorder t /\ dirp p = Eq
    end.
Proof.
  intros Hh Hrb Hn Hdir Hm. pose proof (dep_fuel _ _ Hrb) as Hd.
  pose proof (locate_correct dirp t [] Hm ltac:(constructor) ltac:(constructor)) as Hloc.
  exists (match locate dirp t [] with inl k' => inl (slot_of root k', cpar k') | inr p => inr p end).
  split.
  - apply rwp_pure. apply (wp_search rs root dir dirp n t [] F h); [exact Hh|lia|exact Hdir|done].
  - destruct (locate dirp t []) as [k|p]; [|done]. destruct Hloc as (? & ? & ?). by exists k.
Qed.
