(* ===== verification/DUtil.v ===== *)
(** * String lists: dwarves/dutil.h and dwarves/dutil.c

    A [strlist] is a red-black tree of [str_node]s ordered by [strcmp].  The
    state has the tree heap, the [s] member of every node, the strings in
    memory and the lists.  [malloc] and [strdup] are parameters that may fail. *)
From S2P Require Import Prelude StdMap RbTree RbRemove.
From Stdlib Require Import Strings.Ascii.
Local Open Scope list_scope.
Local Open Scope Z_scope.

Record ustate := mkU {
  u_rb : rbheap;
  u_s : gmap loc loc;          (* str_node::s *)
  u_mem : gmap loc string;     (* the C strings *)
  u_lists : gmap loc bool      (* strlist::dupstr *)
}.

Definition UM (A : Type) : Type := M ustate exn A.

Definition set_rb (h : rbheap) (st : ustate) : ustate := mkU h (u_s st) (u_mem st) (u_lists st).
Definition set_s (m : gmap loc loc) (st : ustate) : ustate := mkU (u_rb st) m (u_mem st) (u_lists st).
Definition set_mem (m : gmap loc string) (st : ustate) : ustate :=
  mkU (u_rb st) (u_s st) m (u_lists st).
Definition set_lists (m : gmap loc bool) (st : ustate) : ustate :=
  mkU (u_rb st) (u_s st) (u_mem st) m.

(** A computation of rbtree.h. *)
Definition on_tree {A} (c : RM A) : UM A := fun st =>
  match c (u_rb st) with inl e => inl e | inr (a, h) => inr (a, set_rb h st) end.

Definition EEXIST : Z := 17.
Definition ENOMEM : Z := 12.

Definition load_str (q : loc) : UM string := fun st =>
  match u_mem st !! q with
  | Some s => inr (s, st) | None => inl (undefined "dereference of an invalid string")
  end.
Definition load_dupstr (slist : loc) : UM bool := fun st =>
  match u_lists st !! slist with
  | Some b => inr (b, st) | None => inl (undefined "dereference of an invalid strlist")
  end.
Definition load_s (p : loc) : UM loc := fun st =>
  match u_s st !! p with
  | Some q => inr (q, st) | None => inl (undefined "dereference of an invalid str_node")
  end.

Definition is_power_of_2 (n : Z) : bool := negb (n =? 0) && (Z.land n (n - 1) =? 0).
Definition roundup (x y : Z) : Z := (x + (y - 1)) / y * y.

(** [strcmp] of the string of a node with [new_entry], as a search direction. *)
Definition strcmp_dir (st : ustate) (new_entry : loc) (p : loc) : option comparison :=
  q ← u_s st !! p; a ← u_mem st !! q; b ← u_mem st !! new_entry; Some (kcmp a b).

Section StrList.
(** [malloc] of a node, with its garbage, and of the copy made by [strdup]. *)
Context (alloc_node : ustate -> option (loc * rb_node)) (alloc_str : ustate -> option loc)
  (alloc_list : ustate -> option (loc * loc)).

Definition free_node (p : loc) : UM unit :=
  modify (fun st => set_s (delete p (u_s st))
    (set_rb (mkRbheap (delete p (nodes (u_rb st))) (roots (u_rb st))) st)).
Definition free_str (q : loc) : UM unit :=
  modify (fun st => set_mem (delete q (u_mem st)) st).

(** [malloc(sizeof( *snode))]; 0 when it fails. *)
Definition malloc_node : UM loc := fun st =>
  match alloc_node st with
  | None => inr (0, st)
  | Some (p, n) => inr (p, set_s (<[p := 0]> (u_s st))
      (set_rb (mkRbheap (<[p := n]> (nodes (u_rb st))) (roots (u_rb st))) st))
  end.

Definition malloc_str (str : string) : UM loc := fun st =>
  match alloc_str st with
  | None => inr (0, st)
  | Some q => inr (q, set_mem (<[q := str]> (u_mem st)) st)
  end.
Definition strdup (s : loc) : UM loc := str ← load_str s; malloc_str str.

Definition store_s (p q : loc) : UM unit :=
  modify (fun st => set_s (<[p := q]> (u_s st)) st).

Definition str_node__new (s : loc) (dupstr : bool) : UM loc :=
  snode ← malloc_node;
  if snode =? 0 then mret snode else
  if dupstr then
    s ← strdup s;
    if s =? 0 then free_node snode;;; mret 0 else store_s snode s;;; mret snode
  else store_s snode s;;; mret snode.

Definition str_node__delete (snode : loc) (dupstr : bool) : UM unit :=
  (if dupstr then s ← load_s snode; free_str s else mret tt);;;
  free_node snode.

Definition strlist__add (n : nat) (slist new_entry : loc) : UM Z :=
  st ← get_st;
  r ← on_tree (rb_search n (strcmp_dir st new_entry) (RootSlot slist) 0);
  match r with
  | inr _ => mret (- EEXIST)
  | inl (p, parent) =>
      dup ← load_dupstr slist;
      sn ← str_node__new new_entry dup;
      if sn =? 0 then mret (- ENOMEM) else
      on_tree (rb_link_node sn parent p);;;
      on_tree (rb_insert_color n sn slist);;;
      mret 0
  end.

Definition strlist__has_entry (n : nat) (slist entry : loc) : UM bool :=
  st ← get_st;
  r ← on_tree (rb_search n (strcmp_dir st entry) (RootSlot slist) 0);
  match r with inr _ => mret true | inl _ => mret false end.

Definition strlist__remove (n : nat) (slist sn : loc) : UM unit :=
  on_tree (rb_erase n sn slist);;;
  dup ← load_dupstr slist;
  str_node__delete sn dup.

(** The loop of [strlist__delete] over [k] nodes. *)
Fixpoint strlist__delete_loop (k n : nat) (slist next : loc) : UM unit :=
  if next =? 0 then mret tt else
  match k with
  | O => raise out_of_fuel
  | S k =>
      next' ← on_tree (rb_next n next);
      strlist__remove n slist next;;;
      strlist__delete_loop k n slist next'
  end.

Definition free_list (slist : loc) : UM unit :=
  modify (fun st => set_lists (delete slist (u_lists st))
    (set_rb (mkRbheap (nodes (u_rb st)) (delete slist (roots (u_rb st)))) st)).

Definition strlist__delete (k n : nat) (slist : loc) : UM unit :=
  if slist =? 0 then mret tt else
  next ← on_tree (rb_first n slist);
  strlist__delete_loop k n slist next;;;
  on_tree (store_root slist 0);;;
  free_list slist.

(** [malloc(sizeof( *slist))] yields the address and the garbage of [rb_node]. *)
Definition strlist__new (dupstr : bool) : UM loc := fun st =>
  match alloc_list st with
  | None => inr (0, st)
  | Some (slist, _) => inr (slist, set_lists (<[slist := dupstr]> (u_lists st))
      (set_rb (mkRbheap (nodes (u_rb st)) (<[slist := 0]> (roots (u_rb st)))) st))
  end.

Definition strlist__empty (n : nat) (slist : loc) : UM bool :=
  p ← on_tree (rb_first n slist); mret (p =? 0).

(** ** Loading a file *)

(** [fgets(buf, size + 1)]: at most [size] bytes, up to and with a newline. *)
Fixpoint fgets (size : nat) (s : string) : string * string :=
  match size, s with
  | S size, String c s' =>
      if Ascii.eqb c "010"%char then (String c EmptyString, s')
      else let '(l, r) := fgets size s' in (String c l, r)
  | _, _ => (EmptyString, s)
  end.

(** The bytes before the first NUL. *)
Fixpoint cstr (s : string) : string :=
  match s with
  | EmptyString => EmptyString
  | String c s => if Ascii.eqb c "000"%char then EmptyString else String c (cstr s)
  end.

(** [entry[len - 1] = '\0'] *)
Fixpoint drop_last (s : string) : string :=
  match s with
  | EmptyString | String _ EmptyString => EmptyString
  | String c s => String c (drop_last s)
  end.

Definition store_str (q : loc) (s : string) : UM unit :=
  modify (fun st => set_mem (<[q := s]> (u_mem st)) st).

Fixpoint strlist__load_loop (k n : nat) (slist entry : loc) (file : string) : UM Z :=
  match file with
  | EmptyString => mret 0
  | _ =>
      match k with
      | O => raise out_of_fuel
      | S k =>
          let '(line, rest) := fgets 1023 file in
          store_str entry (cstr line);;;
          (if (String.length (cstr line) =? 0)%nat
           then strlist__load_loop k n slist entry rest
           else
             store_str entry (drop_last (cstr line));;;
             rc ← strlist__add n slist entry;
             if rc =? 0 then strlist__load_loop k n slist entry rest else mret (-1))
      end
  end.

(** [file] is what [fopen] and [fgets] deliver, [entry] the local buffer. *)
Definition strlist__load (n : nat) (slist entry : loc) (file : option string) : UM Z :=
  match file with
  | None => mret (-1)
  | Some f => strlist__load_loop (String.length f) n slist entry f
  end.

End StrList.
