(* ===== verification/DUtilProps.v ===== *)
(** * What the string lists do

    A string list holds a strictly sorted sequence of strings; adding, testing,
    loading a file and deleting act on that sequence. *)
From S2P Require Import Prelude StdMap RbTree RbTreeRep RbInsert RbRemove DUtil.
From Stdlib Require Import Strings.Ascii.
Local Open Scope list_scope.
Local Open Scope Z_scope.

(** ** Sorted sequences *)

Definition key_lt (a b : string) : Prop := kcmp a b = Lt.

Lemma key_lt_gt a b : kcmp a b = Gt <-> key_lt b a.
Proof. unfold key_lt. rewrite (kcmp_antisym b a). destruct (kcmp b a); simpl; split; done. Qed.

Lemma key_lt_irrefl a : ~ key_lt a a.
Proof. unfold key_lt. assert (kcmp a a = Eq) as -> by (by apply kcmp_eq). done. Qed.

Lemma sorted_NoDup X : StronglySorted key_lt X -> NoDup X.
Proof.
  induction 1 as [|a l _ IH H]; constructor; [|done].
  intros Hx. rewrite Forall_forall in H. by apply (key_lt_irrefl a), H.
Qed.

Lemma monotone_sorted (f : loc -> string) e l :
  StronglySorted key_lt (f <$> l) -> monotone (fun p => kcmp (f p) e) l.
Proof.
  intros Hs xs p ys ->. rewrite fmap_app, fmap_cons in Hs.
  apply sorted_mid in Hs as [H1 H2]. rewrite !Forall_fmap in *. split; intros Hp.
  - apply key_lt_gt in Hp. eapply Forall_impl; [exact H2|]. intros q Hq.
    apply key_lt_gt. eapply kcmp_trans; [exact Hp|exact Hq].
  - eapply Forall_impl; [exact H1|]. intros q Hq. eapply kcmp_trans; [exact Hq|exact Hp].
Qed.

(** ** Representation *)

(** Iterations that suffice for a list of [X]. *)
Definition list_fuel (X : list string) : nat := 2 * Nat.log2 (S (List.length X)).

(** The node [p] has the string [q] with the contents [e]. *)
Definition node_str (st : ustate) (pq : loc * loc) (e : string) : Prop :=
  u_s st !! pq.1 = Some pq.2 /\ u_mem st !! pq.2 = Some e.

(** The list at [slist] has the nodes and strings [ns], with the contents [X];
    its copies are its own. *)
Record strlist_rep (rs : gmap loc loc) (F : list cell) (slist : loc) (dup : bool)
    (ns : list (loc * loc)) (X : list string) (st : ustate) : Prop := {
  sr_tree : exists t m, tree_at rs slist t F (u_rb st) /\ rb true m t /\ inorder t = ns.*1;
  sr_list : u_lists st !! slist = Some dup;
  sr_sorted : StronglySorted key_lt X;
  sr_strs : Forall2 (node_str st) ns X;
  sr_own : dup = true -> NoDup ns.*2
}.

(** [malloc] and [strdup] return fresh memory or fail. *)
Record alloc_ok (alloc_node : ustate -> option (loc * rb_node)) (alloc_str : ustate -> option loc)
    : Prop := {
  ao_node : forall st p n, alloc_node st = Some (p, n) ->
    valid p /\ nodes (u_rb st) !! p = None /\ u_s st !! p = None;
  ao_str : forall st q, alloc_str st = Some q -> q <> 0 /\ u_mem st !! q = None
}.

Definition str_of (st : ustate) (p : loc) : string :=
  default EmptyString (q ← u_s st !! p; u_mem st !! q).

Lemma node_str_of st ns X : Forall2 (node_str st) ns X -> str_of st <$> ns.*1 = X.
Proof.
  induction 1 as [|[p q] e ns X [H1 H2] _ IH]; [done|]. rewrite !fmap_cons, IH. f_equal.
  unfold str_of. cbn [fst snd] in *. rewrite H1. simpl. by rewrite H2.
Qed.

Lemma rep_dir st ns X a e p :
  Forall2 (node_str st) ns X -> u_mem st !! a = Some e -> p ∈ ns.*1 ->
  strcmp_dir st a p = Some (kcmp (str_of st p) e).
Proof.
  intros Hns Ha ([p' q] & -> & Hin)%list_elem_of_fmap. unfold strcmp_dir, str_of. simpl.
  apply list_elem_of_lookup in Hin as [i Hi].
  destruct (Forall2_lookup_l _ _ _ _ _ Hns Hi) as (s & _ & H1 & H2). cbn [fst snd] in *.
  rewrite H1. simpl. rewrite H2. simpl. by rewrite Ha.
Qed.

Lemma list_fuel_tree t ns st X :
  Forall2 (node_str st) ns X -> inorder t = ns.*1 -> list_fuel X = rb_fuel t.
Proof.
  intros Hns Hin. unfold list_fuel, rb_fuel. rewrite Hin, length_fmap.
  by rewrite (Forall2_length _ _ _ Hns).
Qed.

(** The search in a list. *)
Lemma rep_search rs F slist dup ns X st a e n :
  strlist_rep rs F slist dup ns X st -> u_mem st !! a = Some e -> (list_fuel X <= n)%nat ->
  exists r, rb_search n (strcmp_dir st a) (RootSlot slist) 0 (u_rb st) = inr (r, u_rb st) /\
    match r with
    | inr _ => e ∈ X
    | inl (sl, parent) => exists k m, sl = slot_of slist k /\ parent = cpar k /\
        tree_at rs slist (plug E k) F (u_rb st) /\ rb true m (plug E k) /\
        before k ++ after k = ns.*1 /\ (list_fuel X = rb_fuel (plug E k)) /\
        Forall (fun q => key_lt (str_of st q) e) (before k) /\
        Forall (fun q => key_lt e (str_of st q)) (after k) /\ e ∉ X
    end.
Proof.
  intros [(t & m & Ht & Hrb & Hin) Hl Hs Hns Hown] Ha Hn.
  pose proof (list_fuel_tree t ns st X Hns Hin) as Hf.
  pose proof (node_str_of _ _ _ Hns) as HX.
  destruct (wp_search_root rs slist (strcmp_dir st a) (fun p => kcmp (str_of st p) e) n t F m (u_rb st))
    as (r & Hr & Hres); [done|done|lia| | |].
  { intros p Hp. rewrite Hin in Hp. by eapply rep_dir. }
  { apply monotone_sorted. by rewrite Hin, HX. }
  exists r. split; [done|]. destruct r as [[sl parent]|p].
  - destruct Hres as (k & -> & -> & -> & Hb & Hak). exists k, m. rewrite inorder_plug in Hin.
    simpl in Hin. do 4 (split; [done|]). split; [done|]. split; [done|]. split; [exact Hb|].
    split; [eapply Forall_impl; [exact Hak|]; intros q; apply key_lt_gt|].
    rewrite <- HX, <- Hin, fmap_app. intros [Hx | Hx]%elem_of_app;
      apply list_elem_of_fmap in Hx as (q & -> & Hq).
    + rewrite Forall_forall in Hb. by apply (key_lt_irrefl (str_of st q)), Hb.
    + rewrite Forall_forall in Hak. specialize (Hak q Hq). apply key_lt_gt in Hak.
      by apply (key_lt_irrefl (str_of st q)).
  - destruct Hres as [Hp Heq]. apply kcmp_eq in Heq as <-. rewrite <- HX.
    apply list_elem_of_fmap. exists p. by rewrite <- Hin.
Qed.

(** ** Adding *)

Lemma on_tree_run {A} (c : RM A) st a h :
  c (u_rb st) = inr (a, h) -> on_tree c st = inr (a, set_rb h st).
Proof. unfold on_tree. by intros ->. Qed.

Lemma ubind_step {A B} (c : UM A) (k : A -> UM B) st a st1 :
  c st = inr (a, st1) -> (c ≫= k) st = k a st1.
Proof. unfold mbind, M_bind. by intros ->. Qed.

Lemma set_rb_id st : set_rb (u_rb st) st = st.
Proof. by destruct st. Qed.

Section Add.
Context (alloc_node : ustate -> option (loc * rb_node)) (alloc_str : ustate -> option loc).
Hypothesis Halloc : alloc_ok alloc_node alloc_str.

(** What a successful [str_node__new] makes of the state. *)
Definition new_node (st : ustate) (s : loc) (e : string) (dup : bool) (p q : loc) (n : rb_node)
    (st' : ustate) : Prop :=
  (valid p /\ nodes (u_rb st) !! p = None /\ u_s st !! p = None) /\
  u_rb st' = mkRbheap (<[p := n]> (nodes (u_rb st))) (roots (u_rb st)) /\
  u_s st' = <[p := q]> (u_s st) /\ u_lists st' = u_lists st /\
  if dup then u_mem st !! q = None /\ u_mem st' = <[q := e]> (u_mem st)
  else q = s /\ u_mem st' = u_mem st.

Lemma strdup_run s e st : u_mem st !! s = Some e ->
  strdup alloc_str s st =
    match alloc_str st with
    | None => inr (0, st) | Some q => inr (q, set_mem (<[q := e]> (u_mem st)) st)
    end.
Proof. intros Hs. unfold strdup, load_str, mbind, M_bind. by rewrite Hs. Qed.

Definition with_node (p : loc) (n : rb_node) (st : ustate) : ustate :=
  set_s (<[p := 0]> (u_s st))
    (set_rb (mkRbheap (<[p := n]> (nodes (u_rb st))) (roots (u_rb st))) st).

Lemma malloc_node_run st : malloc_node alloc_node st =
  match alloc_node st with
  | None => inr (0, st) | Some (p, n) => inr (p, with_node p n st)
  end.
Proof. reflexivity. Qed.

Lemma free_with_node p n st : nodes (u_rb st) !! p = None -> u_s st !! p = None ->
  free_node p (with_node p n st) = inr (tt, st).
Proof.
  intros Hp Hs. unfold free_node, modify, with_node, set_s, set_rb. cbn [u_s u_rb u_mem u_lists nodes roots].
  rewrite !delete_insert_id by done. by destruct st as [[] ? ? ?].
Qed.

Lemma str_node__new_run s e dup st : u_mem st !! s = Some e ->
  str_node__new alloc_node alloc_str s dup st = inr (0, st)
    /\ (alloc_node st = None \/ exists st', alloc_str st' = None) \/
  exists p q n st', str_node__new alloc_node alloc_str s dup st = inr (p, st') /\
    new_node st s e dup p q n st'.
Proof.
  intros Hs. unfold str_node__new.
  destruct (alloc_node st) as [[p n]|] eqn:Ea.
  2: { left. split; [|by left]. erewrite ubind_step; [|by rewrite malloc_node_run, Ea]. done. }
  destruct (ao_node _ _ Halloc st p n Ea) as (Hv & Hp & Hsp).
  erewrite ubind_step; [|rewrite malloc_node_run, Ea; reflexivity].
  rewrite (valid_neq0 p Hv). destruct dup.
  - assert (Hs' : u_mem (with_node p n st) !! s = Some e) by exact Hs.
    destruct (alloc_str (with_node p n st)) as [q|] eqn:Eq.
    + destruct (ao_str _ _ Halloc _ _ Eq) as [Hq0 Hq].
      right. exists p, q, n. eexists. split.
      { erewrite ubind_step; [|by rewrite (strdup_run s e _ Hs'), Eq].
        rewrite (proj2 (Z.eqb_neq q 0)) by done. reflexivity. }
      unfold new_node. cbn [u_rb u_s u_lists u_mem set_s set_mem set_rb with_node].
      rewrite insert_insert_eq. by split_and!.
    + left. split; [|right; by eexists].
      erewrite ubind_step; [|by rewrite (strdup_run s e _ Hs'), Eq]. cbv beta. change (0 =? 0) with true.
      cbv iota.
      erewrite ubind_step; [|by apply free_with_node]. done.
  - right. exists p, s, n. eexists. split; [reflexivity|].
    unfold new_node. cbn [u_rb u_s u_lists u_mem set_s set_mem set_rb with_node].
    rewrite insert_insert_eq. by split_and!.
Qed.

(** The strings of the nodes survive a change elsewhere. *)
Lemma node_strs_frame st st' ns X :
  (forall p q e, u_s st !! p = Some q -> u_mem st !! q = Some e -> (p, q) ∈ ns ->
     u_s st' !! p = Some q /\ u_mem st' !! q = Some e) ->
  Forall2 (node_str st) ns X -> Forall2 (node_str st') ns X.
Proof.
  intros Hf Hns. induction Hns as [|[p q] e ns X [H1 H2] _ IH]; [constructor|].
  constructor; [by apply Hf; [..|left]|]. apply IH. intros p' q' e' ? ? ?. apply Hf; try done. by right.
Qed.

Lemma new_node_strs st s e dup p q n st' ns X :
  new_node st s e dup p q n st' -> Forall2 (node_str st) ns X -> Forall2 (node_str st') ns X.
Proof.
  intros ((_ & _ & Hp) & _ & Hs & _ & Hm). apply node_strs_frame. intros p' q' e' H1 H2 _.
  rewrite Hs. rewrite lookup_insert_ne by congruence. split; [done|].
  destruct dup; destruct Hm as [Hq ->]; [|done]. rewrite lookup_insert_ne; [done|congruence].
Qed.

Lemma tree_at_root_in rs root t F h : tree_at rs root t F h -> is_Some (roots h !! root).
Proof. intros [-> _]. rewrite lookup_insert_eq. eauto. Qed.

(** Linking the new node into the list. *)
Lemma rep_link rs F slist dup ns X st a e k m p q n nn st' :
  strlist_rep rs F slist dup ns X st -> u_mem st !! a = Some e ->
  new_node st a e dup p q nn st' ->
  tree_at rs slist (plug E k) F (u_rb st) -> rb true m (plug E k) -> before k ++ after k = ns.*1 ->
  (rb_fuel (plug E k) <= n)%nat -> Forall (fun q => key_lt (str_of st q) e) (before k) ->
  Forall (fun q => key_lt e (str_of st q)) (after k) ->
  exists h, rb_insert n p (cpar k) (slot_of slist k) slist (u_rb st') = inr (tt, h) /\
  exists ns' xs ys, X = xs ++ ys /\ ns' ≡ₚ (p, q) :: ns /\
    strlist_rep rs F slist dup ns' (xs ++ e :: ys) (set_rb h st').
Proof.
  intros [_ Hl Hs Hns Hown] Ha Hnew Ht Hrb Hin Hn Hb Hk.
  pose proof (new_node_strs _ _ _ _ _ _ _ _ _ _ Hnew Hns) as Hns'.
  destruct Hnew as ((Hv & Hp & Hsp) & Hrb' & Hs' & Hl' & Hm').
  rewrite Hrb'. apply (tree_at_alloc _ _ _ _ _ p nn) in Ht; [|done|done].
  destruct (wp_elim _ _ _ (wp_rb_insert rs slist p nn k F m n _ Ht Hrb Hn))
    as ([] & h & Hr & t' & Ht' & Hin' & Hrb2).
  exists h. split; [exact Hr|].
  pose proof (node_str_of _ _ _ Hns) as HX.
  symmetry in Hin. apply fmap_app_inv in Hin as (n1 & n2 & Hb1 & Hk2 & ->).
  apply Forall2_app_inv_l in Hns as (xs & ys & Hx & Hy & ->).
  apply Forall2_app_inv_l in Hns' as (xs' & ys' & Hx' & Hy' & E).
  assert (xs' = xs /\ ys' = ys) as [-> ->].
  { apply app_inj_1 in E; [naive_solver|].
    by rewrite <- (Forall2_length _ _ _ Hx), <- (Forall2_length _ _ _ Hx'). }
  exists (n1 ++ (p, q) :: n2), xs, ys. split; [done|]. split; [solve_Permutation|].
  split.
  - destruct Hrb2 as [m' Hrb2]. exists t', m'. split; [done|]. split; [done|].
    by rewrite fmap_app, fmap_cons, Hin', Hb1, Hk2.
  - cbn [u_lists set_rb]. by rewrite Hl'.
  - apply sorted_insert; [done| |].
    + rewrite <- (node_str_of _ _ _ Hx), <- Hb1. by apply Forall_fmap.
    + rewrite <- (node_str_of _ _ _ Hy), <- Hk2. by apply Forall_fmap.
  - apply Forall2_app; [exact Hx'|]. constructor; [|exact Hy'].
    unfold node_str. cbn [fst snd u_s u_mem set_rb]. rewrite Hs', lookup_insert_eq. split; [done|].
    destruct dup; destruct Hm' as [Hq ->]; [by rewrite lookup_insert_eq|by subst].
  - intros ->. specialize (Hown eq_refl). destruct Hm' as [Hq _].
    assert (Hperm : (n1 ++ (p, q) :: n2).*2 ≡ₚ q :: (n1 ++ n2).*2)
      by (rewrite !fmap_app, fmap_cons; simpl; solve_Permutation).
    rewrite Hperm. apply NoDup_cons. split; [|done].
    intros ([p' q'] & Eq & Hin2)%list_elem_of_fmap. simpl in Eq. subst q'.
    pose proof (Forall2_app Hx Hy) as Hxy.
    apply list_elem_of_lookup in Hin2 as [i Hi].
    destruct (Forall2_lookup_l _ _ _ _ _ Hxy Hi) as (s & _ & _ & Hmem). simpl in Hmem. congruence.
Qed.

(** The outcomes of [strlist__add]. *)
Lemma strlist_add_run rs F slist dup ns X st a e n :
  strlist_rep rs F slist dup ns X st -> u_mem st !! a = Some e -> (list_fuel X <= n)%nat ->
  let add := strlist__add alloc_node alloc_str n slist a st in
  e ∈ X /\ add = inr (- EEXIST, st) \/
  e ∉ X /\ add = inr (- ENOMEM, st) /\ (alloc_node st = None \/ exists st', alloc_str st' = None) \/
  e ∉ X /\ exists st' ns' xs ys p q, add = inr (0, st') /\ X = xs ++ ys /\ ns' ≡ₚ (p, q) :: ns /\
    strlist_rep rs F slist dup ns' (xs ++ e :: ys) st' /\
    (if dup then u_mem st !! q = None /\ u_mem st' = <[q := e]> (u_mem st)
     else q = a /\ u_mem st' = u_mem st).
Proof.
  intros Hrep Ha Hn add. subst add.
  destruct (rep_search rs F slist dup ns X st a e n Hrep Ha Hn) as (r & Hr & Hres).
  unfold strlist__add. rewrite (ubind_step get_st _ st st st eq_refl).
  rewrite (ubind_step _ _ _ _ _ (on_tree_run _ _ _ _ Hr)). rewrite set_rb_id.
  destruct r as [[sl parent]|p]; [right|by left].
  destruct Hres as (k & m & -> & -> & Ht & Hrb & Hin & Hf & Hb & Hk & Hni).
  assert (Hld : load_dupstr slist st = inr (dup, st))
    by (unfold load_dupstr; by rewrite (sr_list _ _ _ _ _ _ _ Hrep)).
  rewrite (ubind_step _ _ _ _ _ Hld).
  destruct (str_node__new_run a e dup st Ha) as [[Hnew Hfail] | (p & q & nn & st' & Hnew & Hnn)].
  - left. split; [done|]. split; [|done]. rewrite (ubind_step _ _ _ _ _ Hnew). done.
  - right. split; [done|]. rewrite (ubind_step _ _ _ _ _ Hnew).
    destruct (rep_link rs F slist dup ns X st a e k m p q n nn st' Hrep Ha Hnn Ht Hrb Hin)
      as (h & Hi & ns' & xs & ys & HX & Hns' & Hrep'); [lia|done|done|].
    destruct Hnn as ((Hv & _) & _ & _ & _ & Hm). rewrite (valid_neq0 p Hv).
    exists (set_rb h st'), ns', xs, ys, p, q. split; [|done].
    unfold rb_insert in Hi. unfold mbind, M_bind in Hi.
    destruct (rb_link_node p (cpar k) (slot_of slist k) (u_rb st')) as [|[[] h1]] eqn:El; [done|].
    rewrite (ubind_step _ _ _ _ _ (on_tree_run _ _ _ _ El)).
    rewrite (ubind_step (on_tree (rb_insert_color n p slist)) _ (set_rb h1 st') tt (set_rb h st')); [done|].
    unfold on_tree. cbn [u_rb set_rb]. rewrite Hi. done.
Qed.
End Add.

Lemma strlist_has_run rs F slist dup ns X st a e n :
  strlist_rep rs F slist dup ns X st -> u_mem st !! a = Some e -> (list_fuel X <= n)%nat ->
  strlist__has_entry n slist a st = inr (bool_decide (e ∈ X), st).
Proof.
  intros Hrep Ha Hn. destruct (rep_search _ _ _ _ _ _ _ _ _ _ Hrep Ha Hn) as (r & Hr & Hres).
  unfold strlist__has_entry. rewrite (ubind_step get_st _ st st st eq_refl).
  rewrite (ubind_step _ _ _ _ _ (on_tree_run _ _ _ _ Hr)), set_rb_id.
  destruct r as [[sl parent]|p].
  - destruct Hres as (k & m & _ & _ & _ & _ & _ & _ & _ & _ & Hni).
    by rewrite bool_decide_eq_false_2.
  - by rewrite bool_decide_eq_true_2.
Qed.

(** (C27) A string list is the strictly sorted sequence of its strings:
    [strlist__has_entry] is membership; [strlist__add] refuses a string it
    already has with [-EEXIST], inserts a new one at its place, and reports
    [-ENOMEM] only when an allocation fails; in both error cases the state is
    unchanged. *)
Theorem strlist_add_correct alloc_node alloc_str rs F slist dup ns X st a e n :
  alloc_ok alloc_node alloc_str ->
  strlist_rep rs F slist dup ns X st -> u_mem st !! a = Some e -> (list_fuel X <= n)%nat ->
  strlist__has_entry n slist a st = inr (bool_decide (e ∈ X), st) /\
  (e ∈ X -> strlist__add alloc_node alloc_str n slist a st = inr (- EEXIST, st)) /\
  (e ∉ X ->
     strlist__add alloc_node alloc_str n slist a st = inr (- ENOMEM, st)
       /\ (alloc_node st = None \/ exists st', alloc_str st' = None) \/
     exists st' ns' xs ys, strlist__add alloc_node alloc_str n slist a st = inr (0, st') /\
       X = xs ++ ys /\ strlist_rep rs F slist dup ns' (xs ++ e :: ys) st').
Proof.
  intros Hao Hrep Ha Hn. split; [by eapply strlist_has_run|].
  destruct (strlist_add_run alloc_node alloc_str Hao rs F slist dup ns X st a e n Hrep Ha Hn)
    as [[? ?] | [(? & ? & ?) | (? & st' & ns' & xs & ys & p & q & ? & ? & _ & ? & _)]];
    (split; [done || (intros ?; done)|]); intros ?; try done; [by left|].
  right. by exists st', ns', xs, ys.
Qed.

(** ** Loading *)

(** The entries that [strlist__load] takes from a file. *)
Fixpoint file_entries (k : nat) (file : string) : list string :=
  match file, k with
  | EmptyString, _ | _, O => []
  | _, S k =>
      let '(line, rest) := fgets 1023 file in
      (if (String.length (cstr line) =? 0)%nat then [] else [drop_last (cstr line)])
        ++ file_entries k rest
  end.

Lemma fgets_consumes size s l r : fgets (S size) s = (l, r) -> s <> EmptyString ->
  (String.length r < String.length s)%nat.
Proof.
  revert s l r. induction size as [|size IH]; intros [|c s] l r H Hne; try done; simpl in H.
  - destruct (Ascii.eqb c "010"%char); injection H as <- <-; simpl; lia.
  - destruct (Ascii.eqb c "010"%char); [injection H as <- <-; simpl; lia|].
    destruct s as [|c' s]; [injection H as <- <-; simpl; lia|].
    destruct (if Ascii.eqb c' "010"%char then _ else _) as [l' r'] eqn:E.
    injection H as <- <-. specialize (IH (String c' s) l' r' E ltac:(done)). simpl in *. lia.
Qed.

(** The string at the buffer changes. *)
Lemma rep_store_str rs F slist dup ns X st b s :
  b ∉ ns.*2 -> strlist_rep rs F slist dup ns X st ->
  strlist_rep rs F slist dup ns X (set_mem (<[b := s]> (u_mem st)) st).
Proof.
  intros Hb [Ht Hl Hs Hns Hown]. split; try done.
  eapply node_strs_frame; [|exact Hns]. intros p q e H1 H2 Hin. split; [done|].
  cbn [u_mem set_mem]. rewrite lookup_insert_ne; [done|]. intros ->. apply Hb.
  apply list_elem_of_fmap. by exists (p, q).
Qed.

Lemma list_fuel_mono X Y : (List.length X <= List.length Y)%nat -> (list_fuel X <= list_fuel Y)%nat.
Proof.
  intros H. unfold list_fuel. pose proof (Nat.log2_le_mono (S (List.length X)) (S (List.length Y))). lia.
Qed.

Section Load.
Context (alloc_node : ustate -> option (loc * rb_node)) (alloc_str : ustate -> option loc).
Hypothesis Halloc : alloc_ok alloc_node alloc_str.
Hypothesis Hnode : forall st, alloc_node st <> None.
Hypothesis Hstr : forall st, alloc_str st <> None.

Lemma strlist_load_run rs F slist entry n k : forall file ns X st,
  (String.length file <= k)%nat -> strlist_rep rs F slist true ns X st ->
  is_Some (u_mem st !! entry) -> entry ∉ ns.*2 ->
  (list_fuel (X ++ file_entries k file) <= n)%nat ->
  exists rc st' ns' X',
    strlist__load_loop alloc_node alloc_str k n slist entry file st = inr (rc, st') /\
    strlist_rep rs F slist true ns' X' st' /\
    (NoDup (X ++ file_entries k file) /\ rc = 0 /\ X' ≡ₚ X ++ file_entries k file \/
     ~ NoDup (X ++ file_entries k file) /\ rc = -1).
Proof.
  induction k as [|k IH]; intros file ns X st Hlen Hrep Hbuf Hent Hn.
  - destruct file; [|simpl in Hlen; lia]. exists 0, st, ns, X. simpl. rewrite app_nil_r.
    split; [done|]. split; [done|]. left. split; [|done].
    by apply sorted_NoDup, (sr_sorted _ _ _ _ _ _ _ Hrep).
  - destruct file as [|c file].
    { exists 0, st, ns, X. simpl. rewrite app_nil_r. split; [done|]. split; [done|]. left. split; [|done].
      by apply sorted_NoDup, (sr_sorted _ _ _ _ _ _ _ Hrep). }
    cbn [strlist__load_loop file_entries] in *.
    destruct (fgets 1023 (String c file)) as [line rest] eqn:Ef.
    pose proof (fgets_consumes _ _ _ _ Ef ltac:(done)) as Hrest.
    set (st1 := set_mem (<[entry := cstr line]> (u_mem st)) st).
    assert (Hrep1 : strlist_rep rs F slist true ns X st1) by (by apply rep_store_str).
    rewrite (ubind_step (store_str entry (cstr line)) _ st tt st1 eq_refl).
    destruct (String.length (cstr line) =? 0)%nat.
    { apply (IH rest ns X st1); [lia|done| |done|done].
      cbn [st1 u_mem set_mem]. rewrite lookup_insert_eq. eauto. }
    set (e := drop_last (cstr line)) in *.
    set (st2 := set_mem (<[entry := e]> (u_mem st1)) st1).
    assert (Hrep2 : strlist_rep rs F slist true ns X st2) by (by apply rep_store_str).
    rewrite (ubind_step (store_str entry e) _ st1 tt st2 eq_refl).
    assert (He : u_mem st2 !! entry = Some e) by (cbn [st2 u_mem set_mem]; by rewrite lookup_insert_eq).
    destruct (strlist_add_run alloc_node alloc_str Halloc rs F slist true ns X st2 entry e n Hrep2 He)
      as [[Hin Hr] | [(_ & _ & [H | [? H]]) | (Hni & st3 & ns3 & xs & ys & p & q & Hr & HX & Hns3 & Hrep3 & Hq & Hm)]].
    { etransitivity; [|exact Hn]. apply list_fuel_mono. rewrite length_app. lia. }
    + rewrite (ubind_step _ _ _ _ _ Hr). exists (-1), st2, ns, X. split; [done|]. split; [done|].
      right. split; [|done]. rewrite NoDup_app. intros (_ & Hd & _). apply (Hd e Hin). by left.
    + by destruct (Hnode st2).
    + by destruct (Hstr x).
    + rewrite (ubind_step _ _ _ _ _ Hr). change (0 =? 0) with true. cbv iota.
      assert (Hperm : (xs ++ e :: ys) ++ file_entries k rest ≡ₚ X ++ [e] ++ file_entries k rest)
        by (rewrite HX; solve_Permutation).
      destruct (IH rest ns3 (xs ++ e :: ys) st3) as (rc & st' & ns' & X' & Hrun & Hrep' & Hres);
        [lia|done| | | |].
      * rewrite Hm. destruct (decide (q = entry)) as [-> |]; [rewrite lookup_insert_eq; eauto|].
        rewrite lookup_insert_ne by done. by rewrite He.
      * rewrite Hns3. simpl. intros [-> | ?]%elem_of_cons; [congruence|done].
      * etransitivity; [|exact Hn]. apply list_fuel_mono. by rewrite Hperm.
      * exists rc, st', ns', X'. split; [done|]. split; [done|]. by rewrite Hperm in Hres.
Qed.
End Load.

(** ** Text files *)

(** A line that fits the buffer and has no byte with a meaning of its own. *)
Definition good_line (l : string) : Prop :=
  (String.length l <= 1022)%nat /\
  Forall (fun c => c <> "010"%char /\ c <> "000"%char) (String.list_ascii_of_string l).

(** The lines, each with its newline. *)
Fixpoint text (ls : list string) : string :=
  match ls with
  | [] => EmptyString
  | l :: ls => String.append l (String "010"%char (text ls))
  end.

Lemma fgets_line size l rest : (String.length l < size)%nat ->
  Forall (fun c => c <> "010"%char /\ c <> "000"%char) (String.list_ascii_of_string l) ->
  fgets size (String.append l (String "010"%char rest))
    = (String.append l (String "010"%char EmptyString), rest).
Proof.
  revert size. induction l as [|c l IH]; intros [|size] Hs Hl; simpl in *; try lia; [done|].
  apply Forall_cons in Hl as [[Hc _] Hl]. apply Ascii.eqb_neq in Hc. rewrite Hc.
  rewrite IH by (done || lia). done.
Qed.

Lemma cstr_line l : Forall (fun c => c <> "010"%char /\ c <> "000"%char) (String.list_ascii_of_string l) ->
  cstr (String.append l (String "010"%char EmptyString)) = String.append l (String "010"%char EmptyString).
Proof.
  induction l as [|c l IH]; intros Hl; [done|]. apply Forall_cons in Hl as [[_ Hc] Hl]. simpl.
  apply Ascii.eqb_neq in Hc. rewrite Hc. by rewrite IH.
Qed.

Lemma drop_last_line l : drop_last (String.append l (String "010"%char EmptyString)) = l.
Proof. induction l as [|c l IH]; [done|]. simpl. rewrite IH. by destruct l. Qed.

Lemma file_entries_text k ls : Forall good_line ls -> (String.length (text ls) <= k)%nat ->
  file_entries k (text ls) = ls.
Proof.
  revert k. induction ls as [|l ls IH]; intros k Hls Hk; [by destruct k|].
  apply Forall_cons in Hls as [[Hlen Hl] Hls]. cbn [text] in *.
  assert (Hlen' : String.length (String.append l (String "010"%char (text ls)))
    = (String.length l + S (String.length (text ls)))%nat).
  { clear. induction l as [|c l IH]; simpl; [done|by rewrite IH]. }
  destruct k as [|k]; [lia|].
  destruct (String.append l (String "010"%char (text ls))) as [|c0 s0] eqn:Es; [by destruct l|].
  cbn [file_entries]. rewrite <- Es, fgets_line by (done || lia).
  rewrite cstr_line by done. rewrite drop_last_line, IH by (done || lia). by destruct l.
Qed.

(** Loading a text file of lines that fit the buffer adds exactly its
    lines when none of them repeats or is already there, and fails otherwise;
    in either case the list stays well formed.  (The last byte of each line is
    dropped unseen, so the last line needs its newline.) *)
Theorem strlist_load_correct alloc_node alloc_str rs F slist entry ns X st ls n :
  alloc_ok alloc_node alloc_str -> (forall st, alloc_node st <> None) ->
  (forall st, alloc_str st <> None) ->
  strlist_rep rs F slist true ns X st -> is_Some (u_mem st !! entry) -> entry ∉ ns.*2 ->
  Forall good_line ls -> (list_fuel (X ++ ls) <= n)%nat ->
  exists rc st' ns' X',
    strlist__load alloc_node alloc_str n slist entry (Some (text ls)) st = inr (rc, st') /\
    strlist_rep rs F slist true ns' X' st' /\
    (NoDup (X ++ ls) /\ rc = 0 /\ X' ≡ₚ X ++ ls \/ ~ NoDup (X ++ ls) /\ rc = -1).
Proof.
  intros Hao Hn1 Hn2 Hrep Hbuf Hent Hls Hn. unfold strlist__load.
  pose proof (file_entries_text (String.length (text ls)) ls Hls ltac:(lia)) as Hfe.
  destruct (strlist_load_run alloc_node alloc_str Hao Hn1 Hn2 rs F slist entry n
    (String.length (text ls)) (text ls) ns X st) as (rc & st' & ns' & X' & Hres); try done.
  { by rewrite Hfe. }
  exists rc, st', ns', X'. by rewrite Hfe in Hres.
Qed.

(** ** Deleting *)

(** A node and, if the list owns it, its string are gone. *)
Definition freed (dup : bool) (st : ustate) (pq : loc * loc) : Prop :=
  nodes (u_rb st) !! pq.1 = None /\ u_s st !! pq.1 = None /\
  (dup = true -> u_mem st !! pq.2 = None).

(** Later states have no new nodes and change no other string. *)
Definition shrinks (gone : list loc) (st st' : ustate) : Prop :=
  (forall p, nodes (u_rb st) !! p = None -> nodes (u_rb st') !! p = None) /\
  (forall p, u_s st !! p = None -> u_s st' !! p = None) /\
  (forall q, u_mem st !! q = None -> u_mem st' !! q = None) /\
  (forall q, q ∉ gone -> u_mem st' !! q = u_mem st !! q).

Lemma freed_shrinks dup st st' gone pq : shrinks gone st st' -> freed dup st pq -> freed dup st' pq.
Proof. intros (H1 & H2 & H3 & _) (? & ? & Hd). split_and!; auto. Qed.

Lemma node_delete_run dup p q st : u_s st !! p = Some q ->
  str_node__delete p dup st = inr (tt,
    mkU (mkRbheap (delete p (nodes (u_rb st))) (roots (u_rb st))) (delete p (u_s st))
      (if dup then delete q (u_mem st) else u_mem st) (u_lists st)).
Proof.
  intros Hq. unfold str_node__delete, load_s, free_str, free_node, modify.
  destruct dup; unfold mbind, M_bind; [rewrite Hq|]; reflexivity.
Qed.

(** [strlist__remove] of one node. *)
Lemma strlist_remove_run rs F slist dup n1 p q n2 x1 e x2 st n :
  strlist_rep rs F slist dup (n1 ++ (p, q) :: n2) (x1 ++ e :: x2) st ->
  List.length n1 = List.length x1 -> (list_fuel (x1 ++ e :: x2) <= n)%nat ->
  exists st', strlist__remove n slist p st = inr (tt, st') /\
    strlist_rep rs F slist dup (n1 ++ n2) (x1 ++ x2) st' /\ freed dup st' (p, q) /\
    shrinks (if dup then [q] else []) st st'.
Proof.
  intros [(t & m & Ht & Hrb & Hin) Hl Hs Hns Hown] Hlen Hn.
  pose proof (list_fuel_tree t _ st _ Hns Hin) as Hf.
  rewrite fmap_app, fmap_cons in Hin. simpl in Hin.
  destruct (wp_elim _ _ _ (wp_rb_erase rs slist t p (n1.*1) (n2.*1) F m n _ Ht Hrb Hin ltac:(lia)))
    as ([] & h1 & Hr & t' & nx & Ht' & Hin' & m' & Hrb').
  destruct (keeps_dom_erase _ _ _ _ _ _ Hr) as [Hdom _].
  apply Forall2_app_inv in Hns as [Hns1 Hns2]; [|exact Hlen].
  apply Forall2_cons in Hns2 as [[Hps Hqe] Hns2]. cbn [fst snd] in *.
  assert (Hnsall := Forall2_app Hns1 Hns2).
  unfold strlist__remove. rewrite (ubind_step _ _ _ _ _ (on_tree_run _ _ _ _ Hr)).
  assert (Hld : load_dupstr slist (set_rb h1 st) = inr (dup, set_rb h1 st))
    by (unfold load_dupstr; cbn [u_lists set_rb]; by rewrite Hl).
  rewrite (ubind_step _ _ _ _ _ Hld), (node_delete_run dup p q) by done.
  eexists. split; [reflexivity|]. cbn [set_rb u_rb u_s u_mem u_lists nodes roots].
  assert (Hpn : p ∉ n1.*1 ++ n2.*1).
  { assert (Hnd : NoDup (inorder t)).
    { destruct Ht as [_ [Hnd _]]. rewrite fmap_app in Hnd. apply NoDup_app in Hnd as [Hnd _].
      by rewrite cells_locs in Hnd. }
    rewrite Hin in Hnd. apply NoDup_app in Hnd as (_ & Hd & [Hp _]%NoDup_cons).
    intros [H | H]%elem_of_app; [apply (Hd p H); by left|done]. }
  assert (Hqn : dup = true -> q ∉ n1.*2 ++ n2.*2).
  { intros Hd. specialize (Hown Hd). rewrite fmap_app, fmap_cons in Hown. simpl in Hown.
    apply NoDup_app in Hown as (_ & Hdis & [Hq _]%NoDup_cons).
    intros [H | H]%elem_of_app; [apply (Hdis q H); by left|done]. }
  split; [|split].
  - split; cbn [u_rb u_s u_mem u_lists].
    + exists t', m'. split; [by eapply tree_at_free|]. split; [done|]. by rewrite fmap_app.
    + done.
    + by apply (sorted_remove key_lt x1 [e] x2).
    + eapply node_strs_frame; [|exact Hnsall]. intros p' q' e' H1 H2 Hin2. cbn [u_s u_mem].
      assert (p' ∈ n1.*1 ++ n2.*1 /\ q' ∈ n1.*2 ++ n2.*2) as [Hp' Hq'].
      { rewrite <- !fmap_app. split; apply list_elem_of_fmap; by exists (p', q'). }
      split; [rewrite lookup_delete_ne; [done|by intros ->]|].
      destruct dup; [|done]. rewrite lookup_delete_ne; [done|]. intros ->. by apply Hqn.
    + intros Hd. specialize (Hown Hd). rewrite !fmap_app, fmap_cons in *.
      apply NoDup_app in Hown as (H1 & H2 & [H3 H4]%NoDup_cons). apply NoDup_app. split; [done|].
      split; [|done]. intros x Hx Hx'. apply (H2 x Hx). by right.
  - split; cbn [u_rb u_s u_mem nodes fst snd]; [apply lookup_delete_eq|]. split; [apply lookup_delete_eq|].
    intros ->. apply lookup_delete_eq.
  - split; [|split; [|split]]; cbn [u_rb u_s u_mem nodes].
    + intros r Hr0. destruct (decide (p = r)) as [-> |]; [apply lookup_delete_eq|].
      rewrite lookup_delete_ne by done. apply not_elem_of_dom. rewrite Hdom.
      by apply not_elem_of_dom.
    + intros r Hr0. by apply lookup_delete_None; right.
    + intros r Hr0. destruct dup; [by apply lookup_delete_None; right|done].
    + intros r Hr0. destruct dup; [|done]. apply lookup_delete_ne. intros ->. apply Hr0. by left.
Qed.

Lemma shrinks_trans g1 g2 st1 st2 st3 :
  shrinks g1 st1 st2 -> shrinks g2 st2 st3 -> shrinks (g1 ++ g2) st1 st3.
Proof.
  intros (A1 & A2 & A3 & A4) (B1 & B2 & B3 & B4). split_and!; auto.
  intros q Hq. rewrite B4, A4; set_solver.
Qed.

Lemma strlist_delete_loop_run rs F slist dup n : forall ns k X st,
  (List.length ns <= k)%nat -> strlist_rep rs F slist dup ns X st -> (list_fuel X <= n)%nat ->
  exists st', strlist__delete_loop k n slist (hd 0 ns.*1) st = inr (tt, st') /\
    strlist_rep rs F slist dup [] [] st' /\ Forall (freed dup st') ns /\
    shrinks (if dup then ns.*2 else []) st st'.
Proof.
  induction ns as [|[p q] ns IH]; intros k X st Hk Hrep Hn.
  { pose proof (Forall2_length _ _ _ (sr_strs _ _ _ _ _ _ _ Hrep)) as Hlen. destruct X; [|done].
    exists st. split; [by destruct k|]. split; [done|]. split; [constructor|].
    split_and!; auto. }
  pose proof (sr_strs _ _ _ _ _ _ _ Hrep) as Hns. destruct X as [|e X]; [by inversion Hns|].
  destruct k as [|k]; [simpl in Hk; lia|]. pose proof Hrep as [(t & m & Ht & Hrb & Hin) _ _ _ _].
  pose proof (list_fuel_tree t _ st _ Hns Hin) as Hf.
  assert (Hv : valid p).
  { destruct Ht as [_ [_ Ho]].
    assert (p ∈ (cells 0 t).*1) as Hp by (rewrite cells_locs, Hin; by left).
    apply list_elem_of_fmap in Hp as ([p' nn] & -> & Hp). by eapply Ho; apply elem_of_app; left. }
  cbn [fmap list_fmap hd strlist__delete_loop fst]. rewrite (valid_neq0 p Hv).
  destruct (rb_next_run rs slist t F m n (u_rb st) [] p ns.*1 Ht Hrb ltac:(lia) Hin) as [Hnext _].
  rewrite (ubind_step _ _ _ _ _ (on_tree_run _ _ _ _ Hnext)), set_rb_id.
  destruct (strlist_remove_run rs F slist dup [] p q ns [] e X st n Hrep eq_refl Hn)
    as (st1 & Hr1 & Hrep1 & Hfr & Hsh1).
  rewrite (ubind_step _ _ _ _ _ Hr1).
  destruct (IH k X st1) as (st2 & Hr2 & Hrep2 & Hfrs & Hsh2); [simpl in Hk; lia|done| |].
  { etransitivity; [|exact Hn]. apply list_fuel_mono. simpl. lia. }
  exists st2. split; [exact Hr2|]. split; [done|]. split.
  - constructor; [by eapply freed_shrinks|done].
  - pose proof (shrinks_trans _ _ _ _ _ Hsh1 Hsh2) as Hsh. destruct dup; exact Hsh.
Qed.

(** [strlist__delete] visits every node once although it frees the node
    it stands on: it ends without touching a freed node, and afterwards no
    node of the list is left, nor any of its copies; strings it does not own,
    all other nodes and the other trees are as they were. *)
Theorem strlist_delete_correct rs F slist dup ns X st k n :
  strlist_rep rs F slist dup ns X st -> slist <> 0 ->
  (List.length X <= k)%nat -> (list_fuel X <= n)%nat ->
  exists st', strlist__delete k n slist st = inr (tt, st') /\
    Forall (freed dup st') ns /\ own (u_rb st') F /\
    roots (u_rb st') = delete slist rs /\ u_lists st' !! slist = None /\
    forall q, q ∉ ns.*2 \/ dup = false -> u_mem st' !! q = u_mem st !! q.
Proof.
  intros Hrep Hnz Hk Hn. pose proof Hrep as [(t & m & Ht & Hrb & Hin) _ _ Hns _].
  pose proof (list_fuel_tree t _ st _ Hns Hin) as Hf.
  unfold strlist__delete. apply Z.eqb_neq in Hnz. rewrite Hnz.
  pose proof (rb_end_run rs slist Lft n t F m _ Ht Hrb ltac:(lia)) as Hfirst.
  rewrite (ubind_step _ _ _ _ _ (on_tree_run (rb_first n slist) _ _ _ Hfirst)), set_rb_id.
  unfold end_of. rewrite Hin.
  destruct (strlist_delete_loop_run rs F slist dup n ns k X st) as (st1 & Hr1 & Hrep1 & Hfr & Hsh);
    [by rewrite (Forall2_length _ _ _ Hns)|done|done|].
  rewrite (ubind_step _ _ _ _ _ Hr1).
  destruct Hrep1 as [(t1 & m1 & [Hroots Hown] & _ & Hin1) _ _ _ _].
  assert (t1 = E) as -> by (destruct t1 as [|? l ? r]; [done|]; simpl in Hin1; by destruct (inorder l)).
  rewrite (ubind_step (on_tree (store_root slist 0)) _ st1 tt
    (set_rb (mkRbheap (nodes (u_rb st1)) (<[slist := 0]> (roots (u_rb st1)))) st1)).
  2: { unfold on_tree, store_root. rewrite Hroots, lookup_insert_eq. done. }
  eexists. split; [reflexivity|]. unfold set_lists, set_rb. cbn [u_rb u_s u_mem u_lists nodes roots].
  split; [exact Hfr|]. split; [exact Hown|]. split.
  { rewrite Hroots, insert_insert_eq. by rewrite delete_insert_eq. }
  split; [apply lookup_delete_eq|]. intros q Hq. apply Hsh. destruct dup; [by destruct Hq|set_solver].
Qed.

(** ** The theorems at work *)

(** An allocator that takes the next multiple of four above all addresses. *)
Definition bump (ks : list Z) : Z := 4 * (1 + foldr Z.max 0 ks).

Lemma bump_fresh ks : valid (bump ks) /\ bump ks ∉ ks.
Proof.
  assert (H : 0 <= foldr Z.max 0 ks /\ forall k, k ∈ ks -> k <= foldr Z.max 0 ks).
  { induction ks as [|k ks [IH1 IH2]]; simpl; [split; [lia|set_solver]|].
    split; [lia|]. intros x [-> | Hx]%elem_of_cons; [lia|]. specialize (IH2 x Hx). lia. }
  destruct H as [H1 H2]. unfold bump. split.
  - split; [lia|]. rewrite Z.mul_comm. apply Z.mod_mul. lia.
  - intros Hin. specialize (H2 _ Hin). lia.
Qed.

Definition bump_node (st : ustate) : option (loc * rb_node) :=
  Some (bump ((map_to_list (nodes (u_rb st))).*1 ++ (map_to_list (u_s st)).*1), mkNode 7 7 7).
Definition bump_str (st : ustate) : option loc := Some (bump (map_to_list (u_mem st)).*1).

Lemma keys_fresh {A} (m : gmap loc A) p : p ∉ (map_to_list m).*1 -> m !! p = None.
Proof.
  intros Hp. destruct (m !! p) eqn:Em; [|done]. exfalso. apply Hp. apply list_elem_of_fmap.
  exists (p, a). split; [done|]. by apply elem_of_map_to_list.
Qed.

Lemma bump_ok : alloc_ok bump_node bump_str.
Proof.
  split.
  - intros st p n [= <- <-].
    destruct (bump_fresh ((map_to_list (nodes (u_rb st))).*1 ++ (map_to_list (u_s st)).*1)) as [Hv Hp].
    rewrite not_elem_of_app in Hp. destruct Hp. split; [exact Hv|split; by apply keys_fresh].
  - intros st q [= <-]. destruct (bump_fresh (map_to_list (u_mem st)).*1) as [[Hv _] Hq].
    split; [lia|by apply keys_fresh].
Qed.

(** The list at 8 with "a" and "c"; the buffer at 300 holds "b". *)
Definition ex_state : ustate :=
  mkU (heap_of 8 (T true E 16 (T false E 32 E)) []) (list_to_map [(16, 100); (32, 200)])
    (list_to_map [(100, "a"%string); (200, "c"%string); (300, "b"%string)]) {[ 8 := true ]}.

Lemma ex_state_rep :
  strlist_rep ∅ [] 8 true [(16, 100); (32, 200)] ["a"%string; "c"%string] ex_state.
Proof.
  split.
  - exists (T true E 16 (T false E 32 E)), 1%nat. split.
    + apply heap_of_tree_at; apply (bool_decide_unpack _); vm_compute; exact I.
    + split; [repeat econstructor|done].
  - done.
  - repeat constructor.
  - repeat constructor.
  - intros _. apply (bool_decide_unpack _). vm_compute. exact I.
Qed.

Lemma strlist_add_correct_witness :
  strlist__has_entry 2 8 300 ex_state = inr (false, ex_state) /\
  exists st' ns' xs ys, strlist__add bump_node bump_str 2 8 300 ex_state = inr (0, st') /\
    ["a"%string; "c"%string] = xs ++ ys /\ strlist_rep ∅ [] 8 true ns' (xs ++ "b"%string :: ys) st'.
Proof.
  destruct (strlist_add_correct bump_node bump_str ∅ [] 8 true [(16, 100); (32, 200)]
    ["a"%string; "c"%string] ex_state 300 "b"%string 2 bump_ok ex_state_rep eq_refl ltac:(vm_compute; lia))
    as (H1 & _ & H2).
  split; [exact H1|].
  assert (Hni : "b"%string ∉ ["a"%string; "c"%string])
    by (apply (bool_decide_unpack _); vm_compute; exact I).
  destruct (H2 Hni) as [[_ [H | [? H]]] | H]; [discriminate|discriminate|exact H].
Defined.

Lemma strlist_load_correct_witness :
  exists rc st' ns' X',
    strlist__load bump_node bump_str 4 8 300 (Some (text ["d"%string; "b"%string])) ex_state
      = inr (rc, st') /\ strlist_rep ∅ [] 8 true ns' X' st' /\ rc = 0.
Proof.
  destruct (strlist_load_correct bump_node bump_str ∅ [] 8 300 [(16, 100); (32, 200)]
    ["a"%string; "c"%string] ex_state ["d"%string; "b"%string] 4 bump_ok)
    as (rc & st' & ns' & X' & H1 & H2 & H3); [done|done|exact ex_state_rep| | | | |].
  - by eexists.
  - apply (bool_decide_unpack _). vm_compute. exact I.
  - repeat constructor; simpl; lia || done.
  - vm_compute. lia.
  - exists rc, st', ns', X'. split; [exact H1|]. split; [exact H2|].
    destruct H3 as [(_ & H & _) | [H _]]; [exact H|]. exfalso. apply H.
    apply (bool_decide_unpack _). vm_compute. exact I.
Defined.

Lemma strlist_delete_correct_witness :
  exists st', strlist__delete 2 4 8 ex_state = inr (tt, st') /\
    Forall (freed true st') [(16, 100); (32, 200)] /\ u_mem st' !! 300 = Some "b"%string.
Proof.
  destruct (strlist_delete_correct ∅ [] 8 true [(16, 100); (32, 200)] ["a"%string; "c"%string]
    ex_state 2 4 ex_state_rep) as (st' & H1 & H2 & _ & _ & _ & H3);
    [lia|simpl; lia|vm_compute; lia|].
  exists st'. split; [exact H1|]. split; [exact H2|]. etransitivity; [apply (H3 300)|reflexivity].
  left. apply (bool_decide_unpack _). vm_compute. exact I.
Defined.
