(* ===== verification/GoBuffer.v ===== *)
(** * Interned strings: dwarves/gobuffer.h, gobuffer.c, strings.h and strings.c

    A [gobuffer] is a growing block of bytes in which an object is named by its
    offset; [strings] interns C strings in one, with a search tree of offsets.
    [realloc] is a parameter that may fail.  The tree of [tsearch], [tfind] and
    [tdelete] is the list of its keys: with a comparison that orders the
    strings strictly its shape does not influence any answer. *)
From S2P Require Import Prelude StdMap.
From Stdlib Require Import Strings.Ascii.
Local Open Scope list_scope.
Local Open Scope Z_scope.

Record gobuffer := mkGb {
  gb_entries : list ascii;      (* the allocated block *)
  gb_nr_entries : Z;            (* unsigned int *)
  gb_index : Z;                 (* unsigned int *)
  gb_allocated_size : Z         (* unsigned int *)
}.

Notation GM := (M gobuffer exn).

Definition GOBUFFER__BCHUNK : Z := 8 * 1024.

Definition gobuffer__init : gobuffer := mkGb [] 0 1 0.

(** The offset behind the pointer; [None] is NULL. *)
Definition gobuffer__ptr (s : Z) : option Z := if s =? 0 then None else Some s.

Definition gobuffer__entries (gb : gobuffer) : list ascii := gb_entries gb.
Definition gobuffer__nr_entries (gb : gobuffer) : Z := gb_nr_entries gb.
Definition gobuffer__size (gb : gobuffer) : Z := gb_index gb.

(** [memcpy(entries + at, s, |s|)] *)
Definition store_bytes (l : list ascii) (pos : Z) (s : list ascii) : option (list ascii) :=
  if (0 <=? pos) && (pos + Z.of_nat (List.length s) <=? Z.of_nat (List.length l))
  then Some (take (Z.to_nat pos) l ++ s ++ drop (Z.to_nat pos + List.length s) l)
  else None.

Definition ENOMEM_err : Z := -12.

Section GoBuffer.
Context (realloc : list ascii -> Z -> option (list ascii)).

Definition gobuffer__allocate (len : Z) : GM Z := fun gb =>
  let rc := gb_index gb in
  let index := u32 (gb_index gb + len) in
  if gb_allocated_size gb <=? index then
    let allocated_size := u32 (gb_allocated_size gb + GOBUFFER__BCHUNK) in
    let allocated_size :=
      if allocated_size <? index then u32 (index + GOBUFFER__BCHUNK) else allocated_size in
    match realloc (gb_entries gb) allocated_size with
    | None => inr (ENOMEM_err, gb)
    | Some entries => inr (s32 rc, mkGb entries (gb_nr_entries gb) index allocated_size)
    end
  else inr (s32 rc, mkGb (gb_entries gb) (gb_nr_entries gb) index (gb_allocated_size gb)).

(** [++gb->nr_entries; memcpy(gb->entries + rc, s, len)] *)
Definition gobuffer__store (rc : Z) (s : list ascii) : GM unit := fun gb =>
  match store_bytes (gb_entries gb) rc s with
  | None => inl (undefined "memcpy outside the buffer")
  | Some entries =>
      inr (tt, mkGb entries (u32 (gb_nr_entries gb + 1)) (gb_index gb) (gb_allocated_size gb))
  end.

Definition gobuffer__add (s : list ascii) : GM Z :=
  rc ← gobuffer__allocate (Z.of_nat (List.length s));
  if rc <? 0 then mret rc else
  gobuffer__store rc s;;; mret rc.

(** [memcpy(dest, gb->entries, size)]: the bytes [dest] gets. *)
Definition gobuffer__copy (gb : gobuffer) : exn + list ascii :=
  if gobuffer__size gb <=? Z.of_nat (List.length (gb_entries gb))
  then inr (take (Z.to_nat (gobuffer__size gb)) (gb_entries gb))
  else inl (undefined "memcpy outside the buffer").

End GoBuffer.

(** ** Strings *)

Record strings := mkStrings { str_tree : list Z; str_gb : gobuffer }.
Definition strings_t : Type := Z.
Notation SM := (M strings exn).

Definition strings__new : strings := mkStrings [] gobuffer__init.

(** The bytes of a C string and its terminator. *)
Definition cbytes (s : string) : list ascii := String.list_ascii_of_string s ++ ["000"%char].

(** The C string at the start of some memory; [None] runs off its end. *)
Fixpoint read_cstr (l : list ascii) : option string :=
  match l with
  | [] => None
  | c :: l => if Ascii.eqb c "000"%char then Some EmptyString
              else s ← read_cstr l; Some (String c s)
  end.
Definition cstr_at (gb : gobuffer) (i : Z) : option string :=
  read_cstr (drop (Z.to_nat i) (gb_entries gb)).

(** The [strings_t] behind a pointer, and the string it points to. *)
Definition strings__ptr (strs : strings) (s : strings_t) : option string :=
  i ← gobuffer__ptr s; cstr_at (str_gb strs) i.
Definition strings__size (strs : strings) : Z := gobuffer__size (str_gb strs).
Definition strings__nr_entries (strs : strings) : Z := gobuffer__nr_entries (str_gb strs).

(** [strcmp(key->str, entries + b)]; [None] reads outside the buffer. *)
Definition strings__compare (strs : strings) (str : string) (b : Z) : option comparison :=
  s ← cstr_at (str_gb strs) b; Some (kcmp str s).

(** [tfind]: the key that compares equal. *)
Fixpoint tfind (cmp : Z -> option comparison) (tree : list Z) : exn + option Z :=
  match tree with
  | [] => inr None
  | b :: tree =>
      match cmp b with
      | None => inl (undefined "comparison with bytes outside the buffer")
      | Some Eq => inr (Some b)
      | Some _ => tfind cmp tree
      end
  end.

Section Strings.
Context (realloc : list ascii -> Z -> option (list ascii)).
(** Whether [tsearch] gets the memory of a new node. *)
Context (tsearch_ok : strings -> bool).

Definition strings__insert (s : string) : SM strings_t := fun strs =>
  match gobuffer__add realloc (cbytes s) (str_gb strs) with
  | inl e => inl e
  | inr (rc, gb) => inr (u32 rc, mkStrings (str_tree strs) gb)
  end.

Definition strings__add (str : option string) : SM strings_t := fun strs =>
  match str with
  | None => inr (0, strs)
  | Some str =>
      match tfind (strings__compare strs str) (str_tree strs) with
      | inl e => inl e
      | inr (Some index) => inr (u32 index, strs)
      | inr None =>
          if tsearch_ok strs then
            match strings__insert str strs with
            | inl e => inl e
            | inr (index, strs) =>
                if index =? 0 then inr (0, strs)
                else inr (index, mkStrings (index :: str_tree strs) (str_gb strs))
            end
          else inr (0, strs)
      end
  end.

Definition strings__find (strs : strings) (str : option string) : exn + strings_t :=
  match str with
  | None => inr 0
  | Some str =>
      match tfind (strings__compare strs str) (str_tree strs) with
      | inl e => inl e
      | inr s => inr (match s with Some index => u32 index | None => 0 end)
      end
  end.

(** [strcmp] on null pointers is undefined. *)
Definition strings__cmp (strs : strings) (a b : strings_t) : exn + comparison :=
  if a =? b then inr Eq else
  match strings__ptr strs a, strings__ptr strs b with
  | Some x, Some y => inr (kcmp x y)
  | _, _ => inl (undefined "strcmp of an invalid pointer")
  end.

End Strings.
