(* ===== verification/GoBufferProps.v ===== *)
(** * Properties of the interned strings

    [gobuffer__add] returns the offset at which the bytes it was given can be
    read back, and never moves what was added before; [strings__add] gives equal
    strings the same offset and different strings different ones.  At the end:
    gobuffer__compress, on top of what zlib promises. *)
From S2P Require Import Prelude StdMap GoBuffer.
From Stdlib Require Import Strings.Ascii.
Local Open Scope list_scope.
Local Open Scope Z_scope.

(** What C promises of [realloc] on a growing block: the old bytes first. *)
Definition realloc_spec (realloc : list ascii -> Z -> option (list ascii)) : Prop :=
  forall l n l', Z.of_nat (List.length l) <= n -> realloc l n = Some l' ->
    Z.of_nat (List.length l') = n /\ exists junk, l' = l ++ junk.

Record gb_wf (gb : gobuffer) : Prop := {
  gbw_size : gb_allocated_size gb = Z.of_nat (List.length (gb_entries gb));
  gbw_index : 1 <= gb_index gb;
  gbw_fit : gb_index gb <= gb_allocated_size gb \/ gb = gobuffer__init;
  gbw_slack : gb_allocated_size gb <= gb_index gb + GOBUFFER__BCHUNK
}.

Lemma gobuffer__init_wf : gb_wf gobuffer__init.
Proof. split; simpl; unfold GOBUFFER__BCHUNK; [done|lia|by right|lia]. Qed.

(** The bytes [bs] are at offset [i] of the buffer, among those in use. *)
Definition holds_bytes (gb : gobuffer) (i : Z) (bs : list ascii) : Prop :=
  1 <= i /\ i + Z.of_nat (List.length bs) <= gb_index gb /\
  take (List.length bs) (drop (Z.to_nat i) (gb_entries gb)) = bs.

Lemma take_drop_app_l {A} (l r : list A) i n :
  (i + n <= List.length l)%nat -> take n (drop i (l ++ r)) = take n (drop i l).
Proof.
  intros H. rewrite drop_app_le by lia. rewrite take_app_le; [done|].
  rewrite length_drop. lia.
Qed.

Section Props.
Context (realloc : list ascii -> Z -> option (list ascii)) (Hre : realloc_spec realloc).

Lemma gobuffer__allocate_run gb len :
  gb_wf gb -> 0 <= len -> gb_index gb + len < 2 ^ 31 ->
  exists rc gb', runs (gobuffer__allocate realloc len) gb rc gb' /\
    ((rc = ENOMEM_err /\ gb' = gb /\ exists l n, realloc l n = None) \/
     (rc = gb_index gb /\ gb_index gb' = gb_index gb + len /\
      gb_nr_entries gb' = gb_nr_entries gb /\
      gb_index gb' <= gb_allocated_size gb' <= gb_index gb' + GOBUFFER__BCHUNK /\
      gb_allocated_size gb' = Z.of_nat (List.length (gb_entries gb')) /\
      exists junk, gb_entries gb' = gb_entries gb ++ junk)).
Proof.
  intros [Hs Hi Hf Hsl] Hl Hb. unfold GOBUFFER__BCHUNK in *.
  assert (E1 : u32 (gb_index gb + len) = gb_index gb + len) by (apply u32_small; lia).
  assert (E2 : s32 (gb_index gb) = gb_index gb) by (apply s32_small; lia).
  assert (E3 : u32 (gb_allocated_size gb + 8 * 1024) = gb_allocated_size gb + 8 * 1024)
    by (apply u32_small; lia).
  assert (E4 : u32 (gb_index gb + len + 8 * 1024) = gb_index gb + len + 8 * 1024)
    by (apply u32_small; lia).
  unfold runs, gobuffer__allocate. rewrite E1, E2. unfold GOBUFFER__BCHUNK. rewrite E3, E4.
  destruct (Z.leb_spec (gb_allocated_size gb) (gb_index gb + len)) as [Hc|Hc].
  - set (asz := if _ <? _ then _ else _).
    assert (Ha : gb_index gb + len <= asz <= gb_index gb + len + 8 * 1024 /\
                 gb_allocated_size gb <= asz)
      by (subst asz; destruct (Z.ltb_spec (gb_allocated_size gb + 8 * 1024) (gb_index gb + len));
          lia).
    destruct (realloc (gb_entries gb) asz) as [l'|] eqn:Er.
    + apply Hre in Er as [Hl' [junk ->]]; [|lia].
      eexists _, _. split; [reflexivity|]. right. simpl. repeat split; try lia. by exists junk.
    + eexists _, _. split; [reflexivity|]. left. eauto.
  - eexists _, _. split; [reflexivity|]. right. simpl. repeat split; try lia.
    exists []. by rewrite app_nil_r.
Qed.

Lemma store_bytes_ok l pos s :
  0 <= pos -> pos + Z.of_nat (List.length s) <= Z.of_nat (List.length l) ->
  exists l', store_bytes l pos s = Some l' /\ List.length l' = List.length l /\
    take (List.length s) (drop (Z.to_nat pos) l') = s /\
    take (Z.to_nat pos) l' = take (Z.to_nat pos) l.
Proof.
  intros H0 H1. unfold store_bytes.
  assert ((0 <=? pos) && (pos + Z.of_nat (List.length s) <=? Z.of_nat (List.length l)) = true) as ->
    by (apply andb_true_intro; split; apply Z.leb_le; lia).
  assert (Ht : List.length (take (Z.to_nat pos) l) = Z.to_nat pos) by (rewrite length_take; lia).
  eexists. split; [reflexivity|]. repeat split.
  - rewrite !length_app, length_take, length_drop. lia.
  - rewrite drop_app_ge by lia. rewrite Ht, Nat.sub_diag, drop_0, take_app_le by lia.
    by rewrite take_ge by lia.
  - rewrite take_app_le by lia. by rewrite take_take, Nat.min_id.
Qed.

(** What adding the bytes [s] does; all the clients need. *)
Definition add_post (gb : gobuffer) (s : list ascii) (rc : Z) (gb' : gobuffer) : Prop :=
  (rc = ENOMEM_err /\ gb' = gb /\ exists l n, realloc l n = None) \/
  (rc = gb_index gb /\ gb_wf gb' /\ gb_index gb' = gb_index gb + Z.of_nat (List.length s) /\
   gb_nr_entries gb' = u32 (gb_nr_entries gb + 1) /\
   holds_bytes gb' rc s /\
   forall i bs, holds_bytes gb i bs -> holds_bytes gb' i bs).


Lemma holds_bytes_keep gb gb' i bs :
  holds_bytes gb i bs -> gb_index gb <= gb_index gb' ->
  gb_index gb <= Z.of_nat (List.length (gb_entries gb')) ->
  (take (Z.to_nat (gb_index gb)) (gb_entries gb') =
   take (Z.to_nat (gb_index gb)) (gb_entries gb) \/ gb_index gb = 1) ->
  holds_bytes gb' i bs.
Proof.
  intros (H1 & H2 & H3) Hi Hl Ht. repeat split; [lia|lia|].
  destruct Ht as [Ht|Ht].
  - rewrite <- H3 at 2. assert (Hn : (Z.to_nat i + List.length bs <= Z.to_nat (gb_index gb))%nat) by lia.
    rewrite !take_drop_commute.
    apply (f_equal (take (Z.to_nat i + List.length bs))) in Ht. rewrite !take_take in Ht.
    rewrite Nat.min_l in Ht by lia. by rewrite Ht.
  - assert (bs = []) as -> by (destruct bs; simpl in *; [done|lia]). done.
Qed.

Lemma gobuffer__add_run gb s :
  gb_wf gb -> gb_index gb + Z.of_nat (List.length s) < 2 ^ 31 ->
  exists rc gb', runs (gobuffer__add realloc s) gb rc gb' /\ add_post gb s rc gb'.
Proof.
  intros Hwf Hb.
  destruct (gobuffer__allocate_run gb (Z.of_nat (List.length s)) Hwf ltac:(lia) Hb)
    as (rc & gb1 & Hrun & [(-> & -> & Hfail)|(-> & Hidx & Hnr & Hsl & Hlen & junk & Hent)]).
  { exists ENOMEM_err, gb. split; [|left; done]. eapply runs_bind; [exact Hrun|]. done. }
  destruct Hwf as [Hs Hi Hf Hslk]. unfold GOBUFFER__BCHUNK in *.
  destruct (store_bytes_ok (gb_entries gb1) (gb_index gb) s) as (l' & Est & Hll & Hrd & Hpre);
    [lia|lia|].
  eexists (gb_index gb), _. split.
  { eapply runs_bind; [exact Hrun|]. cbv beta.
    destruct (Z.ltb_spec (gb_index gb) 0); [lia|]. eapply runs_bind; [|apply runs_ret].
    unfold runs, gobuffer__store. rewrite Est. reflexivity. }
  right. split; [done|].
  split; [split; simpl; rewrite ?Hll; unfold GOBUFFER__BCHUNK; try lia; left; lia|].
  simpl. split; [done|]. split; [by rewrite Hnr|]. split; [repeat split; simpl; [lia|lia|done]|].
  intros i bs H. eapply holds_bytes_keep; [exact H|simpl; lia|simpl; lia|simpl].
  destruct Hf as [Hf|Hf]; [left|right; by rewrite Hf].
  rewrite Hpre, Hent, take_app_le; [done|]. lia.
Qed.

End Props.

(** ** C strings in the buffer *)

Definition no_nul (s : string) : Prop := "000"%char ∉ String.list_ascii_of_string s.

Ltac solve_no_nul :=
  unfold no_nul; simpl; rewrite ?not_elem_of_cons; repeat split; try done; apply not_elem_of_nil.

Lemma read_cstr_cbytes s r : no_nul s -> read_cstr (cbytes s ++ r) = Some s.
Proof.
  unfold no_nul, cbytes. induction s as [|c s IH]; simpl; [done|]. intros Hn.
  apply not_elem_of_cons in Hn as [Hc Hn]. destruct (Ascii.eqb_spec c "000"%char); [done|].
  simpl in IH. by rewrite IH.
Qed.

Lemma holds_cstr gb i s : no_nul s -> holds_bytes gb i (cbytes s) -> cstr_at gb i = Some s.
Proof.
  intros Hn (_ & _ & H). unfold cstr_at.
  rewrite <- (take_drop (List.length (cbytes s)) (drop (Z.to_nat i) (gb_entries gb))), H.
  by apply read_cstr_cbytes.
Qed.

Lemma length_cbytes s : List.length (cbytes s) = S (String.length s).
Proof.
  unfold cbytes. rewrite length_app. simpl. induction s; simpl in *; lia.
Qed.

(** [i] is the interned index of the string [s]. *)

Record interned (strs : strings) (i : strings_t) (s : string) : Prop := {
  in_tree : i ∈ str_tree strs;
  in_nul : no_nul s;
  in_bytes : holds_bytes (str_gb strs) i (cbytes s)
}.

Record strings_wf (strs : strings) : Prop := {
  sw_gb : gb_wf (str_gb strs);
  sw_small : gb_index (str_gb strs) < 2 ^ 31;
  sw_tree : forall i, i ∈ str_tree strs -> exists s, interned strs i s;
  sw_inj : forall i j s, interned strs i s -> interned strs j s -> i = j
}.

Lemma strings__new_wf : strings_wf strings__new.
Proof.
  split; [apply gobuffer__init_wf|simpl; lia| |].
  - intros i H. by apply elem_of_nil in H.
  - intros i j s [H _ _]. by apply elem_of_nil in H.
Qed.

Lemma interned_fun strs i s t : interned strs i s -> interned strs i t -> s = t.
Proof.
  intros [_ Hs Hbs] [_ Ht Hbt]. apply holds_cstr in Hbs; [|done]. apply holds_cstr in Hbt; [|done].
  congruence.
Qed.

Lemma interned_ptr strs i s : interned strs i s -> strings__ptr strs i = Some s.
Proof.
  intros [_ Hn Hb]. unfold strings__ptr, gobuffer__ptr. destruct Hb as [H1 Hb].
  destruct (Z.eqb_spec i 0); [lia|]. simpl. by apply holds_cstr; [|split].
Qed.

Lemma interned_compare strs i s t : interned strs i s -> strings__compare strs t i = Some (kcmp t s).
Proof. intros [_ Hn Hb]. unfold strings__compare. by rewrite (holds_cstr _ _ _ Hn Hb). Qed.

(** The answer of a search in a tree of interned strings. *)
Lemma tfind_interned strs t :
  strings_wf strs ->
  match tfind (strings__compare strs t) (str_tree strs) with
  | inl _ => False
  | inr (Some i) => interned strs i t
  | inr None => forall i, ~ interned strs i t
  end.
Proof.
  intros [_ _ Ht _].
  cut (forall l, (forall i, i ∈ l -> i ∈ str_tree strs) ->
    match tfind (strings__compare strs t) l with
    | inl _ => False | inr (Some i) => interned strs i t
    | inr None => forall i, i ∈ l -> ~ interned strs i t end).
  { intros H. specialize (H (str_tree strs) ltac:(done)).
    destruct (tfind _ _) as [|[]]; try done. intros i Hi. by apply (H i); [apply Hi|]. }
  induction l as [|b l IH]; intros Hl; simpl; [intros i Hi; by apply elem_of_nil in Hi|].
  destruct (Ht b) as [s Hs]; [apply Hl; set_solver|].
  rewrite (interned_compare _ _ _ _ Hs).
  assert (Hno : kcmp t s <> Eq -> ~ interned strs b t).
  { intros Hne Hb. apply Hne, kcmp_eq. eapply interned_fun; eauto. }
  destruct (kcmp t s) eqn:E.
  - apply kcmp_eq in E as ->. done.
  - specialize (IH ltac:(set_solver)). destruct (tfind _ l) as [|[]]; try done.
    intros i [->|Hi]%elem_of_cons; [by apply Hno|by apply IH].
  - specialize (IH ltac:(set_solver)). destruct (tfind _ l) as [|[]]; try done.
    intros i [->|Hi]%elem_of_cons; [by apply Hno|by apply IH].
Qed.

Lemma interned_small strs i s : strings_wf strs -> interned strs i s -> u32 i = i.
Proof.
  intros [_ Hs _ _] [_ _ (H1 & H2 & _)]. apply u32_small. lia.
Qed.

Lemma strings__find_interned strs i s :
  strings_wf strs -> interned strs i s -> strings__find strs (Some s) = inr i.
Proof.
  intros Hwf Hi. unfold strings__find. pose proof (tfind_interned strs s Hwf) as H.
  destruct (tfind _ _) as [|[j|]]; [done| |by destruct (H i)].
  rewrite (sw_inj _ Hwf _ _ _ H Hi). by rewrite (interned_small _ _ _ Hwf Hi).
Qed.

Section AddProps.
Context (realloc : list ascii -> Z -> option (list ascii)) (Hre : realloc_spec realloc).
Context (tsearch_ok : strings -> bool).

(** [strings__add] when neither [tsearch] nor [realloc] runs out of memory. *)
Definition intern_post (strs : strings) (str : string) (i : Z) (strs' : strings) : Prop :=
  strings_wf strs' /\ interned strs' i str /\
  (forall j s, interned strs j s -> interned strs' j s) /\
  ((exists j, interned strs j str) -> strs' = strs) /\
  strings__size strs' <= strings__size strs + Z.of_nat (S (String.length str)).

(** It could not grow the buffer: the error code becomes the index. *)
Definition enomem_post (strs : strings) (i : Z) (strs' : strings) : Prop :=
  (exists l n, realloc l n = None) /\
  i = 2 ^ 32 - 12 /\ strs' = mkStrings (i :: str_tree strs) (str_gb strs).

Lemma strings__add_run strs str :
  strings_wf strs -> no_nul str ->
  strings__size strs + Z.of_nat (S (String.length str)) < 2 ^ 31 ->
  exists i strs', runs (strings__add realloc tsearch_ok (Some str)) strs i strs' /\
    (intern_post strs str i strs' \/ enomem_post strs i strs' \/
     (tsearch_ok strs = false /\ i = 0 /\ strs' = strs)).
Proof.
  intros Hwf Hn Hb. unfold runs, strings__add. pose proof (tfind_interned strs str Hwf) as Hf.
  destruct (tfind _ _) as [|[i|]]; [done| |].
  { rewrite (interned_small _ _ _ Hwf Hf). exists i, strs. split; [done|]. left.
    split; [done|]. split; [done|]. split; [done|]. split; [done|lia]. }
  destruct (tsearch_ok strs); [|exists 0, strs; split; [done|by right; right]].
  unfold strings__insert. unfold strings__size, gobuffer__size in Hb.
  destruct (gobuffer__add_run realloc Hre (str_gb strs) (cbytes str) (sw_gb _ Hwf)
    ltac:(rewrite length_cbytes; lia)) as (rc & gb' & -> & Hp).
  destruct Hp as [(-> & -> & Hfail)|(-> & Hwf' & Hidx & _ & Hold & Hkeep)].
  { eexists _, _. split; [reflexivity|]. right; left. done. }
  pose proof (gbw_index _ (sw_gb _ Hwf)) as Hi. rewrite length_cbytes in Hidx.
  rewrite u32_small by lia. destruct (Z.eqb_spec (gb_index (str_gb strs)) 0); [lia|].
  eexists _, _. split; [reflexivity|]. left. set (strs' := mkStrings _ _).
  assert (Hnew : interned strs' (gb_index (str_gb strs)) str) by (split; [simpl; set_solver|done|done]).
  assert (Hpres : forall j s, interned strs j s -> interned strs' j s).
  { intros j s [Ht Hz Hy]. split; [simpl; set_solver|done|by apply Hkeep]. }
  assert (Hback : forall j s, interned strs' j s ->
    (j = gb_index (str_gb strs) /\ s = str) \/ interned strs j s).
  { intros j s Hj. pose proof (in_tree _ _ _ Hj) as Ht. simpl in Ht.
    apply elem_of_cons in Ht as [->|Ht].
    - left. split; [done|]. by eapply interned_fun.
    - right. destruct (sw_tree _ Hwf j Ht) as [s' Hs'].
      by rewrite (interned_fun _ _ _ _ Hj (Hpres _ _ Hs')). }
  split; [split; simpl|]; [done|lia| | |split; [done|split; [done|split]]].
  - intros j [->|Hj]%elem_of_cons; [by eexists|].
    destruct (sw_tree _ Hwf j Hj) as [s Hs]. eauto.
  - intros j k s Hj Hk. destruct (Hback _ _ Hj) as [[-> ->]|Hj'], (Hback _ _ Hk) as [[-> Heq]|Hk'].
    + done.
    + by destruct (Hf k).
    + subst. by destruct (Hf j).
    + by eapply (sw_inj _ Hwf).
  - intros [j Hj]. by destruct (Hf j).
  - unfold strings__size, gobuffer__size. simpl. lia.
Qed.

End AddProps.

(** (C30) Interning a string: whenever memory is available, [strings__add]
    returns an index at which the string can be read back and which
    [strings__find] and every later [strings__add] of it return; strings
    interned before keep their index, and an index belongs to one string. *)
Theorem strings__add_correct realloc tsearch_ok strs str :
  realloc_spec realloc -> (forall l n, realloc l n <> None) -> tsearch_ok strs = true ->
  strings_wf strs -> no_nul str ->
  strings__size strs + Z.of_nat (S (String.length str)) < 2 ^ 31 ->
  exists i strs', runs (strings__add realloc tsearch_ok (Some str)) strs i strs' /\
    strings_wf strs' /\ i <> 0 /\
    strings__ptr strs' i = Some str /\ strings__find strs' (Some str) = inr i /\
    strings__add realloc tsearch_ok (Some str) strs' = inr (i, strs') /\
    (forall j s, interned strs j s ->
       strings__ptr strs' j = Some s /\ strings__find strs' (Some s) = inr j /\ (j = i <-> s = str)).
Proof.
  intros Hre Hmem Hts Hwf Hn Hb.
  destruct (strings__add_run realloc Hre tsearch_ok strs str Hwf Hn Hb)
    as (i & strs' & Hrun & [(Hwf' & Hi & Hk & _ & _)|[((l & n & H) & _)|[H _]]]);
    [|by destruct (Hmem l n)|congruence].
  exists i, strs'. split; [done|]. split; [done|].
  split; [destruct (in_bytes _ _ _ Hi); lia|].
  split; [by apply interned_ptr|]. split; [by apply strings__find_interned|]. split.
  - unfold strings__add. pose proof (tfind_interned strs' str Hwf') as Hf.
    destruct (tfind _ _) as [|[j|]]; [done| |by destruct (Hf i)].
    rewrite (sw_inj _ Hwf' _ _ _ Hf Hi). by rewrite (interned_small _ _ _ Hwf' Hi).
  - intros j s Hj%Hk. split; [by apply interned_ptr|].
    split; [by apply strings__find_interned|]. split.
    + intros ->. by eapply interned_fun.
    + intros ->. by eapply (sw_inj _ Hwf').
Qed.

(** When [realloc] fails the error code is stored as an index that no string
    belongs to: the lookup of another string reads outside the buffer. *)
Lemma strings__add_enomem :
  exists i strs', strings__add (fun _ _ => None) (fun _ => true) (Some "task"%string) strings__new
    = inr (i, strs') /\ i = 2 ^ 32 - 12 /\ strings__ptr strs' i = None /\
    strings__find strs' (Some "inode"%string) = inl (undefined "comparison with bytes outside the buffer").
Proof. eexists _, _. repeat split; reflexivity. Qed.

(** A [realloc] that always succeeds. *)
Definition big_realloc (l : list ascii) (n : Z) : option (list ascii) :=
  Some (l ++ replicate (Z.to_nat n - List.length l) "000"%char).

Lemma big_realloc_spec : realloc_spec big_realloc.
Proof.
  intros l n l' Hl [= <-]. rewrite length_app, length_replicate. split; [lia|by eexists].
Qed.

Lemma strings__add_correct_witness :
  exists i strs', runs (strings__add big_realloc (fun _ => true) (Some "inode"%string)) strings__new i strs' /\
    strings__ptr strs' i = Some "inode"%string /\ strings__find strs' (Some "inode"%string) = inr i.
Proof.
  destruct (strings__add_correct big_realloc (fun _ => true) strings__new "inode"
    big_realloc_spec ltac:(done) eq_refl strings__new_wf
    ltac:(solve_no_nul) ltac:(done))
    as (i & strs' & H1 & _ & _ & H2 & H3 & _).
  exists i, strs'. by split.
Defined.

(** ** Compressing a buffer: gobuffer__compress of gobuffer.c

    zlib is a parameter: [deflateInit] takes the input, or NULL, and [deflate]
    says for the room that is left whether the stream is in error, which bytes it
    wrote, and how it goes on. *)

Definition GOBUFFER__ZCHUNK : Z := 8 * 1024.

Section Compress.
Context (realloc : list ascii -> Z -> option (list ascii)).
Context {z_stream : Type} (deflateInit : option (list ascii) -> option z_stream)
  (deflate : z_stream -> Z -> bool * list ascii * z_stream).

(** The loop makes room for a chunk and fills it until there is some left;
    [None] is NULL, with the block freed. *)
Fixpoint compress_loop (n : nat) (z : z_stream) (bf : list ascii) (bf_size : Z)
    : exn + option (list ascii * Z) :=
  match n with
  | O => inl out_of_fuel
  | S n =>
      let new_bf_size := u32 (bf_size + GOBUFFER__ZCHUNK) in
      match realloc bf new_bf_size with
      | None => inr None
      | Some nbf =>
          let '(error, bytes, z) := deflate z GOBUFFER__ZCHUNK in
          match store_bytes nbf bf_size bytes with
          | None => inl (undefined "deflate outside the block")
          | Some bf =>
              if (error : bool) then inr None else
              let avail_out := GOBUFFER__ZCHUNK - Z.of_nat (List.length bytes) in
              if avail_out =? 0 then compress_loop n z bf new_bf_size
              else inr (Some (bf, u32 (new_bf_size - avail_out)))
          end
      end
  end.

(** [next_in]: NULL before anything was added. *)
Definition compress_input (gb : gobuffer) : option (list ascii) :=
  match gb_entries gb with [] => None | l => Some (take (Z.to_nat (gobuffer__size gb)) l) end.

Definition gobuffer__compress (n : nat) (gb : gobuffer) : exn + option (list ascii * Z) :=
  match deflateInit (compress_input gb) with
  | None => inr None
  | Some z => compress_loop n z [] 0
  end.

Definition strings__compress (n : nat) (strs : strings) : exn + option (list ascii * Z) :=
  gobuffer__compress n (str_gb strs).

(** What zlib promises: a stream that has [out] left writes as much of it as
    there is room for. *)
Definition deflate_ok (stream : z_stream -> list ascii -> Prop) : Prop :=
  forall z out room, stream z out -> 0 < room ->
    exists z', deflate z room = (false, take (Z.to_nat room) out, z') /\ stream z' (drop (Z.to_nat room) out).

Context (stream : z_stream -> list ascii -> Prop) (Hdeflate : deflate_ok stream).
Context (Hre : realloc_spec realloc) (Hmem : forall l n, realloc l n <> None).

Lemma compress_loop_run n : forall z bf out,
  stream z out -> Z.of_nat (List.length out) < Z.of_nat n * GOBUFFER__ZCHUNK ->
  Z.of_nat (List.length bf) + Z.of_nat (List.length out) + GOBUFFER__ZCHUNK < 2 ^ 32 ->
  exists bf', compress_loop n z bf (Z.of_nat (List.length bf)) =
      inr (Some (bf', Z.of_nat (List.length bf + List.length out))) /\
    take (List.length bf + List.length out) bf' = bf ++ out.
Proof.
  unfold GOBUFFER__ZCHUNK. induction n as [|n IH]; intros z bf out Hz Hn Hb; [lia|]. cbn [compress_loop].
  unfold GOBUFFER__ZCHUNK. rewrite (u32_small (_ + 8 * 1024)) by lia.
  destruct (realloc bf _) as [nbf|] eqn:Er; [|by destruct (Hmem _ _ Er)].
  apply Hre in Er as [Hlen [junk ->]]; [|lia]. rewrite length_app in Hlen.
  destruct (Hdeflate z out (8 * 1024) Hz ltac:(lia)) as (z' & -> & Hz').
  set (k := Z.to_nat (8 * 1024)) in *. assert (Hk : Z.of_nat k = 8 * 1024) by (unfold k; lia).
  clearbody k.
  destruct (store_bytes_ok (bf ++ junk) (Z.of_nat (List.length bf)) (take k out)) as (bf1 & -> & Hl1 & Hs & Hp);
    [lia|rewrite length_app, length_take; lia|].
  rewrite Nat2Z.id in Hs, Hp. rewrite take_app_length in Hp. rewrite length_app in Hl1.
  assert (Hbf1 : take (List.length bf + List.length (take k out)) bf1 = bf ++ take k out).
  { rewrite <- (take_drop (List.length bf) bf1), Hp at 1.
    rewrite take_app_add. f_equal. exact Hs. }
  rewrite length_take in *. destruct (Z.eqb_spec (8 * 1024 - Z.of_nat (k `min` List.length out)) 0) as [E|E].
  - assert (Hge : (k <= List.length out)%nat) by lia. replace (k `min` List.length out)%nat with k in * by lia.
    assert (Hlb : List.length bf1 = (List.length bf + k)%nat) by lia.
    rewrite take_ge in Hbf1 by lia. subst bf1.
    destruct (IH z' (bf ++ take k out) (drop k out) Hz') as (bf' & Hrun & Ht);
      [rewrite length_drop; lia|rewrite length_app, length_take, length_drop; lia|].
    rewrite length_app, length_take, length_drop in *.
    replace (Z.of_nat (List.length bf) + 8 * 1024) with (Z.of_nat (List.length bf + k `min` List.length out)) by lia.
    exists bf'. rewrite Hrun, <- app_assoc, take_drop in *.
    replace (List.length bf + k `min` List.length out + (List.length out - k))%nat
      with (List.length bf + List.length out)%nat in * by lia.
    done.
  - assert (Hle : (List.length out < k)%nat) by lia.
    replace (k `min` List.length out)%nat with (List.length out) in * by lia.
    exists bf1. rewrite u32_small by lia. rewrite (take_ge out) in Hbf1 by lia. split; [|done]. do 3 f_equal. lia.
Qed.

(** The result is what zlib makes of the bytes in use; one round more than there
    are full chunks is enough. *)
Lemma gobuffer__compress_run gb z out n :
  deflateInit (compress_input gb) = Some z -> stream z out ->
  Z.of_nat (List.length out) < Z.of_nat n * GOBUFFER__ZCHUNK ->
  Z.of_nat (List.length out) + GOBUFFER__ZCHUNK < 2 ^ 32 ->
  exists bf, gobuffer__compress n gb = inr (Some (bf, Z.of_nat (List.length out))) /\
    take (List.length out) bf = out.
Proof.
  intros Hinit Hz Hn Hb. unfold gobuffer__compress. rewrite Hinit.
  destruct (compress_loop_run n z [] out Hz Hn) as (bf & H1 & H2); [simpl; lia|]. by exists bf.
Qed.
End Compress.

(** With a stream that copies, a buffer of one string in one round. *)
Example compress_stored :
  (fun r => match r with inr (Some (bf, size)) => Some (take (Z.to_nat size) bf, size) | _ => None end)
    (gobuffer__compress (fun l n => Some (l ++ repeat "000"%char (Z.to_nat n - List.length l)))
      (fun l => l) (fun z room => (false, take (Z.to_nat room) z, drop (Z.to_nat room) z)) 1
      (mkGb (String.list_ascii_of_string "?abc") 1 4 4)) = Some (String.list_ascii_of_string "?abc", 4).
Proof. vm_compute. reflexivity. Qed.
