(* ===== verification/DwTypes.v ===== *)
(** * The data of the dwarves library: dwarves.h and dwarves_api.h

    Debugging information is a graph of tags: objects that start with a
    [struct tag] and are cast to the structure their [DW_TAG] value implies.
    An object is a tag and the fields of the structure it was allocated as, so
    that a cast to another structure is visible as undefined behaviour.  The
    [list_head]s are the lists of their members (ListHead verifies the pointer
    operations), the tree of functions is a tree of RbTree whose nodes and root
    have the addresses of the functions and of the compile unit.  Fields that
    nothing under src/ reads are left out. *)
From S2P Require Export Prelude StdMap RbTree GoBuffer.
From Stdlib Require Import Strings.Ascii.
From S2P Require HList.
Local Open Scope list_scope.
Local Open Scope Z_scope.

(** ** Constants of the DWARF standard *)

Definition DW_TAG_array_type := 0x01.
Definition DW_TAG_class_type := 0x02.
Definition DW_TAG_entry_point := 0x03.
Definition DW_TAG_enumeration_type := 0x04.
Definition DW_TAG_formal_parameter := 0x05.
Definition DW_TAG_imported_declaration := 0x08.
Definition DW_TAG_label := 0x0a.
Definition DW_TAG_lexical_block := 0x0b.
Definition DW_TAG_member := 0x0d.
Definition DW_TAG_pointer_type := 0x0f.
Definition DW_TAG_reference_type := 0x10.
Definition DW_TAG_compile_unit := 0x11.
Definition DW_TAG_string_type := 0x12.
Definition DW_TAG_structure_type := 0x13.
Definition DW_TAG_subroutine_type := 0x15.
Definition DW_TAG_typedef := 0x16.
Definition DW_TAG_union_type := 0x17.
Definition DW_TAG_unspecified_parameters := 0x18.
Definition DW_TAG_inheritance := 0x1c.
Definition DW_TAG_inlined_subroutine := 0x1d.
Definition DW_TAG_ptr_to_member_type := 0x1f.
Definition DW_TAG_subrange_type := 0x21.
Definition DW_TAG_base_type := 0x24.
Definition DW_TAG_const_type := 0x26.
Definition DW_TAG_enumerator := 0x28.
Definition DW_TAG_subprogram := 0x2e.
Definition DW_TAG_template_type_parameter := 0x2f.
Definition DW_TAG_template_value_parameter := 0x30.
Definition DW_TAG_variable := 0x34.
Definition DW_TAG_volatile_type := 0x35.
Definition DW_TAG_interface_type := 0x38.
Definition DW_TAG_namespace := 0x39.
Definition DW_TAG_imported_module := 0x3a.
Definition DW_TAG_shared_type := 0x40.
Definition DW_TAG_type_unit := 0x41.
Definition DW_TAG_rvalue_reference_type := 0x42.
Definition DW_TAG_MIPS_loop := 0x4081.
Definition DW_TAG_GNU_formal_parameter_pack := 0x4108.
Definition DW_TAG_GNU_template_template_param := 0x4106.
Definition DW_TAG_GNU_template_parameter_pack := 0x4107.
Definition DW_TAG_GNU_call_site := 0x4109.
Definition DW_TAG_GNU_call_site_parameter := 0x410a.

Definition DW_VIRTUALITY_virtual := 1.
Definition DW_INL_inlined := 1.
Definition DW_INL_declared_not_inlined := 2.
Definition DW_INL_declared_inlined := 3.
Definition LANG_C_plus_plus := 4.

(** ** Tags *)

(** Whether [tag::node] is in a list; [Garbage] was never initialised. *)
Inductive node_state := Unlinked | Linked | Garbage.

Record tag := mkTag {
  node : node_state;
  tag_type : Z;             (* uint16_t type *)
  tag_tag : Z;              (* uint16_t tag *)
  top_level : bool;
  priv : loc                (* the dwarf_tag *)
}.

(** A list of tags, or, in an enumeration that shares its enumerators, a head
    whose [next] points to the head of another one. *)
Inductive tag_list := Tags (l : list loc) | SharedTags (alias : loc).

Record namespace := mkNs {
  ns_name : strings_t;
  ns_nr_tags : Z;           (* uint16_t *)
  ns_shared_tags : bool;
  ns_sname : option string;
  ns_tags : tag_list
}.

Record type := mkType {
  ty_ns : namespace;
  ty_size : Z;              (* uint32_t *)
  ty_nr_static_members : Z; (* uint16_t *)
  ty_nr_members : Z;        (* uint16_t *)
  ty_declaration : Z        (* uint8_t *)
}.

Record class := mkClass {
  cl_type : type;
  cl_vtable : list loc;
  cl_nr_vtable_entries : Z; (* uint16_t *)
  cl_nr_holes : Z;          (* uint8_t *)
  cl_nr_bit_holes : Z;      (* uint8_t *)
  cl_padding : Z;           (* uint16_t *)
  cl_bit_padding : Z        (* uint8_t *)
}.

Record class_member := mkMember {
  cm_name : strings_t;
  cm_bit_offset : Z;        (* uint32_t *)
  cm_bit_size : Z;          (* uint32_t *)
  cm_byte_offset : Z;       (* uint32_t *)
  cm_byte_size : Z;         (* size_t *)
  cm_bitfield_offset : Z;   (* uint8_t *)
  cm_bitfield_size : Z;     (* uint8_t *)
  cm_bit_hole : Z;          (* uint8_t *)
  cm_bitfield_end : bool;
  cm_const_value : Z;       (* uint64_t *)
  cm_is_static : bool;
  cm_accessibility : Z;     (* 2 bits *)
  cm_virtuality : Z;        (* 2 bits *)
  cm_hole : Z               (* uint16_t *)
}.

Record base_type := mkBase {
  bt_name : strings_t;
  bt_bit_size : Z;          (* uint16_t *)
  bt_name_has_encoding : bool;
  bt_is_signed : bool;
  bt_is_bool : bool;
  bt_is_varargs : bool;
  bt_float_type : Z         (* 4 bits *)
}.

Record array_type := mkArray {
  at_nr_entries : list Z;   (* uint32_t [dimensions] *)
  at_dimensions : Z;        (* uint8_t *)
  at_is_vector : bool
}.

Inductive vlocation :=
  LOCATION_UNKNOWN | LOCATION_LOCAL | LOCATION_GLOBAL | LOCATION_REGISTER | LOCATION_OPTIMIZED.

Record variable := mkVar {
  var_addr : Z;             (* ip.addr *)
  var_name : strings_t;
  var_external : bool;
  var_declaration : bool;
  var_location : vlocation
}.

Record lexblock := mkLex {
  lb_addr : Z;              (* ip.addr *)
  lb_tags : list loc;
  lb_size : Z;              (* uint32_t *)
  lb_nr_inline_expansions : Z;   (* uint16_t *)
  lb_nr_labels : Z;              (* uint16_t *)
  lb_nr_variables : Z;           (* uint16_t *)
  lb_nr_lexblocks : Z;           (* uint16_t *)
  lb_size_inline_expansions : Z  (* uint32_t *)
}.

Record ftype := mkFtype {
  ft_parms : list loc;
  ft_nr_parms : Z;          (* uint16_t *)
  ft_unspec_parms : bool
}.

Record function := mkFun {
  fn_proto : ftype;
  fn_lexblock : lexblock;
  fn_name : strings_t;
  fn_linkage_name : strings_t;
  fn_cu_total_size_inline_expansions : Z;  (* uint32_t *)
  fn_cu_total_nr_inline_expansions : Z;    (* uint16_t *)
  fn_inlined : Z;           (* 2 bits *)
  fn_abstract_origin : bool;
  fn_external : bool;
  fn_accessibility : Z;     (* 2 bits *)
  fn_virtuality : Z;        (* 2 bits *)
  fn_vtable_entry : Z       (* int32_t *)
}.

(** [struct inline_expansion]: its [size] is [None] before it is written. *)
Record inline_expansion := mkInline {
  ie_addr : Z;
  ie_size : option Z;       (* size_t *)
  ie_high_pc : Z            (* uint64_t *)
}.

Inductive body :=
  | BTag
  | BPtrToMember (containing_type : Z)
  | BNamespace (n : namespace)
  | BType (t : type)
  | BClass (c : class)
  | BBaseType (b : base_type)
  | BArrayType (a : array_type)
  | BEnumerator (name : strings_t) (value : Z)
  | BClassMember (m : class_member)
  | BParameter (name : strings_t)
  | BVariable (v : variable)
  | BLabel (addr : Z) (name : strings_t)
  | BInlineExpansion (e : inline_expansion)
  | BLexblock (b : lexblock)
  | BFtype (f : ftype)
  | BFunction (f : function).

Record tagobj := mkObj { o_tag : tag; o_body : body }.

(** ** Tables, compile units and the whole state *)

(** [entries] has no value in the cells that [realloc] has not filled. *)
Record ptr_table := mkPt {
  pt_entries : gmap Z loc;
  pt_nr_entries : Z;        (* uint32_t *)
  pt_allocated_entries : Z  (* uint32_t *)
}.

Record cu := mkCu {
  cu_tags : list loc;
  cu_types_table : ptr_table;
  cu_functions_table : ptr_table;
  cu_tags_table : ptr_table;
  cu_name : string;
  cu_filename : string;
  cu_priv : loc;            (* the dwarf_cu *)
  cu_obstack : list loc;    (* the objects allocated in it, the newest first *)
  cu_dfops : bool;          (* whether [dfops] is set *)
  cu_addr_size : Z;         (* uint8_t *)
  cu_extra_dbg_info : bool;
  cu_has_addr_info : bool;
  cu_language : Z;          (* uint16_t *)
  cu_nr_inline_expansions : Z;    (* unsigned long *)
  cu_size_inline_expansions : Z;  (* size_t *)
  cu_build_id : list ascii
}.

(** [struct dwarf_off_ref] *)
Record dwarf_off_ref := mkRef { from_types : bool; ref_off : Z }.
Definition null_ref : dwarf_off_ref := mkRef false 0.

(** [struct dwarf_tag] and the specification that may follow it.  The union of
    [abstract_origin] and [containing_type] is one field. *)
Record dwarf_tag := mkDtag {
  dt_type : dwarf_off_ref;
  dt_id : Z;                (* Dwarf_Off *)
  dt_abstract_origin : dwarf_off_ref;
  dt_tag : loc;
  dt_decl_file : strings_t;
  dt_decl_line : Z;         (* uint16_t *)
  dt_small_id : Z;          (* uint16_t *)
  dt_spec : option dwarf_off_ref
}.

(** [struct dwarf_cu] without the heads of its hash tables. *)
Record dwarf_cu := mkDcu {
  dcu_obstack : list loc;   (* the dwarf_tags allocated in it *)
  dcu_cu : loc;
  dcu_type_unit : loc
}.

(** The messages on stderr. *)
Inductive diag :=
  | type_loop (type tag : Z)
  | id_not_found (id : Z)
  | unknown_base_type (name : string)
  | tag_not_supported (tag : Z)
  | tag_not_handled (tag id : Z)
  | with_children (tag : Z)
  | type_not_found (off id tag : Z)
  | abstract_origin_not_found (off id tag : Z)
  | other_diag (what : string).

(** The static variables of dwarf_loader.c. *)
Record loader_statics := mkLoader {
  last_decl_file : loc;          (* const char * *)
  last_decl_file_idx : Z;        (* uint32_t *)
  dwarf_tags_warned : gset Z;
  dwarf_gnu_tags_warned : gset Z
}.

Definition loader_init : loader_statics := mkLoader 0 0 ∅ ∅.

Record dstate := mkD {
  d_tags : gmap loc tagobj;
  d_dtags : gmap loc dwarf_tag;
  d_dcus : gmap loc dwarf_cu;
  d_cus : gmap loc cu;
  d_list : list loc;        (* struct cus *)
  d_rb : rbheap;            (* function::rb_node, cu::functions *)
  d_strings : strings;
  d_snames : list strings_t; (* base_type_name_to_size_table[].sname *)
  d_err : list diag;
  d_loader : loader_statics;
  d_hash : HList.hheap      (* dwarf_tag::hash_node, dwarf_cu::hash_tags, hash_types *)
}.

Notation DM := (M dstate exn).

Definition no_hash : HList.hheap := HList.mkHHeap ∅ ∅ ∅.

Definition set_tags (m : gmap loc tagobj) (st : dstate) : dstate :=
  mkD m (d_dtags st) (d_dcus st) (d_cus st) (d_list st) (d_rb st) (d_strings st) (d_snames st) (d_err st) (d_loader st) (d_hash st).
Definition set_dtags (m : gmap loc dwarf_tag) (st : dstate) : dstate :=
  mkD (d_tags st) m (d_dcus st) (d_cus st) (d_list st) (d_rb st) (d_strings st) (d_snames st) (d_err st) (d_loader st) (d_hash st).
Definition set_dcus (m : gmap loc dwarf_cu) (st : dstate) : dstate :=
  mkD (d_tags st) (d_dtags st) m (d_cus st) (d_list st) (d_rb st) (d_strings st) (d_snames st) (d_err st) (d_loader st) (d_hash st).
Definition set_cus (m : gmap loc cu) (st : dstate) : dstate :=
  mkD (d_tags st) (d_dtags st) (d_dcus st) m (d_list st) (d_rb st) (d_strings st) (d_snames st) (d_err st) (d_loader st) (d_hash st).
Definition set_list (l : list loc) (st : dstate) : dstate :=
  mkD (d_tags st) (d_dtags st) (d_dcus st) (d_cus st) l (d_rb st) (d_strings st) (d_snames st) (d_err st) (d_loader st) (d_hash st).
Definition set_drb (h : rbheap) (st : dstate) : dstate :=
  mkD (d_tags st) (d_dtags st) (d_dcus st) (d_cus st) (d_list st) h (d_strings st) (d_snames st) (d_err st) (d_loader st) (d_hash st).
Definition set_dstrings (s : strings) (st : dstate) : dstate :=
  mkD (d_tags st) (d_dtags st) (d_dcus st) (d_cus st) (d_list st) (d_rb st) s (d_snames st) (d_err st) (d_loader st) (d_hash st).
Definition set_err (l : list diag) (st : dstate) : dstate :=
  mkD (d_tags st) (d_dtags st) (d_dcus st) (d_cus st) (d_list st) (d_rb st) (d_strings st) (d_snames st) l (d_loader st) (d_hash st).

Definition set_snames (l : list strings_t) (st : dstate) : dstate :=
  mkD (d_tags st) (d_dtags st) (d_dcus st) (d_cus st) (d_list st) (d_rb st) (d_strings st) l (d_err st) (d_loader st) (d_hash st).

Definition set_loader (l : loader_statics) (st : dstate) : dstate :=
  mkD (d_tags st) (d_dtags st) (d_dcus st) (d_cus st) (d_list st) (d_rb st) (d_strings st) (d_snames st)
    (d_err st) l (d_hash st).

Definition set_dhash (h : HList.hheap) (st : dstate) : dstate :=
  mkD (d_tags st) (d_dtags st) (d_dcus st) (d_cus st) (d_list st) (d_rb st) (d_strings st) (d_snames st) (d_err st) (d_loader st) h.

Definition err (d : diag) : DM unit := modify (fun st => set_err (d_err st ++ [d]) st).
Definition undef {A} (what : string) : DM A := raise (undefined what).

(** Reading a part of the state that a pointer must lead to. *)
Definition must {A} (what : string) (o : option A) : DM A :=
  match o with Some a => mret a | None => undef what end.

Definition load_obj (p : loc) : DM tagobj := st ← get_st; must "invalid tag" (d_tags st !! p).
Definition load_cu (c : loc) : DM cu := st ← get_st; must "invalid cu" (d_cus st !! c).
Definition load_dtag (p : loc) : DM dwarf_tag :=
  st ← get_st; must "invalid dwarf_tag" (d_dtags st !! p).
Definition load_dcu (p : loc) : DM dwarf_cu :=
  st ← get_st; must "invalid dwarf_cu" (d_dcus st !! p).

Definition store_obj (p : loc) (o : tagobj) : DM unit :=
  modify (fun st => set_tags (<[p := o]> (d_tags st)) st).
Definition store_cu (c : loc) (o : cu) : DM unit :=
  modify (fun st => set_cus (<[c := o]> (d_cus st)) st).
Definition store_dtag (p : loc) (o : dwarf_tag) : DM unit :=
  modify (fun st => set_dtags (<[p := o]> (d_dtags st)) st).
Definition store_dcu (p : loc) (o : dwarf_cu) : DM unit :=
  modify (fun st => set_dcus (<[p := o]> (d_dcus st)) st).

Definition load_tag (p : loc) : DM tag := o ← load_obj p; mret (o_tag o).
Definition upd_tag (p : loc) (f : tag -> tag) : DM unit :=
  o ← load_obj p; store_obj p (mkObj (f (o_tag o)) (o_body o)).
Definition upd_body (p : loc) (f : body -> option body) : DM unit :=
  o ← load_obj p; b ← must "cast to another structure" (f (o_body o)); store_obj p (mkObj (o_tag o) b).

(** A computation on the red-black trees. *)
Definition on_rb {A} (c : RM A) : DM A := fun st =>
  match c (d_rb st) with inl e => inl e | inr (a, h) => inr (a, set_drb h st) end.
(** A computation on the hash chains. *)
Definition on_hash {A} (c : HList.HLM A) : DM A := fun st =>
  match c (d_hash st) with inl e => inl e | inr (a, h) => inr (a, set_dhash h st) end.
