(* ===== verification/Dwarves.v ===== *)
(** * Tags, tables and compile units: dwarves.h and dwarves.c

    Every function takes the addresses C passes and works on the state of
    DwTypes; [cu] and [tag] arguments are locations, 0 is NULL.  What the
    functions get from outside is a parameter: the table of the debugging
    format, and whether memory is available. *)
From S2P Require Import Prelude StdMap RbTree RbRemove GoBuffer DUtil DwTypes.
From Stdlib Require Import Strings.Ascii.
Local Open Scope list_scope.
Local Open Scope Z_scope.

(** ** What kind of tag *)

Definition tag__is_enumeration (t : tag) : bool := tag_tag t =? DW_TAG_enumeration_type.
Definition tag__is_namespace (t : tag) : bool := tag_tag t =? DW_TAG_namespace.
Definition tag__is_struct (t : tag) : bool :=
  (tag_tag t =? DW_TAG_structure_type) || (tag_tag t =? DW_TAG_interface_type) ||
  (tag_tag t =? DW_TAG_class_type).
Definition tag__is_typedef (t : tag) : bool := tag_tag t =? DW_TAG_typedef.
Definition tag__is_union (t : tag) : bool := tag_tag t =? DW_TAG_union_type.
Definition tag__is_const (t : tag) : bool := tag_tag t =? DW_TAG_const_type.
Definition tag__is_volatile (t : tag) : bool := tag_tag t =? DW_TAG_volatile_type.
Definition tag__has_namespace (t : tag) : bool :=
  tag__is_struct t || tag__is_union t || tag__is_namespace t || tag__is_enumeration t.
Definition tag__is_type (t : tag) : bool :=
  tag__is_union t || tag__is_struct t || tag__is_typedef t || tag__is_enumeration t.
Definition tag__is_tag_type (t : tag) : bool :=
  tag__is_type t || (tag_tag t =? DW_TAG_array_type) || (tag_tag t =? DW_TAG_base_type) ||
  (tag_tag t =? DW_TAG_const_type) || (tag_tag t =? DW_TAG_pointer_type) ||
  (tag_tag t =? DW_TAG_ptr_to_member_type) || (tag_tag t =? DW_TAG_reference_type) ||
  (tag_tag t =? DW_TAG_subroutine_type) || (tag_tag t =? DW_TAG_volatile_type).
Definition tag__is_function (t : tag) : bool := tag_tag t =? DW_TAG_subprogram.
Definition tag__is_class_member (t : tag) : bool := tag_tag t =? DW_TAG_member.
Definition tag__is_variable (t : tag) : bool := tag_tag t =? DW_TAG_variable.
Definition cu__is_c_plus_plus (c : cu) : bool := cu_language c =? LANG_C_plus_plus.

(** ** Casts *)

Definition tag__namespace (b : body) : option namespace :=
  match b with
  | BNamespace n => Some n
  | BType t => Some (ty_ns t)
  | BClass c => Some (ty_ns (cl_type c))
  | _ => None
  end.
Definition tag__type (b : body) : option type :=
  match b with BType t => Some t | BClass c => Some (cl_type c) | _ => None end.
Definition tag__class (b : body) : option class :=
  match b with BClass c => Some c | _ => None end.
Definition tag__class_member (b : body) : option class_member :=
  match b with BClassMember m => Some m | _ => None end.
Definition tag__base_type (b : body) : option base_type :=
  match b with BBaseType b => Some b | _ => None end.
Definition tag__array_type (b : body) : option array_type :=
  match b with BArrayType a => Some a | _ => None end.
Definition tag__variable (b : body) : option variable :=
  match b with BVariable v => Some v | _ => None end.
Definition tag__parameter (b : body) : option strings_t :=
  match b with BParameter n => Some n | _ => None end.
Definition tag__label (b : body) : option (Z * strings_t) :=
  match b with BLabel a n => Some (a, n) | _ => None end.
Definition tag__lexblock (b : body) : option lexblock :=
  match b with BLexblock l => Some l | _ => None end.
Definition tag__ftype (b : body) : option ftype :=
  match b with BFtype f => Some f | BFunction f => Some (fn_proto f) | _ => None end.
Definition tag__function (b : body) : option function :=
  match b with BFunction f => Some f | _ => None end.
Definition tag__inline_expansion (b : body) : option inline_expansion :=
  match b with BInlineExpansion e => Some e | _ => None end.
Definition tag__ptr_to_member_type (b : body) : option Z :=
  match b with BPtrToMember c => Some c | _ => None end.

(** Reading [f] of the object at [p], cast by [view]. *)
Definition cast {A} (view : body -> option A) (p : loc) : DM A :=
  o ← load_obj p; must "cast to another structure" (view (o_body o)).

(** Assigning to a field of a structure that starts the object. *)
Definition set_ns (f : namespace -> namespace) (b : body) : option body :=
  match b with
  | BNamespace n => Some (BNamespace (f n))
  | BType t => Some (BType (mkType (f (ty_ns t)) (ty_size t) (ty_nr_static_members t)
      (ty_nr_members t) (ty_declaration t)))
  | BClass c =>
      let t := cl_type c in
      Some (BClass (mkClass (mkType (f (ty_ns t)) (ty_size t) (ty_nr_static_members t)
        (ty_nr_members t) (ty_declaration t)) (cl_vtable c) (cl_nr_vtable_entries c)
        (cl_nr_holes c) (cl_nr_bit_holes c) (cl_padding c) (cl_bit_padding c)))
  | _ => None
  end.
Definition set_type (f : type -> type) (b : body) : option body :=
  match b with
  | BType t => Some (BType (f t))
  | BClass c => Some (BClass (mkClass (f (cl_type c)) (cl_vtable c) (cl_nr_vtable_entries c)
      (cl_nr_holes c) (cl_nr_bit_holes c) (cl_padding c) (cl_bit_padding c)))
  | _ => None
  end.
Definition set_class (f : class -> class) (b : body) : option body :=
  match b with BClass c => Some (BClass (f c)) | _ => None end.
Definition set_member (f : class_member -> class_member) (b : body) : option body :=
  match b with BClassMember m => Some (BClassMember (f m)) | _ => None end.
Definition set_lexblock (f : lexblock -> lexblock) (b : body) : option body :=
  match b with
  | BLexblock l => Some (BLexblock (f l))
  | BFunction g => Some (BFunction (mkFun (fn_proto g) (f (fn_lexblock g)) (fn_name g)
      (fn_linkage_name g) (fn_cu_total_size_inline_expansions g)
      (fn_cu_total_nr_inline_expansions g) (fn_inlined g) (fn_abstract_origin g) (fn_external g)
      (fn_accessibility g) (fn_virtuality g) (fn_vtable_entry g)))
  | _ => None
  end.
Definition set_ftype (f : ftype -> ftype) (b : body) : option body :=
  match b with
  | BFtype t => Some (BFtype (f t))
  | BFunction g => Some (BFunction (mkFun (f (fn_proto g)) (fn_lexblock g) (fn_name g)
      (fn_linkage_name g) (fn_cu_total_size_inline_expansions g)
      (fn_cu_total_nr_inline_expansions g) (fn_inlined g) (fn_abstract_origin g) (fn_external g)
      (fn_accessibility g) (fn_virtuality g) (fn_vtable_entry g)))
  | _ => None
  end.

(** ** The lists of tags *)

(** The tags that [list_for_each_entry] visits from a list of tags: a shared
    head has no list of its own. *)
Definition own_tags (l : tag_list) : DM (list loc) :=
  match l with Tags l => mret l | SharedTags _ => undef "traversal of a shared list head" end.

(** [list_add_tail(&tag->node, ..)]: the node must not be in a list. *)
Definition link_node (p : loc) : DM unit :=
  t ← load_tag p;
  match node t with
  | Linked => undef "list_add of a linked node"
  | _ => upd_tag p (fun t => mkTag Linked (tag_type t) (tag_tag t) (top_level t) (priv t))
  end.

(** [list_del_init(&tag->node)] *)
Definition unlink_node (p : loc) : DM unit :=
  t ← load_tag p;
  match node t with
  | Garbage => undef "list_del of an uninitialised node"
  | _ => upd_tag p (fun t => mkTag Unlinked (tag_type t) (tag_tag t) (top_level t) (priv t))
  end.

Fixpoint iter_list (f : loc -> DM unit) (l : list loc) : DM unit :=
  match l with [] => mret tt | p :: l => f p;;; iter_list f l end.

(** The first [Some] that [f] yields. *)
Fixpoint find_list {A} (f : loc -> DM (option A)) (l : list loc) : DM (option A) :=
  match l with
  | [] => mret None
  | p :: l => r ← f p; match r with Some a => mret (Some a) | None => find_list f l end
  end.

(** ** Pointer tables *)

Definition ptr_table__init : ptr_table := mkPt ∅ 0 0.
Definition ptr_table__exit (pt : ptr_table) : ptr_table :=
  mkPt ∅ (pt_nr_entries pt) (pt_allocated_entries pt).

(** [pt->entries[id]]: a cell in the block that has been written. *)
Definition pt_cell (pt : ptr_table) (id : Z) : DM loc :=
  if id <? pt_allocated_entries pt then must "uninitialised table entry" (pt_entries pt !! id)
  else undef "read outside the table".

Definition ptr_table__entry (pt : ptr_table) (id : Z) : DM loc :=
  if pt_nr_entries pt <=? id then mret 0 else pt_cell pt id.

Section PtrTable.
(** Whether [realloc] finds room for a table of so many entries. *)
Context (grow_ok : Z -> bool).

Definition ptr_table__add (pt : ptr_table) (ptr : loc) : Z * ptr_table :=
  let nr_entries := u32 (pt_nr_entries pt + 1) in
  let rc := pt_nr_entries pt in
  if pt_allocated_entries pt <? nr_entries then
    let allocated := u32 (pt_allocated_entries pt + 256) in
    if grow_ok allocated then (rc, mkPt (<[rc := ptr]> (pt_entries pt)) nr_entries allocated)
    else (- ENOMEM, pt)
  else (rc, mkPt (<[rc := ptr]> (pt_entries pt)) nr_entries (pt_allocated_entries pt)).

Definition ptr_table__add_with_id (pt : ptr_table) (ptr : loc) (id : Z) : Z * ptr_table :=
  if pt_allocated_entries pt <=? id then
    let allocated := u32 (roundup (u32 (id + 1)) 256) in
    if grow_ok allocated
    then (0, mkPt (<[id := ptr]> (pt_entries pt)) (u32 (pt_nr_entries pt + 1)) allocated)
    else (- ENOMEM, pt)
  else (0, mkPt (<[id := ptr]> (pt_entries pt)) (u32 (pt_nr_entries pt + 1))
             (pt_allocated_entries pt)).

End PtrTable.

(** The pointer tables of a compile unit. *)
Inductive which_table := TagsTable | TypesTable | FunctionsTable.
#[export] Instance which_table_eq_dec : EqDecision which_table.
Proof. solve_decision. Defined.
Definition cu_table (w : which_table) (c : cu) : ptr_table :=
  match w with
  | TagsTable => cu_tags_table c
  | TypesTable => cu_types_table c
  | FunctionsTable => cu_functions_table c
  end.
Definition set_table (w : which_table) (pt : ptr_table) (c : cu) : cu :=
  mkCu (cu_tags c)
    (match w with TypesTable => pt | _ => cu_types_table c end)
    (match w with FunctionsTable => pt | _ => cu_functions_table c end)
    (match w with TagsTable => pt | _ => cu_tags_table c end)
    (cu_name c) (cu_filename c) (cu_priv c) (cu_obstack c) (cu_dfops c) (cu_addr_size c)
    (cu_extra_dbg_info c) (cu_has_addr_info c) (cu_language c) (cu_nr_inline_expansions c)
    (cu_size_inline_expansions c) (cu_build_id c).
Definition set_cu_tags (l : list loc) (c : cu) : cu :=
  mkCu l (cu_types_table c) (cu_functions_table c) (cu_tags_table c)
    (cu_name c) (cu_filename c) (cu_priv c) (cu_obstack c) (cu_dfops c) (cu_addr_size c)
    (cu_extra_dbg_info c) (cu_has_addr_info c) (cu_language c) (cu_nr_inline_expansions c)
    (cu_size_inline_expansions c) (cu_build_id c).
Definition set_cu_obstack (l : list loc) (c : cu) : cu :=
  mkCu (cu_tags c) (cu_types_table c) (cu_functions_table c) (cu_tags_table c)
    (cu_name c) (cu_filename c) (cu_priv c) l (cu_dfops c) (cu_addr_size c)
    (cu_extra_dbg_info c) (cu_has_addr_info c) (cu_language c) (cu_nr_inline_expansions c)
    (cu_size_inline_expansions c) (cu_build_id c).
Definition set_cu_inline (nr size : Z) (c : cu) : cu :=
  mkCu (cu_tags c) (cu_types_table c) (cu_functions_table c) (cu_tags_table c)
    (cu_name c) (cu_filename c) (cu_priv c) (cu_obstack c) (cu_dfops c) (cu_addr_size c)
    (cu_extra_dbg_info c) (cu_has_addr_info c) (cu_language c) nr size (cu_build_id c).

Definition cu__same_build_id (c other : cu) : bool :=
  negb (Nat.eqb (List.length (cu_build_id c)) 0) &&
  bool_decide (cu_build_id c = cu_build_id other).

(** Looking an id up; a NULL [cu] has no tags. *)
Definition cu__entry (w : which_table) (c : loc) (id : Z) : DM loc :=
  if c =? 0 then mret 0 else cu ← load_cu c; ptr_table__entry (cu_table w cu) id.
Definition cu__function (c : loc) (id : Z) : DM loc := cu__entry FunctionsTable c (u32 id).
Definition cu__tag (c : loc) (id : Z) : DM loc := cu__entry TagsTable c (u32 id).
Definition cu__type (c : loc) (id : Z) : DM loc := cu__entry TypesTable c (u16 id).

(** ** The debugging format *)

(** [struct debug_fmt_ops]; a NULL member is [None]. *)
Record debug_fmt_ops := mkOps {
  ops_name : string;
  ops_init : option (DM Z);
  ops_exit : option (DM unit);
  ops_load_file : string -> DM Z;
  ops_tag__decl_file : option (loc -> loc -> DM (option string));
  ops_tag__decl_line : option (loc -> loc -> DM Z);
  ops_tag__orig_id : option (loc -> loc -> DM Z);
  ops_function__name : option (loc -> loc -> DM (option string));
  ops_variable__name : option (loc -> loc -> DM (option string));
  ops_strings__ptr : option (loc -> strings_t -> DM (option string));
  ops_cu__delete : option (loc -> DM unit)
}.

(** [snprintf(bf, len, ..)] of the text [s]: what [bf] holds. *)
Definition snprintf (len : Z) (s : string) : string := String.substring 0 (Z.to_nat (len - 1)) s.

(** The argument of a [%s]. *)
Definition arg_s (s : option string) : DM string := must "%s of a null pointer" s.

Definition base_type_name_to_size_table : list (string * Z) :=
  [("unsigned", 32); ("signed int", 32); ("unsigned int", 32); ("int", 32);
   ("short unsigned int", 16); ("signed short", 16); ("unsigned short", 16); ("short int", 16);
   ("char", 8); ("signed char", 8); ("unsigned char", 8); ("signed long", 0); ("long int", 0);
   ("signed long", 0); ("unsigned long", 0); ("long unsigned int", 0); ("bool", 8); ("_Bool", 8);
   ("long long unsigned int", 64); ("long long int", 64); ("signed long long", 64);
   ("unsigned long long", 64); ("double", 64); ("double double", 64); ("single float", 32);
   ("float", 32); ("long double", 64); ("long double long double", 64)]%string.

(** Entry 0 has no designator: a null pointer. *)
Definition base_type_fp_type_str : list (option string) :=
  [None; Some "single"; Some "double"; Some "complex"; Some "complex double";
   Some "complex long double"; Some "long double"; Some "interval"; Some "interval double";
   Some "interval long double"; Some "imaginary"; Some "imaginary double";
   Some "imaginary long double"]%string.

Definition base_type_name_to_size_table__init : DM unit :=
  st ← get_st;
  (fix go (names : list (string * Z)) (snames acc : list strings_t) : DM unit :=
    match names, snames with
    | (name, _) :: names, sname :: snames =>
        if sname =? 0 then
          match strings__find (d_strings st) (Some name) with
          | inl e => raise e
          | inr i => go names snames (acc ++ [i])
          end
        else go names snames (acc ++ [sname])
    | _, _ => modify (set_snames acc)
    end) base_type_name_to_size_table (d_snames st) [].

Section Format.
Context (ops : debug_fmt_ops).

Definition cu__string (c : loc) (s : strings_t) : DM (option string) :=
  cu ← load_cu c;
  match (if cu_dfops cu then ops_strings__ptr ops else None) with
  | Some f => f c s
  | None => mret None
  end.
Definition tag__decl_file (t c : loc) : DM (option string) :=
  cu ← load_cu c;
  match (if cu_dfops cu then ops_tag__decl_file ops else None) with
  | Some f => f t c
  | None => mret None
  end.
Definition tag__decl_line (t c : loc) : DM Z :=
  cu ← load_cu c;
  match (if cu_dfops cu then ops_tag__decl_line ops else None) with
  | Some f => f t c
  | None => mret 0
  end.
Definition tag__orig_id (t c : loc) : DM Z :=
  cu ← load_cu c;
  match (if cu_dfops cu then ops_tag__orig_id ops else None) with
  | Some f => f t c
  | None => mret 0
  end.
Definition function__name (f c : loc) : DM (option string) :=
  cu ← load_cu c;
  match (if cu_dfops cu then ops_function__name ops else None) with
  | Some g => g f c
  | None => func ← cast tag__function f; cu__string c (fn_name func)
  end.
Definition variable__name (v c : loc) : DM (option string) :=
  cu ← load_cu c;
  match (if cu_dfops cu then ops_variable__name ops else None) with
  | Some g => g v c
  | None => var ← cast tag__variable v; cu__string c (var_name var)
  end.

Definition function__linkage_name (f c : loc) : DM (option string) :=
  func ← cast tag__function f; cu__string c (fn_linkage_name func).
Definition class_member__name (m c : loc) : DM (option string) :=
  cm ← cast tag__class_member m; cu__string c (cm_name cm).
Definition parameter__name (p c : loc) : DM (option string) :=
  n ← cast tag__parameter p; cu__string c n.
Definition label__name (l c : loc) : DM (option string) :=
  n ← cast tag__label l; cu__string c n.2.
Definition namespace__name (n : namespace) (c : loc) : DM (option string) :=
  match ns_sname n with Some s => mret (Some s) | None => cu__string c (ns_name n) end.
Definition type__name (t : type) (c : loc) : DM (option string) := namespace__name (ty_ns t) c.
Definition class__name (k : class) (c : loc) : DM (option string) := type__name (cl_type k) c.

Definition base_type__name (bt : base_type) (c : loc) (len : Z) : DM (option string) :=
  if bt_name_has_encoding bt then cu__string c (bt_name bt) else
  if negb (bt_float_type bt =? 0) then
    f ← must "float type out of range" (base_type_fp_type_str !! Z.to_nat (bt_float_type bt));
    f ← arg_s f;
    n ← cu__string c (bt_name bt); n ← arg_s n;
    mret (Some (snprintf len (f +:+ " " +:+ n)))
  else
    n ← cu__string c (bt_name bt); n ← arg_s n;
    mret (Some (snprintf len
      ((if bt_is_signed bt then "signed " else "") +:+ (if bt_is_bool bt then "bool " else "") +:+
       (if bt_is_varargs bt then "... " else "") +:+ n)))%string.

Definition base_type__name_to_size (p c : loc) : DM Z :=
  bt ← cast tag__base_type p;
  name ← (if bt_name_has_encoding bt then cu__string c (bt_name bt) else base_type__name bt c 64);
  cu ← load_cu c;
  st ← get_st;
  (fix go (l : list (string * Z)) (snames : list strings_t) : DM Z :=
    match l, snames with
    | (n, size) :: l, sname :: snames =>
        hit ← (if bt_name_has_encoding bt then mret (sname =? bt_name bt)
               else s ← arg_s name; mret (String.eqb n s));
        if (hit : bool) then mret (if size =? 0 then cu_addr_size cu * 8 else size)
        else go l snames
    | _, _ =>
        n ← arg_s name; err (unknown_base_type n);;; mret 0
    end) base_type_name_to_size_table (d_snames st).

(** ** Lookups in a compile unit *)

(** [cu__for_each_type] with the 16-bit counter [id]; NULL entries are skipped. *)
Fixpoint for_each_type {A} (n : nat) (c : loc) (id : Z) (f : Z -> loc -> DM (option A))
    : DM (option A) :=
  cu ← load_cu c;
  if id <? pt_nr_entries (cu_types_table cu) then
    match n with
    | O => raise out_of_fuel
    | S n =>
        pos ← pt_cell (cu_types_table cu) id;
        r ← (if pos =? 0 then mret None else f id pos);
        match r with
        | Some a => mret (Some a)
        | None => for_each_type n c (u16 (id + 1)) f
        end
    end
  else mret None.

(** More steps than 16-bit ids. *)
Definition type_fuel : nat := 65536.

Definition some_or_null (r : option loc) : loc := default 0 r.

Definition cu__find_first_typedef_of_type (c : loc) (ty : Z) : DM loc :=
  if (c =? 0) || (ty =? 0) then mret 0 else
  some_or_null <$> for_each_type type_fuel c 1 (fun _ pos =>
    t ← load_tag pos;
    mret (if tag__is_typedef t && (tag_type t =? ty) then Some pos else None)).

(** The tag found, and the id stored through [idp]. *)
Definition cu__find_base_type_by_name (c : loc) (name : option string) : DM (option (loc * Z)) :=
  match name with
  | None => mret None
  | Some name =>
      if c =? 0 then mret None else
      for_each_type type_fuel c 1 (fun id pos =>
        t ← load_tag pos;
        if negb (tag_tag t =? DW_TAG_base_type) then mret None else
        bt ← cast tag__base_type pos;
        bname ← base_type__name bt c 64;
        mret (match bname with
              | Some b => if String.eqb b name then Some (pos, id) else None
              | None => None
              end))
  end.

Definition cu__find_base_type_by_sname_and_size (c : loc) (sname bit_size : Z)
    : DM (option (loc * Z)) :=
  if sname =? 0 then mret None else
  for_each_type type_fuel c 1 (fun id pos =>
    t ← load_tag pos;
    if tag_tag t =? DW_TAG_base_type then
      bt ← cast tag__base_type pos;
      mret (if (bt_bit_size bt =? bit_size) && (bt_name bt =? sname) then Some (pos, id) else None)
    else mret None).

Definition cu__find_enumeration_by_sname_and_size (c : loc) (sname bit_size : Z)
    : DM (option (loc * Z)) :=
  if sname =? 0 then mret None else
  for_each_type type_fuel c 1 (fun id pos =>
    t ← load_tag pos;
    if tag_tag t =? DW_TAG_enumeration_type then
      ty ← cast tag__type pos;
      mret (if (ty_size ty =? bit_size) && (ns_name (ty_ns ty) =? sname) then Some (pos, id) else None)
    else mret None).

Definition cu__find_struct_by_sname (c : loc) (sname : strings_t) (include_decls : bool)
    : DM (option (loc * Z)) :=
  if sname =? 0 then mret None else
  for_each_type type_fuel c 1 (fun id pos =>
    t ← load_tag pos;
    if negb (tag__is_struct t) then mret None else
    ty ← cast tag__type pos;
    mret (if (ns_name (ty_ns ty) =? sname) && ((ty_declaration ty =? 0) || include_decls)
          then Some (pos, id) else None)).

(** ** Following types *)

(** [tag->type == type->type], which is taken for a loop; it is reported. *)
Definition has_type_loop (t ty : tag) : bool := tag_type t =? tag_type ty.
Definition tag__has_type_loop (p ty : loc) : DM bool :=
  if ty =? 0 then mret false else
  t ← load_tag p; tty ← load_tag ty;
  if has_type_loop t tty then err (type_loop (tag_type t) (tag_tag t));;; mret true
  else mret false.

Definition tag__id_not_found (id : Z) : DM unit := err (id_not_found (u16 id)).

Fixpoint tag__follow_typedef (n : nat) (p c : loc) : DM loc :=
  match n with
  | O => raise out_of_fuel
  | S n =>
      t ← load_tag p;
      ty ← cu__type c (tag_type t);
      if ty =? 0 then mret 0 else
      tty ← load_tag ty;
      if tag__is_typedef tty then tag__follow_typedef n ty c else mret ty
  end.

Fixpoint resolve_typedef (n : nat) (c orig_type : loc) : DM loc :=
  t ← load_tag orig_type;
  if tag__is_typedef t then
    match n with
    | O => raise out_of_fuel
    | S n =>
        type_type ← cu__type c (tag_type t);
        if type_type =? 0 then mret 0 else
        loop ← tag__has_type_loop orig_type type_type;
        if (loop : bool) then mret 0 else resolve_typedef n c type_type
    end
  else mret orig_type.

Definition cu__find_struct_by_name (n : nat) (c : loc) (name : option string) (include_decls : bool)
    : DM (option (loc * Z)) :=
  match name with
  | None => mret None
  | Some name =>
      if c =? 0 then mret None else
      r ← for_each_type type_fuel c 1 (fun id pos =>
        t ← load_tag pos;
        if negb (tag__is_typedef t) && negb (tag__is_struct t) then mret None else
        ty ← cast tag__type pos;
        tname ← type__name ty c;
        match tname with
        | Some tname =>
            if negb (String.eqb tname name) then mret None else
            pos ← (if tag__is_typedef t then resolve_typedef n c pos else mret pos);
            if pos =? 0 then mret (Some None) else
            mret (if (ty_declaration ty =? 0) || include_decls then Some (Some (pos, id)) else None)
        | None => mret None
        end);
      mret (default None r)
  end.

(** The loops over the compile units; also the unit of the result. *)
Definition cus__find_struct_by_name (n : nat) (name : option string) (include_decls : bool)
    : DM (option (loc * loc * Z)) :=
  st ← get_st;
  find_list (fun c =>
    r ← cu__find_struct_by_name n c name include_decls;
    mret (match r with Some (p, id) => Some (c, p, id) | None => None end)) (d_list st).

Definition cus__find_cu_by_name (name : string) : DM loc :=
  st ← get_st;
  some_or_null <$> find_list (fun c =>
    cu ← load_cu c; mret (if String.eqb (cu_name cu) name then Some c else None)) (d_list st).

(** [cu__for_each_function]: the counter has 32 bits. *)
Fixpoint for_each_function {A} (n : nat) (c : loc) (id : Z) (f : Z -> loc -> DM (option A))
    : DM (option A) :=
  cu ← load_cu c;
  if id <? pt_nr_entries (cu_functions_table cu) then
    match n with
    | O => raise out_of_fuel
    | S n =>
        pos ← pt_cell (cu_functions_table cu) id;
        r ← (if pos =? 0 then mret None else f id pos);
        match r with
        | Some a => mret (Some a)
        | None => for_each_function n c (u32 (id + 1)) f
        end
    end
  else mret None.

Definition cu__find_function_by_name (n : nat) (c : loc) (name : option string) : DM loc :=
  match name with
  | None => mret 0
  | Some name =>
      if c =? 0 then mret 0 else
      some_or_null <$> for_each_function n c 0 (fun _ pos =>
        fname ← function__name pos c;
        mret (match fname with
              | Some s => if String.eqb s name then Some pos else None
              | None => None
              end))
  end.

(** ** Functions by address *)

Definition function__addr (f : function) : Z := lb_addr (fn_lexblock f).
Definition function__size (f : function) : Z := lb_size (fn_lexblock f).

(** The function that the tree node at [p] is part of. *)
Definition fn_at (st : dstate) (p : loc) : option function :=
  o ← d_tags st !! p; tag__function (o_body o).

(** Where the loop of [cu__insert_function] goes from a node. *)
Definition insert_dir (st : dstate) (addr : Z) (p : loc) : option comparison :=
  f ← fn_at st p; Some (if addr <? function__addr f then Gt else Lt).

Definition cu__insert_function (n : nat) (c p : loc) : DM unit :=
  func ← cast tag__function p;
  st ← get_st;
  r ← on_rb (rb_search n (insert_dir st (function__addr func)) (RootSlot c) 0);
  match r with
  | inl (sl, parent) => on_rb (rb_link_node p parent sl);;; on_rb (rb_insert_color n p c)
  | inr _ => undef "unreachable"
  end.

(** Where the loop of [cu__find_function_at_addr] goes from a node. *)
Definition addr_dir (st : dstate) (addr : Z) (p : loc) : option comparison :=
  f ← fn_at st p;
  Some (if addr <? function__addr f then Gt
        else if u64 (function__addr f + function__size f) <=? addr then Lt else Eq).

Definition cu__find_function_at_addr (n : nat) (c : loc) (addr : Z) : DM loc :=
  if c =? 0 then mret 0 else
  st ← get_st;
  r ← on_rb (rb_search n (addr_dir st addr) (RootSlot c) 0);
  mret (match r with inr p => p | inl _ => 0 end).

Definition cus__find_function_at_addr (n : nat) (addr : Z) : DM (option (loc * loc)) :=
  st ← get_st;
  find_list (fun c =>
    f ← cu__find_function_at_addr n c addr;
    mret (if f =? 0 then None else Some (f, c))) (d_list st).

Definition cus__get_function_at_addr (n : nat) (addr : Z) : DM (option string) :=
  r ← cus__find_function_at_addr n addr;
  match r with
  | Some (f, c) => function__name f c
  | None => mret (Some "unknown"%string)
  end.

End Format.

(** ** Running the functions

    Equations for the primitives of DwTypes, used as rewrite rules by the files
    that prove properties of the dwarves functions. *)


(** [dbind], [dbind_inv], [dbind_assoc] and [dret] are those of the Prelude. *)
Lemma dfmap {A B} (c : DM A) (f : A -> B) st a st1 :
  c st = inr (a, st1) -> (f <$> c) st = inr (f a, st1).
Proof. unfold fmap, M_fmap. by intros ->. Qed.

Lemma load_obj_run st p o : d_tags st !! p = Some o -> load_obj p st = inr (o, st).
Proof. unfold load_obj, must, mbind, M_bind, get_st. by intros ->. Qed.

Lemma load_tag_run st p o : d_tags st !! p = Some o -> load_tag p st = inr (o_tag o, st).
Proof. intros H. unfold load_tag. by rewrite (dbind _ _ _ _ _ (load_obj_run _ _ _ H)). Qed.

Lemma cast_run {A} (view : body -> option A) st p o a :
  d_tags st !! p = Some o -> view (o_body o) = Some a -> cast view p st = inr (a, st).
Proof.
  intros H Hv. unfold cast. rewrite (dbind _ _ _ _ _ (load_obj_run _ _ _ H)). by rewrite Hv.
Qed.

Lemma load_cu_run st c u : d_cus st !! c = Some u -> load_cu c st = inr (u, st).
Proof. unfold load_cu, must, mbind, M_bind, get_st. by intros ->. Qed.

Lemma upd_body_run st p o f b :
  d_tags st !! p = Some o -> f (o_body o) = Some b ->
  upd_body p f st = inr (tt, set_tags (<[p := mkObj (o_tag o) b]> (d_tags st)) st).
Proof.
  intros H Hf. unfold upd_body. rewrite (dbind _ _ _ _ _ (load_obj_run _ _ _ H)). by rewrite Hf.
Qed.

Lemma upd_tag_run st p o f :
  d_tags st !! p = Some o ->
  upd_tag p f st = inr (tt, set_tags (<[p := mkObj (f (o_tag o)) (o_body o)]> (d_tags st)) st).
Proof. intros H. unfold upd_tag. by rewrite (dbind _ _ _ _ _ (load_obj_run _ _ _ H)). Qed.

Lemma set_tags_tags m st : d_tags (set_tags m st) = m.
Proof. done. Qed.
Lemma set_tags_twice m m' st : set_tags m (set_tags m' st) = set_tags m st.
Proof. done. Qed.
Lemma set_tags_id st : set_tags (d_tags st) st = st.
Proof. by destruct st. Qed.

Lemma valid_loc_eqb (p : loc) : p <> 0 -> (p =? 0) = false.
Proof. apply Z.eqb_neq. Qed.

(** One step of a [DM] run: the first action of the bind is known to run. *)
Ltac dstep lem := rewrite (dbind _ _ _ _ _ lem); cbv beta.

Lemma pt_cell_run pt id p st :
  id < pt_allocated_entries pt -> pt_entries pt !! id = Some p ->
  (pt_cell pt id : DM loc) st = inr (p, st).
Proof.
  intros H Hp. unfold pt_cell. destruct (Z.ltb_spec id (pt_allocated_entries pt)); [|lia].
  by rewrite Hp.
Qed.

(** The type with id [id] of a unit. *)
Lemma cu__type_run st c u id p :
  c <> 0 -> d_cus st !! c = Some u -> 0 <= id < 2 ^ 16 ->
  id < pt_nr_entries (cu_types_table u) <= pt_allocated_entries (cu_types_table u) ->
  pt_entries (cu_types_table u) !! id = Some p ->
  cu__type c id st = inr (p, st).
Proof.
  intros Hc Hu Hid Hn Hp. unfold cu__type, cu__entry.
  rewrite (u16_small id Hid), (valid_loc_eqb c Hc). dstep (load_cu_run _ _ _ Hu).
  unfold ptr_table__entry. rewrite (proj2 (Z.leb_gt _ _)) by (simpl; lia).
  apply pt_cell_run; [simpl; lia|done].
Qed.

(** A tag that is none of some kinds. *)
Lemma not_kind (k : Z) (l : list Z) (x : Z) : x ∉ l -> k ∈ l -> (x =? k) = false.
Proof. intros Hx Hk. apply Z.eqb_neq. by intros ->. Qed.

Lemma not_kinds (ks l : list Z) (x : Z) : x ∉ l -> ks ⊆ l -> bool_decide (x ∈ ks) = false.
Proof. intros Hx Hk. apply bool_decide_eq_false. intros Hin. by apply Hx, Hk. Qed.
