(* ===== verification/DwClass.v ===== *)
(** * Types and their members: the second half of dwarves.c

    Sizes, the layout of structures with its holes, the functions that add to,
    clone and delete the objects of a compile unit. *)
From S2P Require Import Prelude StdMap RbTree GoBuffer DwTypes Dwarves.
From Stdlib Require Import Strings.Ascii.
Local Open Scope list_scope.
Local Open Scope Z_scope.

(** ** Sizes *)

Definition base_type__size (bt : base_type) : Z := bt_bit_size bt / 8.

(** The loop from the dimension [i] with [k] left. *)
Fixpoint nr_entries_loop (at_ : array_type) (i k : nat) (nr : Z) : DM Z :=
  match k with
  | O => mret nr
  | S k =>
      n ← must "nr_entries out of range" (at_nr_entries at_ !! i);
      nr_entries_loop at_ (S i) k (u64 (nr * n))
  end.
Definition array_type__nr_entries (at_ : array_type) : DM Z :=
  nr_entries_loop at_ 0 (Z.to_nat (at_dimensions at_)) 1.

(** The [switch] of [tag__size]: the size it returns at once. *)
Definition cached_size (p c : loc) (t : tag) : DM (option Z) :=
  if tag_tag t =? DW_TAG_member then
    m ← cast tag__class_member p;
    mret (if cm_is_static m then Some 0
          else if negb (cm_byte_size m =? 0) then Some (cm_byte_size m) else None)
  else if (tag_tag t =? DW_TAG_pointer_type) || (tag_tag t =? DW_TAG_reference_type) then
    cu ← load_cu c; mret (Some (cu_addr_size cu))
  else if tag_tag t =? DW_TAG_base_type then
    bt ← cast tag__base_type p; mret (Some (base_type__size bt))
  else if tag_tag t =? DW_TAG_enumeration_type then
    ty ← cast tag__type p; mret (Some (ty_size ty / 8))
  else mret None.

Fixpoint tag__size (n : nat) (p c : loc) : DM Z :=
  match n with
  | O => raise out_of_fuel
  | S n =>
      t ← load_tag p;
      cached ← cached_size p c t;
      match cached with
      | Some size => mret size
      | None =>
          size ←
            (if tag_type t =? 0 then
               ty ← cast tag__type p;
               mret (Some (if (ty_size ty =? 1) && (ty_nr_members ty =? 0) then 0 else ty_size ty))
             else
               ty ← cu__type c (tag_type t);
               if ty =? 0 then tag__id_not_found (tag_type t);;; mret None else
               loop ← tag__has_type_loop p ty;
               if (loop : bool) then mret None else Some <$> tag__size n ty c);
          match size with
          | None => mret (u64 (-1))
          | Some size =>
              if tag_tag t =? DW_TAG_array_type then
                at_ ← cast tag__array_type p;
                nr ← array_type__nr_entries at_;
                mret (u64 (size * nr))
              else mret size
          end
      end
  end.

(** ** Members *)

(** The conditions of [type__for_each_member] and [type__for_each_data_member]. *)
Definition is_member (t : tag) : bool :=
  (tag_tag t =? DW_TAG_member) || (tag_tag t =? DW_TAG_inheritance).
Definition is_data_member (t : tag) : bool := tag_tag t =? DW_TAG_member.

(** The tags of the type at [p]. *)
Definition type_tags (p : loc) : DM (list loc) := ns ← cast tag__namespace p; own_tags (ns_tags ns).

(** [type__for_each_member] and [_data_member] with an early [return]. *)
Definition find_member {A} (sel : tag -> bool) (f : loc -> DM (option A)) (p : loc) : DM (option A) :=
  l ← type_tags p;
  find_list (fun pos => t ← load_tag pos; if sel t then f pos else mret None) l.

Section Members.
Context (ops : debug_fmt_ops).

Definition type__find_member_by_name (p c : loc) (name : option string) : DM loc :=
  match name with
  | None => mret 0
  | Some name =>
      some_or_null <$> find_member is_data_member (fun pos =>
        curr ← class_member__name ops pos c;
        mret (match curr with
              | Some s => if String.eqb s name then Some pos else None
              | None => None
              end)) p
  end.

Definition type__nr_members_of_type (p : loc) (type_id : Z) : DM Z :=
  l ← type_tags p;
  (fix go (l : list loc) (nr : Z) : DM Z :=
    match l with
    | [] => mret nr
    | pos :: l =>
        t ← load_tag pos;
        go l (if is_member t && (tag_type t =? u16 type_id) then u32 (nr + 1) else nr)
    end) l 0.

Definition type__last_member (p : loc) : DM loc :=
  l ← type_tags p;
  some_or_null <$> find_list (fun pos =>
    t ← load_tag pos; mret (if is_data_member t then Some pos else None)) (reverse l).

Definition class__has_hole_ge (p : loc) (size : Z) : DM bool :=
  k ← cast tag__class p;
  if cl_nr_holes k =? 0 then mret false else
  r ← find_member is_data_member (fun pos =>
    m ← cast tag__class_member pos; mret (if size <=? cm_hole m then Some tt else None)) p;
  mret (bool_decide (is_Some r)).

(** [None] is the [break] at [trailer]. *)
Definition class__find_bit_hole (p trailer : loc) (bit_hole_size : Z) : DM loc :=
  let byte_hole_size := bit_hole_size / 8 in
  r ← find_member is_data_member (fun pos =>
    if pos =? trailer then mret (Some 0) else
    m ← cast tag__class_member pos;
    mret (if (byte_hole_size <=? cm_hole m) || (bit_hole_size <=? cm_bit_hole m)
          then Some pos else None)) p;
  mret (some_or_null r).

(** The loop over the powers of two. *)
Fixpoint power2_loop (k : nat) (addr_size member_size power2 result_size : Z) (cand result : loc)
    : DM (loc + loc * Z) :=
  if result_size <? power2 then
    match k with
    | O => raise out_of_fuel
    | S k =>
        if power2 <=? member_size then
          if power2 =? addr_size then mret (inl cand)
          else power2_loop k addr_size member_size (power2 / 2) power2 cand cand
        else power2_loop k addr_size member_size (power2 / 2) result_size cand result
    end
  else mret (inr (result, result_size)).

(** The [switch] at [reevaluate]: the size and [inner]; [None] is a [continue]. *)
Fixpoint member_base_size (n : nat) (inner_of : loc -> DM loc) (c ty : loc) : DM (option (Z * loc)) :=
  match n with
  | O => raise out_of_fuel
  | S n =>
      t ← load_tag ty;
      cu ← load_cu c;
      if tag_tag t =? DW_TAG_base_type then
        bt ← cast tag__base_type ty; mret (Some (base_type__size bt, 0))
      else if (tag_tag t =? DW_TAG_pointer_type) || (tag_tag t =? DW_TAG_reference_type) then
        mret (Some (cu_addr_size cu, 0))
      else if (tag_tag t =? DW_TAG_class_type) || (tag_tag t =? DW_TAG_union_type) ||
              (tag_tag t =? DW_TAG_structure_type) then
        k ← cast tag__type ty;
        if ty_nr_members k =? 0 then mret None else
        inner ← inner_of ty;
        m ← cast tag__class_member inner;
        mret (Some (cm_byte_size m, inner))
      else if (tag_tag t =? DW_TAG_array_type) || (tag_tag t =? DW_TAG_const_type) ||
              (tag_tag t =? DW_TAG_typedef) || (tag_tag t =? DW_TAG_volatile_type) then
        ty ← cu__type c (tag_type t); member_base_size n inner_of c ty
      else if tag_tag t =? DW_TAG_enumeration_type then
        k ← cast tag__type ty; mret (Some (ty_size k / 8, 0))
      else mret (Some (0, 0))
  end.

Fixpoint type__find_first_biggest_size_base_type_member (n : nat) (p c : loc) : DM loc :=
  match n with
  | O => raise out_of_fuel
  | S n =>
      l ← type_tags p;
      (fix go (l : list loc) (result result_size : Z) : DM loc :=
        match l with
        | [] => mret result
        | pos :: l =>
            t ← load_tag pos;
            if negb (is_data_member t) then go l result result_size else
            m ← cast tag__class_member pos;
            if cm_is_static m then go l result result_size else
            ty ← cu__type c (tag_type t);
            if ty =? 0 then tag__id_not_found (tag_type t);;; go l result result_size else
            r ← member_base_size (S n) (fun ty => type__find_first_biggest_size_base_type_member n ty c) c ty;
            match r with
            | None => go l result result_size
            | Some (member_size, inner) =>
                cu ← load_cu c;
                if cu_addr_size cu <? member_size then mret pos else
                r ← power2_loop 9 (cu_addr_size cu) member_size (cu_addr_size cu) result_size
                      (if inner =? 0 then pos else inner) result;
                match r with
                | inl found => mret found
                | inr (result, result_size) => go l result result_size
                end
            end
        end) l 0 0
  end.

(** ** Holes *)

(** The local variables of [class__find_holes]. *)
Record hole_state := mkHs {
  hs_last : loc;
  hs_last_size : Z;             (* size_t *)
  hs_bit_sum : Z;               (* uint32_t *)
  hs_bitfield_real_offset : Z   (* uint32_t *)
}.

Definition set_hole (h : Z) (m : class_member) : class_member :=
  mkMember (cm_name m) (cm_bit_offset m) (cm_bit_size m) (cm_byte_offset m) (cm_byte_size m)
    (cm_bitfield_offset m) (cm_bitfield_size m) (cm_bit_hole m) (cm_bitfield_end m)
    (cm_const_value m) (cm_is_static m) (cm_accessibility m) (cm_virtuality m) h.
Definition set_bit_hole (h : Z) (m : class_member) : class_member :=
  mkMember (cm_name m) (cm_bit_offset m) (cm_bit_size m) (cm_byte_offset m) (cm_byte_size m)
    (cm_bitfield_offset m) (cm_bitfield_size m) h true
    (cm_const_value m) (cm_is_static m) (cm_accessibility m) (cm_virtuality m) (cm_hole m).
Definition set_nr_holes (nr nr_bit : Z) (k : class) : class :=
  mkClass (cl_type k) (cl_vtable k) (cl_nr_vtable_entries k) nr nr_bit (cl_padding k) (cl_bit_padding k).
Definition set_padding (padding : Z) (k : class) : class :=
  mkClass (cl_type k) (cl_vtable k) (cl_nr_vtable_entries k) (cl_nr_holes k) (cl_nr_bit_holes k)
    padding (cl_bit_padding k).
Definition set_bit_padding (padding : Z) (k : class) : class :=
  mkClass (cl_type k) (cl_vtable k) (cl_nr_vtable_entries k) (cl_nr_holes k) (cl_nr_bit_holes k)
    (cl_padding k) padding.

(** The part of an iteration that compares [pos] with [last]. *)
Definition holes_last (p : loc) (m : class_member) (s : hole_state) : DM hole_state :=
  let last := hs_last s in
  if last =? 0 then mret s else
  lm ← cast tag__class_member last;
  let cc_last_size := cm_byte_offset m - cm_byte_offset lm in
  if 0 <? cc_last_size then
    let last_size := if cc_last_size <? hs_last_size s then cc_last_size else hs_last_size s in
    let hole := u16 (cc_last_size - last_size) in
    upd_body last (set_member (set_hole hole));;;
    (if 0 <? hole
     then upd_body p (set_class (fun k => set_nr_holes (u8 (cl_nr_holes k + 1)) (cl_nr_bit_holes k) k))
     else mret tt);;;
    if negb (hs_bit_sum s =? 0) then
      let '(last_size, real) :=
        if negb (hs_bitfield_real_offset s =? 0)
        then (u32 (hs_bitfield_real_offset s - cm_byte_offset lm), 0)
        else (last_size, hs_bitfield_real_offset s) in
      let bit_hole := u8 (last_size * 8 - hs_bit_sum s) in
      upd_body last (set_member (set_bit_hole bit_hole));;;
      (if negb (bit_hole =? 0)
       then upd_body p (set_class (fun k => set_nr_holes (cl_nr_holes k) (u8 (cl_nr_bit_holes k + 1)) k))
       else mret tt);;;
      mret (mkHs last last_size 0 real)
    else mret (mkHs last last_size (hs_bit_sum s) (hs_bitfield_real_offset s))
  else if (cc_last_size <? 0) && (hs_bit_sum s =? 0) then
    mret (mkHs last (hs_last_size s) (hs_bit_sum s) (u32 (cm_byte_offset lm + hs_last_size s)))
  else mret s.

(** The part that accounts for [pos] itself. *)
Definition holes_pos (pos : loc) (m : class_member) (s : hole_state) : DM hole_state :=
  let bit_sum := u32 (hs_bit_sum s + cm_bitfield_size m) in
  fresh ← (if hs_last s =? 0 then mret true else
           lm ← cast tag__class_member (hs_last s);
           mret (negb (cm_byte_offset lm =? cm_byte_offset m) ||
                 (cm_bitfield_size m =? 0) || (cm_bitfield_size lm =? 0)));
  mret (mkHs pos
    (if (fresh : bool) then cm_byte_size m
     else if hs_last_size s <? cm_byte_size m then cm_byte_size m else hs_last_size s)
    bit_sum (hs_bitfield_real_offset s)).

Definition holes_step (p pos : loc) (s : hole_state) : DM hole_state :=
  t ← load_tag pos;
  if negb (is_member t) then mret s else
  m ← cast tag__class_member pos;
  if (tag_tag t =? DW_TAG_inheritance) && (cm_virtuality m =? DW_VIRTUALITY_virtual) then mret s else
  if cm_is_static m then mret s else
  s ← holes_last p m s;
  holes_pos pos m s.

Fixpoint holes_loop (p : loc) (l : list loc) (s : hole_state) : DM hole_state :=
  match l with [] => mret s | pos :: l => s ← holes_step p pos s; holes_loop p l s end.

Definition holes_end (p : loc) (s : hole_state) : DM unit :=
  if hs_last s =? 0 then upd_body p (set_class (set_padding 0)) else
  lm ← cast tag__class_member (hs_last s);
  ty ← cast tag__type p;
  (if negb (u64 (cm_byte_offset lm + hs_last_size s) =? ty_size ty)
   then upd_body p (set_class (set_padding (u16 (ty_size ty - (cm_byte_offset lm + hs_last_size s)))))
   else mret tt);;;
  if negb (cm_bitfield_size lm =? 0)
  then upd_body p (set_class (set_bit_padding (u8 (hs_last_size s * 8 - hs_bit_sum s))))
  else mret tt.

Definition class__find_holes (p : loc) : DM unit :=
  upd_body p (set_class (set_nr_holes 0 0));;;
  l ← type_tags p;
  s ← holes_loop p l (mkHs 0 0 0 0);
  holes_end p s.

(** [cu__for_each_struct] *)
Definition cu__find_class_holes (c : loc) : DM unit :=
  _ ← for_each_type type_fuel c 1 (fun _ pos =>
    t ← load_tag pos;
    (if tag__is_struct t then class__find_holes pos else mret tt);;; mret (None : option unit));
  mret tt.

Definition cus__add (c : loc) : DM unit :=
  modify (fun st => set_list (d_list st ++ [c]) st);;;
  cu__find_class_holes c.

Definition ftype__has_parm_of_type (p : loc) (target : Z) (c : loc) : DM bool :=
  f ← cast tag__ftype p;
  r ← find_list (fun pos =>
    t ← load_tag pos;
    ty ← cu__type c (tag_type t);
    if ty =? 0 then mret None else
    tty ← load_tag ty;
    mret (if (tag_tag tty =? DW_TAG_pointer_type) && (tag_type tty =? u16 target)
          then Some tt else None)) (ft_parms f);
  mret (bool_decide (is_Some r)).

End Members.
