(* ===== verification/DwUnits.v ===== *)
(** * Building and walking compile units: the rest of dwarves.c

    The functions that add objects to lists and tables, allocate, clone and
    delete them, and the traversals of a whole unit.  An obstack is the list of
    the objects allocated in it: freeing one frees all newer ones. *)
From S2P Require Import Prelude StdMap RbTree GoBuffer DUtil DwTypes Dwarves DwClass.
From Stdlib Require Import Strings.Ascii.
Local Open Scope list_scope.
Local Open Scope Z_scope.

(** ** Adding to lists *)

Definition add_own (p : loc) (l : tag_list) : option tag_list :=
  match l with Tags l => Some (Tags (l ++ [p])) | SharedTags _ => None end.

(** [++space->nr_tags; list_add_tail(&tag->node, &space->tags)] *)
Definition namespace__add_tag (space p : loc) : DM unit :=
  link_node p;;;
  ns ← cast tag__namespace space;
  l ← must "list_add to a shared list head" (add_own p (ns_tags ns));
  upd_body space (set_ns (fun ns =>
    mkNs (ns_name ns) (u16 (ns_nr_tags ns + 1)) (ns_shared_tags ns) (ns_sname ns) l)).

Definition type__add_member (ty member : loc) : DM unit :=
  m ← cast tag__class_member member;
  upd_body ty (set_type (fun t =>
    if cm_is_static m
    then mkType (ty_ns t) (ty_size t) (u16 (ty_nr_static_members t + 1)) (ty_nr_members t) (ty_declaration t)
    else mkType (ty_ns t) (ty_size t) (ty_nr_static_members t) (u16 (ty_nr_members t + 1)) (ty_declaration t)));;;
  namespace__add_tag ty member.

Definition enumeration__add (ty enumerator : loc) : DM unit :=
  upd_body ty (set_type (fun t =>
    mkType (ty_ns t) (ty_size t) (ty_nr_static_members t) (u16 (ty_nr_members t + 1)) (ty_declaration t)));;;
  namespace__add_tag ty enumerator.

Definition class__add_vtable_entry (class vtable_entry : loc) : DM unit :=
  upd_body class (set_class (fun k =>
    mkClass (cl_type k) (cl_vtable k ++ [vtable_entry]) (u16 (cl_nr_vtable_entries k + 1))
      (cl_nr_holes k) (cl_nr_bit_holes k) (cl_padding k) (cl_bit_padding k))).

Definition ftype__add_parameter (f parm : loc) : DM unit :=
  link_node parm;;;
  upd_body f (set_ftype (fun t =>
    mkFtype (ft_parms t ++ [parm]) (u16 (ft_nr_parms t + 1)) (ft_unspec_parms t))).

Definition lexblock__add_tag (block p : loc) : DM unit :=
  link_node p;;;
  upd_body block (set_lexblock (fun b =>
    mkLex (lb_addr b) (lb_tags b ++ [p]) (lb_size b) (lb_nr_inline_expansions b) (lb_nr_labels b)
      (lb_nr_variables b) (lb_nr_lexblocks b) (lb_size_inline_expansions b))).

Definition lexblock__add_lexblock (block child : loc) : DM unit :=
  upd_body block (set_lexblock (fun b =>
    mkLex (lb_addr b) (lb_tags b) (lb_size b) (lb_nr_inline_expansions b) (lb_nr_labels b)
      (lb_nr_variables b) (u16 (lb_nr_lexblocks b + 1)) (lb_size_inline_expansions b)));;;
  lexblock__add_tag block child.

Definition lexblock__add_variable (block var : loc) : DM unit :=
  upd_body block (set_lexblock (fun b =>
    mkLex (lb_addr b) (lb_tags b) (lb_size b) (lb_nr_inline_expansions b) (lb_nr_labels b)
      (u16 (lb_nr_variables b + 1)) (lb_nr_lexblocks b) (lb_size_inline_expansions b)));;;
  lexblock__add_tag block var.

Definition lexblock__add_label (block label : loc) : DM unit :=
  upd_body block (set_lexblock (fun b =>
    mkLex (lb_addr b) (lb_tags b) (lb_size b) (lb_nr_inline_expansions b) (u16 (lb_nr_labels b + 1))
      (lb_nr_variables b) (lb_nr_lexblocks b) (lb_size_inline_expansions b)));;;
  lexblock__add_tag block label.

(** Reading the [size] of an expansion that was not written is undefined. *)
Definition lexblock__add_inline_expansion (block exp : loc) : DM unit :=
  e ← cast tag__inline_expansion exp;
  size ← must "uninitialised size" (ie_size e);
  upd_body block (set_lexblock (fun b =>
    mkLex (lb_addr b) (lb_tags b) (lb_size b) (u16 (lb_nr_inline_expansions b + 1)) (lb_nr_labels b)
      (lb_nr_variables b) (lb_nr_lexblocks b) (u32 (lb_size_inline_expansions b + size))));;;
  lexblock__add_tag block exp.

(** ** Adding to the tables *)

Section Tables.
Context (grow_ok : Z -> bool).

Definition table_add (w : which_table) (c p : loc) (id : Z) : DM (Z * Z) :=
  cu ← load_cu c;
  if id <? 0 then
    let '(id, pt) := ptr_table__add grow_ok (cu_table w cu) p in
    store_cu c (set_table w pt cu);;; mret ((if id <? 0 then - ENOMEM else 0), id)
  else
    let '(rc, pt) := ptr_table__add_with_id grow_ok (cu_table w cu) p (u32 id) in
    store_cu c (set_table w pt cu);;; mret ((if rc <? 0 then - ENOMEM else 0), id).

(** The result and the id, both [long]. *)
Definition cu__table_add_tag (n : nat) (c p : loc) (id : Z) : DM (Z * Z) :=
  t ← load_tag p;
  if tag__is_tag_type t then table_add TypesTable c p id else
  if tag__is_function t then cu__insert_function n c p;;; table_add FunctionsTable c p id else
  table_add TagsTable c p id.

Definition cu__table_nullify_type_entry (c : loc) (id : Z) : DM Z :=
  cu ← load_cu c;
  let '(rc, pt) := ptr_table__add_with_id grow_ok (cu_types_table cu) 0 (u32 id) in
  store_cu c (set_table TypesTable pt cu);;; mret rc.

Definition cu__add_tag (n : nat) (c p : loc) (id : Z) : DM (Z * Z) :=
  r ← cu__table_add_tag n c p id;
  if r.1 =? 0 then
    link_node p;;;
    cu ← load_cu c; store_cu c (set_cu_tags (cu_tags cu ++ [p]) cu);;; mret r
  else mret r.

(** [malloc] of the unit, if it succeeds, and whether [strdup] does. *)
Context (alloc_cu : dstate -> option loc) (strdup_ok : string -> bool).

Definition cu__new (name : string) (addr_size : Z) (build_id : list ascii) (filename : string) : DM loc :=
  st ← get_st;
  match alloc_cu st with
  | None => mret 0
  | Some c =>
      if negb (strdup_ok name && strdup_ok filename) then mret 0 else
      let '(rc, types) := ptr_table__add grow_ok ptr_table__init 0 in
      if rc <? 0 then mret 0 else
      store_cu c (mkCu [] types ptr_table__init ptr_table__init name filename 0 [] false
        (u8 addr_size) false false 0 0 0 build_id);;;
      modify (fun st => set_drb (mkRbheap (nodes (d_rb st)) (<[c := 0]> (roots (d_rb st)))) st);;;
      mret c
  end.

End Tables.

(** ** Obstacks *)

Section Objects.
(** [obstack_alloc] of a tag's object, and the rest of a function's tree node. *)
Context (alloc : dstate -> option loc) (garbage : rb_node).

Definition obstack_alloc (c : loc) (o : tagobj) : DM loc :=
  st ← get_st;
  match alloc st with
  | None => mret 0
  | Some p =>
      cu ← load_cu c;
      store_cu c (set_cu_obstack (p :: cu_obstack cu) cu);;;
      store_obj p o;;;
      (match o_body o with
       | BFunction _ =>
           modify (fun st => set_drb (mkRbheap (<[p := garbage]> (nodes (d_rb st))) (roots (d_rb st))) st)
       | _ => mret tt
       end);;;
      mret p
  end.

(** What is left of an obstack when [p] and all newer objects are freed, and
    what is freed; [None] when [p] is not in it, which aborts. *)
Fixpoint obstack_split (p : loc) (l : list loc) : option (list loc * list loc) :=
  match l with
  | [] => None
  | q :: l =>
      if q =? p then Some ([q], l)
      else '(freed, kept) ← obstack_split p l; Some (q :: freed, kept)
  end.

Definition free_objs (freed : list loc) (st : dstate) : dstate :=
  set_tags (foldr delete (d_tags st) freed)
    (set_drb (mkRbheap (foldr delete (nodes (d_rb st)) freed) (roots (d_rb st))) st).

Definition obstack_free (c p : loc) : DM unit :=
  cu ← load_cu c;
  r ← must "obstack_free of a foreign object" (obstack_split p (cu_obstack cu));
  modify (free_objs r.1);;;
  store_cu c (set_cu_obstack r.2 cu).

(** [obstack_free(&cu->obstack, NULL)] *)
Definition obstack_free_all (c : loc) : DM unit :=
  cu ← load_cu c;
  modify (free_objs (cu_obstack cu));;;
  store_cu c (set_cu_obstack [] cu).

Definition class_member__delete (member c : loc) : DM unit := obstack_free c member.
Definition enumerator__delete (enumerator c : loc) : DM unit := obstack_free c enumerator.
Definition parameter__delete (parm c : loc) : DM unit := obstack_free c parm.

(** Removing a visited tag from the list of its namespace. *)
Definition unlink_ns (space p : loc) : DM unit :=
  unlink_node p;;;
  upd_body space (set_ns (fun ns =>
    mkNs (ns_name ns) (ns_nr_tags ns) (ns_shared_tags ns) (ns_sname ns)
      (match ns_tags ns with
       | Tags l => Tags (List.filter (fun q => negb (q =? p)) l)
       | SharedTags a => SharedTags a
       end))).
Definition unlink_lex (block p : loc) : DM unit :=
  unlink_node p;;;
  upd_body block (set_lexblock (fun b =>
    mkLex (lb_addr b) (List.filter (fun q => negb (q =? p)) (lb_tags b)) (lb_size b)
      (lb_nr_inline_expansions b) (lb_nr_labels b) (lb_nr_variables b) (lb_nr_lexblocks b)
      (lb_size_inline_expansions b))).
Definition unlink_parm (f p : loc) : DM unit :=
  unlink_node p;;;
  upd_body f (set_ftype (fun t =>
    mkFtype (List.filter (fun q => negb (q =? p)) (ft_parms t)) (ft_nr_parms t) (ft_unspec_parms t))).

Definition type__delete_class_members (ty c : loc) : DM unit :=
  l ← type_tags ty;
  iter_list (fun pos => unlink_ns ty pos;;; class_member__delete pos c) (reverse l).

Definition class__delete (class c : loc) : DM unit :=
  _ ← cast tag__class class;
  type__delete_class_members class c;;;
  obstack_free c class.

Definition type__delete (ty c : loc) : DM unit :=
  type__delete_class_members ty c;;;
  obstack_free c ty.

Definition enumeration__delete (ty c : loc) : DM unit :=
  ns ← cast tag__namespace ty;
  if ns_shared_tags ns then mret tt else
  l ← own_tags (ns_tags ns);
  iter_list (fun pos => unlink_ns ty pos;;; enumerator__delete pos c) (reverse l).

Definition ftype__delete (f c : loc) : DM unit :=
  if f =? 0 then mret tt else
  t ← cast tag__ftype f;
  iter_list (fun pos => unlink_parm f pos;;; parameter__delete pos c) (reverse (ft_parms t));;;
  obstack_free c f.

(** The lexical block at an address: a tag or the one inside a function. *)
Definition lexblock_at (b : body) : option lexblock :=
  match b with BLexblock l => Some l | BFunction f => Some (fn_lexblock f) | _ => None end.

Fixpoint tag__delete (n : nat) (p c : loc) : DM unit :=
  match n with
  | O => raise out_of_fuel
  | S n =>
      let lexblock__delete_tags (b : loc) : DM unit :=
        lb ← cast lexblock_at b;
        iter_list (fun pos => unlink_lex b pos;;; tag__delete n pos c) (reverse (lb_tags lb)) in
      t ← load_tag p;
      (match node t with Unlinked => mret tt | _ => raise (exit_with 134) end);;;
      if tag_tag t =? DW_TAG_union_type then type__delete p c else
      if (tag_tag t =? DW_TAG_class_type) || (tag_tag t =? DW_TAG_structure_type)
      then class__delete p c else
      if tag_tag t =? DW_TAG_enumeration_type then enumeration__delete p c else
      if tag_tag t =? DW_TAG_subroutine_type then ftype__delete p c else
      if tag_tag t =? DW_TAG_subprogram then lexblock__delete_tags p;;; ftype__delete p c else
      if tag_tag t =? DW_TAG_lexical_block then lexblock__delete_tags p;;; obstack_free c p else
      obstack_free c p
  end.

Definition lexblock__delete_tags (n : nat) (b c : loc) : DM unit :=
  lb ← cast lexblock_at b;
  iter_list (fun pos => unlink_lex b pos;;; tag__delete n pos c) (reverse (lb_tags lb)).
Definition lexblock__delete (n : nat) (b c : loc) : DM unit :=
  lexblock__delete_tags n b c;;; obstack_free c b.
Definition function__delete (n : nat) (f c : loc) : DM unit :=
  lexblock__delete_tags n f c;;; ftype__delete f c.

Fixpoint namespace__delete (n : nat) (space c : loc) : DM unit :=
  match n with
  | O => raise out_of_fuel
  | S n =>
      l ← type_tags space;
      iter_list (fun pos =>
        unlink_ns space pos;;;
        t ← load_tag pos;
        (if tag__has_namespace t then namespace__delete n pos c else mret tt);;;
        tag__delete n pos c) (reverse l);;;
      tag__delete (S n) space c
  end.

(** ** Clones *)

Definition class_member__clone (from c : loc) : DM loc :=
  o ← load_obj from; obstack_alloc c o.

(** The copied [node] still names the neighbours of the original; it is about
    to be overwritten. *)
Definition forget_node (p : loc) : DM unit :=
  upd_tag p (fun t => mkTag Garbage (tag_type t) (tag_tag t) (top_level t) (priv t)).

Definition type__clone_members (ty from c : loc) : DM Z :=
  l ← type_tags from;
  upd_body ty (set_type (fun t =>
    mkType (mkNs (ns_name (ty_ns t)) (ns_nr_tags (ty_ns t)) (ns_shared_tags (ty_ns t))
              (ns_sname (ty_ns t)) (Tags [])) (ty_size t) 0 0 (ty_declaration t)));;;
  r ← find_list (fun pos =>
    t ← load_tag pos;
    if negb (is_member t) then mret None else
    clone ← class_member__clone pos c;
    if clone =? 0 then mret (Some tt) else
    forget_node clone;;; type__add_member ty clone;;; mret None) l;
  mret (match r with Some _ => -1 | None => 0 end).

Definition class__clone (strdup_ok : string -> bool) (from : loc) (new_class_name : option string)
    (c : loc) : DM loc :=
  o ← load_obj from;
  class ← obstack_alloc c o;
  if class =? 0 then mret 0 else
  forget_node class;;;
  (match new_class_name with
   | None => mret tt
   | Some name =>
       upd_body class (set_ns (fun ns =>
         mkNs 0 (ns_nr_tags ns) (ns_shared_tags ns) (Some name) (ns_tags ns)));;;
       if strdup_ok name then mret tt else undef "free of an object of an obstack"
   end);;;
  rc ← type__clone_members class from c;
  if rc =? 0 then mret class else class__delete class c;;; mret 0.

End Objects.

(** ** Traversals *)

Fixpoint lexblock__account_inline_expansions (n : nat) (block c : loc) : DM unit :=
  match n with
  | O => raise out_of_fuel
  | S n =>
      b ← cast lexblock_at block;
      if lb_nr_inline_expansions b =? 0 then mret tt else
      iter_list (fun pos =>
        t ← load_tag pos;
        if tag_tag t =? DW_TAG_lexical_block then lexblock__account_inline_expansions n pos c else
        if negb (tag_tag t =? DW_TAG_inlined_subroutine) then mret tt else
        ty ← cu__function c (tag_type t);
        if ty =? 0 then mret tt else
        e ← cast tag__inline_expansion pos;
        size ← must "uninitialised size" (ie_size e);
        upd_body ty (fun b =>
          match b with
          | BFunction g => Some (BFunction (mkFun (fn_proto g) (fn_lexblock g) (fn_name g)
              (fn_linkage_name g) (u32 (fn_cu_total_size_inline_expansions g + size))
              (u16 (fn_cu_total_nr_inline_expansions g + 1)) (fn_inlined g) (fn_abstract_origin g)
              (fn_external g) (fn_accessibility g) (fn_virtuality g) (fn_vtable_entry g)))
          | _ => None
          end)) (lb_tags b)
  end.

Definition cu__account_inline_expansions (n : nat) (c : loc) : DM unit :=
  cu ← load_cu c;
  iter_list (fun pos =>
    t ← load_tag pos;
    if negb (tag__is_function t) then mret tt else
    lexblock__account_inline_expansions n pos c;;;
    f ← cast tag__function pos;
    cu ← load_cu c;
    store_cu c (set_cu_inline
      (u64 (cu_nr_inline_expansions cu + lb_nr_inline_expansions (fn_lexblock f)))
      (u64 (cu_size_inline_expansions cu + lb_size_inline_expansions (fn_lexblock f))) cu)) (cu_tags cu).

(** The tags that [list__for_all_tags] visits before [pos], list by list. *)
Definition children (pos : loc) : DM (list (list loc)) :=
  t ← load_tag pos;
  if tag__has_namespace t then
    ns ← cast tag__namespace pos;
    if ns_shared_tags ns then mret [] else l ← own_tags (ns_tags ns); mret [l]
  else if tag__is_function t then
    f ← cast tag__function pos; mret [ft_parms (fn_proto f); lb_tags (fn_lexblock f)]
  else if tag_tag t =? DW_TAG_subroutine_type then
    f ← cast tag__ftype pos; mret [ft_parms f]
  else if tag_tag t =? DW_TAG_lexical_block then
    b ← cast tag__lexblock pos; mret [lb_tags b]
  else mret [].

(** Whether [f] stopped one of the elements. *)
Fixpoint any_list {A} (f : A -> DM bool) (l : list A) : DM bool :=
  match l with
  | [] => mret false
  | a :: l => r ← f a; if (r : bool) then mret true else any_list f l
  end.

(** The safe reverse iteration works on the list as it is at the start. *)
Fixpoint list__for_all_tags (n : nat) (iterator : loc -> DM bool) (l : list loc) : DM bool :=
  match n with
  | O => raise out_of_fuel
  | S n =>
      any_list (fun pos =>
        ls ← children pos;
        stop ← any_list (list__for_all_tags n iterator) ls;
        if (stop : bool) then mret true else iterator pos) (reverse l)
  end.

Definition cu__for_all_tags (n : nat) (c : loc) (iterator : loc -> DM bool) : DM bool :=
  cu ← load_cu c; list__for_all_tags n iterator (cu_tags cu).

(** ** The list of compile units *)

Definition cus__for_each_cu (iterator : loc -> DM bool) (filter : option (loc -> DM loc)) : DM unit :=
  st ← get_st;
  _ ← any_list (fun pos =>
    c ← match filter with None => mret pos | Some f => f pos end;
    if match filter with None => false | Some _ => c =? 0 end then mret false
    else iterator c) (d_list st);
  mret tt.

Section Loading.
Context (ops : debug_fmt_ops).

Definition cu__delete (c : loc) : DM unit :=
  cu ← load_cu c;
  store_cu c (set_table TagsTable (ptr_table__exit (cu_tags_table cu))
    (set_table TypesTable (ptr_table__exit (cu_types_table cu))
    (set_table FunctionsTable (ptr_table__exit (cu_functions_table cu)) cu)));;;
  (match (if cu_dfops cu then ops_cu__delete ops else None) with Some f => f c | None => mret tt end);;;
  obstack_free_all c;;;
  modify (fun st => set_cus (delete c (d_cus st)) st).

Definition cus__delete : DM unit :=
  st ← get_st;
  iter_list (fun pos =>
    modify (fun st => set_list (List.filter (fun q => negb (q =? pos)) (d_list st)) st);;;
    cu__delete pos) (d_list st).

Definition EINVAL : Z := 22.
Definition ENOTSUP : Z := 95.

(** [debug_fmt_table] has one format before its NULL. *)
Definition debug_fmt_table : list debug_fmt_ops := [ops].

Definition debugging_formats__loader (name : string) : Z :=
  (fix go (l : list debug_fmt_ops) (i : Z) : Z :=
    match l with
    | [] => -1
    | o :: l => if String.eqb (ops_name o) name then i else go l (i + 1)
    end) debug_fmt_table 0.

(** [strchr(fp, ',')] and the terminator written there. *)
Fixpoint split_comma (s : string) : string * option string :=
  match s with
  | EmptyString => (EmptyString, None)
  | String ch s =>
      if Ascii.eqb ch ","%char then (EmptyString, Some s)
      else let '(l, r) := split_comma s in (String ch l, r)
  end.

Fixpoint load_formats (n : nat) (fp filename : string) : DM Z :=
  match n with
  | O => raise out_of_fuel
  | S n =>
      let '(name, sep) := split_comma fp in
      let loader := debugging_formats__loader name in
      if loader =? -1 then mret (- ENOTSUP) else
      fmt ← must "format out of range" (debug_fmt_table !! Z.to_nat loader);
      rc ← ops_load_file fmt filename;
      if rc =? 0 then mret 0 else
      match sep with
      | None => mret (- EINVAL)
      | Some fp => load_formats n fp filename
      end
  end.

(** [format_path] of the configuration, and whether [strdup] copies it. *)
Definition cus__load_file (strdup_ok : string -> bool) (format_path : option string)
    (filename : string) : DM Z :=
  match format_path with
  | Some path =>
      if negb (strdup_ok path) then mret (- ENOMEM) else
      load_formats (S (String.length path)) path filename
  | None =>
      r ← any_list (fun fmt => rc ← ops_load_file fmt filename; mret (rc =? 0)) debug_fmt_table;
      mret (if (r : bool) then 0 else - EINVAL)
  end.

Definition cus__load_files (strdup_ok : string -> bool) (format_path : option string)
    (filenames : list string) : DM Z :=
  (fix go (l : list string) (i : Z) : DM Z :=
    match l with
    | [] => mret 0
    | f :: l =>
        rc ← cus__load_file strdup_ok format_path f;
        if negb (rc =? 0) then mret (- i) else go l (i + 1)
    end) filenames 0.

(** [dwarves__fprintf_init] only sets [cacheline_size], which nothing reads. *)
Definition dwarves__exit : DM unit :=
  (fix go (l : list debug_fmt_ops) : DM unit :=
    match l with
    | [] => mret tt
    | o :: l => (match ops_exit o with Some f => f | None => mret tt end);;; go l
    end) debug_fmt_table.

(** The formats initialised so far are in [undo], the last one first. *)
Fixpoint init_formats (l undo : list debug_fmt_ops) : DM Z :=
  match l with
  | [] => mret 0
  | o :: l =>
      rc ← match ops_init o with Some f => f | None => mret 0 end;
      if rc =? 0 then init_formats l (o :: undo) else
      (fix back (u : list debug_fmt_ops) : DM unit :=
        match u with
        | [] => mret tt
        | o :: u => (match ops_exit o with Some f => f | None => mret tt end);;; back u
        end) undo;;;
      mret rc
  end.
Definition dwarves__init : DM Z := init_formats debug_fmt_table [].

End Loading.

(** ** The symbol table of a unit

    The fields [dwfl] and [cached_symtab_nr_entries] of [struct cu], which nothing
    else uses, and libdwfl: the number of symbols of a module, negative for an
    error, and the name and the entry of a symbol. *)
Section Symtab.
Context {GElf_Sym : Type} (dwfl_module_getsymtab : loc -> Z)
  (dwfl_module_getsym : loc -> Z -> option string * GElf_Sym).

Record cu_symtab := mkCuSymtab { cu_dwfl : loc; cached_symtab_nr_entries : Z }.

Definition cu__cache_symtab (self : cu_symtab) : Z * cu_symtab :=
  let err := dwfl_module_getsymtab (cu_dwfl self) in
  (err, if 0 <? err then mkCuSymtab (cu_dwfl self) (u32 (dwfl_module_getsymtab (cu_dwfl self))) else self).

(** The loop calls [body] with the index, the name and [sym] while the index is
    below the number of entries; the next symbol is read before the test. *)
Fixpoint symtab_entries {S} (body : Z -> option string -> GElf_Sym -> S -> S) (self : cu_symtab)
    (fuel : nat) (id : Z) (s : S) : S :=
  if id <? cached_symtab_nr_entries self then
    match fuel with
    | O => s
    | S fuel =>
        let '(name, sym) := dwfl_module_getsym (cu_dwfl self) id in
        symtab_entries body self fuel (u32 (id + 1)) (body id name sym s)
    end
  else s.

Definition cu__for_each_cached_symtab_entry {S} (body : Z -> option string -> GElf_Sym -> S -> S)
    (self : cu_symtab) : S -> S := symtab_entries body self (Z.to_nat (cached_symtab_nr_entries self)) 1.

(** Every symbol but the first is visited, in order. *)
Lemma symtab_entries_visit {S} (body : Z -> option string -> GElf_Sym -> S -> S) self fuel :
  cached_symtab_nr_entries self < 2 ^ 32 -> forall id s,
  1 <= id -> cached_symtab_nr_entries self - id <= Z.of_nat fuel ->
  symtab_entries body self fuel id s =
  fold_left (fun s id => let '(name, sym) := dwfl_module_getsym (cu_dwfl self) id in body id name sym s)
    (seqZ id (cached_symtab_nr_entries self - id)) s.
Proof.
  intros Hn. induction fuel as [|fuel IH]; intros id s Hid Hf; cbn [symtab_entries].
  - destruct (Z.ltb_spec id (cached_symtab_nr_entries self)); [lia|]. by rewrite seqZ_nil by lia.
  - destruct (Z.ltb_spec id (cached_symtab_nr_entries self)); [|by rewrite seqZ_nil by lia].
    rewrite seqZ_cons by lia. cbn [fold_left]. destruct (dwfl_module_getsym _ id) as [name sym].
    rewrite u32_small by lia. rewrite IH by lia. do 2 f_equal; lia.
Qed.

Lemma cached_symtab_visit {S} (body : Z -> option string -> GElf_Sym -> S -> S) self s :
  0 < dwfl_module_getsymtab (cu_dwfl self) < 2 ^ 31 ->
  let '(n, self') := cu__cache_symtab self in
  cu__for_each_cached_symtab_entry body self' s =
  fold_left (fun s id => let '(name, sym) := dwfl_module_getsym (cu_dwfl self) id in body id name sym s)
    (seqZ 1 (n - 1)) s.
Proof.
  intros Hn. unfold cu__cache_symtab. destruct (Z.ltb_spec 0 (dwfl_module_getsymtab (cu_dwfl self))); [|lia].
  unfold cu__for_each_cached_symtab_entry. rewrite symtab_entries_visit; cbn [cached_symtab_nr_entries cu_dwfl].
  - by rewrite u32_small by lia.
  - rewrite u32_small by lia. lia.
  - lia.
  - rewrite u32_small by lia. lia.
Qed.
End Symtab.
