(* ===== verification/DwLayout.v ===== *)
(** * The holes of a structure

    What [class__find_holes] computes for a structure without bit fields whose
    members do not overlap: its holes, its padding and its members account for
    every byte. *)
From S2P Require Import Prelude StdMap DwTypes Dwarves DwClass.
Local Open Scope list_scope.
Local Open Scope Z_scope.

Definition end_of (m : class_member) : Z := cm_byte_offset m + cm_byte_size m.

(** A member that takes part in the layout and is no bit field. *)
Record plain_member (t : tag) (m : class_member) : Prop := {
  pm_kind : is_member t = true;
  pm_virtual : (tag_tag t =? DW_TAG_inheritance) && (cm_virtuality m =? DW_VIRTUALITY_virtual) = false;
  pm_static : cm_is_static m = false;
  pm_bits : cm_bitfield_size m = 0;
  pm_hole : cm_hole m = 0;
  pm_offset : 0 <= cm_byte_offset m;
  pm_size : 0 <= cm_byte_size m
}.

(** The members [ms] lie one after the other, the last one ends at [size] or
    before, and no gap exceeds the 16 bits of [hole] and [padding]. *)
Fixpoint laid_out (ms : list class_member) (size : Z) : Prop :=
  match ms with
  | [] => True
  | [m] => end_of m <= size < 2 ^ 32 /\ size - end_of m < 2 ^ 16
  | m :: ((m' :: _) as r) =>
      end_of m <= cm_byte_offset m' /\ cm_byte_offset m' - end_of m < 2 ^ 16 /\ laid_out r size
  end.

(** The gap after each member but the last. *)
Fixpoint gaps (ms : list class_member) : list Z :=
  match ms with
  | m :: ((m' :: _) as r) => (cm_byte_offset m' - end_of m) :: gaps r
  | _ => []
  end.
Definition nr_gaps (ms : list class_member) : Z :=
  Z.of_nat (List.length (List.filter (fun g => 0 <? g) (gaps ms))).

(** The members with their holes recorded. *)
Fixpoint with_holes (ms : list class_member) : list class_member :=
  match ms with
  | m :: ((m' :: _) as r) => set_hole (cm_byte_offset m' - end_of m) m :: with_holes r
  | _ => ms
  end.

Definition members_at (tags : gmap loc tagobj) (l : list loc) (ms : list class_member) : Prop :=
  Forall2 (fun p m => exists t, tags !! p = Some (mkObj t (BClassMember m)) /\
    is_member t = true) l ms.

Definition plain_at (tags : gmap loc tagobj) (l : list loc) (ms : list class_member) : Prop :=
  Forall2 (fun p m => p <> 0 /\ exists t, tags !! p = Some (mkObj t (BClassMember m)) /\
    plain_member t m) l ms.

Lemma plain_at_frame tags tags' l ms :
  (forall p, p ∈ l -> tags' !! p = tags !! p) -> plain_at tags l ms -> plain_at tags' l ms.
Proof.
  intros Hf H. induction H as [|p m l ms (Hp & t & Ht & Hm) _ IH]; constructor.
  - split; [done|]. exists t. split; [|done]. rewrite Hf; [done|set_solver].
  - apply IH. intros q Hq. apply Hf. set_solver.
Qed.

Lemma set_hole_id m : cm_hole m = 0 -> set_hole 0 m = m.
Proof. destruct m. simpl. by intros ->. Qed.

Lemma u8_add_l a b : u8 (u8 a + b) = u8 (a + b).
Proof. unfold u8, wrap. by rewrite Z.add_mod_idemp_l. Qed.

(** The comparison with the last member: its hole and the count of the class. *)
Lemma holes_last_run st p q tp k tq m m' :
  d_tags st !! p = Some (mkObj tp (BClass k)) -> d_tags st !! q = Some (mkObj tq (BClassMember m)) ->
  p <> q -> q <> 0 -> plain_member tq m ->
  0 <= cm_byte_offset m' - end_of m < 2 ^ 16 ->
  let g := cm_byte_offset m' - end_of m in
  let k' := if 0 <? g then set_nr_holes (u8 (cl_nr_holes k + 1)) (cl_nr_bit_holes k) k else k in
  exists sz, holes_last p m' (mkHs q (cm_byte_size m) 0 0) st =
    inr (mkHs q sz 0 0,
      set_tags (<[p := mkObj tp (BClass k')]>
        (<[q := mkObj tq (BClassMember (set_hole g m))]> (d_tags st))) st).
Proof.
  intros Hp Hq Hpq Hq0 [_ _ _ Hb Hh Ho Hs] Hg g k'. unfold holes_last.
  cbn [hs_last hs_last_size hs_bit_sum hs_bitfield_real_offset].
  rewrite (valid_loc_eqb q Hq0). dstep (cast_run tag__class_member st q _ m Hq eq_refl).
  unfold end_of in *. destruct (Z.ltb_spec 0 (cm_byte_offset m' - cm_byte_offset m)) as [Hc|Hc].
  - destruct (Z.ltb_spec (cm_byte_offset m' - cm_byte_offset m) (cm_byte_size m)); [lia|].
    assert (E : u16 (cm_byte_offset m' - cm_byte_offset m - cm_byte_size m) = g)
      by (subst g; rewrite u16_small by lia; lia).
    rewrite E. dstep (upd_body_run st q _ (set_member (set_hole g)) _ Hq eq_refl).
    cbn [o_tag]. exists (cm_byte_size m). subst k'. destruct (0 <? g).
    + set (st1 := set_tags _ st).
      assert (Hp1 : d_tags st1 !! p = Some (mkObj tp (BClass k)))
        by (subst st1; rewrite set_tags_tags, lookup_insert_ne by congruence; done).
      dstep (upd_body_run st1 p _ (set_class (fun k => set_nr_holes (u8 (cl_nr_holes k + 1))
        (cl_nr_bit_holes k) k)) _ Hp1 eq_refl). reflexivity.
    + rewrite dret. cbn.
      rewrite (insert_id _ p); [done|]. rewrite lookup_insert_ne by congruence. done.
  - assert (g = 0) as E by (subst g; lia). subst k'. rewrite E. cbn [Z.ltb Z.compare].
    assert (cm_byte_size m = 0) as Es by (subst g; lia).
    rewrite Es. destruct (Z.ltb_spec (cm_byte_offset m' - cm_byte_offset m) 0); [lia|].
    simpl andb. cbv iota. exists 0. rewrite set_hole_id by done.
    rewrite (insert_id _ q _ Hq), (insert_id _ p _ Hp). by rewrite set_tags_id.
Qed.

(** The member itself. *)
Lemma holes_pos_run st q sz tq m pos tpos m' :
  d_tags st !! q = Some (mkObj tq (BClassMember m)) -> q <> 0 -> plain_member tpos m' ->
  holes_pos pos m' (mkHs q sz 0 0) st = inr (mkHs pos (cm_byte_size m') 0 0, st).
Proof.
  intros Hq Hq0 [_ _ _ Hb _ _ _]. unfold holes_pos. rewrite Hb.
  cbn [hs_last hs_last_size hs_bit_sum hs_bitfield_real_offset].
  rewrite (valid_loc_eqb q Hq0), dbind_assoc. dstep (cast_run tag__class_member st q _ m Hq eq_refl).
  rewrite dret, orb_true_r, orb_true_l. reflexivity.
Qed.

Lemma holes_step_plain st p pos tpos m s :
  d_tags st !! pos = Some (mkObj tpos (BClassMember m)) -> plain_member tpos m ->
  holes_step p pos s st = (s ← holes_last p m s; holes_pos pos m s) st.
Proof.
  intros Hpos [Hk Hv Hst _ _ _ _]. unfold holes_step. dstep (load_tag_run _ _ _ Hpos).
  cbn [o_tag]. rewrite Hk. cbn [negb]. dstep (cast_run tag__class_member st pos _ m Hpos eq_refl).
  by rewrite Hv, Hst.
Qed.

Lemma holes_step_first st p pos tpos m :
  d_tags st !! pos = Some (mkObj tpos (BClassMember m)) -> plain_member tpos m ->
  holes_step p pos (mkHs 0 0 0 0) st = inr (mkHs pos (cm_byte_size m) 0 0, st).
Proof.
  intros Hpos Hm. rewrite (holes_step_plain _ _ _ _ _ _ Hpos Hm).
  rewrite (dbind _ _ _ (mkHs 0 0 0 0) st eq_refl). unfold holes_pos.
  rewrite (pm_bits _ _ Hm). reflexivity.
Qed.

(** What is recorded in the members [l]; everything else of them is kept. *)
Definition recorded (tags tags' : gmap loc tagobj) (l : list loc) (ms : list class_member) : Prop :=
  Forall2 (fun p m => exists o, tags !! p = Some o /\
    tags' !! p = Some (mkObj (o_tag o) (BClassMember m))) l ms.

Lemma recorded_frame tags1 tags2 tags' l ms :
  (forall r, r ∈ l -> tags1 !! r = tags2 !! r) -> recorded tags1 tags' l ms -> recorded tags2 tags' l ms.
Proof.
  intros Hf H. induction H as [|p m l ms (o & Ho & Ho') _ IH]; constructor.
  - exists o. rewrite <- Hf by set_solver. done.
  - apply IH. intros q Hq. apply Hf. set_solver.
Qed.

Lemma nr_gaps_cons m m' r : nr_gaps (m :: m' :: r) =
  (if 0 <? cm_byte_offset m' - end_of m then 1 else 0) + nr_gaps (m' :: r).
Proof.
  unfold nr_gaps. cbn [gaps List.filter]. destruct (0 <? cm_byte_offset m' - end_of m);
    cbn [List.length]; lia.
Qed.

Lemma set_nr_holes_id k : set_nr_holes (cl_nr_holes k) (cl_nr_bit_holes k) k = k.
Proof. by destruct k. Qed.

Definition count_holes (ms : list class_member) (k : class) : class :=
  set_nr_holes (u8 (cl_nr_holes k + nr_gaps ms)) (cl_nr_bit_holes k) k.

Lemma holes_loop_run p tp size l : forall ms q m st k,
  NoDup (q :: l) -> p ∉ q :: l -> d_tags st !! p = Some (mkObj tp (BClass k)) ->
  u8 (cl_nr_holes k) = cl_nr_holes k -> plain_at (d_tags st) (q :: l) (m :: ms) ->
  laid_out (m :: ms) size ->
  exists tags' lst mlast,
    holes_loop p l (mkHs q (cm_byte_size m) 0 0) st =
      inr (mkHs lst (cm_byte_size mlast) 0 0, set_tags tags' st) /\
    last (q :: l) = Some lst /\ last (m :: ms) = Some mlast /\
    tags' !! p = Some (mkObj tp (BClass (count_holes (m :: ms) k))) /\
    recorded (d_tags st) tags' (q :: l) (with_holes (m :: ms)) /\
    forall r, r <> p -> r ∉ q :: l -> tags' !! r = d_tags st !! r.
Proof.
  induction l as [|q' l IH]; intros ms q m st k Hnd Hp Htp Hk Hpl Hlay.
  - destruct ms as [|m' ms]; [|inversion Hpl as [|? ? ? ? _ H]; inversion H].
    exists (d_tags st), q, m. rewrite set_tags_id. split; [done|]. split; [done|]. split; [done|].
    unfold count_holes, nr_gaps. cbn [gaps List.filter List.length]. rewrite Z.add_0_r, Hk, set_nr_holes_id.
    split; [done|]. split; [|done]. constructor; [|constructor].
    inversion Hpl as [|? ? ? ? (_ & t & Ht & _)]; subst. by eexists.
  - destruct ms as [|m' ms]; [inversion Hpl as [|? ? ? ? _ H]; inversion H|].
    apply Forall2_cons_1 in Hpl as [(Hq0 & tq & Htq & Hm) Hpl].
    pose proof Hpl as Hpl'. apply Forall2_cons_1 in Hpl' as [(Hq0' & tq' & Htq' & Hm') _].
    destruct Hlay as (Hge & Hlt & Hlay).
    apply NoDup_cons in Hnd as [Hq Hnd]. apply not_elem_of_cons in Hp as [Hpq Hp].
    set (g := cm_byte_offset m' - end_of m).
    set (k1 := if 0 <? g then set_nr_holes (u8 (cl_nr_holes k + 1)) (cl_nr_bit_holes k) k else k).
    set (st1 := set_tags (<[p := mkObj tp (BClass k1)]>
      (<[q := mkObj tq (BClassMember (set_hole g m))]> (d_tags st))) st).
    assert (Hfr : forall r, r ∈ q' :: l -> d_tags st1 !! r = d_tags st !! r).
    { intros r Hr. subst st1. cbn [d_tags set_tags]. rewrite !lookup_insert_ne; [done|set_solver|set_solver]. }
    destruct (IH ms q' m' st1 k1) as (tags' & lst & mlast & Hrun & Hl & Hml & Hc & Hrec & Hframe);
      [done|done| | | |done|].
    { subst st1. cbn [d_tags set_tags]. by rewrite lookup_insert_eq. }
    { subst k1. destruct (0 <? g); [|done]. apply (wrap_wrap 8). lia. }
    { eapply plain_at_frame; [|exact Hpl]. exact Hfr. }
    exists tags', lst, mlast. split.
    { cbn [holes_loop]. destruct (holes_last_run st p q tp k tq m m' Htp Htq Hpq Hq0 Hm) as [sz Hstep];
        [lia|]. fold g k1 st1 in Hstep.
      assert (Hs : holes_step p q' (mkHs q (cm_byte_size m) 0 0) st
                   = inr (mkHs q' (cm_byte_size m') 0 0, st1)).
      { rewrite (holes_step_plain _ _ _ _ _ _ Htq' Hm'). rewrite (dbind _ _ _ _ _ Hstep). cbv beta.
        eapply holes_pos_run; [|done|exact Hm']. subst st1. cbn [d_tags set_tags].
        rewrite lookup_insert_ne by congruence. by rewrite lookup_insert_eq. }
      rewrite (dbind _ _ _ _ _ Hs). cbv beta. rewrite Hrun. subst st1. by rewrite set_tags_twice. }
    split; [done|]. split; [done|]. split.
    { rewrite Hc. do 3 f_equal. unfold count_holes. rewrite nr_gaps_cons. fold g. subst k1.
      destruct (0 <? g); cbn [cl_nr_holes cl_nr_bit_holes set_nr_holes].
      - rewrite u8_add_l. unfold set_nr_holes. cbn. do 2 f_equal. lia.
      - by rewrite Z.add_0_l. }
    split.
    { constructor.
      - exists (mkObj tq (BClassMember m)). split; [done|]. rewrite Hframe by congruence.
        subst st1. cbn [d_tags set_tags]. rewrite lookup_insert_ne by congruence.
        by rewrite lookup_insert_eq.
      - eapply recorded_frame; [|exact Hrec]. exact Hfr. }
    intros r Hrp Hr. apply not_elem_of_cons in Hr as [Hrq Hr]. rewrite Hframe by done.
    subst st1. cbn [d_tags set_tags]. by rewrite !lookup_insert_ne by congruence.
Qed.

(** The bytes that the members and the holes after them take. *)
Definition bytes (ms : list class_member) : Z :=
  foldr (fun m n => cm_byte_size m + cm_hole m + n) 0 ms.

Lemma bytes_with_holes ms m mlast :
  Forall (fun m => cm_hole m = 0) (m :: ms) -> last (m :: ms) = Some mlast ->
  cm_byte_offset m + bytes (with_holes (m :: ms)) = end_of mlast.
Proof.
  revert m. induction ms as [|m' ms IH]; intros m Hh Hl; apply Forall_cons in Hh as [Hm Hh].
  - cbn in Hl. injection Hl as <-. unfold end_of. cbn. lia.
  - rewrite last_cons_cons in Hl. specialize (IH m' Hh Hl).
    change (with_holes (m :: m' :: ms))
      with (set_hole (cm_byte_offset m' - end_of m) m :: with_holes (m' :: ms)).
    cbn [bytes foldr]. fold (bytes (with_holes (m' :: ms))).
    cbn [set_hole cm_byte_size cm_hole]. unfold end_of in *. lia.
Qed.

Lemma laid_out_last ms size mlast :
  laid_out ms size -> last ms = Some mlast ->
  end_of mlast <= size < 2 ^ 32 /\ size - end_of mlast < 2 ^ 16.
Proof.
  induction ms as [|m ms IH]; [done|]. destruct ms as [|m' ms].
  - intros H [= <-]. exact H.
  - intros (_ & _ & H) Hl. rewrite last_cons_cons in Hl. by apply IH.
Qed.

Lemma plain_at_last tags l ms lst mlast :
  plain_at tags l ms -> last l = Some lst -> last ms = Some mlast ->
  lst <> 0 /\ lst ∈ l /\ exists t, tags !! lst = Some (mkObj t (BClassMember mlast)) /\ plain_member t mlast.
Proof.
  induction 1 as [|p m l ms Hpm H IH]; [done|]. destruct H as [|p' m' l ms Hpm' H].
  - intros [= <-] [= <-]. destruct Hpm. split; [done|]. split; [set_solver|done].
  - rewrite !last_cons_cons. intros Hl Hm. destruct (IH Hl Hm) as (? & ? & ?).
    split; [done|]. split; [by right|done].
Qed.

Lemma recorded_lookup tags tags' l ms p o :
  recorded tags tags' l ms -> p ∈ l -> tags !! p = Some o ->
  exists m, m ∈ ms /\ tags' !! p = Some (mkObj (o_tag o) (BClassMember m)).
Proof.
  induction 1 as [|q m l ms (o' & Ho' & Ho) H IH]; intros Hp Hpo; [by apply elem_of_nil in Hp|].
  apply elem_of_cons in Hp as [->|Hp].
  - rewrite Ho' in Hpo. injection Hpo as <-. exists m. split; [by left|done].
  - destruct (IH Hp Hpo) as (m0 & ? & ?). exists m0. split; [by right|done].
Qed.

Lemma recorded_last tags tags' l ms lst m :
  recorded tags tags' l ms -> last l = Some lst -> last ms = Some m ->
  exists t, tags' !! lst = Some (mkObj t (BClassMember m)).
Proof.
  induction 1 as [|q m' l ms (o' & Ho' & Ho) H IH]; [done|]. destruct H as [|? ? ? ? ? H].
  - intros [= <-] [= <-]. by eexists.
  - rewrite !last_cons_cons. exact IH.
Qed.

Lemma last_with_holes ms : last (with_holes ms) = last ms.
Proof.
  induction ms as [|m ms IH]; [done|]. destruct ms as [|m' ms]; [done|].
  change (with_holes (m :: m' :: ms))
    with (set_hole (cm_byte_offset m' - end_of m) m :: with_holes (m' :: ms)).
  rewrite last_cons_cons, <- IH. by destruct (with_holes (m' :: ms)) eqn:E; [destruct ms|].
Qed.

(** The end: the padding of the class. *)
Lemma holes_end_run st p tp k lst tl m :
  d_tags st !! p = Some (mkObj tp (BClass k)) -> lst <> 0 ->
  d_tags st !! lst = Some (mkObj tl (BClassMember m)) -> cm_bitfield_size m = 0 ->
  0 <= end_of m <= ty_size (cl_type k) -> ty_size (cl_type k) < 2 ^ 32 ->
  ty_size (cl_type k) - end_of m < 2 ^ 16 -> cl_padding k = 0 ->
  holes_end p (mkHs lst (cm_byte_size m) 0 0) st =
    inr (tt, set_tags (<[p := mkObj tp (BClass
      (set_padding (ty_size (cl_type k) - end_of m) k))]> (d_tags st)) st).
Proof.
  intros Hp Hl0 Hl Hb He Hs Hd Hpad. unfold holes_end. cbn [hs_last hs_last_size hs_bit_sum].
  rewrite (valid_loc_eqb lst Hl0). dstep (cast_run tag__class_member st lst _ m Hl eq_refl).
  dstep (cast_run tag__type st p _ (cl_type k) Hp eq_refl). rewrite Hb.
  fold (end_of m). rewrite u64_small by lia. cbn [negb Z.eqb].
  destruct (Z.eqb_spec (end_of m) (ty_size (cl_type k))) as [He'|He']; cbn [negb].
  - rewrite dret. rewrite He', Z.sub_diag.
    assert (set_padding 0 k = k) as -> by (destruct k; cbn in *; by subst).
    rewrite (insert_id _ p _ Hp), set_tags_id. done.
  - rewrite u16_small by lia. dstep (upd_body_run st p _ (set_class (set_padding (ty_size (cl_type k) - end_of m))) _ Hp eq_refl).
    reflexivity.
Qed.

Lemma recorded_insert tags tags' l ms p o :
  recorded tags tags' l ms -> p ∉ l -> recorded tags (<[p := o]> tags') l ms.
Proof.
  intros H Hp. induction H as [|r m l ms (o' & Ho & Ho') _ IH]; constructor.
  - exists o'. split; [done|]. rewrite lookup_insert_ne by set_solver. done.
  - apply IH. set_solver.
Qed.

Lemma plain_at_holes tags l ms : plain_at tags l ms -> Forall (fun m => cm_hole m = 0) ms.
Proof. induction 1 as [|? ? ? ? (_ & t & _ & [])]; by constructor. Qed.

(** The run, with the objects as it leaves them. *)
Lemma find_holes_run st p tp k q l m0 ms :
  d_tags st !! p = Some (mkObj tp (BClass k)) -> ns_tags (ty_ns (cl_type k)) = Tags (q :: l) ->
  NoDup (q :: l) -> p ∉ q :: l -> plain_at (d_tags st) (q :: l) (m0 :: ms) ->
  laid_out (m0 :: ms) (ty_size (cl_type k)) -> cl_padding k = 0 ->
  exists tags' mlast, last (m0 :: ms) = Some mlast /\
    class__find_holes p st = inr (tt, set_tags (<[p := mkObj tp (BClass
      (set_padding (ty_size (cl_type k) - end_of mlast)
        (count_holes (m0 :: ms) (set_nr_holes 0 0 k))))]> tags') st) /\
    recorded (d_tags st) tags' (q :: l) (with_holes (m0 :: ms)) /\
    forall r, r <> p -> r ∉ q :: l -> tags' !! r = d_tags st !! r.
Proof.
  intros Hp Hl Hnd Hpl Hms Hlay Hpad.
  set (k0 := set_nr_holes 0 0 k).
  set (st0 := set_tags (<[p := mkObj tp (BClass k0)]> (d_tags st)) st).
  assert (Hp0 : d_tags st0 !! p = Some (mkObj tp (BClass k0)))
    by (subst st0; cbn [d_tags set_tags]; by rewrite lookup_insert_eq).
  assert (Hfr : forall r, r ∈ q :: l -> d_tags st0 !! r = d_tags st !! r).
  { intros r Hr. subst st0. cbn [d_tags set_tags]. rewrite lookup_insert_ne; [done|]. congruence. }
  assert (Hms0 : plain_at (d_tags st0) (q :: l) (m0 :: ms)) by (by eapply plain_at_frame).
  pose proof Hms0 as Hq. apply Forall2_cons_1 in Hq as [(Hq0 & tq & Htq & Hm) _].
  destruct (holes_loop_run p tp (ty_size (cl_type k)) l ms q m0 st0 k0 Hnd Hpl Hp0 eq_refl Hms0 Hlay)
    as (tags' & lst & mlast & Hrun & Hlst & Hml & Hc & Hrec & Hframe).
  destruct (plain_at_last _ _ _ _ _ Hms0 Hlst Hml) as (Hl0 & Hlin & t & Hlt & Hmp).
  destruct (laid_out_last _ _ _ Hlay Hml) as [He Hd].
  destruct (recorded_last _ _ _ _ _ _ Hrec Hlst ltac:(by rewrite last_with_holes)) as [tl Htl].
  exists tags', mlast. split; [done|]. split; [|split].
  - unfold class__find_holes. dstep (upd_body_run st p _ (set_class (set_nr_holes 0 0)) _ Hp eq_refl).
    cbn [o_tag]. fold k0. fold st0. unfold type_tags. rewrite dbind_assoc.
    dstep (cast_run tag__namespace st0 p _ _ Hp0 eq_refl).
    change (ty_ns (cl_type k0)) with (ty_ns (cl_type k)). rewrite Hl. cbn [own_tags]. rewrite dret.
    rewrite (dbind _ _ _ (mkHs lst (cm_byte_size mlast) 0 0) (set_tags tags' st0)).
    2: { cbn [holes_loop]. rewrite (dbind _ _ _ _ _ (holes_step_first _ p _ _ _ Htq Hm)). exact Hrun. }
    rewrite (holes_end_run (set_tags tags' st0) p tp (count_holes (m0 :: ms) k0) lst tl mlast);
      [reflexivity|exact Hc|exact Hl0|exact Htl|by destruct Hmp| |cbn; lia|exact Hd|exact Hpad].
    split; [|cbn; lia]. destruct Hmp. unfold end_of. lia.
  - by eapply recorded_frame.
  - intros r Hr Hrl. rewrite Hframe by done. subst st0. cbn [d_tags set_tags].
    by rewrite lookup_insert_ne by congruence.
Qed.

(** (C31) The holes of a structure whose members are no bit fields and do not
    overlap: [class__find_holes] returns, stores in every member the distance to
    the next one, counts the holes, and afterwards the offset of the first
    member, the members, their holes and the padding add up to the size of the
    structure.  No other object changes. *)
Theorem class__find_holes_correct st p tp k l ms m0 :
  d_tags st !! p = Some (mkObj tp (BClass k)) -> ns_tags (ty_ns (cl_type k)) = Tags l ->
  NoDup l -> p ∉ l -> plain_at (d_tags st) l ms -> laid_out ms (ty_size (cl_type k)) ->
  head ms = Some m0 -> cl_padding k = 0 ->
  exists tags' k', class__find_holes p st = inr (tt, set_tags tags' st) /\
    recorded (d_tags st) tags' l (with_holes ms) /\
    tags' !! p = Some (mkObj tp (BClass k')) /\ cl_type k' = cl_type k /\
    cl_nr_holes k' = u8 (nr_gaps ms) /\ cl_nr_bit_holes k' = 0 /\
    cm_byte_offset m0 + bytes (with_holes ms) + cl_padding k' = ty_size (cl_type k) /\
    forall r, r <> p -> r ∉ l -> tags' !! r = d_tags st !! r.
Proof.
  intros Hp Hl Hnd Hpl Hms Hlay Hm0 Hpad.
  destruct ms as [|m ms]; [done|]. injection Hm0 as ->. destruct l as [|q l]; [inversion Hms|].
  destruct (find_holes_run st p tp k q l m0 ms Hp Hl Hnd Hpl Hms Hlay Hpad)
    as (tags' & mlast & Hml & Hrun & Hrec & Hframe).
  eexists _, _. split; [exact Hrun|]. split; [by apply recorded_insert|].
  split; [by rewrite lookup_insert_eq|]. split; [done|]. split; [done|]. split; [done|]. split.
  - rewrite (bytes_with_holes _ _ _ (plain_at_holes _ _ _ Hms) Hml). cbn [set_padding cl_padding]. lia.
  - intros r Hr Hrl. rewrite lookup_insert_ne by congruence. by apply Hframe.
Qed.

(** [struct { int a; char b; long c; char d; }] *)
Definition ex_member (offset size : Z) : class_member :=
  mkMember 0 (8 * offset) (8 * size) offset size 0 0 0 false 0 false 0 0 0.
Definition ex_tag (kind : Z) : tag := mkTag Unlinked 0 kind false 0.
Definition ex_class (l : list loc) (size : Z) : class :=
  mkClass (mkType (mkNs 0 0 false None (Tags l)) size 0 0 0) [] 0 0 0 0 0.
Definition ex_layout : dstate :=
  mkD (<[1 := mkObj (ex_tag DW_TAG_structure_type) (BClass (ex_class [2; 3; 4; 5] 24))]>
      (<[2 := mkObj (ex_tag DW_TAG_member) (BClassMember (ex_member 0 4))]>
      (<[3 := mkObj (ex_tag DW_TAG_member) (BClassMember (ex_member 4 1))]>
      (<[4 := mkObj (ex_tag DW_TAG_member) (BClassMember (ex_member 8 8))]>
      (<[5 := mkObj (ex_tag DW_TAG_member) (BClassMember (ex_member 16 1))]> ∅)))))
    ∅ ∅ ∅ [] (mkRbheap ∅ ∅) strings__new [] [] loader_init no_hash.

Lemma class__find_holes_correct_witness :
  exists tags' k', class__find_holes 1 ex_layout = inr (tt, set_tags tags' ex_layout) /\
    tags' !! 1 = Some (mkObj (ex_tag DW_TAG_structure_type) (BClass k')) /\
    cl_nr_holes k' = 1 /\ 0 + bytes (with_holes [ex_member 0 4; ex_member 4 1; ex_member 8 8; ex_member 16 1])
      + cl_padding k' = 24.
Proof.
  destruct (class__find_holes_correct ex_layout 1 (ex_tag DW_TAG_structure_type)
    (ex_class [2; 3; 4; 5] 24) [2; 3; 4; 5]
    [ex_member 0 4; ex_member 4 1; ex_member 8 8; ex_member 16 1] (ex_member 0 4))
    as (tags' & k' & H1 & _ & H2 & _ & H3 & _ & H4 & _);
    [reflexivity|reflexivity|repeat constructor; set_solver|set_solver| |..|reflexivity|reflexivity|].
  - repeat (constructor; [split; [done|eexists; split; [reflexivity|split; reflexivity || lia || done]]|]).
    constructor.
  - cbn. unfold end_of. cbn. lia.
  - exists tags', k'. split; [exact H1|]. split; [exact H2|]. split; [exact H3|exact H4].
Defined.
