(* ===== verification/DwTables.v ===== *)
(** * The tables of a unit

    [cu__add_tag] gives a tag the next id of the table of its kind, under which
    it is found again, and appends it to the tags of the unit; functions are found
    by the addresses they cover; a walk over all tags is one over a flat list. *)
From S2P Require Import Prelude StdMap RbTree RbTreeRep RbInsert RbRemove DUtil DwTypes Dwarves DwClass DwUnits.
Local Open Scope list_scope.
Local Open Scope Z_scope.

(** A table filled by [ptr_table__add]: the entries are the ids below their number. *)
Record table_wf (pt : ptr_table) : Prop := {
  tw_nr : 0 <= pt_nr_entries pt <= pt_allocated_entries pt;
  tw_small : pt_allocated_entries pt < 2 ^ 32;
  tw_entries : forall id, is_Some (pt_entries pt !! id) <-> 0 <= id < pt_nr_entries pt
}.

(** What [ptr_table__entry] yields for an id. *)
Definition entry_at (pt : ptr_table) (id : Z) : loc :=
  match pt_entries pt !! id with Some p => p | None => 0 end.

Lemma ptr_table__init_wf : table_wf ptr_table__init.
Proof.
  split; cbn; [lia|lia|]. intros id. rewrite lookup_empty. split; [intros [? ?]; done|lia].
Qed.

Lemma ptr_table__entry_run pt id st :
  table_wf pt -> 0 <= id -> ptr_table__entry pt id st = inr (entry_at pt id, st).
Proof.
  intros [Hn Hs He] Hid. unfold ptr_table__entry, entry_at.
  destruct (Z.leb_spec (pt_nr_entries pt) id) as [Hle|Hlt].
  - destruct (pt_entries pt !! id) as [p|] eqn:Ep; [|done]. assert (is_Some (pt_entries pt !! id)) by eauto.
    apply He in H. lia.
  - destruct (proj2 (He id)) as [p Hp]; [lia|]. rewrite Hp. apply pt_cell_run; [lia|done].
Qed.

(** [ptr_table__add], with the failure of [realloc]. *)
Lemma ptr_table__add_spec grow_ok pt p :
  table_wf pt -> pt_nr_entries pt + 256 < 2 ^ 32 ->
  (exists n, grow_ok n = false /\ ptr_table__add grow_ok pt p = (- ENOMEM, pt)) \/
  exists pt', ptr_table__add grow_ok pt p = (pt_nr_entries pt, pt') /\ table_wf pt' /\
    pt_nr_entries pt' = pt_nr_entries pt + 1 /\
    pt_entries pt' = <[pt_nr_entries pt := p]> (pt_entries pt).
Proof.
  intros [Hn Hs He] Hb. unfold ptr_table__add. rewrite (u32_small (pt_nr_entries pt + 1)) by lia.
  assert (Hwf : forall a, pt_nr_entries pt + 1 <= a < 2 ^ 32 ->
    table_wf (mkPt (<[pt_nr_entries pt := p]> (pt_entries pt)) (pt_nr_entries pt + 1) a)).
  { intros a Ha. split; cbn; [lia|lia|]. intros id.
    destruct (Z.eq_dec id (pt_nr_entries pt)) as [->|Hne].
    - rewrite lookup_insert_eq. split; [lia|eauto].
    - rewrite lookup_insert_ne by done. rewrite He. lia. }
  destruct (Z.ltb_spec (pt_allocated_entries pt) (pt_nr_entries pt + 1)).
  - rewrite (u32_small (pt_allocated_entries pt + 256)) by lia.
    destruct (grow_ok _) eqn:Eg; [|left; eauto]. right. eexists. split; [reflexivity|].
    split; [apply Hwf; lia|done].
  - right. eexists. split; [reflexivity|]. split; [apply Hwf; lia|done].
Qed.

(** The table a tag belongs to. *)
Definition table_of (t : tag) : which_table :=
  if tag__is_tag_type t then TypesTable else if tag__is_function t then FunctionsTable else TagsTable.

Lemma cu_table_set w w' pt u : cu_table w (set_table w' pt u) =
  match w, w' with
  | TagsTable, TagsTable | TypesTable, TypesTable | FunctionsTable, FunctionsTable => pt
  | _, _ => cu_table w u
  end.
Proof. by destruct w, w'. Qed.

Lemma cu_tags_set w pt u : cu_tags (set_table w pt u) = cu_tags u.
Proof. by destruct w. Qed.

Lemma cu_table_tags w l u : cu_table w (set_cu_tags l u) = cu_table w u.
Proof. by destruct w. Qed.

(** The addition to a table under a new id. *)
Lemma table_add_run grow_ok w c u p st :
  d_cus st !! c = Some u -> table_wf (cu_table w u) -> pt_nr_entries (cu_table w u) + 256 < 2 ^ 32 ->
  ((exists k, grow_ok k = false) /\ table_add grow_ok w c p (-1) st = inr ((- ENOMEM, - ENOMEM), st)) \/
  exists pt, table_add grow_ok w c p (-1) st =
      inr ((0, pt_nr_entries (cu_table w u)), set_cus (<[c := set_table w pt u]> (d_cus st)) st) /\
    table_wf pt /\ pt_nr_entries pt = pt_nr_entries (cu_table w u) + 1 /\
    pt_entries pt = <[pt_nr_entries (cu_table w u) := p]> (pt_entries (cu_table w u)).
Proof.
  intros Hu Hwf Hb. unfold table_add. cbn [Z.ltb Z.compare].
  rewrite (dbind _ _ _ _ _ (load_cu_run _ _ _ Hu)). cbv beta.
  destruct (ptr_table__add_spec grow_ok _ p Hwf Hb) as [(k & Hf & E)|(pt & E & Hwf' & Hn & He)]; rewrite E.
  - left. split; [eauto|]. cbn. unfold store_cu, modify, mbind, M_bind.
    assert (set_table w (cu_table w u) u = u) as -> by (by destruct w, u).
    rewrite insert_id by done. by destruct st.
  - right. exists pt. split; [|done]. pose proof (tw_nr _ Hwf) as H0.
    destruct (Z.ltb_spec (pt_nr_entries (cu_table w u)) 0); [lia|]. reflexivity.
Qed.

(** Where [cu__table_add_tag] puts the tag, once a function is in the tree. *)
Lemma table_add_tag_cases grow_ok n c p o st :
  d_tags st !! p = Some o ->
  cu__table_add_tag grow_ok n c p (-1) st =
  ((match table_of (o_tag o) with FunctionsTable => cu__insert_function n c p | _ => mret tt end);;;
   table_add grow_ok (table_of (o_tag o)) c p (-1)) st.
Proof.
  intros Ho. unfold cu__table_add_tag. dstep (load_tag_run _ _ _ Ho). unfold table_of.
  destruct (tag__is_tag_type (o_tag o)), (tag__is_function (o_tag o)); done.
Qed.

Lemma cu__entry_run w c u id st :
  c <> 0 -> d_cus st !! c = Some u -> table_wf (cu_table w u) -> 0 <= id ->
  cu__entry w c id st = inr (entry_at (cu_table w u) id, st).
Proof.
  intros Hc Hu Hwf Hid. unfold cu__entry. rewrite (valid_loc_eqb c Hc).
  dstep (load_cu_run _ _ _ Hu). by apply ptr_table__entry_run.
Qed.

Lemma link_node_run st p o :
  d_tags st !! p = Some o -> node (o_tag o) <> Linked ->
  link_node p st = inr (tt, set_tags (<[p := mkObj (mkTag Linked (tag_type (o_tag o)) (tag_tag (o_tag o))
    (top_level (o_tag o)) (priv (o_tag o))) (o_body o)]> (d_tags st)) st).
Proof.
  intros Ho Hn. unfold link_node. dstep (load_tag_run _ _ _ Ho).
  destruct (node (o_tag o)) eqn:E; try done; by rewrite (upd_tag_run _ _ _ _ Ho).
Qed.

(** A table entry after a new entry. *)
Lemma entry_at_insert pt pt' nr p id :
  pt_entries pt' = <[nr := p]> (pt_entries pt) ->
  entry_at pt' id = if decide (id = nr) then p else entry_at pt id.
Proof.
  intros E. unfold entry_at. rewrite E. case_decide as Hd.
  - subst. by rewrite lookup_insert_eq.
  - by rewrite lookup_insert_ne.
Qed.

(** An id handed out by another numbering is lost: [ptr_table__add_with_id]
    counts entries, [ptr_table__entry] takes the count for the highest id. *)
Lemma ptr_table_add_with_id_lost st :
  exists pt, ptr_table__add_with_id (fun _ => true) ptr_table__init 16 5 = (0, pt) /\
    ptr_table__entry pt 5 st = inr (0, st).
Proof. eexists. split; reflexivity. Qed.

(** ** The functions of a unit by address

    [cu__insert_function] keeps the functions of a compile unit in a red-black
    tree ordered by their address, so that [cu__find_function_at_addr] finds the
    function an address belongs to. *)
Definition fstart (st : dstate) (p : loc) : Z := from_option function__addr 0 (fn_at st p).
Definition fend (st : dstate) (p : loc) : Z :=
  fstart st p + from_option function__size 0 (fn_at st p).
Definition fcovers (st : dstate) (p : loc) (addr : Z) : Prop := fstart st p <= addr < fend st p.

(** A function with code: a range of addresses that is not empty. *)
Definition fn_ok (st : dstate) (p : loc) : Prop :=
  is_Some (fn_at st p) /\ 0 <= fstart st p < fend st p /\ fend st p < 2 ^ 64.

(** [f] ends before [g] starts. *)
Definition fbefore (st : dstate) (f g : loc) : Prop := fend st f <= fstart st g.
Definition fdisjoint (st : dstate) (f g : loc) : Prop := fbefore st f g \/ fbefore st g f.

Definition index_fuel (k : nat) : nat := 2 * Nat.log2 (S k).

(** The tree of the unit [c] has the functions [fs], in the order of their code. *)
Record indexed (rs : gmap loc loc) (F : list cell) (c : loc) (fs : list loc) (st : dstate) : Prop := {
  ix_tree : exists t m, tree_at rs c t F (d_rb st) /\ rb true m t /\ inorder t = fs;
  ix_ok : Forall (fn_ok st) fs;
  ix_sorted : StronglySorted (fbefore st) fs
}.

Lemma on_rb_run {A} (k : RM A) st a h : k (d_rb st) = inr (a, h) -> on_rb k st = inr (a, set_drb h st).
Proof. unfold on_rb. by intros ->. Qed.

Lemma set_drb_id st : set_drb (d_rb st) st = st.
Proof. by destruct st. Qed.

(** Directions that follow the order of the code. *)
Lemma monotone_fbefore st fs dir :
  Forall (fn_ok st) fs -> StronglySorted (fbefore st) fs ->
  (forall p q, p ∈ fs -> q ∈ fs -> fbefore st p q -> dir p = Gt -> dir q = Gt) ->
  (forall p q, p ∈ fs -> q ∈ fs -> fbefore st q p -> dir p = Lt -> dir q = Lt) ->
  monotone dir fs.
Proof.
  intros Hok Hs Hgt Hlt xs p ys ->. apply sorted_mid in Hs as [H1 H2]. rewrite Forall_forall in H1, H2.
  split; intros Hp; apply Forall_forall; intros q Hq.
  - apply (Hgt p q); [set_solver|set_solver|by apply H2|done].
  - apply (Hlt p q); [set_solver|set_solver|by apply H1|done].
Qed.

Section Index.
Context (rs : gmap loc loc) (F : list cell) (c : loc).

Lemma fuel_tree t fs : inorder t = fs -> index_fuel (List.length fs) = rb_fuel t.
Proof. intros <-. done. Qed.

Lemma is_Some_fn st p : fn_ok st p ->
  exists o f, d_tags st !! p = Some o /\ tag__function (o_body o) = Some f /\ fstart st p = function__addr f.
Proof.
  intros ([f Hf] & _). unfold fstart. rewrite Hf. unfold fn_at in Hf.
  destruct (d_tags st !! p) as [o|] eqn:Ho; [|done]. simpl in Hf. by exists o, f.
Qed.

Lemma insert_dir_fn st addr p : is_Some (fn_at st p) ->
  insert_dir st addr p = Some (if addr <? fstart st p then Gt else Lt).
Proof. intros [f Hf]. unfold insert_dir, fstart. by rewrite Hf. Qed.

Lemma addr_dir_fn st addr p : fn_ok st p ->
  addr_dir st addr p =
    Some (if addr <? fstart st p then Gt else if fend st p <=? addr then Lt else Eq).
Proof.
  intros ([f Hf] & H1 & H2). unfold addr_dir, fend, fstart in *. rewrite Hf in *. simpl in *.
  by rewrite u64_small by lia.
Qed.

(** The search for an address. *)
Lemma find_at_run st fs addr n :
  c <> 0 -> indexed rs F c fs st -> (index_fuel (List.length fs) <= n)%nat ->
  exists p, cu__find_function_at_addr n c addr st = inr (p, st) /\
    ((p ∈ fs /\ fcovers st p addr) \/ (p = 0 /\ forall q, q ∈ fs -> ~ fcovers st q addr)).
Proof.
  intros Hc [(t & m & Ht & Hrb & Hin) Hok Hs] Hn. rewrite (fuel_tree t fs Hin) in Hn.
  pose proof Hok as Hok'. rewrite Forall_forall in Hok'.
  set (dir := fun p => if addr <? fstart st p then Gt else if fend st p <=? addr then Lt else Eq).
  destruct (wp_search_root rs c (addr_dir st addr) dir n t F m (d_rb st) Ht Hrb Hn) as (r & Hr & Hres).
  { intros p Hp. apply addr_dir_fn, Hok'. by rewrite <- Hin. }
  { rewrite Hin. apply (monotone_fbefore st); [done|done| |]; intros p q Hp Hq Hpq; unfold dir;
      destruct (Hok' p Hp) as (_ & ? & _), (Hok' q Hq) as (_ & ? & _); unfold fbefore in Hpq;
      destruct (Z.ltb_spec addr (fstart st p)), (Z.ltb_spec addr (fstart st q)),
        (Z.leb_spec (fend st p) addr), (Z.leb_spec (fend st q) addr); done || lia. }
  unfold cu__find_function_at_addr. rewrite (valid_loc_eqb c Hc).
  rewrite (dbind get_st _ st st st eq_refl). cbv beta. dstep (on_rb_run _ _ _ _ Hr).
  rewrite set_drb_id. eexists. split; [reflexivity|]. destruct r as [[sl parent]|p].
  - right. split; [done|]. destruct Hres as (k & _ & _ & -> & Hb & Ha). intros q Hq Hcov.
    rewrite inorder_plug in Hin. simpl in Hin. rewrite <- Hin in Hq.
    apply elem_of_app in Hq as [Hq|Hq]; rewrite Forall_forall in Hb, Ha;
      [specialize (Hb q Hq)|specialize (Ha q Hq)]; unfold fcovers in Hcov;
      subst dir; simpl in *;
      destruct (Z.ltb_spec addr (fstart st q)), (Z.leb_spec (fend st q) addr); done || lia.
  - left. destruct Hres as [Hp Hd]. rewrite Hin in Hp. split; [done|]. unfold fcovers. subst dir.
    simpl in Hd. destruct (Z.ltb_spec addr (fstart st p)), (Z.leb_spec (fend st p) addr); done || lia.
Qed.


(** A change of the trees only. *)
Lemma fn_ok_drb st h p : fn_ok st p -> fn_ok (set_drb h st) p.
Proof. done. Qed.

(** Inserting one function: the cell [nx] of its node was outside the tree. *)
Lemma insert_function_run st fs p nx n :
  indexed rs ((p, nx) :: F) c fs st -> fn_ok st p -> Forall (fdisjoint st p) fs ->
  (index_fuel (List.length fs) <= n)%nat ->
  exists h xs ys, cu__insert_function n c p st = inr (tt, set_drb h st) /\ fs = xs ++ ys /\
    indexed rs F c (xs ++ p :: ys) (set_drb h st).
Proof.
  intros [(t & m & Ht & Hrb & Hin) Hok Hs] Hp Hdis Hn. rewrite (fuel_tree t fs Hin) in Hn.
  pose proof Hok as Hok'. rewrite Forall_forall in Hok'. rewrite Forall_forall in Hdis.
  set (dir := fun q => if fstart st p <? fstart st q then Gt else Lt).
  destruct (wp_search_root rs c (insert_dir st (fstart st p)) dir n t _ m (d_rb st) Ht Hrb Hn)
    as (r & Hr & Hres).
  { intros q Hq. apply insert_dir_fn. rewrite Hin in Hq. by apply Hok'. }
  { rewrite Hin. apply (monotone_fbefore st); [done|done| |]; intros f g Hf Hg Hfg; unfold dir;
      destruct (Hok' f Hf) as (_ & ? & _), (Hok' g Hg) as (_ & ? & _); unfold fbefore in Hfg;
      destruct (Z.ltb_spec (fstart st p) (fstart st f)), (Z.ltb_spec (fstart st p) (fstart st g));
      done || lia. }
  destruct r as [[sl parent]|q].
  2: { destruct Hres as [_ Hd]. unfold dir in Hd. by destruct (_ <? _). }
  destruct Hres as (k & -> & -> & -> & Hb & Ha). rewrite inorder_plug in Hin. simpl in Hin.
  destruct (wp_elim _ _ _ (wp_rb_insert rs c p nx k F m n _ Ht Hrb Hn))
    as ([] & h & Hi & t' & Ht' & Hin' & m' & Hrb').
  destruct (is_Some_fn _ _ Hp) as (o & f & Ho & Hf & Hst).
  exists h, (before k), (after k). split; [|split; [done|]].
  - unfold cu__insert_function. dstep (cast_run tag__function st p o f Ho Hf). rewrite <- Hst.
    rewrite (dbind get_st _ st st st eq_refl). cbv beta. dstep (on_rb_run _ _ _ _ Hr).
    rewrite set_drb_id. unfold rb_insert, mbind, M_bind in Hi.
    destruct (rb_link_node p (cpar k) (slot_of c k) (d_rb st)) as [|[[] h1]] eqn:El; [done|].
    dstep (on_rb_run _ _ _ _ El). unfold on_rb. cbn [d_rb set_drb]. by rewrite Hi.
  - rewrite <- Hin in Hok', Hdis, Hs, Hok. split.
    + exists t', m'. done.
    + apply Forall_app. apply Forall_app in Hok as [? ?]. split; [done|]. by constructor.
    + apply (sorted_insert (fbefore st)); [done| |].
      * apply Forall_forall. intros q Hq.
        rewrite Forall_forall in Hb. specialize (Hb q Hq). unfold dir in Hb.
        destruct (Hok' q ltac:(set_solver)) as (_ & ? & _). destruct Hp as (_ & ? & _).
        destruct (Hdis q ltac:(set_solver)); unfold fbefore in *;
          destruct (Z.ltb_spec (fstart st p) (fstart st q)); done || lia.
      * apply Forall_forall. intros q Hq. rewrite Forall_forall in Ha. specialize (Ha q Hq).
        unfold dir in Ha. destruct (Hok' q ltac:(set_solver)) as (_ & ? & _). destruct Hp as (_ & ? & _).
        destruct (Hdis q ltac:(set_solver)); unfold fbefore in *;
          destruct (Z.ltb_spec (fstart st p) (fstart st q)); done || lia.
Qed.

End Index.

Lemma index_fuel_mono a b : (a <= b)%nat -> (index_fuel a <= index_fuel b)%nat.
Proof.
  intros H. unfold index_fuel. pose proof (Nat.log2_le_mono (S a) (S b) ltac:(lia)). lia.
Qed.

Lemma indexed_nil rs c F st :
  tree_at rs c E F (d_rb st) -> indexed rs F c [] st.
Proof.
  intros Ht. split; [|constructor|constructor]. exists E, 0%nat. split; [done|]. split; [constructor|done].
Qed.

(** Inserting one function after the other. *)
Lemma insert_functions_run rs c n cs : forall F fs st,
  indexed rs (cs ++ F) c fs st -> Forall (fn_ok st) cs.*1 ->
  Forall (fun p => Forall (fdisjoint st p) fs) cs.*1 -> StronglySorted (fun p q => fdisjoint st q p) cs.*1 ->
  (index_fuel (List.length fs + List.length cs) <= n)%nat ->
  exists h fs', iter_list (cu__insert_function n c) cs.*1 st = inr (tt, set_drb h st) /\
    fs' ≡ₚ cs.*1 ++ fs /\ indexed rs F c fs' (set_drb h st).
Proof.
  induction cs as [|[p nx] cs IH]; intros F fs st Hix Hok Hdis Hpair Hn.
  - exists (d_rb st), fs. cbn. rewrite set_drb_id. done.
  - cbn [List.length fmap list_fmap fst app] in *.
    apply Forall_cons in Hok as [Hp Hok]. apply Forall_cons in Hdis as [Hdp Hdis].
    apply StronglySorted_inv in Hpair as [Hpair Hpp].
    destruct (insert_function_run rs (cs ++ F) c st fs p nx n Hix Hp Hdp) as (h & xs & ys & Hrun & -> & Hix').
    { etransitivity; [|exact Hn]. apply index_fuel_mono. lia. }
    destruct (IH F (xs ++ p :: ys) (set_drb h st) Hix') as (h' & fs' & Hrun' & Hperm & Hix2).
    + exact Hok.
    + rewrite Forall_forall in Hdis, Hpp |- *. intros q Hq. specialize (Hdis q Hq).
      rewrite Forall_app in Hdis. apply Forall_app. destruct Hdis. split; [done|].
      constructor; [by apply Hpp|done].
    + exact Hpair.
    + etransitivity; [|exact Hn]. apply index_fuel_mono. rewrite !length_app. cbn. lia.
    + exists h', fs'. split; [|split; [|exact Hix2]].
      * cbn [iter_list]. rewrite (dbind _ _ _ _ _ Hrun). exact Hrun'.
      * rewrite Hperm. solve_Permutation.
Qed.

(** (C32) The functions of a compile unit by address: starting from an empty
    tree, functions with disjoint, non-empty code ranges can be inserted in any
    order; afterwards [cu__find_function_at_addr] returns, for every address,
    the function it belongs to, or NULL when it belongs to none. *)
Theorem function_index_correct rs F c cs st n addr :
  c <> 0 -> tree_at rs c E (cs ++ F) (d_rb st) ->
  Forall (fn_ok st) cs.*1 -> StronglySorted (fun p q => fdisjoint st q p) cs.*1 ->
  (index_fuel (List.length cs) <= n)%nat ->
  exists h p, iter_list (cu__insert_function n c) cs.*1 st = inr (tt, set_drb h st) /\
    cu__find_function_at_addr n c addr (set_drb h st) = inr (p, set_drb h st) /\
    ((p ∈ cs.*1 /\ fcovers st p addr) \/ (p = 0 /\ forall q, q ∈ cs.*1 -> ~ fcovers st q addr)).
Proof.
  intros Hc Ht Hok Hpair Hn.
  destruct (insert_functions_run rs c n cs F [] st) as (h & fs & Hrun & Hperm & Hix);
    [by apply indexed_nil|done|by apply Forall_forall; constructor|done|done|].
  rewrite app_nil_r in Hperm.
  destruct (find_at_run rs F c (set_drb h st) fs addr n Hc Hix) as (p & Hfind & Hp).
  { rewrite Hperm, length_fmap. exact Hn. }
  exists h, p. split; [done|]. split; [done|]. destruct Hp as [[Hin Hcov]|[-> Hno]].
  - left. split; [|exact Hcov]. by rewrite <- Hperm.
  - right. split; [done|]. intros q Hq. apply (Hno q). by rewrite Hperm.
Qed.

Definition ex_fn (addr size : Z) : function :=
  mkFun (mkFtype [] 0 false) (mkLex addr [] size 0 0 0 0 0) 0 0 0 0 0 false true 0 0 (-1).
Definition ex_fn_obj (addr size : Z) : tagobj :=
  mkObj (mkTag Unlinked 0 DW_TAG_subprogram true 0) (BFunction (ex_fn addr size)).
Definition ex_fn_cells : list cell := [(16, mkNode 0 0 0); (32, mkNode 0 0 0); (48, mkNode 0 0 0)].
(** [0x1000, 0x1080), [0x0f00, 0x0f20) and [0x1080, 0x1090) *)
Definition ex_fn_state : dstate :=
  mkD (<[16 := ex_fn_obj 4096 128]> (<[32 := ex_fn_obj 3840 32]> (<[48 := ex_fn_obj 4224 16]> ∅)))
    ∅ ∅ ∅ [] (heap_of 8 E ex_fn_cells) strings__new [] [] loader_init no_hash.

Lemma function_index_correct_witness :
  exists h, iter_list (cu__insert_function 4 8) [16; 32; 48] ex_fn_state = inr (tt, set_drb h ex_fn_state) /\
    cu__find_function_at_addr 4 8 4230 (set_drb h ex_fn_state) = inr (48, set_drb h ex_fn_state).
Proof.
  destruct (function_index_correct ∅ [] 8 ex_fn_cells ex_fn_state 4 4230)
    as (h & p & Hrun & Hfind & Hp); [done| | | |cbn; lia|].
  - apply heap_of_tree_at; [repeat constructor; set_solver|].
    repeat constructor; done || lia.
  - repeat (constructor; [split; [eexists; vm_compute; reflexivity|vm_compute; intuition congruence]|]). constructor.
  - repeat constructor; unfold fdisjoint, fbefore; vm_compute; intuition congruence.
  - exists h. split; [exact Hrun|]. rewrite Hfind. do 2 f_equal. destruct Hp as [[Hp Hcov]|[_ Hno]].
    + change (ex_fn_cells.*1) with [16; 32; 48] in Hp. unfold fcovers in Hcov.
      apply elem_of_cons in Hp as [->|Hp]; [vm_compute in Hcov; intuition congruence|].
      apply elem_of_cons in Hp as [->|Hp]; [vm_compute in Hcov; intuition congruence|].
      by apply list_elem_of_singleton in Hp as ->.
    + exfalso. apply (Hno 48); [set_solver|]. unfold fcovers. vm_compute. intuition congruence.
Defined.

(** ** Registering a tag *)

(** What happens to the tree: a function is put among those of the unit. *)
Definition in_tree (rs : gmap loc loc) (F : list cell) (c p : loc) (o : tagobj) (fs : list loc) (st st0 : dstate) : Prop :=
  match table_of (o_tag o) with
  | FunctionsTable => exists h xs ys, st0 = set_drb h st /\ fs = xs ++ ys /\ indexed rs F c (xs ++ p :: ys) st0
  | _ => st0 = st
  end.

(** (C33) Registering a tag under a new id.  A function whose code is not empty and
    overlaps with no function of the unit enters the tree of the functions at its
    place; the tree is not touched for any other tag.  Then [cu__add_tag] either
    reports that memory is exhausted - the tables and the tags of the unit are as
    before, but the function stays in the tree - or it returns the number of entries
    of the table of the tag's kind as its id, appends the tag to the unit and makes
    it the answer of the lookups of that id; every other id of every table keeps
    its answer. *)
Theorem cu__add_tag_correct rs F nx fs grow_ok n c u p o st :
  c <> 0 -> d_cus st !! c = Some u -> d_tags st !! p = Some o ->
  (table_of (o_tag o) = FunctionsTable ->
     indexed rs ((p, nx) :: F) c fs st /\ fn_ok st p /\ Forall (fdisjoint st p) fs /\
     (index_fuel (List.length fs) <= n)%nat) ->
  node (o_tag o) <> Linked -> (forall w, table_wf (cu_table w u)) ->
  pt_nr_entries (cu_table (table_of (o_tag o)) u) + 256 < 2 ^ 32 ->
  exists st0, in_tree rs F c p o fs st st0 /\
  (((exists k, grow_ok k = false) /\ cu__add_tag grow_ok n c p (-1) st = inr ((- ENOMEM, - ENOMEM), st0)) \/
   exists id st' u', cu__add_tag grow_ok n c p (-1) st = inr ((0, id), st') /\ d_rb st' = d_rb st0 /\
    id = pt_nr_entries (cu_table (table_of (o_tag o)) u) /\
    d_cus st' !! c = Some u' /\ cu_tags u' = cu_tags u ++ [p] /\ (forall w, table_wf (cu_table w u')) /\
    forall w i, 0 <= i -> cu__entry w c i st' =
      inr (if decide (w = table_of (o_tag o) /\ i = id) then p else entry_at (cu_table w u) i, st')).
Proof.
  intros Hc Hu Ho Hfn Hnode Hwf Hb. set (w0 := table_of (o_tag o)) in *.
  assert (Htree : exists st0, in_tree rs F c p o fs st st0 /\ d_cus st0 = d_cus st /\ d_tags st0 = d_tags st /\
    (match w0 with FunctionsTable => cu__insert_function n c p | _ => mret tt end) st = inr (tt, st0)).
  { unfold in_tree. fold w0. destruct (table_of (o_tag o)) eqn:E; subst w0; [by exists st|by exists st|].
    destruct (Hfn eq_refl) as (Hix & Hp & Hdis & Hn).
    destruct (insert_function_run rs F c st fs p nx n Hix Hp Hdis Hn) as (h & xs & ys & Hrun & Hfs & Hix').
    exists (set_drb h st). split; [by exists h, xs, ys|done]. }
  destruct Htree as (st0 & Hin & Ecus & Etags & Hrun0). exists st0. split; [done|].
  assert (Hadd : cu__table_add_tag grow_ok n c p (-1) st = table_add grow_ok w0 c p (-1) st0).
  { rewrite (table_add_tag_cases grow_ok n c p o st Ho). fold w0. by rewrite (dbind _ _ _ _ _ Hrun0). }
  rewrite <-Ecus in Hu. rewrite <-Etags in Ho.
  destruct (table_add_run grow_ok w0 c u p st0 Hu (Hwf _) Hb) as [[Hf Hrun]|(pt & Hrun & Hpt & Hn & He)];
    rewrite <-Hadd in Hrun.
  { left. split; [done|]. unfold cu__add_tag. by rewrite (dbind _ _ _ _ _ Hrun). }
  right. set (id := pt_nr_entries (cu_table w0 u)) in *.
  set (u' := set_cu_tags (cu_tags u ++ [p]) (set_table w0 pt u)).
  assert (Htab : forall w, table_wf (cu_table w u')).
  { intros w. unfold u'. rewrite cu_table_tags, cu_table_set. by destruct w, w0. }
  set (st1 := set_cus (<[c := set_table w0 pt u]> (d_cus st0)) st0).
  set (st2 := set_tags (<[p := mkObj (mkTag Linked (tag_type (o_tag o)) (tag_tag (o_tag o))
    (top_level (o_tag o)) (priv (o_tag o))) (o_body o)]> (d_tags st1)) st1).
  set (st' := set_cus (<[c := u']> (d_cus st2)) st2).
  assert (Hu' : d_cus st' !! c = Some u') by (cbn; apply lookup_insert_eq).
  exists id, st', u'. split; [|split; [done|split; [done|split; [done|split; [by destruct w0|split; [exact Htab|]]]]]].
  - unfold cu__add_tag. rewrite (dbind _ _ _ _ _ Hrun). cbn [fst Z.eqb].
    rewrite (dbind _ _ _ _ _ (link_node_run st1 p o Ho Hnode)). cbv beta.
    assert (Hu2 : d_cus st2 !! c = Some (set_table w0 pt u)) by (cbn; by rewrite lookup_insert_eq).
    fold st2. rewrite (dbind _ _ _ _ _ (load_cu_run _ _ _ Hu2)). rewrite cu_tags_set. reflexivity.
  - intros w i Hi. rewrite (cu__entry_run w c u' i) by done.
    f_equal. f_equal. unfold u'. rewrite cu_table_tags, cu_table_set.
    pose proof (entry_at_insert _ _ _ _ i He) as Hi'.
    destruct w, w0; try rewrite Hi'; repeat case_decide; intuition congruence.
Qed.

Definition ex_tag_obj : tagobj := mkObj (mkTag Unlinked 0 DW_TAG_base_type true 0)
  (BBaseType (mkBase 7 32 true true false false 0)).
Definition ex_unit : cu :=
  mkCu [] (mkPt {[ 0 := 0 ]} 1 256) ptr_table__init ptr_table__init "a.c" "vmlinux" 0 [] false 8
    false true 12 0 0 [].
Definition ex_unit_state : dstate :=
  mkD {[ 16 := ex_tag_obj ]} ∅ ∅ {[ 8 := ex_unit ]} [8] (mkRbheap ∅ ∅) strings__new [] [] loader_init no_hash.

Lemma ex_types_wf : table_wf (mkPt {[ 0 := 0 ]} 1 256).
Proof.
  split; cbn; [lia|lia|]. intros id. destruct (Z.eq_dec id 0) as [->|H].
  - rewrite lookup_singleton_eq. split; [lia|eauto].
  - rewrite lookup_singleton_ne by done. split; [intros [? ?]; done|lia].
Qed.

(** The unit with one function, before another one is added while memory is short. *)
Definition ex_add_fn_state : dstate :=
  mkD (<[16 := ex_fn_obj 4096 128]> {[ 32 := ex_fn_obj 3840 32 ]})
    ∅ ∅ {[ 8 := ex_unit ]} [8] (heap_of 8 (T true E 32 E) [(16, mkNode 0 0 0)]) strings__new [] [] loader_init no_hash.

Lemma ex_add_fn_indexed : indexed ∅ [(16, mkNode 0 0 0)] 8 [32] ex_add_fn_state.
Proof.
  split.
  - exists (T true E 32 E), 1%nat. split; [|split; [apply (rb_B 0 true true); constructor|done]].
    apply heap_of_tree_at; apply (bool_decide_unpack _); vm_compute; exact I.
  - repeat constructor; vm_compute; by (eexists || intuition congruence).
  - repeat constructor.
Qed.

Lemma cu__add_tag_correct_witness :
  (exists st', cu__add_tag (fun _ => true) 0 8 16 (-1) ex_unit_state = inr ((0, 1), st') /\
    cu__entry TypesTable 8 1 st' = inr (16, st')) /\
  exists st', cu__add_tag (fun _ => false) 4 8 16 (-1) ex_add_fn_state = inr ((- ENOMEM, - ENOMEM), st') /\
    indexed ∅ [] 8 [32; 16] st'.
Proof.
  assert (Hwf : forall w, table_wf (cu_table w ex_unit)).
  { intros []; [apply ptr_table__init_wf|apply ex_types_wf|apply ptr_table__init_wf]. }
  split.
  - destruct (cu__add_tag_correct ∅ [] (mkNode 0 0 0) [] (fun _ => true) 0 8 ex_unit 16 ex_tag_obj ex_unit_state)
      as (st0 & _ & [[[k Hk] _]|(id & st' & u' & Hrun & _ & -> & _ & _ & _ & He)]);
      [done|reflexivity|reflexivity|discriminate|done|exact Hwf|done|done|].
    exists st'. split; [exact Hrun|]. rewrite (He TypesTable 1) by lia. reflexivity.
  - destruct (cu__add_tag_correct ∅ [] (mkNode 0 0 0) [32] (fun _ => false) 4 8 ex_unit 16 (ex_fn_obj 4096 128)
      ex_add_fn_state) as (st0 & Htree & Hres).
    + done.
    + reflexivity.
    + reflexivity.
    + intros _. split; [exact ex_add_fn_indexed|]. split; [|split; [|vm_compute; lia]].
      * split; [by eexists|]. vm_compute. intuition congruence.
      * constructor; [right; vm_compute; congruence|constructor].
    + done.
    + exact Hwf.
    + done.
    + destruct Hres as [[_ Hrun]|(id & st' & u' & Hrun & _)]; [|exfalso; vm_compute in Hrun; discriminate Hrun].
      exists st0. split; [exact Hrun|]. destruct Htree as (h & xs & ys & -> & Hfs & Hix).
      destruct xs as [|x xs]; [exfalso|destruct xs; [|done]]; cbn [app] in *.
      * subst ys. pose proof (ix_sorted _ _ _ _ _ Hix) as Hs. inversion_clear Hs as [|? ? _ Hall].
        inversion_clear Hall as [|? ? Hb _]. vm_compute in Hb. by apply Hb.
      * injection Hfs as <- <-. exact Hix.
Defined.

(** ** Walking all tags

    [list__for_all_tags] recurses into the lists of namespaces, functions,
    subroutine types and lexical blocks.  Calling it is calling the iterator on
    one flat list, the tags in post-order. *)
(** The lists of tags below an object, in the order of the walk: those of a
    namespace that does not share them, the parameters and the block of a
    function, the parameters of a subroutine type, the tags of a block.  [None]
    when the object has not the structure of its kind. *)
Definition lists_of (o : tagobj) : option (list (list loc)) :=
  let t := o_tag o in
  if tag__has_namespace t then
    n ← tag__namespace (o_body o);
    match ns_tags n with
    | Tags l => Some (if ns_shared_tags n then [] else [l])
    | SharedTags _ => if ns_shared_tags n then Some [] else None
    end
  else if tag_tag t =? DW_TAG_subprogram then
    f ← tag__function (o_body o); Some [ft_parms (fn_proto f); lb_tags (fn_lexblock f)]
  else if tag_tag t =? DW_TAG_subroutine_type then
    f ← tag__ftype (o_body o); Some [ft_parms f]
  else if tag_tag t =? DW_TAG_lexical_block then
    b ← tag__lexblock (o_body o); Some [lb_tags b]
  else Some [].
Definition children_of (st : dstate) (p : loc) : option (list (list loc)) :=
  o ← d_tags st !! p; lists_of o.

(** The tags of a list and below it, each list from its end, every tag after the
    tags below it; [None] when a tag cannot be read or [n] levels do not suffice. *)
Fixpoint post_order (n : nat) (ch : loc -> option (list (list loc))) (l : list loc) : option (list loc) :=
  match n with
  | O => None
  | S n =>
      parts ← mapM (fun p => ls ← ch p; below ← mapM (post_order n ch) ls; Some (concat below ++ [p])) (reverse l);
      Some (concat parts)
  end.

(** The iterator leaves the lists of tags alone. *)
Definition keeps_lists (f : loc -> DM bool) : Prop :=
  forall p st b st', f p st = inr (b, st') -> forall q, children_of st' q = children_of st q.

Lemma children_run p st ls : children_of st p = Some ls -> children p st = inr (ls, st).
Proof.
  unfold children_of, lists_of, children. destruct (d_tags st !! p) as [o|] eqn:Ho; [|done]. cbn [mbind option_bind].
  dstep (load_tag_run _ _ _ Ho). unfold tag__is_function.
  destruct (tag__has_namespace (o_tag o)).
  { destruct (tag__namespace (o_body o)) as [n|] eqn:En; [|done]. cbn [mbind option_bind].
    dstep (cast_run _ _ _ _ _ Ho En). destruct (ns_tags n), (ns_shared_tags n); by intros [= <-]. }
  destruct (tag_tag (o_tag o) =? DW_TAG_subprogram).
  { destruct (tag__function (o_body o)) as [f|] eqn:Ef; [|done]. cbn [mbind option_bind].
    dstep (cast_run _ _ _ _ _ Ho Ef). by intros [= <-]. }
  destruct (tag_tag (o_tag o) =? DW_TAG_subroutine_type).
  { destruct (tag__ftype (o_body o)) as [f|] eqn:Ef; [|done]. cbn [mbind option_bind].
    dstep (cast_run _ _ _ _ _ Ho Ef). by intros [= <-]. }
  destruct (tag_tag (o_tag o) =? DW_TAG_lexical_block); [|by intros [= <-]].
  destruct (tag__lexblock (o_body o)) as [f|] eqn:Ef; [|done]. cbn [mbind option_bind].
  dstep (cast_run _ _ _ _ _ Ho Ef). by intros [= <-].
Qed.

Lemma any_list_cons {A} (f : A -> DM bool) a l st :
  any_list f (a :: l) st = (r ← f a; if (r : bool) then mret true else any_list f l) st.
Proof. done. Qed.

Lemma any_list_app {A} (f : A -> DM bool) l1 l2 st :
  any_list f (l1 ++ l2) st = (r ← any_list f l1; if (r : bool) then mret true else any_list f l2) st.
Proof.
  revert st. induction l1 as [|a l1 IH]; intros st; [done|]. cbn [app any_list]. rewrite dbind_assoc.
  unfold mbind, M_bind. destruct (f a st) as [|[[] s]]; [done|done|]. apply IH.
Qed.

Lemma any_list_keeps f l st b st' :
  keeps_lists f -> any_list f l st = inr (b, st') -> forall q, children_of st' q = children_of st q.
Proof.
  intros Hf. revert st. induction l as [|p l IH]; intros st Hrun q; [by injection Hrun as _ <-|].
  cbn [any_list] in Hrun. unfold mbind, M_bind in Hrun.
  destruct (f p st) as [|[[] s]] eqn:E; [done| |].
  - injection Hrun as _ <-. by eapply Hf.
  - rewrite (IH _ Hrun q). by eapply Hf.
Qed.

(** Iterating over the concatenation of what the parts iterate over. *)
Lemma any_list_concat {A} (g : A -> DM bool) (f : loc -> DM bool) (inv : dstate -> Prop) as_ parts st :
  (forall st' b l, inv st' -> forall st'', any_list f l st' = inr (b, st'') -> inv st'') ->
  inv st -> Forall2 (fun a l => forall st', inv st' -> g a st' = any_list f l st') as_ parts ->
  any_list g as_ st = any_list f (concat parts) st.
Proof.
  intros Hinv Hst H. revert st Hst. induction H as [|a l as_ parts Ha _ IH]; intros st Hst; [done|].
  cbn [concat any_list]. rewrite any_list_app. unfold mbind, M_bind. rewrite (Ha st Hst).
  destruct (any_list f l st) as [|[[] s]] eqn:E; [done|done|]. apply IH. by eapply Hinv.
Qed.

Lemma for_all_tags_flat f ch n l order st :
  keeps_lists f -> (forall p, children_of st p = ch p) -> post_order n ch l = Some order ->
  list__for_all_tags n f l st = any_list f order st.
Proof.
  intros Hf. revert l order st. induction n as [|n IH]; intros l order st Hch Ho; [done|].
  cbn [post_order] in Ho. cbn [list__for_all_tags].
  destruct (mapM _ (reverse l)) as [parts|] eqn:Em; [|done]. injection Ho as <-.
  apply (any_list_concat _ f (fun s => forall p, children_of s p = ch p)); [|done|].
  - intros s b l' Hs s' Hrun p. by rewrite (any_list_keeps _ _ _ _ _ Hf Hrun).
  - apply mapM_Some in Em. eapply Forall2_impl; [exact Em|]. intros p part Hp s Hs.
    cbn beta in Hp. destruct (ch p) as [ls|] eqn:Ec; [|done]. cbn in Hp.
    destruct (mapM (post_order n ch) ls) as [below|] eqn:Eb; [|done]. injection Hp as <-.
    rewrite (dbind _ _ _ _ _ (children_run p s ls ltac:(by rewrite Hs))).
    rewrite any_list_app. unfold mbind, M_bind.
    rewrite (any_list_concat _ f (fun s => forall p, children_of s p = ch p) ls below);
      [|intros s1 b l' Hs1 s2 Hrun q; by rewrite (any_list_keeps _ _ _ _ _ Hf Hrun)|done|].
    + destruct (any_list f (concat below) s) as [|[[] s1]]; [done|done|].
      cbn [any_list]. unfold mbind, M_bind. destruct (f p s1) as [|[[] s2]]; done.
    + apply mapM_Some in Eb. eapply Forall2_impl; [exact Eb|]. intros l' part' Hl s1 Hs1. by apply IH.
Qed.

(** (C35) Walking all tags of a unit: for an iterator that leaves the lists of
    tags alone, [cu__for_all_tags] is the iteration over one list, the
    post-order of the tags of the unit, stopped by the first tag for which the
    iterator says so; the depth of the nesting is enough fuel. *)
Theorem cu__for_all_tags_flat f n c u order st :
  keeps_lists f -> d_cus st !! c = Some u ->
  post_order n (children_of st) (cu_tags u) = Some order ->
  cu__for_all_tags n c f st = any_list f order st.
Proof.
  intros Hf Hu Ho. unfold cu__for_all_tags. rewrite (dbind _ _ _ _ _ (load_cu_run _ _ _ Hu)).
  by apply (for_all_tags_flat f (children_of st)).
Qed.

(** [struct s { int a, b; }; typedef struct s t;] *)
Definition ex_walk_tag (kind : Z) : tag := mkTag Linked 0 kind false 0.
Definition ex_walk_type (l : list loc) : type := mkType (mkNs 0 2 false None (Tags l)) 8 0 2 0.
Definition ex_walk_member : body :=
  BClassMember (mkMember 0 0 32 0 4 0 0 0 false 0 false 0 0 0).
Definition ex_walk_unit : cu :=
  mkCu [16; 48] ptr_table__init ptr_table__init ptr_table__init "a.c" "vmlinux" 0 [] false 8
    false true 12 0 0 [].
Definition ex_walk_state : dstate :=
  mkD (<[16 := mkObj (ex_walk_tag DW_TAG_structure_type) (BClass (mkClass (ex_walk_type [32; 40]) [] 0 0 0 0 0))]>
      (<[32 := mkObj (ex_walk_tag DW_TAG_member) ex_walk_member]>
      (<[40 := mkObj (ex_walk_tag DW_TAG_member) ex_walk_member]>
      (<[48 := mkObj (ex_walk_tag DW_TAG_typedef) (BType (ex_walk_type []))]> ∅))))
    ∅ ∅ {[ 8 := ex_walk_unit ]} [8] (mkRbheap ∅ ∅) strings__new [] [] loader_init no_hash.

Lemma cu__for_all_tags_flat_witness :
  cu__for_all_tags 3 8 (fun p => mret (p =? 40)) ex_walk_state =
    any_list (fun p => mret (p =? 40)) [48; 40; 32; 16] ex_walk_state.
Proof.
  apply (cu__for_all_tags_flat (fun p => mret (p =? 40)) 3 8 ex_walk_unit [48; 40; 32; 16]);
    [by intros p st b st' [= _ <-]|reflexivity|vm_compute; reflexivity].
Defined.
