(* ===== verification/DwSize.v ===== *)
(** * Sizes of types

    [tag__size] follows the types of a unit; on a graph without cycles it
    returns, and its result is the size the graph determines. *)
From S2P Require Import Prelude StdMap DwTypes Dwarves DwClass DwTables.
Local Open Scope list_scope.
Local Open Scope Z_scope.

(** The product of the dimensions of an array. *)
Definition array_elems (a : array_type) : Z := u64 (foldr Z.mul 1 (at_nr_entries a)).

(** The object has the fields that its tag promises. *)
Definition obj_ok (o : tagobj) : Prop :=
  let t := o_tag o in
  0 <= tag_type t < 2 ^ 16 /\
  if tag_tag t =? DW_TAG_member then is_Some (tag__class_member (o_body o))
  else if tag_tag t =? DW_TAG_base_type then is_Some (tag__base_type (o_body o))
  else if tag_tag t =? DW_TAG_enumeration_type then is_Some (tag__type (o_body o))
  else if tag_tag t =? DW_TAG_array_type then tag_type t <> 0 /\ exists a,
    tag__array_type (o_body o) = Some a /\ at_dimensions a = Z.of_nat (List.length (at_nr_entries a))
  else True.

(** The size an object carries itself, following no type. *)
Definition own_size (u : cu) (o : tagobj) : option Z :=
  let t := o_tag o in
  let by_type :=
    if tag_type t =? 0 then
      ty ← tag__type (o_body o);
      Some (if (ty_size ty =? 1) && (ty_nr_members ty =? 0) then 0 else ty_size ty)
    else None in
  if tag_tag t =? DW_TAG_member then
    m ← tag__class_member (o_body o);
    if cm_is_static m then Some 0 else if cm_byte_size m =? 0 then by_type else Some (cm_byte_size m)
  else if (tag_tag t =? DW_TAG_pointer_type) || (tag_tag t =? DW_TAG_reference_type)
  then Some (cu_addr_size u)
  else if tag_tag t =? DW_TAG_base_type then bt ← tag__base_type (o_body o); Some (base_type__size bt)
  else if tag_tag t =? DW_TAG_enumeration_type then ty ← tag__type (o_body o); Some (ty_size ty / 8)
  else by_type.

(** The tag that the type of an object leads to. *)
Definition type_of (u : cu) (o : tagobj) : loc := entry_at (cu_types_table u) (tag_type (o_tag o)).

(** The size of [p] is determined to be [s]. *)
Inductive sized (st : dstate) (u : cu) : loc -> Z -> Prop :=
  | sized_own p o s : d_tags st !! p = Some o -> own_size u o = Some s -> sized st u p s
  | sized_type p o q o' s :
      d_tags st !! p = Some o -> own_size u o = None -> tag_tag (o_tag o) <> DW_TAG_array_type ->
      type_of u o = q -> d_tags st !! q = Some o' -> has_type_loop (o_tag o) (o_tag o') = false ->
      sized st u q s -> sized st u p s
  | sized_array p o q o' a s :
      d_tags st !! p = Some o -> own_size u o = None -> tag_tag (o_tag o) = DW_TAG_array_type ->
      tag__array_type (o_body o) = Some a ->
      type_of u o = q -> d_tags st !! q = Some o' -> has_type_loop (o_tag o) (o_tag o') = false ->
      sized st u q s -> sized st u p (u64 (s * array_elems a)).

(** The types of [p] end in an id without a tag, or in what is taken for a loop. *)
Inductive dangling (st : dstate) (u : cu) : loc -> Prop :=
  | dangling_none p o : d_tags st !! p = Some o -> own_size u o = None -> type_of u o = 0 ->
      dangling st u p
  | dangling_loop p o o' : d_tags st !! p = Some o -> own_size u o = None ->
      d_tags st !! type_of u o = Some o' -> has_type_loop (o_tag o) (o_tag o') = true -> dangling st u p
  | dangling_type p o : d_tags st !! p = Some o -> own_size u o = None ->
      dangling st u (type_of u o) -> dangling st u p.

(** A unit whose types can be followed: objects have the fields of their tags,
    a tag without type has a size, and [rank] decreases along types. *)
Record graph_ok (st : dstate) (c : loc) (u : cu) (rank : loc -> nat) : Prop := {
  go_cu : c <> 0 /\ d_cus st !! c = Some u;
  go_table : table_wf (cu_types_table u);
  go_null : d_tags st !! 0 = None;
  go_obj : forall p o, d_tags st !! p = Some o -> obj_ok o;
  go_void : forall p o, d_tags st !! p = Some o -> tag_type (o_tag o) = 0 -> is_Some (own_size u o);
  go_type : forall p o, d_tags st !! p = Some o -> own_size u o = None -> type_of u o <> 0 ->
    is_Some (d_tags st !! type_of u o) /\ (rank (type_of u o) < rank p)%nat
}.

(** The loop over the dimensions. *)
Lemma array_nr_entries_run a st :
  at_dimensions a = Z.of_nat (List.length (at_nr_entries a)) ->
  array_type__nr_entries a st = inr (array_elems a, st).
Proof.
  intros Hd. unfold array_type__nr_entries, array_elems. rewrite Hd, Nat2Z.id.
  cut (forall l i nr, u64 nr = nr -> drop i (at_nr_entries a) = l ->
         nr_entries_loop a i (List.length l) nr st = inr (u64 (nr * foldr Z.mul 1 l), st)).
  { intros H. rewrite (H (at_nr_entries a) 0%nat 1 eq_refl eq_refl). by rewrite Z.mul_1_l. }
  induction l as [|x l IH]; intros i nr Hnr Hl.
  - cbn. by rewrite Z.mul_1_r, Hnr.
  - assert (Hi : at_nr_entries a !! i = Some x).
    { rewrite <- (Nat.add_0_r i), <- lookup_drop, Hl. done. }
    cbn [List.length foldr nr_entries_loop]. rewrite Hi. cbn [must]. rewrite dret. rewrite IH.
    + f_equal. f_equal. unfold u64, wrap. rewrite Z.mul_mod_idemp_l by lia. f_equal. lia.
    + unfold u64, wrap. rewrite Z.mod_mod by lia. done.
    + rewrite <- (Nat.add_1_r i), <- drop_drop, Hl. done.
Qed.

(** Whether the size is that of the type whose id is 0. *)
Definition void_size (o : tagobj) : option Z :=
  if tag_type (o_tag o) =? 0 then
    ty ← tag__type (o_body o);
    Some (if (ty_size ty =? 1) && (ty_nr_members ty =? 0) then 0 else ty_size ty)
  else None.

(** The [switch] finds the size, or leaves it to the type. *)
Lemma cached_size_run st c u p o :
  d_cus st !! c = Some u -> d_tags st !! p = Some o -> obj_ok o ->
  exists r, cached_size p c (o_tag o) st = inr (r, st) /\
    own_size u o = match r with Some s => Some s | None => void_size o end.
Proof.
  intros Hu Ho [_ Hok]. unfold cached_size, own_size, void_size in *.
  destruct (tag_tag (o_tag o) =? DW_TAG_member).
  { destruct Hok as [m Hm]. rewrite (dbind _ _ _ _ _ (cast_run _ _ _ _ _ Ho Hm)). rewrite Hm. cbn [mbind option_bind].
    destruct (cm_is_static m); [by eexists|]. destruct (cm_byte_size m =? 0); by eexists. }
  destruct ((tag_tag (o_tag o) =? DW_TAG_pointer_type) || (tag_tag (o_tag o) =? DW_TAG_reference_type)).
  { rewrite (dbind _ _ _ _ _ (load_cu_run _ _ _ Hu)). by eexists. }
  destruct (tag_tag (o_tag o) =? DW_TAG_base_type).
  { destruct Hok as [m Hm]. rewrite (dbind _ _ _ _ _ (cast_run _ _ _ _ _ Ho Hm)). rewrite Hm. by eexists. }
  destruct (tag_tag (o_tag o) =? DW_TAG_enumeration_type).
  { destruct Hok as [m Hm]. rewrite (dbind _ _ _ _ _ (cast_run _ _ _ _ _ Ho Hm)). rewrite Hm. by eexists. }
  by eexists.
Qed.

Lemma has_type_loop_run st p q o o' :
  q <> 0 -> d_tags st !! p = Some o -> d_tags st !! q = Some o' ->
  tag__has_type_loop p q st =
    if has_type_loop (o_tag o) (o_tag o')
    then inr (true, set_err (d_err st ++ [type_loop (tag_type (o_tag o)) (tag_tag (o_tag o))]) st)
    else inr (false, st).
Proof.
  intros Hq Ho Ho'. unfold tag__has_type_loop. rewrite (valid_loc_eqb q Hq).
  dstep (load_tag_run _ _ _ Ho). dstep (load_tag_run _ _ _ Ho'). by destruct (has_type_loop _ _).
Qed.

Definition size_outcome (st : dstate) (u : cu) (p : loc) (r : exn + Z * dstate) : Prop :=
  exists s st', r = inr (s, st') /\
    ((sized st u p s /\ st' = st) \/
     (dangling st u p /\ exists d, st' = set_err (d_err st ++ [d]) st)).

Lemma array_obj o : obj_ok o -> tag_tag (o_tag o) = DW_TAG_array_type ->
  exists a, tag__array_type (o_body o) = Some a /\
    at_dimensions a = Z.of_nat (List.length (at_nr_entries a)).
Proof. intros [_ H] E. rewrite E in H. apply H. Qed.

Section Size.
Context (st : dstate) (c : loc) (u : cu) (rank : loc -> nat) (Hg : graph_ok st c u rank).

Lemma type_run p o : d_tags st !! p = Some o ->
  cu__type c (tag_type (o_tag o)) st = inr (type_of u o, st).
Proof.
  intros Ho. destruct (go_cu _ _ _ _ Hg) as [Hc Hu]. destruct (go_obj _ _ _ _ Hg p o Ho) as [Ht _].
  unfold cu__type. rewrite (u16_small _ Ht). apply (cu__entry_run TypesTable); [done|done| |lia].
  exact (go_table _ _ _ _ Hg).
Qed.

(** The array case multiplies what its element type yields. *)
Lemma tag__size_run n p o :
  (rank p < n)%nat -> d_tags st !! p = Some o -> size_outcome st u p (tag__size n p c st).
Proof.
  revert p o. induction n as [|n IH]; [lia|]. intros p o Hn Ho.
  destruct (go_cu _ _ _ _ Hg) as [Hc Hu]. pose proof (go_obj _ _ _ _ Hg p o Ho) as Hok.
  cbn [tag__size]. rewrite (dbind _ _ _ _ _ (load_tag_run _ _ _ Ho)).
  destruct (cached_size_run st c u p o Hu Ho Hok) as (r & Hr & Hown).
  rewrite (dbind _ _ _ _ _ Hr). destruct r as [s|].
  { exists s, st. split; [done|]. left. split; [by eapply sized_own|done]. }
  unfold void_size in Hown. destruct (Z.eqb_spec (tag_type (o_tag o)) 0) as [E0|E0].
  { destruct (go_void _ _ _ _ Hg p o Ho E0) as [s Hs]. rewrite Hs in Hown.
    destruct (tag__type (o_body o)) as [ty|] eqn:Ety; [|done].
    rewrite dbind_assoc. rewrite (dbind _ _ _ _ _ (cast_run _ _ _ _ _ Ho Ety)). rewrite dret.
    injection Hown as Hs'. rewrite <- Hs'. destruct (Z.eqb_spec (tag_tag (o_tag o)) DW_TAG_array_type) as [Ea|_].
    { destruct Hok as [_ Hok]. rewrite Ea in Hok. by destruct Hok as [? _]. }
    exists s, st. split; [done|]. left. split; [by eapply sized_own|done]. }
  rewrite dbind_assoc. rewrite (dbind _ _ _ _ _ (type_run p o Ho)).
  destruct (Z.eqb_spec (type_of u o) 0) as [Eq|Eq].
  { rewrite dbind_assoc. unfold tag__id_not_found, err. rewrite (dbind (modify _) _ _ tt _ eq_refl). rewrite dret.
    eexists _, _. split; [reflexivity|]. right. split; [by eapply dangling_none|by eexists]. }
  destruct (go_type _ _ _ _ Hg p o Ho Hown Eq) as [[o' Ho'] Hrk].
  rewrite dbind_assoc. destruct (has_type_loop (o_tag o) (o_tag o')) eqn:El.
  { rewrite (dbind _ _ _ _ _ ltac:(rewrite (has_type_loop_run st p _ o o' Eq Ho Ho'), El; reflexivity)).
    rewrite dret. eexists _, _. split; [reflexivity|]. right.
    split; [by eapply dangling_loop|by eexists]. }
  rewrite (dbind _ _ _ _ _ ltac:(rewrite (has_type_loop_run st p _ o o' Eq Ho Ho'), El; reflexivity)).
  destruct (IH (type_of u o) o' ltac:(lia) Ho') as (s & st' & Hrun & Hres).
  rewrite (dbind _ _ _ _ _ (dfmap _ _ _ _ _ Hrun)).
  destruct (Z.eqb_spec (tag_tag (o_tag o)) DW_TAG_array_type) as [Ea|Ea].
  - destruct (array_obj o Hok Ea) as (a & Ha & Hd).
    assert (Ho1 : d_tags st' !! p = Some o) by (destruct Hres as [[_ ->]|[_ [d ->]]]; exact Ho).
    rewrite (dbind _ _ _ _ _ (cast_run _ _ _ _ _ Ho1 Ha)).
    rewrite (dbind _ _ _ _ _ (array_nr_entries_run a st' Hd)).
    eexists _, _. split; [reflexivity|]. destruct Hres as [[Hs ->]|[Hd' Hd'']]; [left|right].
    + split; [|done]. by eapply sized_array.
    + split; [by eapply dangling_type|done].
  - eexists _, _. split; [reflexivity|]. destruct Hres as [[Hs ->]|[Hd' Hd'']]; [left|right].
    + split; [|done]. by eapply sized_type.
    + split; [by eapply dangling_type|done].
Qed.

End Size.

Lemma sized_fun st u p s : sized st u p s -> forall s', sized st u p s' -> s' = s.
Proof.
  induction 1 as [p o s Ho Hs|p o q o' s Ho Hn Ha Hq Ho' Hl _ IH|p o q o' a s Ho Hn Ha Haa Hq Ho' Hl _ IH];
    intros s' Hs'; inversion Hs'; simplify_eq; try congruence.
  - by apply IH.
  - f_equal. f_equal. by apply IH.
Qed.

(** (C34) Sizes of types: when following types does not run in a circle,
    [tag__size] returns after at most as many steps as the chain of types is
    long, with the one size that base types, pointers, enumerations, structures,
    array dimensions (modulo 2^64) and references determine, and it changes
    nothing; only on a chain that ends in a missing type it reports that. *)
Theorem tag__size_correct st c u rank n p o :
  graph_ok st c u rank -> d_tags st !! p = Some o -> (rank p < n)%nat ->
  exists s st', tag__size n p c st = inr (s, st') /\
    ((sized st u p s /\ (forall s', sized st u p s' -> s' = s) /\ st' = st) \/
     (dangling st u p /\ exists d, st' = set_err (d_err st ++ [d]) st)).
Proof.
  intros Hg Ho Hn. destruct (tag__size_run st c u rank Hg n p o Hn Ho) as (s & st' & Hrun & [[Hs ->]|Hd]).
  - exists s, st. split; [done|]. left. split; [done|]. split; [|done]. by apply sized_fun.
  - exists s, st'. split; [done|]. by right.
Qed.

(** [typedef int quad[4];] in a unit with the ids 1 to 3. *)
Definition ex_size_unit : cu :=
  mkCu [] (mkPt (<[3 := 48]> (<[2 := 32]> (<[1 := 16]> {[ 0 := 0 ]}))) 4 256) ptr_table__init
    ptr_table__init "a.c" "vmlinux" 0 [] false 8 false true 12 0 0 [].
Definition ex_size_tag (ty kind : Z) : tag := mkTag Linked ty kind true 0.
Definition ex_size_int : tagobj :=
  mkObj (ex_size_tag 0 DW_TAG_base_type) (BBaseType (mkBase 7 32 true true false false 0)).
Definition ex_size_array : tagobj :=
  mkObj (ex_size_tag 1 DW_TAG_array_type) (BArrayType (mkArray [4] 1 false)).
Definition ex_size_typedef : tagobj :=
  mkObj (ex_size_tag 2 DW_TAG_typedef) (BType (mkType (mkNs 9 0 false None (Tags [])) 0 0 0 0)).
Definition ex_size_state : dstate :=
  mkD (<[48 := ex_size_typedef]> (<[32 := ex_size_array]> {[ 16 := ex_size_int ]})) ∅ ∅
    {[ 8 := ex_size_unit ]} [8] (mkRbheap ∅ ∅) strings__new [] [] loader_init no_hash.

Lemma ex_size_objs (P : loc -> tagobj -> Prop) :
  P 16 ex_size_int -> P 32 ex_size_array -> P 48 ex_size_typedef ->
  forall p o, d_tags ex_size_state !! p = Some o -> P p o.
Proof.
  intros H1 H2 H3 p o Ho. cbn [d_tags ex_size_state] in Ho.
  apply lookup_insert_Some in Ho as [[<- <-]|[_ Ho]]; [done|].
  apply lookup_insert_Some in Ho as [[<- <-]|[_ Ho]]; [done|].
  by apply lookup_singleton_Some in Ho as [<- <-].
Qed.

Lemma ex_size_table : table_wf (cu_types_table ex_size_unit).
Proof.
  split; cbn; [lia|lia|]. intros id.
  rewrite !lookup_insert_is_Some, lookup_singleton_is_Some. lia.
Qed.

Lemma ex_size_graph : graph_ok ex_size_state 8 ex_size_unit (fun p => Z.to_nat (p / 16)).
Proof.
  split; [by split|exact ex_size_table|reflexivity|..].
  - apply (ex_size_objs (fun _ o => obj_ok o)); (split; [cbn; lia|]); [by eexists| |done].
    split; [done|by eexists].
  - apply (ex_size_objs (fun _ o => tag_type (o_tag o) = 0 -> is_Some (own_size ex_size_unit o)));
      done.
  - apply (ex_size_objs (fun p o => own_size ex_size_unit o = None -> type_of ex_size_unit o <> 0 ->
      is_Some (d_tags ex_size_state !! type_of ex_size_unit o) /\
      (Z.to_nat (type_of ex_size_unit o / 16) < Z.to_nat (p / 16))%nat)); [done| |];
      intros _ _; (split; [by eexists|vm_compute; lia]).
Qed.

Lemma tag__size_correct_witness :
  tag__size 4 48 8 ex_size_state = inr (16, ex_size_state) /\ sized ex_size_state ex_size_unit 48 16.
Proof.
  destruct (tag__size_correct ex_size_state 8 ex_size_unit (fun p => Z.to_nat (p / 16)) 4 48 ex_size_typedef
    ex_size_graph eq_refl ltac:(vm_compute; lia)) as (s & st' & Hrun & [(Hs & _ & ->)|[_ [d ->]]]);
    vm_compute in Hrun; injection Hrun as <-.
  - split; [reflexivity|exact Hs].
  - discriminate.
Defined.
