(* ===== verification/DwHash.v ===== *)
(** * The table of debugging entries: hash.h and the head of dwarf_loader.c

    While a compile unit is loaded, every object has a [dwarf_tag] that keeps
    the offset of its debugging entry and the offsets the entry refers to.  A
    [dwarf_cu] finds the [dwarf_tag] of an offset in two hash tables, one for
    types and one for everything else, with a multiplicative hash.  Its chains are
    those of list.h: every [dwarf_tag] is a node itself. *)
From S2P Require Import Prelude StdMap RbTree GoBuffer DUtil DwTypes Dwarves.
From S2P Require HList.
Local Open Scope list_scope.
Local Open Scope Z_scope.

(** ** hash.h *)

Definition GOLDEN_RATIO_PRIME_32 : Z := 0x9e370001.
Definition GOLDEN_RATIO_PRIME_64 : Z := 0x9e37fffffffc0001.

Definition hash_64 (val bits : Z) : Z :=
  let hash := val in
  let n := hash in
  let n := u64 (Z.shiftl n 18) in
  let hash := u64 (hash - n) in
  let n := u64 (Z.shiftl n 33) in
  let hash := u64 (hash - n) in
  let n := u64 (Z.shiftl n 3) in
  let hash := u64 (hash + n) in
  let n := u64 (Z.shiftl n 3) in
  let hash := u64 (hash - n) in
  let n := u64 (Z.shiftl n 4) in
  let hash := u64 (hash + n) in
  let n := u64 (Z.shiftl n 2) in
  let hash := u64 (hash + n) in
  Z.shiftr hash (64 - bits).

(** The product is one of [unsigned long]s. *)
Definition hash_32 (val bits : Z) : Z :=
  let hash := u32 (u64 (val * GOLDEN_RATIO_PRIME_32)) in
  Z.shiftr hash (32 - bits).

Definition hash_long (val bits : Z) : Z := hash_64 val bits.
Definition hash_ptr (ptr : loc) (bits : Z) : Z := hash_long ptr bits.

(** ** The hash tables of a [dwarf_cu] *)

Definition HASHTAGS__BITS : Z := 8.
Definition HASHTAGS__SIZE : Z := Z.shiftl 1 HASHTAGS__BITS.
Definition hashtags__fn (key : Z) : Z := hash_64 key HASHTAGS__BITS.

(** The arrays [dcu->hash_tags] and [dcu->hash_types] of list heads. *)
Notation hashtable := loc (only parsing).
Definition hash_tags (dcu : loc) : hashtable := dcu * (2 * HASHTAGS__SIZE).
Definition hash_types (dcu : loc) : hashtable := dcu * (2 * HASHTAGS__SIZE) + HASHTAGS__SIZE.
Definition bucket (tbl : hashtable) (i : Z) : DM loc :=
  if (0 <=? i) && (i <? HASHTAGS__SIZE) then mret (tbl + i)
  else undef "bucket outside the hash table".

(** The node of the entry is put in front of the chain of its bucket. *)
Definition hashtags__hash (tbl : hashtable) (dtag : loc) : DM unit :=
  d ← load_dtag dtag;
  head ← bucket tbl (hashtags__fn (dt_id d));
  on_hash (HList.hlist_add_head dtag head).

(** The loop over the nodes of a chain, of which the next one is [pos]. *)
Fixpoint hashtags__walk (k : nat) (id : Z) (pos : loc) : DM loc :=
  if pos =? 0 then mret 0 else
  match k with
  | O => raise out_of_fuel
  | S k =>
      d ← load_dtag pos;
      if dt_id d =? id then mret pos else
      next ← on_hash (HList.load_cell (HList.c_next pos));
      hashtags__walk k id next
  end.

(** A chain with more nodes than there are visits one of them again. *)
Definition hashtags__find (tbl : hashtable) (id : Z) : DM loc :=
  if id =? 0 then mret 0 else
  head ← bucket tbl (u16 (hashtags__fn id));
  first ← on_hash (HList.load_cell (HList.c_first head));
  st ← get_st;
  hashtags__walk (size (HList.n_next (d_hash st))) id first.

Definition init_buckets (dcu : loc) (indices : list Z) : DM unit :=
  iter_list (fun i =>
    on_hash (HList.INIT_HLIST_HEAD (hash_tags dcu + i));;;
    on_hash (HList.INIT_HLIST_HEAD (hash_types dcu + i))) indices.
Definition dwarf_cu__init (dcu : loc) : DM unit :=
  init_buckets dcu (seqZ 0 HASHTAGS__SIZE);;;
  d ← load_dcu dcu;
  store_dcu dcu (mkDcu [] (dcu_cu d) 0).

Definition cu__hash (c p : loc) : DM unit :=
  cu ← load_cu c;
  _ ← load_dcu (cu_priv cu);
  t ← load_tag p;
  hashtags__hash (if tag__is_tag_type t then hash_types (cu_priv cu) else hash_tags (cu_priv cu)) (priv t).

(** The memory of the nodes and heads: that of a zeroed [dwarf_tag], that of a
    [dwarf_cu] with any contents, and its end. *)
Definition zero_node (dtag : loc) (h : HList.hheap) : HList.hheap :=
  HList.mkHHeap (HList.h_first h) (<[dtag := 0]> (HList.n_next h)) (<[dtag := HList.c_null]> (HList.n_pprev h)).
Definition free_node (dtag : loc) (h : HList.hheap) : HList.hheap :=
  HList.mkHHeap (HList.h_first h) (delete dtag (HList.n_next h)) (delete dtag (HList.n_pprev h)).
Definition new_heads (dcu junk : loc) (h : HList.hheap) : HList.hheap :=
  HList.mkHHeap (foldr (fun i m => <[hash_tags dcu + i := junk]> m) (HList.h_first h) (seqZ 0 (2 * HASHTAGS__SIZE)))
    (HList.n_next h) (HList.n_pprev h).
Definition free_heads (dcu : loc) (h : HList.hheap) : HList.hheap :=
  HList.mkHHeap (foldr (fun i => delete (hash_tags dcu + i)) (HList.h_first h) (seqZ 0 (2 * HASHTAGS__SIZE)))
    (HList.n_next h) (HList.n_pprev h).
Definition upd_hash (f : HList.hheap -> HList.hheap) : DM unit := modify (fun st => set_dhash (f (d_hash st)) st).

(** ** References *)

Definition dwarf_cu__find_tag_by_ref (cu : loc) (ref : dwarf_off_ref) : DM loc :=
  if cu =? 0 then mret 0 else
  if from_types ref then mret 0 else
  _ ← load_dcu cu;
  hashtags__find (hash_tags cu) (ref_off ref).

Definition dwarf_cu__find_type_by_ref (dcu : loc) (ref : dwarf_off_ref) : DM loc :=
  if dcu =? 0 then mret 0 else
  d ← load_dcu dcu;
  if from_types ref then
    if dcu_type_unit d =? 0 then mret 0 else
    _ ← load_dcu (dcu_type_unit d);
    hashtags__find (hash_types (dcu_type_unit d)) (ref_off ref)
  else hashtags__find (hash_types dcu) (ref_off ref).

Definition dwarf_tag__spec (d : dwarf_tag) : DM dwarf_off_ref :=
  must "dwarf_tag without a specification" (dt_spec d).

(** Assignments to the fields of a [dwarf_tag]. *)
Definition upd_dtag (p : loc) (f : dwarf_tag -> dwarf_tag) : DM unit :=
  d ← load_dtag p; store_dtag p (f d).
Definition set_dt_ids (ty : dwarf_off_ref) (id : Z) (origin : dwarf_off_ref) (d : dwarf_tag) : dwarf_tag :=
  mkDtag ty id origin (dt_tag d) (dt_decl_file d) (dt_decl_line d) (dt_small_id d) (dt_spec d).
Definition set_dt_decl (file : strings_t) (line : Z) (d : dwarf_tag) : dwarf_tag :=
  mkDtag (dt_type d) (dt_id d) (dt_abstract_origin d) (dt_tag d) file line (dt_small_id d) (dt_spec d).
Definition set_dt_type (ty : dwarf_off_ref) (d : dwarf_tag) : dwarf_tag :=
  mkDtag ty (dt_id d) (dt_abstract_origin d) (dt_tag d) (dt_decl_file d) (dt_decl_line d)
    (dt_small_id d) (dt_spec d).
Definition set_dt_containing_type (ty : dwarf_off_ref) (d : dwarf_tag) : dwarf_tag :=
  mkDtag (dt_type d) (dt_id d) ty (dt_tag d) (dt_decl_file d) (dt_decl_line d) (dt_small_id d) (dt_spec d).
Definition set_dt_tag (tag : loc) (d : dwarf_tag) : dwarf_tag :=
  mkDtag (dt_type d) (dt_id d) (dt_abstract_origin d) tag (dt_decl_file d) (dt_decl_line d)
    (dt_small_id d) (dt_spec d).
Definition set_dt_small_id (id : Z) (d : dwarf_tag) : dwarf_tag :=
  mkDtag (dt_type d) (dt_id d) (dt_abstract_origin d) (dt_tag d) (dt_decl_file d) (dt_decl_line d)
    (u16 id) (dt_spec d).

Definition dwarf_tag__set_spec (dtag : loc) (spec : dwarf_off_ref) : DM unit :=
  d ← load_dtag dtag;
  _ ← dwarf_tag__spec d;
  store_dtag dtag (mkDtag (dt_type d) (dt_id d) (dt_abstract_origin d) (dt_tag d) (dt_decl_file d)
    (dt_decl_line d) (dt_small_id d) (Some spec)).

(** ** Variable length numbers *)

(** [__b = *(addr)++] *)
Definition next_byte (addr : list Z) : DM (Z * list Z) :=
  match addr with b :: addr => mret (b, addr) | [] => undef "read past the block" end.

(** [var |= (uintmax_t)(b & 0x7f) << (nth * 7)] *)
Definition uleb_step (var b nth : Z) : Z :=
  Z.lor var (u64 (Z.shiftl (Z.land b 0x7f) (nth * 7))).

(** At most [k] more bytes are read, the first of them is number [i]. *)
Fixpoint uleb_loop (k : nat) (acc i : Z) (addr : list Z) : DM (Z * list Z) :=
  match k with
  | O => mret (2 ^ 64 - 1, addr)
  | S k =>
      '(b, addr) ← next_byte addr;
      let acc := uleb_step acc b i in
      if Z.land b 0x80 =? 0 then mret (acc, addr) else uleb_loop k acc (i + 1) addr
  end.
Definition __libdw_get_uleb128 (acc i : Z) (addr : list Z) : DM (Z * list Z) :=
  uleb_loop (Z.to_nat (10 - i)) acc i addr.

Definition get_uleb128 (addr : list Z) : DM (Z * list Z) :=
  '(b, addr) ← next_byte addr;
  let var := uleb_step 0 b 0 in
  if Z.land b 0x80 =? 0 then mret (var, addr) else __libdw_get_uleb128 var 1 addr.

Definition DW_OP_constu : Z := 0x10.
Definition DW_OP_plus_uconst : Z := 0x23.

Definition dwarf_expr (expr : list Z) : DM Z :=
  '(op, rest) ← next_byte expr;
  if (op =? DW_OP_plus_uconst) || (op =? DW_OP_constu) then
    '(result, _) ← get_uleb128 rest; mret result
  else err (other_diag "unhandled DW_OP_ operation");;; mret (2 ^ 64 - 1).
