(* ===== verification/DwHashProps.v ===== *)
(** * The hash tables of debugging entries find what was registered

    The shifts of [hash_64] multiply by the golden ratio prime, a bucket number
    is inside the table, and the chains, made of the [dwarf_tag]s themselves, are
    together the list of everything that was hashed: looking an offset up yields
    the newest entry with it. *)
From coqutil Require Import Z.PushPullMod.
From S2P Require Import Prelude StdMap RbTree DwTypes Dwarves DwHash.
From S2P Require HList HListProps.
Local Open Scope list_scope.
Local Open Scope Z_scope.

(** ** The hash function *)

Lemma hash_64_product val bits :
  hash_64 val bits = Z.shiftr (u64 (val * GOLDEN_RATIO_PRIME_64)) (64 - bits).
Proof.
  unfold hash_64, u64, wrap. rewrite !Z.shiftl_mul_pow2 by lia.
  apply (f_equal (fun z => Z.shiftr z (64 - bits))). Z.push_pull_mod.
  apply (f_equal (fun z => z mod 2 ^ 64)). unfold GOLDEN_RATIO_PRIME_64. ring.
Qed.

Lemma hashtags__fn_range key : 0 <= hashtags__fn key < HASHTAGS__SIZE.
Proof.
  unfold hashtags__fn. rewrite hash_64_product. unfold HASHTAGS__BITS, HASHTAGS__SIZE.
  rewrite Z.shiftr_div_pow2 by lia. change (Z.shiftl 1 HASHTAGS__BITS) with 256.
  pose proof (wrap_range 64 (key * GOLDEN_RATIO_PRIME_64) ltac:(lia)) as [H1 H2].
  fold u64 in H1, H2. change (64 - 8) with 56. split; [apply Z.div_pos; lia|].
  apply Z.div_lt_upper_bound; [lia|]. change (2 ^ 56 * 256) with (2 ^ 64). exact H2.
Qed.

(** ** One table *)

#[local] Arguments HList.peek : simpl never.
Notation chain := HListProps.chain.
Notation hl_rep := HListProps.hl_rep.

(** The offset of a registered entry. *)
Definition entry_id (st : dstate) (p : loc) : Z := default 0 (dt_id <$> d_dtags st !! p).

Definition valid_entry (st : dstate) (p : loc) : Prop := is_Some (d_dtags st !! p).

(** The entries among [l] that belong into a bucket. *)
Definition in_bucket (st : dstate) (l : list loc) (i : Z) : list loc :=
  List.filter (fun p => hashtags__fn (entry_id st p) =? i) l.

(** The chains of [tbl] are those of the entries in [l], the newest first. *)
Record table_of (st : dstate) (tbl : hashtable) (l : list loc) : Prop := {
  to_valid : Forall (valid_entry st) l;
  to_chain i : 0 <= i < HASHTAGS__SIZE ->
    NoDup (in_bucket st l i) /\ chain (d_hash st) (HList.c_first (tbl + i)) (in_bucket st l i)
}.

(** The specification of a lookup: the newest entry with an offset. *)
Definition newest (st : dstate) (l : list loc) (id : Z) : loc :=
  if id =? 0 then 0 else default 0 (List.find (fun p => entry_id st p =? id) l).

Lemma load_dtag_run st p d : d_dtags st !! p = Some d -> load_dtag p st = inr (d, st).
Proof. intros Hd. unfold load_dtag, must, mbind, M_bind, get_st. by rewrite Hd. Qed.

Lemma load_dcu_run st p d : d_dcus st !! p = Some d -> load_dcu p st = inr (d, st).
Proof. intros Hd. unfold load_dcu, must, mbind, M_bind, get_st. by rewrite Hd. Qed.

Lemma on_hash_run {A} (c : HList.HLM A) st a h : c (d_hash st) = inr (a, h) -> on_hash c st = inr (a, set_dhash h st).
Proof. intros Hc. unfold on_hash. by rewrite Hc. Qed.

Lemma set_dhash_same st : set_dhash (d_hash st) st = st.
Proof. by destruct st. Qed.

Lemma on_hash_read {A} (c : HList.HLM A) st a : c (d_hash st) = inr (a, d_hash st) -> on_hash c st = inr (a, st).
Proof. intros Hc. rewrite (on_hash_run _ _ _ _ Hc). by rewrite set_dhash_same. Qed.

Lemma bucket_run tbl i st : 0 <= i < HASHTAGS__SIZE -> bucket tbl i st = inr (tbl + i, st).
Proof.
  intros [Hi1 Hi2]. unfold bucket.
  by rewrite (proj2 (Z.leb_le _ _) Hi1), (proj2 (Z.ltb_lt _ _) Hi2).
Qed.

Lemma entry_id_some st p d : d_dtags st !! p = Some d -> entry_id st p = dt_id d.
Proof. unfold entry_id. by intros ->. Qed.

(** A chain without repetitions has at most as many nodes as there are. *)
Lemma chain_size h xs : forall c, chain h c xs -> NoDup xs -> (length xs <= size (HList.n_next h))%nat.
Proof.
  intros c Hc Hnd.
  assert (Hd : forall xs c, chain h c xs -> Forall (fun x => is_Some (HList.n_next h !! x)) xs).
  { clear. induction xs as [|x xs IH]; intros c; cbn [HListProps.chain]; [done|]. intros (_ & _ & _ & Hc).
    constructor; [|by eapply IH]. apply HListProps.chain_head in Hc. by eexists. }
  specialize (Hd xs c Hc). rewrite Forall_forall in Hd.
  rewrite <- (size_dom (D := gset loc)), <- (size_list_to_set (C := gset loc) xs Hnd).
  apply subseteq_size. intros x Hx%elem_of_list_to_set. apply elem_of_dom. by apply Hd.
Qed.

Lemma walk_run st id xs : forall c k, chain (d_hash st) c xs -> Forall (valid_entry st) xs -> (length xs <= k)%nat ->
  hashtags__walk k id (hd 0 xs) st = inr (default 0 (List.find (fun p => entry_id st p =? id) xs), st).
Proof.
  induction xs as [|x xs IH]; intros c k Hc Hv Hk; cbn [hd]; [by destruct k|].
  destruct k as [|k]; cbn [length] in Hk; [lia|]. destruct Hc as (H0 & _ & _ & Hc).
  inversion_clear Hv as [|? ? [d Hd] Hv']. cbn [hashtags__walk List.find]. rewrite (valid_loc_eqb _ H0).
  dstep (load_dtag_run _ _ _ Hd). rewrite (entry_id_some _ _ _ Hd). destruct (dt_id d =? id); [done|].
  dstep (on_hash_read _ st _ (HList.load_cell_run _ _ _ (HListProps.chain_head _ _ _ Hc))).
  apply (IH (HList.c_next x)); [done|done|lia].
Qed.

Lemma find_filter {A} (f g : A -> bool) l :
  (forall a, f a = true -> g a = true) -> List.find f (List.filter g l) = List.find f l.
Proof.
  intros Hfg. induction l as [|a l IH]; [done|]. simpl.
  destruct (g a) eqn:Hg; simpl; [by rewrite IH|].
  destruct (f a) eqn:Hf; [|done]. by rewrite (Hfg a Hf) in Hg.
Qed.

Lemma hashtags__find_run st tbl l id :
  table_of st tbl l -> hashtags__find tbl id st = inr (newest st l id, st).
Proof.
  intros [Hv Hc]. unfold hashtags__find, newest. destruct (id =? 0); [done|].
  pose proof (hashtags__fn_range id) as Hr.
  rewrite u16_small by (change HASHTAGS__SIZE with 256 in Hr; lia).
  dstep (bucket_run tbl _ st Hr). destruct (Hc _ Hr) as [Hnd Hch].
  dstep (on_hash_read _ st _ (HList.load_cell_run _ _ _ (HListProps.chain_head _ _ _ Hch))).
  rewrite (dbind _ _ st st st) by done. rewrite (walk_run st id _ _ _ Hch).
  - unfold in_bucket. rewrite find_filter; [done|]. intros p. rewrite !Z.eqb_eq. by intros ->.
  - apply List.Forall_forall. intros p Hp%List.filter_In. by eapply List.Forall_forall; [|apply Hp].
  - by eapply chain_size.
Qed.

(** ** The tables of a unit *)

Definition table_at (dcu : loc) (types : bool) : hashtable := if types then hash_types dcu else hash_tags dcu.

(** Every head has its own place. *)
Lemma head_inj dcu dcu' types types' i i' :
  0 <= i < HASHTAGS__SIZE -> 0 <= i' < HASHTAGS__SIZE ->
  table_at dcu types + i = table_at dcu' types' + i' -> dcu = dcu' /\ types = types' /\ i = i'.
Proof.
  unfold table_at, hash_types, hash_tags. change HASHTAGS__SIZE with 256. intros Hi Hi' E.
  destruct types, types'; split_and!; try done; lia.
Qed.

Definition tag_is_type (st : dstate) (p : loc) : bool :=
  match d_tags st !! p with Some o => tag__is_tag_type (o_tag o) | None => false end.

(** The entries of the types, or of the other tags, among [ps], the newest first. *)
Definition entries (st : dstate) (types : bool) (ps : list loc) : list loc :=
  reverse (omap (fun p => o ← d_tags st !! p;
    if Bool.eqb (tag__is_tag_type (o_tag o)) types then Some (priv (o_tag o)) else None) ps).

Lemma entries_snoc st types ps p o :
  d_tags st !! p = Some o ->
  entries st types (ps ++ [p]) =
  if Bool.eqb (tag__is_tag_type (o_tag o)) types then priv (o_tag o) :: entries st types ps
  else entries st types ps.
Proof.
  intros Ho. unfold entries. rewrite omap_app, reverse_app. simpl. rewrite Ho. simpl.
  by destruct (Bool.eqb _ _).
Qed.

(** The [dwarf_tag]s of some tags. *)
Definition dtags_of (st : dstate) (ps : list loc) : list loc :=
  omap (fun p => priv ∘ o_tag <$> d_tags st !! p) ps.

(** A tag that a [dwarf_tag] describes. *)
Definition described (st : dstate) (p : loc) : Prop :=
  exists o, d_tags st !! p = Some o /\ valid_entry st (priv (o_tag o)).

Lemma entries_valid st types ps : Forall (described st) ps -> Forall (valid_entry st) (entries st types ps).
Proof.
  intros Hps. apply Forall_forall. intros q Hq. unfold entries in Hq.
  rewrite elem_of_reverse, list_elem_of_omap in Hq. destruct Hq as (p & Hp & Hq).
  rewrite Forall_forall in Hps. destruct (Hps p Hp) as (o & Ho & Hv). rewrite Ho in Hq. simpl in Hq.
  destruct (Bool.eqb _ _); [|done]. by injection Hq as <-.
Qed.

(** The lists [L] have the chains of the tags [ps] in the tables of a unit. *)
Definition hashed (L : gmap loc (list loc)) (st : dstate) (dcu : loc) (ps : list loc) : Prop :=
  forall types i, 0 <= i < HASHTAGS__SIZE ->
  L !! (table_at dcu types + i) = Some (in_bucket st (entries st types ps) i).

Lemma hashed_table L F st dcu ps types :
  hl_rep (d_hash st) (L, F) -> hashed L st dcu ps -> Forall (described st) ps ->
  table_of st (table_at dcu types) (entries st types ps).
Proof.
  intros Hrep Hh Hps. split; [by apply entries_valid|]. intros i Hi.
  exact (HListProps.rep_chain _ _ Hrep _ _ (Hh types i Hi)).
Qed.

(** Lists outside of the tables of a unit stay. *)
Definition same_elsewhere (dcu : loc) (L L' : gmap loc (list loc)) : Prop :=
  forall q, (forall types i, 0 <= i < HASHTAGS__SIZE -> q <> table_at dcu types + i) -> L' !! q = L !! q.

(** ** [dwarf_cu__init] *)

Lemma init_head_run h L F p v :
  hl_rep h (L, F) -> L !! p = None -> HList.peek h (HList.c_first p) = Some v ->
  exists h', HList.INIT_HLIST_HEAD p h = inr (tt, h') /\ hl_rep h' (<[p := []]> L, F) /\
    (forall q, q <> p -> HList.peek h' (HList.c_first q) = HList.peek h (HList.c_first q)).
Proof.
  intros [Hch Hdis Hlo] Hp Hv.
  destruct (HList.store_cell_run h (HList.c_first p) 0 v Hv) as (h' & Hrun & Hpk & Hpp).
  assert (Hother : forall q xs, q <> p -> L !! q = Some xs -> chain h' (HList.c_first q) xs).
  { intros q xs Hq Hxs. destruct (Hch q xs Hxs) as [_ Hc]. eapply HListProps.chain_frame; [| |exact Hc].
    - intros e He. rewrite Hpk, decide_False; [done|]. destruct He as [->|(x & _ & ->)]; congruence.
    - intros x _. by rewrite Hpp. }
  exists h'. split; [exact Hrun|]. split; [split; cbn [fst snd] in *|].
  - intros q xs. destruct (decide (q = p)) as [->|Hq].
    + rewrite lookup_insert_eq. intros [= <-]. split; [constructor|]. cbn. by rewrite Hpk, decide_True.
    + rewrite lookup_insert_ne by done. intros Hxs. split; [apply (Hch q xs Hxs)|by apply Hother].
  - intros q r xs ys n Hq Hr Hx Hy. rewrite lookup_insert_Some in Hq, Hr.
    destruct Hq as [[<- <-]|[Hqp Hq]]; [by apply elem_of_nil in Hx|].
    destruct Hr as [[<- <-]|[Hrp Hr]]; [by apply elem_of_nil in Hy|]. by eapply Hdis.
  - intros n b Hn. destruct (Hlo n b Hn) as (H0 & Hs & Ho & c & Hc & Hb).
    split; [done|]. split; [by rewrite Hpk, decide_False|]. split; [|exists c; by rewrite Hpp].
    intros q xs. destruct (decide (q = p)) as [->|Hq].
    + rewrite lookup_insert_eq. intros [= <-]. apply not_elem_of_nil.
    + rewrite lookup_insert_ne by done. apply Ho.
  - intros q Hq. rewrite Hpk, decide_False; [done|congruence].
Qed.

(** The memory of the heads with these numbers holds no list yet. *)
Definition raw_heads (h : HList.hheap) (L : gmap loc (list loc)) (dcu : loc) (indices : list Z) : Prop :=
  forall types i, i ∈ indices -> L !! (table_at dcu types + i) = None /\
    is_Some (HList.peek h (HList.c_first (table_at dcu types + i))).

Lemma init_buckets_run dcu indices : forall st L F,
  hl_rep (d_hash st) (L, F) -> raw_heads (d_hash st) L dcu indices -> NoDup indices ->
  Forall (fun i => 0 <= i < HASHTAGS__SIZE) indices ->
  exists h' L', init_buckets dcu indices st = inr (tt, set_dhash h' st) /\ hl_rep h' (L', F) /\
    (forall types i, i ∈ indices -> L' !! (table_at dcu types + i) = Some []) /\
    (forall q, (forall types i, i ∈ indices -> q <> table_at dcu types + i) -> L' !! q = L !! q).
Proof.
  induction indices as [|i is' IH]; intros st L F Hrep Hraw Hnd Hr.
  - exists (d_hash st), L. rewrite set_dhash_same. split; [done|]. split; [done|]. split; [|done].
    intros types i Hi. by apply elem_of_nil in Hi.
  - apply NoDup_cons in Hnd as [Hi Hnd]. inversion_clear Hr as [|? ? Hir Hr'].
    destruct (Hraw false i) as [HLt [vt Hvt]]; [by left|]. destruct (Hraw true i) as [HLy [vy Hvy]]; [by left|].
    assert (Hne : table_at dcu true + i <> table_at dcu false + i).
    { intros E. by destruct (head_inj dcu dcu true false i i Hir Hir E) as (_ & ? & _). }
    destruct (init_head_run _ L F _ _ Hrep HLt Hvt) as (h1 & Hrun1 & Hrep1 & Hpk1).
    destruct (init_head_run h1 _ F (table_at dcu true + i) vy Hrep1) as (h2 & Hrun2 & Hrep2 & Hpk2).
    { by rewrite lookup_insert_ne. }
    { by rewrite Hpk1. }
    assert (Hother : forall types j, j ∈ is' ->
      table_at dcu types + j <> table_at dcu false + i /\ table_at dcu types + j <> table_at dcu true + i).
    { intros types j Hj. rewrite Forall_forall in Hr'. specialize (Hr' j Hj).
      split; intros E; destruct (head_inj _ _ _ _ _ _ Hr' Hir E) as (_ & _ & ->); done. }
    destruct (IH (set_dhash h2 st) (<[table_at dcu true + i := []]> (<[table_at dcu false + i := []]> L)) F)
      as (h' & L' & Hrun & Hrep' & Hin & Hout); [done| |done|done|].
    { intros types j Hj. destruct (Hother types j Hj) as [Hn1 Hn2]. cbn [d_hash set_dhash].
      rewrite !lookup_insert_ne, Hpk2, Hpk1 by done. apply Hraw. by right. }
    exists h', L'. split; [|split; [done|split]].
    + unfold init_buckets. cbn [iter_list]. rewrite !dbind_assoc.
      change (hash_tags dcu + i) with (table_at dcu false + i). change (hash_types dcu + i) with (table_at dcu true + i).
      dstep (on_hash_run _ st _ _ Hrun1). dstep (on_hash_run _ (set_dhash h1 st) _ _ Hrun2). exact Hrun.
    + intros types j [->|Hj]%elem_of_cons; [|by apply Hin].
      rewrite Hout.
      * destruct types; [by rewrite lookup_insert_eq|]. by rewrite lookup_insert_ne, lookup_insert_eq.
      * intros types' j Hj E. destruct (Hother types' j Hj) as [? ?]. by destruct types.
    + intros q Hq. rewrite Hout by (intros; apply Hq; by right).
      rewrite !lookup_insert_ne; [done|..]; apply not_eq_sym, Hq; by left.
Qed.

Lemma buckets_range : Forall (fun i => 0 <= i < HASHTAGS__SIZE) (seqZ 0 HASHTAGS__SIZE).
Proof. apply Forall_forall. intros i Hi%elem_of_seqZ. lia. Qed.

Lemma dwarf_cu__init_run st L F dcu d :
  hl_rep (d_hash st) (L, F) -> raw_heads (d_hash st) L dcu (seqZ 0 HASHTAGS__SIZE) -> d_dcus st !! dcu = Some d ->
  exists h' L', dwarf_cu__init dcu st =
      inr (tt, set_dcus (<[dcu := mkDcu [] (dcu_cu d) 0]> (d_dcus st)) (set_dhash h' st)) /\
    hl_rep h' (L', F) /\ hashed L' st dcu [] /\ same_elsewhere dcu L L'.
Proof.
  intros Hrep Hraw Hd.
  destruct (init_buckets_run dcu _ st L F Hrep Hraw (NoDup_seqZ _ _) buckets_range) as (h' & L' & Hrun & Hrep' & Hin & Hout).
  exists h', L'. split; [|split; [done|split]].
  - unfold dwarf_cu__init. dstep Hrun.
    assert (d_dcus (set_dhash h' st) !! dcu = Some d) as Hd' by done. dstep (load_dcu_run _ _ _ Hd'). done.
  - intros types i Hi. rewrite (Hin types i) by (apply elem_of_seqZ; lia). done.
  - intros q Hq. apply Hout. intros types i Hi%elem_of_seqZ. apply Hq. lia.
Qed.

(** ** [cu__hash] *)

Lemma cu__hash_run st c u d L F ps p o b :
  d_cus st !! c = Some u -> d_dcus st !! cu_priv u = Some d ->
  hl_rep (d_hash st) (L, F) -> hashed L st (cu_priv u) ps ->
  d_tags st !! p = Some o -> valid_entry st (priv (o_tag o)) -> F !! priv (o_tag o) = Some b ->
  exists h' L', cu__hash c p st = inr (tt, set_dhash h' st) /\ hl_rep h' (L', delete (priv (o_tag o)) F) /\
    hashed L' st (cu_priv u) (ps ++ [p]) /\ same_elsewhere (cu_priv u) L L'.
Proof.
  intros Hu Hd Hrep Hh Ho [e He] Hb. unfold cu__hash. dstep (load_cu_run _ _ _ Hu).
  dstep (load_dcu_run _ _ _ Hd). dstep (load_tag_run _ _ _ Ho). unfold hashtags__hash.
  dstep (load_dtag_run _ _ _ He). set (ty := tag__is_tag_type (o_tag o)).
  change (if ty then hash_types (cu_priv u) else hash_tags (cu_priv u)) with (table_at (cu_priv u) ty).
  pose proof (hashtags__fn_range (dt_id e)) as Hr. dstep (bucket_run (table_at (cu_priv u) ty) _ st Hr).
  pose proof (Hh ty _ Hr) as HL.
  destruct (HListProps.hop_step _ _ _ _ (HListProps.h_add _ _ _ _ _ _ Hb HL) Hrep) as (h' & Hrun & Hrep').
  cbn [HListProps.exec_hop] in Hrun. rewrite (on_hash_run _ _ _ _ Hrun). eexists h', _. split; [reflexivity|]. split; [exact Hrep'|]. split.
  - intros types i Hi. rewrite (entries_snoc _ _ _ _ _ Ho). fold ty.
    destruct (decide (table_at (cu_priv u) types + i = table_at (cu_priv u) ty + hashtags__fn (dt_id e))) as [E|E].
    + destruct (head_inj _ _ _ _ _ _ Hi Hr E) as (_ & -> & ->). rewrite lookup_insert_eq, Bool.eqb_reflx.
      unfold in_bucket. cbn [List.filter]. by rewrite (entry_id_some _ _ _ He), Z.eqb_refl.
    + rewrite lookup_insert_ne by done. rewrite (Hh types i Hi). destruct (Bool.eqb ty types) eqn:Et; [|done].
      apply Bool.eqb_prop in Et as <-. unfold in_bucket. cbn [List.filter]. rewrite (entry_id_some _ _ _ He).
      destruct (Z.eqb_spec (hashtags__fn (dt_id e)) i) as [<-|]; [done|done].
  - intros q Hq. rewrite lookup_insert_ne; [done|]. apply not_eq_sym, Hq, Hr.
Qed.

(** The nodes of the tags are their own and in no list. *)
Definition unhashed (F : gmap loc bool) (st : dstate) (ps : list loc) : Prop :=
  NoDup (dtags_of st ps) /\ Forall (fun q => is_Some (F !! q)) (dtags_of st ps).

Lemma iter_hash_run c u d ps : forall st L F done_,
  d_cus st !! c = Some u -> d_dcus st !! cu_priv u = Some d ->
  hl_rep (d_hash st) (L, F) -> hashed L st (cu_priv u) done_ ->
  Forall (described st) ps -> unhashed F st ps ->
  exists h' L' F', iter_list (cu__hash c) ps st = inr (tt, set_dhash h' st) /\ hl_rep h' (L', F') /\
    hashed L' st (cu_priv u) (done_ ++ ps) /\ same_elsewhere (cu_priv u) L L'.
Proof.
  induction ps as [|p ps IH]; intros st L F done_ Hu Hd Hrep Hh Hps [Hnd Hun].
  - exists (d_hash st), L, F. rewrite set_dhash_same, app_nil_r. by split_and!.
  - inversion_clear Hps as [|? ? (o & Ho & Hv) Hps'].
    assert (E : dtags_of st (p :: ps) = priv (o_tag o) :: dtags_of st ps) by (unfold dtags_of; simpl; by rewrite Ho).
    rewrite E in Hnd, Hun. apply NoDup_cons in Hnd as [Hp Hnd]. inversion_clear Hun as [|? ? [b Hb] Hun'].
    destruct (cu__hash_run st c u d L F done_ p o b Hu Hd Hrep Hh Ho Hv Hb) as (h1 & L1 & Hrun & Hrep1 & Hh1 & Hsame1).
    simpl. dstep Hrun.
    destruct (IH (set_dhash h1 st) L1 (delete (priv (o_tag o)) F) (done_ ++ [p])) as (h' & L' & F' & Hrun' & Hrep' & Hh' & Hsame');
      try done.
    { split; [done|]. rewrite Forall_forall in Hun' |- *. intros q Hq.
      rewrite lookup_delete_ne by (intros E'; apply Hp; by rewrite E'). by apply Hun'. }
    exists h', L', F'. rewrite <-app_assoc in Hh'. split; [exact Hrun'|]. split; [done|]. split; [exact Hh'|].
    intros q Hq. by rewrite Hsame', Hsame1.
Qed.

(** ** References *)

(** A type unit that is loaded: none, the unit itself, or another one in which
    the tags [tps] were hashed. *)
Definition type_unit_of (L : gmap loc (list loc)) (st : dstate) (dcu tu : loc) (tps : list loc) : Prop :=
  tu = 0 \/ tu = dcu \/ is_Some (d_dcus st !! tu) /\ Forall (described st) tps /\ hashed L st tu tps.

Lemma ref_type_run dcu st d ref l :
  dcu <> 0 -> d_dcus st !! dcu = Some d -> from_types ref = false ->
  table_of st (hash_types dcu) l -> dwarf_cu__find_type_by_ref dcu ref st = inr (newest st l (ref_off ref), st).
Proof.
  intros Hp Hd Hf Ht. unfold dwarf_cu__find_type_by_ref. rewrite (valid_loc_eqb dcu Hp), Hf.
  dstep (load_dcu_run _ _ _ Hd). by rewrite (hashtags__find_run _ _ _ _ Ht).
Qed.

Lemma ref_tag_run dcu st d ref l :
  dcu <> 0 -> d_dcus st !! dcu = Some d -> from_types ref = false ->
  table_of st (hash_tags dcu) l -> dwarf_cu__find_tag_by_ref dcu ref st = inr (newest st l (ref_off ref), st).
Proof.
  intros Hp Hd Hf Ht. unfold dwarf_cu__find_tag_by_ref. rewrite (valid_loc_eqb dcu Hp), Hf.
  dstep (load_dcu_run _ _ _ Hd). by rewrite (hashtags__find_run _ _ _ _ Ht).
Qed.

Lemma ref_type_unit_run dcu st d td off l :
  dcu <> 0 -> d_dcus st !! dcu = Some d -> dcu_type_unit d <> 0 -> d_dcus st !! dcu_type_unit d = Some td ->
  table_of st (hash_types (dcu_type_unit d)) l ->
  dwarf_cu__find_type_by_ref dcu (mkRef true off) st = inr (newest st l off, st).
Proof.
  intros Hp Hd Ht Htd Htab. unfold dwarf_cu__find_type_by_ref. rewrite (valid_loc_eqb dcu Hp).
  dstep (load_dcu_run _ _ _ Hd). cbn [from_types]. rewrite (valid_loc_eqb _ Ht).
  dstep (load_dcu_run _ _ _ Htd). by rewrite (hashtags__find_run _ _ _ _ Htab).
Qed.

(** A unit is set up the way the loader does it. *)
Definition hash_unit (dcu c tu : loc) (ps : list loc) : DM unit :=
  dwarf_cu__init dcu;;; store_dcu dcu (mkDcu [] c tu);;; iter_list (cu__hash c) ps.

Lemma hash_unit_run st c u d tu ps L F :
  d_cus st !! c = Some u -> d_dcus st !! cu_priv u = Some d ->
  hl_rep (d_hash st) (L, F) -> raw_heads (d_hash st) L (cu_priv u) (seqZ 0 HASHTAGS__SIZE) ->
  Forall (described st) ps -> unhashed F st ps ->
  exists h' L' F',
    let st' := set_dhash h' (set_dcus (<[cu_priv u := mkDcu [] c tu]> (d_dcus st)) st) in
    hash_unit (cu_priv u) c tu ps st = inr (tt, st') /\ hl_rep h' (L', F') /\
    (forall types, table_of st' (table_at (cu_priv u) types) (entries st types ps)) /\
    same_elsewhere (cu_priv u) L L'.
Proof.
  intros Hu Hd Hrep Hraw Hps Hun.
  destruct (dwarf_cu__init_run st L F _ d Hrep Hraw Hd) as (h1 & L1 & Hrun1 & Hrep1 & Hh1 & Hsame1).
  set (d' := mkDcu [] c tu). set (st1 := set_dhash h1 (set_dcus (<[cu_priv u := d']> (d_dcus st)) st)).
  destruct (iter_hash_run c u d' ps st1 L1 F []) as (h' & L' & F' & Hrun & Hrep' & Hh' & Hsame'); try done.
  { apply lookup_insert_eq. }
  exists h', L', F'. cbv zeta. split; [|split; [done|split]].
  - unfold hash_unit. dstep Hrun1. rewrite (dbind (store_dcu _ _) _ _ tt st1); [exact Hrun|].
    unfold store_dcu, modify, st1. cbn [d_dcus set_dcus]. by rewrite insert_insert_eq.
  - intros types. exact (hashed_table L' F' (set_dhash h' st1) (cu_priv u) ps types Hrep' Hh' Hps).
  - intros q Hq. by rewrite Hsame', Hsame1.
Qed.

(** (C40) Finding debugging entries by their offset.  The tables of a unit are
    initialised, whatever the memory of their heads holds, and tags of the unit are
    hashed in any number and order; every one has a [dwarf_tag] of its own whose
    node is in no list yet.  This runs without an access outside of the tables or
    to an invalid node.  Afterwards every lookup ends: a reference of the unit leads
    to the newest entry with its offset among those of the types, respectively among
    those of the other tags, and to NULL if there is none or the offset is zero; a
    reference into the type units leads to the newest type hashed there - in the
    unit itself when it is its own type unit - and never to another tag.
    [hash_64], written with shifts, multiplies by the golden ratio prime and keeps
    the upper bits. *)
Theorem cu__hash_find st c u d tu ps tps L F :
  let dcu := cu_priv u in
  dcu <> 0 -> d_cus st !! c = Some u -> d_dcus st !! dcu = Some d ->
  hl_rep (d_hash st) (L, F) -> raw_heads (d_hash st) L dcu (seqZ 0 HASHTAGS__SIZE) ->
  Forall (described st) ps -> unhashed F st ps -> type_unit_of L st dcu tu tps ->
  (forall key, hash_64 key HASHTAGS__BITS = u64 (key * GOLDEN_RATIO_PRIME_64) / 2 ^ 56) /\
  exists st', hash_unit dcu c tu ps st = inr (tt, st') /\
    d_tags st' = d_tags st /\ d_dtags st' = d_dtags st /\
    (forall off,
       dwarf_cu__find_type_by_ref dcu (mkRef false off) st' = inr (newest st (entries st true ps) off, st') /\
       dwarf_cu__find_tag_by_ref dcu (mkRef false off) st' = inr (newest st (entries st false ps) off, st') /\
       dwarf_cu__find_type_by_ref dcu (mkRef true off) st' =
         inr (if tu =? 0 then 0 else newest st (entries st true (if tu =? dcu then ps else tps)) off, st') /\
       dwarf_cu__find_tag_by_ref dcu (mkRef true off) st' = inr (0, st')).
Proof.
  intros dcu Hp Hu Hd Hrep Hraw Hps Hun Htu. split.
  { intros key. rewrite hash_64_product. by rewrite Z.shiftr_div_pow2. }
  destruct (hash_unit_run st c u d tu ps L F Hu Hd Hrep Hraw Hps Hun) as (h' & L' & F' & Hrun & Hrep' & Htab & Hsame).
  set (st1 := set_dcus (<[cu_priv u := mkDcu [] c tu]> (d_dcus st)) st) in *.
  assert (Hd' : d_dcus (set_dhash h' st1) !! dcu = Some (mkDcu [] c tu)) by apply lookup_insert_eq.
  exists (set_dhash h' st1). split; [exact Hrun|]. split; [done|]. split; [done|]. set (d' := mkDcu [] c tu) in *.
  intros off. split; [|split; [|split]].
  - exact (ref_type_run dcu (set_dhash h' st1) d' (mkRef false off) _ Hp Hd' eq_refl (Htab true)).
  - exact (ref_tag_run dcu (set_dhash h' st1) d' (mkRef false off) _ Hp Hd' eq_refl (Htab false)).
  - destruct Htu as [->|[->|([td Htd] & Htp & Hht)]].
    + unfold dwarf_cu__find_type_by_ref. rewrite (valid_loc_eqb _ Hp). by dstep (load_dcu_run _ _ _ Hd').
    + rewrite (valid_loc_eqb _ Hp), Z.eqb_refl. exact (ref_type_unit_run dcu (set_dhash h' st1) d' d' off _ Hp Hd' Hp Hd' (Htab true)).
    + destruct (Z.eqb_spec tu 0) as [->|H0].
      { unfold dwarf_cu__find_type_by_ref. rewrite (valid_loc_eqb _ Hp). by dstep (load_dcu_run _ _ _ Hd'). }
      destruct (Z.eqb_spec tu dcu) as [Heq|Hne].
      { subst tu. exact (ref_type_unit_run dcu (set_dhash h' st1) d' d' off _ Hp Hd' Hp Hd' (Htab true)). }
      refine (ref_type_unit_run dcu (set_dhash h' st1) d' td off _ Hp Hd' H0 _ _).
      * unfold st1. cbn [d_dcus set_dcus set_dhash d' dcu_type_unit]. by rewrite lookup_insert_ne.
      * apply (hashed_table L' F' (set_dhash h' st1) tu tps true Hrep'); [|exact Htp].
        intros types i Hi. refine (eq_trans _ (Hht types i Hi)).
        assert (Hq : forall types' i', 0 <= i' < HASHTAGS__SIZE -> table_at tu types + i <> table_at dcu types' + i').
        { intros types' i' Hi' E. by destruct (head_inj _ _ _ _ _ _ Hi Hi' E) as [-> _]. }
        by rewrite Hsame.
  - unfold dwarf_cu__find_tag_by_ref. by rewrite (valid_loc_eqb _ Hp).
Qed.

(** Two entries with one offset and a third one that shares their bucket. *)
Definition ex_hash_dtag (id tag : Z) : dwarf_tag := mkDtag null_ref id null_ref tag 0 0 0 None.
Definition ex_hash_obj (tag priv : Z) : tagobj := mkObj (mkTag Unlinked 0 tag false priv) BTag.
Definition ex_hash_unit : cu :=
  mkCu [] (mkPt ∅ 0 0) (mkPt ∅ 0 0) (mkPt ∅ 0 0) "page_alloc.c" "vmlinux" 9 [] true 8 true true 1 0 0 [].
Definition ex_hash_heap : HList.hheap := new_heads 9 7 (foldr zero_node no_hash [17; 33; 49; 65]).
Definition ex_hash_state : dstate :=
  mkD (<[16 := ex_hash_obj DW_TAG_pointer_type 17]> (<[32 := ex_hash_obj DW_TAG_const_type 33]>
      (<[48 := ex_hash_obj DW_TAG_const_type 49]> (<[64 := ex_hash_obj DW_TAG_label 65]> ∅))))
    (<[17 := ex_hash_dtag 45 16]> (<[33 := ex_hash_dtag 189 32]> (<[49 := ex_hash_dtag 45 48]>
      (<[65 := ex_hash_dtag 45 64]> ∅))))
    {[ 9 := mkDcu [] 0 0 ]} {[ 8 := ex_hash_unit ]} [] (mkRbheap ∅ ∅) strings__new [] [] loader_init
    ex_hash_heap.

Lemma ex_hash_rep :
  hl_rep (ex_hash_heap) (∅, list_to_map [(17, true); (33, true); (49, true); (65, true)]).
Proof.
  split; cbn [fst snd]; [intros p xs Hp|intros p q xs ys n Hp|]; [by rewrite lookup_empty in Hp..|].
  intros n b Hn%elem_of_list_to_map_2.
  repeat (apply elem_of_cons in Hn as [[= -> ->]|Hn]); [..|by apply elem_of_nil in Hn];
    (split; [done|]; split; [eexists; reflexivity|]; split;
     [intros p xs Hp; by rewrite lookup_empty in Hp|exists HList.c_null; split; [reflexivity|done]]).
Qed.

Lemma ex_hash_raw : raw_heads (ex_hash_heap) ∅ 9 (seqZ 0 HASHTAGS__SIZE).
Proof.
  assert (H : forallb (fun i => bool_decide (HList.h_first (ex_hash_heap) !! (hash_tags 9 + i) = Some 7) &&
    bool_decide (HList.h_first (ex_hash_heap) !! (hash_types 9 + i) = Some 7)) (seqZ 0 HASHTAGS__SIZE) = true)
    by (vm_compute; reflexivity).
  rewrite forallb_forall in H. intros types i Hi%list_elem_of_In. split; [done|].
  specialize (H i Hi). rewrite andb_true_iff, !bool_decide_eq_true in H. destruct H as [H1 H2].
  destruct types; eexists; [exact H2|exact H1].
Qed.

Lemma cu__hash_find_witness :
  exists st', hash_unit 9 8 9 [16; 32; 48; 64] ex_hash_state = inr (tt, st') /\
    dwarf_cu__find_type_by_ref 9 (mkRef false 45) st' = inr (49, st') /\
    dwarf_cu__find_type_by_ref 9 (mkRef false 189) st' = inr (33, st') /\
    dwarf_cu__find_type_by_ref 9 (mkRef false 7) st' = inr (0, st') /\
    dwarf_cu__find_type_by_ref 9 (mkRef true 189) st' = inr (33, st') /\
    dwarf_cu__find_tag_by_ref 9 (mkRef false 45) st' = inr (65, st').
Proof.
  destruct (cu__hash_find ex_hash_state 8 ex_hash_unit (mkDcu [] 0 0) 9 [16; 32; 48; 64] [] ∅
    (list_to_map [(17, true); (33, true); (49, true); (65, true)])) as (_ & st' & Hrun & _ & _ & Hfind).
  - done.
  - reflexivity.
  - reflexivity.
  - exact ex_hash_rep.
  - exact ex_hash_raw.
  - repeat constructor; eexists; (split; [reflexivity|eexists; reflexivity]).
  - split; [by apply (bool_decide_unpack _)|]. repeat constructor; eexists; reflexivity.
  - right. by left.
  - exists st'. split; [exact Hrun|].
    repeat split; [apply (Hfind 45)|apply (Hfind 189)|apply (Hfind 7)|apply (Hfind 189)|apply (Hfind 45)].
Defined.

(** A [dwarf_tag] that is hashed twice becomes its own successor: the lookup of
    another offset in its bucket never ends. *)
Example hashed_twice :
  exists st', hash_unit 9 8 0 [32; 32] ex_hash_state = inr (tt, st') /\
    hashtags__fn 45 = hashtags__fn 189 /\
    forall k, hashtags__walk k 45 33 st' = inl out_of_fuel.
Proof.
  set (run := hash_unit 9 8 0 [32; 32] ex_hash_state).
  assert (H : exists st', run = inr (tt, st') /\ dt_id <$> d_dtags st' !! 33 = Some 189 /\
    HList.n_next (d_hash st') !! 33 = Some 33).
  { assert (Hr : match run with inr (_, st') => bool_decide (dt_id <$> d_dtags st' !! 33 = Some 189) &&
      bool_decide (HList.n_next (d_hash st') !! 33 = Some 33) | inl _ => false end = true) by (vm_compute; reflexivity).
    clearbody run. destruct run as [e|[[] st']]; [discriminate|]. exists st'.
    by rewrite andb_true_iff, !bool_decide_eq_true in Hr. }
  destruct H as (st' & Hrun & Hd & Hn). exists st'. split; [exact Hrun|]. clear Hrun run. split; [vm_compute; reflexivity|].
  destruct (d_dtags st' !! 33) as [d|] eqn:Ed; [|done]. injection Hd as Hd.
  intros k. induction k as [|k IH]; [done|]. cbn [hashtags__walk Z.eqb].
  dstep (load_dtag_run _ _ _ Ed). rewrite Hd. cbn [Z.eqb Pos.eqb].
  assert (Hl : HList.peek (d_hash st') (HList.c_next 33) = Some 33) by exact Hn.
  by dstep (on_hash_read (HList.load_cell (HList.c_next 33)) st' 33 (HList.load_cell_run _ _ _ Hl)).
Qed.
