(* ===== verification/DwDie.v ===== *)
(** * Reading debugging entries: the attributes of dwarf_loader.c

    The entries (DIEs) and their attributes are read by libdw, a library of
    elfutils; its functions are the members of the class [Libdw].  A function
    that returns zero for success and stores its result through a pointer is an
    optional result. *)
From S2P Require Import Prelude StdMap RbTree GoBuffer DUtil DwTypes Dwarves DwHash.
Local Open Scope list_scope.
Local Open Scope Z_scope.

(** ** libdw *)

Class Libdw := {
  Die : Type;
  Attribute : Type;
  dw_tag : Die -> Z;                       (* dwarf_tag *)
  dw_dieoffset : Die -> Z;                 (* dwarf_dieoffset *)
  dw_haschildren : Die -> bool;            (* dwarf_haschildren() != 0 *)
  dw_child : Die -> option Die;            (* dwarf_child *)
  dw_siblingof : Die -> option Die;        (* dwarf_siblingof *)
  dw_attr : Die -> Z -> option Attribute;  (* dwarf_attr *)
  dw_hasattr : Die -> Z -> bool;           (* dwarf_hasattr *)
  dw_whatform : Attribute -> Z;            (* dwarf_whatform and Dwarf_Attribute::form *)
  dw_formaddr : Attribute -> option Z;     (* dwarf_formaddr *)
  dw_formudata : Attribute -> option Z;    (* dwarf_formudata *)
  dw_formflag : Attribute -> option bool;  (* dwarf_formflag *)
  dw_formblock : Attribute -> option (list Z);        (* dwarf_formblock *)
  dw_formstring : Attribute -> option string;         (* dwarf_formstring *)
  dw_formref_die : Attribute -> option Die;           (* dwarf_formref_die *)
  dw_getlocation : Attribute -> option (list (Z * Z)); (* dwarf_getlocation: atoms and numbers *)
  dw_lowpc : Die -> option Z;              (* dwarf_lowpc *)
  dw_highpc : Die -> option Z;             (* dwarf_highpc *)
  dw_ranges : Die -> Z -> Z * option (Z * Z); (* dwarf_ranges: the result, and start and end if stored *)
  dw_decl_file : Die -> loc;               (* dwarf_decl_file: the address of a string *)
  dw_cstring : loc -> string;              (* what is at such an address *)
  dw_decl_line : Die -> option Z           (* dwarf_decl_line *)
}.

(** The rest of the machine: what the allocators and a failing [strdup] do, and
    the value of memory that was never written. *)
Class Machine := {
  m_alloc : dstate -> option loc;          (* a tag in the obstack of a [cu] *)
  m_alloc_dtag : dstate -> option loc;     (* a [dwarf_tag] in the obstack of a [dwarf_cu] *)
  m_alloc_bytes : dstate -> bool;          (* other memory in the obstack of a [cu] *)
  m_alloc_cu : dstate -> option loc;       (* [malloc] of a [cu] *)
  m_alloc_dcu : dstate -> loc;             (* a [dwarf_cu] on the stack *)
  m_realloc : list Ascii.ascii -> Z -> option (list Ascii.ascii);
  m_tsearch_ok : strings -> bool;
  m_grow_ok : Z -> bool;
  m_strdup_ok : string -> bool;
  m_unsupported_tag : loc;                 (* &unsupported_tag *)
  m_junk : Z;
  m_junk_node : rb_node
}.

(** ** Constants of the DWARF standard *)

Definition DW_AT_location : Z := 0x02.
Definition DW_AT_name : Z := 0x03.
Definition DW_AT_byte_size : Z := 0x0b.
Definition DW_AT_bit_offset : Z := 0x0c.
Definition DW_AT_bit_size : Z := 0x0d.
Definition DW_AT_language : Z := 0x13.
Definition DW_AT_import : Z := 0x18.
Definition DW_AT_const_value : Z := 0x1c.
Definition DW_AT_containing_type : Z := 0x1d.
Definition DW_AT_inline : Z := 0x20.
Definition DW_AT_upper_bound : Z := 0x2f.
Definition DW_AT_abstract_origin : Z := 0x31.
Definition DW_AT_accessibility : Z := 0x32.
Definition DW_AT_count : Z := 0x37.
Definition DW_AT_data_member_location : Z := 0x38.
Definition DW_AT_declaration : Z := 0x3c.
Definition DW_AT_encoding : Z := 0x3e.
Definition DW_AT_external : Z := 0x3f.
Definition DW_AT_specification : Z := 0x47.
Definition DW_AT_type : Z := 0x49.
Definition DW_AT_virtuality : Z := 0x4c.
Definition DW_AT_vtable_elem_location : Z := 0x4d.
Definition DW_AT_call_file : Z := 0x58.
Definition DW_AT_call_line : Z := 0x59.
Definition DW_AT_MIPS_linkage_name : Z := 0x2007.
Definition DW_AT_GNU_vector : Z := 0x2107.

Definition DW_FORM_addr : Z := 0x01.
Definition DW_FORM_data2 : Z := 0x05.
Definition DW_FORM_data4 : Z := 0x06.
Definition DW_FORM_data8 : Z := 0x07.
Definition DW_FORM_data1 : Z := 0x0b.
Definition DW_FORM_flag : Z := 0x0c.
Definition DW_FORM_sdata : Z := 0x0d.
Definition DW_FORM_udata : Z := 0x0f.
Definition DW_FORM_flag_present : Z := 0x19.
Definition DW_FORM_ref_sig8 : Z := 0x20.

Definition DW_OP_addr : Z := 0x03.
Definition DW_OP_reg1 : Z := 0x51.
Definition DW_OP_reg31 : Z := 0x6f.
Definition DW_OP_breg0 : Z := 0x70.
Definition DW_OP_breg31 : Z := 0x8f.
Definition DW_OP_fbreg : Z := 0x91.

Definition DW_ATE_boolean : Z := 0x02.
Definition DW_ATE_signed : Z := 0x05.

(** ** Attributes *)

Section Attributes.
Context `{Libdw}.

Definition attr_numeric (die : Die) (name : Z) : DM Z :=
  match dw_attr die name with
  | None => mret 0
  | Some attr =>
      let form := dw_whatform attr in
      if form =? DW_FORM_addr then mret (default 0 (dw_formaddr attr)) else
      if bool_decide (form ∈ [DW_FORM_data1; DW_FORM_data2; DW_FORM_data4; DW_FORM_data8;
                              DW_FORM_sdata; DW_FORM_udata])
      then mret (default 0 (dw_formudata attr)) else
      if bool_decide (form ∈ [DW_FORM_flag; DW_FORM_flag_present]) then
        mret (match dw_formflag attr with Some b => Z.b2z b | None => 0 end)
      else err (other_diag "DW_AT of an unexpected form");;; mret 0
  end.

Definition attr_offset (die : Die) (name : Z) : DM Z :=
  match dw_attr die name with
  | None => mret 0
  | Some attr =>
      if bool_decide (dw_whatform attr ∈ [DW_FORM_data1; DW_FORM_data2; DW_FORM_sdata; DW_FORM_udata])
      then mret (default 0 (dw_formudata attr)) else
      match dw_formblock attr with
      | Some data => dwarf_expr data
      | None => mret 0
      end
  end.

Definition attr_string (die : Die) (name : Z) : option string :=
  attr ← dw_attr die name; dw_formstring attr.

Definition attr_type (die : Die) (attr_name : Z) : dwarf_off_ref :=
  match dw_attr die attr_name with
  | None => null_ref
  | Some attr =>
      match dw_formref_die attr with
      | Some type_die => mkRef (dw_whatform attr =? DW_FORM_ref_sig8) (dw_dieoffset type_die)
      | None => null_ref
      end
  end.

Definition attr_location (die : Die) : option (list (Z * Z)) :=
  attr ← dw_attr die DW_AT_location; dw_getlocation attr.

Definition attr_upper_bound (die : Die) : Z :=
  match dw_attr die DW_AT_upper_bound with
  | Some attr => match dw_formudata attr with Some num => u64 (num + 1) | None => 0 end
  | None =>
      match dw_attr die DW_AT_count with
      | Some attr => default 0 (dw_formudata attr)
      | None => 0
      end
  end.

(** The kind of location, and the address stored for a global one. *)
Definition dwarf__location (die : Die) (addr : Z) : vlocation * Z :=
  match attr_location die with
  | None => (LOCATION_OPTIMIZED, addr)
  | Some [] => (LOCATION_UNKNOWN, addr)
  | Some ((atom, number) :: _) =>
      if atom =? DW_OP_addr then (LOCATION_GLOBAL, number) else
      if ((DW_OP_reg1 <=? atom) && (atom <=? DW_OP_reg31)) ||
         ((DW_OP_breg0 <=? atom) && (atom <=? DW_OP_breg31)) then (LOCATION_REGISTER, addr) else
      if atom =? DW_OP_fbreg then (LOCATION_LOCAL, addr) else (LOCATION_UNKNOWN, addr)
  end.

(** ** Messages *)

Definition warned_size : Z := DW_TAG_rvalue_reference_type.
Definition gnu_warned_size : Z := DW_TAG_GNU_formal_parameter_pack - DW_TAG_MIPS_loop.

(** [__tag__print_not_supported]: each tag is reported once.  An index past the
    end of its array is undefined. *)
Definition __tag__print_not_supported (tag : Z) : DM unit :=
  st ← get_st;
  let l := d_loader st in
  if tag <? DW_TAG_MIPS_loop then
    if negb (tag <? warned_size) then undef "dwarf_tags_warned out of bounds" else
    if decide (tag ∈ dwarf_tags_warned l) then mret tt else
    modify (set_loader (mkLoader (last_decl_file l) (last_decl_file_idx l)
      ({[ tag ]} ∪ dwarf_tags_warned l) (dwarf_gnu_tags_warned l)));;;
    err (tag_not_supported tag)
  else
    let t := tag - DW_TAG_MIPS_loop in
    if negb (t <? gnu_warned_size) then undef "dwarf_gnu_tags_warned out of bounds" else
    if decide (t ∈ dwarf_gnu_tags_warned l) then mret tt else
    modify (set_loader (mkLoader (last_decl_file l) (last_decl_file_idx l)
      (dwarf_tags_warned l) ({[ t ]} ∪ dwarf_gnu_tags_warned l)));;;
    err (tag_not_supported tag).

Definition __cu__tag_not_handled (die : Die) : DM unit :=
  err (tag_not_handled (dw_tag die) (dw_dieoffset die)).

End Attributes.
