(* ===== verification/DwLoader.v ===== *)
(** * Objects for debugging entries: the constructors of dwarf_loader.c

    Every constructor allocates a [dwarf_tag] and an object that point to each
    other and fills them from the attributes of the entry.  A field that the
    constructor leaves alone has the value the memory had. *)
From S2P Require Import Prelude StdMap RbTree GoBuffer DUtil DwTypes Dwarves DwClass DwUnits DwHash DwDie.
Local Open Scope list_scope.
Local Open Scope Z_scope.

Section Constructors.
Context `{Libdw} `{Machine}.

(** ** Allocation *)

Definition set_dcu_obstack (l : list loc) (dcu : dwarf_cu) : dwarf_cu :=
  mkDcu l (dcu_cu dcu) (dcu_type_unit dcu).

(** [obstack_zalloc] of a [dwarf_tag], with room for a specification or not. *)
Definition zalloc_dtag (dcu : loc) (spec : bool) : DM loc :=
  st ← get_st;
  match m_alloc_dtag st with
  | None => mret 0
  | Some p =>
      d ← load_dcu dcu;
      store_dcu dcu (set_dcu_obstack (p :: dcu_obstack d) d);;;
      store_dtag p (mkDtag null_ref 0 null_ref 0 0 0 0 (if spec then Some null_ref else None));;;
      upd_hash (zero_node p);;;
      mret p
  end.

(** An object whose structure starts with a tag; [b] is the rest. *)
Definition __tag__alloc (dcu : loc) (b : body) (spec : bool) : DM loc :=
  dtag ← zalloc_dtag dcu spec;
  if dtag =? 0 then mret 0 else
  d ← load_dcu dcu;
  tag ← obstack_alloc m_alloc m_junk_node (dcu_cu d) (mkObj (mkTag Garbage 0 (u16 m_junk) false dtag) b);
  if tag =? 0 then mret 0 else
  upd_dtag dtag (set_dt_tag tag);;; mret tag.

Definition tag__alloc (c : loc) (b : body) : DM loc :=
  cu ← load_cu c; __tag__alloc (cu_priv cu) b false.
Definition tag__alloc_with_spec (c : loc) (b : body) : DM loc :=
  cu ← load_cu c; __tag__alloc (cu_priv cu) b true.

Definition add_string (s : option string) : DM strings_t := fun st =>
  match strings__add m_realloc m_tsearch_ok s (d_strings st) with
  | inl e => inl e
  | inr (i, strs) => inr (i, set_dstrings strs st)
  end.

(** The string at an address, [NULL] included. *)
Definition string_at (p : loc) : option string := if p =? 0 then None else Some (dw_cstring p).

(** ** [tag__init] *)

Definition init_decl (dtag : loc) (die : Die) : DM unit :=
  let decl_file := dw_decl_file die in
  st ← get_st;
  (if negb (decl_file =? last_decl_file (d_loader st)) then
     idx ← add_string (string_at decl_file);
     modify (fun st => set_loader (mkLoader decl_file (u32 idx) (dwarf_tags_warned (d_loader st))
       (dwarf_gnu_tags_warned (d_loader st))) st)
   else mret tt);;;
  st ← get_st;
  upd_dtag dtag (set_dt_decl (last_decl_file_idx (d_loader st)) (u16 (default m_junk (dw_decl_line die)))).

Definition is_import (tag : Z) : bool :=
  (tag =? DW_TAG_imported_module) || (tag =? DW_TAG_imported_declaration).

Definition tag__init (p c : loc) (die : Die) : DM unit :=
  t ← load_tag p;
  upd_tag p (fun t => mkTag (node t) (tag_type t) (u16 (dw_tag die)) (top_level t) (priv t));;;
  let ty := attr_type die (if is_import (u16 (dw_tag die)) then DW_AT_import else DW_AT_type) in
  upd_dtag (priv t) (set_dt_ids ty (dw_dieoffset die) (attr_type die DW_AT_abstract_origin));;;
  cu ← load_cu c;
  (if cu_extra_dbg_info cu then init_decl (priv t) die else mret tt);;;
  upd_tag p (fun t => mkTag Unlinked (tag_type t) (tag_tag t) (top_level t) (priv t)).

(** The constructors allocate, and initialise what they got. *)
Definition new_tag (alloc : DM loc) (init : loc -> DM unit) : DM loc :=
  p ← alloc; if p =? 0 then mret 0 else init p;;; mret p.
Definition set_obj (p : loc) (b : body) : DM unit := upd_body p (fun _ => Some b).

Definition tag__new (die : Die) (c : loc) : DM loc :=
  new_tag (tag__alloc c BTag) (fun p => tag__init p c die).

Definition ptr_to_member_type__new (die : Die) (c : loc) : DM loc :=
  new_tag (tag__alloc c (BPtrToMember (u16 m_junk))) (fun ptr =>
    tag__init ptr c die;;;
    t ← load_tag ptr;
    upd_dtag (priv t) (set_dt_containing_type (attr_type die DW_AT_containing_type))).

Definition base_type__new (die : Die) (c : loc) : DM loc :=
  let float_type := Z.land m_junk 15 in
  new_tag (tag__alloc c (BBaseType (mkBase 0 0 false false false false float_type))) (fun bt =>
    tag__init bt c die;;;
    name ← add_string (attr_string die DW_AT_name);
    size ← attr_numeric die DW_AT_byte_size;
    encoding ← attr_numeric die DW_AT_encoding;
    set_obj bt (BBaseType (mkBase name (u16 (u64 (size * 8))) true (encoding =? DW_ATE_signed)
      (encoding =? DW_ATE_boolean) false float_type))).

Definition array_type__new (die : Die) (c : loc) : DM loc :=
  new_tag (tag__alloc c (BArrayType (mkArray [] 0 false))) (fun at_ =>
    tag__init at_ c die;;;
    set_obj at_ (BArrayType (mkArray [] 0 (dw_hasattr die DW_AT_GNU_vector)))).

Definition blank_ns : namespace := mkNs 0 0 false None (Tags []).
Definition blank_type : type := mkType blank_ns 0 0 0 0.

Definition namespace__init (space : loc) (die : Die) (c : loc) : DM unit :=
  tag__init space c die;;;
  name ← add_string (attr_string die DW_AT_name);
  upd_body space (set_ns (fun _ => mkNs name 0 false None (Tags []))).

Definition namespace__new (die : Die) (c : loc) : DM loc :=
  new_tag (tag__alloc c (BNamespace blank_ns)) (fun space => namespace__init space die c).

Definition type__init (ty : loc) (die : Die) (c : loc) : DM unit :=
  namespace__init ty die c;;;
  size ← attr_numeric die DW_AT_byte_size;
  declaration ← attr_numeric die DW_AT_declaration;
  t ← load_tag ty;
  dwarf_tag__set_spec (priv t) (attr_type die DW_AT_specification);;;
  upd_body ty (set_type (fun t => mkType (ty_ns t) (u32 size) 0 0 (u8 declaration))).

Definition type__new (die : Die) (c : loc) : DM loc :=
  new_tag (tag__alloc_with_spec c (BType blank_type)) (fun ty => type__init ty die c).

Definition enumerator__new (die : Die) (c : loc) : DM loc :=
  new_tag (tag__alloc c (BEnumerator 0 0)) (fun enumerator =>
    tag__init enumerator c die;;;
    name ← add_string (attr_string die DW_AT_name);
    value ← attr_numeric die DW_AT_const_value;
    set_obj enumerator (BEnumerator name (u32 value))).

Definition variable__new (die : Die) (c : loc) : DM loc :=
  new_tag (tag__alloc c (BVariable (mkVar 0 0 false false LOCATION_UNKNOWN))) (fun var =>
    tag__init var c die;;;
    name ← add_string (attr_string die DW_AT_name);
    let external := dw_hasattr die DW_AT_external in
    let declaration := dw_hasattr die DW_AT_declaration in
    cu ← load_cu c;
    let '(location, addr) :=
      if negb declaration && cu_has_addr_info cu then dwarf__location die 0 else (LOCATION_UNKNOWN, 0) in
    set_obj var (BVariable (mkVar addr name external declaration location))).

Definition class_member__new (die : Die) (c : loc) (in_union : bool) : DM loc :=
  let bit_size := u32 m_junk in
  new_tag (tag__alloc c (BClassMember (mkMember 0 0 bit_size 0 0 0 0 0 false 0 false 0 0 0))) (fun member =>
    tag__init member c die;;;
    name ← add_string (attr_string die DW_AT_name);
    let is_static := negb in_union && negb (dw_hasattr die DW_AT_data_member_location) in
    const_value ← attr_numeric die DW_AT_const_value;
    byte_offset ← attr_offset die DW_AT_data_member_location;
    bitfield_offset ← attr_numeric die DW_AT_bit_offset;
    bitfield_size ← attr_numeric die DW_AT_bit_size;
    accessibility ← attr_numeric die DW_AT_accessibility;
    virtuality ← attr_numeric die DW_AT_virtuality;
    set_obj member (BClassMember (mkMember name (u32 (u32 (u32 byte_offset * 8) + u8 bitfield_offset))
      bit_size (u32 byte_offset) 0 (u8 bitfield_offset) (u8 bitfield_size) 0 false (u64 const_value)
      is_static (Z.land accessibility 3) (Z.land virtuality 3) 0))).

Definition parameter__new (die : Die) (c : loc) : DM loc :=
  new_tag (tag__alloc c (BParameter 0)) (fun parm =>
    tag__init parm c die;;;
    name ← add_string (attr_string die DW_AT_name);
    set_obj parm (BParameter name)).

(** The loop over [dwarf_ranges], with the address, the size and the end so far. *)
Fixpoint ranges_loop (n : nat) (die : Die) (offset addr size high_pc : Z) : DM (Z * Z * Z) :=
  match n with
  | O => raise out_of_fuel
  | S n =>
      let '(offset, stored) := dw_ranges die offset in
      let high_pc := match stored with Some (_, e) => e | None => high_pc end in
      if offset <=? 0 then mret (addr, size, high_pc) else
      start ← must "range without a start" (fst <$> stored);
      ranges_loop n die offset (if addr =? 0 then start else addr)
        (u64 (size + (high_pc - start))) high_pc
  end.

(** The end of an expansion is read with [dwarf_lowpc] as well. *)
Definition inline_expansion__new (n : nat) (die : Die) (c : loc) : DM loc :=
  new_tag (tag__alloc c (BInlineExpansion (mkInline 0 None 0))) (fun exp =>
    t ← load_tag exp;
    tag__init exp c die;;;
    file ← add_string (attr_string die DW_AT_call_file);
    line ← attr_numeric die DW_AT_call_line;
    upd_dtag (priv t) (set_dt_decl file (u16 line));;;
    upd_dtag (priv t) (set_dt_type (attr_type die DW_AT_abstract_origin));;;
    cu ← load_cu c;
    if negb (cu_has_addr_info cu) then set_obj exp (BInlineExpansion (mkInline 0 None 0)) else
    let addr := default 0 (dw_lowpc die) in
    let high_pc := default 0 (dw_lowpc die) in
    let size := u64 (high_pc - addr) in
    '(addr, size, high_pc) ←
      (if size =? 0 then ranges_loop n die 0 addr size high_pc else mret (addr, size, high_pc));
    set_obj exp (BInlineExpansion (mkInline addr (Some size) high_pc))).

Definition label__new (die : Die) (c : loc) : DM loc :=
  new_tag (tag__alloc c (BLabel 0 0)) (fun label =>
    tag__init label c die;;;
    name ← add_string (attr_string die DW_AT_name);
    cu ← load_cu c;
    set_obj label (BLabel (if cu_has_addr_info cu then default 0 (dw_lowpc die) else 0) name)).

Definition class__new (die : Die) (c : loc) : DM loc :=
  new_tag (tag__alloc_with_spec c (BClass (mkClass blank_type [] 0 0 0 0 0))) (fun class =>
    type__init class die c;;;
    upd_body class (set_class (fun k => mkClass (cl_type k) [] 0 0 0 0 0))).

Definition blank_lexblock : lexblock := mkLex 0 [] 0 0 0 0 0 0.

Definition lexblock__init (block c : loc) (die : Die) : DM unit :=
  cu ← load_cu c;
  let '(addr, size) :=
    match (if cu_has_addr_info cu then dw_lowpc die else None) with
    | None => (0, 0)
    | Some addr =>
        match dw_highpc die with
        | None => (addr, 0)
        | Some high_pc => (addr, u32 (high_pc - addr))
        end
    end in
  upd_body block (set_lexblock (fun _ => mkLex addr [] size 0 0 0 0 0)).

Definition lexblock__new (die : Die) (c : loc) : DM loc :=
  new_tag (tag__alloc c (BLexblock blank_lexblock)) (fun block =>
    tag__init block c die;;; lexblock__init block c die).

Definition ftype__init (ftype : loc) (die : Die) (c : loc) : DM unit :=
  let tag := u16 (dw_tag die) in
  (if (tag =? DW_TAG_subprogram) || (tag =? DW_TAG_subroutine_type) then mret tt
   else raise (exit_with 134));;;
  tag__init ftype c die;;;
  upd_body ftype (set_ftype (fun _ => mkFtype [] 0 false)).

Definition ftype__new (die : Die) (c : loc) : DM loc :=
  new_tag (tag__alloc c (BFtype (mkFtype [] 0 false))) (fun ftype => ftype__init ftype die c).

Definition function__new (die : Die) (c : loc) : DM loc :=
  new_tag (tag__alloc_with_spec c (BFunction (mkFun (mkFtype [] 0 false) blank_lexblock 0 0 0 0 0 false
    false 0 0 0))) (fun func =>
    ftype__init func die c;;;
    lexblock__init func c die;;;
    name ← add_string (attr_string die DW_AT_name);
    linkage_name ← add_string (attr_string die DW_AT_MIPS_linkage_name);
    inlined ← attr_numeric die DW_AT_inline;
    let external := dw_hasattr die DW_AT_external in
    let abstract_origin := dw_hasattr die DW_AT_abstract_origin in
    t ← load_tag func;
    dwarf_tag__set_spec (priv t) (attr_type die DW_AT_specification);;;
    accessibility ← attr_numeric die DW_AT_accessibility;
    virtuality ← attr_numeric die DW_AT_virtuality;
    vtable_entry ← (if dw_hasattr die DW_AT_vtable_elem_location
                    then s32 <$> attr_offset die DW_AT_vtable_elem_location else mret (-1));
    upd_body func (fun b =>
      match b with
      | BFunction f => Some (BFunction (mkFun (fn_proto f) (fn_lexblock f) name linkage_name 0 0
          (Z.land inlined 3) abstract_origin external (Z.land accessibility 3) (Z.land virtuality 3)
          vtable_entry))
      | _ => None
      end)).

End Constructors.
