(* ===== verification/DwProcess.v ===== *)
(** * From debugging entries to tags: the [die__process_*] of dwarf_loader.c

    The functions that walk the tree of debugging entries call each other: an
    entry is processed by its tag, and the entries below a class, a namespace, a
    function or a block by loops over siblings.  The recursion goes through the
    record [processors]; [processors_at] ties it with one unit of fuel for each
    call and each sibling. *)
From S2P Require Import Prelude StdMap RbTree GoBuffer DUtil DwTypes Dwarves DwClass DwUnits DwHash DwDie DwLoader.
Local Open Scope list_scope.
Local Open Scope Z_scope.

Section Process.
Context `{Libdw} `{Machine}.

(** [do { .. } while (dwarf_siblingof(die, die) == 0)]: the body yields what is
    returned early, and the loop zero at its end. *)
Fixpoint for_each_sibling (n : nat) (f : Die -> DM (option Z)) (die : Die) : DM Z :=
  match n with
  | O => raise out_of_fuel
  | S n =>
      r ← f die;
      match r with
      | Some rc => mret rc
      | None =>
          match dw_siblingof die with
          | Some die => for_each_sibling n f die
          | None => mret 0
          end
      end
  end.

(** [dwarf_haschildren(die) != 0 && dwarf_child(die, &child) == 0] *)
Definition first_child (die : Die) : option Die := if dw_haschildren die then dw_child die else None.

Definition set_small_id (tag : loc) (id : Z) : DM unit :=
  t ← load_tag tag; upd_dtag (priv t) (set_dt_small_id id).

(** The label [hash:] of the loops. *)
Definition hash_tag (c tag : loc) (id : Z) : DM (option Z) :=
  cu__hash c tag;;; set_small_id tag id;;; mret None.

Section Fuel.
Context (n : nat).

(** Adding a tag with [cu__table_add_tag] or [cu__add_tag] and hashing it, or
    deleting it when that fails. *)
Definition table_and_hash (c tag : loc) : DM (option Z) :=
  r ← cu__table_add_tag m_grow_ok n c tag (-1);
  if r.1 <? 0 then tag__delete n tag c;;; mret (Some (- ENOMEM)) else hash_tag c tag r.2.
Definition add_and_hash (c tag : loc) : DM (option Z) :=
  r ← cu__add_tag m_grow_ok n c tag (-1);
  if r.1 <? 0 then tag__delete n tag c;;; mret (Some (- ENOMEM)) else hash_tag c tag r.2.

(** ** Entries without a recursion *)

Definition die__create_new_tag (die : Die) (c : loc) : DM loc :=
  tag ← tag__new die c;
  if tag =? 0 then mret 0 else
  t ← load_tag tag;
  (if dw_haschildren die then err (with_children (tag_tag t)) else mret tt);;;
  mret tag.

Definition die__create_new_ptr_to_member_type (die : Die) (c : loc) : DM loc :=
  ptr_to_member_type__new die c.

Definition die__create_new_base_type (die : Die) (c : loc) : DM loc :=
  base ← base_type__new die c;
  if base =? 0 then mret 0 else
  (if dw_haschildren die then err (with_children DW_TAG_base_type) else mret tt);;;
  mret base.

Definition die__create_new_typedef (die : Die) (c : loc) : DM loc :=
  tdef ← type__new die c;
  if tdef =? 0 then mret 0 else
  (if dw_haschildren die then
     t ← load_tag tdef; _ ← load_dtag (priv t); err (with_children DW_TAG_typedef)
   else mret tt);;;
  mret tdef.

Definition max_dimensions : nat := 64.

(** The entries of [nr_entries], which has room for [max_dimensions]. *)
Fixpoint array_dims (k : nat) (die : Die) (nr_entries : list Z) : DM (list Z) :=
  match k with
  | O => raise out_of_fuel
  | S k =>
      let next nr_entries :=
        match dw_siblingof die with Some die => array_dims k die nr_entries | None => mret nr_entries end in
      if u16 (dw_tag die) =? DW_TAG_subrange_type then
        let nr_entries := nr_entries ++ [u32 (attr_upper_bound die)] in
        if bool_decide (length nr_entries = max_dimensions) then
          err (other_diag "too many dimensions");;; mret nr_entries
        else next nr_entries
      else __cu__tag_not_handled die;;; next nr_entries
  end.

Definition die__create_new_array (die : Die) (c : loc) : DM loc :=
  array ← array_type__new die c;
  if array =? 0 then mret 0 else
  match first_child die with
  | None => mret array
  | Some child =>
      nr_entries ← array_dims n child [];
      at_ ← cast tag__array_type array;
      st ← get_st;
      if m_alloc_bytes st then
        set_obj array (BArrayType (mkArray nr_entries (u8 (Z.of_nat (length nr_entries)))
          (at_is_vector at_)));;;
        mret array
      else obstack_free c array;;; mret 0
  end.

Definition die__create_new_parameter (die : Die) (ftype lexblock c : loc) : DM loc :=
  parm ← parameter__new die c;
  if parm =? 0 then mret 0 else
  (if negb (ftype =? 0) then ftype__add_parameter ftype parm else lexblock__add_tag lexblock parm);;;
  mret parm.

Definition die__create_new_label (die : Die) (lexblock c : loc) : DM loc :=
  label ← label__new die c;
  if label =? 0 then mret 0 else lexblock__add_label lexblock label;;; mret label.

Definition die__create_new_variable (die : Die) (c : loc) : DM loc := variable__new die c.

Definition die__create_new_enumeration (die : Die) (c : loc) : DM loc :=
  enumeration ← type__new die c;
  if enumeration =? 0 then mret 0 else
  upd_body enumeration (set_type (fun t =>
    mkType (ty_ns t) (if ty_size t =? 0 then 32 else u32 (ty_size t * 8)) (ty_nr_static_members t)
      (ty_nr_members t) (ty_declaration t)));;;
  match first_child die with
  | None => mret enumeration
  | Some child =>
      rc ← for_each_sibling n (fun die =>
        if negb (u16 (dw_tag die) =? DW_TAG_enumerator) then __cu__tag_not_handled die;;; mret None else
        enumerator ← enumerator__new die c;
        if enumerator =? 0 then mret (Some (- ENOMEM)) else
        enumeration__add enumeration enumerator;;; mret None) child;
      if rc =? 0 then mret enumeration else enumeration__delete enumeration c;;; mret 0
  end.

(** ** The recursive entries *)

Record processors := mkProcessors {
  p_tag : Die -> loc -> bool -> DM loc;           (* __die__process_tag *)
  p_function : Die -> loc -> loc -> loc -> DM Z;  (* die__process_function *)
  p_inline : Die -> loc -> loc -> DM Z            (* die__process_inline_expansion *)
}.
Context (rec : processors).

(** One entry of the loop over a function type. *)
Definition subroutine_entry (ftype c : loc) (die : Die) : DM (option Z) :=
  let dtag := dw_tag die in
  if dtag =? DW_TAG_formal_parameter then
    tag ← die__create_new_parameter die ftype 0 c;
    if tag =? 0 then mret (Some (- ENOMEM)) else table_and_hash c tag
  else if dtag =? DW_TAG_unspecified_parameters then
    upd_body ftype (set_ftype (fun f => mkFtype (ft_parms f) (ft_nr_parms f) true));;; mret None
  else
    tag ← p_tag rec die c false;
    if tag =? 0 then mret (Some (- ENOMEM)) else add_and_hash c tag.
Definition die__create_new_subroutine_type (die : Die) (c : loc) : DM loc :=
  ftype ← ftype__new die c;
  if ftype =? 0 then mret 0 else
  match first_child die with
  | None => mret ftype
  | Some child =>
      rc ← for_each_sibling n (subroutine_entry ftype c) child;
      if rc =? 0 then mret ftype else ftype__delete ftype c;;; mret 0
  end.

Definition not_supported_in_class (dtag : Z) : bool :=
  bool_decide (dtag ∈ [DW_TAG_GNU_template_template_param; DW_TAG_GNU_template_parameter_pack;
                       DW_TAG_template_type_parameter; DW_TAG_template_value_parameter]).

Definition die__process_class (die : Die) (class c : loc) : DM Z :=
  t ← load_tag class;
  let is_union := tag__is_union t in
  for_each_sibling n (fun die =>
    let dtag := dw_tag die in
    if not_supported_in_class dtag then __tag__print_not_supported dtag;;; mret None else
    if (dtag =? DW_TAG_inheritance) || (dtag =? DW_TAG_member) then
      member ← class_member__new die c is_union;
      if member =? 0 then mret (Some (- ENOMEM)) else
      cu ← load_cu c;
      failed ←
        (if cu__is_c_plus_plus cu then
           r ← cu__table_add_tag m_grow_ok n c member (-1);
           if r.1 <? 0 then class_member__delete member c;;; mret true
           else set_small_id member r.2;;; mret false
         else mret false);
      if (failed : bool) then mret (Some (- ENOMEM)) else
      type__add_member class member;;; cu__hash c member;;; mret None
    else
      tag ← p_tag rec die c false;
      if tag =? 0 then mret (Some (- ENOMEM)) else
      r ← cu__table_add_tag m_grow_ok n c tag (-1);
      if r.1 <? 0 then tag__delete n tag c;;; mret (Some (- ENOMEM)) else
      set_small_id tag r.2;;;
      namespace__add_tag class tag;;;
      cu__hash c tag;;;
      t ← load_tag tag;
      (if tag__is_function t then
         fself ← cast tag__function tag;
         if negb (fn_vtable_entry fself =? -1) then class__add_vtable_entry class tag else mret tt
       else mret tt);;;
      mret None) die.

Definition die__process_namespace (die : Die) (space c : loc) : DM Z :=
  for_each_sibling n (fun die =>
    tag ← p_tag rec die c false;
    if tag =? 0 then mret (Some (- ENOMEM)) else
    r ← cu__table_add_tag m_grow_ok n c tag (-1);
    if r.1 <? 0 then tag__delete n tag c;;; mret (Some (- ENOMEM)) else
    set_small_id tag r.2;;;
    namespace__add_tag space tag;;;
    cu__hash c tag;;;
    mret None) die.

Definition die__create_new_class (die : Die) (c : loc) : DM loc :=
  class ← class__new die c;
  if class =? 0 then mret 0 else
  match first_child die with
  | None => mret class
  | Some child =>
      rc ← die__process_class child class c;
      if rc =? 0 then mret class else class__delete class c;;; mret 0
  end.

Definition die__create_new_namespace (die : Die) (c : loc) : DM loc :=
  space ← namespace__new die c;
  if space =? 0 then mret 0 else
  match first_child die with
  | None => mret space
  | Some child =>
      rc ← die__process_namespace child space c;
      if rc =? 0 then mret space else namespace__delete n space c;;; mret 0
  end.

Definition die__create_new_union (die : Die) (c : loc) : DM loc :=
  utype ← type__new die c;
  if utype =? 0 then mret 0 else
  match first_child die with
  | None => mret utype
  | Some child =>
      rc ← die__process_class child utype c;
      if rc =? 0 then mret utype else type__delete utype c;;; mret 0
  end.

Definition die__create_new_lexblock (die : Die) (c father : loc) : DM Z :=
  lexblock ← lexblock__new die c;
  rc ← (if lexblock =? 0 then mret 0 else p_function rec die 0 lexblock c);
  if negb (rc =? 0) then lexblock__delete n lexblock c;;; mret (- ENOMEM) else
  (if negb (father =? 0) then lexblock__add_lexblock father lexblock else mret tt);;;
  mret 0.

Definition die__create_new_inline_expansion (die : Die) (lexblock c : loc) : DM loc :=
  exp ← inline_expansion__new n die c;
  if exp =? 0 then mret 0 else
  rc ← p_inline rec die lexblock c;
  if negb (rc =? 0) then obstack_free c exp;;; mret 0 else
  (if negb (lexblock =? 0) then lexblock__add_inline_expansion lexblock exp else mret tt);;;
  mret exp.

Definition is_call_site (dtag : Z) : bool :=
  (dtag =? DW_TAG_GNU_call_site) || (dtag =? DW_TAG_GNU_call_site_parameter).

(** The [default] of the two loops below. *)
Definition process_other (die : Die) (c : loc) : DM (option Z) :=
  tag ← p_tag rec die c false;
  if tag =? 0 then mret (Some (- ENOMEM)) else
  if tag =? m_unsupported_tag then mret None else add_and_hash c tag.

(** One entry of the loop over an inline expansion. *)
Definition inline_entry (lexblock c : loc) (die : Die) : DM (option Z) :=
  let dtag := dw_tag die in
  if is_call_site dtag then __tag__print_not_supported dtag;;; mret None else
  if dtag =? DW_TAG_lexical_block then
    rc ← die__create_new_lexblock die c lexblock;
    mret (if rc =? 0 then None else Some (- ENOMEM))
  else if dtag =? DW_TAG_formal_parameter then mret None
  else if dtag =? DW_TAG_inlined_subroutine then
    tag ← die__create_new_inline_expansion die lexblock c;
    if tag =? 0 then mret (Some (- ENOMEM)) else table_and_hash c tag
  else if dtag =? DW_TAG_label then
    tag ← die__create_new_label die lexblock c;
    if tag =? 0 then mret (Some (- ENOMEM)) else table_and_hash c tag
  else process_other die c.
Definition die__process_inline_expansion (die : Die) (lexblock c : loc) : DM Z :=
  match first_child die with
  | None => mret 0
  | Some child => for_each_sibling n (inline_entry lexblock c) child
  end.

(** One entry of the loop over a function. *)
Definition function_entry (ftype lexblock c : loc) (die : Die) : DM (option Z) :=
  let dtag := dw_tag die in
  if is_call_site dtag || (dtag =? DW_TAG_template_type_parameter) ||
     (dtag =? DW_TAG_template_value_parameter)
  then __tag__print_not_supported dtag;;; mret None
  else if dtag =? DW_TAG_formal_parameter then
    tag ← die__create_new_parameter die ftype lexblock c;
    if tag =? 0 then mret (Some (- ENOMEM)) else table_and_hash c tag
  else if dtag =? DW_TAG_variable then
    tag ← die__create_new_variable die c;
    if tag =? 0 then mret (Some (- ENOMEM)) else
    lexblock__add_variable lexblock tag;;; table_and_hash c tag
  else if dtag =? DW_TAG_unspecified_parameters then
    (if negb (ftype =? 0)
     then upd_body ftype (set_ftype (fun f => mkFtype (ft_parms f) (ft_nr_parms f) true))
     else mret tt);;; mret None
  else if dtag =? DW_TAG_label then
    tag ← die__create_new_label die lexblock c;
    if tag =? 0 then mret (Some (- ENOMEM)) else table_and_hash c tag
  else if dtag =? DW_TAG_inlined_subroutine then
    tag ← die__create_new_inline_expansion die lexblock c;
    if tag =? 0 then mret (Some (- ENOMEM)) else table_and_hash c tag
  else if dtag =? DW_TAG_lexical_block then
    rc ← die__create_new_lexblock die c lexblock;
    mret (if rc =? 0 then None else Some (- ENOMEM))
  else process_other die c.
Definition die__process_function (die : Die) (ftype lexblock c : loc) : DM Z :=
  match first_child die with
  | None => mret 0
  | Some child => for_each_sibling n (function_entry ftype lexblock c) child
  end.

Definition die__create_new_function (die : Die) (c : loc) : DM loc :=
  function ← function__new die c;
  if function =? 0 then mret 0 else
  rc ← die__process_function die function function c;
  if rc =? 0 then mret function else function__delete n function c;;; mret 0.

Definition __die__process_tag (die : Die) (c : loc) (top : bool) : DM loc :=
  let dtag := dw_tag die in
  let one_of l := bool_decide (dtag ∈ l) in
  tag ←
    (if dtag =? DW_TAG_array_type then die__create_new_array die c
     else if dtag =? DW_TAG_base_type then die__create_new_base_type die c
     else if one_of [DW_TAG_const_type; DW_TAG_imported_declaration; DW_TAG_imported_module;
                 DW_TAG_pointer_type; DW_TAG_reference_type; DW_TAG_volatile_type]
     then die__create_new_tag die c
     else if dtag =? DW_TAG_ptr_to_member_type then die__create_new_ptr_to_member_type die c
     else if dtag =? DW_TAG_enumeration_type then die__create_new_enumeration die c
     else if dtag =? DW_TAG_namespace then die__create_new_namespace die c
     else if one_of [DW_TAG_class_type; DW_TAG_interface_type; DW_TAG_structure_type]
     then die__create_new_class die c
     else if dtag =? DW_TAG_subprogram then die__create_new_function die c
     else if dtag =? DW_TAG_subroutine_type then die__create_new_subroutine_type die c
     else if dtag =? DW_TAG_typedef then die__create_new_typedef die c
     else if dtag =? DW_TAG_union_type then die__create_new_union die c
     else if dtag =? DW_TAG_variable then die__create_new_variable die c
     else __cu__tag_not_handled die;;; mret m_unsupported_tag);
  (if negb (tag =? 0)
   then upd_tag tag (fun t => mkTag (node t) (tag_type t) (tag_tag t) top (priv t)) else mret tt);;;
  mret tag.

End Fuel.

Fixpoint processors_at (n : nat) : processors :=
  match n with
  | O => mkProcessors (fun _ _ _ => raise out_of_fuel) (fun _ _ _ _ => raise out_of_fuel)
           (fun _ _ _ => raise out_of_fuel)
  | S n =>
      let callees := processors_at n in
      mkProcessors (__die__process_tag n callees) (die__process_function n callees)
        (die__process_inline_expansion n callees)
  end.

(** One entry of the loop over a unit; what [cu__add_tag] returns is not looked at. *)
Definition unit_entry (n : nat) (c : loc) (die : Die) : DM (option Z) :=
  tag ← p_tag (processors_at n) die c true;
  if tag =? 0 then mret (Some (- ENOMEM)) else
  if tag =? m_unsupported_tag then mret None else
  r ← cu__add_tag m_grow_ok n c tag (-1);
  hash_tag c tag r.2.
Definition die__process_unit (n : nat) (die : Die) (c : loc) : DM Z := for_each_sibling n (unit_entry n c) die.

End Process.
