(* ===== verification/DwRecode.v ===== *)
(** * From references to ids: the recoding of dwarf_loader.c

    When all entries of a unit have become tags, the references between them,
    which are offsets of entries, are replaced by the ids of the tags in the
    tables of the unit.  A bit field gets a type of its own size. *)
From S2P Require Import Prelude StdMap RbTree GoBuffer DUtil DwTypes Dwarves DwClass DwUnits DwHash DwDie DwLoader DwProcess.
Local Open Scope list_scope.
Local Open Scope Z_scope.

Section Recode.
Context `{Libdw} `{Machine}.

Definition set_tag_type (p : loc) (ty : Z) : DM unit :=
  upd_tag p (fun t => mkTag (node t) (u16 ty) (tag_tag t) (top_level t) (priv t)).

(** ** Bit fields *)

(** [tag__namespace(tag)->name] of any tag: the word after the [struct tag].
    Behind a plain tag it is whatever the obstack holds there. *)
Definition name_word (b : body) : strings_t :=
  match b with
  | BNamespace ns => ns_name ns
  | BType t => ns_name (ty_ns t)
  | BClass k => ns_name (ty_ns (cl_type k))
  | BBaseType bt => bt_name bt
  | BEnumerator name _ => name
  | BClassMember m => cm_name m
  | BParameter name => name
  | _ => u32 m_junk
  end.

(** A zeroed list head is one that no traversal may start from. *)
Definition zero_ns (name : strings_t) : namespace := mkNs name 0 false None (SharedTags 0).

Definition obstack_zalloc (c : loc) (t : tag) (b : body) : DM loc :=
  obstack_alloc m_alloc m_junk_node c (mkObj t b).

(** The [tag] of the type that a [dwarf_tag] refers to. *)
Definition find_type_tag (c : loc) (dtag : dwarf_tag) : DM loc :=
  cu ← load_cu c;
  dtype ← dwarf_cu__find_type_by_ref (cu_priv cu) (dt_type dtag);
  d ← load_dtag dtype; mret (dt_tag d).

(** The end of [tag__recode_dwarf_bitfield]. *)
Definition add_recoded (n : nat) (c recoded : loc) : DM Z :=
  if recoded =? 0 then mret (- ENOMEM) else
  r ← cu__add_tag m_grow_ok n c recoded (-1);
  if r.1 =? 0 then mret r.2 else obstack_free c recoded;;; mret (- ENOMEM).

Fixpoint tag__recode_dwarf_bitfield (n : nat) (p c : loc) (bit_size : Z) : DM Z :=
  match n with
  | O => raise out_of_fuel
  | S n =>
      o ← load_obj p;
      let t := o_tag o in
      let name := name_word (o_body o) in
      let zero ty tag top := mkTag Garbage ty tag top 0 in
      if (tag_tag t =? DW_TAG_typedef) || (tag_tag t =? DW_TAG_const_type) ||
         (tag_tag t =? DW_TAG_volatile_type) then
        d ← load_dtag (priv t);
        ty ← find_type_tag c d;
        rc ← tag__recode_dwarf_bitfield n ty c bit_size;
        let id := u16 rc in
        if id =? tag_type t then mret id else
        recoded ←
          (if tag_tag t =? DW_TAG_typedef
           then obstack_zalloc c (zero id DW_TAG_typedef false) (BType (mkType (zero_ns name) 0 0 0 0))
           else obstack_zalloc c (zero id DW_TAG_volatile_type false) BTag);
        add_recoded n c recoded
      else if tag_tag t =? DW_TAG_base_type then
        r ← cu__find_base_type_by_sname_and_size c name bit_size;
        match r with
        | Some (_, id) => mret id
        | None =>
            recoded ← obstack_zalloc c (zero 0 DW_TAG_base_type true)
              (BBaseType (mkBase name bit_size false false false false 0));
            add_recoded n c recoded
        end
      else if tag_tag t =? DW_TAG_enumeration_type then
        r ← cu__find_enumeration_by_sname_and_size c name bit_size;
        match r with
        | Some (_, id) => mret id
        | None =>
            alias ← cast tag__type p;
            recoded ← obstack_zalloc c (zero 0 DW_TAG_enumeration_type true)
              (BType (mkType (mkNs name 0 true None (SharedTags p)) bit_size 0 (ty_nr_members alias) 0));
            add_recoded n c recoded
        end
      else err (other_diag "bit field of an unexpected type");;; mret (- EINVAL)
  end.

Definition class_member__dwarf_recode_bitfield (n : nat) (member c : loc) : DM Z :=
  t ← load_tag member;
  m ← cast tag__class_member member;
  d ← load_dtag (priv t);
  ty ← find_type_tag c d;
  recoded_type_id ← tag__recode_dwarf_bitfield n ty c (cm_bitfield_size m);
  if recoded_type_id <? 0 then mret recoded_type_id else
  set_tag_type member recoded_type_id;;; mret 0.

(** ** References that are not found *)

Definition __tag__print_type_not_found (p : loc) : DM unit :=
  t ← load_tag p; d ← load_dtag (priv t);
  err (type_not_found (ref_off (dt_type d)) (dt_id d) (tag_tag t)).
Definition __tag__print_abstract_origin_not_found (p : loc) : DM unit :=
  t ← load_tag p; d ← load_dtag (priv t);
  err (abstract_origin_not_found (ref_off (dt_abstract_origin d)) (dt_id d) (tag_tag t)).

(** [check_type:] and [next:], with the [dwarf_tag] found. *)
Definition assign_type (p dtype : loc) : DM unit :=
  if dtype =? 0 then __tag__print_type_not_found p else
  d ← load_dtag dtype; set_tag_type p (dt_small_id d).

Definition recode_type (dcu p : loc) (ref : dwarf_off_ref) : DM unit :=
  dtype ← dwarf_cu__find_type_by_ref dcu ref; assign_type p dtype.

(** An import names a tag, or, if it is a declaration, possibly a type. *)
Definition recode_import_module (dcu p : loc) (ref : dwarf_off_ref) : DM unit :=
  dtype ← dwarf_cu__find_tag_by_ref dcu ref; assign_type p dtype.
Definition recode_import_declaration (dcu p : loc) (ref : dwarf_off_ref) : DM unit :=
  dtype ← dwarf_cu__find_tag_by_ref dcu ref;
  if negb (dtype =? 0) then assign_type p dtype else recode_type dcu p ref.

(** The tag of the abstract origin, once it is found, and its type. *)
Definition from_origin (dcu p : loc) (name : loc -> DM unit) : DM unit :=
  t ← load_tag p; d ← load_dtag (priv t);
  dtype ← dwarf_cu__find_tag_by_ref dcu (dt_abstract_origin d);
  if dtype =? 0 then __tag__print_abstract_origin_not_found p else
  dt ← load_dtag dtype;
  name (dt_tag dt);;;
  o ← load_tag (dt_tag dt); set_tag_type p (tag_type o).

Definition set_parameter_name (p origin : loc) : DM unit :=
  name ← cast tag__parameter origin;
  upd_body p (fun b => match b with BParameter _ => Some (BParameter name) | _ => None end).

(** ** Functions and blocks *)

Definition recode_parameter (dcu pos : loc) : DM unit :=
  t ← load_tag pos; d ← load_dtag (priv t);
  if ref_off (dt_type d) =? 0 then
    if ref_off (dt_abstract_origin d) =? 0 then set_tag_type pos 0
    else from_origin dcu pos (set_parameter_name pos)
  else recode_type dcu pos (dt_type d).

Definition ftype__recode_dwarf_types (p c : loc) : DM unit :=
  cu ← load_cu c;
  f ← cast tag__ftype p;
  iter_list (recode_parameter (cu_priv cu)) (ft_parms f).

Definition set_variable_name (p origin : loc) : DM unit :=
  v ← cast tag__variable origin;
  upd_body p (fun b => match b with
    | BVariable w => Some (BVariable (mkVar (var_addr w) (var_name v) (var_external w)
        (var_declaration w) (var_location w)))
    | _ => None end).

Definition recode_label (dcu pos : loc) : DM unit :=
  t ← load_tag pos; d ← load_dtag (priv t);
  l ← cast tag__label pos;
  if ref_off (dt_abstract_origin d) =? 0 then mret tt else
  dtype ← dwarf_cu__find_tag_by_ref dcu (dt_abstract_origin d);
  if dtype =? 0 then __tag__print_abstract_origin_not_found pos else
  dt ← load_dtag dtype;
  origin ← cast tag__label (dt_tag dt);
  set_obj pos (BLabel l.1 origin.2).

Fixpoint lexblock__recode_dwarf_types (n : nat) (block c : loc) : DM unit :=
  match n with
  | O => raise out_of_fuel
  | S n =>
      cu ← load_cu c;
      b ← cast lexblock_at block;
      let dcu := cu_priv cu in
      iter_list (fun pos =>
        t ← load_tag pos;
        if tag_tag t =? DW_TAG_lexical_block then lexblock__recode_dwarf_types n pos c else
        d ← load_dtag (priv t);
        if tag_tag t =? DW_TAG_inlined_subroutine then
          dtype ← dwarf_cu__find_tag_by_ref dcu (dt_type d);
          if dtype =? 0 then __tag__print_type_not_found pos else
          dt ← load_dtag dtype; ftype__recode_dwarf_types (dt_tag dt) c
        else if (tag_tag t =? DW_TAG_formal_parameter) && (ref_off (dt_type d) =? 0) then
          from_origin dcu pos (set_parameter_name pos)
        else if (tag_tag t =? DW_TAG_variable) && (ref_off (dt_type d) =? 0) then
          if ref_off (dt_abstract_origin d) =? 0 then mret tt
          else from_origin dcu pos (set_variable_name pos)
        else if tag_tag t =? DW_TAG_label then recode_label dcu pos
        else recode_type dcu pos (dt_type d)) (lb_tags b)
  end.

(** ** Namespaces and types *)

(** The [switch] for a tag of a namespace that is none itself. *)
Definition recode_in_namespace (n : nat) (c pos : loc) : DM (option unit) :=
  cu ← load_cu c;
  let dcu := cu_priv cu in
  t ← load_tag pos;
  bits ← (if tag_tag t =? DW_TAG_member
          then m ← cast tag__class_member pos; mret (cm_bitfield_size m) else mret 0);
  if negb (bits =? 0) then
    rc ← class_member__dwarf_recode_bitfield n pos c;
    mret (if rc =? 0 then None else Some tt)
  else
    (if (tag_tag t =? DW_TAG_subroutine_type) || (tag_tag t =? DW_TAG_subprogram)
     then ftype__recode_dwarf_types pos c else mret tt);;;
    d ← load_dtag (priv t);
    (if tag_tag t =? DW_TAG_imported_module then recode_import_module dcu pos (dt_type d)
     else if tag_tag t =? DW_TAG_imported_declaration then recode_import_declaration dcu pos (dt_type d)
     else if ref_off (dt_type d) =? 0 then mret tt
     else recode_type dcu pos (dt_type d));;;
    mret None.

Fixpoint namespace__recode_dwarf_types (n : nat) (p c : loc) : DM Z :=
  match n with
  | O => raise out_of_fuel
  | S n =>
      l ← type_tags p;
      r ← find_list (fun pos =>
        t ← load_tag pos;
        if tag__has_namespace t then
          rc ← namespace__recode_dwarf_types n pos c;
          mret (if rc =? 0 then None else Some tt)
        else recode_in_namespace n c pos) l;
      mret (match r with Some _ => -1 | None => 0 end)
  end.

Definition type__recode_dwarf_specification (p c : loc) : DM unit :=
  tg ← load_tag p;
  t ← cast tag__type p;
  d ← load_dtag (priv tg);
  specification ← dwarf_tag__spec d;
  if negb (ns_name (ty_ns t) =? 0) || (ref_off specification =? 0) then mret tt else
  cu ← load_cu c;
  dtype ← dwarf_cu__find_type_by_ref (cu_priv cu) specification;
  if dtype =? 0 then err (other_diag "no name for a class") else
  dt ← load_dtag dtype;
  o ← load_obj (dt_tag dt);
  upd_body p (set_ns (fun ns => mkNs (name_word (o_body o)) (ns_nr_tags ns) (ns_shared_tags ns)
    (ns_sname ns) (ns_tags ns))).

(** The name of a function that has none: that of its origin or specification.
    The result tells whether there is nothing to recode at all. *)
Definition recode_function_name (p c : loc) : DM bool :=
  tg ← load_tag p;
  f ← cast tag__function p;
  if negb (fn_name f =? 0) then mret false else
  d ← load_dtag (priv tg);
  specification ← dwarf_tag__spec d;
  if (ref_off (dt_abstract_origin d) =? 0) && (ref_off specification =? 0) then mret true else
  cu ← load_cu c;
  dtype ← dwarf_cu__find_tag_by_ref (cu_priv cu) (dt_abstract_origin d);
  dtype ← (if dtype =? 0 then dwarf_cu__find_tag_by_ref (cu_priv cu) specification else mret dtype);
  (if dtype =? 0 then err (other_diag "no name for a function") else
   dt ← load_dtag dtype;
   g ← cast tag__function (dt_tag dt);
   upd_body p (fun b => match b with
     | BFunction h => Some (BFunction (mkFun (fn_proto h) (fn_lexblock h) (fn_name g)
         (fn_linkage_name h) (fn_cu_total_size_inline_expansions h)
         (fn_cu_total_nr_inline_expansions h) (fn_inlined h) (fn_abstract_origin h) (fn_external h)
         (fn_accessibility h) (fn_virtuality h) (fn_vtable_entry h)))
     | _ => None end));;;
  mret false.

Definition recode_containing_type (p c : loc) : DM unit :=
  tg ← load_tag p;
  _ ← cast tag__ptr_to_member_type p;
  d ← load_dtag (priv tg);
  cu ← load_cu c;
  dtype ← dwarf_cu__find_type_by_ref (cu_priv cu) (dt_abstract_origin d);
  if dtype =? 0 then err (other_diag "no type for a containing type") else
  dt ← load_dtag dtype; set_obj p (BPtrToMember (dt_small_id dt)).

Definition tag__recode_dwarf_type (n : nat) (p c : loc) : DM Z :=
  t ← load_tag p;
  if priv t =? 0 then mret 0 else
  (if tag__is_type t then type__recode_dwarf_specification p c else mret tt);;;
  if tag__has_namespace t then namespace__recode_dwarf_types n p c else
  d ← load_dtag (priv t);
  cu ← load_cu c;
  let dcu := cu_priv cu in
  let tag := tag_tag t in
  let by_type : DM Z :=
    if ref_off (dt_type d) =? 0 then set_tag_type p 0;;; mret 0
    else recode_type dcu p (dt_type d);;; mret 0 in
  if tag =? DW_TAG_subprogram then
    nothing ← recode_function_name p c;
    if (nothing : bool) then mret 0 else
    lexblock__recode_dwarf_types n p c;;; ftype__recode_dwarf_types p c;;; by_type
  else if tag =? DW_TAG_subroutine_type then ftype__recode_dwarf_types p c;;; by_type
  else if tag =? DW_TAG_lexical_block then lexblock__recode_dwarf_types n p c;;; mret 0
  else if tag =? DW_TAG_ptr_to_member_type then recode_containing_type p c;;; by_type
  else if (tag =? DW_TAG_inlined_subroutine) || (tag =? DW_TAG_imported_module)
  then recode_import_module dcu p (dt_type d);;; mret 0
  else if tag =? DW_TAG_imported_declaration
  then recode_import_declaration dcu p (dt_type d);;; mret 0
  else by_type.

(** ** The tables of a unit *)

(** The number of entries is read again for every entry: the table may grow. *)
Fixpoint cu__recode_dwarf_types_table (n : nat) (c : loc) (w : which_table) (i : Z) : DM Z :=
  match n with
  | O => raise out_of_fuel
  | S n =>
      cu ← load_cu c;
      if i <? pt_nr_entries (cu_table w cu) then
        tag ← pt_cell (cu_table w cu) i;
        rc ← (if tag =? 0 then mret 0 else tag__recode_dwarf_type n tag c);
        if negb (rc =? 0) then mret (-1) else cu__recode_dwarf_types_table n c w (u32 (i + 1))
      else mret 0
  end.

Definition cu__recode_dwarf_types (n : nat) (c : loc) : DM Z :=
  rc ← cu__recode_dwarf_types_table n c TypesTable 1;
  if negb (rc =? 0) then mret (-1) else
  rc ← cu__recode_dwarf_types_table n c TagsTable 0;
  if negb (rc =? 0) then mret (-1) else
  rc ← cu__recode_dwarf_types_table n c FunctionsTable 0;
  if negb (rc =? 0) then mret (-1) else mret 0.

End Recode.
