(* ===== verification/DwLoad.v ===== *)
(** * Loading files: the rest of dwarf_loader.c

    The compile units of a file are read one by one: the entries become tags,
    the references ids, and the sizes of members are cached; then the callback
    [steal] of the configuration decides what happens to the unit.  The file is
    opened by libdw and libdwfl, which the class [Libdwfl] stands for. *)
From S2P Require Import Prelude StdMap RbTree GoBuffer DUtil DwTypes Dwarves DwClass DwUnits DwHash DwDie DwLoader DwProcess DwRecode.
Local Open Scope list_scope.
Local Open Scope Z_scope.

(** ** libdw and libdwfl *)

Class Libdwfl (L : Libdw) := {
  Dwarf : Type;
  (** [dwarf_next_unit] over the type units and [dwarf_nextcu]: the next offset,
      the size of the header and the size of addresses. *)
  dw_next_unit : Dwarf -> Z -> option (Z * Z * Z);
  dw_nextcu : Dwarf -> Z -> option (Z * Z * Z);
  (** The entry at an offset, or a null entry, which has no tag. *)
  dw_offdie_types : Dwarf -> Z -> Die;
  dw_offdie : Dwarf -> Z -> Die;
  (** [open] and [dup], and the modules [dwfl_report_offline] finds, each with
      its debugging information if it has some. *)
  dwfl_open_ok : string -> bool;
  dwfl_dup_ok : string -> bool;
  dwfl_modules : string -> option (list (option Dwarf))
}.

Inductive load_steal_kind := LSK__KEEPIT | LSK__DELETE | LSK__STOP_LOADING.
#[export] Instance load_steal_kind_eq_dec : EqDecision load_steal_kind.
Proof. solve_decision. Defined.

(** [steal] is NULL or a function, which reads the [cookie]. *)
Record conf_load := mkConf {
  conf_steal : option (loc -> DM load_steal_kind);
  conf_extra_dbg_info : bool;
  conf_fixup_silly_bitfields : bool;
  conf_get_addr_info : bool
}.

Definition DWARF_CB_OK : Z := 0.
Definition DWARF_CB_ABORT : Z := 1.

Section Load.
Context `{L : Libdw} `{Machine} `{!Libdwfl L}.

(** ** The accessors of [dwarf__ops] *)

Definition dwarf_tag__decl_file (p c : loc) : DM (option string) :=
  cu ← load_cu c;
  if cu_extra_dbg_info cu then
    t ← load_tag p; d ← load_dtag (priv t);
    st ← get_st; mret (strings__ptr (d_strings st) (dt_decl_file d))
  else mret None.

Definition dwarf_tag__decl_line (p c : loc) : DM Z :=
  cu ← load_cu c;
  if cu_extra_dbg_info cu then t ← load_tag p; d ← load_dtag (priv t); mret (dt_decl_line d)
  else mret 0.

Definition dwarf_tag__orig_id (p c : loc) : DM Z :=
  cu ← load_cu c;
  if cu_extra_dbg_info cu then t ← load_tag p; d ← load_dtag (priv t); mret (dt_id d)
  else mret 0.

Definition dwarf__strings_ptr (c : loc) (s : strings_t) : DM (option string) :=
  st ← get_st; mret (strings__ptr (d_strings st) s).

(** [dwarf__ops] without the functions that start and end a load. *)
Definition dwarf__accessors : debug_fmt_ops :=
  mkOps "dwarf" None None (fun _ => undef "nested load") (Some dwarf_tag__decl_file)
    (Some dwarf_tag__decl_line) (Some dwarf_tag__orig_id) None None (Some dwarf__strings_ptr) None.

(** ** Compile units *)

Definition set_cu_language (l : Z) (c : cu) : cu :=
  mkCu (cu_tags c) (cu_types_table c) (cu_functions_table c) (cu_tags_table c)
    (cu_name c) (cu_filename c) (cu_priv c) (cu_obstack c) (cu_dfops c) (cu_addr_size c)
    (cu_extra_dbg_info c) (cu_has_addr_info c) l (cu_nr_inline_expansions c)
    (cu_size_inline_expansions c) (cu_build_id c).

Definition set_cu_loader (dcu : loc) (extra addr_info : bool) (c : cu) : cu :=
  mkCu (cu_tags c) (cu_types_table c) (cu_functions_table c) (cu_tags_table c)
    (cu_name c) (cu_filename c) dcu (cu_obstack c) true (cu_addr_size c)
    extra addr_info (cu_language c) (cu_nr_inline_expansions c)
    (cu_size_inline_expansions c) (cu_build_id c).

Definition die__process (n : nat) (die : Die) (c : loc) : DM Z :=
  let tag := u16 (dw_tag die) in
  if negb (tag =? DW_TAG_compile_unit) && negb (tag =? DW_TAG_type_unit) then
    err (other_diag "no unit entry");;; mret (- EINVAL) else
  language ← attr_numeric die DW_AT_language;
  cu ← load_cu c; store_cu c (set_cu_language (u16 language) cu);;;
  rc ← match dw_child die with Some child => die__process_unit n child c | None => mret 0 end;
  if negb (rc =? 0) then mret rc else
  (match dw_siblingof die with
   | Some _ => err (other_diag "unexpected tag after the unit")
   | None => mret tt
   end);;;
  mret 0.

Definition die__process_and_recode (n : nat) (die : Die) (c : loc) : DM Z :=
  ret ← die__process n die c;
  if negb (ret =? 0) then mret ret else cu__recode_dwarf_types n c.

(** [check_volatile:] *)
Fixpoint skip_qualifiers (n : nat) (p c : loc) : DM loc :=
  match n with
  | O => raise out_of_fuel
  | S n =>
      t ← load_tag p;
      if tag__is_volatile t || tag__is_const t
      then ty ← tag__follow_typedef n p c; skip_qualifiers n ty c
      else mret p
  end.

(** The bits of the type of a bit field, and of the type it was declared with. *)
Definition bitfield_sizes (p c : loc) : DM (Z * Z) :=
  t ← load_tag p;
  if tag__is_enumeration t then
    ty ← cast tag__type p; mret (u16 (ty_size ty), 32)
  else
    bt ← cast tag__base_type p;
    size ← base_type__name_to_size dwarf__accessors p c;
    mret (bt_bit_size bt, size).

Definition set_sizes (bit_size byte_size bf_offset bf_size : Z) (m : class_member) : class_member :=
  mkMember (cm_name m) (cm_bit_offset m) bit_size (cm_byte_offset m) byte_size bf_offset bf_size
    (cm_bit_hole m) (cm_bitfield_end m) (cm_const_value m) (cm_is_static m) (cm_accessibility m)
    (cm_virtuality m) (cm_hole m).

Definition cache_bitfield (n : nat) (tag c : loc) (m : class_member) (conf : option conf_load) : DM unit :=
  ty ← tag__follow_typedef n tag c;
  ty ← skip_qualifiers n ty c;
  '(type_bit_size, integral_bit_size) ← bitfield_sizes ty c;
  let byte_size := integral_bit_size / 8 in
  let same := type_bit_size =? integral_bit_size in
  let fixup := match conf with Some conf => conf_fixup_silly_bitfields conf | None => false end in
  upd_body tag (set_member (fun m =>
    if integral_bit_size =? 0
    then set_sizes (cm_bit_size m) byte_size (cm_bitfield_offset m) (cm_bitfield_size m) m
    else if same && fixup then set_sizes (u32 integral_bit_size) byte_size 0 0 m
    else set_sizes (if same then u32 integral_bit_size else type_bit_size) byte_size
           (cm_bitfield_offset m) (cm_bitfield_size m) m)).

(** The iterator never stops the traversal. *)
Definition class_member__cache_byte_size (n : nat) (c : loc) (conf : option conf_load) (tag : loc)
    : DM bool :=
  t ← load_tag tag;
  if negb (is_member t) then mret false else
  m ← cast tag__class_member tag;
  if tag__is_class_member t && cm_is_static m then mret false else
  (if negb (cm_bitfield_size m =? 0) then cache_bitfield n tag c m conf else
   size ← tag__size n tag c;
   upd_body tag (set_member (fun m =>
     set_sizes (u32 (size * 8)) size (cm_bitfield_offset m) (cm_bitfield_size m) m)));;;
  mret false.

Definition finalize_cu (n : nat) (c : loc) (conf : option conf_load) : DM load_steal_kind :=
  base_type_name_to_size_table__init;;;
  _ ← cu__for_all_tags n c (class_member__cache_byte_size n c conf);
  match conf with
  | Some conf => match conf_steal conf with Some steal => steal c | None => mret LSK__KEEPIT end
  | None => mret LSK__KEEPIT
  end.

(** [obstack_free(&dcu->obstack, NULL)] *)
Definition dcu_obstack_free_all (dcu : loc) : DM unit :=
  d ← load_dcu dcu;
  modify (fun st => set_dtags (foldr delete (d_dtags st) (dcu_obstack d)) st);;;
  upd_hash (fun h => foldr free_node h (dcu_obstack d));;;
  store_dcu dcu (set_dcu_obstack [] d).

Definition finalize_cu_immediately (n : nat) (c dcu : loc) (conf : option conf_load)
    : DM load_steal_kind :=
  lsk ← finalize_cu n c conf;
  (match lsk with
   | LSK__DELETE => cu__delete dwarf__accessors c
   | LSK__STOP_LOADING => mret tt
   | LSK__KEEPIT =>
       cu ← load_cu c;
       (if negb (cu_extra_dbg_info cu) then dcu_obstack_free_all dcu else mret tt);;;
       cus__add c
   end);;;
  mret lsk.

(** A [struct dwarf_cu] on the stack while [f] runs. *)
Definition with_dcu {A} (f : loc -> DM A) : DM A :=
  st ← get_st;
  let dcu := m_alloc_dcu st in
  store_dcu dcu (mkDcu [] 0 0);;;
  upd_hash (new_heads dcu m_junk);;;
  a ← f dcu;
  modify (fun st => set_dcus (delete dcu (d_dcus st)) st);;;
  upd_hash (free_heads dcu);;;
  mret a.

(** A new unit that belongs to a [dwarf_cu]. *)
Definition new_unit (name : string) (pointer_size : Z) (filename : string) (conf : option conf_load)
    (dcu : loc) (type_unit : loc) : DM loc :=
  c ← cu__new m_grow_ok m_alloc_cu m_strdup_ok name pointer_size [] filename;
  if c =? 0 then mret 0 else
  cu ← load_cu c;
  store_cu c (set_cu_loader dcu
    (match conf with Some conf => conf_extra_dbg_info conf | None => false end)
    (match conf with Some conf => conf_get_addr_info conf | None => false end) cu);;;
  dwarf_cu__init dcu;;;
  d ← load_dcu dcu;
  store_dcu dcu (mkDcu (dcu_obstack d) c type_unit);;;
  mret c.

(** The loop over the type units: the result and the unit, which is created for
    the first of them. *)
Fixpoint load_type_units (n : nat) (dw : Dwarf) (filename : string) (conf : option conf_load)
    (dcup : loc) (off : Z) (cup : loc) : DM (Z * loc) :=
  match n with
  | O => raise out_of_fuel
  | S n =>
      match dw_next_unit dw off with
      | None => mret (DWARF_CB_OK, cup)
      | Some (noff, cuhl, pointer_size) =>
          cup ← (if cup =? 0 then new_unit EmptyString pointer_size filename conf dcup dcup else mret cup);
          if cup =? 0 then mret (DWARF_CB_ABORT, 0) else
          rc ← die__process n (dw_offdie_types dw (off + cuhl)) cup;
          if negb (rc =? 0) then mret (DWARF_CB_ABORT, cup) else
          load_type_units n dw filename conf dcup noff cup
      end
  end.

Definition cus__load_debug_types (n : nat) (dw : Dwarf) (filename : string) (conf : option conf_load)
    (dcup : loc) : DM (Z * loc) :=
  '(res, cup) ← load_type_units n dw filename conf dcup 0 0;
  if negb (res =? DWARF_CB_OK) then mret (res, cup) else
  if cup =? 0 then mret (0, cup) else
  rc ← cu__recode_dwarf_types n cup;
  mret (if negb (rc =? 0) then DWARF_CB_ABORT else 0, cup).

Fixpoint load_units (n : nat) (dw : Dwarf) (filename : string) (conf : option conf_load)
    (type_dcu : loc) (off : Z) : DM Z :=
  match n with
  | O => raise out_of_fuel
  | S n =>
      match dw_nextcu dw off with
      | None => mret DWARF_CB_OK
      | Some (noff, cuhl, pointer_size) =>
          let cu_die := dw_offdie dw (off + cuhl) in
          let name := default EmptyString (attr_string cu_die DW_AT_name) in
          rc ← with_dcu (fun dcu =>
            c ← new_unit name pointer_size filename conf dcu type_dcu;
            if c =? 0 then mret DWARF_CB_ABORT else
            rc ← die__process_and_recode n cu_die c;
            if negb (rc =? 0) then mret DWARF_CB_ABORT else
            lsk ← finalize_cu_immediately n c dcu conf;
            mret (if decide (lsk = LSK__STOP_LOADING) then DWARF_CB_ABORT else DWARF_CB_OK));
          if negb (rc =? DWARF_CB_OK) then mret rc else load_units n dw filename conf type_dcu noff
      end
  end.

Definition cus__load_module (n : nat) (conf : option conf_load) (dw : Dwarf) (filename : string) : DM Z :=
  with_dcu (fun type_dcu =>
    '(res, type_cu) ← cus__load_debug_types n dw filename conf type_dcu;
    if negb (res =? 0) then mret res else
    type_lsk ←
      (if negb (type_cu =? 0) then
         lsk ← finalize_cu n type_cu conf;
         (if decide (lsk = LSK__KEEPIT) then cus__add type_cu else mret tt);;;
         mret lsk
       else mret LSK__KEEPIT);
    rc ← load_units n dw filename conf (if type_cu =? 0 then 0 else type_dcu) 0;
    if negb (rc =? DWARF_CB_OK) then mret rc else
    (if decide (type_lsk = LSK__DELETE) then cu__delete dwarf__accessors type_cu else mret tt);;;
    mret DWARF_CB_OK).

(** ** Files *)

(** [cus__process_dwflmod]: the result and [nr_dwarf_sections_found]. *)
Definition cus__process_dwflmod (n : nat) (conf : option conf_load) (filename : string)
    (dwflmod : option Dwarf) (nr_found : Z) : DM (Z * Z) :=
  match dwflmod with
  | None => mret (DWARF_CB_OK, nr_found)
  | Some dw => err ← cus__load_module n conf dw filename; mret (err, u32 (nr_found + 1))
  end.

(** [dwfl_getmodules] calls back for every module until one is refused. *)
Fixpoint dwfl_getmodules (n : nat) (conf : option conf_load) (filename : string)
    (l : list (option Dwarf)) (nr_found : Z) : DM Z :=
  match l with
  | [] => mret nr_found
  | m :: l =>
      '(rc, nr_found) ← cus__process_dwflmod n conf filename m nr_found;
      if rc =? DWARF_CB_OK then dwfl_getmodules n conf filename l nr_found else mret nr_found
  end.

Definition cus__process_file (n : nat) (conf : option conf_load) (filename : string) : DM Z :=
  if negb (dwfl_dup_ok filename) then mret (-1) else
  match dwfl_modules filename with
  | None => mret (-1)
  | Some l =>
      nr_found ← dwfl_getmodules n conf filename l 0;
      mret (if negb (nr_found =? 0) then 0 else -1)
  end.

Definition dwarf__load_file (n : nat) (conf : option conf_load) (filename : string) : DM Z :=
  if negb (dwfl_open_ok filename) then mret (-1) else cus__process_file n conf filename.

(** [strings__new] and [strings__delete] on the global table; whether the first
    finds memory is [new_ok].  Between a [dwarf__exit] and the next
    [dwarf__init] there is no table, which is represented by an empty one. *)
Definition dwarf__init (new_ok : bool) : DM Z :=
  if new_ok then modify (set_dstrings strings__new);;; mret 0 else mret (- ENOMEM).
Definition dwarf__exit : DM unit := modify (set_dstrings strings__new).

Definition dwarf__ops (n : nat) (conf : option conf_load) (new_ok : bool) : debug_fmt_ops :=
  mkOps "dwarf" (Some (dwarf__init new_ok)) (Some dwarf__exit) (dwarf__load_file n conf)
    (Some dwarf_tag__decl_file) (Some dwarf_tag__decl_line) (Some dwarf_tag__orig_id) None None
    (Some dwarf__strings_ptr) None.

End Load.
