(* ===== verification/DwSample.v ===== *)
(** * A libdw for examples

    Debugging entries in a table: a [Die] is a row number, a row has a tag, an
    offset, attributes, and possibly a first child and a next sibling.  The
    examples and witnesses of the loader run on it; the last lemma loads a whole
    unit. *)
From Stdlib Require Import Strings.Ascii.
From S2P Require Import Prelude StdMap RbTree GoBuffer DUtil DwTypes Dwarves DwClass DwUnits DwHash DwDie DwLoader DwProcess DwRecode DwLoad.
Local Open Scope list_scope.
Local Open Scope Z_scope.

Inductive sample_value :=
  | VNum (n : Z)
  | VStr (s : string)
  | VRef (row : nat)
  | VBlock (bytes : list Z).

Record sample_row := mkRow {
  sr_tag : Z;
  sr_offset : Z;
  sr_attrs : list (Z * sample_value);
  sr_child : option nat;
  sr_sibling : option nat
}.

Section Sample.
Context (rows : list sample_row).

Definition row_at (die : nat) : sample_row := default (mkRow 0 0 [] None None) (rows !! die).
Definition sample_attr (die : nat) (name : Z) : option sample_value :=
  snd <$> List.find (fun a => fst a =? name) (sr_attrs (row_at die)).
Definition sample_num (v : sample_value) : option Z := match v with VNum n => Some n | _ => None end.

Definition sample_libdw : Libdw := {|
  Die := nat;
  Attribute := sample_value;
  dw_tag die := sr_tag (row_at die);
  dw_dieoffset die := sr_offset (row_at die);
  dw_haschildren die := match sr_child (row_at die) with Some _ => true | None => false end;
  dw_child die := sr_child (row_at die);
  dw_siblingof die := sr_sibling (row_at die);
  dw_attr := sample_attr;
  dw_hasattr die name := match sample_attr die name with Some _ => true | None => false end;
  dw_whatform v := match v with VNum _ => DW_FORM_udata | _ => 0 end;
  dw_formaddr := sample_num;
  dw_formudata := sample_num;
  dw_formflag v := None;
  dw_formblock v := match v with VBlock b => Some b | _ => None end;
  dw_formstring v := match v with VStr s => Some s | _ => None end;
  dw_formref_die v := match v with VRef r => Some r | _ => None end;
  dw_getlocation v := None;
  dw_lowpc die := None;
  dw_highpc die := None;
  dw_ranges die offset := (0, None);
  dw_decl_file die := 1;
  dw_cstring p := "mm.h"%string;
  dw_decl_line die := Some 10
|}.

End Sample.

(** Memory that never runs out. *)
Definition sample_realloc (old : list ascii) (n : Z) : option (list ascii) :=
  Some (take (Z.to_nat n) old ++ repeat "000"%char (Z.to_nat n - length old)).

Definition sample_machine : Machine := {|
  m_alloc st := Some (16 * (1 + Z.of_nat (size (d_tags st))));
  m_alloc_dtag st := Some (16 * (1 + Z.of_nat (size (d_dtags st))));
  m_alloc_bytes st := true;
  m_alloc_cu st := Some (16 * (1 + Z.of_nat (size (d_cus st))));
  m_alloc_dcu st := 16 * (1 + Z.of_nat (size (d_dcus st)));
  m_realloc := sample_realloc;
  m_tsearch_ok strs := true;
  m_grow_ok n := true;
  m_strdup_ok s := true;
  m_unsupported_tag := 8;
  m_junk := 0;
  m_junk_node := mkNode 0 0 0
|}.

(** The state of a program that has loaded nothing: [unsupported_tag] is zeroed. *)
Definition sample_state : dstate :=
  mkD {[ 8 := mkObj (mkTag Garbage 0 0 false 0) BTag ]} ∅ ∅ ∅ [] (mkRbheap ∅ ∅) strings__new
    (map (fun _ => 0) base_type_name_to_size_table) [] loader_init no_hash.

(** [struct page { const int flags; struct page *next; unsigned order : 3; }] *)
Definition sample_page : list sample_row :=
  [mkRow DW_TAG_compile_unit 11 [(DW_AT_name, VStr "mm/page_alloc.c"); (DW_AT_language, VNum 12)] (Some 1%nat) None;
   mkRow DW_TAG_base_type 45 [(DW_AT_name, VStr "int"); (DW_AT_byte_size, VNum 4); (DW_AT_encoding, VNum 5)]
     None (Some 2%nat);
   mkRow DW_TAG_base_type 52 [(DW_AT_name, VStr "unsigned int"); (DW_AT_byte_size, VNum 4);
     (DW_AT_encoding, VNum 7)] None (Some 3%nat);
   mkRow DW_TAG_structure_type 59 [(DW_AT_name, VStr "page"); (DW_AT_byte_size, VNum 24)] (Some 6%nat) (Some 4%nat);
   mkRow DW_TAG_const_type 98 [(DW_AT_type, VRef 1)] None (Some 5%nat);
   mkRow DW_TAG_pointer_type 103 [(DW_AT_type, VRef 3)] None None;
   mkRow DW_TAG_member 67 [(DW_AT_name, VStr "flags"); (DW_AT_type, VRef 4);
     (DW_AT_data_member_location, VNum 0)] None (Some 7%nat);
   mkRow DW_TAG_member 76 [(DW_AT_name, VStr "next"); (DW_AT_type, VRef 5);
     (DW_AT_data_member_location, VBlock [35; 8])] None (Some 8%nat);
   mkRow DW_TAG_member 85 [(DW_AT_name, VStr "order"); (DW_AT_type, VRef 2);
     (DW_AT_data_member_location, VNum 16); (DW_AT_bit_size, VNum 3); (DW_AT_bit_offset, VNum 29)] None None].

(** A file with this unit. *)
Definition sample_dwfl (rows : list sample_row) : Libdwfl (sample_libdw rows) := {|
  Dwarf := unit;
  dw_next_unit _ _ := None;
  dw_nextcu _ off := if off =? 0 then Some (200, 11, 8) else None;
  dw_offdie_types _ _ := (0%nat : @Die (sample_libdw rows));
  dw_offdie _ _ := (0%nat : @Die (sample_libdw rows));
  dwfl_open_ok _ := true;
  dwfl_dup_ok _ := true;
  dwfl_modules _ := Some [Some tt]
|}.

(** The name, the type and the offset of the members of a structure. *)
Definition members_of (st : dstate) (p : loc) : list (option string * Z * Z * Z) :=
  match tag__namespace ∘ o_body <$> d_tags st !! p with
  | Some (Some ns) =>
      match ns_tags ns with
      | Tags l => omap (fun q =>
          o ← d_tags st !! q; m ← tag__class_member (o_body o);
          Some (strings__ptr (d_strings st) (cm_name m), tag_type (o_tag o), cm_byte_offset m,
                cm_bit_size m)) l
      | SharedTags _ => []
      end
  | _ => []
  end.

(** What the types table of a unit holds. *)
Definition types_of (st : dstate) (c : loc) : list (Z * Z) :=
  match d_cus st !! c with
  | Some u =>
      omap (fun id => p ← pt_entries (cu_types_table u) !! id; o ← d_tags st !! p;
        Some (tag_tag (o_tag o), tag_type (o_tag o))) (seqZ 0 (pt_nr_entries (cu_types_table u)))
  | None => []
  end.

(** Loading the file: the types are numbered from one in the order of their
    entries, every reference has become a number, the expression block gave the
    offset of [next], and the bit field got a new type of three bits. *)
Lemma sample_page_loads :
  match @dwarf__load_file (sample_libdw sample_page) sample_machine (sample_dwfl sample_page) 40
          (Some (mkConf None true true true)) "vmlinux" sample_state with
  | inl _ => False
  | inr (rc, st) =>
      rc = 0 /\ d_err st = [] /\ d_list st = [16] /\
      types_of st 16 = [(DW_TAG_base_type, 0); (DW_TAG_base_type, 0); (DW_TAG_structure_type, 0);
        (DW_TAG_const_type, 1); (DW_TAG_pointer_type, 3); (DW_TAG_base_type, 0)] /\
      members_of st 64 = [(Some "flags"%string, 4, 0, 32); (Some "next"%string, 5, 8, 64);
        (Some "order"%string, 6, 16, 3)]
  end.
Proof. vm_compute. repeat split. Qed.
