(* ===== verification/DwRecodeProps.v ===== *)
(** * Recoding turns references into ids

    When the types of a unit are hashed, [cu__recode_dwarf_types_table] gives the
    types of the table, the members of its structures that are no bit fields and
    the parameters of its function types the id of the type their entries referred
    to. *)
From S2P Require Import Prelude StdMap RbTree DwTypes Dwarves DwClass DwUnits DwHash DwHashProps DwDie DwLoader DwProcess DwRecode DwLoad DwSample.
Local Open Scope list_scope.
Local Open Scope Z_scope.

(** ** The specification *)

Section Spec.
(** The entries of the types of the unit, the newest first. *)
Context (types : list loc).

Definition dtag_of (st : dstate) (o : tagobj) : dwarf_tag :=
  default (mkDtag null_ref 0 null_ref 0 0 0 0 None) (d_dtags st !! priv (o_tag o)).

(** The entry that the type of a tag refers to, or NULL, and the id it has. *)
Definition target (st : dstate) (o : tagobj) : loc := newest st types (ref_off (dt_type (dtag_of st o))).
Definition target_id (st : dstate) (o : tagobj) : Z :=
  if target st o =? 0 then 0 else u16 (default 0 (dt_small_id <$> d_dtags st !! target st o)).

Definition retyped_obj (st : dstate) (o : tagobj) : tagobj :=
  let t := o_tag o in
  mkObj (mkTag (node t) (target_id st o) (tag_tag t) (top_level t) (priv t)) (o_body o).

Definition missing (st : dstate) (o : tagobj) : list diag :=
  let d := dtag_of st o in
  if negb (ref_off (dt_type d) =? 0) && (target st o =? 0)
  then [type_not_found (ref_off (dt_type d)) (dt_id d) (tag_tag (o_tag o))] else [].

(** One tag recoded. *)
Definition retype (st : dstate) (p : loc) : dstate :=
  match d_tags st !! p with
  | Some o => set_err (d_err st ++ missing st o) (set_tags (<[p := retyped_obj st o]> (d_tags st)) st)
  | None => st
  end.

End Spec.

(** A tag that was not recoded yet, and whose type is in its own unit. *)
Record fresh (st : dstate) (p : loc) (o : tagobj) (dt : dwarf_tag) : Prop := {
  fr_obj : d_tags st !! p = Some o;
  fr_type : tag_type (o_tag o) = 0;
  fr_dtag : d_dtags st !! priv (o_tag o) = Some dt;
  fr_unit : from_types (dt_type dt) = false
}.

(** A class, union, enumeration or typedef that has a name, or needs none. *)
Definition named (o : tagobj) (dt : dwarf_tag) : Prop :=
  exists t ref, tag__type (o_body o) = Some t /\ dt_spec dt = Some ref /\
    (ns_name (ty_ns t) <> 0 \/ ref_off ref = 0).

Definition member_kinds : list Z :=
  [DW_TAG_subroutine_type; DW_TAG_subprogram; DW_TAG_imported_module; DW_TAG_imported_declaration].
Definition other_kinds : list Z :=
  [DW_TAG_subprogram; DW_TAG_subroutine_type; DW_TAG_lexical_block; DW_TAG_ptr_to_member_type;
   DW_TAG_inlined_subroutine; DW_TAG_imported_module; DW_TAG_imported_declaration].

(** A tag in a structure: a member without bits, an enumerator, .. *)
Definition plain_member (st : dstate) (p : loc) : Prop :=
  exists o dt, fresh st p o dt /\ tag__has_namespace (o_tag o) = false /\
    tag_tag (o_tag o) ∉ member_kinds /\
    (tag_tag (o_tag o) = DW_TAG_member ->
     exists m, o_body o = BClassMember m /\ cm_bitfield_size m = 0).

(** A parameter that does not take its name and type from another one. *)
Definition plain_parm (st : dstate) (p : loc) : Prop :=
  exists o dt, fresh st p o dt /\ (ref_off (dt_type dt) = 0 -> ref_off (dt_abstract_origin dt) = 0).

(** The tags that are given a type when [p] is recoded. *)
Inductive recodes (st : dstate) (p : loc) : list loc -> Prop :=
  | rc_done o :
      d_tags st !! p = Some o -> priv (o_tag o) = 0 -> recodes st p []
  | rc_plain o dt :
      fresh st p o dt -> priv (o_tag o) <> 0 -> tag__has_namespace (o_tag o) = false ->
      (tag__is_type (o_tag o) = true -> named o dt) -> tag_tag (o_tag o) ∉ other_kinds ->
      recodes st p [p]
  | rc_members o dt ns l :
      d_tags st !! p = Some o -> d_dtags st !! priv (o_tag o) = Some dt -> priv (o_tag o) <> 0 ->
      tag__has_namespace (o_tag o) = true -> tag__namespace (o_body o) = Some ns ->
      (tag__is_type (o_tag o) = true -> named o dt) -> ns_tags ns = Tags l ->
      Forall (plain_member st) l -> recodes st p l
  | rc_function o dt f :
      fresh st p o dt -> priv (o_tag o) <> 0 -> tag_tag (o_tag o) = DW_TAG_subroutine_type ->
      o_body o = BFtype f -> Forall (plain_parm st) (ft_parms f) ->
      recodes st p (ft_parms f ++ [p]).

(** ** One tag *)

Section Recode.
Context `{Libdw} `{Machine}.
Context (c : loc) (u : cu) (d : dwarf_cu) (types : list loc).

(** The unit of the tags and the table of its types. *)
Record unit_at (st : dstate) : Prop := {
  ua_cu : d_cus st !! c = Some u;
  ua_priv : cu_priv u <> 0;
  ua_dcu : d_dcus st !! cu_priv u = Some d;
  ua_types : table_of st (hash_types (cu_priv u)) types
}.

Lemma retype_tags st p q :
  d_tags (retype types st p) !! q =
  if decide (q = p) then retyped_obj types st <$> d_tags st !! p else d_tags st !! q.
Proof.
  unfold retype. destruct (decide (q = p)) as [->|Hne]; destruct (d_tags st !! p) as [o|] eqn:Ho; cbn.
  - apply lookup_insert_eq.
  - done.
  - by apply lookup_insert_ne.
  - done.
Qed.

Lemma retype_dtags st p : d_dtags (retype types st p) = d_dtags st.
Proof. unfold retype. by destruct (d_tags st !! p). Qed.
Lemma retype_dcus st p : d_dcus (retype types st p) = d_dcus st.
Proof. unfold retype. by destruct (d_tags st !! p). Qed.
Lemma retype_cus st p : d_cus (retype types st p) = d_cus st.
Proof. unfold retype. by destruct (d_tags st !! p). Qed.

Lemma retype_hash st p : d_hash (retype types st p) = d_hash st.
Proof. unfold retype. by destruct (d_tags st !! p). Qed.

Lemma table_of_dtags st st' tbl l : d_dtags st' = d_dtags st -> d_hash st' = d_hash st ->
  table_of st tbl l -> table_of st' tbl l.
Proof.
  intros Hd Hh [Hv Hc]. unfold in_bucket, valid_entry, entry_id in *.
  split; unfold in_bucket, valid_entry, entry_id; by rewrite Hd, ?Hh.
Qed.

Lemma unit_at_retype st p : unit_at st -> unit_at (retype types st p).
Proof.
  intros [H1 H2 H3 H4]. split; [by rewrite retype_cus|done|by rewrite retype_dcus|].
  apply (table_of_dtags st); [apply retype_dtags|apply retype_hash|done].
Qed.

Lemma find_type_run st off :
  unit_at st ->
  dwarf_cu__find_type_by_ref (cu_priv u) (mkRef false off) st = inr (newest st types off, st).
Proof.
  intros [H1 H2 H3 H4]. by apply (ref_type_run (cu_priv u) st d).
Qed.

Lemma newest_valid st off : unit_at st -> newest st types off <> 0 -> valid_entry st (newest st types off).
Proof.
  intros [_ _ _ [Hv _]]. unfold newest. destruct (off =? 0); [done|].
  destruct (List.find _ types) as [q|] eqn:Hf; [|done]. intros _.
  apply List.find_some in Hf as [Hq _]. eapply List.Forall_forall; [apply Hv|done].
Qed.

Lemma set_tag_type_run st p o ty :
  d_tags st !! p = Some o ->
  set_tag_type p ty st = inr (tt, set_tags (<[p := mkObj (mkTag (node (o_tag o)) (u16 ty) (tag_tag (o_tag o))
    (top_level (o_tag o)) (priv (o_tag o))) (o_body o)]> (d_tags st)) st).
Proof. intros Ho. unfold set_tag_type. by rewrite (upd_tag_run _ _ _ _ Ho). Qed.

Lemma dtag_of_fresh st p o dt : fresh st p o dt -> dtag_of st o = dt.
Proof. intros [_ _ Hd _]. unfold dtag_of. by rewrite Hd. Qed.

Lemma set_err_id st l : l = d_err st -> set_err l st = st.
Proof. intros ->. by destruct st. Qed.

(** A tag whose type has no entry keeps the type zero. *)
Lemma retyped_same st o : target_id types st o = 0 -> tag_type (o_tag o) = 0 -> retyped_obj types st o = o.
Proof. intros Ht Hz. unfold retyped_obj. rewrite Ht. destruct o as [[] ?]. cbn in *. by subst. Qed.

Lemma retype_void st p o dt :
  fresh st p o dt -> ref_off (dt_type dt) = 0 -> retype types st p = st.
Proof.
  intros Hf Hz. unfold retype. rewrite (fr_obj _ _ _ _ Hf). unfold missing, target.
  rewrite (dtag_of_fresh _ _ _ _ Hf), Hz. cbn [negb Z.eqb andb]. rewrite app_nil_r.
  rewrite retyped_same; [|unfold target_id, target|apply Hf].
  - rewrite insert_id by apply Hf. rewrite set_tags_id. by apply set_err_id.
  - by rewrite (dtag_of_fresh _ _ _ _ Hf), Hz.
Qed.

Lemma u16_idem x : u16 (u16 x) = u16 x.
Proof. unfold u16, wrap. by rewrite Zmod_mod. Qed.

Lemma recode_type_run st p o dt :
  unit_at st -> fresh st p o dt -> ref_off (dt_type dt) <> 0 ->
  recode_type (cu_priv u) p (dt_type dt) st = inr (tt, retype types st p).
Proof.
  intros Hu Hf Hn. pose proof (fr_obj _ _ _ _ Hf) as Ho. pose proof (dtag_of_fresh _ _ _ _ Hf) as Hd.
  unfold recode_type. destruct (dt_type dt) as [ft off] eqn:Href. pose proof (fr_unit _ _ _ _ Hf) as Hft.
  rewrite Href in Hft. cbn [from_types ref_off] in *. subst ft. dstep (find_type_run st off Hu).
  assert (target types st o = newest st types off) as Ht by (unfold target; by rewrite Hd, Href).
  unfold retype. rewrite Ho. unfold missing. rewrite Ht, Hd, Href. cbn [ref_off].
  rewrite (proj2 (Z.eqb_neq _ _) Hn). cbn [negb andb].
  unfold assign_type. destruct (Z.eqb_spec (newest st types off) 0) as [Hz|Hz].
  - rewrite retyped_same; [|unfold target_id; by rewrite Ht, Hz|apply Hf].
    rewrite insert_id by done. rewrite set_tags_id.
    unfold __tag__print_type_not_found. dstep (load_tag_run _ _ _ Ho).
    dstep (load_dtag_run _ _ _ (fr_dtag _ _ _ _ Hf)). by rewrite Href.
  - destruct (newest_valid st off Hu Hz) as [dq Hq]. dstep (load_dtag_run _ _ _ Hq).
    rewrite (set_tag_type_run _ _ _ _ Ho), app_nil_r. f_equal. f_equal.
    rewrite (set_err_id _ (d_err st)) by done. do 3 f_equal. unfold retyped_obj, target_id.
    rewrite Ht, Hq, (proj2 (Z.eqb_neq _ _) Hz). done.
Qed.

(** Recoding one tag leaves the others as they are. *)
Lemma fresh_retype st p q o dt : q <> p -> fresh st q o dt -> fresh (retype types st p) q o dt.
Proof.
  intros Hne [H1 H2 H3 H4]. split; [|done|by rewrite retype_dtags|done].
  rewrite retype_tags. by rewrite decide_False.
Qed.

Lemma plain_member_retype st p q : q <> p -> plain_member st q -> plain_member (retype types st p) q.
Proof. intros Hne (o & dt & Hf & Hr). exists o, dt. split; [by apply fresh_retype|done]. Qed.
Lemma plain_parm_retype st p q : q <> p -> plain_parm st q -> plain_parm (retype types st p) q.
Proof. intros Hne (o & dt & Hf & Hr). exists o, dt. split; [by apply fresh_retype|done]. Qed.

(** What all tags of a list have is kept while the first of them is recoded. *)
Lemma Forall_retype (P : dstate -> loc -> Prop) st p l :
  (forall st q, q <> p -> P st q -> P (retype types st p) q) ->
  p ∉ l -> Forall (P st) l -> Forall (P (retype types st p)) l.
Proof.
  intros HP Hp. rewrite !Forall_forall. intros Hl q Hq. apply HP; [by intros ->|by apply Hl].
Qed.

Lemma set_type_zero st p o dt : fresh st p o dt -> set_tag_type p 0 st = inr (tt, st).
Proof.
  intros Hf. rewrite (set_tag_type_run _ _ _ _ (fr_obj _ _ _ _ Hf)). rewrite insert_id, set_tags_id; [done|].
  rewrite (fr_obj _ _ _ _ Hf). f_equal. pose proof (fr_type _ _ _ _ Hf). destruct o as [[] ?]. cbn in *.
  by subst.
Qed.

Lemma recode_member_run n st p :
  unit_at st -> plain_member st p -> recode_in_namespace n c p st = inr (None, retype types st p).
Proof.
  intros Hu (o & dt & Hf & _ & Hk & Hm). pose proof (fr_obj _ _ _ _ Hf) as Ho.
  pose proof (fr_dtag _ _ _ _ Hf) as Hd. unfold recode_in_namespace.
  dstep (load_cu_run _ _ _ (ua_cu _ Hu)). dstep (load_tag_run _ _ _ Ho).
  assert ((if tag_tag (o_tag o) =? DW_TAG_member
           then m ← cast tag__class_member p; mret (cm_bitfield_size m) else mret 0) st = inr (0, st)) as Hb.
  { destruct (Z.eqb_spec (tag_tag (o_tag o)) DW_TAG_member) as [Ht|]; [|done].
    destruct (Hm Ht) as (m & Hbody & Hz). dstep (cast_run tag__class_member st p o m Ho
      ltac:(by rewrite Hbody)). by rewrite Hz. }
  dstep Hb. cbn [negb Z.eqb].
  rewrite !(not_kind _ member_kinds _ Hk) by (unfold member_kinds; set_solver).
  cbn [orb]. rewrite dret. dstep (load_dtag_run _ _ _ Hd).
  destruct (Z.eqb_spec (ref_off (dt_type dt)) 0) as [Hz|Hz].
  - by rewrite dret, (retype_void _ _ _ _ Hf Hz).
  - by dstep (recode_type_run _ _ _ _ Hu Hf Hz).
Qed.

Lemma recode_parameter_run st p :
  unit_at st -> plain_parm st p -> recode_parameter (cu_priv u) p st = inr (tt, retype types st p).
Proof.
  intros Hu (o & dt & Hf & Ha). unfold recode_parameter.
  dstep (load_tag_run _ _ _ (fr_obj _ _ _ _ Hf)). dstep (load_dtag_run _ _ _ (fr_dtag _ _ _ _ Hf)).
  destruct (Z.eqb_spec (ref_off (dt_type dt)) 0) as [Hz|Hz].
  - rewrite (Ha Hz). cbn [Z.eqb]. by rewrite (set_type_zero _ _ _ _ Hf), (retype_void _ _ _ _ Hf Hz).
  - by apply (recode_type_run _ _ _ _ Hu Hf).
Qed.

Lemma recode_members_run n l : forall st,
  unit_at st -> NoDup l -> Forall (plain_member st) l ->
  find_list (fun pos =>
    t ← load_tag pos;
    if tag__has_namespace t then
      rc ← namespace__recode_dwarf_types n pos c; mret (if rc =? 0 then None else Some tt)
    else recode_in_namespace n c pos) l st = inr (None, foldl (retype types) st l).
Proof.
  induction l as [|p l IH]; intros st Hu Hnd Hl; [done|].
  inversion_clear Hnd as [|? ? Hp Hnd']. inversion_clear Hl as [|? ? Hm Hl'].
  simpl. pose proof Hm as (o & dt & Hf & Hns & _). rewrite dbind_assoc.
  dstep (load_tag_run _ _ _ (fr_obj _ _ _ _ Hf)). rewrite Hns. dstep (recode_member_run n _ _ Hu Hm).
  apply IH; [by apply unit_at_retype|done|].
  apply Forall_retype; [intros; by apply plain_member_retype|done|done].
Qed.

Lemma recode_parameters_run l : forall st,
  unit_at st -> NoDup l -> Forall (plain_parm st) l ->
  iter_list (recode_parameter (cu_priv u)) l st = inr (tt, foldl (retype types) st l).
Proof.
  induction l as [|p l IH]; intros st Hu Hnd Hl; [done|].
  inversion_clear Hnd as [|? ? Hp Hnd']. inversion_clear Hl as [|? ? Hm Hl'].
  simpl. dstep (recode_parameter_run _ _ Hu Hm). apply IH; [by apply unit_at_retype|done|].
  apply Forall_retype; [intros; by apply plain_parm_retype|done|done].
Qed.

Lemma unit_at_foldl l : forall st, unit_at st -> unit_at (foldl (retype types) st l).
Proof. induction l as [|p l IH]; intros st Hu; [done|]. by apply IH, unit_at_retype. Qed.

Lemma fresh_foldl l : forall st p o dt,
  p ∉ l -> fresh st p o dt -> fresh (foldl (retype types) st l) p o dt.
Proof.
  induction l as [|q l IH]; intros st p o dt Hp Hf; [done|]. apply IH; [set_solver|].
  apply fresh_retype; [set_solver|done].
Qed.

Lemma name_field_run st p o dt :
  d_tags st !! p = Some o -> d_dtags st !! priv (o_tag o) = Some dt -> named o dt ->
  type__recode_dwarf_specification p c st = inr (tt, st).
Proof.
  intros Ho Hd (t & ref & Ht & Hs & Hn). unfold type__recode_dwarf_specification.
  dstep (load_tag_run _ _ _ Ho). dstep (cast_run tag__type st p o t Ho Ht). dstep (load_dtag_run _ _ _ Hd).
  unfold dwarf_tag__spec. rewrite Hs. simpl. rewrite dret.
  destruct Hn as [Hn|Hn].
  - by rewrite (proj2 (Z.eqb_neq _ _) Hn).
  - rewrite Hn. by destruct (ns_name (ty_ns t) =? 0).
Qed.

Lemma plain_kind_run n st p o dt :
  unit_at st -> fresh st p o dt -> priv (o_tag o) <> 0 -> tag__has_namespace (o_tag o) = false ->
  (tag__is_type (o_tag o) = true -> named o dt) -> tag_tag (o_tag o) ∉ other_kinds ->
  tag__recode_dwarf_type n p c st = inr (0, retype types st p).
Proof.
  intros Hu Hf Hp Hns Hnm Hk. pose proof (fr_obj _ _ _ _ Hf) as Ho. pose proof (fr_dtag _ _ _ _ Hf) as Hd.
  unfold tag__recode_dwarf_type. dstep (load_tag_run _ _ _ Ho). rewrite (proj2 (Z.eqb_neq _ _) Hp).
  assert ((if tag__is_type (o_tag o) then type__recode_dwarf_specification p c else mret tt) st
    = inr (tt, st)) as Hs.
  { destruct (tag__is_type (o_tag o)); [|done]. by eapply name_field_run, Hnm. }
  dstep Hs. rewrite Hns. dstep (load_dtag_run _ _ _ Hd). dstep (load_cu_run _ _ _ (ua_cu _ Hu)).
  rewrite !(not_kind _ other_kinds _ Hk) by (unfold other_kinds; set_solver). cbn [orb].
  destruct (Z.eqb_spec (ref_off (dt_type dt)) 0) as [Hz|Hz].
  - dstep (set_type_zero _ _ _ _ Hf). by rewrite (retype_void _ _ _ _ Hf Hz).
  - by dstep (recode_type_run _ _ _ _ Hu Hf Hz).
Qed.

Lemma members_run n st p o dt ns l :
  unit_at st -> d_tags st !! p = Some o -> d_dtags st !! priv (o_tag o) = Some dt ->
  priv (o_tag o) <> 0 -> tag__has_namespace (o_tag o) = true -> tag__namespace (o_body o) = Some ns ->
  (tag__is_type (o_tag o) = true -> named o dt) -> ns_tags ns = Tags l ->
  NoDup l -> Forall (plain_member st) l ->
  tag__recode_dwarf_type (S n) p c st = inr (0, foldl (retype types) st l).
Proof.
  intros Hu Ho Hd Hp Hns Hb Hnm Ht Hnd Hl. unfold tag__recode_dwarf_type. dstep (load_tag_run _ _ _ Ho).
  rewrite (proj2 (Z.eqb_neq _ _) Hp).
  assert ((if tag__is_type (o_tag o) then type__recode_dwarf_specification p c else mret tt) st
    = inr (tt, st)) as Hs.
  { destruct (tag__is_type (o_tag o)); [|done]. by eapply name_field_run, Hnm. }
  dstep Hs. rewrite Hns. cbn [namespace__recode_dwarf_types].
  assert (type_tags p st = inr (l, st)) as Htags.
  { unfold type_tags. dstep (cast_run tag__namespace st p o ns Ho Hb). by rewrite Ht. }
  dstep Htags. by dstep (recode_members_run n l st Hu Hnd Hl).
Qed.

Lemma function_type_run n st p o dt f :
  unit_at st -> fresh st p o dt -> priv (o_tag o) <> 0 -> tag_tag (o_tag o) = DW_TAG_subroutine_type ->
  o_body o = BFtype f -> p ∉ ft_parms f -> NoDup (ft_parms f) -> Forall (plain_parm st) (ft_parms f) ->
  tag__recode_dwarf_type n p c st = inr (0, retype types (foldl (retype types) st (ft_parms f)) p).
Proof.
  intros Hu Hf Hp Hk Hb Hpl Hnd Hl. pose proof (fr_obj _ _ _ _ Hf) as Ho.
  unfold tag__recode_dwarf_type. dstep (load_tag_run _ _ _ Ho). rewrite (proj2 (Z.eqb_neq _ _) Hp).
  unfold tag__is_type, tag__has_namespace, tag__is_union, tag__is_struct, tag__is_typedef,
    tag__is_enumeration, tag__is_namespace. rewrite Hk. cbn [Z.eqb orb]. simpl orb. cbv iota.
  rewrite dret. dstep (load_dtag_run _ _ _ (fr_dtag _ _ _ _ Hf)). dstep (load_cu_run _ _ _ (ua_cu _ Hu)).
  simpl. assert (ftype__recode_dwarf_types p c st = inr (tt, foldl (retype types) st (ft_parms f))) as Hps.
  { unfold ftype__recode_dwarf_types. dstep (load_cu_run _ _ _ (ua_cu _ Hu)).
    dstep (cast_run tag__ftype st p o f Ho ltac:(by rewrite Hb)). by apply recode_parameters_run. }
  dstep Hps. pose proof (fresh_foldl _ _ _ _ _ Hpl Hf) as Hf'.
  destruct (Z.eqb_spec (ref_off (dt_type dt)) 0) as [Hz|Hz].
  - dstep (set_type_zero _ _ _ _ Hf'). by rewrite (retype_void _ _ _ _ Hf' Hz).
  - by dstep (recode_type_run _ _ _ _ (unit_at_foldl _ _ Hu) Hf' Hz).
Qed.

Lemma recode_one_run n st p its :
  unit_at st -> recodes st p its -> NoDup its ->
  tag__recode_dwarf_type (S n) p c st = inr (0, foldl (retype types) st its).
Proof.
  intros Hu Hr Hnd. destruct Hr as [o Ho Hp|o dt Hf Hp Hns Hnm Hk|o dt ns l Ho Hd Hp Hns Hb Hnm Ht Hl
    |o dt f Hf Hp Hk Hb Hl].
  - unfold tag__recode_dwarf_type. dstep (load_tag_run _ _ _ Ho). by rewrite Hp.
  - by eapply plain_kind_run.
  - by eapply members_run.
  - rewrite foldl_app. apply NoDup_app in Hnd as (Hnd & Hpl & _).
    eapply function_type_run; eauto. intros Hin. apply (Hpl p Hin). by apply list_elem_of_singleton.
Qed.

Lemma recodes_retype st p q its : p ∉ its -> recodes st q its -> recodes (retype types st p) q its.
Proof.
  intros Hp Hr.
  assert (forall o, d_tags st !! q = Some o -> exists o', d_tags (retype types st p) !! q = Some o' /\
    o_body o' = o_body o /\ tag_tag (o_tag o') = tag_tag (o_tag o) /\ priv (o_tag o') = priv (o_tag o))
    as Hobj.
  { intros o Ho. rewrite retype_tags. destruct (decide (q = p)) as [<-|]; [|by exists o].
    rewrite Ho. by eexists. }
  destruct Hr as [o Ho Hz|o dt Hf Hz Hns Hnm Hk|o dt ns l Ho Hd Hz Hns Hb Hnm Ht Hl|o dt f Hf Hz Hk Hb Hl].
  - destruct (Hobj o Ho) as (o' & Ho' & _ & _ & Hz'). eapply rc_done; [done|by rewrite Hz'].
  - eapply rc_plain; [apply fresh_retype; [set_solver|done]|done..].
  - destruct (Hobj o Ho) as (o' & Ho' & Hb' & Ht' & Hz').
    eapply (rc_members _ _ o' dt ns); [done|by rewrite retype_dtags, Hz'|by rewrite Hz'|..|done|].
    + revert Hns. unfold tag__has_namespace, tag__is_struct, tag__is_union, tag__is_namespace,
        tag__is_enumeration. by rewrite Ht'.
    + by rewrite Hb'.
    + revert Hnm. unfold tag__is_type, tag__is_union, tag__is_struct, tag__is_typedef, tag__is_enumeration,
        named. by rewrite Ht', Hb'.
    + apply Forall_retype; [intros; by apply plain_member_retype|done|done].
  - eapply rc_function; [apply fresh_retype; [set_solver|done]|done|done|done|].
    apply Forall_retype; [intros; by apply plain_parm_retype|set_solver|done].
Qed.

Lemma recodes_foldl l : forall st q its,
  (forall p, p ∈ l -> p ∉ its) -> recodes st q its -> recodes (foldl (retype types) st l) q its.
Proof.
  induction l as [|p l IH]; intros st q its Hd Hr; [done|]. apply IH; [set_solver|].
  apply recodes_retype; [apply Hd; set_solver|done].
Qed.

(** ** A table *)

(** The entries of [ps], and the tags each of them gives a type to. *)
Definition all_recode (st : dstate) (ps : list loc) (itss : list (list loc)) : Prop :=
  Forall2 (fun p its => p = 0 /\ its = [] \/ p <> 0 /\ recodes st p its) ps itss.

(** [ps] are the entries of a table from number [i] to its end. *)
Record entries_from (pt : ptr_table) (i : Z) (ps : list loc) : Prop := {
  ef_start : 0 <= i;
  ef_nr : pt_nr_entries pt = i + Z.of_nat (length ps);
  ef_room : pt_nr_entries pt <= pt_allocated_entries pt < 2 ^ 32;
  ef_entry (k : nat) p : ps !! k = Some p -> pt_entries pt !! (i + Z.of_nat k) = Some p
}.

Lemma entries_from_tail pt i p ps : entries_from pt i (p :: ps) -> entries_from pt (i + 1) ps.
Proof.
  intros [H1 H2 H3 H4]. split; [lia|cbn in H2; lia|done|].
  intros k q Hk. replace (i + 1 + Z.of_nat k) with (i + Z.of_nat (S k)) by lia. by apply H4.
Qed.

Lemma all_recode_foldl st l ps itss :
  (forall p, p ∈ l -> p ∉ concat itss) -> all_recode st ps itss ->
  all_recode (foldl (retype types) st l) ps itss.
Proof.
  intros Hd Ha. induction Ha as [|p its ps itss Hp Ha IH]; [constructor|]. constructor.
  - destruct Hp as [Hp|[Hp Hr]]; [by left|right]. split; [done|]. apply recodes_foldl; [|done].
    intros q Hq Hin. apply (Hd q Hq). simpl. by apply elem_of_app; left.
  - apply IH. intros q Hq Hin. apply (Hd q Hq). simpl. by apply elem_of_app; right.
Qed.

Lemma recode_table_run w ps : forall n i st itss,
  unit_at st -> entries_from (cu_table w u) i ps -> all_recode st ps itss -> NoDup (concat itss) ->
  (length ps < n)%nat ->
  cu__recode_dwarf_types_table n c w i st = inr (0, foldl (retype types) st (concat itss)).
Proof.
  induction ps as [|p ps IH]; intros n i st itss Hu Hpt Ha Hnd Hn.
  - inversion Ha; subst. destruct n as [|n]; [simpl in Hn; lia|]. simpl.
    dstep (load_cu_run _ _ _ (ua_cu _ Hu)). pose proof (ef_nr _ _ _ Hpt) as Hnr. simpl in Hnr.
    by rewrite (proj2 (Z.ltb_ge _ _)) by lia.
  - apply Forall2_cons_inv_l in Ha as (its & itss' & Hp & Ha' & ->). simpl in Hn. destruct n as [|[|n]]; [lia|lia|].
    simpl concat in Hnd. apply NoDup_app in Hnd as (Hnd1 & Hdis & Hnd2).
    cbn [cu__recode_dwarf_types_table]. dstep (load_cu_run _ _ _ (ua_cu _ Hu)).
    pose proof (ef_nr _ _ _ Hpt) as Hnr. simpl in Hnr. rewrite (proj2 (Z.ltb_lt _ _)) by lia.
    pose proof (ef_room _ _ _ Hpt). pose proof (ef_start _ _ _ Hpt).
    pose proof (ef_entry _ _ _ Hpt 0%nat p eq_refl) as Hcell. rewrite Z.add_0_r in Hcell.
    assert ((pt_cell (cu_table w u) i : DM loc) st = inr (p, st)) as Hpc by (apply pt_cell_run; [lia|done]).
    dstep Hpc.
    assert ((if p =? 0 then mret 0 else tag__recode_dwarf_type (S n) p c) st
      = inr (0, foldl (retype types) st its)) as Hone.
    { destruct Hp as [[-> ->]|[Hp Hr]]; [done|]. rewrite (valid_loc_eqb p Hp). by apply recode_one_run. }
    dstep Hone. cbn [negb Z.eqb]. rewrite u32_small by lia. simpl concat. rewrite foldl_app.
    apply (IH (S n) (i + 1)); [by apply unit_at_foldl|by eapply entries_from_tail| |done|lia].
    by apply all_recode_foldl.
Qed.

(** What recoding all of some different tags amounts to. *)
Lemma retyped_obj_stable st st' o : d_dtags st' = d_dtags st -> retyped_obj types st' o = retyped_obj types st o.
Proof.
  intros Hd. unfold retyped_obj, target_id, target, dtag_of, newest, entry_id. by rewrite Hd.
Qed.

Lemma missing_stable st st' o : d_dtags st' = d_dtags st -> missing types st' o = missing types st o.
Proof. intros Hd. unfold missing, target, dtag_of, newest, entry_id. by rewrite Hd. Qed.

Definition messages (st : dstate) (l : list loc) : list diag :=
  concat (map (fun p => match d_tags st !! p with Some o => missing types st o | None => [] end) l).

Lemma messages_retype st p l : p ∉ l -> messages (retype types st p) l = messages st l.
Proof.
  intros Hp. unfold messages. f_equal. apply map_ext_in. intros q Hq%list_elem_of_In.
  rewrite retype_tags, decide_False by (by intros ->).
  destruct (d_tags st !! q); [|done]. apply missing_stable, retype_dtags.
Qed.

Lemma retype_shape st p :
  retype types st p = set_err (d_err (retype types st p)) (set_tags (d_tags (retype types st p)) st).
Proof. unfold retype. destruct (d_tags st !! p); [done|]. by destruct st. Qed.

Lemma foldl_retype l : forall st, NoDup l ->
  let st' := foldl (retype types) st l in
  st' = set_err (d_err st ++ messages st l) (set_tags (d_tags st') st) /\
  (forall p, p ∈ l -> d_tags st' !! p = retyped_obj types st <$> d_tags st !! p) /\
  (forall p, p ∉ l -> d_tags st' !! p = d_tags st !! p).
Proof.
  induction l as [|q l IH]; intros st Hnd.
  - split; [|split; [set_solver|done]]. unfold messages. simpl. rewrite app_nil_r. by destruct st.
  - apply NoDup_cons in Hnd as [Hq Hnd]. destruct (IH (retype types st q) Hnd) as (H1 & H2 & H3).
    cbn [foldl]. split; [|split].
    + rewrite H1. rewrite messages_retype by done. unfold messages. simpl. fold (messages st l).
      assert (d_err (retype types st q) =
        d_err st ++ match d_tags st !! q with Some o => missing types st o | None => [] end) as ->.
      { unfold retype. destruct (d_tags st !! q); [done|by rewrite app_nil_r]. }
      rewrite <- app_assoc. rewrite (retype_shape st q) at 2. done.
    + intros p [->|Hp]%elem_of_cons.
      * rewrite H3 by done. rewrite retype_tags. by rewrite decide_True.
      * rewrite H2 by done. rewrite retype_tags, decide_False by (by intros ->).
        destruct (d_tags st !! p); [|done]. simpl. f_equal. apply retyped_obj_stable, retype_dtags.
    + intros p Hp. apply not_elem_of_cons in Hp as [Hpq Hp]. rewrite H3 by done.
      rewrite retype_tags. by rewrite decide_False.
Qed.

(** (C14) Recoding a table of types without bit fields.  Let the types of the
    unit be hashed, and let every reference that is followed go to an entry of the
    same unit.  The table holds, in any order and number: types that are no
    structures (base types, pointers, arrays, qualifiers; a typedef has a name or no
    specification); structures, unions, enumerations and namespaces that have a
    name or no specification, with enumerators and with members that are no bit
    fields; function types whose parameters have a type of their own or no abstract
    origin; and types made for a bit field before, which have no entry.  Then
    [cu__recode_dwarf_types_table] runs to its end with 0: each of these types
    that is no structure, each of these members and each of these parameters gets
    the id of the newest type whose entry has the offset it refers to, or zero,
    with a message, when there is none and it refers to something; nothing else
    changes.  What the statement does not cover ([recodes]): bit-field members,
    which get a type of their own; namespaces and functions inside a structure or
    namespace; functions and their blocks; imports; pointers to members; unnamed
    types with a specification; references into another unit's types. *)
Theorem cu__recode_types_correct w ps itss i n st :
  unit_at st -> entries_from (cu_table w u) i ps -> all_recode st ps itss -> NoDup (concat itss) ->
  (length ps < n)%nat ->
  exists st', cu__recode_dwarf_types_table n c w i st = inr (0, st') /\
    st' = set_err (d_err st ++ messages st (concat itss)) (set_tags (d_tags st') st) /\
    (forall p, p ∈ concat itss -> d_tags st' !! p = retyped_obj types st <$> d_tags st !! p) /\
    (forall p, p ∉ concat itss -> d_tags st' !! p = d_tags st !! p).
Proof.
  intros Hu Hpt Ha Hnd Hn. eexists. split; [by apply recode_table_run with (ps := ps)|].
  by apply foldl_retype.
Qed.

End Recode.

(** A structure with a constant and a pointer to itself, after the hashing. *)
Definition ex_rc_obj (tag priv : Z) (b : body) : tagobj := mkObj (mkTag Linked 0 tag true priv) b.
Definition ex_rc_dtag (id off tag : Z) : dwarf_tag :=
  mkDtag (mkRef false off) id null_ref tag 0 0 0 (Some null_ref).
Definition ex_rc_small (id off tag small : Z) : dwarf_tag := set_dt_small_id small (ex_rc_dtag id off tag).
Definition ex_rc_member (name : strings_t) (off : Z) : body :=
  BClassMember (mkMember name (off * 8) 0 off 0 0 0 0 false 0 false 0 0 0).
Definition ex_rc_struct : body :=
  BClass (mkClass (mkType (mkNs 7 2 false None (Tags [80; 96])) 16 0 2 0) [] 0 0 0 0 0).
Definition ex_rc_unit : cu :=
  mkCu [16; 32; 48; 64] (mkPt (list_to_map [(0, 0); (1, 16); (2, 32); (3, 48); (4, 64)]) 5 256)
    (mkPt ∅ 0 0) (mkPt ∅ 0 0) "page_alloc.c" "vmlinux" 9 [] true 8 true true 1 0 0 [].
Definition ex_rc_dcu : dwarf_cu := mkDcu [] 8 0.
Definition ex_rc_before : dstate :=
  mkD (list_to_map [(16, ex_rc_obj DW_TAG_base_type 17 (BBaseType (mkBase 3 32 true true false false 0)));
        (32, ex_rc_obj DW_TAG_structure_type 33 ex_rc_struct); (48, ex_rc_obj DW_TAG_const_type 49 BTag);
        (64, ex_rc_obj DW_TAG_pointer_type 65 BTag); (80, ex_rc_obj DW_TAG_member 81 (ex_rc_member 12 0));
        (96, ex_rc_obj DW_TAG_member 97 (ex_rc_member 18 8))])
    (list_to_map [(17, ex_rc_small 45 0 16 1); (33, ex_rc_small 59 0 32 2); (49, ex_rc_small 98 45 48 3);
        (65, ex_rc_small 103 59 64 4); (81, ex_rc_dtag 67 98 80); (97, ex_rc_dtag 76 103 96)])
    {[ 9 := ex_rc_dcu ]} {[ 8 := ex_rc_unit ]} [] (mkRbheap ∅ ∅) strings__new [] [] loader_init
    ex_hash_heap.
Definition ex_rc_hash : HList.hheap := Eval vm_compute in
  match hash_unit 9 8 0 [16; 32; 48; 64] ex_rc_before with inr (_, st) => d_hash st | inl _ => no_hash end.
Definition ex_rc_state : dstate := set_dhash ex_rc_hash ex_rc_before.

Lemma ex_rc_table : table_of ex_rc_state (hash_types 9) [65; 49; 33; 17].
Proof.
  destruct (hash_unit_run ex_rc_before 8 ex_rc_unit ex_rc_dcu 0 [16; 32; 48; 64] ∅
    (list_to_map [(17, true); (33, true); (49, true); (65, true)])) as (h' & L' & F' & Hrun & _ & Htab & _).
  - reflexivity.
  - reflexivity.
  - exact ex_hash_rep.
  - exact ex_hash_raw.
  - repeat constructor; eexists; (split; [reflexivity|eexists; reflexivity]).
  - split; [by apply (bool_decide_unpack _)|]. repeat constructor; eexists; reflexivity.
  - assert (E : match hash_unit 9 8 0 [16; 32; 48; 64] ex_rc_before with
      | inr (_, st) => d_hash st | inl _ => no_hash end = ex_rc_hash) by (vm_compute; reflexivity).
    change (cu_priv ex_rc_unit) with 9 in Hrun. rewrite Hrun in E. cbn [d_hash set_dhash] in E. subst h'.
    exact (table_of_dtags _ ex_rc_state _ _ eq_refl eq_refl (Htab true)).
Qed.

Lemma ex_rc_fresh p o dt :
  d_tags ex_rc_state !! p = Some o -> d_dtags ex_rc_state !! priv (o_tag o) = Some dt ->
  tag_type (o_tag o) = 0 -> from_types (dt_type dt) = false -> fresh ex_rc_state p o dt.
Proof. by split. Qed.

Lemma ex_rc_member_plain p o dt m :
  fresh ex_rc_state p o dt -> tag_tag (o_tag o) = DW_TAG_member -> o_body o = BClassMember m ->
  cm_bitfield_size m = 0 -> plain_member ex_rc_state p.
Proof.
  intros Hf Ht Hb Hm. exists o, dt. unfold tag__has_namespace, tag__is_struct, tag__is_union,
    tag__is_namespace, tag__is_enumeration. rewrite Ht. split; [done|]. split; [done|]. split; [|eauto].
  apply (bool_decide_eq_false_1 _). reflexivity.
Qed.

Lemma ex_rc_plain p o dt :
  fresh ex_rc_state p o dt -> priv (o_tag o) <> 0 -> tag__has_namespace (o_tag o) = false ->
  tag__is_type (o_tag o) = false -> bool_decide (tag_tag (o_tag o) ∈ other_kinds) = false ->
  recodes ex_rc_state p [p].
Proof.
  intros Hf Hp Hn Ht Hk. apply (rc_plain _ _ o dt); try done.
  - by rewrite Ht.
  - by apply bool_decide_eq_false in Hk.
Qed.

Lemma cu__recode_types_correct_witness :
  exists st', @cu__recode_dwarf_types_table sample_machine 6 8 TypesTable 1 ex_rc_state = inr (0, st') /\
    d_err st' = [] /\
    map (fun p : loc => tag_type ∘ o_tag <$> d_tags st' !! p) [16; 32; 48; 64; 80; 96] =
    [Some 0; Some 0; Some 1; Some 2; Some 3; Some 4].
Proof.
  destruct (@cu__recode_types_correct sample_machine 8 ex_rc_unit ex_rc_dcu [65; 49; 33; 17] TypesTable
    [16; 32; 48; 64] [[16]; [80; 96]; [48]; [64]] 1 6 ex_rc_state) as (st' & Hrun & Heq & Hin & Hout).
  - by split; [| | |apply ex_rc_table].
  - split; [lia|done|done|].
    intros [|[|[|[|k]]]] p Hp; inversion Hp; subst; reflexivity.
  - unfold all_recode.
    repeat first [apply Forall2_nil_2 | apply Forall2_cons_2; [right; split; [done|]|]].
    + by eapply ex_rc_plain; [eapply ex_rc_fresh|..].
    + eapply (rc_members _ _ (ex_rc_obj DW_TAG_structure_type 33 ex_rc_struct) (ex_rc_small 59 0 32 2)
        (mkNs 7 2 false None (Tags [80; 96]))); try reflexivity; try done.
      * intros _. eexists _, _. split; [reflexivity|]. split; [reflexivity|]. by right.
      * repeat first [apply List.Forall_nil | apply List.Forall_cons;
          [eapply ex_rc_member_plain; [by eapply ex_rc_fresh|..]; reflexivity|]].
    + by eapply ex_rc_plain; [eapply ex_rc_fresh|..].
    + by eapply ex_rc_plain; [eapply ex_rc_fresh|..].
  - apply (bool_decide_eq_true_1 _). vm_compute. reflexivity.
  - simpl. lia.
  - exists st'. split; [exact Hrun|]. split; [by rewrite Heq|]. cbn [map].
    rewrite (Hin 16), (Hin 48), (Hin 64), (Hin 80), (Hin 96), (Hout 32)
      by (apply (bool_decide_eq_true_1 _); vm_compute; reflexivity).
    vm_compute. reflexivity.
Defined.
