(* ===== verification/DwProcessProps.v ===== *)
(** * Entries that the loader does not know

    [__die__process_tag] returns the address of the static [unsupported_tag] for
    an entry whose tag it does not handle.  The loops over a unit, a function and
    an inline expansion skip it; the loops over a namespace, a class and a function type
    use it like any other tag, although it has no [dwarf_tag]. *)
From S2P Require Import Prelude StdMap RbTree GoBuffer DUtil DwTypes Dwarves DwClass DwUnits DwHash DwHashProps DwDie DwLoader DwProcess DwRecode DwLoad DwSample.
Local Open Scope list_scope.
Local Open Scope Z_scope.

(** The tags that [__die__process_tag] has a case for. *)
Definition handled_kinds : list Z :=
  [DW_TAG_array_type; DW_TAG_base_type; DW_TAG_const_type; DW_TAG_imported_declaration;
   DW_TAG_imported_module; DW_TAG_pointer_type; DW_TAG_reference_type; DW_TAG_volatile_type;
   DW_TAG_ptr_to_member_type; DW_TAG_enumeration_type; DW_TAG_namespace; DW_TAG_class_type;
   DW_TAG_interface_type; DW_TAG_structure_type; DW_TAG_subprogram; DW_TAG_subroutine_type;
   DW_TAG_typedef; DW_TAG_union_type; DW_TAG_variable].
(** The further tags with a case in [die__process_class]. *)
Definition class_kinds : list Z :=
  [DW_TAG_GNU_template_template_param; DW_TAG_GNU_template_parameter_pack;
   DW_TAG_template_type_parameter; DW_TAG_template_value_parameter; DW_TAG_inheritance; DW_TAG_member].

Section Unsupported.
Context `{Libdw} `{Machine}.

(** The static object as the loader starts: zeroed, and no [dwarf_tag] at NULL. *)
Record static_tag (st : dstate) : Prop := {
  sg_addr : m_unsupported_tag <> 0;
  sg_obj : exists top, d_tags st !! m_unsupported_tag = Some (mkObj (mkTag Garbage 0 0 top 0) BTag);
  sg_null : d_dtags st !! 0 = None
}.

(** The message, and the flag that is set. *)
Definition reported (die : Die) (top : bool) (st : dstate) : dstate :=
  set_tags (<[m_unsupported_tag := mkObj (mkTag Garbage 0 0 top 0) BTag]> (d_tags st))
    (set_err (d_err st ++ [tag_not_handled (dw_tag die) (dw_dieoffset die)]) st).

Lemma err_run d st : err d st = inr (tt, set_err (d_err st ++ [d]) st).
Proof. done. Qed.

Lemma process_unhandled n die c top st :
  dw_tag die ∉ handled_kinds -> static_tag st ->
  p_tag (processors_at (S n)) die c top st = inr (m_unsupported_tag, reported die top st).
Proof.
  intros Hk [Ha [top0 Ho] _]. cbn [processors_at p_tag]. unfold __die__process_tag.
  rewrite !(not_kind _ _ _ Hk) by (unfold handled_kinds; set_solver).
  rewrite !(not_kinds _ _ _ Hk) by (unfold handled_kinds; set_solver).
  rewrite dbind_assoc. dstep (err_run (tag_not_handled (dw_tag die) (dw_dieoffset die)) st). rewrite dret.
  rewrite (valid_loc_eqb _ Ha). cbn [negb].
  by rewrite (dbind _ _ _ _ _ (upd_tag_run (set_err _ st) _ _ _ Ho)).
Qed.

Lemma reported_static die top st : static_tag st -> static_tag (reported die top st).
Proof.
  intros [Ha Ho Hn]. split; [done| |done]. exists top. unfold reported. cbn. apply lookup_insert_eq.
Qed.

(** Adding the static object to the tables of a unit. *)
Lemma table_add_static n c u st :
  static_tag st -> d_cus st !! c = Some u ->
  exists rc st1, cu__table_add_tag m_grow_ok n c m_unsupported_tag (-1) st = inr (rc, st1) /\ static_tag st1.
Proof.
  intros [Ha [top Ho] Hn] Hu. unfold cu__table_add_tag. dstep (load_tag_run _ _ _ Ho). cbn.
  unfold table_add. dstep (load_cu_run _ _ _ Hu). cbn [Z.ltb Z.compare].
  destruct (ptr_table__add m_grow_ok (cu_table TagsTable u) m_unsupported_tag) as [id pt].
  eexists _, _. split; [reflexivity|]. split; [done|by exists top|done].
Qed.

(** The program stops: it uses NULL, or an assertion of [tag__delete] fails. *)
Definition crashes {A} (r : exn + A) : Prop :=
  exists e, r = inl e /\ (e = undefined "invalid dwarf_tag" \/ e = exit_with 134).

Lemma crash_bind {A B} (f : DM A) (k : A -> DM B) st : crashes (f st) -> crashes ((f ≫= k) st).
Proof. intros (e & Hf & He). exists e. split; [|done]. unfold mbind, M_bind. by rewrite Hf. Qed.

Lemma load_dtag_invalid st p : d_dtags st !! p = None -> load_dtag p st = inl (undefined "invalid dwarf_tag").
Proof. intros Hp. unfold load_dtag, must, mbind, M_bind, get_st. by rewrite Hp. Qed.

Lemma dbind_err {A B} (f : DM A) (k : A -> DM B) st e : f st = inl e -> (f ≫= k) st = inl e.
Proof. intros Hf. unfold mbind, M_bind. by rewrite Hf. Qed.

Lemma set_small_id_crash st id : static_tag st -> crashes (set_small_id m_unsupported_tag id st).
Proof.
  intros [Ha [top Ho] Hn]. unfold set_small_id. dstep (load_tag_run _ _ _ Ho). cbn.
  eexists. split; [|by left]. unfold upd_dtag. by apply dbind_err, load_dtag_invalid.
Qed.

Lemma delete_crash n c st : static_tag st -> crashes (tag__delete (S n) m_unsupported_tag c st).
Proof.
  intros [Ha [top Ho] Hn]. cbn [tag__delete]. dstep (load_tag_run _ _ _ Ho). cbn.
  eexists. split; [reflexivity|by right].
Qed.

(** What the loops over namespaces and classes do with the object. *)
Lemma register_crash n c u st (k : Z * Z -> DM (option Z)) :
  static_tag st -> d_cus st !! c = Some u ->
  crashes ((r ← cu__table_add_tag m_grow_ok (S n) c m_unsupported_tag (-1);
    if r.1 <? 0 then tag__delete (S n) m_unsupported_tag c;;; mret (Some (- ENOMEM)) else
    set_small_id m_unsupported_tag r.2;;; k r) st).
Proof.
  intros Hs Hu. destruct (table_add_static (S n) c u st Hs Hu) as (rc & st1 & Hrun & Hs1). dstep Hrun.
  destruct (rc.1 <? 0); apply crash_bind; [by apply delete_crash|by apply set_small_id_crash].
Qed.

(** The tags with a case of their own in [die__process_function]. *)
Definition function_kinds : list Z :=
  [DW_TAG_GNU_call_site; DW_TAG_GNU_call_site_parameter; DW_TAG_template_type_parameter;
   DW_TAG_template_value_parameter; DW_TAG_formal_parameter; DW_TAG_variable;
   DW_TAG_unspecified_parameters; DW_TAG_label; DW_TAG_inlined_subroutine; DW_TAG_lexical_block].

(** The loop goes on with the next sibling. *)
Lemma for_each_sibling_next n f die st st' : f die st = inr (None, st') ->
  for_each_sibling (S n) f die st =
  match dw_siblingof die with None => inr (0, st') | Some next => for_each_sibling n f next st' end.
Proof. intros Hf. cbn [for_each_sibling]. dstep Hf. by destruct (dw_siblingof die). Qed.

Lemma for_each_sibling_crash n f die st : crashes (f die st) -> crashes (for_each_sibling (S n) f die st).
Proof. intros Hf. cbn [for_each_sibling]. by apply crash_bind. Qed.

Lemma namespace_crash n m die space c u st :
  dw_tag die ∉ handled_kinds -> static_tag st -> d_cus st !! c = Some u ->
  crashes (die__process_namespace (S n) (processors_at (S m)) die space c st).
Proof.
  intros Hk Hs Hu. apply for_each_sibling_crash. dstep (process_unhandled m die c false st Hk Hs).
  rewrite (valid_loc_eqb _ (sg_addr _ Hs)).
  refine (register_crash n c u (reported die false st) (fun r => _) _ Hu). by apply reported_static.
Qed.

Lemma class_crash n m die class c u o st :
  dw_tag die ∉ handled_kinds -> dw_tag die ∉ class_kinds -> static_tag st -> d_cus st !! c = Some u ->
  d_tags st !! class = Some o ->
  crashes (die__process_class (S n) (processors_at (S m)) die class c st).
Proof.
  intros Hk Hc Hs Hu Ho. unfold die__process_class. dstep (load_tag_run _ _ _ Ho).
  apply for_each_sibling_crash. unfold not_supported_in_class.
  rewrite (not_kinds _ _ _ Hc) by (unfold class_kinds; set_solver).
  rewrite !(not_kind _ _ _ Hc) by (unfold class_kinds; set_solver). cbn [orb].
  dstep (process_unhandled m die c false st Hk Hs).
  rewrite (valid_loc_eqb _ (sg_addr _ Hs)).
  refine (register_crash n c u (reported die false st) (fun r => _) _ Hu). by apply reported_static.
Qed.

(** The default case of the loops over functions and inline expansions. *)
Lemma other_skips n m die c st : dw_tag die ∉ handled_kinds -> static_tag st ->
  process_other n (processors_at (S m)) die c st = inr (None, reported die false st).
Proof.
  intros Hk Hs. unfold process_other. dstep (process_unhandled m die c false st Hk Hs).
  rewrite (valid_loc_eqb _ (sg_addr _ Hs)). by rewrite Z.eqb_refl.
Qed.

Lemma function_skips n m ftype block c die st :
  dw_tag die ∉ handled_kinds -> dw_tag die ∉ function_kinds -> static_tag st ->
  function_entry n (processors_at (S m)) ftype block c die st = inr (None, reported die false st).
Proof.
  intros Hk Hf Hs. unfold function_entry, is_call_site.
  rewrite !(not_kind _ _ _ Hf) by (unfold function_kinds; set_solver). by apply other_skips.
Qed.

Lemma inline_skips n m block c die st :
  dw_tag die ∉ handled_kinds -> dw_tag die ∉ function_kinds -> static_tag st ->
  inline_entry n (processors_at (S m)) block c die st = inr (None, reported die false st).
Proof.
  intros Hk Hf Hs. unfold inline_entry, is_call_site.
  rewrite !(not_kind _ _ _ Hf) by (unfold function_kinds; set_solver). by apply other_skips.
Qed.

Lemma unit_skips n c die st : dw_tag die ∉ handled_kinds -> static_tag st ->
  unit_entry (S n) c die st = inr (None, reported die true st).
Proof.
  intros Hk Hs. unfold unit_entry. dstep (process_unhandled n die c true st Hk Hs).
  rewrite (valid_loc_eqb _ (sg_addr _ Hs)). by rewrite Z.eqb_refl.
Qed.

(** (C13) Entries of an unknown kind, at any place in a chain of siblings.  At the
    top level of a unit, in a function and in an inline expansion such an entry is
    reported, nothing is added, and the loop goes on with the next sibling if there
    is one; a unit, function or expansion that ends with it is complete.  The loops
    over a namespace and over a class stop there, whatever follows: the static
    object for unknown entries is registered like a tag, but has no [dwarf_tag] to
    store its id in; or, when the table cannot grow, an assertion of [tag__delete]
    fails. *)
Theorem unsupported_entry n m k die c u st :
  dw_tag die ∉ handled_kinds -> static_tag st -> d_cus st !! c = Some u ->
  let goes_on top (entry : Die -> DM (option Z)) :=
    for_each_sibling (S k) entry die st =
    match dw_siblingof die with
    | None => inr (0, reported die top st)
    | Some next => for_each_sibling k entry next (reported die top st)
    end in
  goes_on true (unit_entry (S n) c) /\
  (dw_tag die ∉ function_kinds -> forall ftype block,
     goes_on false (function_entry n (processors_at (S m)) ftype block c) /\
     goes_on false (inline_entry n (processors_at (S m)) block c)) /\
  (forall space, crashes (die__process_namespace (S n) (processors_at (S m)) die space c st)) /\
  (forall class o, dw_tag die ∉ class_kinds -> d_tags st !! class = Some o ->
     crashes (die__process_class (S n) (processors_at (S m)) die class c st)).
Proof.
  intros Hk Hs Hu goes_on. split; [|split; [|split]].
  - by apply for_each_sibling_next, unit_skips.
  - intros Hf ftype block. split; apply for_each_sibling_next; [by apply function_skips|by apply inline_skips].
  - intros. by eapply namespace_crash.
  - intros. by eapply class_crash.
Qed.

End Unsupported.

(** An entry for an unspecified type (DW_TAG 0x3b), as [nullptr_t] has one in the
    namespace [std]. *)
Definition ex_unspecified : list sample_row := [mkRow 0x3b 77 [] None None].
Definition ex_un_unit : cu :=
  mkCu [] (mkPt {[ 0 := 0 ]} 1 256) (mkPt ∅ 0 0) (mkPt ∅ 0 0) "a.cc" "a.out" 9 [] true 8 true true 4 0 0 [].
Definition ex_un_state : dstate :=
  mkD {[ 8 := mkObj (mkTag Garbage 0 0 false 0) BTag ]} ∅ {[ 9 := mkDcu [] 16 0 ]} {[ 16 := ex_un_unit ]}
    [] (mkRbheap ∅ ∅) strings__new [] [] loader_init (new_heads 9 0 no_hash).

(** A unit with two of them in front of a typedef, which is still loaded. *)
Definition ex_un_chain : list sample_row :=
  [ mkRow 0x3b 77 [] None (Some 1%nat); mkRow 0x3b 78 [] None (Some 2%nat);
    mkRow 0x16 79 [(0x03, VStr "len"); (0x49, VRef 0)] None None ].

Lemma unsupported_entry_witness :
  let L := sample_libdw ex_un_chain in let M := sample_machine in
  (exists st', @die__process_unit L M 3 (0%nat : @Die L) 16 ex_un_state = inr (0, st') /\
     d_err st' = [tag_not_handled 0x3b 77; tag_not_handled 0x3b 78] /\
     cu_tags <$> d_cus st' !! 16 = Some [32]) /\
  @die__process_namespace L M 3 (@processors_at L M 3) (0%nat : @Die L) 8 16 ex_un_state =
    inl (undefined "invalid dwarf_tag").
Proof.
  intros L M.
  destruct (@unsupported_entry L M 2 2 2 (0%nat : @Die L) 16 ex_un_unit ex_un_state) as (Hunit & _ & Hns & _).
  - by apply (bool_decide_eq_false_1 _).
  - split; [done|by exists false|done].
  - reflexivity.
  - split.
    + unfold die__process_unit. rewrite Hunit. vm_compute. eexists. split; [reflexivity|]. split; reflexivity.
    + destruct (Hns 8) as (e & Hrun & [->| ->]); [exact Hrun|]. exfalso. vm_compute in Hrun. discriminate Hrun.
Defined.
