(* ===== verification/DwNames.v ===== *)
(** * Printing type names: the first half of dwarves_fprintf.c

    A function that fills a buffer or writes to a stream returns the text; a
    text that a bounded buffer holds without a terminating NUL byte is undefined
    behaviour of the first reader.  The functions call each other through types
    of types; [n] bounds the depth. *)
From S2P Require Import Prelude StdMap CxxStd RbTree GoBuffer DwTypes Dwarves.
From Stdlib Require Import Strings.Ascii.
Local Open Scope list_scope.
Local Open Scope Z_scope.

(** [%d] of an [int]. *)
Definition show_int (n : Z) : string := if n <? 0 then "-" +:+ print_dec (- n) else print_dec n.

Definition newline : string := String (ascii_of_nat 10) EmptyString.

Definition slen (s : string) : Z := Z.of_nat (String.length s).

(** [strncpy(bf, s, len)], or writing [s] through [fmemopen(bf, len)]: what is
    then read as a string from [bf]. *)
Definition fill (len : Z) (s : string) : DM string :=
  if slen s <? len then mret s else undef "unterminated buffer".

(** [l = snprintf(bf, len, s1); snprintf(bf + l, len - l, s2)] *)
Definition snprintf2 (len : Z) (s1 s2 : string) : DM string :=
  if slen s1 <? len then mret (s1 +:+ snprintf (len - slen s1) s2)
  else undef "buffer length below zero".

(** ** Names of tags *)

Definition dwarf_tag_names : list (Z * string) :=
  [(DW_TAG_array_type, "array_type"); (DW_TAG_class_type, "class_type");
   (DW_TAG_entry_point, "entry_point"); (DW_TAG_enumeration_type, "enumeration_type");
   (DW_TAG_formal_parameter, "formal_parameter");
   (DW_TAG_imported_declaration, "imported_declaration"); (DW_TAG_label, "label");
   (DW_TAG_lexical_block, "lexical_block"); (DW_TAG_member, "member");
   (DW_TAG_pointer_type, "pointer_type"); (DW_TAG_reference_type, "reference_type");
   (DW_TAG_compile_unit, "compile_unit"); (DW_TAG_string_type, "string_type");
   (DW_TAG_structure_type, "structure_type"); (DW_TAG_subroutine_type, "subroutine_type");
   (DW_TAG_typedef, "typedef"); (DW_TAG_union_type, "union_type");
   (DW_TAG_unspecified_parameters, "unspecified_parameters"); (0x19, "variant");
   (0x1a, "common_block"); (0x1b, "common_inclusion"); (DW_TAG_inheritance, "inheritance");
   (DW_TAG_inlined_subroutine, "inlined_subroutine"); (0x1e, "module");
   (DW_TAG_ptr_to_member_type, "ptr_to_member_type"); (0x20, "set_type");
   (DW_TAG_subrange_type, "subrange_type"); (0x22, "with_stmt"); (0x23, "access_declaration");
   (DW_TAG_base_type, "base_type"); (0x25, "catch_block"); (DW_TAG_const_type, "const_type");
   (0x27, "constant"); (DW_TAG_enumerator, "enumerator"); (0x29, "file_type");
   (0x2a, "friend"); (0x2b, "namelist"); (0x2c, "namelist_item"); (0x2d, "packed_type");
   (DW_TAG_subprogram, "subprogram"); (DW_TAG_template_type_parameter, "template_type_parameter");
   (DW_TAG_template_value_parameter, "template_value_parameter"); (0x31, "thrown_type");
   (0x32, "try_block"); (0x33, "variant_part"); (DW_TAG_variable, "variable");
   (DW_TAG_volatile_type, "volatile_type"); (0x36, "dwarf_procedure"); (0x37, "restrict_type");
   (DW_TAG_interface_type, "interface_type"); (DW_TAG_namespace, "namespace");
   (DW_TAG_imported_module, "imported_module"); (0x3b, "unspecified_type");
   (0x3c, "partial_unit"); (0x3d, "imported_unit"); (0x3f, "condition");
   (DW_TAG_shared_type, "shared_type"); (DW_TAG_type_unit, "type_unit");
   (DW_TAG_rvalue_reference_type, "rvalue_reference_type")].

(** Indexed by the distance from [DW_TAG_MIPS_loop]. *)
Definition dwarf_gnu_tag_names : list (Z * string) :=
  [(0, "MIPS_loop"); (0x80, "format_label"); (0x81, "function_template"); (0x82, "class_template");
   (0x83, "BINCL"); (0x84, "EINCL"); (0x85, "template_template_param");
   (0x86, "template_parameter_pack"); (0x87, "formal_parameter_pack")].

(** An entry without designator is a null pointer. *)
Definition table_entry (l : list (Z * string)) (i : Z) : option string :=
  snd <$> List.find (fun e => e.1 =? i) l.

Definition dwarf_tag_name (tag : Z) : option string :=
  if (DW_TAG_array_type <=? tag) && (tag <=? DW_TAG_rvalue_reference_type)
  then table_entry dwarf_tag_names tag
  else if (DW_TAG_MIPS_loop <=? tag) && (tag <=? DW_TAG_GNU_formal_parameter_pack)
  then table_entry dwarf_gnu_tag_names (tag - DW_TAG_MIPS_loop)
  else Some "INVALID".

Definition tag__prefix (c : cu) (tag : Z) : string :=
  if tag =? DW_TAG_enumeration_type then "enum "
  else if tag =? DW_TAG_structure_type then if cu_language c =? LANG_C_plus_plus then "class " else "struct "
  else if tag =? DW_TAG_class_type then "class "
  else if tag =? DW_TAG_union_type then "union "
  else if tag =? DW_TAG_pointer_type then " *"
  else if tag =? DW_TAG_reference_type then " &"
  else EmptyString.

(** ** Error texts; they name the C function and the line *)

Definition id_not_found_text (fn line : string) (id : Z) : string :=
  "<ERROR(" +:+ fn +:+ ":" +:+ line +:+ "): " +:+ print_hex id +:+ " not found!>".
Definition id_not_found_line (fn line : string) (id : Z) : string :=
  "<ERROR(" +:+ fn +:+ ":" +:+ line +:+ "): " +:+ print_dec id +:+ " not found!>" +:+ newline.

(** The message of [__tag__has_type_loop]; [None] without a loop. *)
Definition type_loop_text (fn line : string) (p ty : loc) : DM (option string) :=
  if ty =? 0 then mret None else
  t ← load_tag p; tty ← load_tag ty;
  if has_type_loop t tty then
    name ← arg_s (dwarf_tag_name (tag_tag t));
    mret (Some ("<ERROR(" +:+ fn +:+ ":" +:+ line +:+ "): detected type loop: type=" ++
                print_dec (tag_type t) +:+ ", tag=" +:+ name +:+ ">"))
  else mret None.

(** ** Type names *)

Section Names.
Context (ops : debug_fmt_ops).
(** What [type__name] yields for the tag of an object that has no name field:
    the memory after the object. *)
Context (stray_name : loc -> option string).
(** Whether [fmemopen] succeeds. *)
Context (fmemopen_ok : bool).

Definition type_name_of (p c : loc) : DM (option string) :=
  o ← load_obj p;
  match tag__namespace (o_body o) with
  | Some ns => namespace__name ops ns c
  | None => mret (stray_name p)
  end.

(** The functions for one level of nesting, given those for the next one. *)
Section Level.
Context (tag_name_rec : loc -> Z -> DM string).
Context (ftype_rec : loc -> option string -> bool -> bool -> DM string).
Context (c : loc).

Definition tag__ptr_name (p : loc) (len : Z) (ptr_suffix : string) : DM string :=
  t ← load_tag p;
  if tag_type t =? 0 then mret (snprintf len ("void " +:+ ptr_suffix)) else
  ty ← cu__type c (tag_type t);
  if ty =? 0 then
    snprintf2 len (id_not_found_text "tag__ptr_name" "274" (tag_type t)) (" " +:+ ptr_suffix)
  else
    loop ← type_loop_text "tag__ptr_name" "276" p ty;
    match loop with
    | Some msg => mret (snprintf len msg)
    | None => name ← tag_name_rec ty 1024; mret (snprintf len (name +:+ " " +:+ ptr_suffix))
    end.

(** What follows a pointer to a member: the class it belongs to. *)
Definition member_suffix (p : loc) : DM string :=
  id ← cast tag__ptr_to_member_type p;
  ty ← cu__type c id;
  if ty =? 0 then snprintf2 512 (id_not_found_text "__tag__name" "346" id) "::*"
  else name ← type_name_of ty c; name ← arg_s name; mret (snprintf 512 (name +:+ "::*")).

Definition __tag__name_at (p : loc) (len : Z) : DM string :=
  if p =? 0 then fill len "void" else
  t ← load_tag p;
  let k := tag_tag t in
  if k =? DW_TAG_base_type then
    bt ← cast tag__base_type p;
    name ← (if bt_name bt =? 0 then mret (Some "nameless base type!"%string)
            else base_type__name ops bt c 64);
    name ← arg_s name; fill len name
  else if k =? DW_TAG_subprogram then name ← function__name ops p c; name ← arg_s name; fill len name
  else if k =? DW_TAG_pointer_type then tag__ptr_name p len "*"
  else if k =? DW_TAG_reference_type then tag__ptr_name p len "&"
  else if k =? DW_TAG_ptr_to_member_type then s ← member_suffix p; tag__ptr_name p len s
  else if (k =? DW_TAG_volatile_type) || (k =? DW_TAG_const_type) then
    ty ← cu__type c (tag_type t);
    if (ty =? 0) && negb (tag_type t =? 0) then
      mret (snprintf len (id_not_found_text "__tag__name" "358" (tag_type t)))
    else
      loop ← type_loop_text "__tag__name" "359" p ty;
      match loop with
      | Some msg => mret (snprintf len msg)
      | None =>
          type_str ← tag_name_rec ty 128;
          let prefix := if k =? DW_TAG_volatile_type then "volatile"%string else "const"%string in
          mret (snprintf len (prefix +:+ " " +:+ type_str +:+ " "))
      end
  else if k =? DW_TAG_array_type then
    ty ← cu__type c (tag_type t);
    if ty =? 0 then mret (snprintf len (id_not_found_text "__tag__name" "372" (tag_type t))) else
    loop ← type_loop_text "__tag__name" "373" p ty;
    match loop with Some msg => mret (snprintf len msg) | None => tag_name_rec ty len end
  else if k =? DW_TAG_subroutine_type then
    if fmemopen_ok then s ← ftype_rec p None false false; fill len s
    else mret (snprintf len "<ERROR(__tag__name): fmemopen failed!>")
  else if k =? DW_TAG_member then
    name ← class_member__name ops p c; name ← arg_s name; mret (snprintf len name)
  else if k =? DW_TAG_variable then
    name ← variable__name ops p c; name ← arg_s name; mret (snprintf len name)
  else
    cu ← load_cu c; name ← type_name_of p c;
    mret (snprintf len (tag__prefix cu k +:+ default EmptyString name)).

(** [bf] has [len + 1] bytes in every call. *)
Definition tag__name_at (p : loc) (len : Z) : DM string :=
  if p =? 0 then fill len "void" else
  t ← load_tag p;
  if tag_tag t =? DW_TAG_const_type then
    ty ← cu__type c (tag_type t);
    s ← tag_name_rec ty len;
    if slen s + 5 <=? len then mret (s +:+ "const") else undef "strncat beyond the buffer"
  else tag_name_rec p len.

(** The parameters from a position; the text after them is printed by the
    caller unless a loop of types stops the function. *)
Fixpoint parms_loop (l : list loc) : DM (string * bool) :=
  match l with
  | [] => mret (EmptyString, true)
  | pos :: l =>
      name ← parameter__name ops pos c;
      t ← load_tag pos;
      ty ← cu__type c (tag_type t);
      let next (s : string) : DM (string * bool) := '(s', done) ← parms_loop l; mret (s +:+ s', done) in
      let print_it (stype : string) : DM (string * bool) :=
        next (stype +:+ match name with Some n => " " +:+ n | None => EmptyString end) in
      if ty =? 0 then print_it (snprintf 128 ("<ERROR: type " +:+ print_dec (tag_type t) +:+ " not found>")) else
      tty ← load_tag ty;
      if (tag_tag tty =? DW_TAG_pointer_type) && negb (tag_type tty =? 0) then
        ptype ← cu__type c (tag_type tty);
        if ptype =? 0 then next (id_not_found_line "ftype__fprintf_parms" "687" (tag_type tty)) else
        loop ← type_loop_text "ftype__fprintf_parms" "690" ty ptype;
        match loop with
        | Some msg => mret (snprintf 2048 msg +:+ newline, false)
        | None =>
            pt ← load_tag ptype;
            if tag_tag pt =? DW_TAG_subroutine_type then s ← ftype_rec ptype name false true; next s
            else stype ← tag__name_at ty 127; print_it stype
        end
      else if tag_tag tty =? DW_TAG_subroutine_type then s ← ftype_rec ty name false false; next s
      else stype ← tag__name_at ty 127; print_it stype
  end.

Definition ftype__fprintf_parms (p : loc) : DM string :=
  f ← cast tag__ftype p;
  '(s, done) ← parms_loop (ft_parms f);
  mret ("(" +:+ s +:+
        (if negb done then EmptyString
         else match ft_parms f with
              | [] => "void)"
              | _ => if ft_unspec_parms f then ", ...)" else ")"
              end)%string).

Definition ftype__fprintf_at (p : loc) (name : option string) (inlined is_pointer : bool) : DM string :=
  t ← load_tag p;
  type ← cu__type c (tag_type t);
  stype ← tag__name_at type 127;
  let sub := tag_tag t =? DW_TAG_subroutine_type in
  parms ← ftype__fprintf_parms p;
  mret ((if inlined then "inline " else "") +:+ stype +:+ " " +:+ (if sub then "(" else "") +:+
        (if is_pointer then "*" else "") +:+ default EmptyString name +:+ (if sub then ")" else "") +:+
        parms)%string.

End Level.

Fixpoint __tag__name (n : nat) (p c : loc) (len : Z) : DM string :=
  match n with
  | O => raise out_of_fuel
  | S n => __tag__name_at (fun p len => __tag__name n p c len)
      (fun p name inlined is_pointer => ftype__fprintf n p c name inlined is_pointer) c p len
  end
with ftype__fprintf (n : nat) (p c : loc) (name : option string) (inlined is_pointer : bool) : DM string :=
  match n with
  | O => raise out_of_fuel
  | S n => ftype__fprintf_at (fun p len => __tag__name n p c len)
      (fun p name inlined is_pointer => ftype__fprintf n p c name inlined is_pointer) c p name
      inlined is_pointer
  end.

Definition tag__name (n : nat) (p c : loc) (len : Z) : DM string :=
  tag__name_at (fun p len => __tag__name n p c len) c p len.

Definition function__prototype (n : nat) (func c : loc) (len : Z) : DM string :=
  if fmemopen_ok then s ← ftype__fprintf n func c None false false; fill len s
  else mret (snprintf len "<ERROR(function__prototype): fmemopen failed!>").

End Names.
