(* ===== verification/DwPrint.v ===== *)
(** * Printing the layout of structures: the second half of dwarves_fprintf.c

    [class__fprintf] writes one row per member to structs_layout.csv and
    recurses into the members whose type is to be expanded; the name of a nested
    member is the dotted path to it, kept in the [name_prefixes] of the
    [dwarves_convert_ext].  The registry of member names and the decision to
    expand a type are callbacks of the converter, a class here. *)
From S2P Require Import Prelude StdMap CxxStd RbTree GoBuffer DwTypes Dwarves DwClass DwUnits DwNames.
From Stdlib Require Import Strings.Ascii.
Local Open Scope list_scope.
Local Open Scope Z_scope.

(** The callbacks of [struct dwarves_convert_ext] on the converter's state. *)
Class MemberNames (N : Type) := {
  expand_type : N -> string -> bool;
  add_member_name : string -> N -> Z * N
}.

(** Registering a name leaves the set of expanded types alone. *)
Class MemberNamesOk (N : Type) `{MemberNames N} := {
  expand_stable : forall s t r, expand_type (snd (add_member_name s r)) t = expand_type r t
}.

(** ** Concatenating the names *)

Definition MAX_STRING_LEN : Z := 10.
Definition INT_MAX : Z := 2 ^ 31 - 1.

(** A string under construction: its text, of [pos] characters, and [size]. *)
Record strbuf := mkBuf { sb_text : string; sb_size : Z }.

Section Concat.
(** Whether [malloc] or [realloc] finds so many bytes. *)
Context (mem_ok : Z -> bool).

(** The [do] loop: [None] when it returns -1.  Every round but the last one
    makes the string larger. *)
Fixpoint print_loop (fuel : nat) (b : strbuf) (text : string) : DM (option strbuf) :=
  match fuel with
  | O => raise out_of_fuel
  | S fuel =>
      let n := slen text in
      if INT_MAX <? n then undef "snprintf of more than INT_MAX characters" else
      if sb_size b - slen (sb_text b) <=? n then
        let size := sb_size b + MAX_STRING_LEN in
        if INT_MAX <? size then undef "signed overflow" else
        if mem_ok size then print_loop fuel (mkBuf (sb_text b) size) text else mret None
      else mret (Some (mkBuf (sb_text b +:+ snprintf (sb_size b - slen (sb_text b)) text) (sb_size b)))
  end.

(** [output] is [None] before the first call. *)
Definition print_to_string (output : option strbuf) (text : option string) (use_sep : bool)
    : DM (option strbuf) :=
  text ← arg_s text;
  let text := (text +:+ (if use_sep then "." else EmptyString))%string in
  match output with
  | Some b => print_loop (S (String.length text)) b text
  | None =>
      if mem_ok MAX_STRING_LEN
      then print_loop (S (String.length text)) (mkBuf EmptyString MAX_STRING_LEN) text
      else mret None
  end.

(** The loop over the prefixes, then the name. *)
Fixpoint concat_loop (prefixes : list (option string)) (cm_name : option string)
    (ret : option strbuf) : DM (option strbuf) :=
  match prefixes with
  | [] => print_to_string ret cm_name false
  | prefix :: prefixes =>
      r ← print_to_string ret prefix true;
      match r with None => mret None | Some b => concat_loop prefixes cm_name (Some b) end
  end.

Definition dwarves_convert_concat_members (name_prefixes : list (option string))
    (cm_name : option string) : DM (option string) :=
  r ← concat_loop name_prefixes cm_name None; mret (sb_text <$> r).

End Concat.

(** ** The state of the printer *)

(** [struct dwarves_convert_ext]: the prefixes in use, the first one first. *)
Record ext := mkExt {
  type_id : Z;
  name_prefixes : list (option string);
  ext_offset : Z            (* uint32_t *)
}.

Record pstate (N : Type) := mkP { p_d : dstate; p_out : string; p_ext : ext; p_reg : N }.
Arguments mkP {N}.
Arguments p_d {N}.
Arguments p_out {N}.
Arguments p_ext {N}.
Arguments p_reg {N}.

Section Print.
Context {N : Type} `{MemberNames N}.
Notation PM := (M (pstate N) exn).
Context (ops : debug_fmt_ops) (stray_name : loc -> option string) (fmemopen_ok : bool)
  (mem_ok : Z -> bool) (delimiter : ascii).
(** The bound for chains of types, inside one call. *)
Context (chain : nat).

Definition on_d {A} (f : DM A) : PM A := fun s =>
  match f (p_d s) with
  | inl e => inl e
  | inr (a, d) => inr (a, mkP d (p_out s) (p_ext s) (p_reg s))
  end.
Definition fprintf (text : string) : PM unit :=
  modify (fun s => mkP (p_d s) (p_out s +:+ text) (p_ext s) (p_reg s)).
Definition set_ext (f : ext -> ext) : PM unit :=
  modify (fun s => mkP (p_d s) (p_out s) (f (p_ext s)) (p_reg s)).
Definition register (name : string) : PM Z := fun s =>
  let '(id, r) := add_member_name name (p_reg s) in inr (id, mkP (p_d s) (p_out s) (p_ext s) r).

Definition delim : string := String delimiter EmptyString.

(** [fprintf(fp, "%llu%c", ext->type_id, delimiter)] *)
Definition print_type_id : PM unit :=
  e ← gets p_ext; fprintf (print_dec (type_id e) +:+ delim).

Section Rec.
(** [type__fprintf] for the types below. *)
Context (type_rec : loc -> option string -> option string -> Z -> PM bool).
Context (c : loc).

(** The elements 1, 2, .. of an array of structures, [k] of them. *)
Fixpoint fake_elements (k : nat) (i tag_size : Z) (type : loc) (name : option string) : PM unit :=
  match k with
  | O => mret tt
  | S k =>
      if (i * tag_size <? - 2 ^ 31) || (INT_MAX <? i * tag_size) then raise (undefined "signed overflow") else
      type_rec type name name (u32 (i * tag_size));;;
      fake_elements k (i + 1) tag_size type name
  end.

(** The loop over the dimensions from [i]; [flat] is [flat_dimensions]. *)
Fixpoint dimensions_loop (at_ : array_type) (k i : nat) (flat : Z) : PM Z :=
  match k with
  | O => mret flat
  | S k =>
      nr ← on_d (must "nr_entries out of range" (at_nr_entries at_ !! i));
      if at_is_vector at_ then
        if (nr =? 0) && Nat.eqb i 0 then mret flat
        else dimensions_loop at_ k (S i) (if flat =? 0 then nr else u64 (flat * nr))
      else
        fprintf ("[" +:+ print_dec nr +:+ "]");;; dimensions_loop at_ k (S i) flat
  end.

Definition array_type__fprintf (p : loc) (name : option string) : PM bool :=
  at_ ← on_d (cast tag__array_type p);
  t ← on_d (load_tag p);
  type ← on_d (cu__type c (tag_type t));
  (if type =? 0 then fprintf (id_not_found_line "array_type__fprintf" "202" (tag_type t)) else mret tt);;;
  r ← type_rec type name name 0;
  if r && (at_dimensions at_ =? 1) then
    tag_size ← on_d (tag__size chain type c);
    nr ← on_d (must "nr_entries out of range" (at_nr_entries at_ !! 0%nat));
    if INT_MAX <? nr then raise (undefined "signed overflow") else
    fake_elements (Z.to_nat (nr - 1)) 1 (s32 tag_size) type name;;;
    mret true
  else
    flat ← dimensions_loop at_ (Z.to_nat (at_dimensions at_)) 0 0;
    (if at_is_vector at_ then
       type ← on_d (tag__follow_typedef chain p c);
       size ← on_d (tag__size chain type c);
       fprintf (" __attribute__ ((__vector_size__ (" +:+
                print_dec (u64 ((if flat =? 0 then 1 else flat) * size)) +:+ ")))")
     else mret tt);;;
    mret false.

(** The name of a union member: the names of its members joined by [-]; [None]
    when it has none.  [len] bytes are allocated so far. *)
Fixpoint union_name (tags : list loc) (name : option string) (len : Z) : PM (option string) :=
  match tags with
  | [] => mret name
  | pos :: tags =>
      t ← on_d (load_tag pos);
      if negb (is_member t) then union_name tags name len else
      ty ← on_d (cu__type c (tag_type t));
      if ty =? 0 then union_name tags name len else
      temp ← on_d (class_member__name ops pos c);
      match temp with
      | None => union_name tags name len
      | Some temp =>
          let len := len + slen temp + 2 in
          if negb (mem_ok len) then
            match name with
            | None => raise (undefined "memset of a null pointer")
            | Some _ => raise (exit_with 0)
            end
          else
            union_name tags
              (Some (default EmptyString name +:+ temp +:+
                     match tags with [] => EmptyString | _ => "-" end)%string) len
      end
  end.

(** [sprintf(cm_name_temp, "anonymous_%d", offset)] *)
Definition anonymous_name (offset : Z) : PM string :=
  let text := ("anonymous_" +:+ show_int (s32 offset))%string in
  if negb (mem_ok 19) then raise (exit_with 0)
  else if slen text <? 19 then mret text else raise (undefined "sprintf beyond the buffer").

Definition struct_member__fprintf (member type : loc) (is_last : bool) : PM unit :=
  m ← on_d (cast tag__class_member member);
  let offset := cm_byte_offset m in
  cm_name ← on_d (class_member__name ops member c);
  t ← on_d (load_tag member);
  let name := if tag_tag t =? DW_TAG_inheritance then Some "<ancestor>"%string else cm_name in
  if cm_is_static m then mret tt else
  ty ← on_d (load_tag type);
  cm_name ← (if tag__is_union ty then
               ns ← on_d (cast tag__namespace type); tags ← on_d (own_tags (ns_tags ns));
               temp ← union_name tags None 0;
               mret (match temp with Some _ => temp | None => cm_name end)
             else mret cm_name);
  cm_name ← match cm_name with Some s => mret s | None => anonymous_name offset end;
  r ← type_rec type name (Some cm_name) offset;
  if (r : bool) then mret tt else
  fprintf delim;;;
  e ← gets p_ext;
  full_cm_name ← on_d (dwarves_convert_concat_members mem_ok (name_prefixes e) (Some cm_name));
  member_name_id ← register (default "<error>"%string full_cm_name);
  e ← gets p_ext;
  fprintf (print_dec member_name_id +:+ delim +:+
           show_int (s32 (u32 (offset + ext_offset e))) +:+ delim);;;
  fake ← (if (tag_tag ty =? DW_TAG_array_type) then
            at_ ← on_d (cast tag__array_type type);
            nr ← on_d (must "nr_entries out of range" (at_nr_entries at_ !! 0%nat));
            mret ((nr =? 0) && is_last)
          else mret false);
  fprintf ((if (fake : bool) then print_dec (1024 * 1024) else show_int (s32 (cm_byte_size m))) +:+ newline).

(** The loop over the tags of the structure; [ret] so far. *)
Fixpoint class_loop (tags : list loc) (ret : Z) : PM Z :=
  match tags with
  | [] => mret ret
  | pos :: tags =>
      t ← on_d (load_tag pos);
      if negb (is_member t) then class_loop tags ret else
      tag_type ← on_d (cu__type c (tag_type t));
      if tag_type =? 0 then on_d (tag__id_not_found (DwTypes.tag_type t));;; class_loop tags 1
      else
        struct_member__fprintf pos tag_type (match tags with [] => true | _ => false end);;;
        class_loop tags 1
  end.

Definition class__fprintf_with (class_ : loc) : PM Z :=
  tags ← on_d (type_tags class_); class_loop tags 0.

(** The type whose tag decides: the typedefs resolved, if that has a name. *)
Definition printed_type (type : loc) : PM loc :=
  orig_type ← on_d (resolve_typedef chain c type);
  if orig_type =? 0 then mret type else
  name ← on_d (type_name_of ops stray_name orig_type c);
  mret (match name with Some _ => orig_type | None => type end).

Definition print_name (type : loc) : PM bool :=
  s ← on_d (tag__name ops stray_name fmemopen_ok chain type c 127); fprintf s;;; mret false.
Definition print_ftype (type : loc) (name : option string) (is_pointer : bool) : PM bool :=
  s ← on_d (ftype__fprintf ops stray_name fmemopen_ok chain type c name false is_pointer);
  fprintf s;;; mret false.

(** The [DW_TAG_pointer_type] case. *)
Definition pointer__fprintf (type : loc) (t : tag) (name : option string) : PM bool :=
  if tag_type t =? 0 then print_name type else
  ptype ← on_d (cu__type c (tag_type t));
  if ptype =? 0 then fprintf "<ERROR>";;; mret false else
  loop ← on_d (type_loop_text "type__fprintf" "461" type ptype);
  match loop with
  | Some msg => fprintf (snprintf 2048 msg +:+ newline);;; mret false
  | None =>
      pt ← on_d (load_tag ptype);
      if tag_tag pt =? DW_TAG_subroutine_type then print_ftype ptype name true else print_name type
  end.

(** The [DW_TAG_class_type] and [DW_TAG_structure_type] cases. *)
Definition struct__fprintf (type : loc) (t : tag) (cm_name : option string) (offset : Z) : PM bool :=
  tname ← on_d (type_name_of ops stray_name type c);
  reg ← gets p_reg;
  let known := match tname with Some s => negb (expand_type reg s) | None => false end in
  if known then
    print_type_id;;;
    fprintf ((if tag_tag t =? DW_TAG_class_type then "class" else "struct") +:+ " " +:+
             default EmptyString tname);;;
    mret false
  else
    e ← gets p_ext;
    if (16 <=? List.length (name_prefixes e))%nat then
      fprintf "<ERROR RECURSION MAXDEPTH REACHED>";;; mret false
    else
      set_ext (fun e => mkExt (type_id e) (name_prefixes e ++ [cm_name]) (u32 (ext_offset e + offset)));;;
      class__fprintf_with type;;;
      set_ext (fun e => mkExt (type_id e) (removelast (name_prefixes e)) (u32 (ext_offset e - offset)));;;
      mret true.

Definition named__fprintf (prefix : string) (type : loc) : PM bool :=
  fprintf prefix;;;
  tname ← on_d (type_name_of ops stray_name type c);
  match tname with Some s => fprintf s | None => mret tt end;;;
  mret false.

Definition type__fprintf_at (type : loc) (name cm_name : option string) (offset : Z) : PM bool :=
  if type =? 0 then fprintf "<ERROR>";;; mret false else
  type ← printed_type type;
  t ← on_d (load_tag type);
  let k := tag_tag t in
  (if negb (k =? DW_TAG_class_type) && negb (k =? DW_TAG_structure_type) && negb (k =? DW_TAG_array_type)
   then print_type_id else mret tt);;;
  if k =? DW_TAG_pointer_type then pointer__fprintf type t name
  else if k =? DW_TAG_subroutine_type then print_ftype type name false
  else if k =? DW_TAG_array_type then array_type__fprintf type name
  else if (k =? DW_TAG_class_type) || (k =? DW_TAG_structure_type) then
    struct__fprintf type t cm_name offset
  else if k =? DW_TAG_union_type then named__fprintf "union " type
  else if k =? DW_TAG_enumeration_type then named__fprintf "enum " type
  else print_name type.

End Rec.

Fixpoint type__fprintf (n : nat) (c type : loc) (name cm_name : option string) (offset : Z) : PM bool :=
  match n with
  | O => raise out_of_fuel
  | S n => type__fprintf_at (fun type name cm_name offset => type__fprintf n c type name cm_name offset)
             c type name cm_name offset
  end.

Definition class__fprintf (n : nat) (class_ c : loc) : PM Z :=
  class__fprintf_with (fun type name cm_name offset => type__fprintf n c type name cm_name offset)
    c class_.

End Print.

(** ** The cache line size and the error message *)

(** [sysconf] is what the system reports. *)
Definition dwarves__fprintf_init (sysconf user_cacheline_size : Z) : Z :=
  if u16 user_cacheline_size =? 0 then if 0 <? sysconf then sysconf else 64
  else u16 user_cacheline_size.

Definition cus__print_error_msg (strerror : Z -> string) (progname : string)
    (cus : option (list loc)) (filename : string) (error : Z) : string :=
  if (error =? - EINVAL) || match cus with Some [] => true | _ => false end
  then progname +:+ ": couldn't load debugging info from " +:+ filename +:+ newline
  else progname +:+ ": " +:+ strerror error +:+ newline.
