(* ===== verification/DwRows.v ===== *)
(** * What structs_layout.csv says of a structure

    The specification of [class__fprintf]: the flattened layout of a structure,
    as a function of the type graph.  It covers named and anonymous members of
    base types, enumerations, structures, unions behind a typedef, pointers,
    arrays of those, and nested structures to any depth the printer accepts.
    First: the dotted names of members. *)
From S2P Require Import Prelude StdMap CxxStd RbTree GoBuffer DwTypes Dwarves DwClass DwTables DwSize DwNames DwPrint.
From Stdlib Require Import Strings.Ascii.
Local Open Scope list_scope.
Local Open Scope Z_scope.

(** ** Dotted member names

    The string that [print_to_string] grows in steps of ten characters is the
    concatenation of the prefixes and the name, separated by dots, whenever the
    allocations succeed. *)

(** The name that is meant. *)
Definition dotted (prefixes : list string) (name : string) : string :=
  foldr (fun p s => p +:+ "." +:+ s)%string name prefixes.

Lemma slen_app a b : slen (a +:+ b) = slen a + slen b.
Proof.
  unfold slen. rewrite <- Nat2Z.inj_add. f_equal. induction a as [|x a IH]; [done|].
  change (S (String.length (a +:+ b)) = S (String.length a + String.length b))%nat. by rewrite IH.
Qed.

Lemma string_app_assoc (a b c : string) : (a +:+ b) +:+ c = a +:+ (b +:+ c).
Proof. induction a as [|x a IH]; [done|]. exact (f_equal (String.String x) IH). Qed.

Lemma string_app_nil (a : string) : a +:+ EmptyString = a.
Proof. induction a as [|x a IH]; [done|]. exact (f_equal (String.String x) IH). Qed.

(** A text that fits is not truncated. *)
Lemma substring_all n s : (String.length s <= n)%nat -> String.substring 0 n s = s.
Proof.
  revert s. induction n as [|n IH]; intros [|x s] Hl; cbn in *; try done; [lia|].
  by rewrite IH by lia.
Qed.

Lemma snprintf_all len s : slen s < len -> snprintf len s = s.
Proof. unfold slen, snprintf. intros Hl. apply substring_all. lia. Qed.

Section Concat.
Context (mem_ok : Z -> bool) (limit : Z).
Hypothesis Hlimit : limit <= INT_MAX - MAX_STRING_LEN.
Hypothesis Hmem : forall size, 0 <= size <= limit + MAX_STRING_LEN -> mem_ok size = true.

(** The text and its NUL byte fit the block, which is at most one step larger. *)
Definition buf_ok (b : strbuf) : Prop :=
  slen (sb_text b) < sb_size b <= slen (sb_text b) + MAX_STRING_LEN.

Lemma slen_nonneg s : 0 <= slen s.
Proof. unfold slen. lia. Qed.

(** Every round of the loop adds ten bytes, so the length of the text is enough. *)
Lemma print_loop_run fuel b text st :
  slen (sb_text b) < sb_size b <= slen (sb_text b) + slen text + MAX_STRING_LEN ->
  slen (sb_text b) + slen text <= limit ->
  slen (sb_text b) + slen text - sb_size b + MAX_STRING_LEN < MAX_STRING_LEN * Z.of_nat fuel ->
  exists size, print_loop mem_ok fuel b text st = inr (Some (mkBuf (sb_text b +:+ text) size), st) /\
    buf_ok (mkBuf (sb_text b +:+ text) size).
Proof.
  revert b. induction fuel as [|fuel IH]; intros b Hb Hl Hf;
    pose proof (slen_nonneg text); pose proof (slen_nonneg (sb_text b));
    unfold buf_ok in *; unfold MAX_STRING_LEN, INT_MAX in *.
  { lia. }
  cbn [print_loop].
  destruct (Z.ltb_spec INT_MAX (slen text)) as [Hx|_]; [unfold INT_MAX in Hx; lia|].
  destruct (Z.leb_spec (sb_size b - slen (sb_text b)) (slen text)) as [Hn|Hn].
  - destruct (Z.ltb_spec INT_MAX (sb_size b + MAX_STRING_LEN)) as [Hx|_];
      [unfold INT_MAX, MAX_STRING_LEN in Hx; lia|].
    unfold MAX_STRING_LEN. rewrite Hmem by lia.
    apply (IH (mkBuf (sb_text b) (sb_size b + 10))); cbn [sb_text sb_size]; lia.
  - exists (sb_size b). rewrite snprintf_all by lia. split; [done|].
    cbn [sb_text sb_size]. rewrite slen_app. lia.
Qed.

Definition opt_text (b : option strbuf) : string := from_option sb_text EmptyString b.

Lemma print_to_string_run o s sep st :
  (forall b, o = Some b -> buf_ok b) ->
  let text := (s +:+ (if sep : bool then "." else EmptyString))%string in
  slen (opt_text o) + slen text <= limit ->
  exists size, print_to_string mem_ok o (Some s) sep st =
    inr (Some (mkBuf (opt_text o +:+ text) size), st) /\ buf_ok (mkBuf (opt_text o +:+ text) size).
Proof.
  intros Ho text Hl. unfold print_to_string. cbn [arg_s must]. rewrite dret. fold text.
  pose proof (slen_nonneg text). assert (Hlen : slen text = Z.of_nat (String.length text)) by done.
  destruct o as [b|]; cbn [opt_text from_option] in *.
  - specialize (Ho b eq_refl). unfold buf_ok, MAX_STRING_LEN in Ho.
    apply print_loop_run; unfold MAX_STRING_LEN; lia.
  - rewrite Hmem by (unfold MAX_STRING_LEN; pose proof (slen_nonneg EmptyString); lia).
    apply (print_loop_run _ (mkBuf EmptyString MAX_STRING_LEN)); cbn [sb_text sb_size];
      change (slen EmptyString) with 0 in *; unfold MAX_STRING_LEN; lia.
Qed.

Lemma concat_loop_run prefixes name o st :
  (forall b, o = Some b -> buf_ok b) -> slen (opt_text o) + slen (dotted prefixes name) <= limit ->
  exists size, concat_loop mem_ok (Some <$> prefixes) (Some name) o st =
    inr (Some (mkBuf (opt_text o +:+ dotted prefixes name) size), st).
Proof.
  revert o. induction prefixes as [|p l IH]; intros o Ho Hl; cbn [fmap list_fmap concat_loop].
  - destruct (print_to_string_run o name false st Ho) as (size & Hrun & _).
    { by rewrite string_app_nil. }
    exists size. rewrite Hrun. by rewrite string_app_nil.
  - cbn [dotted foldr] in Hl. rewrite !slen_app in Hl. fold (dotted l name) in Hl.
    pose proof (slen_nonneg (dotted l name)).
    destruct (print_to_string_run o p true st Ho) as (size & Hrun & Hok).
    { rewrite slen_app. lia. }
    dstep Hrun. destruct (IH (Some (mkBuf (opt_text o +:+ (p +:+ "."))%string size))) as [size' Hrun'].
    + by intros b [= <-].
    + cbn [opt_text from_option sb_text]. rewrite !slen_app. lia.
    + exists size'. cbn [opt_text from_option sb_text] in Hrun'. rewrite Hrun'. cbn [dotted foldr].
      fold (dotted l name). by rewrite !string_app_assoc.
Qed.

(** Concatenating yields the dotted name. *)
Lemma concat_members_run prefixes name st :
  slen (dotted prefixes name) <= limit ->
  dwarves_convert_concat_members mem_ok (Some <$> prefixes) (Some name) st =
    inr (Some (dotted prefixes name), st).
Proof.
  intros Hl. unfold dwarves_convert_concat_members.
  destruct (concat_loop_run prefixes name None st) as [size Hrun]; [done|done|].
  by dstep Hrun.
Qed.

End Concat.

(** [dwarves_convert_concat_members] grows its string in steps of ten
    bytes and retries; when the memory for the result and one more step is
    there, it terminates within the length of the parts and yields the prefixes
    and the name separated by dots, without touching anything else. *)
Theorem concat_members_dotted mem_ok prefixes name st :
  slen (dotted prefixes name) <= INT_MAX - MAX_STRING_LEN ->
  (forall size, 0 <= size <= slen (dotted prefixes name) + MAX_STRING_LEN -> mem_ok size = true) ->
  dwarves_convert_concat_members mem_ok (Some <$> prefixes) (Some name) st =
    inr (Some (dotted prefixes name), st).
Proof. intros Hl Hm. by apply (concat_members_run mem_ok (slen (dotted prefixes name))). Qed.

Definition ex_concat_state : dstate :=
  mkD ∅ ∅ ∅ ∅ [] (mkRbheap ∅ ∅) strings__new [] [] loader_init no_hash.

Lemma concat_members_dotted_witness :
  dwarves_convert_concat_members (fun size => size <? 100) [Some "i_data"; Some "host_inode"]%string
    (Some "i_lock"%string) ex_concat_state =
  inr (Some "i_data.host_inode.i_lock"%string, ex_concat_state).
Proof.
  apply (concat_members_dotted (fun size => size <? 100) ["i_data"; "host_inode"]%string "i_lock").
  - vm_compute. discriminate.
  - intros size H. apply Z.ltb_lt. unfold MAX_STRING_LEN in H.
    change (slen (dotted _ _)) with 24 in H. lia.
Defined.

(** A row: what the type is printed as, the dotted name, offset and size. *)
Record row := mkRow { row_type : string; row_name : string; row_offset : Z; row_size : Z }.

Section Layout.
(** The state, the unit, its strings, what is read as the name of types without
    one, the types to expand, the bound on chains of typedefs. *)
Context (d : dstate) (u : cu) (strs : strings_t -> option string) (stray_name : loc -> option string)
  (expand : string -> bool) (chain : nat).

Definition obj (p : loc) : option tagobj := d_tags d !! p.

(** The type of a tag. *)
Definition target (o : tagobj) : option (loc * tagobj) :=
  let q := type_of u o in
  if q =? 0 then None else oq ← obj q; Some (q, oq).

(** The type of a type, unless the two are taken for a loop. *)
Definition next_type (o : tagobj) : option (loc * tagobj) :=
  '(q, oq) ← target o; if has_type_loop (o_tag o) (o_tag oq) then None else Some (q, oq).

Definition ns_name_of (o : tagobj) : option (option string) :=
  ns ← tag__namespace (o_body o);
  Some (match ns_sname ns with Some s => Some s | None => strs (ns_name ns) end).

(** The type behind typedefs. *)
Fixpoint typedefs_end (k : nat) (ty : loc) : option loc :=
  o ← obj ty;
  if tag__is_typedef (o_tag o) then
    match k with O => None | S k => '(q, _) ← next_type o; typedefs_end k q end
  else Some ty.

Definition seen_name (p : loc) (o : tagobj) : option string :=
  match ns_name_of o with Some name => name | None => stray_name p end.

(** The type that is printed for [ty]: the one behind typedefs, or the typedef
    itself when that has no name. *)
Definition shown (ty : loc) : option (loc * tagobj) :=
  oty ← obj ty; r ← typedefs_end chain ty; o ← obj r;
  Some (match seen_name r o with Some _ => (r, o) | None => (ty, oty) end).

Definition is_struct_kind (o : tagobj) : bool :=
  (tag_tag (o_tag o) =? DW_TAG_class_type) || (tag_tag (o_tag o) =? DW_TAG_structure_type).

Definition base_text (o : tagobj) : option string :=
  bt ← tag__base_type (o_body o);
  if (bt_name bt =? 0) || negb (bt_name_has_encoding bt) then None else
  s ← strs (bt_name bt); if slen s <? 127 then Some s else None.

(** What is printed before the name of the types that pointers lead to. *)
Definition keyword_of (o : tagobj) : option string :=
  let k := tag_tag (o_tag o) in
  if k =? DW_TAG_enumeration_type then Some "enum "%string
  else if k =? DW_TAG_union_type then Some "union "%string
  else if (k =? DW_TAG_structure_type) && negb (cu_language u =? LANG_C_plus_plus) then Some "struct "%string
  else if k =? DW_TAG_typedef then Some EmptyString
  else None.

Definition pointee_text (o : tagobj) : option string :=
  if tag_tag (o_tag o) =? DW_TAG_base_type then base_text o
  else keyword ← keyword_of o; name ← ns_name_of o;
       Some (snprintf 1024 (keyword +:+ default EmptyString name)).

Definition pointer_text (o : tagobj) : option string :=
  if tag_type (o_tag o) =? 0 then Some "void *"%string
  else '(q, oq) ← next_type o; s ← pointee_text oq; Some (snprintf 127 (s +:+ " *")).

(** The dimensions of an array that is no vector. *)
Definition dims_text (a : array_type) : option string :=
  if at_is_vector a || negb (at_dimensions a =? Z.of_nat (List.length (at_nr_entries a))) then None
  else Some (foldr (fun n s => "[" +:+ print_dec n +:+ "]" +:+ s)%string EmptyString (at_nr_entries a)).

Definition struct_keyword (k : Z) : string :=
  if k =? DW_TAG_class_type then "class"%string else "struct"%string.

(** The text for a type that is not expanded. *)
Fixpoint type_text (n : nat) (ty : loc) : option string :=
  match n with
  | O => None
  | S n =>
      '(r, o) ← shown ty;
      let k := tag_tag (o_tag o) in
      if k =? DW_TAG_base_type then base_text o
      else if k =? DW_TAG_pointer_type then pointer_text o
      else if k =? DW_TAG_enumeration_type then
        name ← ns_name_of o; Some ("enum " +:+ default EmptyString name)%string
      else if k =? DW_TAG_union_type then
        name ← ns_name_of o; Some ("union " +:+ default EmptyString name)%string
      else if is_struct_kind o then
        name ← ns_name_of o; name ← name;
        if expand name then None else Some (struct_keyword k +:+ " " +:+ name)
      else if k =? DW_TAG_array_type then
        a ← tag__array_type (o_body o); dims ← dims_text a;
        '(q, _) ← target o; s ← type_text n q; Some (s +:+ dims)%string
      else if k =? DW_TAG_typedef then
        name ← ns_name_of o; Some (snprintf 127 (default EmptyString name))
      else None
  end.

(** Whether the printer descends into the members of a type. *)
Definition expanded (ty : loc) : option loc :=
  '(r, o) ← shown ty;
  if is_struct_kind o then
    name ← ns_name_of o;
    match name with Some s => if expand s then Some r else None | None => Some r end
  else None.

(** The name of a member. *)
Definition member_name (m : class_member) : option string :=
  match strs (cm_name m) with
  | Some s => Some s
  | None =>
      let s := ("anonymous_" +:+ show_int (s32 (cm_byte_offset m)))%string in
      if slen s <? 19 then Some s else None
  end.

(** The size in the row: an empty array at the end counts as one MiB. *)
Definition member_size (m : class_member) (ty : tagobj) (is_last : bool) : option Z :=
  if tag_tag (o_tag ty) =? DW_TAG_array_type then
    a ← tag__array_type (o_body ty); nr ← at_nr_entries a !! 0%nat;
    Some (if (nr =? 0) && is_last then 1048576 else s32 (cm_byte_size m))
  else Some (s32 (cm_byte_size m)).

(** The rows of one tag of a structure. *)
Definition member_rows (n : nat) (rows_of : list string -> Z -> loc -> option (list row))
    (prefixes : list string) (base : Z) (pos : loc) (is_last : bool) : option (list row) :=
  o ← obj pos;
  if negb (is_member (o_tag o)) then Some [] else
  m ← tag__class_member (o_body o);
  '(q, oq) ← target o;
  if cm_is_static m then Some [] else
  if tag__is_union (o_tag oq) then None else
  name ← member_name m;
  match expanded q with
  | Some r =>
      if (List.length prefixes <? 16)%nat
      then rows_of (prefixes ++ [name]) (u32 (base + cm_byte_offset m)) r else None
  | None =>
      text ← type_text n q; size ← member_size m oq is_last;
      Some [mkRow text (dotted prefixes name) (s32 (u32 (cm_byte_offset m + base))) size]
  end.

Fixpoint tags_rows (f : loc -> bool -> option (list row)) (tags : list loc) : option (list row) :=
  match tags with
  | [] => Some []
  | pos :: tags =>
      rows ← f pos (match tags with [] => true | _ => false end);
      rest ← tags_rows f tags; Some (rows ++ rest)
  end.

Definition struct_tags (p : loc) : option (list loc) :=
  o ← obj p; ns ← tag__namespace (o_body o);
  match ns_tags ns with Tags l => Some l | SharedTags _ => None end.

(** The rows of the structure at [p] inside [prefixes], [base] bytes from the
    start of the outermost one. *)
Fixpoint flat_layout (n : nat) (prefixes : list string) (base : Z) (p : loc) : option (list row) :=
  match n with
  | O => None
  | S n => tags ← struct_tags p; tags_rows (member_rows n (flat_layout n) prefixes base) tags
  end.

End Layout.

(** ** The text of the rows *)

Section Text.
Context {N : Type} `{MemberNames N} (delimiter : ascii).

Definition row_line (type_id id : Z) (r : row) : string :=
  print_dec type_id +:+ delim delimiter +:+ row_type r +:+ delim delimiter +:+
  print_dec id +:+ delim delimiter +:+ show_int (row_offset r) +:+ delim delimiter +:+
  show_int (row_size r) +:+ newline.

(** The rows, every name registered in turn. *)

Fixpoint rows_text (type_id : Z) (rows : list row) (reg : N) : string * N :=
  match rows with
  | [] => (EmptyString, reg)
  | r :: rows =>
      let '(id, reg) := add_member_name (row_name r) reg in
      let '(text, reg) := rows_text type_id rows reg in
      (row_line type_id id r +:+ text, reg)
  end.

End Text.
