(* ===== verification/DwRowsProps.v ===== *)
(** * [class__fprintf] prints the flattened layout

    The functions of DwPrint run as DwRows says, on a unit whose strings can be
    read and with a registry that keeps the set of expanded types. *)
From S2P Require Import Prelude StdMap CxxStd RbTree GoBuffer DwTypes Dwarves DwClass DwTables DwSize DwNames DwPrint DwRows.
From Stdlib Require Import Strings.Ascii.
Local Open Scope list_scope.
Local Open Scope Z_scope.

(** The unit at [c] can be read: its table is well-formed, ids have 16 bits, and
    looking a string up changes nothing. *)
Record unit_ok (ops : debug_fmt_ops) (d : dstate) (c : loc) (u : cu) (strs : strings_t -> option string)
    : Prop := {
  uo_cu : c <> 0 /\ d_cus d !! c = Some u;
  uo_table : table_wf (cu_types_table u);
  uo_null : obj d 0 = None;
  uo_id : forall p o, obj d p = Some o -> 0 <= tag_type (o_tag o) < 2 ^ 16;
  uo_string : forall s, cu__string ops c s d = inr (strs s, d)
}.

(** Takes an [option] computation apart. *)
Ltac opt_inv :=
  repeat match goal with
  | H : (?o ≫= ?f) = Some _ |- _ =>
      let E := fresh "E" in destruct o eqn:E; [cbn [mbind option_bind] in H|done]
  | p : (_ * _)%type |- _ => destruct p
  | H : Some _ = Some _ |- _ => injection H as H; try subst
  | H : (if ?b then None else _) = Some _ |- _ => let E := fresh "E" in destruct b eqn:E; [done|]
  | H : (if ?b then _ else None) = Some _ |- _ => let E := fresh "E" in destruct b eqn:E; [|done]
  end.

Section Names.
Context (ops : debug_fmt_ops) (stray_name : loc -> option string) (fmemopen_ok : bool).
Context (d : dstate) (c : loc) (u : cu) (strs : strings_t -> option string).
Context (Hu : unit_ok ops d c u strs).
Notation obj := (obj d).
Notation target := (target d u).
Notation next_type := (next_type d u).
Notation seen_name := (seen_name strs stray_name).

Lemma obj_nonnull p o : obj p = Some o -> p <> 0.
Proof. intros H ->. by rewrite (uo_null _ _ _ _ _ Hu) in H. Qed.

Lemma unit_type_run p o : obj p = Some o -> cu__type c (tag_type (o_tag o)) d = inr (type_of u o, d).
Proof.
  intros Ho. destruct (uo_cu _ _ _ _ _ Hu) as [Hc Hcu].
  unfold cu__type. rewrite (u16_small _ (uo_id _ _ _ _ _ Hu p o Ho)).
  pose proof (uo_id _ _ _ _ _ Hu p o Ho).
  apply (cu__entry_run TypesTable); [done|done| |lia]. exact (uo_table _ _ _ _ _ Hu).
Qed.

Lemma target_inv o q oq : target o = Some (q, oq) -> type_of u o = q /\ obj q = Some oq /\ (q =? 0) = false.
Proof. unfold DwRows.target. intros H. destruct (type_of u o =? 0) eqn:E0; [done|]. opt_inv. done. Qed.

Lemma next_type_inv o q oq :
  next_type o = Some (q, oq) -> target o = Some (q, oq) /\ has_type_loop (o_tag o) (o_tag oq) = false.
Proof. unfold DwRows.next_type. intros H. opt_inv. done. Qed.

Lemma type_loop_text_run fn line p o q oq :
  obj p = Some o -> obj q = Some oq -> has_type_loop (o_tag o) (o_tag oq) = false ->
  type_loop_text fn line p q d = inr (None, d).
Proof.
  intros Ho Hq Hl. unfold type_loop_text. rewrite (valid_loc_eqb q (obj_nonnull _ _ Hq)).
  dstep (load_tag_run _ _ _ Ho). dstep (load_tag_run _ _ _ Hq). by rewrite Hl.
Qed.

Lemma namespace_name_run p o name :
  obj p = Some o -> ns_name_of strs o = Some name ->
  type_name_of ops stray_name p c d = inr (name, d).
Proof.
  intros Ho H. unfold type_name_of. dstep (load_obj_run _ _ _ Ho). unfold ns_name_of in H. opt_inv.
  unfold namespace__name. destruct (ns_sname n); [done|]. apply (uo_string _ _ _ _ _ Hu).
Qed.

Lemma type_name_of_run p o : obj p = Some o -> type_name_of ops stray_name p c d = inr (seen_name p o, d).
Proof.
  intros Ho. unfold DwRows.seen_name. destruct (ns_name_of strs o) as [name|] eqn:E.
  - by apply (namespace_name_run p o).
  - unfold type_name_of. dstep (load_obj_run _ _ _ Ho). unfold ns_name_of in E.
    by destruct (tag__namespace (o_body o)).
Qed.

Lemma resolve_typedef_run k ty r : typedefs_end d u k ty = Some r -> resolve_typedef k c ty d = inr (r, d).
Proof.
  revert ty. induction k as [|k IH]; intros ty H; cbn [typedefs_end] in H; cbn [resolve_typedef];
    destruct (obj ty) as [o|] eqn:Ho; try done; cbn [mbind option_bind] in H;
    dstep (load_tag_run _ _ _ Ho); (destruct (tag__is_typedef (o_tag o)); [|by injection H as ->]).
  { done. }
  destruct (next_type o) as [[q oq]|] eqn:En; [|done]. cbn [mbind option_bind] in H.
  destruct (next_type_inv _ _ _ En) as [Ht Hl]. destruct (target_inv _ _ _ Ht) as (Hq & Hoq & H0).
  dstep (unit_type_run _ _ Ho). rewrite Hq, H0.
  dstep (eq_trans (has_type_loop_run d ty q o oq (proj1 (Z.eqb_neq _ _) H0) Ho Hoq)
    ltac:(rewrite Hl; reflexivity)).
  by apply IH.
Qed.

(** *** Names of types *)

Lemma base_name_run n p o s len :
  obj p = Some o -> tag_tag (o_tag o) = DW_TAG_base_type -> base_text strs o = Some s -> 127 <= len ->
  __tag__name ops stray_name fmemopen_ok (S n) p c len d = inr (s, d).
Proof.
  intros Ho Hk Hs Hlen. cbn [__tag__name]. unfold __tag__name_at.
  rewrite (valid_loc_eqb p (obj_nonnull _ _ Ho)). dstep (load_tag_run _ _ _ Ho).
  rewrite Hk. cbn [Z.eqb Pos.eqb DW_TAG_base_type].
  unfold base_text in Hs. destruct (tag__base_type (o_body o)) as [bt|] eqn:Hbt; [|done].
  cbn [mbind option_bind] in Hs. dstep (cast_run _ _ _ _ _ Ho Hbt).
  destruct (bt_name bt =? 0); [done|]. cbn [orb] in Hs.
  destruct (bt_name_has_encoding bt) eqn:He; [|done]. cbn [negb] in Hs.
  unfold base_type__name. rewrite He. dstep (uo_string _ _ _ _ _ Hu (bt_name bt)).
  destruct (strs (bt_name bt)) as [s'|]; [|done]. cbn [mbind option_bind] in Hs.
  destruct (Z.ltb_spec (slen s') 127); [|done]. injection Hs as ->.
  cbn [arg_s must]. rewrite dret. unfold fill. by rewrite (proj2 (Z.ltb_lt _ _)) by lia.
Qed.

Lemma keyword_name_run n p o kw name len :
  obj p = Some o -> keyword_of u o = Some kw -> ns_name_of strs o = Some name ->
  __tag__name ops stray_name fmemopen_ok (S n) p c len d =
    inr (snprintf len (kw +:+ default EmptyString name), d).
Proof.
  intros Ho Hk Hn. cbn [__tag__name]. unfold __tag__name_at.
  rewrite (valid_loc_eqb p (obj_nonnull _ _ Ho)). dstep (load_tag_run _ _ _ Ho).
  destruct (uo_cu _ _ _ _ _ Hu) as [Hc Hcu].
  assert (Hd : forall k, tag_tag (o_tag o) = k -> tag__prefix u k = kw ->
    (cu ← load_cu c; name ← type_name_of ops stray_name p c;
     mret (snprintf len (tag__prefix cu k +:+ default EmptyString name))) d =
    (inr (snprintf len (kw +:+ default EmptyString name), d) : exn + string * dstate)).
  { intros k _ <-. dstep (load_cu_run _ _ _ Hcu). by dstep (namespace_name_run p o name Ho Hn). }
  unfold keyword_of in Hk. revert Hk.
  destruct (Z.eqb_spec (tag_tag (o_tag o)) DW_TAG_enumeration_type) as [E|_];
    [intros [= <-]; rewrite E; exact (Hd _ E eq_refl)|].
  destruct (Z.eqb_spec (tag_tag (o_tag o)) DW_TAG_union_type) as [E|_];
    [intros [= <-]; rewrite E; exact (Hd _ E eq_refl)|].
  destruct (Z.eqb_spec (tag_tag (o_tag o)) DW_TAG_structure_type) as [E|_].
  { cbn [andb]. destruct (cu_language u =? LANG_C_plus_plus) eqn:El; [|].
    - rewrite E. discriminate.
    - intros [= <-]. rewrite E. apply (Hd _ E). unfold tag__prefix. by rewrite El. }
  cbn [andb]. destruct (Z.eqb_spec (tag_tag (o_tag o)) DW_TAG_typedef) as [E|_]; [|done].
  intros [= <-]; rewrite E; exact (Hd _ E eq_refl).
Qed.

Lemma pointee_run n p o s :
  obj p = Some o -> pointee_text u strs o = Some s ->
  __tag__name ops stray_name fmemopen_ok (S n) p c 1024 d = inr (s, d).
Proof.
  intros Ho Hs. unfold pointee_text in Hs.
  destruct (Z.eqb_spec (tag_tag (o_tag o)) DW_TAG_base_type) as [E|_]; [by apply (base_name_run n p o)|].
  destruct (keyword_of u o) as [kw|] eqn:Ek; [|done]. cbn [mbind option_bind] in Hs.
  destruct (ns_name_of strs o) as [name|] eqn:En; [|done]. injection Hs as <-.
  by apply (keyword_name_run n p o).
Qed.

(** [tag__name] of a type that is not constant. *)
Lemma tag__name_run n p o len r :
  obj p = Some o -> tag_tag (o_tag o) <> DW_TAG_const_type ->
  __tag__name ops stray_name fmemopen_ok n p c len d = inr (r, d) ->
  tag__name ops stray_name fmemopen_ok n p c len d = inr (r, d).
Proof.
  intros Ho Hk Hr. unfold tag__name, tag__name_at.
  rewrite (valid_loc_eqb p (obj_nonnull _ _ Ho)). dstep (load_tag_run _ _ _ Ho).
  by rewrite (proj2 (Z.eqb_neq _ _) Hk).
Qed.

Lemma pointer_name_run n p o s :
  obj p = Some o -> tag_tag (o_tag o) = DW_TAG_pointer_type -> pointer_text d u strs o = Some s ->
  tag__name ops stray_name fmemopen_ok (S (S n)) p c 127 d = inr (s, d).
Proof.
  intros Ho Hk Hs. apply (tag__name_run _ _ o); [done|by rewrite Hk|]. set (m := S n).
  cbn [__tag__name]. unfold __tag__name_at.
  rewrite (valid_loc_eqb p (obj_nonnull _ _ Ho)). dstep (load_tag_run _ _ _ Ho). rewrite Hk.
  cbn [Z.eqb Pos.eqb DW_TAG_pointer_type DW_TAG_base_type DW_TAG_subprogram]. unfold tag__ptr_name.
  dstep (load_tag_run _ _ _ Ho). unfold pointer_text in Hs.
  destruct (tag_type (o_tag o) =? 0); [by injection Hs as <-|].
  destruct (next_type o) as [[q oq]|] eqn:En; [|done]. cbn [mbind option_bind] in Hs.
  destruct (pointee_text u strs oq) as [s'|] eqn:Ep; [|done]. cbn [mbind option_bind] in Hs. injection Hs as <-.
  destruct (next_type_inv _ _ _ En) as [Ht Hl]. destruct (target_inv _ _ _ Ht) as (Hq & Hoq & H0).
  dstep (unit_type_run _ _ Ho). rewrite Hq, H0. dstep (type_loop_text_run "tag__ptr_name" "276" p o q oq Ho Hoq Hl).
  by dstep (pointee_run n q oq s' Hoq Ep).
Qed.

End Names.

(** ** Printing *)

Section Print.
Context {N : Type} {HM : MemberNames N} {HMok : MemberNamesOk N}.
Implicit Types s : pstate N.
Context (ops : debug_fmt_ops) (stray_name : loc -> option string) (fmemopen_ok : bool)
  (delimiter : ascii) (chain : nat).
Context (d : dstate) (c : loc) (u : cu) (strs : strings_t -> option string) (expand : string -> bool).
Context (Hu : unit_ok ops d c u strs) (Hchain : (2 <= chain)%nat).
Notation obj := (obj d).
Notation ptype__fprintf :=
  (type__fprintf (N:=N) ops stray_name fmemopen_ok (fun _ => true) delimiter chain).
Notation type_text := (type_text d u strs stray_name expand chain).
Notation shown := (shown d u strs stray_name chain).

(** The state after [text] was written. *)
Definition emit (text : string) (s : pstate N) : pstate N :=
  mkP (p_d s) (p_out s +:+ text) (p_ext s) (p_reg s).

(** The printer is at [d] and expands the types of [expand]. *)
Definition at_unit (s : pstate N) : Prop :=
  p_d s = d /\ forall t, expand_type (p_reg s) t = expand t.

Lemma on_d_run {A} (f : DM A) s a : p_d s = d -> f d = inr (a, d) -> on_d f s = inr (a, s).
Proof. unfold on_d. intros Hd Hf. rewrite Hd, Hf, <- Hd. by destruct s. Qed.

Lemma fprintf_run text s : fprintf text s = inr (tt, emit text s).
Proof. done. Qed.

Lemma emit_emit a b s : emit b (emit a s) = emit (a +:+ b) s.
Proof. unfold emit. cbn. by rewrite string_app_assoc. Qed.

Lemma at_unit_emit text s : at_unit s -> at_unit (emit text s).
Proof. done. Qed.

(** The first column. *)
Definition id_column (s : pstate N) : string := print_dec (type_id (p_ext s)) +:+ delim delimiter.

Lemma print_type_id_run s : print_type_id delimiter s = inr (tt, emit (id_column s) s).
Proof. done. Qed.

Lemma typedefs_end_obj k ty r : typedefs_end d u k ty = Some r -> is_Some (obj r).
Proof.
  revert ty. induction k as [|k IH]; intros ty Hr; cbn [typedefs_end] in Hr;
    destruct (obj ty) as [o|] eqn:Ho; try done; cbn [mbind option_bind] in Hr;
    (destruct (tag__is_typedef (o_tag o)); [|injection Hr as <-; by rewrite Ho]); [done|].
  destruct (next_type d u o) as [[q oq]|]; [|done]. by apply (IH q).
Qed.

Lemma shown_run s ty r o :
  at_unit s -> shown ty = Some (r, o) ->
  printed_type ops stray_name chain c ty s = inr (r, s) /\ obj r = Some o.
Proof.
  intros [Hd _] Hs. unfold DwRows.shown in Hs.
  destruct (obj ty) as [oty|] eqn:Hty; [|done]. cbn [mbind option_bind] in Hs.
  destruct (typedefs_end d u chain ty) as [r0|] eqn:Er; [|done]. cbn [mbind option_bind] in Hs.
  destruct (obj r0) as [o0|] eqn:Ho; [|done]. cbn [mbind option_bind] in Hs.
  unfold printed_type. dstep (on_d_run _ s _ Hd (resolve_typedef_run ops d c u strs Hu chain ty r0 Er)).
  rewrite (valid_loc_eqb _ (obj_nonnull ops d c u strs Hu _ _ Ho)).
  dstep (on_d_run _ s _ Hd (type_name_of_run ops stray_name d c u strs Hu _ _ Ho)).
  destruct (seen_name strs stray_name r0 o0); injection Hs as <- <-; done.
Qed.

(** A name that [tag__name] yields is printed. *)
Lemma print_name_run s r t :
  p_d s = d -> tag__name ops stray_name fmemopen_ok chain r c 127 d = inr (t, d) ->
  print_name ops stray_name fmemopen_ok chain c r s = inr (false, emit t s).
Proof. intros Hd Ht. unfold print_name. by dstep (on_d_run _ s _ Hd Ht). Qed.

Lemma pointer_run s r o name t :
  at_unit s -> obj r = Some o -> tag_tag (o_tag o) = DW_TAG_pointer_type -> pointer_text d u strs o = Some t ->
  pointer__fprintf ops stray_name fmemopen_ok chain c r (o_tag o) name s = inr (false, emit t s).
Proof.
  intros [Hd _] Ho Hk Ht.
  assert (Hp : print_name ops stray_name fmemopen_ok chain c r s = inr (false, emit t s)).
  { apply print_name_run; [done|]. destruct chain as [|[|n]]; [lia|lia|].
    by apply (pointer_name_run ops stray_name fmemopen_ok d c u strs Hu n r o). }
  unfold pointer__fprintf, pointer_text in *.
  destruct (tag_type (o_tag o) =? 0); [exact Hp|].
  destruct (next_type d u o) as [[q oq]|] eqn:En; [|done]. cbn [mbind option_bind] in Ht.
  destruct (next_type_inv d u _ _ _ En) as [Htg Hl]. destruct (target_inv d u _ _ _ Htg) as (Hq & Hoq & H0).
  dstep (on_d_run _ s _ Hd (unit_type_run ops d c u strs Hu _ _ Ho)). rewrite Hq, H0.
  dstep (on_d_run _ s _ Hd (type_loop_text_run ops d c u strs Hu "type__fprintf" "461" r o q oq Ho Hoq Hl)).
  dstep (on_d_run _ s _ Hd (load_tag_run _ _ _ Hoq)).
  destruct (Z.eqb_spec (tag_tag (o_tag oq)) DW_TAG_subroutine_type) as [E|_]; [|exact Hp].
  unfold pointee_text, keyword_of in Ht. by rewrite E in Ht.
Qed.

Lemma dims_run a l i flat s :
  p_d s = d -> at_is_vector a = false -> drop i (at_nr_entries a) = l ->
  dimensions_loop a (List.length l) i flat s =
    inr (flat, emit (foldr (fun n t => "[" +:+ print_dec n +:+ "]" +:+ t)%string EmptyString l) s).
Proof.
  intros Hd Hv. revert i s Hd. induction l as [|n l IH]; intros i s Hd Hl.
  - cbn. unfold emit. rewrite string_app_nil. by destruct s.
  - assert (Hi : at_nr_entries a !! i = Some n).
    { rewrite <- (Nat.add_0_r i), <- lookup_drop, Hl. done. }
    cbn [List.length dimensions_loop]. dstep (on_d_run (must "nr_entries out of range" (at_nr_entries a !! i)) s n Hd ltac:(by rewrite Hi)).
    rewrite Hv. dstep (fprintf_run ("[" +:+ print_dec n +:+ "]") s). rewrite IH; [|done|].
    + rewrite emit_emit. cbn [foldr]. by rewrite !string_app_assoc.
    + rewrite <- (Nat.add_1_r i), <- drop_drop, Hl. done.
Qed.

(** Decides the comparisons of a known kind of tag. *)
Ltac known_kind E :=
  rewrite E; cbn [Z.eqb Pos.eqb negb andb orb DW_TAG_array_type DW_TAG_class_type DW_TAG_pointer_type
    DW_TAG_structure_type DW_TAG_subroutine_type DW_TAG_typedef DW_TAG_union_type
    DW_TAG_enumeration_type DW_TAG_base_type].

Lemma named_run kw r o name s :
  at_unit s -> obj r = Some o -> ns_name_of strs o = Some name ->
  named__fprintf ops stray_name c kw r s = inr (false, emit (kw +:+ default EmptyString name) s).
Proof.
  intros [Hd _] Ho Hn. unfold named__fprintf. dstep (fprintf_run kw s).
  dstep (on_d_run _ (emit kw s) _ Hd (namespace_name_run ops stray_name d c u strs Hu r o name Ho Hn)).
  destruct name as [x|]; cbn [default].
  - dstep (fprintf_run x (emit kw s)). by rewrite emit_emit.
  - rewrite dret, string_app_nil. done.
Qed.

Lemma array_run rec r o q oq a dims t name s :
  at_unit s -> obj r = Some o -> tag__array_type (o_body o) = Some a -> target d u o = Some (q, oq) ->
  dims_text a = Some dims ->
  rec q name name 0 s = inr (false, emit t s) ->
  array_type__fprintf chain rec c r name s = inr (false, emit (t +:+ dims) s).
Proof.
  intros [Hd _] Ho Ha Ht Hdims Hrec. destruct (target_inv d u _ _ _ Ht) as (Hq & Hoq & H0).
  unfold array_type__fprintf. dstep (on_d_run _ s _ Hd (cast_run _ _ _ _ _ Ho Ha)).
  dstep (on_d_run _ s _ Hd (load_tag_run _ _ _ Ho)).
  dstep (on_d_run _ s _ Hd (unit_type_run ops d c u strs Hu _ _ Ho)). rewrite Hq, H0, dret.
  dstep Hrec. cbn [andb]. unfold dims_text in Hdims.
  destruct (at_is_vector a) eqn:Hv; [done|]. cbn [orb] in Hdims.
  destruct (Z.eqb_spec (at_dimensions a) (Z.of_nat (List.length (at_nr_entries a)))) as [El|]; [|done].
  cbn [negb] in Hdims. injection Hdims as <-. rewrite El, Nat2Z.id.
  dstep (dims_run a (at_nr_entries a) 0 0 (emit t s) Hd Hv eq_refl). rewrite dret, emit_emit. done.
Qed.

(** A structure that is not to be expanded. *)
Lemma unexpanded_run rec r o name cm_name offset s :
  at_unit s -> obj r = Some o -> ns_name_of strs o = Some (Some name) -> expand name = false ->
  struct__fprintf ops stray_name (fun _ => true) delimiter rec c r (o_tag o) cm_name offset s =
    inr (false, emit (id_column s +:+ (struct_keyword (tag_tag (o_tag o)) +:+ " " +:+ name)) s).
Proof.
  intros [Hd He] Ho Hn Hx. unfold struct__fprintf.
  dstep (on_d_run _ s _ Hd (namespace_name_run ops stray_name d c u strs Hu r o _ Ho Hn)).
  rewrite (dbind (gets p_reg) _ _ _ _ eq_refl). cbv beta zeta. rewrite He, Hx. cbn [negb].
  dstep (print_type_id_run s). dstep (fprintf_run (struct_keyword (tag_tag (o_tag o)) +:+ " " +:+ name) (emit (id_column s) s)). by rewrite emit_emit.
Qed.

(** A type that is not expanded: nothing but its column is written. *)
Lemma type_text_run n n' ty t name cm_name offset s :
  type_text n ty = Some t -> (n <= n')%nat -> at_unit s ->
  ptype__fprintf n' c ty name cm_name offset s = inr (false, emit (id_column s +:+ t) s).
Proof.
  revert n' ty t name cm_name offset s. induction n as [|n IH]; intros n' ty t name cm_name offset s Ht Hn Hs; [done|].
  destruct n' as [|n']; [lia|]. cbn [type__fprintf]. unfold type__fprintf_at. cbn [DwRows.type_text] in Ht.
  destruct (shown ty) as [[r o]|] eqn:Es; [|done]. cbn [mbind option_bind] in Ht.
  destruct (shown_run s ty r o Hs Es) as [Hp Ho]. destruct Hs as [Hd He].
  assert (H0 : (ty =? 0) = false).
  { apply valid_loc_eqb. unfold DwRows.shown in Es. destruct (obj ty) eqn:Hty; [|done].
    by apply (obj_nonnull ops d c u strs Hu ty t0). }
  rewrite H0. dstep Hp. dstep (on_d_run _ s _ Hd (load_tag_run _ _ _ Ho)).
  destruct (Z.eqb_spec (tag_tag (o_tag o)) DW_TAG_base_type) as [E|_].
  { known_kind E. dstep (print_type_id_run s). rewrite (print_name_run _ r t); [by rewrite emit_emit|done|].
    apply (tag__name_run ops stray_name fmemopen_ok d c u strs Hu _ _ o); [done|by rewrite E|].
    destruct chain as [|m]; [lia|]. by apply (base_name_run ops stray_name fmemopen_ok d c u strs Hu m r o). }
  destruct (Z.eqb_spec (tag_tag (o_tag o)) DW_TAG_pointer_type) as [E|_].
  { known_kind E. dstep (print_type_id_run s). rewrite (pointer_run _ r o name t); [by rewrite emit_emit|done|done|done|done]. }
  destruct (Z.eqb_spec (tag_tag (o_tag o)) DW_TAG_enumeration_type) as [E|_].
  { destruct (ns_name_of strs o) as [x|] eqn:En; [|done]. injection Ht as <-.
    known_kind E. dstep (print_type_id_run s). rewrite (named_run _ r o x); [by rewrite emit_emit|done|done|done]. }
  destruct (Z.eqb_spec (tag_tag (o_tag o)) DW_TAG_union_type) as [E|_].
  { destruct (ns_name_of strs o) as [x|] eqn:En; [|done]. injection Ht as <-.
    known_kind E. dstep (print_type_id_run s). rewrite (named_run _ r o x); [by rewrite emit_emit|done|done|done]. }
  destruct (is_struct_kind o) eqn:Ek.
  { destruct (ns_name_of strs o) as [[x|]|] eqn:En; try done. cbn [mbind option_bind] in Ht.
    destruct (expand x) eqn:Ex; [done|]. injection Ht as <-.
    rewrite <- (unexpanded_run (fun type name cm_name offset => ptype__fprintf n' c type name cm_name offset)
      r o x cm_name offset s (conj Hd He) Ho En Ex).
    unfold is_struct_kind in Ek. apply orb_true_iff in Ek as [E%Z.eqb_eq|E%Z.eqb_eq]; known_kind E; done. }
  destruct (Z.eqb_spec (tag_tag (o_tag o)) DW_TAG_array_type) as [E|_].
  { destruct (tag__array_type (o_body o)) as [a|] eqn:Ea; [|done]. cbn [mbind option_bind] in Ht.
    destruct (dims_text a) as [dims|] eqn:Edims; [|done]. cbn [mbind option_bind] in Ht.
    destruct (target d u o) as [[q oq]|] eqn:Et; [|done]. cbn [mbind option_bind] in Ht.
    destruct (type_text n q) as [t'|] eqn:Eq; [|done]. injection Ht as <-. known_kind E. rewrite dret.
    rewrite (array_run _ r o q oq a dims (id_column s +:+ t') name s); [by rewrite string_app_assoc|done..|].
    by apply (IH n' q t'); [done|lia|]. }
  destruct (Z.eqb_spec (tag_tag (o_tag o)) DW_TAG_typedef) as [E|_]; [|done].
  destruct (ns_name_of strs o) as [x|] eqn:En; [|done]. injection Ht as <-.
  known_kind E. dstep (print_type_id_run s). rewrite (print_name_run _ r (snprintf 127 (default EmptyString x))); [by rewrite emit_emit|done|].
  apply (tag__name_run ops stray_name fmemopen_ok d c u strs Hu _ _ o); [done|by rewrite E|].
  destruct chain as [|m]; [lia|].
  apply (keyword_name_run ops stray_name fmemopen_ok d c u strs Hu m r o EmptyString x); [done| |done].
  unfold keyword_of. by rewrite E.
Qed.

(** *** Rows *)

(** The state after the rows were printed. *)
Definition printed (rows : list row) (s : pstate N) : pstate N :=
  mkP (p_d s) (p_out s +:+ fst (rows_text delimiter (type_id (p_ext s)) rows (p_reg s))) (p_ext s)
    (snd (rows_text delimiter (type_id (p_ext s)) rows (p_reg s))).

Lemma printed_nil s : printed [] s = s.
Proof. unfold printed. cbn [rows_text fst snd]. rewrite string_app_nil. by destruct s. Qed.

Lemma rows_text_app tid r1 r2 (reg : N) :
  rows_text delimiter tid (r1 ++ r2) reg =
    (fst (rows_text delimiter tid r1 reg) +:+ fst (rows_text delimiter tid r2 (snd (rows_text delimiter tid r1 reg))),
     snd (rows_text delimiter tid r2 (snd (rows_text delimiter tid r1 reg)))).
Proof.
  revert reg. induction r1 as [|r r1 IH]; intros reg; cbn [app rows_text fst snd]; [by destruct (rows_text _ _ r2 reg)|].
  destruct (add_member_name (row_name r) reg) as [id reg1]. rewrite IH.
  destruct (rows_text delimiter tid r1 reg1) as [t reg2]. cbn [fst snd]. by rewrite string_app_assoc.
Qed.

Lemma printed_app r1 r2 s : printed (r1 ++ r2) s = printed r2 (printed r1 s).
Proof.
  unfold printed. rewrite rows_text_app. cbn [fst snd p_d p_out p_ext p_reg]. by rewrite string_app_assoc.
Qed.

Lemma rows_text_stable tid rows (reg : N) t :
  expand_type (snd (rows_text delimiter tid rows reg)) t = expand_type reg t.
Proof.
  revert reg. induction rows as [|r rows IH]; intros reg; [done|]. cbn [rows_text].
  pose proof (expand_stable (row_name r) t reg) as Hs.
  destruct (add_member_name (row_name r) reg) as [id reg1]. specialize (IH reg1).
  destruct (rows_text delimiter tid rows reg1). cbn in *. congruence.
Qed.

Lemma at_unit_printed rows s : at_unit s -> at_unit (printed rows s).
Proof. intros [Hd He]. split; [done|]. intros t. cbn. by rewrite rows_text_stable. Qed.

(** Where the printer is: inside these members, this far from the start. *)
Definition inside (prefixes : list string) (base : Z) (s : pstate N) : Prop :=
  name_prefixes (p_ext s) = Some <$> prefixes /\ ext_offset (p_ext s) = base /\ 0 <= base < 2 ^ 32.

Definition short (r : row) : Prop := slen (row_name r) <= INT_MAX - MAX_STRING_LEN.

Notation pclass n' :=
  (class__fprintf_with ops (fun _ => true) delimiter (fun type name cm_name offset => ptype__fprintf n' c type name cm_name offset) c).

(** [class__fprintf] prints what [f] says of a structure. *)
Definition prints (n' : nat) (f : list string -> Z -> loc -> option (list row)) : Prop :=
  forall prefixes base r rows s, f prefixes base r = Some rows -> Forall short rows ->
    at_unit s -> inside prefixes base s -> exists ret, pclass n' r s = inr (ret, printed rows s).

Lemma u32_back base offset : 0 <= base < 2 ^ 32 -> u32 (u32 (base + offset) - offset) = base.
Proof.
  intros Hb. unfold u32, wrap. rewrite Zminus_mod_idemp_l. replace (base + offset - offset) with base by lia.
  by apply Z.mod_small.
Qed.

Lemma expanded_run n' f q r name prefixes base rows nm offset s :
  prints n' f -> expanded d u strs stray_name expand chain q = Some r ->
  (List.length prefixes < 16)%nat ->
  f (prefixes ++ [name]) (u32 (base + offset)) r = Some rows -> Forall short rows ->
  at_unit s -> inside prefixes base s ->
  ptype__fprintf (S n') c q nm (Some name) offset s = inr (true, printed rows s).
Proof.
  intros Hf Hx Hlen Hrows Hshort Hs (Hpre & Hbase & Hrange). cbn [type__fprintf]. unfold type__fprintf_at.
  unfold expanded in Hx. destruct (shown q) as [[r0 o]|] eqn:Es; [|done]. cbn [mbind option_bind] in Hx.
  destruct (is_struct_kind o) eqn:Ek; [|done].
  destruct (ns_name_of strs o) as [tname|] eqn:En; [|done]. cbn [mbind option_bind] in Hx.
  assert (Hr : r0 = r /\ match tname with Some x => negb (expand x) | None => false end = false).
  { destruct tname as [x|]; [destruct (expand x)|]; [|done|]; by injection Hx as ->. }
  destruct Hr as [-> Hknown]. destruct (shown_run s q r o Hs Es) as [Hp Ho].
  destruct (Hs) as [Hd He].
  assert (H0 : (q =? 0) = false).
  { apply valid_loc_eqb. unfold DwRows.shown in Es. destruct (obj q) eqn:Hq; [|done].
    by apply (obj_nonnull ops d c u strs Hu q t). }
  rewrite H0. dstep Hp. dstep (on_d_run _ s _ Hd (load_tag_run _ _ _ Ho)).
  enough (Hgoal : struct__fprintf ops stray_name (fun _ => true) delimiter
    (fun type name cm_name offset => ptype__fprintf n' c type name cm_name offset) c r (o_tag o) (Some name) offset s
    = inr (true, printed rows s)).
  { unfold is_struct_kind in Ek. apply orb_true_iff in Ek as [E%Z.eqb_eq|E%Z.eqb_eq]; known_kind E; exact Hgoal. }
  unfold struct__fprintf.
  dstep (on_d_run _ s _ Hd (namespace_name_run ops stray_name d c u strs Hu r o _ Ho En)).
  rewrite (dbind (gets p_reg) _ _ _ _ eq_refl). cbv beta zeta.
  replace (match tname with Some s0 => negb (expand_type (p_reg s) s0) | None => false end) with false
    by (symmetry; destruct tname; [by rewrite He|done]).
  rewrite (dbind (gets p_ext) _ _ _ _ eq_refl). cbv beta. rewrite Hpre, length_fmap.
  rewrite (proj2 (Nat.leb_gt _ _) Hlen).
  rewrite (dbind (set_ext _) _ _ _ _ eq_refl). cbv beta. rewrite Hpre, Hbase.
  set (s1 := mkP (p_d s) (p_out s) (mkExt (type_id (p_ext s)) ((Some <$> prefixes) ++ [Some name]) (u32 (base + offset))) (p_reg s)).
  destruct (Hf (prefixes ++ [name]) (u32 (base + offset)) r rows s1 Hrows Hshort Hs) as [ret Hrun].
  { split; [cbn; by rewrite fmap_app|]. split; [done|]. apply wrap_range. lia. }
  dstep Hrun. rewrite (dbind (set_ext _) _ _ _ _ eq_refl). cbv beta.
  assert (Hback : mkP (p_d (printed rows s1)) (p_out (printed rows s1))
     (mkExt (type_id (p_ext (printed rows s1))) (removelast (name_prefixes (p_ext (printed rows s1))))
        (u32 (ext_offset (p_ext (printed rows s1)) - offset))) (p_reg (printed rows s1)) = printed rows s).
  { cbn. rewrite removelast_last, (u32_back base offset Hrange), <- Hpre, <- Hbase. unfold printed.
    by destruct (p_ext s). }
  rewrite Hback. done.
Qed.

Lemma member_name_run m name s :
  member_name strs m = Some name ->
  (match strs (cm_name m) with Some x => mret x | None => anonymous_name (fun _ => true) (cm_byte_offset m) end) s
    = inr (name, s).
Proof.
  unfold member_name, anonymous_name. destruct (strs (cm_name m)); [by intros [= ->]|]. cbn [negb].
  destruct (slen _ <? 19); [by intros [= ->]|done].
Qed.

(** The last column. *)
Lemma size_column_run m q oq is_last size s :
  p_d s = d -> obj q = Some oq -> member_size m oq is_last = Some size ->
  (fake ← (if (tag_tag (o_tag oq) =? DW_TAG_array_type) then
             at_ ← on_d (cast tag__array_type q);
             nr ← on_d (must "nr_entries out of range" (at_nr_entries at_ !! 0%nat));
             mret ((nr =? 0) && is_last)
           else mret false);
   fprintf ((if (fake : bool) then print_dec (1024 * 1024) else show_int (s32 (cm_byte_size m))) +:+ newline)) s
  = inr (tt, emit (show_int size +:+ newline) s).
Proof.
  intros Hd Hq Hsize. unfold member_size in Hsize.
  destruct (tag_tag (o_tag oq) =? DW_TAG_array_type); [|by injection Hsize as <-].
  destruct (tag__array_type (o_body oq)) as [a|] eqn:Ea; [|done]. cbn [mbind option_bind] in Hsize.
  destruct (at_nr_entries a !! 0%nat) as [nr|] eqn:En; [|done]. cbn [mbind option_bind] in Hsize.
  injection Hsize as <-. rewrite dbind_assoc. dstep (on_d_run _ s _ Hd (cast_run _ _ _ _ _ Hq Ea)).
  rewrite dbind_assoc. dstep (on_d_run (must "nr_entries out of range" (at_nr_entries a !! 0%nat)) s nr Hd ltac:(by rewrite En)).
  rewrite dret. destruct ((nr =? 0) && is_last); [|done].
  by replace (print_dec (1024 * 1024)) with (show_int 1048576) by (vm_compute; reflexivity).
Qed.

(** What follows the text of a type in its row. *)
Lemma row_rest_run m q oq prefixes base name is_last size text s :
  at_unit s -> inside prefixes base s -> obj q = Some oq ->
  member_size m oq is_last = Some size -> slen (dotted prefixes name) <= INT_MAX - MAX_STRING_LEN ->
  (fprintf (delim delimiter);;;
   e ← gets p_ext;
   full_cm_name ← on_d (dwarves_convert_concat_members (fun _ => true) (name_prefixes e) (Some name));
   member_name_id ← register (default "<error>"%string full_cm_name);
   e ← gets p_ext;
   fprintf (print_dec member_name_id +:+ delim delimiter +:+
            show_int (s32 (u32 (cm_byte_offset m + ext_offset e))) +:+ delim delimiter);;;
   fake ← (if (tag_tag (o_tag oq) =? DW_TAG_array_type) then
             at_ ← on_d (cast tag__array_type q);
             nr ← on_d (must "nr_entries out of range" (at_nr_entries at_ !! 0%nat));
             mret ((nr =? 0) && is_last)
           else mret false);
   fprintf ((if (fake : bool) then print_dec (1024 * 1024) else show_int (s32 (cm_byte_size m))) +:+ newline))
    (emit (id_column s +:+ text) s)
  = inr (tt, printed [mkRow text (dotted prefixes name) (s32 (u32 (cm_byte_offset m + base))) size] s).
Proof.
  intros [Hd He] (Hpre & Hbase & _) Hq Hsize Hshort.
  dstep (fprintf_run (delim delimiter) (emit (id_column s +:+ text) s)). rewrite emit_emit.
  rewrite (dbind (gets p_ext) _ _ _ _ eq_refl). cbv beta. cbn [emit p_ext]. rewrite Hpre.
  set (s1 := emit ((id_column s +:+ text) +:+ delim delimiter) s).
  dstep (on_d_run _ s1 _ Hd (concat_members_run (fun _ => true) (INT_MAX - MAX_STRING_LEN) (Z.le_refl _)
    (fun _ _ => eq_refl) prefixes name d Hshort)).
  change (default "<error>"%string (Some (dotted prefixes name))) with (dotted prefixes name).
  destruct (add_member_name (dotted prefixes name) (p_reg s)) as [id reg] eqn:Ereg.
  assert (Hreg : register (dotted prefixes name) s1 = inr (id, mkP (p_d s1) (p_out s1) (p_ext s1) reg)).
  { unfold register. change (p_reg s1) with (p_reg s). by rewrite Ereg. }
  dstep Hreg. rewrite (dbind (gets p_ext) _ _ _ _ eq_refl). cbv beta. cbn [p_ext].
  change (p_ext s1) with (p_ext s). rewrite Hbase.
  dstep (fprintf_run (print_dec id +:+ delim delimiter +:+
            show_int (s32 (u32 (cm_byte_offset m + base))) +:+ delim delimiter)
    (mkP (p_d s1) (p_out s1) (p_ext s) reg)).
  rewrite (size_column_run m q oq is_last size); [|done|done|done]. rewrite emit_emit.
  unfold printed, s1, emit, row_line, id_column. cbn [rows_text row_name fst snd p_d p_out p_ext p_reg]. rewrite Ereg.
  unfold row_line. cbn [fst snd row_type row_offset row_size]. by rewrite !string_app_assoc, string_app_nil.
Qed.

Lemma member_run n n' f prefixes base pos o is_last rows q oq s :
  member_rows d u strs stray_name expand chain n f prefixes base pos is_last = Some rows ->
  obj pos = Some o -> is_member (o_tag o) = true -> target d u o = Some (q, oq) ->
  (n <= S n')%nat -> prints n' f -> Forall short rows -> at_unit s -> inside prefixes base s ->
  struct_member__fprintf ops (fun _ => true) delimiter
    (fun type name cm_name offset => ptype__fprintf (S n') c type name cm_name offset) c pos q is_last s
  = inr (tt, printed rows s).
Proof.
  intros Hrows Ho Hm Ht Hn Hf Hshort Hs Hin. destruct (Hs) as [Hd He].
  unfold member_rows in Hrows. rewrite Ho in Hrows. cbn [mbind option_bind] in Hrows. rewrite Hm in Hrows. cbn [negb] in Hrows.
  destruct (tag__class_member (o_body o)) as [m|] eqn:Em; [|done]. cbn [mbind option_bind] in Hrows.
  rewrite Ht in Hrows. cbn [mbind option_bind] in Hrows. destruct (target_inv d u _ _ _ Ht) as (Hq & Hoq & H0).
  unfold struct_member__fprintf. dstep (on_d_run _ s _ Hd (cast_run _ _ _ _ _ Ho Em)).
  assert (Hname : class_member__name ops pos c d = inr (strs (cm_name m), d)).
  { unfold class_member__name. dstep (cast_run _ _ _ _ _ Ho Em). apply (uo_string _ _ _ _ _ Hu). }
  dstep (on_d_run _ s _ Hd Hname). dstep (on_d_run _ s _ Hd (load_tag_run _ _ _ Ho)).
  destruct (cm_is_static m); [injection Hrows as <-; by rewrite printed_nil|].
  dstep (on_d_run _ s _ Hd (load_tag_run _ _ _ Hoq)).
  destruct (tag__is_union (o_tag oq)); [done|]. rewrite dret.
  destruct (member_name strs m) as [name|] eqn:En; [|done]. cbn [mbind option_bind] in Hrows.
  dstep (member_name_run m name s En).
  destruct (expanded d u strs stray_name expand chain q) as [r|] eqn:Ex.
  - destruct (Nat.ltb_spec (List.length prefixes) 16) as [Hlen|]; [|done].
    by dstep (expanded_run n' f q r name prefixes base rows
      (if tag_tag (o_tag o) =? DW_TAG_inheritance then Some "<ancestor>"%string else strs (cm_name m)) (cm_byte_offset m) s Hf Ex Hlen Hrows Hshort Hs Hin).
  - destruct (type_text n q) as [text|] eqn:Eq; [|done]. cbn [mbind option_bind] in Hrows.
    destruct (member_size m oq is_last) as [size|] eqn:Esz; [|done]. injection Hrows as <-.
    dstep (type_text_run n (S n') q text (if tag_tag (o_tag o) =? DW_TAG_inheritance then Some "<ancestor>"%string else strs (cm_name m))
      (Some name) (cm_byte_offset m) s Eq Hn Hs).
    apply (row_rest_run m q oq prefixes base name is_last size text s Hs Hin Hoq Esz).
    by inversion Hshort.
Qed.

(** The loop over the tags. *)
Lemma class_loop_run n n' f prefixes base tags rows ret s :
  tags_rows (member_rows d u strs stray_name expand chain n f prefixes base) tags = Some rows ->
  (n <= S n')%nat -> prints n' f -> Forall short rows -> at_unit s -> inside prefixes base s ->
  exists ret', class_loop ops (fun _ => true) delimiter
    (fun type name cm_name offset => ptype__fprintf (S n') c type name cm_name offset) c tags ret s
  = inr (ret', printed rows s).
Proof.
  intros Hrows Hn Hf. revert rows ret s Hrows.
  induction tags as [|pos tags IH]; intros rows ret s Hrows Hshort Hs Hin; cbn [tags_rows class_loop] in *.
  { injection Hrows as <-. rewrite printed_nil. by eexists. }
  set (is_last := match tags with [] => true | _ => false end) in *.
  destruct (member_rows _ _ _ _ _ _ _ _ _ _ pos is_last) as [r1|] eqn:E1; [|done]. cbn [mbind option_bind] in Hrows.
  destruct (tags_rows _ tags) as [r2|] eqn:E2; [|done]. injection Hrows as <-.
  apply Forall_app in Hshort as [Hs1 Hs2]. destruct (Hs) as [Hd He].
  pose proof E1 as E1'. unfold member_rows in E1'.
  destruct (obj pos) as [o|] eqn:Ho; [|done]. cbn [mbind option_bind] in E1'.
  dstep (on_d_run _ s _ Hd (load_tag_run _ _ _ Ho)).
  destruct (is_member (o_tag o)) eqn:Em; cbn [negb] in *.
  - destruct (tag__class_member (o_body o)) as [m|]; [|done]. cbn [mbind option_bind] in E1'.
    destruct (target d u o) as [[q oq]|] eqn:Et; [|done].
    destruct (target_inv d u _ _ _ Et) as (Hq & Hoq & H0).
    dstep (on_d_run _ s _ Hd (unit_type_run ops d c u strs Hu _ _ Ho)). rewrite Hq, H0.
    dstep (member_run n n' f prefixes base pos o is_last r1 q oq s E1 Ho Em Et Hn Hf Hs1 Hs Hin).
    rewrite printed_app. by apply IH; [|done|apply at_unit_printed|].
  - injection E1' as <-. cbn [app]. by apply IH.
Qed.

Lemma flat_layout_prints n n' : (n <= S n')%nat ->
  prints (S n') (flat_layout d u strs stray_name expand chain n).
Proof.
  revert n'. induction n as [|n IH]; intros n' Hn prefixes base r rows s Hrows Hshort Hs Hin; [done|].
  cbn [flat_layout] in Hrows. destruct (struct_tags d r) as [tags|] eqn:Et; [|done]. cbn [mbind option_bind] in Hrows.
  unfold class__fprintf_with.
  assert (Htags : type_tags r d = inr (tags, d)).
  { unfold struct_tags in Et. destruct (obj r) as [o|] eqn:Ho; [|done]. cbn [mbind option_bind] in Et.
    destruct (tag__namespace (o_body o)) as [ns|] eqn:En; [|done]. cbn [mbind option_bind] in Et.
    unfold type_tags. dstep (cast_run _ _ _ _ _ Ho En). destruct (ns_tags ns); [|done]. by injection Et as ->. }
  dstep (on_d_run _ s _ (proj1 Hs) Htags).
  apply (class_loop_run n n' (flat_layout d u strs stray_name expand chain n) prefixes base); [done|lia| |done..].
  destruct n' as [|n'']; [|apply IH; lia]. intros prefixes' base' r' rows' s' H'. by destruct n; [|lia].
Qed.

End Print.

(** (C37) What [class__fprintf] writes to structs_layout.csv when all allocations
    succeed: for a structure whose flattened layout is [rows], exactly the lines of
    [rows] are appended,
    in order, with the type id of the outermost structure, the ids the registry
    gives to the dotted names, and absolute offsets; prefixes and offset are
    restored, and as many levels as the layout has are enough fuel. *)
Theorem class__fprintf_rows {N : Type} `{MemberNamesOk N} ops stray_name fmemopen_ok delimiter chain
    d c u strs n p rows out tid (reg : N) :
  unit_ok ops d c u strs -> (2 <= chain)%nat ->
  flat_layout d u strs stray_name (expand_type reg) chain n [] 0 p = Some rows ->
  Forall short rows ->
  exists ret, class__fprintf ops stray_name fmemopen_ok (fun _ => true) delimiter chain n p c
      (mkP d out (mkExt tid [] 0) reg)
    = inr (ret, mkP d (out +:+ fst (rows_text delimiter tid rows reg)) (mkExt tid [] 0)
                  (snd (rows_text delimiter tid rows reg))).
Proof.
  intros Hu Hchain Hrows Hshort. destruct n as [|n]; [done|].
  refine (flat_layout_prints ops stray_name fmemopen_ok delimiter chain d c u strs (expand_type reg)
    Hu Hchain (S n) n (le_n _) [] 0 p rows (mkP d out (mkExt tid [] 0) reg) Hrows Hshort _ _).
  - split; [reflexivity|]. intros t. reflexivity.
  - split; [reflexivity|]. split; [reflexivity|lia].
Qed.

(** ** An example

    [struct host { int x; struct foo *p; };]
    [struct inode { int a; struct host h; off_t o; char name[0]; };] *)

Definition ex_rows_strings : list string :=
  [EmptyString; "int"; "char"; "host"; "foo"; "inode"; "off_t"; "a"; "h"; "o"; "name"; "x"; "p"]%string.
Definition ex_strs (s : strings_t) : option string := ex_rows_strings !! Z.to_nat s.
Definition ex_rows_ops : debug_fmt_ops :=
  mkOps "dwarf" None None (fun _ => mret 0) None None None None None
    (Some (fun _ s => mret (ex_strs s))) None.
Definition ex_rows_ns (name : strings_t) (l : list loc) : namespace := mkNs name 0 false None (Tags l).
Definition ex_rows_struct (name : strings_t) (l : list loc) : tagobj :=
  mkObj (mkTag Linked 0 DW_TAG_structure_type true 0)
    (BClass (mkClass (mkType (ex_rows_ns name l) 24 0 0 0) [] 0 0 0 0 0)).
Definition ex_rows_base (name : strings_t) (bits : Z) : tagobj :=
  mkObj (mkTag Linked 0 DW_TAG_base_type true 0) (BBaseType (mkBase name bits true true false false 0)).
Definition ex_rows_member (name ty offset size : Z) : tagobj :=
  mkObj (mkTag Linked ty DW_TAG_member false 0)
    (BClassMember (mkMember name 0 0 offset size 0 0 0 false 0 false 0 0 0)).
Definition ex_rows_unit : cu :=
  mkCu [] (mkPt (<[8 := 184]> (<[7 := 128]> (<[6 := 112]> (<[5 := 96]> (<[4 := 80]> (<[3 := 48]>
      (<[2 := 32]> (<[1 := 16]> {[ 0 := 0 ]})))))))) 9 256)
    ptr_table__init ptr_table__init "a.c" "vmlinux" 0 [] true 8 false true 12 0 0 [].
Definition ex_rows_state : dstate :=
  mkD (list_to_map [(16, ex_rows_base 1 32); (32, ex_rows_base 2 8); (48, ex_rows_struct 3 [56; 64]);
         (56, ex_rows_member 11 1 0 4); (64, ex_rows_member 12 5 8 8); (80, ex_rows_struct 4 []);
         (96, mkObj (mkTag Linked 4 DW_TAG_pointer_type true 0) BTag);
         (112, mkObj (mkTag Linked 2 DW_TAG_array_type true 0) (BArrayType (mkArray [0] 1 false)));
         (128, ex_rows_struct 5 [136; 144; 152; 160]); (136, ex_rows_member 7 1 0 4);
         (144, ex_rows_member 8 3 8 16); (152, ex_rows_member 9 8 24 4); (160, ex_rows_member 10 6 28 0);
         (184, mkObj (mkTag Linked 1 DW_TAG_typedef true 0) (BType (mkType (ex_rows_ns 6 []) 0 0 0 0)))])
    ∅ ∅ {[ 8 := ex_rows_unit ]} [8] (mkRbheap ∅ ∅) strings__new [] [] loader_init no_hash.

(** Names get consecutive ids; [struct host] is expanded. *)
#[export] Instance ex_rows_registry : MemberNames (list string) := {
  expand_type := fun _ s => String.eqb s "host";
  add_member_name := fun s l => (Z.of_nat (List.length l), l ++ [s])
}.
#[export] Instance ex_rows_registry_ok : MemberNamesOk (list string).
Proof. done. Qed.

Lemma ex_rows_unit_ok : unit_ok ex_rows_ops ex_rows_state 8 ex_rows_unit ex_strs.
Proof.
  split.
  - by split.
  - split; cbn; [lia|lia|]. intros id. rewrite !lookup_insert_is_Some, lookup_singleton_is_Some. lia.
  - reflexivity.
  - intros p o Ho. unfold obj, ex_rows_state in Ho. cbn [d_tags] in Ho. apply elem_of_list_to_map_2 in Ho.
    repeat (apply elem_of_cons in Ho as [[= -> ->]|Ho]; [cbn; lia|]). by apply elem_of_nil in Ho.
  - done.
Qed.

Lemma class__fprintf_rows_witness :
  exists ret, class__fprintf ex_rows_ops (fun _ => None) true (fun _ => true) "," 2 3 128 8
      (mkP ex_rows_state EmptyString (mkExt 77 [] 0) ([] : list string))
    = inr (ret, mkP ex_rows_state
        ("77,int,0,0,4" +:+ newline +:+ "77,int,1,8,4" +:+ newline +:+ "77,struct foo *,2,16,8" +:+ newline +:+
         "77,off_t,3,24,4" +:+ newline +:+ "77,char[0],4,28,1048576" +:+ newline)
        (mkExt 77 [] 0) ["a"; "h.x"; "h.p"; "o"; "name"]%string).
Proof.
  pose (rows := [mkRow "int" "a" 0 4; mkRow "int" "h.x" 8 4; mkRow "struct foo *" "h.p" 16 8;
    mkRow "off_t" "o" 24 4; mkRow "char[0]" "name" 28 1048576]).
  assert (Hrows : flat_layout ex_rows_state ex_rows_unit ex_strs (fun _ => None)
    (expand_type ([] : list string)) 2 3 [] 0 128 = Some rows) by (vm_compute; reflexivity).
  assert (Hshort : Forall short rows) by (repeat constructor; vm_compute; discriminate).
  pose proof (class__fprintf_rows ex_rows_ops (fun _ => None) true "," 2 ex_rows_state 8 ex_rows_unit ex_strs
    3 128 rows EmptyString 77 ([] : list string) ex_rows_unit_ok (le_n _) Hrows Hshort) as [ret Hrun].
  exists ret. exact Hrun.
Defined.
