(* ===== verification/NameTable.v ===== *)
(** * The member names of the converter: callbacks of convert.cc

    [addMemberName] and [expand_type] are the functions that the printer of
    structure layouts calls back; they work on [memberNames], the counter of ids
    and the list of observed data types. *)
From S2P Require Import Prelude StdMap CxxStd DwPrint ConvertTypes.
Local Open Scope list_scope.
Local Open Scope Z_scope.

Record names := mkNames {
  memberNames : list (string * Z);  (* std::map, sorted *)
  curMemberNameID : Z;              (* unsigned long long *)
  types_ : list DataType            (* the global vector [types] *)
}.

(** [find_if] over the map. *)
Definition addMemberName (member_name : string) (s : names) : Z * names :=
  match List.find (fun value => String.eqb value.1 member_name) (memberNames s) with
  | Some value => (value.2, s)
  | None =>
      let ret := curMemberNameID s in
      (ret, mkNames (sm_emplace member_name ret (memberNames s)).1 (u64 (ret + 1)) (types_ s))
  end.

Definition expandType (s : names) (struct_typename : string) : bool :=
  existsb (fun t => String.eqb (dt_name t) struct_typename) (types_ s).

Definition init_names (types : list DataType) : names := mkNames [] 1 types.

#[export] Instance converter_names : MemberNames names := {
  expand_type := expandType;
  add_member_name := addMemberName
}.

(** ** Ids and names correspond *)

(** The map holds the ids 1, 2, .. up to the counter, each once. *)
Record names_ok (s : names) : Prop := {
  no_sorted : sm_sorted (memberNames s);
  no_ids : (memberNames s).*2 ≡ₚ seqZ 1 (Z.of_nat (List.length (memberNames s)));
  no_cur : curMemberNameID s = 1 + Z.of_nat (List.length (memberNames s))
}.

(** The id of a name. *)
Definition id_of (s : names) (name : string) : option Z := sm_find name (memberNames s).

Lemma find_sm_find name (m : list (string * Z)) :
  snd <$> List.find (fun value => String.eqb value.1 name) m = sm_find name m.
Proof.
  induction m as [|[k v] m IH]; [done|]. cbn [List.find fst sm_find].
  destruct (String.eqb_spec k name) as [->|Hne].
  - by rewrite kcmp_refl.
  - rewrite IH. destruct (kcmp name k) eqn:E; [|done|done]. apply kcmp_eq in E. congruence.
Qed.

Lemma addMemberName_run name s :
  addMemberName name s =
    match id_of s name with
    | Some id => (id, s)
    | None => (curMemberNameID s,
        mkNames (sm_set name (curMemberNameID s) (memberNames s)) (u64 (curMemberNameID s + 1)) (types_ s))
    end.
Proof.
  unfold addMemberName, id_of. rewrite <- find_sm_find.
  destruct (List.find _ (memberNames s)) as [v|] eqn:E; [done|]. cbn. unfold sm_emplace.
  rewrite <- find_sm_find, E. done.
Qed.

#[export] Instance converter_names_ok : MemberNamesOk names.
Proof.
  split. intros s t r. cbn. rewrite addMemberName_run. by destruct (id_of r s).
Qed.

Lemma init_names_ok types : names_ok (init_names types).
Proof. split; done. Qed.

(** Two names do not share an id. *)
Lemma id_of_inj s a b i : names_ok s -> id_of s a = Some i -> id_of s b = Some i -> a = b.
Proof.
  intros [Hs Hids _] Ha%sm_find_elem Hb%sm_find_elem.
  assert (Hnd : NoDup (memberNames s).*2) by (rewrite Hids; apply NoDup_seqZ).
  revert Hnd Ha Hb. clear. induction (memberNames s) as [|[k v] m IH]; [by intros _ ?%elem_of_nil|].
  cbn. intros [Hv Hnd]%NoDup_cons Ha%elem_of_cons Hb%elem_of_cons.
  destruct Ha as [Ha|Ha], Hb as [Hb|Hb]; [congruence| | |by apply IH].
  - injection Ha as _ ->. destruct Hv. by apply (list_elem_of_fmap_2 snd _ (b, v)) in Hb.
  - injection Hb as _ ->. destruct Hv. by apply (list_elem_of_fmap_2 snd _ (a, v)) in Ha.
Qed.

(** The ids in use are below the counter. *)
Lemma id_of_range s a i : names_ok s -> id_of s a = Some i -> 1 <= i < curMemberNameID s.
Proof.
  intros [Hs Hids Hcur] Ha%sm_find_elem. apply (list_elem_of_fmap_2 snd) in Ha. cbn in Ha.
  rewrite Hids, elem_of_seqZ in Ha. lia.
Qed.

(** A new name gets the next id. *)
Lemma new_name_ok s a :
  names_ok s -> curMemberNameID s < 2 ^ 64 - 1 -> id_of s a = None ->
  names_ok (mkNames (sm_set a (curMemberNameID s) (memberNames s)) (u64 (curMemberNameID s + 1)) (types_ s)).
Proof.
  intros [Hs Hids Hcur] Hlt Ha. pose proof (sm_set_perm a (curMemberNameID s) _ Ha) as Hp.
  split; cbn; [by apply sm_sorted_set| |].
  - rewrite Hp. cbn [fmap list_fmap snd List.length]. rewrite seqZ_S, Hids, Hcur. apply Permutation_cons_append.
  - rewrite (Permutation_length Hp). cbn [List.length]. rewrite u64_small by lia. lia.
Qed.

(** One registration. *)
Lemma addMemberName_ok s a i s' :
  names_ok s -> curMemberNameID s < 2 ^ 64 - 1 -> addMemberName a s = (i, s') ->
  names_ok s' /\ id_of s' a = Some i /\ forall b j, id_of s b = Some j -> id_of s' b = Some j.
Proof.
  intros Hok Hlt. rewrite addMemberName_run. intros Hrun.
  destruct (id_of s a) as [j|] eqn:Ha; injection Hrun as <- <-; [done|].
  split; [by apply new_name_ok|]. split; [apply sm_find_set_eq|]. intros b j Hb.
  unfold id_of. cbn. rewrite sm_find_set_ne; [done|]. congruence.
Qed.

(** (C38) Member names and their ids stay in bijection: registering a name keeps
    the map sorted with the ids 1, 2, .. each used once, yields the id of the
    name from then on, gives no other name that id, and changes the id of no
    name that was registered before. *)
Theorem addMemberName_correct s a i s' :
  names_ok s -> curMemberNameID s < 2 ^ 64 - 1 -> addMemberName a s = (i, s') ->
  names_ok s' /\ id_of s' a = Some i /\ 1 <= i < curMemberNameID s' /\
  (forall b j, id_of s b = Some j -> id_of s' b = Some j) /\
  (forall b, id_of s' b = Some i <-> b = a) /\ addMemberName a s' = (i, s').
Proof.
  intros Hok Hlt Hrun. destruct (addMemberName_ok s a i s' Hok Hlt Hrun) as (Hok' & Ha & Hold).
  split; [done|]. split; [done|].
  split; [by apply (id_of_range _ a)|]. split; [done|]. split.
  - intros b. split; [intros Hb; by apply (id_of_inj s' b a i)|by intros ->].
  - by rewrite addMemberName_run, Ha.
Qed.

Lemma addMemberName_correct_witness :
  let s := (addMemberName "i_state" (addMemberName "i_lock" (init_names [])).2).2 in
  addMemberName "i_flags" s = (3, (addMemberName "i_flags" s).2) /\
  names_ok (addMemberName "i_flags" s).2.
Proof.
  set (s1 := (addMemberName "i_lock" (init_names [])).2).
  set (s2 := (addMemberName "i_state" s1).2). cbv zeta.
  destruct (addMemberName_correct (init_names []) "i_lock" 1 s1 (init_names_ok []) eq_refl eq_refl) as [H1 _].
  destruct (addMemberName_correct s1 "i_state" 2 s2 H1 eq_refl eq_refl) as [H2 _].
  destruct (addMemberName_correct s2 "i_flags" 3 (addMemberName "i_flags" s2).2 H2 eq_refl eq_refl) as [H3 _].
  split; [reflexivity|exact H3].
Defined.
