(* ===== verification/KernelBinary.v ===== *)
(** * What the converter reads from the kernel image: binaryread.cc

    The layouts of the observed structures and the global lock variables come
    from the dwarves library, code locations and sections from libbfd, whose
    answers are a record of functions.  At the end: the opening of the image, and
    the walks over the directories and sections of such files. *)
From S2P Require Import Prelude StdMap CxxStd RbTree GoBuffer DwTypes Dwarves DwClass DwUnits DwNames DwPrint.
From S2P Require Import ConvertTypes NameTable.
From Stdlib Require Import Strings.Ascii.
Local Open Scope list_scope.
Local Open Scope Z_scope.

(** ** Global lock variables *)

Section Dwarves.
Context (ops : debug_fmt_ops) (stray_name : loc -> option string) (fmemopen_ok : bool)
  (mem_ok : Z -> bool).
(** The bound on chains of types, and on the nesting of printed types. *)

Context (chain depth : nat).

(** [cu__for_each_variable] from [id], with [k] ids left. *)
Fixpoint for_each_variable {A} (f : loc -> DM (option A)) (c : loc) (k : nat) (id : Z) : DM (option A) :=
  match k with
  | O => mret None
  | S k =>
      u ← load_cu c;
      pos ← pt_cell (cu_tags_table u) id;
      r ← (if pos =? 0 then mret None else
           t ← load_tag pos; if tag__is_variable t then f pos else mret None);
      match r with
      | Some a => mret (Some a)
      | None => for_each_variable f c k (id + 1)
      end
  end.

(** [Some name] when the function returns 1; the name may be NULL. *)
Definition findGlobalLockVar (addr : Z) (c : loc) : DM (option (option string)) :=
  u ← load_cu c;
  for_each_variable (fun pos =>
    var ← cast tag__variable pos;
    match var_location var with
    | LOCATION_GLOBAL =>
        if negb (var_declaration var) && negb (var_name var =? 0) && (var_addr var <=? addr) then
          size ← tag__size chain pos c;
          if addr <? u64 (var_addr var + size) then name ← variable__name ops pos c; mret (Some name)
          else mret None
        else mret None
    | _ => mret None
    end) c (Z.to_nat (pt_nr_entries (cu_tags_table u))) 0.

(** [addrToSym] is a std::map of the global symbols. *)
Definition getGlobalLockVar (addrToSym : list (Z * string)) (addr : Z) : DM (option string) :=
  st ← get_st;
  r ← find_list (findGlobalLockVar addr) (d_list st);
  mret (match r with Some (Some name) => Some name | _ => sm_find addr addrToSym end).

(** ** Structure layouts *)

Notation PM := (M (pstate names) exn).

Definition set_types (l : list DataType) : PM unit :=
  modify (fun s => mkP (p_d s) (p_out s) (p_ext s)
    (mkNames (memberNames (p_reg s)) (curMemberNameID (p_reg s)) l)).

(** One round of the first loop: the type at position [i]. *)

Definition convert_type (delimiter : ascii) (c : loc) (i : nat) : PM unit :=
  s ← get_st;
  type ← on_d (must "types[]" (types_ (p_reg s) !! i));
  if foundInDw type then mret tt else
  ret ← on_d (cu__find_struct_by_name ops chain c (Some (dt_name type)) false);
  match ret with
  | None => mret tt
  | Some (p, _) =>
      t ← on_d (load_tag p);
      if (tag_tag t =? DW_TAG_class_type) || (tag_tag t =? DW_TAG_interface_type) ||
         (tag_tag t =? DW_TAG_structure_type) then
        set_ext (fun e => mkExt (ConvertTypes.dt_id type) (name_prefixes e) (ext_offset e));;;
        r ← class__fprintf ops stray_name fmemopen_ok mem_ok delimiter chain depth p c;
        if r =? 0 then mret tt else
        s ← get_st;
        set_types (<[i := mkDataType (ConvertTypes.dt_id type) (dt_name type) true]> (types_ (p_reg s)))
      else on_d (err (other_diag "found struct that is no struct"))
  end.

Fixpoint convert_types (delimiter : ascii) (c : loc) (l : list nat) : PM unit :=
  match l with [] => mret tt | i :: l => convert_type delimiter c i;;; convert_types delimiter c l end.

(** Whether the iteration over the units may stop. *)
Definition convert_cus_iterator (delimiter : ascii) (c : loc) : PM bool :=
  set_ext (fun _ => mkExt 0 [] 0);;;
  s ← get_st;
  convert_types delimiter c (seq 0 (List.length (types_ (p_reg s))));;;
  s ← get_st;
  mret (forallb foundInDw (types_ (p_reg s))).

(** [cus__for_each_cu] without a filter. *)
Fixpoint convert_cus (delimiter : ascii) (cus : list loc) : PM unit :=
  match cus with
  | [] => mret tt
  | c :: cus =>
      stop ← convert_cus_iterator delimiter c;
      if (stop : bool) then mret tt else convert_cus delimiter cus
  end.

(** [fopen_ok]: whether the output file can be opened. *)
Definition extractStructDefs (fopen_ok : bool) (delimiter : ascii) : PM Z :=
  if negb fopen_ok then mret 1 else
  let delim := String delimiter EmptyString in
  fprintf ("type_id" +:+ delim +:+ "type" +:+ delim +:+ "member" +:+ delim +:+ "offset" +:+ delim +:+
           "size" +:+ newline);;;
  s ← get_st;
  convert_cus delimiter (d_list (p_d s));;;
  mret 0.

End Dwarves.

(** ** Code locations *)

Record asection := mkSection { sec_name : string; sec_alloc : bool; sec_vma : Z; sec_size : Z }.

(** What libbfd answers: the nearest line for an offset in the n-th section, the
    functions that one was inlined into, and the symbols; a NULL string is
    [None]. *)

Record bfd := mkBfd {
  bfd_sections : list asection;
  bfd_find_nearest_line : nat -> Z -> option (option string * option string * Z);
  bfd_inliners : nat -> Z -> list (option string * option string * Z);
  bfd_symbols : list (bool * Z * string)     (* global, value, name *)
}.

Section Bfd.
Context (kernelBfd : bfd).

(** [bfd_map_over_sections] of the callback: the first section whose lookup
    succeeds, with its position. *)
Fixpoint find_address_in_section (pc : Z) (sections : list asection) (i : nat)
    : option (nat * (option string * option string * Z)) :=
  match sections with
  | [] => None
  | s :: sections =>
      if negb (sec_alloc s) || (pc <? sec_vma s) || (u64 (sec_vma s + sec_size s) <=? pc)
      then find_address_in_section pc sections (S i)
      else match bfd_find_nearest_line kernelBfd i (pc - sec_vma s) with
           | Some r => Some (i, r)
           | None => find_address_in_section pc sections (S i)
           end
  end.

(** [s + n], which must stay in the string. *)
Definition skip_chars (n : nat) (s : string) : exn + string :=
  if (n <=? String.length s)%nat then inr (String.substring n (String.length s - n) s)
  else inl (undefined "pointer beyond the string").

Definition ends_with_slash (s : string) : bool :=
  match String.get (String.length s - 1) s with Some ch => Ascii.eqb ch "/"%char | None => false end.

(** The file of the location itself; [strstr] finds [compDir] anywhere. *)
Definition location_file (compDir : string) (file : option string) : exn + string :=
  match file with
  | None => inr "unknown"%string
  | Some file =>
      match String.index 0 compDir file with
      | None => inr file
      | Some _ =>
          if (String.length compDir =? 0)%nat then inl (undefined "compDir[-1]")
          else skip_chars (String.length compDir + (if ends_with_slash compDir then 0 else 1)) file
      end
  end.

(** The file of a function it was inlined into. *)
Definition inlined_file (compDir : string) (file : option string) : exn + string :=
  match file with
  | None => inl (undefined "strstr of a null pointer")
  | Some file =>
      match String.index 0 compDir file with
      | None => inr file
      | Some _ => skip_chars (String.length compDir) file
      end
  end.

Fixpoint inlined_by (compDir : string) (l : list (option string * option string * Z))
    : exn + list CodeLocation :=
  match l with
  | [] => inr []
  | (file, fn, line) :: l =>
      match inlined_file compDir file with
      | inl e => inl e
      | inr f =>
          match inlined_by compDir l with
          | inl e => inl e
          | inr rest => inr (mkCodeLocation (default "unknown"%string fn) f (s32 line) :: rest)
          end
      end
  end.

Definition resolve_address (compDir : string) (addr : Z) : exn + ResolvedInstructionPtr :=
  match find_address_in_section addr (bfd_sections kernelBfd) 0 with
  | None => inr (mkResolved (mkCodeLocation "unknown" "unknown" 0) [])
  | Some (i, (file, fn, line)) =>
      match location_file compDir file with
      | inl e => inl e
      | inr f =>
          match inlined_by compDir (bfd_inliners kernelBfd i
            (addr - match bfd_sections kernelBfd !! i with Some s => sec_vma s | None => 0 end)) with
          | inl e => inl e
          | inr l => inr (mkResolved (mkCodeLocation (default "unknown"%string fn) f (s32 line)) l)
          end
      end
  end.

(** [functionAddresses] caches the results. *)
Definition get_function_at_addr (compDir : string) (addr : Z)
    : M (list (Z * ResolvedInstructionPtr)) exn ResolvedInstructionPtr := fun functionAddresses =>
  match sm_find addr functionAddresses with
  | Some r => inr (r, functionAddresses)
  | None =>
      match resolve_address compDir addr with
      | inl e => inl e
      | inr r => inr (r, sm_set addr r functionAddresses)
      end
  end.

(** ** Sections and symbols *)

Definition ELF_SECTIONS : list string :=
  [".bss"; ".data"; ".data.cacheline_aligned"; ".data.read_mostly"]%string.

Definition readSections (dataSections : list (string * (Z * Z))) : list (string * (Z * Z)) :=
  foldl (fun m section =>
    match List.find (fun s => String.eqb (sec_name s) section) (bfd_sections kernelBfd) with
    | None => m
    | Some s => sm_set (sec_name s) (sec_vma s, sec_size s) m
    end) dataSections ELF_SECTIONS.

(** The loop of [binaryread_init] over the symbols: the first one at an address stays. *)

Definition read_symbols : list (Z * string) :=
  foldl (fun m sym => let '(global, value, name) := sym in
    if (global : bool) then (sm_emplace value name m).1 else m) [] (bfd_symbols kernelBfd).

End Bfd.

(** ** The cache *)

(** Every cached location is the one the binary yields. *)

Definition cache_ok (b : bfd) (compDir : string) (cache : list (Z * ResolvedInstructionPtr)) : Prop :=
  forall addr r, sm_find addr cache = Some r -> resolve_address b compDir addr = inr r.

(** With the one directory the converter uses, the cache is invisible. *)
Lemma get_function_at_addr_ok b compDir addr cache r cache' :
  cache_ok b compDir cache -> get_function_at_addr b compDir addr cache = inr (r, cache') ->
  resolve_address b compDir addr = inr r /\ cache_ok b compDir cache'.
Proof.
  intros Hc. unfold get_function_at_addr. destruct (sm_find addr cache) as [r0|] eqn:Ef.
  - intros [= <- <-]. split; [by apply Hc|done].
  - destruct (resolve_address b compDir addr) as [e|r0] eqn:Er; [done|]. intros [= <- <-].
    split; [done|]. intros a x Hx. destruct (decide (a = addr)) as [->|Hne].
    + rewrite sm_find_set_eq in Hx. by injection Hx as <-.
    + rewrite sm_find_set_ne in Hx by done. by apply Hc.
Qed.

(** What the event loop of Convert asks, answered by a loaded binary. *)
Definition loaded_binary (ops : debug_fmt_ops) (chain : nat) (d : dstate) (b : bfd) : BinaryRead := {|
  ConvertTypes.getGlobalLockVar := fun addr =>
    match getGlobalLockVar ops chain (read_symbols b) addr d with inr (r, _) => r | inl _ => None end;
  ConvertTypes.get_function_at_addr := fun compDir addr =>
    match resolve_address b compDir addr with
    | inr r => r
    | inl _ => mkResolved (mkCodeLocation "unknown" "unknown" 0) []
    end
|}.

(** ** Files of debugging information

    The loading of a directory (cus__load_dir of dwarves.c), the search for an ELF
    section (elf_section_by_name of dutil.c) and the opening of the kernel image
    (slurp_symtab, binaryread_init and binaryread_destroy of binaryread.cc), on top
    of what the file system, libelf and libbfd answer. *)

(** *** Sections *)

(** The headers of the sections from the second one on, by [sh_name]; [strptr] is
    [elf_strptr] in the table of section names, [None] is NULL.  The section found
    is given by its position, and [*index] is [cnt]. *)
Fixpoint elf_section_by_name (strptr : Z -> option string) (name : string) (sections : list Z) (cnt : Z)
    : exn + option (Z * Z) :=
  match sections with
  | [] => inr None
  | sh_name :: sections =>
      match strptr sh_name with
      | None => inl (undefined "strcmp of NULL")
      | Some str => if String.eqb name str then inr (Some (sh_name, cnt))
                    else elf_section_by_name strptr name sections (u64 (cnt + 1))
      end
  end.

(** *** Directories *)

Section Directory.
(** The names in a directory, [None] if it cannot be opened; whether a path is a
    directory, [None] if [lstat] fails; [fnmatch]; and the loading of a file. *)
Context (readdir : string -> option (list string)) (lstat : string -> option bool)
  (fnmatch : string -> string -> bool) (load_file : string -> DM Z).
Context (filename_mask : string) (recursive : bool).

Definition PATH_MAX : nat := 4096.
(** [snprintf] into [pathname] cuts what does not fit. *)
Definition pathname (dirname entry : string) : string :=
  String.substring 0 (PATH_MAX - 1) (dirname +:+ "/" +:+ entry).
Definition is_dot (entry : string) : bool := String.eqb entry "." || String.eqb entry "..".

(** The loop over the entries; [sub] loads a directory below this one. *)
Fixpoint load_entries (sub : string -> DM Z) (dirname : string) (entries : list string) : DM Z :=
  match entries with
  | [] => mret 0
  | entry :: entries =>
      if is_dot entry then load_entries sub dirname entries else
      let path := pathname dirname entry in
      match lstat path with
      | None => mret (-1)
      | Some true =>
          if negb recursive then load_entries sub dirname entries else
          err ← sub path;
          if err =? 0 then load_entries sub dirname entries else mret err
      | Some false =>
          if fnmatch filename_mask entry then
            err ← load_file path;
            if err =? 0 then load_entries sub dirname entries else mret err
          else load_entries sub dirname entries
      end
  end.

(** [n] bounds the depth of the directories. *)
Fixpoint cus__load_dir (n : nat) (dirname : string) : DM Z :=
  match n with
  | O => raise out_of_fuel
  | S n =>
      match readdir dirname with
      | None => mret (-1)
      | Some entries => load_entries (cus__load_dir n) dirname entries
      end
  end.

(** **** The files below a directory

    What is loaded, without loading it: the paths up to the first directory that
    cannot be opened or the first path whose kind is unknown, and whether there was
    none.  [None]: the directories are nested too deeply. *)
Fixpoint walk_entries (sub : string -> option (list string * bool)) (dirname : string) (entries : list string)
    : option (list string * bool) :=
  match entries with
  | [] => Some ([], true)
  | entry :: entries =>
      if is_dot entry then walk_entries sub dirname entries else
      let path := pathname dirname entry in
      match lstat path with
      | None => Some ([], false)
      | Some true =>
          if negb recursive then walk_entries sub dirname entries else
          '(l, ok) ← sub path;
          if (ok : bool) then '(l', ok) ← walk_entries sub dirname entries; Some (l ++ l', ok) else Some (l, false)
      | Some false =>
          if fnmatch filename_mask entry then
            '(l, ok) ← walk_entries sub dirname entries; Some (path :: l, ok)
          else walk_entries sub dirname entries
      end
  end.
Fixpoint walk (n : nat) (dirname : string) : option (list string * bool) :=
  match n with
  | O => None
  | S n =>
      match readdir dirname with
      | None => Some ([], false)
      | Some entries => walk_entries (walk n) dirname entries
      end
  end.

(** Loading the files of a list until one fails. *)
Fixpoint load_list (l : list string) (last : Z) : DM Z :=
  match l with
  | [] => mret last
  | f :: l => err ← load_file f; if err =? 0 then load_list l last else mret err
  end.

Definition result_of (ok : bool) : Z := if ok then 0 else -1.

Lemma load_list_app l1 l2 last d :
  load_list (l1 ++ l2) last d = (err ← load_list l1 0; if err =? 0 then load_list l2 last else mret err) d.
Proof.
  revert d. induction l1 as [|f l1 IH]; intros d; [done|]. cbn [app load_list].
  unfold mbind, M_bind. destruct (load_file f d) as [|[err d1]]; [done|].
  destruct (Z.eqb_spec err 0) as [|Hne]; [apply IH|]. cbn. by rewrite (proj2 (Z.eqb_neq _ _) Hne).
Qed.

(** The loader loads the files of the walk. *)
Definition loads (load : string -> DM Z) (w : string -> option (list string * bool)) : Prop :=
  forall dirname l ok, w dirname = Some (l, ok) -> forall d, load dirname d = load_list l (result_of ok) d.

Lemma load_entries_walk sub w dirname entries : loads sub w -> forall l ok d,
  walk_entries w dirname entries = Some (l, ok) ->
  load_entries sub dirname entries d = load_list l (result_of ok) d.
Proof.
  intros Hsub. induction entries as [|e entries IH]; intros l ok d; cbn [walk_entries load_entries].
  { by intros [= <- <-]. }
  destruct (is_dot e); [apply IH|]. destruct (lstat _) as [[]|]; [| |by intros [= <- <-]].
  - destruct recursive; cbn [negb]; [|apply IH].
    destruct (w _) as [[l1 ok1]|] eqn:Ew; [|done]. cbn. specialize (Hsub _ _ _ Ew).
    destruct ok1; cbn in *.
    + destruct (walk_entries w dirname entries) as [[l2 ok2]|]; [|done]. cbn. intros [= <- <-].
      rewrite load_list_app. unfold mbind, M_bind. rewrite Hsub.
      destruct (load_list l1 0 d) as [|[err d1]]; [done|]. destruct (err =? 0); [by apply IH|done].
    + intros [= <- <-]. cbn. unfold mbind, M_bind. rewrite Hsub.
      enough (forall d0 err d1, load_list l1 (-1) d0 = inr (err, d1) -> err <> 0) as Hne.
      { destruct (load_list l1 (-1) d) as [|[err d1]] eqn:El; [done|].
        by rewrite (proj2 (Z.eqb_neq _ _) (Hne _ _ _ El)). }
      clear. induction l1 as [|f l1 IH]; intros d0 err d1; cbn [load_list]; [by intros [= <- _]|].
      unfold mbind, M_bind. destruct (load_file f d0) as [|[e d2]]; [done|].
      destruct (Z.eqb_spec e 0) as [|Hne]; [apply IH|]. by intros [= <- _].
  - destruct (fnmatch _ _); [|apply IH].
    destruct (walk_entries w dirname entries) as [[l2 ok2]|]; [|done]. cbn. intros [= <- <-]. cbn [load_list].
    unfold mbind, M_bind. destruct (load_file _ d) as [|[err d1]]; [done|]. destruct (err =? 0); [by apply IH|done].
Qed.

(** Loading a directory is loading the files of the walk, one after the other. *)
Lemma cus__load_dir_walk n : loads (cus__load_dir n) (walk n).
Proof.
  induction n as [|n IH]; intros dirname l ok; cbn [walk cus__load_dir]; [done|].
  destruct (readdir dirname) as [entries|]; [|by intros [= <- <-]].
  intros Hw d. by eapply load_entries_walk.
Qed.
End Directory.

(** *** The kernel image *)

(** What libbfd answers about the symbols of a file: whether it has any, the
    sizes of the two tables, and the tables, [None] for a negative count. *)
Definition symbol : Type := bool * Z * string.
Record Symtab := mkSymtab {
  has_syms : bool;
  symtab_upper_bound : Z;
  dynamic_symtab_upper_bound : Z;
  canonicalize_symtab : option (list symbol);
  canonicalize_dynamic_symtab : option (list symbol)
}.

(** [None]: the result is 1; otherwise the symbols of [bfdSyms]. *)
Definition slurp_symtab (t : Symtab) : option (list symbol) :=
  if negb (has_syms t) then None else
  let dynamic := symtab_upper_bound t =? 0 in
  let storage := if dynamic then dynamic_symtab_upper_bound t else symtab_upper_bound t in
  if storage <? 0 then None else
  match (if dynamic then canonicalize_dynamic_symtab t else canonicalize_symtab t) with
  | None => None
  | Some syms =>
      let again := bool_decide (syms = []) && negb dynamic && (0 <? dynamic_symtab_upper_bound t) in
      match (if again then canonicalize_dynamic_symtab t else Some syms) with
      | None | Some [] => None
      | Some syms => Some syms
      end
  end.

(** A table that is used has symbols. *)
Lemma slurp_symtab_some t syms : slurp_symtab t = Some syms ->
  syms <> [] /\ (canonicalize_symtab t = Some syms \/ canonicalize_dynamic_symtab t = Some syms).
Proof.
  unfold slurp_symtab. destruct (negb _); [done|]. cbv zeta.
  destruct (_ <? 0); [done|]. destruct (symtab_upper_bound t =? 0); cbn [negb].
  - destruct (canonicalize_dynamic_symtab t) as [[|s l]|]; [by rewrite andb_false_r|..|done].
    rewrite andb_false_r. intros [= <-]. by split; [|right].
  - destruct (canonicalize_symtab t) as [[|s l]|]; [|..|done].
    + destruct (_ && _); [|done]. destruct (canonicalize_dynamic_symtab t) as [[|]|]; try done.
      intros [= <-]. by split; [|right].
    + rewrite bool_decide_eq_false_2 by done. intros [= <-]. by split; [|left].
Qed.

Section Image.
(** Whether the file can be opened and is an object file, its symbols, whether
    there is memory for the list of units, and the table of formats. *)
Context (ops : debug_fmt_ops) (strdup_ok : string -> bool).

(** The result and [addrToSym]. *)
Definition binaryread_init (open_ok format_ok cus_ok : bool) (b : bfd) (t : Symtab) (vmlinuxName : string)
    : DM (Z * list (Z * string)) :=
  if negb open_ok then mret (1, []) else
  if negb format_ok then mret (1, []) else
  match slurp_symtab t with
  | None => mret (1, [])
  | Some syms =>
      let addrToSym := read_symbols (mkBfd (bfd_sections b) (bfd_find_nearest_line b) (bfd_inliners b) syms) in
      _ ← dwarves__init ops;
      if negb (cus_ok : bool) then mret (1, addrToSym) else
      modify (set_list []);;;
      rc ← cus__load_file ops strdup_ok None vmlinuxName;
      mret (if rc =? 0 then 0 else 1, addrToSym)
  end.

Definition binaryread_destroy : DM unit :=
  cus__delete ops;;; dwarves__exit ops.
End Image.

(** A tree with a subdirectory, loaded with and without it. *)
Definition ex_tree (d : string) : option (list string) :=
  if String.eqb d "m" then Some ["."; ".."; "a.ko"; "sub"; "b.txt"; "z.ko"]%string
  else if String.eqb d "m/sub" then Some ["."; ".."; "c.ko"]%string else None.
Definition ex_lstat (p : string) : option bool := Some (String.eqb p "m/sub").
Definition ex_fnmatch (mask name : string) : bool := String.eqb (String.substring (String.length name - 3) 3 name) mask.

Example ex_walk :
  walk ex_tree ex_lstat ex_fnmatch ".ko" true 2 "m" = Some (["m/a.ko"; "m/sub/c.ko"; "m/z.ko"], true)%string /\
  walk ex_tree ex_lstat ex_fnmatch ".ko" false 1 "m" = Some (["m/a.ko"; "m/z.ko"], true)%string /\
  walk ex_tree ex_lstat ex_fnmatch ".ko" true 1 "m" = None.
Proof. done. Qed.
