(* ===== verification/LayoutNames.v ===== *)
(** * The name table after the layouts were extracted

    Whatever the debugging information looks like, printing layouts changes the
    registry only through [addMemberName], and marks types as found: the table
    of member names that is written to member_names.csv stays a bijection. *)
From S2P Require Import Prelude StdMap CxxStd RbTree GoBuffer DwTypes Dwarves DwClass DwUnits DwNames DwPrint.
From S2P Require Import ConvertTypes NameTable KernelBinary.
Local Open Scope list_scope.
Local Open Scope Z_scope.

(** Steps of the registry: names are only added, ids and names of types stay. *)
Record grows (s s' : names) : Prop := {
  gr_length : (List.length (memberNames s) <= List.length (memberNames s'))%nat;
  gr_ok : names_ok s -> Z.of_nat (List.length (memberNames s')) < 2 ^ 64 - 2 -> names_ok s';
  gr_ids : names_ok s -> Z.of_nat (List.length (memberNames s')) < 2 ^ 64 - 2 ->
    forall b j, id_of s b = Some j -> id_of s' b = Some j;
  gr_types : (fun t => (ConvertTypes.dt_id t, dt_name t)) <$> types_ s' =
    ((fun t => (ConvertTypes.dt_id t, dt_name t)) <$> types_ s)
}.

#[export] Instance grows_preorder : PreOrder grows.
Proof.
  split.
  - intros s. split; auto.
  - intros s1 s2 s3 [L1 O1 I1 T1] [L2 O2 I2 T2]. split; [lia| | |congruence].
    + intros Hok Hb. apply O2; [|done]. apply O1; [done|lia].
    + intros Hok Hb b j Hj. apply I2; [apply O1; [done|lia]|done|]. apply I1; [done|lia|done].
Qed.

Lemma grows_add name s : grows s (addMemberName name s).2.
Proof.
  destruct (addMemberName name s) as [i s'] eqn:E. cbn.
  assert (Hlen : (List.length (memberNames s) <= List.length (memberNames s'))%nat).
  { rewrite addMemberName_run in E. destruct (id_of s name) eqn:Hn; injection E as <- <-; [done|].
    cbn. rewrite (Permutation_length (sm_set_perm _ _ _ Hn)). cbn. lia. }
  assert (Hlt : names_ok s -> Z.of_nat (List.length (memberNames s')) < 2 ^ 64 - 2 ->
    curMemberNameID s < 2 ^ 64 - 1).
  { intros [_ _ ->] Hb. lia. }
  split; [done| | |].
  - intros Hok Hb. by destruct (addMemberName_ok s name i s' Hok (Hlt Hok Hb) E) as [H _].
  - intros Hok Hb. by destruct (addMemberName_ok s name i s' Hok (Hlt Hok Hb) E) as (_ & _ & H).
  - rewrite addMemberName_run in E. by destruct (id_of s name); injection E as <- <-.
Qed.

(** ** Programs that change the registry in this way only *)

Notation PM := (M (pstate names) exn).

Definition names_keep {A} (c : PM A) : Prop :=
  forall s a s', c s = inr (a, s') -> grows (p_reg s) (p_reg s').

Create HintDb names_keep.

Lemma nk_ret {A} (a : A) : names_keep (mret a).
Proof. by intros s b s' [= _ <-]. Qed.
Lemma nk_raise {A} e : names_keep (raise e : PM A).
Proof. done. Qed.
Lemma nk_bind {A B} (c : PM A) (k : A -> PM B) : names_keep c -> (forall a, names_keep (k a)) -> names_keep (c ≫= k).
Proof.
  intros Hc Hk s b s' H. apply dbind_inv in H as (a & s1 & H1 & H2).
  etrans; [by apply (Hc _ _ _ H1)|by apply (Hk _ _ _ _ H2)].
Qed.
Lemma nk_on_d {A} (f : DM A) : names_keep (on_d f).
Proof. intros s a s' H. unfold on_d in H. destruct (f (p_d s)) as [|[x d]]; [done|]. by injection H as _ <-. Qed.
Lemma nk_fprintf text : names_keep (fprintf text).
Proof. by intros s a s' [= _ <-]. Qed.
Lemma nk_set_ext f : names_keep (set_ext f).
Proof. by intros s a s' [= _ <-]. Qed.
Lemma nk_gets {A} (f : pstate names -> A) : names_keep (gets f).
Proof. by intros s a s' [= _ <-]. Qed.
Lemma nk_get_st : names_keep get_st.
Proof. by intros s a s' [= _ <-]. Qed.
Lemma nk_register name : names_keep (register name).
Proof.
  intros s a s' H. unfold register in H. pose proof (grows_add name (p_reg s)) as Hg. cbn in H.
  destruct (addMemberName name (p_reg s)). by injection H as _ <-.
Qed.
#[export] Hint Resolve nk_ret nk_raise nk_on_d nk_fprintf nk_set_ext nk_gets
  nk_get_st nk_register : names_keep.

(** Goes through binds, branches and what the hypotheses and hints know. *)
Ltac keep :=
  repeat first
    [ progress auto with names_keep
    | apply nk_bind; intros
    | match goal with |- names_keep (match ?x with _ => _ end) => destruct x end
    | match goal with |- names_keep (if ?x then _ else _) => destruct x end ].

Section Keeps.
Context (ops : debug_fmt_ops) (stray_name : loc -> option string) (fmemopen_ok : bool)
  (mem_ok : Z -> bool) (delimiter : Ascii.ascii) (chain : nat) (c : loc).

Section Rec.
Context (rec : loc -> option string -> option string -> Z -> PM bool).
Context (Hrec : forall type name cm_name offset, names_keep (rec type name cm_name offset)).
#[local] Hint Resolve Hrec : names_keep.

Lemma nk_fake_elements k i size type name : names_keep (fake_elements rec k i size type name).
Proof. revert i. induction k as [|k IH]; intros i; cbn [fake_elements]; keep. Qed.
Lemma nk_dimensions a k i flat : names_keep (dimensions_loop a k i flat : PM Z).
Proof. revert i flat. induction k as [|k IH]; intros i flat; cbn [dimensions_loop]; keep. Qed.
#[local] Hint Resolve nk_fake_elements nk_dimensions : names_keep.
Lemma nk_array p name : names_keep (array_type__fprintf chain rec c p name).
Proof. unfold array_type__fprintf. keep. Qed.
Lemma nk_union_name tags name len : names_keep (union_name ops mem_ok c tags name len : PM _).
Proof. revert name len. induction tags as [|pos tags IH]; intros name len; cbn [union_name]; keep. Qed.
Lemma nk_anonymous offset : names_keep (anonymous_name mem_ok offset : PM string).
Proof. unfold anonymous_name. keep. Qed.
#[local] Hint Resolve nk_array nk_union_name nk_anonymous : names_keep.
Lemma nk_member member type is_last :
  names_keep (struct_member__fprintf ops mem_ok delimiter rec c member type is_last).
Proof. unfold struct_member__fprintf. keep. Qed.
#[local] Hint Resolve nk_member : names_keep.
Lemma nk_class_loop tags ret : names_keep (class_loop ops mem_ok delimiter rec c tags ret).
Proof. revert ret. induction tags as [|pos tags IH]; intros ret; cbn [class_loop]; keep. Qed.
#[local] Hint Resolve nk_class_loop : names_keep.
Lemma nk_class_with p : names_keep (class__fprintf_with ops mem_ok delimiter rec c p).
Proof. unfold class__fprintf_with. keep. Qed.
#[local] Hint Resolve nk_class_with : names_keep.
Lemma nk_print_name type : names_keep (print_name ops stray_name fmemopen_ok chain c type : PM bool).
Proof. unfold print_name. keep. Qed.
Lemma nk_print_ftype type name p : names_keep (print_ftype ops stray_name fmemopen_ok chain c type name p : PM bool).
Proof. unfold print_ftype. keep. Qed.
#[local] Hint Resolve nk_print_name nk_print_ftype : names_keep.
Lemma nk_pointer type t name : names_keep (pointer__fprintf ops stray_name fmemopen_ok chain c type t name : PM bool).
Proof. unfold pointer__fprintf. keep. Qed.
Lemma nk_struct type t cm_name offset :
  names_keep (struct__fprintf ops stray_name mem_ok delimiter rec c type t cm_name offset).
Proof. unfold struct__fprintf, print_type_id. keep. Qed.
Lemma nk_named kw type : names_keep (named__fprintf ops stray_name c kw type : PM bool).
Proof. unfold named__fprintf. keep. Qed.
#[local] Hint Resolve nk_pointer nk_struct nk_named : names_keep.
Lemma nk_type_at type name cm_name offset :
  names_keep (type__fprintf_at ops stray_name fmemopen_ok mem_ok delimiter chain rec c type name cm_name offset).
Proof. unfold type__fprintf_at, printed_type, print_type_id. keep. Qed.
End Rec.

Lemma nk_type n type name cm_name offset :
  names_keep (type__fprintf ops stray_name fmemopen_ok mem_ok delimiter chain n c type name cm_name offset).
Proof.
  revert type name cm_name offset. induction n as [|n IH]; intros type name cm_name offset;
    cbn [type__fprintf]; [keep|]. by apply nk_type_at.
Qed.

Lemma nk_class n p :
  names_keep (class__fprintf ops stray_name fmemopen_ok mem_ok delimiter chain n p c).
Proof. unfold class__fprintf. apply nk_class_with. intros. apply nk_type. Qed.

End Keeps.
#[export] Hint Resolve nk_class : names_keep.

(** ** The iteration over types and units *)

Definition key_of (t : DataType) : Z * string := (ConvertTypes.dt_id t, dt_name t).

(** Marking the type at [i] as found. *)
Lemma grows_found (s1 s2 : names) i type :
  grows s1 s2 -> types_ s1 !! i = Some type ->
  grows s1 (mkNames (memberNames s2) (curMemberNameID s2)
    (<[i := mkDataType (ConvertTypes.dt_id type) (dt_name type) true]> (types_ s2))).
Proof.
  intros [L O I T] Hi. split; [done| |done|].
  - intros Hok Hb. destruct (O Hok Hb) as [? ? ?]. by split.
  - cbn [types_]. rewrite <- T, list_fmap_insert. apply list_insert_id.
    change (key_of <$> types_ s2 = key_of <$> types_ s1) in T.
    change ((key_of <$> types_ s2) !! i = Some (key_of type)). by rewrite T, list_lookup_fmap, Hi.
Qed.

Section Iterate.
Context (ops : debug_fmt_ops) (stray_name : loc -> option string) (fmemopen_ok : bool)
  (mem_ok : Z -> bool) (chain depth : nat) (delimiter : Ascii.ascii).

Lemma nk_convert_type c i :
  names_keep (convert_type ops stray_name fmemopen_ok mem_ok chain depth delimiter c i).
Proof.
  intros s a s' H. unfold convert_type in H.
  apply dbind_inv in H as (s0 & ? & [= <- <-] & H).
  apply dbind_inv in H as (type & s1 & Htype & H).
  assert (types_ (p_reg s) !! i = Some type /\ p_reg s1 = p_reg s) as [Hi Hs1].
  { unfold on_d in Htype. destruct (types_ (p_reg s) !! i); [|done]. by injection Htype as <- <-. }
  rewrite <- Hs1 in Hi |- *. clear Htype Hs1 s. revert H.
  destruct (foundInDw type); [by intros [= _ <-]|].
  intros H. apply dbind_inv in H as (ret & s2 & H2 & H). etrans; [exact (nk_on_d _ _ _ _ H2)|].
  assert (Hreg : p_reg s2 = p_reg s1).
  { unfold on_d in H2. destruct (cu__find_struct_by_name _ _ _ _ _ _) as [|[? ?]]; [done|]. by injection H2 as _ <-. }
  rewrite <- Hreg in Hi. clear H2 Hreg s1.
  destruct ret as [[p id]|]; [|by injection H as _ <-].
  apply dbind_inv in H as (t & s3 & H3 & H).
  assert (Hreg : p_reg s3 = p_reg s2).
  { unfold on_d in H3. destruct (load_tag p (p_d s2)) as [|[? ?]]; [done|]. by injection H3 as _ <-. }
  rewrite <- Hreg in Hi |- *. clear H3 Hreg s2.
  destruct (_ || _); [|exact (nk_on_d _ _ _ _ H)].
  apply dbind_inv in H as ([] & s4 & [= <-] & H).
  apply dbind_inv in H as (r & s5 & H5 & H).
  apply (nk_class ops stray_name fmemopen_ok mem_ok delimiter chain c depth p) in H5. cbn [p_reg] in H5.
  destruct (r =? 0); [by injection H as _ <-|].
  apply dbind_inv in H as (s6 & ? & [= <- <-] & H). injection H as _ <-. cbn [p_reg].
  by apply grows_found.
Qed.

Lemma nk_convert_types c l :
  names_keep (convert_types ops stray_name fmemopen_ok mem_ok chain depth delimiter c l).
Proof. induction l as [|i l IH]; cbn [convert_types]; [keep|]. apply nk_bind; [apply nk_convert_type|done]. Qed.

Lemma nk_convert_cus cus :
  names_keep (convert_cus ops stray_name fmemopen_ok mem_ok chain depth delimiter cus).
Proof.
  induction cus as [|c cus IH]; cbn [convert_cus]; [keep|]. unfold convert_cus_iterator.
  apply nk_bind; [|intros []; keep]. keep. apply nk_convert_types.
Qed.

Lemma nk_extract fopen_ok :
  names_keep (extractStructDefs ops stray_name fmemopen_ok mem_ok chain depth fopen_ok delimiter).
Proof. unfold extractStructDefs. keep. apply nk_convert_cus. Qed.

End Iterate.

(** What a complete extraction leaves. *)
Lemma extract_names ops stray_name fmemopen_ok mem_ok chain depth fopen_ok delimiter types s r s' :
  extractStructDefs ops stray_name fmemopen_ok mem_ok chain depth fopen_ok delimiter s = inr (r, s') ->
  p_reg s = init_names types ->
  Z.of_nat (List.length (memberNames (p_reg s'))) < 2 ^ 64 - 2 ->
  names_ok (p_reg s') /\ key_of <$> types_ (p_reg s') = key_of <$> types.
Proof.
  intros Hrun Hinit Hb. apply nk_extract in Hrun as [_ Hok _ Ht]. rewrite Hinit in Hok, Ht.
  split; [exact (Hok (init_names_ok types) Hb)|exact Ht].
Qed.
