(* ===== verification/Blacklist.v ===== *)
(** * The blacklists and the stages of convert.cc's main

    The two passes that translate function_blacklist.csv and
    member_blacklist.csv to ids, and the order in which [main] runs its stages:
    data types, layouts, events, subclasses, blacklists. *)
From S2P Require Import Prelude StdMap CxxStd DwPrint ConvertTypes Convert NameTable.
From Stdlib Require Import Strings.Ascii.
Local Open Scope list_scope.
Local Open Scope Z_scope.

Definition DELIMITER_BLACKLISTS : ascii := ";"%char.
Definition NULL_COLUMN : string := "\N".

(** Rows of function_blacklist.csv and member_blacklist.csv, and the messages
    for ignored lines. *)
Record fn_row := mkFnRow { fr_id : Z; fr_subclass : string; fr_member : string; fr_3 : string; fr_4 : string }.
Record member_row := mkMemberRow { mr_subclass : string; mr_member : Z }.

Section Blacklists.
Context (types : list DataType) (subclasses : list Subclass) (memberNames : list (string * Z)).

(** [type2id[type.name].push_back(to_string(subclass.id))]; a subclass without
    its type is undefined behaviour. *)
Fixpoint type2id (l : list Subclass) (m : list (string * list string)) : exn + list (string * list string) :=
  match l with
  | [] => inr m
  | c :: l =>
      match types !! sc_data_type_idx c with
      | None => inl (undefined "types[]")
      | Some t =>
          type2id l (sm_set (dt_name t)
            (default [] (sm_find (dt_name t) m) ++ [print_dec (sc_id c)]) m)
      end
  end.

(** The last subclass with a name wins. *)
Definition subclass2id : list (string * Z) := foldl (fun m c => sm_set (sc_name c) (sc_id c) m) [] subclasses.

(** The text before and after the first [ch]. *)
Fixpoint split_at (ch : ascii) (s : string) : option (string * string) :=
  match s with
  | EmptyString => None
  | String x s =>
      if Ascii.eqb x ch then Some (EmptyString, s)
      else '(a, b) ← split_at ch s; Some (String x a, b)
  end.

(** The ids for the first column of a line: those of the subclass, or of all
    subclasses of the data type; [None] when it is unknown. *)
Definition blacklist_ids (ids_of_type : list (string * list string)) (column : string) : option (list string) :=
  if String.eqb column NULL_COLUMN then Some [column] else
  match split_at DELIMITER_SUBCLASS column with
  | Some (_, subclassName) => id ← sm_find subclassName subclass2id; Some [print_dec id]
  | None => sm_find column ids_of_type
  end.

Definition member_id (column : string) : option string :=
  if String.eqb column NULL_COLUMN then Some column
  else id ← sm_find column memberNames; Some (print_dec id).

(** The rows of a line of the function blacklist, numbered from [fnBlID];
    [None] when the line is ignored. *)
Definition fn_line (ids_of_type : list (string * list string)) (fnBlID : Z) (line : string) : option (list fn_row) :=
  match tokens DELIMITER_BLACKLISTS line with
  | [c0; c1; c2; c3] =>
      match blacklist_ids ids_of_type c0, member_id c1 with
      | Some ids, Some memberID =>
          Some (imap (fun i id => mkFnRow (s32 (fnBlID + Z.of_nat i)) id memberID c2 c3) ids)
      | _, _ => None
      end
  | _ => None
  end.

(** The lines after the header; the second component is the messages. *)
Fixpoint fn_lines (ids_of_type : list (string * list string)) (fnBlID : Z) (lines : list string)
    : list fn_row * list string :=
  match lines with
  | [] => ([], [])
  | line :: lines =>
      match fn_line ids_of_type fnBlID line with
      | Some rows =>
          let '(rest, msgs) := fn_lines ids_of_type (fnBlID + Z.of_nat (List.length rows)) lines in
          (rows ++ rest, msgs)
      | None => let '(rest, msgs) := fn_lines ids_of_type fnBlID lines in (rest, line :: msgs)
      end
  end.

Definition member_line (ids_of_type : list (string * list string)) (line : string) : option (list member_row) :=
  match tokens DELIMITER_BLACKLISTS line with
  | [c0; c1] =>
      match blacklist_ids ids_of_type c0, sm_find c1 memberNames with
      | Some ids, Some id => Some ((fun s => mkMemberRow s id) <$> ids)
      | _, _ => None
      end
  | _ => None
  end.

Fixpoint member_lines (ids_of_type : list (string * list string)) (lines : list string)
    : list member_row * list string :=
  match lines with
  | [] => ([], [])
  | line :: lines =>
      let '(rest, msgs) := member_lines ids_of_type lines in
      match member_line ids_of_type line with
      | Some rows => (rows ++ rest, msgs)
      | None => (rest, line :: msgs)
      end
  end.

(** Both passes; the first line of each file is its header. *)
Definition blacklists (fn_file member_file : list string)
    : exn + (list fn_row * list member_row * list string) :=
  match type2id subclasses [] with
  | inl e => inl e
  | inr ids_of_type =>
      let '(fn_rows, msgs1) := fn_lines ids_of_type 1 (tail fn_file) in
      let '(member_rows, msgs2) := member_lines ids_of_type (tail member_file) in
      inr (fn_rows, member_rows, msgs1 ++ msgs2)
  end.

End Blacklists.

(** The data types, one per line after the header, numbered from 1. *)
Definition read_types (lines : list string) : list DataType :=
  imap (fun i line => mkDataType (1 + Z.of_nat i) line false) (tail lines).

(** What main writes from the tables: data_types.csv and member_names.csv. *)
Definition data_types_rows (types : list DataType) : list (Z * string) :=
  (fun t => (ConvertTypes.dt_id t, dt_name t)) <$> types.
Definition member_names_rows (s : names) : list (Z * string) :=
  (fun '(name, id) => (id, name)) <$> memberNames s.

(** [isGZIPFile]: the first two bytes, or [None] when the file cannot be read. *)
Definition isGZIPFile (bytes : option (list ascii)) : Z :=
  match bytes with
  | Some (b0 :: b1 :: _) =>
      if (nat_of_ascii b0 =? 0x1f)%nat && (nat_of_ascii b1 =? 0x8b)%nat then 1 else 0
  | _ => -1
  end.

(** ** What the passes guarantee *)

(** The rows of one line are numbered in order. *)
Lemma fn_line_ids subclasses names_ ids_of_type fnBlID line rows :
  fn_line subclasses names_ ids_of_type fnBlID line = Some rows ->
  fr_id <$> rows = s32 <$> seqZ fnBlID (Z.of_nat (List.length rows)).
Proof.
  unfold fn_line. destruct (tokens _ line) as [|c0 [|c1 [|c2 [|c3 [|]]]]]; try done.
  destruct (blacklist_ids _ _ c0) as [ids|]; [|done]. destruct (member_id names_ c1) as [m|]; [|done].
  intros [= <-]. rewrite length_imap. apply list_eq. intros i.
  rewrite !list_lookup_fmap, list_lookup_imap.
  destruct (ids !! i) as [x|] eqn:Ei; cbn.
  - rewrite lookup_seqZ_lt by (apply lookup_lt_Some in Ei; lia). done.
  - rewrite lookup_seqZ_ge; [done|]. apply lookup_ge_None in Ei. lia.
Qed.

(** The ids of function_blacklist.csv are consecutive over all lines. *)
Lemma fn_lines_ids subclasses names_ ids_of_type fnBlID lines :
  let rows := (fn_lines subclasses names_ ids_of_type fnBlID lines).1 in
  fr_id <$> rows = s32 <$> seqZ fnBlID (Z.of_nat (List.length rows)).
Proof.
  cbv zeta. revert fnBlID. induction lines as [|line lines IH]; intros fnBlID; [done|]. cbn [fn_lines].
  destruct (fn_line _ _ _ fnBlID line) as [rows|] eqn:E.
  - specialize (IH (fnBlID + Z.of_nat (List.length rows))).
    destruct (fn_lines _ _ _ (fnBlID + _) lines) as [rest msgs]. cbn [fst] in *.
    rewrite fmap_app, IH, length_app, Nat2Z.inj_add, seqZ_app, fmap_app by lia.
    by rewrite (fn_line_ids _ _ _ _ _ _ E).
  - specialize (IH fnBlID). by destruct (fn_lines _ _ _ fnBlID lines) as [rest msgs].
Qed.

(** The numbers of data types are their positions. *)
Lemma read_types_rows lines :
  (fun t => (ConvertTypes.dt_id t, dt_name t)) <$> read_types lines =
    zip (seqZ 1 (Z.of_nat (List.length (tail lines)))) (tail lines).
Proof.
  unfold read_types. set (l := tail lines). clearbody l. apply list_eq. intros i.
  rewrite list_lookup_fmap, list_lookup_imap, lookup_zip_with.
  destruct (l !! i) as [x|] eqn:Ei; cbn.
  - rewrite lookup_seqZ_lt by (apply lookup_lt_Some in Ei; lia). done.
  - rewrite lookup_seqZ_ge; [done|]. apply lookup_ge_None in Ei. lia.
Qed.
