(* ===== verification/ConvertMain.v ===== *)
(** * convert.cc's main

    The stages in their order: the data types are read, their layouts extracted
    from the kernel image, the events converted, and the blacklists translated
    with the tables that the earlier stages left.  Around them: the command line
    and the opening of the files. *)
From S2P Require Import Prelude StdMap CxxStd Getopt GzStream RbTree GoBuffer DwTypes Dwarves DwNames DwPrint.
From S2P Require Import ConvertTypes Convert ConvertInv NameTable KernelBinary LayoutNames Blacklist DwRowsProps.
From Stdlib Require Import Strings.Ascii.
Local Open Scope list_scope.
Local Open Scope Z_scope.

(** The command line. *)
Record settings := mkSettings {
  o_ctxTracing : bool; o_includeAllLocks : bool; o_processSeqlock : bool;
  o_kernelBaseDir : string; o_delimiter : ascii }.

(** The input files, line by line. *)
Record inputs := mkInputs {
  in_datatypes : list string; in_events : list string;
  in_fn_blacklist : list string; in_member_blacklist : list string }.

(** The files that were written. *)
Record outputs := mkOutputs {
  out_structs_layout : string;
  out_names : names;                (* data_types.csv, member_names.csv *)
  out_tables : conv;                (* the tables of the event loop *)
  out_subclasses : list subclass_row;
  out_fn_blacklist : list fn_row;
  out_member_blacklist : list member_row;
  out_ignored : list string
}.

Section Main.
Context (ops : debug_fmt_ops) (stray_name : loc -> option string) (fmemopen_ok : bool)
  (mem_ok : Z -> bool) (chain depth : nat) (kernel : dstate) (kernelBfd : bfd).

(** [dataSections[name]] must be there and not empty. *)
Definition section_ok (m : list (string * (Z * Z))) (name : string) : bool :=
  match sm_find name m with
  | Some (start, size) => negb (start =? 0) && negb (size =? 0)
  | None => false
  end.

Definition main_config (o : settings) (types : list DataType) : config :=
  mkConfig types (readSections kernelBfd []) (o_ctxTracing o) (o_includeAllLocks o)
    (o_processSeqlock o) (o_kernelBaseDir o) (o_delimiter o).

(** The layouts of the structures, and then the events. *)
Definition extract_layouts (o : settings) (datatypes : list string) : exn + pstate names :=
  let sections := readSections kernelBfd [] in
  if negb (section_ok sections ".bss" && section_ok sections ".data") then inl (exit_with 1) else
  match extractStructDefs ops stray_name fmemopen_ok mem_ok chain depth true (o_delimiter o)
          (mkP kernel EmptyString (mkExt 0 [] 0) (init_names (read_types datatypes))) with
  | inl e => inl e
  | inr (_, p) => inr p
  end.

Definition convert_events (o : settings) (datatypes events : list string) : exn + (pstate names * conv) :=
  match extract_layouts o datatypes with
  | inl e => inl e
  | inr p =>
      let cfg := main_config o (types_ (p_reg p)) in
      match @convert cfg (loaded_binary ops chain (p_d p) kernelBfd) events (init_conv cfg) with
      | inl e => inl e
      | inr (_, tables) => inr (p, tables)
      end
  end.

Definition convert_main (o : settings) (i : inputs) : exn + outputs :=
  match convert_events o (in_datatypes i) (in_events i) with
  | inl e => inl e
  | inr (p, tables) =>
      let names := p_reg p in
      match blacklists (types_ names) (subclasses tables) (memberNames names)
              (in_fn_blacklist i) (in_member_blacklist i) with
      | inl e => inl e
      | inr (fn_rows, member_rows, msgs) =>
          inr (mkOutputs (p_out p) names tables (subclass_rows (main_config o (types_ names)) (subclasses tables))
                 fn_rows member_rows msgs)
      end
  end.

End Main.

(** The tables of a complete run fit together: the data
    types are numbered in the order of their file, the member names are in
    bijection with the ids that structs_layout.csv and the blacklists use, the
    rows of accesses.csv refer to rows of allocations.csv, subclasses.csv is
    numbered like the ids used elsewhere, and the rows of function_blacklist.csv
    are numbered consecutively. *)
Lemma convert_main_tables ops stray_name fmemopen_ok mem_ok chain depth kernel kernelBfd o i out :
  convert_main ops stray_name fmemopen_ok mem_ok chain depth kernel kernelBfd o i = inr out ->
  Z.of_nat (List.length (in_events i)) + 3 < 2 ^ 64 ->
  Z.of_nat (List.length (memberNames (out_names out))) < 2 ^ 64 - 2 ->
  data_types_rows (types_ (out_names out)) =
    zip (seqZ 1 (Z.of_nat (List.length (tail (in_datatypes i))))) (tail (in_datatypes i)) /\
  names_ok (out_names out) /\
  (forall a b id, id_of (out_names out) a = Some id -> id_of (out_names out) b = Some id -> a = b) /\
  tables_ok (main_config kernelBfd o (types_ (out_names out))) (out_tables out) /\
  fr_id <$> out_fn_blacklist out = s32 <$> seqZ 1 (Z.of_nat (List.length (out_fn_blacklist out))).
Proof.
  unfold convert_main, convert_events, extract_layouts. destruct (negb _); [done|].
  destruct (extractStructDefs _ _ _ _ _ _ _ _ _) as [|[r p]] eqn:Ex; [done|].
  destruct (convert _ _ _) as [|[[] tables]] eqn:Ec; [done|].
  destruct (blacklists _ _ _ _ _) as [|[[fn_rows member_rows] msgs]] eqn:Eb; [done|].
  intros [= <-] Hk Hn. cbn [out_names out_tables out_fn_blacklist] in *.
  destruct (extract_names _ _ _ _ _ _ _ _ (read_types (in_datatypes i)) _ _ _ Ex eq_refl Hn) as [Hok Ht].
  split; [|split; [done|split; [intros a b id; by apply id_of_inj|split]]].
  - unfold data_types_rows. change (key_of <$> types_ (p_reg p) = zip (seqZ 1 (Z.of_nat (List.length (tail (in_datatypes i))))) (tail (in_datatypes i))).
    rewrite Ht. apply read_types_rows.
  - by eapply tables_ok_run.
  - unfold blacklists in Eb. destruct (type2id _ _ _) as [|m]; [done|].
    pose proof (fn_lines_ids (subclasses tables) (memberNames (p_reg p)) m 1 (tail (in_fn_blacklist i))) as Hids.
    destruct (fn_lines _ _ _ 1 _) as [rows msgs1]. destruct (member_lines _ _ _ _) as [rows2 msgs2].
    by injection Eb as <- _ _.
Qed.

(** A kernel with the [inode] of DwRowsProps and its [host] expanded, and a
    trace with one allocation, one lock and two accesses. *)
Definition ex_main_bfd : bfd :=
  mkBfd [mkSection ".text" true 4096 4096; mkSection ".bss" true 256 256; mkSection ".data" true 512 256]
    (fun _ _ => Some (Some "/kernel/fs/inode.c"%string, Some "iget"%string, 42)) (fun _ _ => []) [].
Definition ex_main_settings : settings := mkSettings false true false "/kernel" ";"%char.
Definition ex_main_inputs : inputs :=
  mkInputs ["name"; "inode"; "host"]%string
    [ "ts;action;lock_op;ptr;size;base;type;member;file;line;instrptr;stacktrace;flags;ctx";
      "1;a;;0x1000;64;;inode:ext4;;;;;;;0";
      "2;l;1;0x1010;;;rwlock_t;m;/kernel/fs/inode.c;12;;;0;0";
      "3;r;;0x1020;4;0x1000;;;;;0xff;0xaa,;;0";
      "4;l;3;0x1010;;;rwlock_t;m;/kernel/fs/inode.c;14;;;0;0";
      "6;f;;0x1000;64;;inode:ext4;;;;;;;0" ]%string
    ["type;member;fn;ctx"; "inode;h.x;iget;x"; "ext4;a;iget;x"; "\N;\N;panic;x"]%string
    ["type;member"; "inode;a"]%string.

Definition ex_main_run : exn + outputs :=
  convert_main ex_rows_ops (fun _ => None) true (fun _ => true) 4 8 ex_rows_state ex_main_bfd
    ex_main_settings ex_main_inputs.

Definition ex_main_layout : string :=
  "type_id;type;member;offset;size" +:+ newline +:+ "1;int;1;0;4" +:+ newline +:+ "1;int;2;8;4" +:+ newline +:+
  "1;struct foo *;3;16;8" +:+ newline +:+ "1;off_t;4;24;4" +:+ newline +:+ "1;char[0];5;28;1048576" +:+ newline +:+
  "2;int;6;0;4" +:+ newline +:+ "2;struct foo *;7;8;8" +:+ newline.

(** ** The command line and the files of the converter

    [main] of convert.cc around the stages: the options [getopt] delivers, the
    checks that end the program, and the opening of the input. *)

Definition DELIMITER_CHAR : ascii := ";".
Definition kernelBaseDir_default : string := "/opt/kernel/linux-32-lockdebugging-4-10/".

(** What the options set. *)
Record command_line := mkCommandLine {
  cl_settings : settings;
  vmlinuxName : option string;
  fnBlacklistName : option string;
  memberBlacklistName : option string;
  datatypesName : option string
}.
Definition command_line0 : command_line :=
  mkCommandLine (mkSettings false false false kernelBaseDir_default DELIMITER_CHAR) None None None None.
Definition set_settings (f : settings -> settings) (c : command_line) : command_line :=
  mkCommandLine (f (cl_settings c)) (vmlinuxName c) (fnBlacklistName c) (memberBlacklistName c) (datatypesName c).

(** One option with its [optarg], which is empty for those without; an option
    [getopt] does not know is '?' and is ignored.  Both -v and -h end the program. *)
Definition option_step (param : ascii) (optarg : string) (c : command_line) : exn + command_line :=
  let o := cl_settings c in
  if Ascii.eqb param "c" then
    inr (set_settings (fun o => mkSettings true (o_includeAllLocks o) (o_processSeqlock o) (o_kernelBaseDir o) (o_delimiter o)) c)
  else if Ascii.eqb param "k" then
    inr (mkCommandLine o (Some optarg) (fnBlacklistName c) (memberBlacklistName c) (datatypesName c))
  else if Ascii.eqb param "b" then
    inr (mkCommandLine o (vmlinuxName c) (Some optarg) (memberBlacklistName c) (datatypesName c))
  else if Ascii.eqb param "t" then
    inr (mkCommandLine o (vmlinuxName c) (fnBlacklistName c) (memberBlacklistName c) (Some optarg))
  else if Ascii.eqb param "s" then
    inr (set_settings (fun o => mkSettings (o_ctxTracing o) (o_includeAllLocks o) true (o_kernelBaseDir o) (o_delimiter o)) c)
  else if Ascii.eqb param "u" then
    inr (set_settings (fun o => mkSettings (o_ctxTracing o) true (o_processSeqlock o) (o_kernelBaseDir o) (o_delimiter o)) c)
  else if Ascii.eqb param "m" then
    inr (mkCommandLine o (vmlinuxName c) (fnBlacklistName c) (Some optarg) (datatypesName c))
  else if Ascii.eqb param "v" then inl (exit_with 0)
  else if Ascii.eqb param "h" then inl (exit_with 1)
  else if Ascii.eqb param "d" then
    let d := match optarg with String d _ => d | EmptyString => "000"%char end in
    inr (set_settings (fun o => mkSettings (o_ctxTracing o) (o_includeAllLocks o) (o_processSeqlock o) (o_kernelBaseDir o) d) c)
  else if Ascii.eqb param "g" then
    inr (set_settings (fun o => mkSettings (o_ctxTracing o) (o_includeAllLocks o) (o_processSeqlock o) optarg (o_delimiter o)) c)
  else inr c.

Definition optstring : string := "k:b:m:t:svhd:ug:c".

Fixpoint option_loop (fuel : nat) (c : command_line) (g : getopt_state) : exn + (command_line * getopt_state) :=
  match fuel with
  | O => inl out_of_fuel
  | S fuel =>
      match getopt optstring g with
      | inl e => inl e
      | inr (None, g) => inr (c, g)
      | inr (Some (param, optarg), g) =>
          match option_step param (default EmptyString optarg) c with
          | inl e => inl e
          | inr c => option_loop fuel c g
          end
      end
  end.

Section Converter.
(** The lines of a file that can be opened; the first two bytes of one that can be
    read; zlib, with fuel for the lines and their lengths; the image and its
    debugging information after [binaryread_init]; and the parameters of the
    stages. *)
Context {F : Type} `{GzFile F} (gzopen : string -> string -> option F) (gz_fuel : nat).
Context (read_lines : string -> option (list string)) (first_bytes : string -> option (list ascii))
  (load_image : string -> option (dstate * bfd)).
Context (ops : debug_fmt_ops) (stray_name : loc -> option string) (fmemopen_ok : bool)
  (mem_ok : Z -> bool) (chain depth : nat).

(** The trace, plain or compressed: its lines and the error that ends them, if any. *)
Definition open_trace (fname : string) : exn + option (list string * option exn) :=
  let isGZ := isGZIPFile (first_bytes fname) in
  if isGZ =? 1 then gz_lines gzopen gz_fuel fname else if isGZ =? 0 then
    inr (match read_lines fname with Some l => Some (l, None) | None => None end)
  else inr None.

(** The program; the result is what the files contain in the end.  The layouts of
    the observed structures are extracted before the trace and the blacklists are
    opened; an error in the trace comes after the events before it. *)
Definition converter (words : list string) : exn + outputs :=
  let g := getopt_init words in
  match option_loop (S (unread g)) command_line0 g with
  | inl e => inl e
  | inr (c, g) =>
      match vmlinuxName c, fnBlacklistName c, memberBlacklistName c, datatypesName c, drop (optind g) (argv g) with
      | Some vmlinux, Some fnBlacklist, Some memberBlacklist, Some datatypesFile, fname :: _ =>
          match read_lines datatypesFile with
          | None => inl (exit_with 1)
          | Some datatypes =>
              match load_image vmlinux with
              | None => inl (exit_with 1)
              | Some (kernel, kernelBfd) =>
                  let o := cl_settings c in
                  match extract_layouts ops stray_name fmemopen_ok mem_ok chain depth kernel kernelBfd o datatypes,
                        open_trace fname with
                  | inl e, _ | _, inl e => inl e
                  | inr _, inr trace =>
                      match trace, read_lines fnBlacklist, read_lines memberBlacklist with
                      | Some (events, None), Some fns, Some members =>
                          convert_main ops stray_name fmemopen_ok mem_ok chain depth kernel kernelBfd
                            o (mkInputs datatypes events fns members)
                      | Some (events, Some broken), Some _, Some _ =>
                          match convert_events ops stray_name fmemopen_ok mem_ok chain depth kernel kernelBfd
                                  o datatypes events with
                          | inl e => inl e
                          | inr _ => inl broken
                          end
                      | _, _, _ => inl (exit_with 1)
                      end
                  end
              end
          end
      | _, _, _, _, _ => inl (exit_with 1)
      end
  end.

(** *** The command line *)

(** What the options of a list set. *)
Fixpoint apply_items (l : list item) (c : command_line) : exn + command_line :=
  match l with
  | [] => inr c
  | x :: l =>
      match item_answer x with
      | None => apply_items l c
      | Some (param, optarg) =>
          match option_step param (default EmptyString optarg) c with inl e => inl e | inr c => apply_items l c end
      end
  end.

Lemma option_loop_items l : forall fuel ws A N O c c',
  Forall (fun w => nonoption w = true) ws -> Forall (item_ok optstring) l -> (length l < fuel)%nat ->
  apply_items l c = inr c' ->
  exists g, option_loop fuel c (pieces A N O (ws ++ words_of_items l)) = inr (c', g) /\
    drop (optind g) (argv g) = N ++ ws ++ plain_words l.
Proof.
  induction l as [|x l IH]; intros fuel ws A N O c c' Hws Hok Hf Ha.
  { injection Ha as <-. destruct fuel as [|fuel]; [simpl in Hf; lia|]. cbn [words_of_items map concat option_loop].
    rewrite app_nil_r. destruct (getopt_end optstring [] A N O ws Hws) as (g & Hg & Hargv & Hi). unfold getopt.
    exists g. rewrite Hg. split; [done|]. rewrite Hargv, Hi, drop_app_length. cbn [plain_words omap list_omap].
    by rewrite app_nil_r. }
  apply Forall_cons in Hok as [Hx Hok]. cbn [apply_items] in Ha. cbn [length] in Hf.
  change (words_of_items (x :: l)) with (item_words x ++ words_of_items l).
  destruct (item_answer x) as [[param optarg]|] eqn:Hx2.
  - destruct fuel as [|fuel]; [lia|]. cbn [option_loop]. rewrite (getopt_item _ _ _ _ _ _ _ _ Hws Hx Hx2).
    destruct (option_step _ _ _) as [|c1]; [done|].
    destruct (IH fuel [] (A ++ O) (N ++ ws) (item_words x) c1 c' (Forall_nil_2 _) Hok ltac:(lia) Ha) as (g & Hg & Hd).
    exists g. split; [exact Hg|]. rewrite Hd, <-app_assoc. by destruct x.
  - destruct x as [| | |w]; try done. cbn [item_words item_ok] in *.
    destruct (IH fuel (ws ++ [w]) A N O c c') as (g & Hg & Hd); [|done|lia|done|].
    + apply Forall_app. split; [done|by constructor].
    + exists g. rewrite <-app_assoc in Hg. split; [exact Hg|]. rewrite Hd. cbn [plain_words omap list_omap].
      by rewrite <-app_assoc.
Qed.

(** A command line with everything that is needed, and files that can be read. *)
Lemma converter_run prog l c vmlinux fnBlacklist memberBlacklist datatypesFile fname others
    datatypes kernel kernelBfd events fns members :
  Forall (item_ok optstring) l -> apply_items l command_line0 = inr c ->
  vmlinuxName c = Some vmlinux -> fnBlacklistName c = Some fnBlacklist ->
  memberBlacklistName c = Some memberBlacklist -> datatypesName c = Some datatypesFile ->
  plain_words l = fname :: others ->
  read_lines datatypesFile = Some datatypes -> load_image vmlinux = Some (kernel, kernelBfd) ->
  open_trace fname = inr (Some (events, None)) ->
  read_lines fnBlacklist = Some fns -> read_lines memberBlacklist = Some members ->
  converter (prog :: words_of_items l) =
  convert_main ops stray_name fmemopen_ok mem_ok chain depth kernel kernelBfd (cl_settings c)
    (mkInputs datatypes events fns members).
Proof.
  intros Hok Ha Hv Hb Hm Ht Hp Hd Hk He Hf Hme. unfold converter. rewrite pieces_init.
  destruct (option_loop_items l (S (unread (pieces [prog] [] [] (words_of_items l)))) [] [prog] [] []
    command_line0 c (Forall_nil_2 _) Hok) as (g & Hg & Hdrop); [|done|].
  - change (unread (pieces [prog] [] [] (words_of_items l))) with (letters (drop 0 (words_of_items l))).
    rewrite drop_0. pose proof (letters_length (words_of_items l)). pose proof (items_length l). lia.
  - cbn [app] in Hg. rewrite Hg, Hv, Hb, Hm, Ht, Hdrop. cbn [app]. rewrite Hp, Hd, Hk. cbv zeta. rewrite He, Hf, Hme.
    unfold convert_main, convert_events. cbn [in_datatypes in_events]. by destruct (extract_layouts _ _ _ _ _ _ _ _ _ _).
Qed.
End Converter.

(** (C39) The converter from the command line to its tables.  With the options and
    the trace in any order, short options with their argument in the same word or
    in the next one, the program runs its stages on the files that are named, the
    last of several settings of an option being the one that counts; and the
    tables of a complete run fit together: the data types are numbered in the
    order of their file, the member names are in bijection with the ids that
    structs_layout.csv and the blacklists use, the rows of accesses.csv refer to
    rows of allocations.csv, subclasses.csv is numbered like the ids used
    elsewhere, and the rows of function_blacklist.csv are numbered consecutively. *)
Theorem converter_tables {F} `{GzFile F} gzopen gz_fuel read_lines first_bytes load_image
    ops stray_name fmemopen_ok mem_ok chain depth
    prog l c vmlinux fnBlacklist memberBlacklist datatypesFile fname others
    datatypes kernel kernelBfd events fns members :
  Forall (item_ok optstring) l -> apply_items l command_line0 = inr c ->
  vmlinuxName c = Some vmlinux -> fnBlacklistName c = Some fnBlacklist ->
  memberBlacklistName c = Some memberBlacklist -> datatypesName c = Some datatypesFile ->
  plain_words l = fname :: others ->
  read_lines datatypesFile = Some datatypes -> load_image vmlinux = Some (kernel, kernelBfd) ->
  open_trace gzopen gz_fuel read_lines first_bytes fname = inr (Some (events, None)) ->
  read_lines fnBlacklist = Some fns -> read_lines memberBlacklist = Some members ->
  let run := converter gzopen gz_fuel read_lines first_bytes load_image ops stray_name fmemopen_ok mem_ok chain depth
    (prog :: words_of_items l) in
  run = convert_main ops stray_name fmemopen_ok mem_ok chain depth kernel kernelBfd (cl_settings c)
    (mkInputs datatypes events fns members) /\
  (forall out, run = inr out ->
    Z.of_nat (List.length events) + 3 < 2 ^ 64 ->
    Z.of_nat (List.length (memberNames (out_names out))) < 2 ^ 64 - 2 ->
    data_types_rows (types_ (out_names out)) =
      zip (seqZ 1 (Z.of_nat (List.length (tail datatypes)))) (tail datatypes) /\
    names_ok (out_names out) /\
    (forall a b id, id_of (out_names out) a = Some id -> id_of (out_names out) b = Some id -> a = b) /\
    tables_ok (main_config kernelBfd (cl_settings c) (types_ (out_names out))) (out_tables out) /\
    fr_id <$> out_fn_blacklist out = s32 <$> seqZ 1 (Z.of_nat (List.length (out_fn_blacklist out)))).
Proof.
  intros Hok Ha Hv Hb Hm Ht Hp Hd Hk He Hf Hme run.
  assert (Hrun : run = convert_main ops stray_name fmemopen_ok mem_ok chain depth kernel kernelBfd (cl_settings c)
    (mkInputs datatypes events fns members)) by (by eapply converter_run).
  split; [exact Hrun|]. intros out Hout Hlen Hn. rewrite Hrun in Hout.
  exact (convert_main_tables _ _ _ _ _ _ _ _ _ _ _ Hout Hlen Hn).
Qed.

(** The files of the stages above, and a command line in which the trace comes first:
    [e -k vmlinux -b f -mm -t t -u -g /kernel]. *)
Definition ex_lines (f : string) : option (list string) :=
  if String.eqb f "t" then Some (in_datatypes ex_main_inputs)
  else if String.eqb f "e" then Some (in_events ex_main_inputs)
  else if String.eqb f "f" then Some (in_fn_blacklist ex_main_inputs)
  else if String.eqb f "m" then Some (in_member_blacklist ex_main_inputs) else None.
Definition ex_items : list item :=
  [plain_word "e"; letter_with "k" "vmlinux"; letter_with "b" "f"; letter_attached "m" "m"; letter_with "t" "t";
   letter "u"; letter_with "g" "/kernel"].
#[local] Instance ex_no_gz : GzFile unit := { gzread f n := (None, f); gzwrite f l := (0, f); gzclose _ := false }.
Definition ex_converter (words : list string) : exn + outputs :=
  converter (fun _ _ => None) 0 ex_lines (fun _ => Some ["t"%char; "s"%char])
    (fun _ => Some (DwRowsProps.ex_rows_state, ex_main_bfd)) DwRowsProps.ex_rows_ops (fun _ => None) true (fun _ => true) 4 8
    words.

Lemma converter_tables_witness :
  exists out, ex_converter ("convert"%string :: words_of_items ex_items) = inr out /\
    out_structs_layout out = ex_main_layout /\
    out_fn_blacklist out = [mkFnRow 1 "1" "2" "iget" "x"; mkFnRow 2 "\N" "\N" "panic" "x"] /\
    names_ok (out_names out) /\
    tables_ok (main_config ex_main_bfd ex_main_settings (types_ (out_names out))) (out_tables out).
Proof.
  unshelve epose proof (converter_tables (fun _ _ => None) 0 ex_lines (fun _ => Some ["t"%char; "s"%char])
    (fun _ => Some (DwRowsProps.ex_rows_state, ex_main_bfd)) DwRowsProps.ex_rows_ops (fun _ => None) true (fun _ => true) 4 8
    "convert" ex_items (mkCommandLine ex_main_settings (Some "vmlinux"%string) (Some "f"%string) (Some "m"%string) (Some "t"%string))
    "vmlinux" "f" "m" "t" "e" [] (in_datatypes ex_main_inputs) DwRowsProps.ex_rows_state ex_main_bfd
    (in_events ex_main_inputs) (in_fn_blacklist ex_main_inputs) (in_member_blacklist ex_main_inputs)
    _ _ _ _ _ _ _ _ _ _ _ _) as [Hrun Htab].
  1: by repeat constructor. 1-11: reflexivity.
  destruct ex_main_run as [e|out] eqn:E; [vm_compute in E; discriminate|].
  assert (Hout : Z.of_nat (List.length (memberNames (out_names out))) = 7 /\
      out_structs_layout out = ex_main_layout /\
      out_fn_blacklist out = [mkFnRow 1 "1" "2" "iget" "x"; mkFnRow 2 "\N" "\N" "panic" "x"])
    by (vm_compute in E; injection E as <-; repeat split).
  destruct Hout as (Hlen & Hlayout & Hfn).
  assert (Hinr : ex_converter ("convert"%string :: words_of_items ex_items) = inr out) by exact (eq_trans Hrun E).
  destruct (Htab out Hinr) as (_ & Hok & _ & Htables & _); [reflexivity|rewrite Hlen; reflexivity|].
  exists out. split; [exact Hinr|]. split; [exact Hlayout|]. split; [exact Hfn|]. split; [exact Hok|exact Htables].
Defined.

(** Without a trace, or with one that cannot be opened, the program ends with 1. *)
Example ex_converter_fails :
  ex_converter ("convert"%string :: words_of_items (tail ex_items)) = inl (exit_with 1) /\
  ex_converter ("convert"%string :: words_of_items (plain_word "x" :: tail ex_items)) = inl (exit_with 1).
Proof. split; vm_compute; reflexivity. Qed.
