(* ===== verification/ConvertCsv.v ===== *)
(** * The text of the converter's tables

    Headers, rows and fields of the CSV files as convert.cc, rwlock.h and
    lockmanager.cc print them. Every kind of field is an instance of a class that also
    says how it is read back; a row is the list of its fields in the order of the
    output statements. The reader knows nothing of that order: it takes the values
    from the columns by the names in the header of a file. *)
From S2P Require Import Prelude StdMap CxxStd LockTypes LockManager ConvertTypes Convert NameTable Blacklist ConvertMain.
From Stdlib Require Import Strings.Ascii.
Local Open Scope list_scope.
Local Open Scope Z_scope.

Definition newline_char : ascii := "010".
Definition NULL_FIELD : string := "\N".

(** What a field may not contain, and what a delimiter may not be: a character of
    a number, of a name of a column or of a null field. *)
Definition text_ok (d : ascii) (s : string) : bool := negb (has_char d s) && negb (has_char newline_char s).
Definition delimiter_ok (d : ascii) : bool :=
  negb (has_char d "0123456789-_\Nabcdefghijklmnopqrstuvwxyz") && negb (bool_decide (d = newline_char)).

(** ** Fields

    How a value is printed, how it is read back, and which values survive. *)
Class CsvField (A : Type) := {
  print_field : A -> string;
  parse_field : string -> option A;
  field_ok : ascii -> A -> bool;
  parse_print d x : field_ok d x = true -> parse_field (print_field x) = Some x;
  print_text d x : delimiter_ok d = true -> field_ok d x = true -> text_ok d (print_field x) = true
}.

(** [<< dec] of an integer of any type, read by [operator>>]. *)
Definition parse_num (s : string) : option Z :=
  match scan_number 10 s with Some (neg, v) => Some (if neg : bool then - v else v) | None => None end.
Definition num_ok (n : Z) : bool := (- 10 ^ 20 <? n) && (n <? 10 ^ 20).

Lemma digit_cases d : 0 <= d < 10 ->
  d = 0 \/ d = 1 \/ d = 2 \/ d = 3 \/ d = 4 \/ d = 5 \/ d = 6 \/ d = 7 \/ d = 8 \/ d = 9.
Proof. lia. Qed.

Lemma scan_prefix_dec s : scan_prefix 10 s = s.
Proof. by destruct s as [|? [|? [|? ?]]]. Qed.

Lemma scan_number_dec n : 0 <= n < 10 ^ 20 ->
  scan_number 10 (print_dec n) = Some (false, n) /\
  scan_number 10 (String "-" (print_dec n)) = Some (true, n).
Proof.
  intros Hn. unfold scan_number, print_dec.
  destruct (scan_print_digits 10 20 ltac:(lia) n 0 false EmptyString) as (k & Hk & Hscan); [lia..|].
  destruct (print_digits_head 10 20 n EmptyString) as (d & s & Hd & Hs); [lia..|].
  rewrite Hs in *.
  assert (Hsign : scan_sign (skip_space (String (digit_char d) s)) = (false, String (digit_char d) s) /\
    scan_sign (skip_space (String "-" (String (digit_char d) s))) = (true, String (digit_char d) s))
    by (destruct (digit_cases d Hd) as [->|[->|[->|[->|[->|[->|[->|[->|[->| ->]]]]]]]]]; done).
  destruct Hsign as (-> & ->). rewrite scan_prefix_dec, Hscan. cbn [scan_digits]. by rewrite Z.mul_0_l.
Qed.

Lemma parse_num_int (d : ascii) n : num_ok n = true -> parse_num (print_int n) = Some n.
Proof.
  unfold num_ok. rewrite andb_true_iff, !Z.ltb_lt. intros Hn. unfold parse_num, print_int.
  destruct (Z.ltb_spec n 0) as [H|H].
  - destruct (scan_number_dec (- n)) as [_ E]; [lia|]. change ("-" ++ print_dec (- n))%string with (String "-" (print_dec (- n))).
    rewrite E. f_equal. lia.
  - destruct (scan_number_dec n) as [-> _]; [lia|done].
Qed.

(** Digits contain neither delimiter nor line end. *)
Lemma has_char_digits c fuel : (forall d, 0 <= d < 10 -> digit_char d <> c) -> forall n s,
  has_char c (print_digits fuel 10 n s) = has_char c s.
Proof.
  intros Hc. induction fuel as [|fuel IH]; intros n s; [done|]. cbn [print_digits].
  assert (Hd : has_char c (String (digit_char (n mod 10)) s) = has_char c s).
  { unfold has_char. simpl. rewrite bool_decide_eq_false_2; [done|]. apply Hc, Z.mod_pos_bound. lia. }
  destruct (n / 10 =? 0); [done|]. by rewrite IH.
Qed.

Lemma has_char_int c n : (forall k, 0 <= k < 10 -> digit_char k <> c) -> "-"%char <> c ->
  has_char c (print_int n) = false.
Proof.
  intros Hk Hm. unfold print_int. destruct (n <? 0); [|by apply has_char_digits].
  change (has_char c (String "-" (print_dec (- n))) = false). unfold has_char. simpl.
  rewrite bool_decide_eq_false_2 by done. by apply has_char_digits.
Qed.

Lemma delimiter_not d c : delimiter_ok d = true ->
  has_char c "0123456789-_\Nabcdefghijklmnopqrstuvwxyz" = true -> c <> d.
Proof. unfold delimiter_ok. rewrite andb_true_iff, !negb_true_iff. by intros [H _] Hc ->; rewrite H in Hc. Qed.

Lemma print_int_text d n : delimiter_ok d = true -> text_ok d (print_int n) = true.
Proof.
  intros Hd. unfold text_ok. rewrite !has_char_int; try done.
  - intros k Hk. by destruct (digit_cases k Hk) as [->|[->|[->|[->|[->|[->|[->|[->|[->| ->]]]]]]]]].
  - intros k Hk. apply (delimiter_not d); [done|].
    by destruct (digit_cases k Hk) as [->|[->|[->|[->|[->|[->|[->|[->|[->| ->]]]]]]]]].
  - by apply (delimiter_not d).
Qed.

#[export] Instance Z_field : CsvField Z := {
  print_field := print_int;
  parse_field := parse_num;
  field_ok _ n := num_ok n;
  parse_print := parse_num_int;
  print_text d n Hd _ := print_int_text d n Hd
}.

#[export] Instance string_field : CsvField string.
Proof.
  refine {| print_field s := s; parse_field s := Some s; field_ok := text_ok |}; done.
Defined.

#[export] Instance ascii_field : CsvField ascii.
Proof.
  refine {| print_field c := String c EmptyString;
    parse_field s := match s with String c EmptyString => Some c | _ => None end;
    field_ok d c := text_ok d (String c EmptyString) |}; done.
Defined.

(** The sub lock, 'r' or 'w'. *)
#[export] Instance sub_lock_field : CsvField SUB_LOCK.
Proof.
  refine {| print_field l := match l with READER_LOCK => "r" | WRITER_LOCK => "w" end%string;
    parse_field s := if bool_decide (s = "r"%string) then Some READER_LOCK
                     else if bool_decide (s = "w"%string) then Some WRITER_LOCK else None;
    field_ok _ _ := true |}.
  - by intros _ [].
  - intros d x Hd _. pose proof (delimiter_not d "r" Hd eq_refl). pose proof (delimiter_not d "w" Hd eq_refl).
    unfold text_ok, has_char. destruct x; simpl; by rewrite bool_decide_eq_false_2.
Defined.

(** A field that may be null. *)
#[export] Instance option_field A `{CsvField A} : CsvField (option A).
Proof.
  refine {| print_field x := match x with Some x => print_field x | None => NULL_FIELD end;
    parse_field s := if bool_decide (s = NULL_FIELD) then Some None else Some <$> parse_field s;
    field_ok d x := match x with
                    | Some x => field_ok d x && negb (bool_decide (print_field x = NULL_FIELD))
                    | None => true end |}.
  - intros d [x|]; [|done]. rewrite andb_true_iff, negb_true_iff. intros [Hx ->]. by rewrite (parse_print d).
  - intros d [x|] Hd Hx; [apply andb_true_iff in Hx as [Hx _]; by apply print_text|].
    pose proof (delimiter_not d "\" Hd eq_refl). pose proof (delimiter_not d "N" Hd eq_refl).
    unfold text_ok, has_char, NULL_FIELD. simpl. by rewrite !bool_decide_eq_false_2.
Defined.

(** A value that is printed into a column. *)
Record cell := mkCell {
  cell_text : string;
  cell_ok : ascii -> bool;
  cell_text_ok d : delimiter_ok d = true -> cell_ok d = true -> text_ok d cell_text = true
}.
Definition field {A} `{CsvField A} (x : A) : cell :=
  {| cell_text := print_field x; cell_ok d := field_ok d x; cell_text_ok d := print_text d x |}.

Lemma cells_text d cells : delimiter_ok d = true -> forallb (fun c => cell_ok c d) cells = true ->
  forallb (text_ok d) (map cell_text cells) = true.
Proof. intros Hd. rewrite !forallb_forall. intros Hc f (c & <- & Hin)%in_map_iff. apply cell_text_ok; auto. Qed.

(** ** Rows

    The fields of a row, in the order of the output statements, and the names of
    the columns. *)
Definition data_type_fields (r : Z * string) : list cell := [field r.1; field r.2].
Definition data_types_header : list string := ["id"; "name"]%string.

(** A free event, the end of the trace and the allocation of static memory print
    the same columns. *)
Definition allocation_fields (r : alloc_row) : list cell :=
  [ field (aw_id r); field (aw_subclass_id r); field (aw_base r);
    field (aw_size r); field (aw_start r); field (aw_end r) ].
Definition allocations_header : list string := ["id"; "subclass_id"; "base_address"; "size"; "start"; "end"]%string.

(** [writeMemAccesses]. *)
Definition access_fields (r : access_row) : list cell :=
  [ field (ar_id r); field (ar_alloc_id r);
    field (ar_txn_id r);
    field (ar_ts r);
    field (ar_action r); field (ar_size r);
    field (ar_address r); field (ar_stacktrace_id r);
    field (ar_ctx r) ].
Definition accesses_header : list string :=
  ["id"; "alloc_id"; "txn_id"; "ts"; "type"; "size"; "address"; "stacktrace_id"; "fn"; "context"]%string.

(** [RWLock::writeWriterLock] and [writeReaderLock]. *)
Definition lock_fields (r : lock_row) : list cell :=
  [ field (lr_id r); field (lr_address r);
    field (lr_embedded_in r); field (lr_type r);
    field (lr_sub_lock r); field (lr_var_name r);
    field (lr_flags r) ].
Definition locks_header : list string :=
  ["id"; "address"; "embedded_in"; "lock_type_name"; "sub_lock"; "lock_var_name"; "flags"]%string.

(** [LockManager::finishTXN]. *)
Definition held_fields (r : held_row) : list cell :=
  [ field (hr_txn_id r); field (hr_lock_id r); field (hr_start r);
    field (hr_last_file r); field (hr_last_line r) ].
Definition locks_held_header : list string := ["txn_id"; "lock_id"; "start"; "last_file"; "last_line"]%string.
Definition txn_fields (r : txn_row) : list cell :=
  [ field (tr_id r); field (tr_start_ts r); field (tr_start_ctx r);
    field (tr_end_ts r); field (tr_end_ctx r) ].
Definition txns_header : list string := ["id"; "start_ts"; "start_ctx"; "end_ts"; "end_ctx"]%string.

Definition fn_fields (r : fn_row) : list cell :=
  [ field (fr_id r); field (fr_subclass r); field (fr_member r);
    field (fr_3 r); field (fr_4 r) ].
Definition function_blacklist_header : list string := ["id"; "subclass_id"; "member_name_id"; "fn"]%string.
Definition member_fields (r : member_row) : list cell := [field (mr_subclass r); field (mr_member r)].
Definition member_blacklist_header : list string := ["subclass_id"; "member_name_id"]%string.
Definition member_name_fields (r : Z * string) : list cell := [field r.1; field r.2].
Definition member_names_header : list string := ["id"; "member_name"]%string.

(** [addStacktrace]. *)
Definition stack_fields (r : stack_row) : list cell :=
  [ field (sr_id r); field (sr_sequence r); field (sr_instr r); field (sr_instr_prev r);
    field (sr_function r); field (sr_line r); field (sr_file r) ].
Definition stacktraces_header : list string :=
  ["id"; "sequence"; "instruction_ptr"; "instruction_ptr_prev"; "function"; "line"; "file"]%string.
Definition subclass_fields (r : subclass_row) : list cell :=
  [ field (sw_id r); field (sw_data_type_id r); field (sw_name r) ].
Definition subclasses_header : list string := ["id"; "data_type_id"; "name"]%string.

(** ** Tables *)

Definition csv_line (d : ascii) (fields : list string) : string :=
  String.append (join d fields) (String newline_char EmptyString).
Fixpoint csv_text (d : ascii) (lines : list (list string)) : string :=
  match lines with [] => EmptyString | l :: lines => String.append (csv_line d l) (csv_text d lines) end.
Definition csv_file {A} (d : ascii) (header : list string) (cells : A -> list cell) (rows : list A) : string :=
  csv_text d (header :: map (fun r => map cell_text (cells r)) rows).

(** ** The reader

    A file is split into lines and these at the delimiter.  A value is looked up
    by the name of its column in the first line of the file. *)
Fixpoint split_at (d : ascii) (s : string) : list string :=
  match s with
  | EmptyString => [EmptyString]
  | String c s =>
      if bool_decide (c = d) then EmptyString :: split_at d s
      else match split_at d s with f :: fs => String c f :: fs | [] => [] end
  end.
Definition split_file (d : ascii) (file : string) : list (list string) := map (split_at d) (tokens newline_char file).

Definition column {A} `{CsvField A} (names fields : list string) (name : string) : option A :=
  f ← List.find (fun p => String.eqb p.1 name) (zip names fields); parse_field f.2.

(** What the reader of a table knows: the names the columns have, given the first
    line, and how a row comes from the values of its columns. *)
Record csv_reader (A : Type) := mkReader {
  column_names : list string -> list string;
  read_row : (forall T, CsvField T -> string -> option T) -> option A
}.
Arguments mkReader {A}. Arguments column_names {A}. Arguments read_row {A}.

Definition read_csv {A} (d : ascii) (rd : csv_reader A) (file : string) : option (list A) :=
  match split_file d file with
  | header :: lines =>
      mapM (fun l => read_row rd (fun T _ => column (column_names rd header) l)) lines
  | [] => None
  end.

Local Notation "get .[ name ]" := (get _ _ name%string) (at level 2, left associativity, only parsing).

Definition data_types_reader : csv_reader (Z * string) := mkReader id (fun get =>
  a ← get.["id"]; b ← get.["name"]; Some (a, b)).
Definition allocations_reader : csv_reader alloc_row := mkReader id (fun get =>
  i ← get.["id"]; sc ← get.["subclass_id"]; b ← get.["base_address"];
  n ← get.["size"]; s ← get.["start"]; e ← get.["end"];
  Some {| aw_id := i; aw_subclass_id := sc; aw_base := b; aw_size := n; aw_start := s; aw_end := e |}).
(** The rows have no column [fn]. *)
Definition accesses_reader : csv_reader access_row :=
  mkReader (List.filter (fun n => negb (String.eqb n "fn"))) (fun get =>
  i ← get.["id"]; al ← get.["alloc_id"]; tx ← get.["txn_id"]; ts ← get.["ts"];
  ac ← get.["type"]; n ← get.["size"]; ad ← get.["address"]; st ← get.["stacktrace_id"];
  cx ← get.["context"];
  Some {| ar_id := i; ar_alloc_id := al; ar_txn_id := tx; ar_ts := ts; ar_action := ac; ar_size := n;
          ar_address := ad; ar_stacktrace_id := st; ar_ctx := cx |}).
Definition locks_reader : csv_reader lock_row := mkReader id (fun get =>
  i ← get.["id"]; ad ← get.["address"]; em ← get.["embedded_in"]; ty ← get.["lock_type_name"];
  sl ← get.["sub_lock"]; vn ← get.["lock_var_name"]; fl ← get.["flags"];
  Some {| lr_id := i; lr_address := ad; lr_embedded_in := em; lr_type := ty; lr_sub_lock := sl;
          lr_var_name := vn; lr_flags := fl |}).
Definition locks_held_reader : csv_reader held_row := mkReader id (fun get =>
  tx ← get.["txn_id"]; l ← get.["lock_id"]; s ← get.["start"]; lf ← get.["last_file"];
  ll ← get.["last_line"];
  Some {| hr_txn_id := tx; hr_lock_id := l; hr_start := s; hr_last_file := lf; hr_last_line := ll |}).
Definition txns_reader : csv_reader txn_row := mkReader id (fun get =>
  i ← get.["id"]; s ← get.["start_ts"]; sx ← get.["start_ctx"]; e ← get.["end_ts"];
  ex ← get.["end_ctx"];
  Some {| tr_id := i; tr_start_ts := s; tr_start_ctx := sx; tr_end_ts := e; tr_end_ctx := ex |}).
(** The rows have one more column than the header. *)
Definition function_blacklist_reader : csv_reader fn_row := mkReader (fun h => h ++ ["5"%string]) (fun get =>
  i ← get.["id"]; sc ← get.["subclass_id"]; m ← get.["member_name_id"]; f ← get.["fn"];
  l ← get.["5"]; Some {| fr_id := i; fr_subclass := sc; fr_member := m; fr_3 := f; fr_4 := l |}).
Definition member_blacklist_reader : csv_reader member_row := mkReader id (fun get =>
  sc ← get.["subclass_id"]; m ← get.["member_name_id"]; Some {| mr_subclass := sc; mr_member := m |}).
Definition member_names_reader : csv_reader (Z * string) := mkReader id (fun get =>
  a ← get.["id"]; b ← get.["member_name"]; Some (a, b)).
Definition stacktraces_reader : csv_reader stack_row := mkReader id (fun get =>
  i ← get.["id"]; q ← get.["sequence"]; ip ← get.["instruction_ptr"];
  pp ← get.["instruction_ptr_prev"]; f ← get.["function"]; l ← get.["line"]; fl ← get.["file"];
  Some {| sr_id := i; sr_sequence := q; sr_instr := ip; sr_instr_prev := pp; sr_function := f; sr_line := l; sr_file := fl |}).
Definition subclasses_reader : csv_reader subclass_row := mkReader id (fun get =>
  i ← get.["id"]; dt ← get.["data_type_id"]; n ← get.["name"];
  Some {| sw_id := i; sw_data_type_id := dt; sw_name := n |}).

Lemma split_at_last d f : has_char d f = false -> split_at d f = [f].
Proof.
  induction f as [|c f IH]; [done|]. unfold has_char. simpl. intros [Hc Hf]%orb_false_iff. rewrite Hc.
  by rewrite IH.
Qed.

Lemma split_at_field d f s : has_char d f = false ->
  split_at d (String.append f (String d s)) = f :: split_at d s.
Proof.
  induction f as [|c f IH]; simpl; intros Hf; [by rewrite bool_decide_eq_true_2|].
  unfold has_char in Hf. simpl in Hf. apply orb_false_iff in Hf as [Hc Hf]. rewrite Hc. by rewrite IH.
Qed.

Lemma text_ok_chars d s : text_ok d s = true -> has_char d s = false /\ has_char newline_char s = false.
Proof. unfold text_ok. by rewrite andb_true_iff, !negb_true_iff. Qed.

Lemma split_join d fields : forallb (text_ok d) fields = true -> fields <> [] -> split_at d (join d fields) = fields.
Proof.
  induction fields as [|f fs IH]; [done|]. cbn [forallb]. intros [Hf Hfs]%andb_true_iff _.
  apply text_ok_chars in Hf as [Hf _]. destruct fs as [|g gs]; [by apply split_at_last|].
  change (join d (f :: g :: gs)) with (String.append f (String d (join d (g :: gs)))).
  rewrite split_at_field by done. f_equal. by apply IH.
Qed.

Lemma has_char_append c s t : has_char c (String.append s t) = has_char c s || has_char c t.
Proof.
  induction s as [|c' s IH]; [done|]. unfold has_char in *. simpl. rewrite IH. by rewrite orb_assoc.
Qed.

Lemma join_no_newline d fields : d <> newline_char -> forallb (text_ok d) fields = true ->
  has_char newline_char (join d fields) = false.
Proof.
  intros Hd. induction fields as [|f fs IH]; [done|]. cbn [forallb]. intros [Hf Hfs]%andb_true_iff.
  apply text_ok_chars in Hf as [_ Hf]. destruct fs as [|g gs]; [done|].
  change (join d (f :: g :: gs)) with (String.append f (String d (join d (g :: gs)))).
  rewrite has_char_append, Hf. specialize (IH Hfs). unfold has_char in *. simpl (String.list_ascii_of_string (String _ _)).
  cbn [existsb]. by rewrite bool_decide_eq_false_2.
Qed.

Lemma append_assoc s t u : String.append (String.append s t) u = String.append s (String.append t u).
Proof. induction s as [|c s IH]; [done|]. exact (f_equal (String c) IH). Qed.

Lemma text_lines d lines : d <> newline_char -> Forall (fun l => forallb (text_ok d) l = true) lines ->
  tokens newline_char (csv_text d lines) = map (join d) lines.
Proof.
  intros Hd. induction 1 as [|l lines Hl _ IH]; [done|]. cbn [csv_text map]. unfold csv_line, tokens in *.
  rewrite append_assoc.
  change (String.append (String newline_char EmptyString) (csv_text d lines)) with (String newline_char (csv_text d lines)).
  rewrite getline_tokens_field by by apply join_no_newline.
  simpl (rev []). rewrite app_nil_l, String.string_of_list_ascii_of_string. by rewrite IH.
Qed.

Lemma split_text d lines : delimiter_ok d = true ->
  Forall (fun l => forallb (text_ok d) l = true /\ l <> []) lines -> split_file d (csv_text d lines) = lines.
Proof.
  intros Hd Hl. unfold split_file. rewrite text_lines.
  - rewrite map_map. rewrite <-(map_id lines) at 2. apply map_ext_in. intros l Hin%list_elem_of_In.
    rewrite Forall_forall in Hl. destruct (Hl l Hin). by apply split_join.
  - unfold delimiter_ok in Hd. rewrite andb_true_iff, (negb_true_iff (bool_decide _)), bool_decide_eq_false in Hd. tauto.
  - eapply Forall_impl; [exact Hl|]. by intros l [? _].
Qed.

(** ** The files of a run *)
Record csv_tables := mkTables {
  t_data_types : list (Z * string);
  t_allocations : list alloc_row;
  t_accesses : list access_row;
  t_locks : list lock_row;
  t_locks_held : list held_row;
  t_txns : list txn_row;
  t_function_blacklist : list fn_row;
  t_member_blacklist : list member_row;
  t_member_names : list (Z * string);
  t_stacktraces : list stack_row;
  t_subclasses : list subclass_row
}.

Definition tables_of (out : outputs) : csv_tables :=
  let t := out_tables out in
  mkTables (data_types_rows (types_ (out_names out))) (allocOFile t) (accessOFile t) (locksOFile t)
    (m_locksHeldOFile (lockManager t)) (m_txnsOFile (lockManager t)) (out_fn_blacklist out)
    (out_member_blacklist out) (member_names_rows (out_names out)) (stacktracesOFile t) (out_subclasses out).

(** The output files in the order they are created in, with their contents. *)
Definition write_tables (d : ascii) (t : csv_tables) : list (string * string) :=
  [ ("data_types.csv", csv_file d data_types_header data_type_fields (t_data_types t));
    ("allocations.csv", csv_file d allocations_header allocation_fields (t_allocations t));
    ("accesses.csv", csv_file d accesses_header access_fields (t_accesses t));
    ("locks.csv", csv_file d locks_header lock_fields (t_locks t));
    ("locks_held.csv", csv_file d locks_held_header held_fields (t_locks_held t));
    ("txns.csv", csv_file d txns_header txn_fields (t_txns t));
    ("function_blacklist.csv", csv_file d function_blacklist_header fn_fields (t_function_blacklist t));
    ("member_blacklist.csv", csv_file d member_blacklist_header member_fields (t_member_blacklist t));
    ("member_names.csv", csv_file d member_names_header member_name_fields (t_member_names t));
    ("stacktraces.csv", csv_file d stacktraces_header stack_fields (t_stacktraces t));
    ("subclasses.csv", csv_file d subclasses_header subclass_fields (t_subclasses t)) ]%string.

(** Every file is looked up by its name. *)
Definition read_table {A} (d : ascii) (files : list (string * string)) (name : string) (rd : csv_reader A) :
    option (list A) :=
  file ← List.find (fun f => String.eqb f.1 name) files; read_csv d rd file.2.
Definition read_tables (d : ascii) (files : list (string * string)) : option csv_tables :=
  data_types ← read_table d files "data_types.csv" data_types_reader;
  allocations ← read_table d files "allocations.csv" allocations_reader;
  accesses ← read_table d files "accesses.csv" accesses_reader;
  locks ← read_table d files "locks.csv" locks_reader;
  locks_held ← read_table d files "locks_held.csv" locks_held_reader;
  txns ← read_table d files "txns.csv" txns_reader;
  function_blacklist ← read_table d files "function_blacklist.csv" function_blacklist_reader;
  member_blacklist ← read_table d files "member_blacklist.csv" member_blacklist_reader;
  member_names ← read_table d files "member_names.csv" member_names_reader;
  stacktraces ← read_table d files "stacktraces.csv" stacktraces_reader;
  subclasses ← read_table d files "subclasses.csv" subclasses_reader;
  Some (mkTables data_types allocations accesses locks locks_held txns
    function_blacklist member_blacklist member_names stacktraces subclasses).

(** What the values of the rows have to satisfy: a string has neither the delimiter
    nor the end of a line, and where a null field is possible, it does not look
    like one; a number has at most twenty digits. *)
Definition rows_ok {A} (d : ascii) (cells : A -> list cell) (rows : list A) : bool :=
  forallb (fun r => forallb (fun c => cell_ok c d) (cells r)) rows.
Definition tables_text_ok (d : ascii) (t : csv_tables) : bool :=
  rows_ok d data_type_fields (t_data_types t) && (rows_ok d allocation_fields (t_allocations t) &&
  (rows_ok d access_fields (t_accesses t) && (rows_ok d lock_fields (t_locks t) &&
  (rows_ok d held_fields (t_locks_held t) && (rows_ok d txn_fields (t_txns t) &&
  (rows_ok d fn_fields (t_function_blacklist t) && (rows_ok d member_fields (t_member_blacklist t) &&
  (rows_ok d member_name_fields (t_member_names t) && (rows_ok d stack_fields (t_stacktraces t) &&
   rows_ok d subclass_fields (t_subclasses t)))))))))).

(** Headers consist of letters and underscores. *)
Definition header_plain (header : list string) : bool :=
  forallb (forallb (fun c => has_char c "0123456789-_\Nabcdefghijklmnopqrstuvwxyz"%string))
    (map String.list_ascii_of_string header).

Lemma header_text d header : delimiter_ok d = true -> header_plain header = true -> forallb (text_ok d) header = true.
Proof.
  unfold header_plain. intros Hd. rewrite !forallb_forall. intros Hh f Hf.
  specialize (Hh _ (in_map _ _ _ Hf)). rewrite forallb_forall in Hh.
  unfold text_ok, has_char. apply andb_true_iff. split; apply negb_true_iff, not_true_iff_false; rewrite existsb_exists;
    intros (c & Hc & ->%bool_decide_eq_true); specialize (Hh _ Hc).
  - by apply (delimiter_not d d) in Hh.
  - done.
Qed.

(** The lines of a file. *)
Lemma split_csv_file {A} d header (cells : A -> list cell) rows :
  delimiter_ok d = true -> header_plain header = true -> header <> [] -> (forall r, cells r <> []) ->
  rows_ok d cells rows = true ->
  split_file d (csv_file d header cells rows) = header :: map (fun r => map cell_text (cells r)) rows.
Proof.
  intros Hd Hh Hne Hc Hrows. unfold rows_ok in Hrows. rewrite forallb_forall in Hrows. apply split_text; [done|].
  constructor; [by split; [apply header_text|]|]. apply Forall_map, Forall_forall. intros r Hr%list_elem_of_In. split.
  - by apply cells_text; [|apply Hrows].
  - intros E%map_eq_nil. by destruct (Hc r).
Qed.

(** A row is read back when the cells are. *)
Definition row_read {A} (header : list string) (cells : A -> list cell) (rd : csv_reader A) : Prop := forall d r,
  forallb (fun c => cell_ok c d) (cells r) = true ->
  read_row rd (fun T _ => column (column_names rd header) (map cell_text (cells r))) = Some r.

Lemma read_table_file {A} d files header (cells : A -> list cell) (rd : csv_reader A) rows name :
  List.find (fun f => String.eqb f.1 name) files = Some (name, csv_file d header cells rows) ->
  row_read header cells rd -> delimiter_ok d = true -> rows_ok d cells rows = true ->
  header_plain header = true -> header <> [] -> (forall r, cells r <> []) ->
  read_table d files name rd = Some rows.
Proof.
  intros Hf Hread Hd Hr Hh Hne Hc. unfold read_table. rewrite Hf. cbn [mbind option_bind snd]. unfold read_csv.
  rewrite split_csv_file by done. apply mapM_Some_2, Forall2_fmap_l, Forall2_same_length_lookup_2; [done|].
  intros k r r' Er Er'. assert (r = r') as <- by congruence. apply (Hread d).
  unfold rows_ok in Hr. rewrite forallb_forall in Hr. apply Hr, list_elem_of_In. by eapply list_elem_of_lookup_2.
Qed.

Lemma column_found {A} `{CsvField A} d names fields name (x : A) :
  List.find (fun p => String.eqb p.1 name) (zip names fields) = Some (name, print_field x) -> field_ok d x = true ->
  column names fields name = Some x.
Proof. intros Hf Hx. unfold column. rewrite Hf. by apply (parse_print d). Qed.

Ltac read_columns cells rd :=
  intros d r; unfold cells, rd; cbn [forallb cell_ok field read_row column_names];
  rewrite ?andb_true_iff; intros Hr; destruct_and?;
  repeat (erewrite (column_found d) by (reflexivity || eassumption); cbn [mbind option_bind]);
  by destruct r.

Lemma data_type_read : row_read data_types_header data_type_fields data_types_reader.
Proof. read_columns data_type_fields data_types_reader. Qed.
Lemma allocation_read : row_read allocations_header allocation_fields allocations_reader.
Proof. read_columns allocation_fields allocations_reader. Qed.
Lemma access_read : row_read accesses_header access_fields accesses_reader.
Proof. read_columns access_fields accesses_reader. Qed.
Lemma lock_read : row_read locks_header lock_fields locks_reader.
Proof. read_columns lock_fields locks_reader. Qed.
Lemma held_read : row_read locks_held_header held_fields locks_held_reader.
Proof. read_columns held_fields locks_held_reader. Qed.
Lemma txn_read : row_read txns_header txn_fields txns_reader.
Proof. read_columns txn_fields txns_reader. Qed.
Lemma fn_read : row_read function_blacklist_header fn_fields function_blacklist_reader.
Proof. read_columns fn_fields function_blacklist_reader. Qed.
Lemma member_read : row_read member_blacklist_header member_fields member_blacklist_reader.
Proof. read_columns member_fields member_blacklist_reader. Qed.
Lemma member_name_read : row_read member_names_header member_name_fields member_names_reader.
Proof. read_columns member_name_fields member_names_reader. Qed.
Lemma stack_read : row_read stacktraces_header stack_fields stacktraces_reader.
Proof. read_columns stack_fields stacktraces_reader. Qed.
Lemma subclass_read : row_read subclasses_header subclass_fields subclasses_reader.
Proof. read_columns subclass_fields subclasses_reader. Qed.

Create HintDb csv_read.
#[export] Hint Resolve data_type_read allocation_read access_read lock_read held_read txn_read fn_read member_read
  member_name_read stack_read subclass_read : csv_read.

(** (C8) The files of a run lose nothing, and every value stands in the column that
    bears its name.  Suppose that the delimiter is no character of a number or of a
    name of a column, and that no string contains the delimiter or the end of a
    line or looks like a null field.  Then every file starts with its header, given
    here, and a reader that looks up the values of a row by the names in that first
    line gets back the rows: numbers, characters, strings and null fields.  The
    headers of two files do not fit: accesses.csv names a column [fn] that no row
    has, so that the reader has to leave it out, and the rows of
    function_blacklist.csv have a fifth column without name. *)
Theorem convert_files_roundtrip d out : let t := tables_of out in
  delimiter_ok d = true -> tables_text_ok d t = true ->
  read_tables d (write_tables d t) = Some t /\
  map (fun f => (f.1, hd [] (split_file d f.2))) (write_tables d t) =
    [ ("data_types.csv", ["id"; "name"]);
      ("allocations.csv", ["id"; "subclass_id"; "base_address"; "size"; "start"; "end"]);
      ("accesses.csv", ["id"; "alloc_id"; "txn_id"; "ts"; "type"; "size"; "address"; "stacktrace_id"; "fn"; "context"]);
      ("locks.csv", ["id"; "address"; "embedded_in"; "lock_type_name"; "sub_lock"; "lock_var_name"; "flags"]);
      ("locks_held.csv", ["txn_id"; "lock_id"; "start"; "last_file"; "last_line"]);
      ("txns.csv", ["id"; "start_ts"; "start_ctx"; "end_ts"; "end_ctx"]);
      ("function_blacklist.csv", ["id"; "subclass_id"; "member_name_id"; "fn"]);
      ("member_blacklist.csv", ["subclass_id"; "member_name_id"]);
      ("member_names.csv", ["id"; "member_name"]);
      ("stacktraces.csv", ["id"; "sequence"; "instruction_ptr"; "instruction_ptr_prev"; "function"; "line"; "file"]);
      ("subclasses.csv", ["id"; "data_type_id"; "name"]) ]%string /\
  Forall (fun f => match split_file d f.2 with
    | header :: rows => Forall (fun r => Z.of_nat (length r) = Z.of_nat (length header) +
        (if (f.1 =? "accesses.csv")%string then -1 else if (f.1 =? "function_blacklist.csv")%string then 1 else 0)) rows
    | [] => False
    end) (write_tables d t).
Proof.
  cbv zeta. generalize (tables_of out). intros t Hd Hok. unfold tables_text_ok in Hok.
  repeat match type of Hok with (_ && _) = true => apply andb_true_iff in Hok as [? Hok] end. split_and!.
  - unfold read_tables.
    repeat (erewrite (read_table_file d);
      [|reflexivity|eauto with csv_read|exact Hd|eassumption|reflexivity|done|done]; cbn [mbind option_bind]).
    by destruct t.
  - unfold write_tables. cbn [map fst snd]. by rewrite !split_csv_file.
  - unfold write_tables. repeat constructor; cbn [fst snd]; rewrite split_csv_file by done;
      apply Forall_map, Forall_forall; intros r _; reflexivity.
Qed.

(** The run of ConvertMain: its files and what is read from them. *)
Definition ex_files : list (string * string) :=
  match ex_main_run with inr out => write_tables ";" (tables_of out) | inl _ => [] end.

Example ex_files_text :
  read_table ";" ex_files "accesses.csv" accesses_reader =
    Some [mkAccessRow 1 2 (Some 1) 3 "r" 4 4128 1 0] /\
  snd <$> List.find (fun f => String.eqb f.1 "allocations.csv") ex_files =
    Some (csv_line ";" allocations_header +:+ csv_line ";" ["1"; "0"; "0"; "0"; "0"; "\N"] +:+ csv_line ";" ["2"; "1"; "4096"; "64"; "1"; "6"])%string.
Proof. vm_compute. done. Qed.

Lemma convert_files_roundtrip_witness :
  exists out, ex_main_run = inr out /\ delimiter_ok ";" = true /\ tables_text_ok ";" (tables_of out) = true /\
    read_tables ";" (write_tables ";" (tables_of out)) = Some (tables_of out).
Proof.
  assert (H : match ex_main_run with inr out => tables_text_ok ";" (tables_of out) | inl _ => false end = true)
    by (vm_compute; reflexivity).
  destruct ex_main_run as [e|out] eqn:E; [discriminate|].
  exists out. split; [done|]. split; [reflexivity|]. split; [exact H|].
  apply (convert_files_roundtrip ";" out); [reflexivity|exact H].
Defined.
