(* ===== verification/SfcTool.v ===== *)
(** * Coverage pictures: src/coverage/sfctool/sfctool.cc

    The tool walks over the strings of a domain file along a curve that fills a
    square, and colours the pixel of a string according to whether it occurs in
    an input file.  The picture is a list of rows; the library that writes it to
    a file is left out, and files are given by their contents.  The end of the file
    is the program from its words on. *)
From Stdlib Require Import Ascii String.
From S2P Require Import OptionParser UsageText.
From S2P Require Import Prelude StdMap LockTypes CxxStd.
Local Open Scope list_scope.
Local Open Scope Z_scope.

(** ** Colours *)

Record Color := mkColor { col_r : Z; col_g : Z; col_b : Z }.

Definition set_color (s : string) : exn + Color :=
  let s := match s with String c s' => if bool_decide (c = "#"%char) then s' else s | _ => s end in
  match s with
  | String r1 (String r2 (String g1 (String g2 (String b1 (String b2 EmptyString))))) =>
      match stoul 16 (String r1 (String r2 EmptyString)) with
      | inl e => inl e
      | inr r =>
          match stoul 16 (String g1 (String g2 EmptyString)) with
          | inl e => inl e
          | inr g =>
              match stoul 16 (String b1 (String b2 EmptyString)) with
              | inl e => inl e
              | inr b => inr (mkColor (u8 r) (u8 g) (u8 b))
              end
          end
      end
  | _ => inl (invalid_argument "color must be in the format RRGGBB")
  end.

(** ** Curves *)

Record spiral := mkSpiral { sp_x : Z; sp_y : Z; sp_state : Z; sp_nsteps : Z; sp_step : Z }.

(** The classes derived from [SFC] with their members. *)
Inductive SFC :=
  | SFC_Lines (dim pos : Z)
  | SFC_Spiral (dim : Z) (s : spiral)
  | SFC_Hilbert (dim pos : Z).

Definition spiral_start (dim : Z) : spiral := mkSpiral (dim / 2) (dim / 2) 0 1 0.

(** The virtual [reset]; the constructors end in the same state. *)
Definition reset (c : SFC) : SFC :=
  match c with
  | SFC_Lines dim _ => SFC_Lines dim 0
  | SFC_Spiral dim _ => SFC_Spiral dim (spiral_start dim)
  | SFC_Hilbert dim _ => SFC_Hilbert dim 0
  end.

Definition spiral_move (s : spiral) : Z * Z :=
  match sp_state s with
  | 0 => (sp_x s, u32 (sp_y s - 1))
  | 1 => (u32 (sp_x s - 1), sp_y s)
  | 2 => (sp_x s, u32 (sp_y s + 1))
  | 3 => (u32 (sp_x s + 1), sp_y s)
  | _ => (sp_x s, sp_y s)
  end.

Definition spiral_next (s : spiral) : spiral :=
  let '(x, y) := spiral_move s in
  let step := u32 (sp_step s + 1) in
  if step =? sp_nsteps s then
    let state := u32 (sp_state s + 1) in
    if state =? 2 then mkSpiral x y state (u32 (sp_nsteps s + 1)) 0
    else if state =? 4 then mkSpiral x y 0 (u32 (sp_nsteps s + 1)) 0
    else mkSpiral x y state (sp_nsteps s) 0
  else mkSpiral x y (sp_state s) (sp_nsteps s) step.

(** The virtual [next]. *)
Definition next (c : SFC) : SFC :=
  match c with
  | SFC_Lines dim pos => SFC_Lines dim (u32 (pos + 1))
  | SFC_Spiral dim s => SFC_Spiral dim (spiral_next s)
  | SFC_Hilbert dim pos => SFC_Hilbert dim (u32 (pos + 1))
  end.

Definition rot (n x y rx ry : Z) : Z * Z :=
  if ry =? 0 then
    let '(x, y) := if rx =? 1 then (u32 (n - 1 - x), u32 (n - 1 - y)) else (x, y) in
    (y, x)
  else (x, y).

(** The loop over the bits of the position; [n] bounds its rounds. *)
Fixpoint hilbert_loop (n : nat) (dim s t x y : Z) : exn + (Z * Z) :=
  if s <? dim then
    match n with
    | O => inl out_of_fuel
    | S n =>
        let rx := Z.land 1 (t / 2) in
        let ry := Z.land 1 (Z.lxor t rx) in
        let '(x, y) := rot s x y rx ry in
        hilbert_loop n dim (u32 (s * 2)) (t / 4) (u32 (x + s * rx)) (u32 (y + s * ry))
    end
  else inr (x, y).

(** As many rounds as an [unsigned] has bits. *)
Definition hilbert_rounds : nat := 32.

(** The virtual [get_coords]. *)
Definition get_coords (c : SFC) : exn + (Z * Z) :=
  match c with
  | SFC_Lines dim pos => if dim =? 0 then inl (undefined "division by zero") else inr (pos mod dim, pos / dim)
  | SFC_Spiral _ s => inr (sp_x s, sp_y s)
  | SFC_Hilbert dim pos => hilbert_loop hilbert_rounds dim 1 pos 0 0
  end.

(** ** The picture *)

Definition pixel : Type := Z * Z * Z.
Notation picture := (list (list pixel)).

(** [image[y][x] = p] *)
Definition set_pixel (x y : Z) (p : pixel) (image : picture) : exn + picture :=
  match image !! Z.to_nat y with
  | Some row =>
      if (0 <=? x) && (x <? Z.of_nat (length row)) then inr (<[Z.to_nat y := <[Z.to_nat x := p]> row]> image)
      else inl (undefined "pixel out of range")
  | None => inl (undefined "pixel out of range")
  end.

Definition rgb (c : Color) : pixel := (col_r c, col_g c, col_b c).

(** The picture is filled with the components in this order. *)
Definition fill (c : Color) : pixel := (col_r c, col_b c, col_g c).
Definition blank (dim : Z) (c : Color) : picture :=
  replicate (Z.to_nat dim) (replicate (Z.to_nat dim) (fill c)).

(** ** main *)

Notation color_map := (list (string * Color)).

(** The lines of a file. *)
Definition read_lines (file : string) : list string := tokens "010"%char file.

(** A file that cannot be opened is [None]. *)
Definition loadmap (file : option string) (color : Color) (m : color_map) : exn + color_map :=
  match file with
  | None => inl (logic_error "cannot open file")
  | Some f => inr (fold_left (fun m l => sm_set l color m) (read_lines f) m)
  end.

(** One of the two loops over the maps; the colours that are left. *)
Fixpoint loadmaps (files : list (option string)) (colors : list string) (m : color_map)
    : exn + (list string * color_map) :=
  match files with
  | [] => inr (colors, m)
  | f :: files =>
      match colors with
      | [] => inl (exit_with 1)
      | c :: colors =>
          match set_color c with
          | inl e => inl e
          | inr color =>
              match loadmap f color m with
              | inl e => inl e
              | inr m => loadmaps files colors m
              end
          end
      end
  end.

(** [ceil(sqrt(n))] as an [unsigned].  Up to 2^52 the correctly rounded square
    root of a natural number is on the same side of every integer as the exact
    one. *)
Definition ceil_sqrt (n : Z) : Z := u32 (Z.sqrt_up n).

(** The power of two for the Hilbert curve. *)
Fixpoint round_up (n : nat) (x dim : Z) : exn + Z :=
  if x <? dim then match n with O => inl out_of_fuel | S n => round_up n (u32 (x * 2)) dim end
  else inr x.

(** The curve and the size of the picture. *)
Definition make_curve (type : option string) (dim : Z) : exn + (SFC * Z) :=
  match type with
  | None => inr (SFC_Lines dim 0, dim)
  | Some s =>
      if bool_decide (s = "lines"%string) then inr (SFC_Lines dim 0, dim)
      else if bool_decide (s = "spiral"%string) then inr (SFC_Spiral dim (spiral_start dim), dim)
      else if bool_decide (s = "hilbert"%string) then
        match round_up hilbert_rounds 1 dim with
        | inl e => inl e
        | inr x => inr (SFC_Hilbert dim 0, x)
        end
      else inl (exit_with 1)
  end.

(** The colour of a string, if it gets one. *)
Definition string_color (input : list string) (off_map on_map : color_map) (s : string) : option Color :=
  if bool_decide (s ∈ input) then sm_find s on_map else sm_find s off_map.

(** The loop over the domain. *)
Fixpoint paint (input : list string) (off_map on_map : color_map) (domain : list string) (c : SFC)
    (image : picture) : exn + picture :=
  match domain with
  | [] => inr image
  | s :: domain =>
      match get_coords c with
      | inl e => inl e
      | inr (x, y) =>
          match string_color input off_map on_map s with
          | None => paint input off_map on_map domain (next c) image
          | Some color =>
              match set_pixel x y (rgb color) image with
              | inl e => inl e
              | inr image => paint input off_map on_map domain (next c) image
              end
          end
      end
  end.

(** What the command line says: the first of the options that count once, all
    of the others. *)
Record sfc_options := mkSfcOptions {
  so_default_color : option string;
  so_curve_type : option string;
  so_off_maps : list (option string);
  so_on_maps : list (option string);
  so_colors : list string
}.

(** The picture; a [return] of [main] with an error is [exit_with]. *)
Definition sfctool (op : sfc_options) (domain input : option string) : exn + picture :=
  match (match so_default_color op with Some s => set_color s | None => set_color "ffffff" end) with
  | inl e => inl e
  | inr default_color =>
      match domain, input with
      | Some domain, Some input =>
          let domain := read_lines domain in
          let input := read_lines input in
          match make_curve (so_curve_type op) (ceil_sqrt (Z.of_nat (length domain))) with
          | inl e => inl e
          | inr (curve, dim) =>
              match loadmaps (so_off_maps op) (so_colors op) [] with
              | inl e => inl e
              | inr (colors, off_map) =>
                  match loadmaps (so_on_maps op) colors [] with
                  | inl e => inl e
                  | inr (_ :: _, _) => inl (exit_with 1)
                  | inr ([], on_map) => paint input off_map on_map domain curve (blank dim default_color)
                  end
              end
          end
      | _, _ => inl (exit_with 1)
      end
  end.

(** ** The words *)

Inductive optionIndex := UNKNOWN | HELP | CURVE_TYPE | OFF_MAP | ON_MAP | COLOR | DEFAULT_COLOR.
Definition option_number (i : optionIndex) : nat :=
  match i with
  | UNKNOWN => 0 | HELP => 1 | CURVE_TYPE => 2 | OFF_MAP => 3 | ON_MAP => 4 | COLOR => 5 | DEFAULT_COLOR => 6
  end%nat.

Definition entry (i : optionIndex) (short long : string) (check : Option -> ArgStatus) (text : string) : Descriptor :=
  mkDesc (option_number i) short long check (Some text).
Definition usage : list Descriptor :=
  [entry UNKNOWN EmptyString EmptyString Arg_None
     ("Usage: sfctool [options] domain.map input.map output.png" ++ nl ++ nl ++
      "sfctool iterates over all strings s at line i in domain.map " ++
      "and picks the color for img[curve[i]] as follows:" ++ nl ++
      " -  If string s is contained in input.map (e.g. the basic block is " ++ quote ++ "covered" ++
      quote ++ ")," ++ nl ++ "    pick the color specified by on_map[s]." ++ nl ++
      " -  If string s is NOT contained in input.map, pick the color specified by" ++ nl ++
      "    off_map[s]." ++ nl ++
      " -  If on_map/off_map does not specify a color for s, pick the --default-color." ++ nl ++ nl ++
      "Options:");
   entry HELP "h" "help" Arg_None
     ("--help  " ++ tab ++ "Print usage and exit");
   entry CURVE_TYPE "t" "curve-type" Arg_Required
     ("-t/--curve-type type  " ++ tab ++ "Set SFC type: lines|spiral|hilbert|z; defaults to lines.");
   entry OFF_MAP "0" "off-map" Arg_Required
     ("-0/--off-map file  " ++ tab ++
      "List of strings that get assigned the subsequent --color if they are NOT present in the main input file; may be used more than once.");
   entry ON_MAP "1" "on-map" Arg_Required
     ("-1/--on-map file  " ++ tab ++
      "List of strings that get assigned the subsequent --color if they are present in the main input file; may be used more than once.");
   entry COLOR "c" "color" Arg_Required
     ("-c/--color RRGGBB  " ++ tab ++ "Set color for the preceding --off/on-map.");
   entry DEFAULT_COLOR "d" "default-color" Arg_Required
     ("-d/--default-color RRGGBB  " ++ tab ++ "Set default color, defaults to FFFFFF.")]%string.

(** What is written to the standard output where [exit_with] ends a program that
    has been asked for help or cannot make sense of its words. *)
Definition usage_output : exn + string := usage_text usage.

(** The lists of the parser. *)
Fixpoint read_lists (s : store) (l : list nat) : exn + list (list Option) :=
  match l with
  | [] => inr []
  | i :: l =>
      match chain s i, read_lists s l with
      | inl e, _ | _, inl e => inl e
      | inr os, inr rest => inr (os :: rest)
      end
  end.

(** What [main] takes from the lists, the error flag, the number of words and the
    words that are no options: the settings and the names of the files. *)
Definition settings_of (open_file : string -> option string) (argc : Z) (err : bool) (lists : list (list Option))
    (others : list string) : exn + (sfc_options * (string * string * string)) :=
  let args i := (fun o => default EmptyString (arg o)) <$> default [] (lists !! option_number i) in
  if err then inl (exit_with 1) else
  let usage_exit := exit_with (match args HELP with [] => 1 | _ => 0 end) in
  match args HELP, args UNKNOWN, others with
  | [], [], [domain; input; png] =>
      if argc =? 0 then inl usage_exit else
      inr (mkSfcOptions (head (args DEFAULT_COLOR)) (head (args CURVE_TYPE))
             (open_file <$> args OFF_MAP) (open_file <$> args ON_MAP) (args COLOR), (domain, input, png))
  | _, _, _ => inl usage_exit
  end.

(** The program: the name of the picture and the picture. *)
Definition main (open_file : string -> option string) (argv : list string) : exn + (string * picture) :=
  match parse_words usage (tail argv) with
  | inl e => inl e
  | inr (p, s, words) =>
      match read_lists s (seq 0 7) with
      | inl e => inl e
      | inr lists =>
          match settings_of open_file (Z.of_nat (length (tail argv))) (err p) lists (nonOptions p words) with
          | inl e => inl e
          | inr (op, (domain, input, png)) =>
              match sfctool op (open_file domain) (open_file input) with
              | inl e => inl e
              | inr image => inr (png, image)
              end
          end
      end
  end.
