(* ===== verification/SfcProps.v ===== *)
(** * The curves of sfctool fill the picture without overlaps

    Every curve gives the strings of the domain different pixels of the picture,
    so that the picture shows the colour of every string; and the program reads its
    settings from any command line. *)
From Stdlib Require Import Ascii String.
From S2P Require Import OptionParser OptionParserProps UsageText.
From S2P Require Import Prelude StdMap LockTypes CxxStd SfcTool.
Local Open Scope list_scope.
Local Open Scope Z_scope.

(** ** Traversals *)

(** The first [n] positions of [c] are [pos 0, pos 1, ...]: different pixels of
    a square with side [dim]. *)
Record traverses (c : SFC) (n : nat) (dim : Z) (pos : nat -> Z * Z) : Prop := {
  tr_coords i : (i < n)%nat -> get_coords (Nat.iter i next c) = inr (pos i);
  tr_range i : (i < n)%nat -> 0 <= (pos i).1 < dim /\ 0 <= (pos i).2 < dim;
  tr_distinct i j : (i < n)%nat -> (j < n)%nat -> pos i = pos j -> i = j
}.

(** The counters of the line and Hilbert curves. *)
Lemma iter_lines dim i : Z.of_nat i < 2 ^ 32 -> Nat.iter i next (SFC_Lines dim 0) = SFC_Lines dim (Z.of_nat i).
Proof.
  induction i as [|i IH]; intros Hi; [done|]. rewrite Nat.iter_succ, IH by lia. cbn [next].
  rewrite u32_small by lia. f_equal. lia.
Qed.

Lemma iter_hilbert dim i :
  Z.of_nat i < 2 ^ 32 -> Nat.iter i next (SFC_Hilbert dim 0) = SFC_Hilbert dim (Z.of_nat i).
Proof.
  induction i as [|i IH]; intros Hi; [done|]. rewrite Nat.iter_succ, IH by lia. cbn [next].
  rewrite u32_small by lia. f_equal. lia.
Qed.

(** ** Lines *)

Definition lines_pos (dim : Z) (i : nat) : Z * Z := (Z.of_nat i mod dim, Z.of_nat i / dim).

Lemma lines_traverse n dim :
  Z.of_nat n < 2 ^ 32 -> 0 <= dim -> Z.of_nat n <= dim * dim ->
  traverses (SFC_Lines dim 0) n dim (lines_pos dim).
Proof.
  intros Hn H0 Hd. split.
  - intros i Hi. rewrite iter_lines by lia. cbn [get_coords]. rewrite (proj2 (Z.eqb_neq dim 0)); [done|nia].
  - intros i Hi. unfold lines_pos. cbn [fst snd]. assert (0 < dim) by nia. split.
    + apply Z.mod_pos_bound. lia.
    + split; [apply Z.div_pos; lia|]. apply Z.div_lt_upper_bound; lia.
  - intros i j Hi Hj [= Hm Hq]. assert (0 < dim) by nia.
    pose proof (Z.div_mod (Z.of_nat i) dim ltac:(lia)) as Ei.
    pose proof (Z.div_mod (Z.of_nat j) dim ltac:(lia)) as Ej. rewrite Hm, Hq in Ei. lia.
Qed.

(** ** The Hilbert curve *)

Definition quad_x (t : Z) : Z := Z.land 1 (t / 2).
Definition quad_y (t : Z) : Z := Z.land 1 (Z.lxor t (quad_x t)).

Lemma land_1_bit t : Z.land 1 t = Z.b2z (Z.testbit t 0).
Proof. rewrite Z.land_comm. change 1 with (Z.ones 1). rewrite Z.land_ones by lia. by rewrite Z.bit0_mod. Qed.

Lemma quad_x_bit t : quad_x t = Z.b2z (Z.testbit t 1).
Proof. unfold quad_x. by rewrite land_1_bit, Z.div2_bits. Qed.

Lemma quad_y_bit t : quad_y t = Z.b2z (xorb (Z.testbit t 0) (Z.testbit t 1)).
Proof.
  unfold quad_y. rewrite land_1_bit, Z.lxor_spec, quad_x_bit. by rewrite Z.b2z_bit0.
Qed.

Lemma quad_range t : 0 <= quad_x t <= 1 /\ 0 <= quad_y t <= 1.
Proof. rewrite quad_x_bit, quad_y_bit. destruct (Z.testbit t 1), (Z.testbit t 0); simpl; lia. Qed.

(** The quadrant tells the two bits of the position. *)
Lemma quad_inj t u : quad_x t = quad_x u -> quad_y t = quad_y u -> t mod 4 = u mod 4.
Proof.
  rewrite !quad_x_bit, !quad_y_bit. intros H1%Z.b2z_inj H0%Z.b2z_inj.
  apply Z.bits_inj'. intros i Hi. change 4 with (2 ^ 2).
  destruct (Z.ltb_spec i 2) as [Hlt|Hge]; [|by rewrite !Z.mod_pow2_bits_high by lia].
  rewrite !Z.mod_pow2_bits_low by lia.
  assert (i = 0 \/ i = 1) as [-> | ->] by lia; [|done].
  rewrite H1 in H0. by destruct (Z.testbit t 0), (Z.testbit u 0), (Z.testbit u 1).
Qed.

(** The coordinates after [j] rounds. *)
Fixpoint hilbert (j : nat) (p : Z) : Z * Z :=
  match j with
  | O => (0, 0)
  | S j =>
      let s := 2 ^ Z.of_nat j in
      let t := p / 4 ^ Z.of_nat j in
      let '(x, y) := hilbert j p in
      let '(x, y) := rot s x y (quad_x t) (quad_y t) in
      (x + s * quad_x t, y + s * quad_y t)
  end.

Lemma rot_range s x y rx ry :
  0 < s <= 2 ^ 32 -> 0 <= x < s -> 0 <= y < s -> 0 <= (rot s x y rx ry).1 < s /\ 0 <= (rot s x y rx ry).2 < s.
Proof.
  intros Hs Hx Hy. unfold rot. destruct (ry =? 0); [|by split].
  destruct (rx =? 1); cbn [fst snd]; [|by split]. rewrite !u32_small by lia. lia.
Qed.

Lemma rot_inj s x y x' y' rx ry :
  0 < s <= 2 ^ 32 -> 0 <= x < s -> 0 <= y < s -> 0 <= x' < s -> 0 <= y' < s ->
  rot s x y rx ry = rot s x' y' rx ry -> (x, y) = (x', y').
Proof.
  intros Hs Hx Hy Hx' Hy'. unfold rot. destruct (ry =? 0); [|done].
  destruct (rx =? 1); [rewrite !u32_small by lia|]; intros [= H1 H2]; f_equal; lia.
Qed.

Lemma hilbert_range j p : (j <= 31)%nat ->
  0 <= (hilbert j p).1 < 2 ^ Z.of_nat j /\ 0 <= (hilbert j p).2 < 2 ^ Z.of_nat j.
Proof.
  induction j as [|j IH]; intros Hj; [simpl; lia|]. specialize (IH ltac:(lia)).
  cbn [hilbert]. destruct (hilbert j p) as [x y] eqn:E. cbn [fst snd] in IH.
  set (t := p / 4 ^ Z.of_nat j). pose proof (quad_range t) as [Hqx Hqy].
  assert (Hs : 2 ^ Z.of_nat j <= 2 ^ 31) by (apply Z.pow_le_mono_r; lia).
  assert (Hs0 : 0 < 2 ^ Z.of_nat j) by (apply Z.pow_pos_nonneg; lia).
  pose proof (rot_range (2 ^ Z.of_nat j) x y (quad_x t) (quad_y t) ltac:(lia) (proj1 IH) (proj2 IH)) as Hr.
  destruct (rot _ x y _ _) as [x1 y1]. cbn [fst snd] in *.
  rewrite Nat2Z.inj_succ, Z.pow_succ_r by lia. nia.
Qed.

Lemma hilbert_inj j p q : (j <= 31)%nat -> hilbert j p = hilbert j q ->
  p mod 4 ^ Z.of_nat j = q mod 4 ^ Z.of_nat j.
Proof.
  induction j as [|j IH]; intros Hj; [by rewrite !Z.mod_1_r|]. specialize (IH ltac:(lia)).
  pose proof (hilbert_range j p ltac:(lia)) as Hp. pose proof (hilbert_range j q ltac:(lia)) as Hq.
  assert (Hs : 2 ^ Z.of_nat j <= 2 ^ 31) by (apply Z.pow_le_mono_r; lia).
  assert (Hs0 : 0 < 2 ^ Z.of_nat j) by (apply Z.pow_pos_nonneg; lia).
  cbn [hilbert]. destruct (hilbert j p) as [x y] eqn:Ep. destruct (hilbert j q) as [x' y'] eqn:Eq.
  cbn [fst snd] in Hp, Hq. set (t := p / 4 ^ Z.of_nat j). set (u := q / 4 ^ Z.of_nat j).
  pose proof (quad_range t) as [Htx Hty]. pose proof (quad_range u) as [Hux Huy].
  pose proof (rot_range (2 ^ Z.of_nat j) x y (quad_x t) (quad_y t) ltac:(lia) (proj1 Hp) (proj2 Hp)) as Hr.
  pose proof (rot_range (2 ^ Z.of_nat j) x' y' (quad_x u) (quad_y u) ltac:(lia) (proj1 Hq) (proj2 Hq)) as Hr'.
  pose proof (rot_inj (2 ^ Z.of_nat j) x y x' y' (quad_x t) (quad_y t) ltac:(lia)
    (proj1 Hp) (proj2 Hp) (proj1 Hq) (proj2 Hq)) as Hinj.
  intros Heq. assert (Hquad : quad_x t = quad_x u /\ quad_y t = quad_y u).
  { clear Hinj. revert Hr Hr' Heq. destruct (rot _ x y _ _), (rot _ x' y' _ _). cbn [fst snd].
    intros Hr Hr' [= H1 H2]. nia. }
  destruct Hquad as [Hx Hy]. rewrite <-Hx, <-Hy in Heq.
  assert (Hxy : (x, y) = (x', y')).
  { apply Hinj. clear Hinj Hr Hr'. revert Heq. destruct (rot _ x y _ _), (rot _ x' y' _ _).
    cbn beta iota. intros [= H1 H2]. f_equal; lia. }
  specialize (IH Hxy). rewrite Nat2Z.inj_succ, Z.pow_succ_r, Z.mul_comm by lia.
  assert (Hpow : 0 < 4 ^ Z.of_nat j) by (apply Z.pow_pos_nonneg; lia).
  rewrite !Z.rem_mul_r by lia. fold t u. by rewrite IH, (quad_inj t u Hx Hy).
Qed.

(** [hilbert_loop] runs until [2 ^ k] reaches [dim]. *)
Lemma hilbert_loop_run dim p k : (k <= 31)%nat -> dim <= 2 ^ Z.of_nat k ->
  (forall j, (j < k)%nat -> 2 ^ Z.of_nat j < dim) ->
  forall j n, (j <= k)%nat -> (k - j <= n)%nat -> 0 <= p ->
  hilbert_loop n dim (2 ^ Z.of_nat j) (p / 4 ^ Z.of_nat j) (hilbert j p).1 (hilbert j p).2 = inr (hilbert k p).
Proof.
  intros Hk Hd Hlt j n. revert j. induction n as [|n IH]; intros j Hj Hn Hp.
  - assert (j = k) as -> by lia. simpl. rewrite (proj2 (Z.ltb_ge _ _)) by lia. by destruct (hilbert k p).
  - cbn [hilbert_loop]. destruct (decide (j = k)) as [->|Hne].
    + rewrite (proj2 (Z.ltb_ge _ _)) by lia. by destruct (hilbert k p).
    + rewrite (proj2 (Z.ltb_lt _ _)) by (apply Hlt; lia).
      specialize (IH (S j) ltac:(lia) ltac:(lia) Hp).
      pose proof (hilbert_range (S j) p ltac:(lia)) as Hr. cbn [hilbert] in IH, Hr.
      assert (Hs : 2 ^ Z.of_nat (S j) <= 2 ^ 31) by (apply Z.pow_le_mono_r; lia).
      rewrite Nat2Z.inj_succ, !Z.pow_succ_r in IH, Hs, Hr by lia.
      destruct (hilbert j p) as [x y]. cbn [fst snd].
      set (t := p / 4 ^ Z.of_nat j) in *.
      change (Z.land 1 (t / 2)) with (quad_x t). change (Z.land 1 (Z.lxor t (quad_x t))) with (quad_y t).
      destruct (rot (2 ^ Z.of_nat j) x y (quad_x t) (quad_y t)) as [x1 y1]. cbn [fst snd] in *.
      rewrite !u32_small by lia. rewrite <-IH. f_equal; [lia|].
      unfold t. pose proof (Z.pow_pos_nonneg 4 (Z.of_nat j)). rewrite Z.pow_succ_r, (Z.mul_comm 4) by lia.
      rewrite Z.div_div by lia. done.
Qed.

(** The number of rounds for a square of side [dim]. *)
Definition rounds (dim : Z) : nat := Z.to_nat (Z.log2_up dim).

Lemma rounds_spec dim : 0 <= dim <= 2 ^ 31 ->
  (rounds dim <= 31)%nat /\ dim <= 2 ^ Z.of_nat (rounds dim) /\
  (forall j, (j < rounds dim)%nat -> 2 ^ Z.of_nat j < dim).
Proof.
  intros Hd. unfold rounds. pose proof (Z.log2_up_nonneg dim) as H0. rewrite Z2Nat.id by lia.
  destruct (Z.ltb_spec 1 dim) as [H1|H1].
  - destruct (Z.log2_up_spec dim H1) as [Hl Hu]. split; [|split; [lia|]].
    + apply Z.log2_up_le_pow2 in Hu; [|lia]. assert (Z.log2_up dim <= 31); [|lia].
      apply Z.log2_up_le_pow2; lia.
    + intros j Hj. eapply Z.le_lt_trans; [|exact Hl]. apply Z.pow_le_mono_r; lia.
  - assert (Z.log2_up dim = 0) as -> by (apply Z.log2_up_eqn0; lia). simpl. split; [lia|]. split; [lia|]. lia.
Qed.

Lemma hilbert_traverse n dim :
  Z.of_nat n < 2 ^ 32 -> 0 <= dim <= 2 ^ 31 -> Z.of_nat n <= dim * dim ->
  traverses (SFC_Hilbert dim 0) n (2 ^ Z.of_nat (rounds dim)) (fun i => hilbert (rounds dim) (Z.of_nat i)).
Proof.
  intros Hn Hd Hnd. destruct (rounds_spec dim Hd) as (Hk & Hle & Hlt). split.
  - intros i Hi. rewrite iter_hilbert by lia. cbn [get_coords].
    pose proof (hilbert_loop_run dim (Z.of_nat i) (rounds dim) Hk Hle Hlt 0 hilbert_rounds) as H.
    rewrite Z.div_1_r in H. apply H; unfold hilbert_rounds; lia.
  - intros i Hi. by apply hilbert_range.
  - intros i j Hi Hj Heq%hilbert_inj; [|done].
    assert (Hp : dim * dim <= 4 ^ Z.of_nat (rounds dim)).
    { change 4 with (2 * 2). rewrite Z.pow_mul_l. nia. }
    rewrite !Z.mod_small in Heq by lia. lia.
Qed.

Lemma round_up_run dim k n : (k <= 31)%nat -> dim <= 2 ^ Z.of_nat k ->
  (forall j, (j < k)%nat -> 2 ^ Z.of_nat j < dim) ->
  forall j, (j <= k)%nat -> (k - j <= n)%nat -> round_up n (2 ^ Z.of_nat j) dim = inr (2 ^ Z.of_nat k).
Proof.
  intros Hk Hd Hlt. induction n as [|n IH]; intros j Hj Hn.
  - assert (j = k) as -> by lia. simpl. by rewrite (proj2 (Z.ltb_ge _ _)) by lia.
  - cbn [round_up]. destruct (decide (j = k)) as [->|Hne]; [by rewrite (proj2 (Z.ltb_ge _ _)) by lia|].
    rewrite (proj2 (Z.ltb_lt _ _)) by (apply Hlt; lia). rewrite <-(IH (S j)) by lia.
    assert (2 ^ Z.of_nat (S j) <= 2 ^ 31) by (apply Z.pow_le_mono_r; lia).
    rewrite Nat2Z.inj_succ, Z.pow_succ_r in * by lia. rewrite u32_small by lia. f_equal. lia.
Qed.

(** ** The spiral *)

(** Step [j] of arm [a] (up, left, down, right) in turn [m], relative to the
    centre. *)
Definition arm_x (a m j : Z) : Z :=
  match a with 0 => m | 1 => m - j | 2 => - m - 1 | _ => - m - 1 + j end.
Definition arm_y (a m j : Z) : Z :=
  match a with 0 => m - j | 1 => - m - 1 | 2 => - m - 1 + j | _ => m + 1 end.
Definition arm_length (a m : Z) : Z := match a with 0 | 1 => 2 * m + 1 | _ => 2 * m + 2 end.
(** The number of the step at which an arm starts. *)
Definition arm_start (a m : Z) : Z :=
  4 * m * m + 2 * m +
  match a with 0 => 0 | 1 => 2 * m + 1 | 2 => 4 * m + 2 | _ => 6 * m + 4 end.

Definition on_arm (i a m j : Z) : Prop :=
  0 <= a <= 3 /\ 0 <= m /\ 0 <= j < arm_length a m /\ i = arm_start a m + j.

Definition spiral_state (c a m j : Z) : spiral :=
  mkSpiral (u32 (c + arm_x a m j)) (u32 (c + arm_y a m j)) a (arm_length a m) j.

Lemma u32_add_l x y : u32 (u32 x + y) = u32 (x + y).
Proof. unfold u32, wrap. by rewrite Zplus_mod_idemp_l. Qed.
Lemma u32_sub_l x y : u32 (u32 x - y) = u32 (x - y).
Proof. unfold u32, wrap. by rewrite Zminus_mod_idemp_l. Qed.

(** The step after one of an arm. *)
Definition arm_next (a m j : Z) : Z * Z * Z :=
  if j + 1 <? arm_length a m then (a, m, j + 1) else
  match a with 0 => (1, m, 0) | 1 => (2, m, 0) | 2 => (3, m, 0) | _ => (0, m + 1, 0) end.

#[local] Ltac arms := unfold on_arm, arm_next, arm_start, arm_length, arm_x, arm_y in *; cbv beta iota in *.

Lemma arm_cases a : 0 <= a <= 3 -> a = 0 \/ a = 1 \/ a = 2 \/ a = 3.
Proof. lia. Qed.

Lemma spiral_next_arm c i a m j :
  on_arm i a m j -> m < 2 ^ 16 ->
  let '(a', m', j') := arm_next a m j in
  on_arm (i + 1) a' m' j' /\ spiral_next (spiral_state c a m j) = spiral_state c a' m' j'.
Proof.
  intros (Ha & Hm & Hj & Hi) Hb. unfold arm_next.
  assert (Hl : 0 < arm_length a m < 2 ^ 18) by (destruct (arm_cases a Ha) as [-> |[-> |[-> | ->]]]; arms; lia).
  assert (Hmove : spiral_move (spiral_state c a m j) =
    (u32 (c + arm_x a m (j + 1)), u32 (c + arm_y a m (j + 1)))).
  { unfold spiral_move, spiral_state. cbn [sp_state sp_x sp_y].
    destruct (arm_cases a Ha) as [-> |[-> |[-> | ->]]];
      arms; rewrite ?u32_add_l, ?u32_sub_l; apply f_equal2; apply (f_equal u32); lia. }
  unfold spiral_next. rewrite Hmove. cbn [spiral_state sp_state sp_step sp_nsteps].
  rewrite (u32_small (j + 1)) by lia. destruct (Z.ltb_spec (j + 1) (arm_length a m)) as [Hlt|Hge].
  - rewrite (proj2 (Z.eqb_neq (j + 1) (arm_length a m))) by lia. split; [|done]. unfold on_arm. lia.
  - rewrite (proj2 (Z.eqb_eq (j + 1) (arm_length a m))) by lia. assert (Hj1 : j + 1 = arm_length a m) by lia.
    rewrite (u32_small (a + 1)) by lia. rewrite Hj1. clear Hmove Hge.
    destruct (arm_cases a Ha) as [-> |[-> |[-> | ->]]]; unfold spiral_state;
      repeat (case_match; try lia); arms; (split; [repeat split; nia|]);
      f_equal; first [lia|apply (f_equal u32); lia|rewrite u32_small; lia].
Qed.

(** Where the spiral is after [i] steps. *)
Fixpoint arm_at (i : nat) : Z * Z * Z :=
  match i with
  | O => (0, 0, 0)
  | S i => let '(a, m, j) := arm_at i in arm_next a m j
  end.

Lemma on_arm_turn i a m j : on_arm i a m j -> i < 2 ^ 32 -> m < 2 ^ 15.
Proof. intros (Ha & Hm & Hj & Hi) H. destruct (arm_cases a Ha) as [-> |[-> |[-> | ->]]]; arms; nia. Qed.

Lemma iter_spiral dim i : Z.of_nat i < 2 ^ 32 -> 0 <= dim < 2 ^ 32 ->
  let '(a, m, j) := arm_at i in
  on_arm (Z.of_nat i) a m j /\
  Nat.iter i next (SFC_Spiral dim (spiral_start dim)) = SFC_Spiral dim (spiral_state (dim / 2) a m j).
Proof.
  intros Hi Hd. induction i as [|i IH].
  - cbn [arm_at]. split; [arms; lia|]. unfold spiral_start, spiral_state. arms.
    assert (0 <= dim / 2 < 2 ^ 32) by (split; [apply Z.div_pos|apply Z.div_lt_upper_bound]; lia).
    change (0 - 0) with 0. rewrite !Z.add_0_r, u32_small by lia. reflexivity.
  - cbn [arm_at]. specialize (IH ltac:(lia)). destruct (arm_at i) as [[a m] j].
    destruct IH as [Ha Hn]. pose proof (on_arm_turn _ _ _ _ Ha ltac:(lia)) as Hm.
    pose proof (spiral_next_arm (dim / 2) _ _ _ _ Ha ltac:(lia)) as H.
    destruct (arm_next a m j) as [[a' m'] j']. destruct H as [Ha' Hs].
    rewrite Nat2Z.inj_succ. split; [exact Ha'|]. rewrite Nat.iter_succ, Hn. cbn [next]. by rewrite Hs.
Qed.

(** The pixel tells the step. *)
Lemma arm_inj i i' a m j a' m' j' :
  on_arm i a m j -> on_arm i' a' m' j' ->
  arm_x a m j = arm_x a' m' j' -> arm_y a m j = arm_y a' m' j' -> i = i'.
Proof.
  intros (Ha & Hm & Hj & ->) (Ha' & Hm' & Hj' & ->) Hx Hy.
  assert (a = a' /\ m = m' /\ j = j') as (-> & -> & ->); [|done].
  destruct (arm_cases a Ha) as [-> |[-> |[-> | ->]]];
    destruct (arm_cases a' Ha') as [-> |[-> |[-> | ->]]]; arms; lia.
Qed.

(** The first [dim * dim] steps stay in the square around the centre. *)
Lemma arm_range dim i a m j :
  on_arm i a m j -> 0 <= i < dim * dim -> 0 <= dim ->
  0 <= dim / 2 + arm_x a m j < dim /\ 0 <= dim / 2 + arm_y a m j < dim.
Proof.
  intros (Ha & Hm & Hj & Hi) Hd H0. pose proof (Z.div_mod dim 2 ltac:(lia)) as Hq.
  pose proof (Z.mod_pos_bound dim 2 ltac:(lia)) as Hr. set (k := dim / 2) in *.
  assert (dim mod 2 = 0 \/ dim mod 2 = 1) as [Hr0|Hr0] by lia; rewrite Hr0 in Hq; clearbody k; subst dim.
  - assert (m < k) by (destruct (arm_cases a Ha) as [-> |[-> |[-> | ->]]]; arms; nia).
    destruct (arm_cases a Ha) as [-> |[-> |[-> | ->]]]; arms; try lia.
    assert (m + 1 < k) by nia. lia.
  - assert (m <= k) by (destruct (arm_cases a Ha) as [-> |[-> |[-> | ->]]]; arms; nia).
    destruct (arm_cases a Ha) as [-> |[-> |[-> | ->]]]; arms; try lia;
      assert (m + 1 <= k) by nia; lia.
Qed.

Definition spiral_pos (dim : Z) (i : nat) : Z * Z :=
  let '(a, m, j) := arm_at i in (dim / 2 + arm_x a m j, dim / 2 + arm_y a m j).

Lemma spiral_traverse n dim :
  Z.of_nat n < 2 ^ 32 -> 0 <= dim < 2 ^ 32 -> Z.of_nat n <= dim * dim ->
  traverses (SFC_Spiral dim (spiral_start dim)) n dim (spiral_pos dim).
Proof.
  intros Hn Hd Hnd.
  assert (Hat : forall i, (i < n)%nat -> let '(a, m, j) := arm_at i in on_arm (Z.of_nat i) a m j /\
    Nat.iter i next (SFC_Spiral dim (spiral_start dim)) = SFC_Spiral dim (spiral_state (dim / 2) a m j) /\
    0 <= dim / 2 + arm_x a m j < dim /\ 0 <= dim / 2 + arm_y a m j < dim).
  { intros i Hi. pose proof (iter_spiral dim i ltac:(lia) Hd) as H.
    destruct (arm_at i) as [[a m] j]. destruct H as [Ha Hs]. split; [done|]. split; [done|].
    eapply arm_range; [exact Ha|lia|lia]. }
  split.
  - intros i Hi. specialize (Hat i Hi). unfold spiral_pos. destruct (arm_at i) as [[a m] j].
    destruct Hat as (_ & -> & Hx & Hy). cbn. rewrite !u32_small by lia. done.
  - intros i Hi. specialize (Hat i Hi). unfold spiral_pos. destruct (arm_at i) as [[a m] j]. apply Hat.
  - intros i i' Hi Hi'. pose proof (Hat i Hi) as H. pose proof (Hat i' Hi') as H'. unfold spiral_pos.
    destruct (arm_at i) as [[a m] j], (arm_at i') as [[a' m'] j']. intros [= Hx Hy].
    apply Nat2Z.inj. eapply arm_inj; [apply H|apply H'|lia|lia].
Qed.

(** ** The picture *)

Definition pixel_at (image : picture) (p : Z * Z) : option pixel :=
  row ← image !! Z.to_nat p.2; row !! Z.to_nat p.1.

Definition square (dim : Z) (image : picture) : Prop :=
  length image = Z.to_nat dim /\ Forall (fun row => length row = Z.to_nat dim) image.

Definition in_square (dim : Z) (p : Z * Z) : Prop := 0 <= p.1 < dim /\ 0 <= p.2 < dim.

Lemma blank_square dim c : square dim (blank dim c).
Proof.
  unfold blank. split; [apply length_replicate|]. apply Forall_replicate. apply length_replicate.
Qed.

Lemma blank_pixel dim c p : in_square dim p -> pixel_at (blank dim c) p = Some (fill c).
Proof.
  intros [Hx Hy]. unfold pixel_at, blank. rewrite lookup_replicate_2 by lia. simpl.
  by rewrite lookup_replicate_2 by lia.
Qed.

Lemma set_pixel_run dim p col image :
  square dim image -> in_square dim p ->
  exists image', set_pixel p.1 p.2 col image = inr image' /\ square dim image' /\
    forall q, in_square dim q -> pixel_at image' q = if decide (q = p) then Some col else pixel_at image q.
Proof.
  intros [Hl Hr] [Hx Hy]. unfold set_pixel.
  destruct (image !! Z.to_nat p.2) as [row|] eqn:Hrow; [|apply lookup_ge_None in Hrow; lia].
  pose proof (Forall_lookup_1 _ _ _ _ Hr Hrow) as Hlr. cbn beta in Hlr.
  rewrite (proj2 (Z.leb_le _ _)), (proj2 (Z.ltb_lt _ _)) by lia. eexists. split; [done|]. split.
  - split; [by rewrite length_insert|]. apply Forall_insert; [done|]. by rewrite length_insert.
  - intros q [Hqx Hqy]. unfold pixel_at. destruct (decide (q.2 = p.2)) as [Ey|Ny].
    + rewrite Ey, list_lookup_insert_eq by lia. simpl. rewrite Hrow. simpl.
      destruct (decide (q.1 = p.1)) as [Ex|Nx].
      * rewrite Ex, list_lookup_insert_eq by lia. destruct q, p. simpl in *. subst. by rewrite decide_True.
      * rewrite list_lookup_insert_ne by lia. rewrite decide_False; [done|congruence].
    + rewrite list_lookup_insert_ne by lia. rewrite decide_False; [done|congruence].
Qed.

Section Paint.
Context (input : list string) (off_map on_map : color_map).

Lemma traverses_next c n dim pos :
  traverses c (S n) dim pos -> traverses (next c) n dim (fun i => pos (S i)).
Proof.
  intros [Hc Hr Hd]. split.
  - intros i Hi. rewrite <-Nat.iter_succ_r. apply Hc. lia.
  - intros i Hi. apply Hr. lia.
  - intros i j Hi Hj H. apply Hd in H; lia.
Qed.

(** Every string gets its pixel, all other pixels stay. *)
Lemma paint_run dim domain : forall c pos image,
  traverses c (length domain) dim pos -> square dim image ->
  exists image', paint input off_map on_map domain c image = inr image' /\ square dim image' /\
    (forall i s, domain !! i = Some s -> pixel_at image' (pos i) =
      match string_color input off_map on_map s with
      | Some col => Some (rgb col)
      | None => pixel_at image (pos i)
      end) /\
    (forall q, in_square dim q -> (forall i, (i < length domain)%nat -> pos i <> q) ->
      pixel_at image' q = pixel_at image q).
Proof.
  induction domain as [|s domain IH]; intros c pos image Htr Hsq; cbn [paint].
  { exists image. split; [done|]. split; [done|]. split; [|done]. intros i s Hs. by rewrite lookup_nil in Hs. }
  pose proof (tr_coords _ _ _ _ Htr 0 ltac:(simpl; lia)) as Hc. simpl in Hc. rewrite Hc.
  pose proof (tr_range _ _ _ _ Htr 0 ltac:(simpl; lia)) as Hin0. fold (in_square dim (pos 0%nat)) in Hin0.
  assert (Hstep : exists image1,
    match string_color input off_map on_map s with
    | None => paint input off_map on_map domain (next c) image
    | Some color =>
        match set_pixel (pos 0%nat).1 (pos 0%nat).2 (rgb color) image with
        | inl e => inl e
        | inr image => paint input off_map on_map domain (next c) image
        end
    end = paint input off_map on_map domain (next c) image1 /\ square dim image1 /\
    forall q, in_square dim q -> pixel_at image1 q =
      match string_color input off_map on_map s with
      | Some col => if decide (q = pos 0%nat) then Some (rgb col) else pixel_at image q
      | None => pixel_at image q
      end).
  { destruct (string_color _ _ _ s) as [color|]; [|by exists image].
    destruct (set_pixel_run dim (pos 0%nat) (rgb color) image Hsq Hin0) as (image1 & -> & Hsq1 & Hpx).
    by exists image1. }
  destruct Hstep as (image1 & Hrun & Hsq1 & Hpx1).
  destruct (pos 0%nat) as [x y] eqn:Hp0. cbn [fst snd] in Hrun. rewrite Hrun.
  destruct (IH (next c) (fun i => pos (S i)) image1 (traverses_next _ _ _ _ Htr) Hsq1)
    as (image' & Hr & Hsq' & Hset & Hkeep).
  exists image'. split; [done|]. split; [done|]. split.
  - intros [|i] s' Hs'; cbn in Hs'.
    + injection Hs' as <-. rewrite Hp0, Hkeep.
      * rewrite Hpx1 by done. destruct (string_color _ _ _ s); [by rewrite decide_True|done].
      * done.
      * intros i Hi E. rewrite <-Hp0 in E. apply (tr_distinct _ _ _ _ Htr) in E; simpl; lia.
    + rewrite (Hset i s' Hs'). pose proof (lookup_lt_Some _ _ _ Hs') as Hi.
      destruct (string_color _ _ _ s') as [col|]; [done|].
      rewrite Hpx1 by (apply (tr_range _ _ _ _ Htr); simpl; lia).
      destruct (string_color _ _ _ s) as [col|]; [|done]. rewrite decide_False; [done|].
      rewrite <-Hp0. intros E. apply (tr_distinct _ _ _ _ Htr) in E; simpl; lia.
  - intros q Hq Hne. rewrite Hkeep by (first [done|intros i Hi; apply Hne; simpl; lia]).
    rewrite Hpx1 by done. destruct (string_color _ _ _ s) as [col|]; [|done].
    rewrite decide_False; [done|]. rewrite <-Hp0. intros ->. by apply (Hne 0%nat); simpl; [lia|].
Qed.
End Paint.

(** The curves of the tool: lines if none is named. *)
Definition known_curve (type : option string) : Prop :=
  type ∈ [None; Some "lines"; Some "spiral"; Some "hilbert"]%string.

(** The picture has room for every string. *)
Lemma ceil_sqrt_spec n : 0 <= n < 2 ^ 32 -> 0 <= ceil_sqrt n <= 2 ^ 16 /\ n <= ceil_sqrt n * ceil_sqrt n.
Proof.
  intros Hn. assert (H : 0 <= Z.sqrt_up n <= 2 ^ 16).
  { split; [apply Z.sqrt_up_nonneg|]. change (2 ^ 16) with (Z.sqrt_up (2 ^ 32)). apply Z.sqrt_up_le_mono. lia. }
  unfold ceil_sqrt. rewrite u32_small by lia. split; [done|]. apply (Z.sqrt_sqrt_up_spec n). lia.
Qed.

Lemma make_curve_traverses type n :
  known_curve type -> Z.of_nat n < 2 ^ 32 ->
  exists c dim pos, make_curve type (ceil_sqrt (Z.of_nat n)) = inr (c, dim) /\
    ceil_sqrt (Z.of_nat n) <= dim /\ traverses c n dim pos.
Proof.
  intros Ht Hn. destruct (ceil_sqrt_spec (Z.of_nat n) ltac:(lia)) as [Hd Hsq].
  set (d := ceil_sqrt (Z.of_nat n)) in *. unfold known_curve in Ht.
  assert (Hlines : traverses (SFC_Lines d 0) n d (lines_pos d)) by (apply lines_traverse; lia).
  repeat (apply elem_of_cons in Ht as [->|Ht]); [..|by apply elem_of_nil in Ht].
  - exists (SFC_Lines d 0), d, (lines_pos d). auto with lia.
  - exists (SFC_Lines d 0), d, (lines_pos d). auto with lia.
  - exists (SFC_Spiral d (spiral_start d)), d, (spiral_pos d). split; [done|]. split; [lia|].
    apply spiral_traverse; lia.
  - destruct (rounds_spec d ltac:(lia)) as (Hk & Hle & Hlt).
    pose proof (round_up_run d (rounds d) hilbert_rounds Hk Hle Hlt 0 ltac:(lia) ltac:(unfold hilbert_rounds; lia)) as Hr.
    exists (SFC_Hilbert d 0), (2 ^ Z.of_nat (rounds d)), (fun i => hilbert (rounds d) (Z.of_nat i)).
    split; [|split; [done|apply hilbert_traverse; lia]].
    unfold make_curve. cbn -[hilbert_rounds round_up Z.pow]. change 1 with (2 ^ Z.of_nat 0). by rewrite Hr.
Qed.

(** ** The words of the command line *)

(** The settings that the words say, as the reading of OptionParserProps has them. *)
Definition settings (open_file : string -> option string) (argv : list string) :
    exn + (sfc_options * (string * string * string)) :=
  let '(os, rest) := read false usage 0 (tail argv) in
  settings_of open_file (Z.of_nat (length (tail argv))) (bool_decide (rest = None))
    ((fun i => options_of usage i os) <$> seq 0 7) (default [] rest).

Lemma sfc_lists_run s f l : (forall i, i ∈ l -> chain s i = inr (f i)) -> read_lists s l = inr (f <$> l).
Proof.
  induction l as [|i l IH]; intros Hs; cbn [read_lists]; [done|].
  rewrite (Hs i) by left. rewrite IH; [done|]. intros j Hj. apply Hs. by right.
Qed.

Lemma main_run open_file argv : countable usage (tail argv) ->
  main open_file argv =
  match settings open_file argv with
  | inl e => inl e
  | inr (op, (domain, input, png)) =>
      match sfctool op (open_file domain) (open_file input) with inl e => inl e | inr image => inr (png, image) end
  end.
Proof.
  intros Hc. destruct (parse_words_read usage (tail argv) Hc)
    as (p & s & nopt & nbuf & Hrun & Hh & Hn & Hidx & He & _ & Hrest).
  unfold main, settings. rewrite Hrun, He, Hrest. destruct (read false usage 0 (tail argv)) as [os rest].
  cbn [fst snd] in *. rewrite (sfc_lists_run s (fun i => options_of usage i os)); [done|].
  intros i Hi. apply elem_of_seq in Hi.
  apply (chain_holds usage nopt nbuf os (op_count p, s)); [done|lia|].
  assert (Hlast : (6 < nopt)%nat).
  { rewrite Forall_forall in Hidx. refine (Hidx (entry DEFAULT_COLOR "d" "default-color" Arg_Required _) _).
    do 6 right. left. }
  lia.
Qed.

(** (C12) The picture of [sfctool], from its words on.  For words that say the three
    files, a domain of less than 2^32 strings and each of the three curves, the
    tool succeeds when the colours can be read and there is one for each map.  The
    strings have pairwise different pixels inside the square picture; the pixel of
    a string has the colour that the map for its kind names, and every other pixel
    the default colour, with green and blue exchanged. *)
Theorem sfctool_picture (open_file : string -> option string) (argv : list string) (op : sfc_options)
    (domain_name input_name png domain input : string) (default_color : Color)
    (colors : list string) (off_map on_map : color_map) :
  countable usage (tail argv) -> settings open_file argv = inr (op, (domain_name, input_name, png)) ->
  open_file domain_name = Some domain -> open_file input_name = Some input ->
  known_curve (so_curve_type op) -> Z.of_nat (length (read_lines domain)) < 2 ^ 32 ->
  set_color (default "ffffff"%string (so_default_color op)) = inr default_color ->
  loadmaps (so_off_maps op) (so_colors op) [] = inr (colors, off_map) ->
  loadmaps (so_on_maps op) colors [] = inr ([], on_map) ->
  exists dim pos image,
    main open_file argv = inr (png, image) /\ square dim image /\
    (forall i j, (i < length (read_lines domain))%nat -> (j < length (read_lines domain))%nat ->
      in_square dim (pos i) /\ (pos i = pos j -> i = j)) /\
    (forall i s, read_lines domain !! i = Some s ->
      pixel_at image (pos i) = Some
        match string_color (read_lines input) off_map on_map s with
        | Some col => (col_r col, col_g col, col_b col)
        | None => (col_r default_color, col_b default_color, col_g default_color)
        end) /\
    (forall q, in_square dim q -> (forall i, (i < length (read_lines domain))%nat -> pos i <> q) ->
      pixel_at image q = Some (col_r default_color, col_b default_color, col_g default_color)).
Proof.
  intros Hargv Hset0 Hdom Hinp Ht Hn Hd Hoff Hon.
  destruct (make_curve_traverses _ _ Ht Hn) as (c & dim & pos & Hc & _ & Htr).
  destruct (paint_run (read_lines input) off_map on_map dim (read_lines domain) c pos
    (blank dim default_color) Htr (blank_square _ _)) as (image & Hp & Hsq & Hset & Hkeep).
  exists dim, pos, image. split.
  { rewrite (main_run _ _ Hargv), Hset0, Hdom, Hinp. unfold sfctool. replace (match so_default_color op with Some s => set_color s | None => set_color "ffffff" end)
      with (inr default_color : exn + Color) by (rewrite <-Hd; by destruct (so_default_color op)).
    by rewrite Hc, Hoff, Hon, Hp. }
  split; [done|]. split; [|split].
  - intros i j Hi Hj. split; [by apply (tr_range _ _ _ _ Htr)|by apply (tr_distinct _ _ _ _ Htr)].
  - intros i s Hs. rewrite (Hset i s Hs). destruct (string_color _ _ _ s) as [col|]; [done|].
    apply blank_pixel, (tr_range _ _ _ _ Htr). by eapply lookup_lt_Some.
  - intros q Hq Hne. rewrite Hkeep by done. by apply blank_pixel.
Qed.

Definition sample_words : list string :=
  ["sfctool"; "-d"; "#0000ff"; "--curve-type=hilbert"; "-1on.map"; "-c"; "ff8000"; "domain"; "input"; "out.png"]%string.
Definition sample_file (name : string) : option string :=
  if String.eqb name "domain" then Some ("a" ++ nl ++ "b" ++ nl ++ "c")%string
  else if String.eqb name "input" then Some ("b" ++ nl)%string
  else if String.eqb name "on.map" then Some ("b" ++ nl ++ "c" ++ nl)%string
  else None.

Lemma sfctool_picture_witness :
  exists image, main sample_file sample_words = inr ("out.png"%string, image) /\
    square 2 image /\ image = [[(0, 255, 0); (0, 255, 0)]; [(255, 128, 0); (0, 255, 0)]].
Proof.
  destruct (sfctool_picture sample_file sample_words
    (mkSfcOptions (Some "#0000ff") (Some "hilbert") [] [Some ("b" ++ nl ++ "c" ++ nl)] ["ff8000"])%string
    "domain" "input" "out.png" ("a" ++ nl ++ "b" ++ nl ++ "c") ("b" ++ nl)
    (mkColor 0 0 255) ["ff8000"] [] [("b", mkColor 255 128 0); ("c", mkColor 255 128 0)])%string
    as (dim & pos & image & Hrun & Hsq & _).
  - split; [vm_compute; reflexivity|]. repeat (constructor; [vm_compute; reflexivity|]). constructor.
  - vm_compute. reflexivity.
  - reflexivity.
  - reflexivity.
  - unfold known_curve. cbn. set_solver.
  - reflexivity.
  - vm_compute. reflexivity.
  - reflexivity.
  - vm_compute. reflexivity.
  - exists image. split; [exact Hrun|]. vm_compute in Hrun. injection Hrun as <-.
    split; [|reflexivity]. split; [reflexivity|repeat constructor].
Defined.
