(* ===== verification/KcovLib.v ===== *)
(** * Recording kernel coverage: src/coverage/kcov/kcov-lib.cc

    The library is loaded into a traced program.  Its constructor opens the
    kernel's coverage device, its destructor writes the addresses of the basic
    blocks that were reached, and its [fork] starts a recording of its own for
    the child.  The Linux build for 64 bits without DEBUG is modelled.

    System calls are recorded in a log, and their results are a function of the
    log; so is the shared memory, which the kernel fills while it is enabled. *)
From Stdlib Require Import Ascii String.
From S2P Require Import Prelude StdMap LockTypes CxxStd.
Local Open Scope string_scope.
Local Open Scope list_scope.
Local Open Scope Z_scope.

Definition BASE_ADDRESS : Z := 18446744071578845184.   (* 0xffffffff81000000 *)
Definition BITS_PER_LONG : Z := 64.
Definition KCOV_ENTRY_SIZE : Z := 8.
Definition COVER_SIZE : Z := 16777216.   (* 16 << 20 *)
Definition MAX_PATH_NAME : nat := 100.
Definition KCOV_PATH : string := "/sys/kernel/debug/kcov".

(** The [_IO] requests by name. *)
Inductive request := KCOV_ENABLE | KCOV_DISABLE | KCOV_INIT_TRACE | KCOV_INIT_TRACE_UNIQUE.
Inductive kcov_mode_t := KCOV_TRACE_PC | KCOV_TRACE_UNIQUE_PC.
Definition mode_number (m : kcov_mode_t) : Z := match m with KCOV_TRACE_PC => 0 | KCOV_TRACE_UNIQUE_PC => 2 end.

Definition SIGSEGV : Z := 11.
Definition SIGTERM : Z := 15.

(** What the library asks the system for. *)
Inductive call :=
  | c_ioctl (fd : Z) (r : request) (arg : Z)
  | c_munmap (size : Z)
  | c_mmap (size fd : Z)               (* -1 for MAP_FAILED *)
  | c_open (path : string)
  | c_close (fd : Z)
  | c_fcntl (fd : Z)                   (* F_GETFD *)
  | c_getrlimit                        (* the soft limit, or -1 *)
  | c_dprintf (fd : Z) (text : string)
  | c_store (index value : Z)          (* a write to the shared memory *)
  | c_atexit
  | c_get_handler (signum : Z)         (* -1, or whether it is this library's *)
  | c_set_handler (signum : Z)
  | c_old_handler (signum : Z)         (* 0 if there is none, calls it otherwise *)
  | c_raise (signum : Z)
  | c_fork
  | c_sigprocmask (block : bool).

Record kcov := mkKcov {
  kcov_mode : kcov_mode_t;
  kcov_fd : Z;
  out_fd : Z;
  foreign_fd : Z;
  sortuniq_cover : list Z;
  area : bool;          (* not NULL *)
  area_size : Z;
  pcs_size : Z;
  kcov_mode_env : option string;
  environ : list (string * string);
  log : list call
}.

(** The static variables, with the environment of the program. *)
Definition kcov_init (env : list (string * string)) : kcov :=
  mkKcov KCOV_TRACE_UNIQUE_PC 0 0 0 [] false 0 0 None env [].

Definition KM (A : Type) : Type := M kcov exn A.

Definition set_fds (k o f : Z) : KM unit := modify (fun s =>
  mkKcov (kcov_mode s) k o f (sortuniq_cover s) (area s) (area_size s) (pcs_size s) (kcov_mode_env s) (environ s) (log s)).
Definition set_kcov_fd (k : Z) : KM unit := s ← get_st; set_fds k (out_fd s) (foreign_fd s).
Definition set_out_fd (o : Z) : KM unit := s ← get_st; set_fds (kcov_fd s) o (foreign_fd s).
Definition set_foreign_fd (f : Z) : KM unit := s ← get_st; set_fds (kcov_fd s) (out_fd s) f.
Definition set_area (a : bool) (size : Z) : KM unit := modify (fun s =>
  mkKcov (kcov_mode s) (kcov_fd s) (out_fd s) (foreign_fd s) (sortuniq_cover s) a size (pcs_size s) (kcov_mode_env s) (environ s) (log s)).
Definition set_pcs_size (n : Z) : KM unit := modify (fun s =>
  mkKcov (kcov_mode s) (kcov_fd s) (out_fd s) (foreign_fd s) (sortuniq_cover s) (area s) (area_size s) n (kcov_mode_env s) (environ s) (log s)).
Definition set_mode (m : kcov_mode_t) : KM unit := modify (fun s =>
  mkKcov m (kcov_fd s) (out_fd s) (foreign_fd s) (sortuniq_cover s) (area s) (area_size s) (pcs_size s) (kcov_mode_env s) (environ s) (log s)).
Definition set_mode_env (e : option string) : KM unit := modify (fun s =>
  mkKcov (kcov_mode s) (kcov_fd s) (out_fd s) (foreign_fd s) (sortuniq_cover s) (area s) (area_size s) (pcs_size s) e (environ s) (log s)).
Definition set_cover (c : list Z) : KM unit := modify (fun s =>
  mkKcov (kcov_mode s) (kcov_fd s) (out_fd s) (foreign_fd s) c (area s) (area_size s) (pcs_size s) (kcov_mode_env s) (environ s) (log s)).
Definition set_environ (e : list (string * string)) : KM unit := modify (fun s =>
  mkKcov (kcov_mode s) (kcov_fd s) (out_fd s) (foreign_fd s) (sortuniq_cover s) (area s) (area_size s) (pcs_size s) (kcov_mode_env s) e (log s)).

Definition getenv (name : string) : KM (option string) := s ← get_st; mret (sm_find name (environ s)).
Definition setenv (name value : string) : KM unit := s ← get_st; set_environ (sm_set name value (environ s)).
Definition unsetenv (name : string) : KM unit := s ← get_st; set_environ (sm_erase name (environ s)).

Definition KCOV_ENV_CTL_FD : string := "KCOV_CTL_FD".
Definition KCOV_ENV_ERR_FD : string := "KCOV_ERR_FD".
Definition KCOV_ENV_OUT_FD : string := "KCOV_OUT_FD".
Definition KCOV_ENV_OUT : string := "KCOV_OUT".
Definition KCOV_ENV_MODE : string := "KCOV_MODE".

(** [printf] of [0x%lx] and [0x%jx]. *)
Definition address_line (a : Z) : string := ("0x" ++ print_digits 16 16 a (String "010"%char EmptyString))%string.

(** [strtol(s, NULL, 10)] stored in an [int]. *)
Definition strtol_int (s : string) : Z :=
  match scan_number 10 s with
  | None => 0
  | Some (neg, v) => s32 (Z.max (- 2 ^ 63) (Z.min (2 ^ 63 - 1) (if neg : bool then - v else v)))
  end.

(** [sscanf(s, "fd:%d", &fd)] on a string that starts with [fd]: [None] for a
    negative result, otherwise the number if there is one. *)
Definition sscanf_fd (s : string) : option (option Z) :=
  match s with
  | String _ (String _ EmptyString) => None
  | String _ (String _ (String c rest)) =>
      if bool_decide (c = ":"%char) then
        match skip_space rest with
        | EmptyString => None
        | _ => match scan_number 10 rest with Some _ => Some (Some (strtol_int rest)) | None => Some None end
        end
      else Some None
  | _ => None
  end.

Section Library.
Context (sys : list call -> call -> Z) (memory : list call -> list Z).
(** [basename(program_invocation_name)] *)
Context (progname : string).

Definition syscall (c : call) : KM Z := fun s =>
  inr (sys (log s) c,
    mkKcov (kcov_mode s) (kcov_fd s) (out_fd s) (foreign_fd s) (sortuniq_cover s) (area s) (area_size s)
      (pcs_size s) (kcov_mode_env s) (environ s) (log s ++ [c])).

(** Messages about failures are only printed by the DEBUG build. *)
Definition cleanup_kcov : KM unit :=
  s ← get_st;
  _ ← syscall (c_ioctl (kcov_fd s) KCOV_DISABLE 0);
  _ ← syscall (c_munmap (area_size s));
  _ ← syscall (c_close (kcov_fd s));
  (if foreign_fd s =? 0 then _ ← syscall (c_close (out_fd s)); mret tt else mret tt);;;
  set_fds (-1) (-1) 0;;;
  set_area false 0;;;
  unsetenv KCOV_ENV_CTL_FD;;;
  unsetenv KCOV_ENV_ERR_FD;;;
  unsetenv KCOV_ENV_OUT_FD.

(** ** The end of a recording *)

(** The bits of a word from bit [j] on, [n] of them. *)
Fixpoint dump_bits (n : nat) (fd word i j : Z) : KM unit :=
  match n with
  | O => mret tt
  | S n =>
      (if Z.testbit word j then
         _ ← syscall (c_dprintf fd (address_line (u64 (BASE_ADDRESS + u64 (i * BITS_PER_LONG + j))))); mret tt
       else mret tt);;;
      dump_bits n fd word i (j + 1)
  end.

Fixpoint dump_words (words : list Z) (fd i : Z) : KM unit :=
  s ← get_st;
  if i <? pcs_size s then
    match words with
    | [] => raise (undefined "access behind the shared memory")
    | w :: words => dump_bits 64 fd w i 0;;; dump_words words fd (i + 1)
    end
  else mret tt.

Fixpoint insert_pcs (n : Z) (words : list Z) : KM unit :=
  if 0 <? n then
    match words with
    | [] => raise (undefined "access behind the shared memory")
    | w :: words => s ← get_st; set_cover (ss_insert w (sortuniq_cover s));;; insert_pcs (n - 1) words
    end
  else mret tt.

Fixpoint print_cover (l : list Z) (fd : Z) : KM unit :=
  match l with
  | [] => mret tt
  | a :: l => _ ← syscall (c_dprintf fd (address_line a)); print_cover l fd
  end.

(** The words of the shared memory; it is not written any more once tracing is
    disabled. *)
Definition dump_area : KM unit :=
  s ← get_st;
  let words := memory (log s) in
  match kcov_mode s with
  | KCOV_TRACE_UNIQUE_PC => dump_words words (out_fd s) 0
  | KCOV_TRACE_PC =>
      match words with
      | [] => raise (undefined "access behind the shared memory")
      | n :: words =>
          insert_pcs n words;;;
          s ← get_st; print_cover (sortuniq_cover s) (out_fd s)
      end
  end.

Definition finish_kcov : KM unit :=
  s ← get_st;
  if kcov_fd s <? 1 then mret tt else
  _ ← syscall (c_ioctl (kcov_fd s) KCOV_DISABLE 0);
  dump_area;;;
  cleanup_kcov.

(** ** Signals *)

Definition signal_handler (signum : Z) : KM unit :=
  if signum =? SIGSEGV then
    finish_kcov;;; _ ← syscall (c_old_handler SIGSEGV); raise (exit_with 1)
  else if signum =? SIGTERM then
    finish_kcov;;; _ ← syscall (c_old_handler SIGTERM); _ ← syscall (c_raise SIGTERM); mret tt
  else mret tt.

Definition setup_one (signum : Z) : KM bool :=
  r ← syscall (c_get_handler signum);
  if r =? -1 then mret false else
  (if r =? 0 then _ ← syscall (c_set_handler signum); mret tt else mret tt);;; mret true.

Definition setup_signal_handler : KM unit :=
  ok ← setup_one SIGSEGV;
  if ok : bool then _ ← setup_one SIGTERM; mret tt else mret tt.

(** ** The start of a recording *)

(** [true]: [parse_env] returns here. *)
Definition inherit_fds (ctl : string) : KM bool :=
  set_kcov_fd (strtol_int ctl);;;
  s ← get_st;
  r ← syscall (c_fcntl (kcov_fd s));
  if negb (r =? 0) then set_kcov_fd (-1);;; set_out_fd (-1);;; mret true else
  env ← getenv KCOV_ENV_OUT_FD;
  stop ← (match env with
   | None => mret false
   | Some o =>
       set_out_fd (strtol_int o);;;
       s ← get_st;
       r ← syscall (c_fcntl (out_fd s));
       if negb (r =? 0) then set_kcov_fd (-1);;; set_out_fd (-1);;; mret true else mret false
   end);
  if stop : bool then mret true else cleanup_kcov;;; mret false.

(** [KCOV_OUT] names a descriptor. *)
Definition foreign_output (kcov_out : string) : KM unit :=
  ok ← (match sscanf_fd kcov_out with
   | None =>
       r ← syscall c_getrlimit;
       if r =? -1 then cleanup_kcov;;; mret false else set_out_fd (s32 (r - 1));;; mret true
   | Some (Some fd) => set_out_fd fd;;; mret true
   | Some None => mret true
   end);
  if ok : bool then
    s ← get_st;
    r ← syscall (c_fcntl (out_fd s));
    if negb (r =? 0) then cleanup_kcov else set_foreign_fd 1
  else mret tt.

Definition parse_env : KM unit :=
  kcov_out ← getenv KCOV_ENV_OUT;
  mode_env ← getenv KCOV_ENV_MODE;
  set_mode_env mode_env;;;
  env ← getenv KCOV_ENV_CTL_FD;
  stop ← (match env with Some ctl => inherit_fds ctl | None => mret false end);
  if stop : bool then mret tt else
  match kcov_out with
  | None => mret tt
  | Some kcov_out =>
      if String.prefix "fd" kcov_out then foreign_output kcov_out else
      let path := if bool_decide (kcov_out = "progname")
        then String.substring 0 (MAX_PATH_NAME - 1) (progname ++ ".map")%string else kcov_out in
      fd ← syscall (c_open path);
      set_out_fd fd;;;
      setenv KCOV_ENV_OUT_FD (print_int fd)
  end.

(** Closing the device when the start fails. *)
Definition give_up_kcov : KM unit :=
  s ← get_st; _ ← syscall (c_close (kcov_fd s)); set_kcov_fd (-1).

(** The mode that the environment asks for. *)
Definition env_mode (e : option string) : option kcov_mode_t :=
  match e with
  | None => Some KCOV_TRACE_UNIQUE_PC
  | Some m =>
      if bool_decide (m = "trace_order") then Some KCOV_TRACE_PC
      else if bool_decide (m = "trace_unique") then Some KCOV_TRACE_UNIQUE_PC else None
  end.

(** The size of the shared memory; [false] if the device refuses. *)
Definition init_trace (mode : kcov_mode_t) : KM bool :=
  s ← get_st;
  match mode with
  | KCOV_TRACE_UNIQUE_PC =>
      r ← syscall (c_ioctl (kcov_fd s) KCOV_INIT_TRACE_UNIQUE 0);
      if r =? -1 then mret false else
      set_area (area s) (u64 r);;; set_pcs_size (u64 r / 8);;; mret true
  | KCOV_TRACE_PC =>
      set_area (area s) (COVER_SIZE * KCOV_ENTRY_SIZE);;;
      r ← syscall (c_ioctl (kcov_fd s) KCOV_INIT_TRACE COVER_SIZE);
      mret (negb (r =? -1))
  end.

Definition start_kcov : KM unit :=
  s ← get_st;
  if 0 <? kcov_fd s then mret tt else
  _ ← syscall c_atexit;
  setup_signal_handler;;;
  set_out_fd (-1);;;
  parse_env;;;
  s ← get_st;
  if out_fd s <? 0 then mret tt else
  fd ← syscall (c_open KCOV_PATH);
  set_kcov_fd fd;;;
  if fd =? -1 then mret tt else
  match env_mode (kcov_mode_env s) with
  | None => give_up_kcov
  | Some mode =>
      set_mode mode;;;
      ok ← init_trace mode;
      if negb ok then give_up_kcov else
      s ← get_st;
      r ← syscall (c_mmap (area_size s) fd);
      set_area true (area_size s);;;
      if r =? -1 then give_up_kcov else
      r ← syscall (c_ioctl fd KCOV_ENABLE (mode_number mode));
      if negb (r =? 0) then _ ← syscall (c_munmap (area_size s)); give_up_kcov else
      setenv KCOV_ENV_CTL_FD (print_int fd);;;
      match mode with
      | KCOV_TRACE_PC => _ ← syscall (c_store 0 0); mret tt
      | KCOV_TRACE_UNIQUE_PC => mret tt
      end
  end.

(** The [fork] that programs call: the process id, 0 in the child. *)
Definition fork : KM Z :=
  ret ← syscall c_fork;
  if negb (ret =? 0) then mret ret else
  s ← get_st;
  (if 0 <? kcov_fd s then
     _ ← syscall (c_sigprocmask true);
     cleanup_kcov;;;
     start_kcov;;;
     _ ← syscall (c_sigprocmask false); mret tt
   else mret tt);;;
  mret ret.
End Library.

(** ** src/coverage/kcov/sortuniq.cc *)

(** The distinct lines of the input in order. *)
Definition sortuniq (input : string) : string :=
  let st := fold_left (fun st s => ss_insert s st) (tokens "010"%char input) [] in
  fold_left (fun out e => (out ++ e ++ String "010"%char EmptyString)%string) st EmptyString.
