(* ===== verification/KcovProps.v ===== *)
(** * What the coverage library writes

    The addresses printed at the end of a recording are exactly those the kernel
    recorded, in ascending order; and a closed standard input. *)
From Stdlib Require Import Ascii String.
From S2P Require Import Prelude StdMap LockTypes CxxStd KcovLib.
Local Open Scope list_scope.
Local Open Scope Z_scope.

(** ** Runs *)

Definition add_log (l : list call) (s : kcov) : kcov :=
  mkKcov (kcov_mode s) (kcov_fd s) (out_fd s) (foreign_fd s) (sortuniq_cover s) (area s) (area_size s)
    (pcs_size s) (kcov_mode_env s) (environ s) (log s ++ l).

Lemma add_log_nil s : add_log [] s = s.
Proof. destruct s. unfold add_log. simpl. by rewrite app_nil_r. Qed.

Lemma add_log_app l1 l2 s : add_log l2 (add_log l1 s) = add_log (l1 ++ l2) s.
Proof. unfold add_log. simpl. by rewrite app_assoc. Qed.

(** The calls that print addresses. *)
Definition print_calls (fd : Z) (l : list Z) : list call := map (fun a => c_dprintf fd (address_line a)) l.

Section Runs.
Context (sys : list call -> call -> Z) (memory : list call -> list Z).

Lemma syscall_run {B} c (k : Z -> KM B) s :
  (syscall sys c ≫= k) s = k (sys (log s) c) (add_log [c] s).
Proof. done. Qed.

(** The state when a recording is over. *)
Definition closed (s : kcov) : kcov :=
  mkKcov (kcov_mode s) (-1) (-1) 0 (sortuniq_cover s) false 0 (pcs_size s) (kcov_mode_env s)
    (sm_erase KCOV_ENV_OUT_FD (sm_erase KCOV_ENV_ERR_FD (sm_erase KCOV_ENV_CTL_FD (environ s)))) (log s).

Definition cleanup_calls (s : kcov) : list call :=
  [c_ioctl (kcov_fd s) KCOV_DISABLE 0; c_munmap (area_size s); c_close (kcov_fd s)] ++
  (if foreign_fd s =? 0 then [c_close (out_fd s)] else []).

Lemma cleanup_run s : cleanup_kcov sys s = inr (tt, closed (add_log (cleanup_calls s) s)).
Proof.
  unfold cleanup_kcov, cleanup_calls, unsetenv, set_environ, set_area, set_fds, syscall, modify, get_st, mbind,
    M_bind, mret, M_ret, closed, add_log. destruct s as [m k o f c a n p e env l]. cbn -[sm_erase app].
  destruct (f =? 0); cbn -[sm_erase app]; rewrite <-!app_assoc; reflexivity.
Qed.

(** ** Bits *)

Definition bit_address (i j : Z) : Z := u64 (BASE_ADDRESS + u64 (i * BITS_PER_LONG + j)).

(** The addresses of the bits [j], ..., [j + n - 1] of word [i]. *)
Fixpoint bit_addresses (n : nat) (word i j : Z) : list Z :=
  match n with
  | O => []
  | S n => (if Z.testbit word j then [bit_address i j] else []) ++ bit_addresses n word i (j + 1)
  end.

Lemma dump_bits_run n fd word i : forall j s,
  dump_bits sys n fd word i j s = inr (tt, add_log (print_calls fd (bit_addresses n word i j)) s).
Proof.
  induction n as [|n IH]; intros j s; simpl; [by rewrite add_log_nil|].
  destruct (Z.testbit word j); simpl.
  - unfold mbind, M_bind, syscall, mret, M_ret. rewrite IH. do 2 f_equal.
    unfold add_log. simpl. by rewrite <-app_assoc.
  - unfold mbind, M_bind, mret, M_ret. by rewrite IH.
Qed.

(** The addresses of the first [n] words, the first of which is word [i]. *)
Fixpoint word_addresses (words : list Z) (i : Z) : list Z :=
  match words with
  | [] => []
  | w :: words => bit_addresses 64 w i 0 ++ word_addresses words (i + 1)
  end.

Lemma dump_words_run words fd : forall i s,
  0 <= i -> i + Z.of_nat (length words) = pcs_size s ->
  forall rest, dump_words sys (words ++ rest) fd i s =
    inr (tt, add_log (print_calls fd (word_addresses words i)) s).
Proof.
  induction words as [|w words IH]; intros i s Hi Hn rest.
  - simpl in Hn. rewrite add_log_nil. destruct rest as [|r rest]; cbn [app dump_words];
      unfold mbind, M_bind, get_st; rewrite (proj2 (Z.ltb_ge _ _)) by lia; done.
  - cbn [app dump_words word_addresses]. simpl length in Hn. unfold mbind at 1, M_bind at 1, get_st.
    rewrite (proj2 (Z.ltb_lt _ _)) by lia. unfold mbind, M_bind. rewrite dump_bits_run.
    rewrite IH by (simpl; lia). unfold print_calls. by rewrite add_log_app, map_app.
Qed.

Lemma bit_addresses_spec n word i a : forall j,
  a ∈ bit_addresses n word i j <-> exists k, j <= k < j + Z.of_nat n /\ Z.testbit word k = true /\ a = bit_address i k.
Proof.
  induction n as [|n IH]; intros j; simpl.
  - split; [by intros ?%elem_of_nil|]. intros (k & Hk & _). lia.
  - rewrite elem_of_app, IH. destruct (Z.testbit word j) eqn:Hj.
    + rewrite list_elem_of_singleton. split.
      * intros [->|(k & Hk & H)]; [exists j; split; [lia|done]|exists k; split; [lia|done]].
      * intros (k & Hk & Hb & ->). destruct (decide (k = j)) as [->|]; [by left|right]. exists k. split; [lia|done].
    + split.
      * intros [?%elem_of_nil|(k & Hk & H)]; [done|]. exists k. split; [lia|done].
      * intros (k & Hk & Hb & ->). right. exists k. split; [|done]. assert (k <> j) by congruence. lia.
Qed.

Lemma word_addresses_spec words a : forall i, 0 <= i ->
  a ∈ word_addresses words i <-> exists k w j, words !! k = Some w /\ 0 <= j < 64 /\ Z.testbit w j = true /\
    a = bit_address (i + Z.of_nat k) j.
Proof.
  induction words as [|w words IH]; intros i Hi; cbn [word_addresses].
  - split; [by intros ?%elem_of_nil|]. intros (k & w & j & Hk & _). by rewrite lookup_nil in Hk.
  - rewrite elem_of_app, bit_addresses_spec, IH by lia. split.
    + intros [(j & Hj & Hb & ->)|(k & w' & j & Hk & Hj & Hb & ->)].
      * exists 0%nat, w, j. rewrite Z.add_0_r. repeat split; try done; lia.
      * exists (S k), w', j. repeat split; try done; try lia. f_equal. lia.
    + intros ([|k] & w' & j & Hk & Hj & Hb & ->); simpl in Hk.
      * injection Hk as ->. left. exists j. rewrite Z.add_0_r. repeat split; try done; lia.
      * right. exists k, w', j. repeat split; try done; try lia. f_equal. lia.
Qed.

(** While the addresses fit into 64 bits, they ascend. *)
Definition fits (n : Z) : Prop := BASE_ADDRESS + 64 * n <= 2 ^ 64.

Lemma bit_address_eq i j n : 0 <= i < n -> 0 <= j < 64 -> fits n -> bit_address i j = BASE_ADDRESS + (64 * i + j).
Proof. unfold fits, bit_address, BITS_PER_LONG, BASE_ADDRESS. intros. rewrite (u64_small (i * 64 + j)), u64_small; lia. Qed.

Lemma bit_addresses_sorted k word i n : 0 <= i < n -> fits n -> forall j, 0 <= j -> j + Z.of_nat k <= 64 ->
  StronglySorted Z.lt (bit_addresses k word i j).
Proof.
  intros Hi Hn. induction k as [|k IH]; intros j Hj Hk; simpl; [constructor|].
  destruct (Z.testbit word j); simpl; [|apply IH; lia]. constructor; [apply IH; lia|].
  apply Forall_forall. intros a (l & Hl & _ & ->)%bit_addresses_spec.
  rewrite !(bit_address_eq _ _ n) by first [done|lia]. lia.
Qed.

Lemma strongly_sorted_app {A} (R : A -> A -> Prop) l1 l2 :
  StronglySorted R l1 -> StronglySorted R l2 -> (forall a b, a ∈ l1 -> b ∈ l2 -> R a b) -> StronglySorted R (l1 ++ l2).
Proof.
  induction 1 as [|a l1 H IH Ha]; simpl; intros H2 Hab; [done|]. constructor.
  - apply IH; [done|]. intros b c Hb. apply Hab. by right.
  - apply Forall_app. split; [done|]. apply Forall_forall. intros b. apply Hab. by left.
Qed.

Lemma word_addresses_sorted words n : fits n -> forall i, 0 <= i -> i + Z.of_nat (length words) <= n ->
  StronglySorted Z.lt (word_addresses words i).
Proof.
  intros Hn. induction words as [|w words IH]; intros i Hi Hl; cbn [word_addresses length] in *; [constructor|].
  apply strongly_sorted_app.
  - apply (bit_addresses_sorted _ _ _ n); [lia|done|lia|lia].
  - apply IH; lia.
  - intros a b (k & Hk & _ & ->)%bit_addresses_spec (k' & w' & j & Hw & Hj & _ & ->)%word_addresses_spec; [|lia].
    apply lookup_lt_Some in Hw. rewrite !(bit_address_eq _ _ n) by first [done|lia]. lia.
Qed.

(** ** Sets *)

Definition insert_all (words : list Z) (s : list Z) : list Z := fold_left (fun s w => ss_insert w s) words s.

Definition with_cover (c : list Z) (s : kcov) : kcov :=
  mkKcov (kcov_mode s) (kcov_fd s) (out_fd s) (foreign_fd s) c (area s) (area_size s) (pcs_size s)
    (kcov_mode_env s) (environ s) (log s).

Lemma insert_pcs_run words rest : forall s,
  insert_pcs (Z.of_nat (length words)) (words ++ rest) s =
  inr (tt, with_cover (insert_all words (sortuniq_cover s)) s).
Proof.
  induction words as [|w words IH]; intros s.
  - destruct s, rest; reflexivity.
  - cbn [app insert_pcs length]. rewrite (proj2 (Z.ltb_lt _ _)) by lia.
    replace (Z.of_nat (S (length words)) - 1) with (Z.of_nat (length words)) by lia.
    unfold mbind, M_bind, get_st, set_cover, modify. rewrite IH. by destruct s.
Qed.

Lemma insert_all_sorted words : forall s, ss_sorted s -> ss_sorted (insert_all words s).
Proof. induction words as [|w words IH]; intros s Hs; simpl; [done|]. by apply IH, ss_sorted_insert. Qed.

Lemma insert_all_elem words a : forall s, a ∈ insert_all words s <-> a ∈ words \/ a ∈ s.
Proof.
  induction words as [|w words IH]; intros s; simpl; [rewrite elem_of_nil; tauto|].
  rewrite IH, ss_insert_elem, elem_of_cons. tauto.
Qed.

Lemma print_cover_run l fd : forall s, print_cover sys l fd s = inr (tt, add_log (print_calls fd l) s).
Proof.
  induction l as [|a l IH]; intros s; simpl; [by rewrite add_log_nil|].
  unfold mbind, M_bind, syscall. rewrite IH. do 2 f_equal. unfold add_log. simpl. by rewrite <-app_assoc.
Qed.

(** ** The end of a recording *)

(** What the shared memory reports: the set bits of the first [pcs_size] words,
    or the recorded addresses behind their number. *)
Definition recorded (mode : kcov_mode_t) (pcs : Z) (words : list Z) (a : Z) : Prop :=
  match mode with
  | KCOV_TRACE_UNIQUE_PC => exists k w j, (k < Z.to_nat pcs)%nat /\ words !! k = Some w /\ 0 <= j < 64 /\
      Z.testbit w j = true /\ a = BASE_ADDRESS + (64 * Z.of_nat k + j)
  | KCOV_TRACE_PC => exists n k, words !! 0%nat = Some n /\ (k < Z.to_nat n)%nat /\ words !! S k = Some a
  end.

(** The shared memory is as large as it has to be. *)
Definition memory_ok (mode : kcov_mode_t) (pcs : Z) (words : list Z) : Prop :=
  match mode with
  | KCOV_TRACE_UNIQUE_PC => 0 <= pcs <= Z.of_nat (length words) /\ fits pcs
  | KCOV_TRACE_PC => exists n rest, words = n :: rest /\ 0 <= n <= Z.of_nat (length rest)
  end.

Lemma dump_area_run (s : kcov) :
  sortuniq_cover s = [] -> memory_ok (kcov_mode s) (pcs_size s) (memory (log s)) ->
  exists addresses c,
    dump_area sys memory s = inr (tt, with_cover c (add_log (print_calls (out_fd s) addresses) s)) /\
    StronglySorted Z.lt addresses /\
    (forall a, a ∈ addresses <-> recorded (kcov_mode s) (pcs_size s) (memory (log s)) a).
Proof.
  intros Hc Hm. unfold dump_area. unfold mbind at 1, M_bind at 1, get_st at 1.
  destruct (kcov_mode s) eqn:Hmode; simpl in Hm.
  - destruct Hm as (n & rest & -> & Hn).
    exists (insert_all (take (Z.to_nat n) rest) []), (insert_all (take (Z.to_nat n) rest) []).
    split; [|split].
    + replace n with (Z.of_nat (length (take (Z.to_nat n) rest))) at 1 by (rewrite length_take; lia).
      rewrite <-(take_drop (Z.to_nat n) rest) at 2.
      unfold mbind, M_bind. rewrite insert_pcs_run. unfold get_st. cbn [with_cover sortuniq_cover out_fd].
      by rewrite Hc, print_cover_run.
    + eapply strongly_sorted_impl; [|apply insert_all_sorted; constructor].
      intros a b. apply Z.compare_lt_iff.
    + intros a. rewrite insert_all_elem, elem_of_nil. unfold recorded. split.
      * intros [Ha|[]]. apply elem_of_take in Ha as (k & Hk & Hl). by exists n, k.
      * intros (n' & k & [= <-] & Hk & Hl). left. apply elem_of_take. by exists k.
  - destruct Hm as [Hp Hf]. exists (word_addresses (take (Z.to_nat (pcs_size s)) (memory (log s))) 0), (sortuniq_cover s).
    split; [|split].
    + rewrite <-(take_drop (Z.to_nat (pcs_size s)) (memory (log s))) at 1.
      rewrite dump_words_run by (simpl; rewrite ?length_take; lia). by destruct s.
    + apply (word_addresses_sorted _ (pcs_size s)); [done|lia|]. rewrite length_take. lia.
    + intros a. rewrite word_addresses_spec by lia. unfold recorded. split.
      * intros (k & w & j & Hk & Hj & Hb & ->). apply lookup_take_Some in Hk as [Hk Hlt].
        exists k, w, j. rewrite (bit_address_eq _ _ (pcs_size s)) by first [done|lia].
        repeat split; try done; lia.
      * intros (k & w & j & Hlt & Hk & Hj & Hb & ->). exists k, w, j.
        rewrite (bit_address_eq _ _ (pcs_size s)) by first [done|lia].
        rewrite lookup_take_lt by done. repeat split; try done; lia.
Qed.

(** (C17) The end of a recording.  If the library is recording and the shared
    memory is large enough, [finish_kcov] disables the recording, writes one
    line for every recorded address, each once and in ascending order, closes
    what it opened and is not recording any more. *)
Theorem finish_kcov_correct (s : kcov) :
  1 <= kcov_fd s -> sortuniq_cover s = [] ->
  memory_ok (kcov_mode s) (pcs_size s) (memory (log s ++ [c_ioctl (kcov_fd s) KCOV_DISABLE 0])) ->
  exists addresses s',
    finish_kcov sys memory s = inr (tt, s') /\
    log s' = log s ++ [c_ioctl (kcov_fd s) KCOV_DISABLE 0] ++ print_calls (out_fd s) addresses ++ cleanup_calls s /\
    StronglySorted Z.lt addresses /\
    (forall a, a ∈ addresses <->
      recorded (kcov_mode s) (pcs_size s) (memory (log s ++ [c_ioctl (kcov_fd s) KCOV_DISABLE 0])) a) /\
    kcov_fd s' = -1 /\ out_fd s' = -1 /\ area s' = false /\ sm_find KCOV_ENV_CTL_FD (environ s') = None.
Proof.
  intros Hfd Hc Hm.
  destruct (dump_area_run (add_log [c_ioctl (kcov_fd s) KCOV_DISABLE 0] s) Hc Hm)
    as (addresses & c & Hrun & Hs & Ha).
  exists addresses. eexists. split; [|split; [|split; [done|split; [exact Ha|]]]].
  - unfold finish_kcov. unfold mbind at 1, M_bind at 1, get_st at 1.
    rewrite (proj2 (Z.ltb_ge _ _)) by lia. rewrite syscall_run.
    unfold mbind, M_bind. rewrite Hrun. apply cleanup_run.
  - unfold closed, add_log, with_cover, cleanup_calls. simpl. by rewrite <-!app_assoc.
  - unfold closed, add_log, with_cover. cbn -[sm_erase sm_find]. repeat split; try done.
    rewrite !sm_find_erase_ne by done. apply sm_find_erase_eq.
Qed.
End Runs.

(** A recording of three addresses, two of them in the first word. *)
Definition sample_recording : kcov :=
  mkKcov KCOV_TRACE_UNIQUE_PC 5 6 0 [] true 16 2 None [(KCOV_ENV_CTL_FD, "5"%string)] [].

Lemma finish_kcov_correct_witness :
  exists s', finish_kcov (fun _ _ => 0) (fun _ => [5; 2]) sample_recording = inr (tt, s') /\
    log s' = [c_ioctl 5 KCOV_DISABLE 0;
      c_dprintf 6 (address_line 18446744071578845184); c_dprintf 6 (address_line 18446744071578845186);
      c_dprintf 6 (address_line 18446744071578845249);
      c_ioctl 5 KCOV_DISABLE 0; c_munmap 16; c_close 5; c_close 6].
Proof.
  destruct (finish_kcov_correct (fun _ _ => 0) (fun _ => [5; 2]) sample_recording) as (addresses & s' & Hrun & _).
  - simpl. lia.
  - reflexivity.
  - simpl. unfold fits, BASE_ADDRESS. lia.
  - exists s'. split; [exact Hrun|]. vm_compute in Hrun. injection Hrun as <-. vm_compute. reflexivity.
Defined.

(** A descriptor given in [KCOV_OUT] that is not open: the library cleans up a
    recording that has not started, and closes descriptor 0. *)
Example bad_descriptor_closes_stdin :
  match start_kcov (fun _ c => match c with c_fcntl _ => -1 | _ => 0 end) "sleep"%string
    (kcov_init [(KCOV_ENV_OUT, "fd:9"%string)]) with inr (_, s') => log s' | inl _ => [] end =
  [c_atexit; c_get_handler SIGSEGV; c_set_handler SIGSEGV; c_get_handler SIGTERM; c_set_handler SIGTERM;
   c_fcntl 9; c_ioctl 0 KCOV_DISABLE 0; c_munmap 0; c_close 0; c_close 9].
Proof. vm_compute. reflexivity. Qed.
