(* ===== verification/GcovIo.v ===== *)
(** * Reading .gcno files: src/coverage/bb2lines/gcov-io.cpp and gcov-io.h

    The notes of the compiler are a sequence of 32-bit words.  They are read
    through one buffer that is refilled and enlarged as needed; a string is a
    pointer into the buffer.  A cell of the buffer that was never written is
    [None]; a reallocation gives the buffer a new generation, and a pointer of an
    older one dangles. *)
From Stdlib Require Import Ascii String.
From S2P Require Import Prelude LockTypes.
Local Open Scope list_scope.
Local Open Scope Z_scope.

Definition GCOV_TAG_FUNCTION : Z := 16777216.       (* 0x01000000 *)
Definition GCOV_TAG_LINES : Z := 21299200.          (* 0x01450000 *)
Definition GCOV_DATA_MAGIC : Z := 1734567009.       (* 0x67636461, gcda *)
Definition GCOV_NOTE_MAGIC : Z := 1734569583.       (* 0x67636e6f, gcno *)
Definition GCOV_BLOCK_SIZE : Z := 1024.

Definition GCOV_TAG_MASK (tag : Z) : Z := Z.lxor (u32 (tag - 1)) tag.
Definition GCOV_TAG_IS_SUBTAG (tag sub : Z) : bool :=
  (Z.shiftr (GCOV_TAG_MASK tag) 8 =? GCOV_TAG_MASK sub) &&
  (Z.land (Z.lxor sub tag) (Z.lxor (2 ^ 32 - 1) (GCOV_TAG_MASK tag)) =? 0).

(** ** The state *)

Record gcov_var := mkGcov {
  g_file : option (list Z);       (* the bytes of the open file *)
  g_fpos : Z;                     (* its position *)
  g_start : Z;
  g_offset : Z;
  g_length : Z;
  g_overread : Z;
  g_error : Z;
  g_mode : Z;
  g_endian : bool;
  g_alloc : Z;                    (* words *)
  g_buffer : list (option Z);
  g_generation : nat
}.

Definition gcov_init : gcov_var := mkGcov None 0 0 0 0 0 0 0 false 0 [] 0.

(** A pointer to a word of the buffer. *)
Record word_ptr := mkPtr { wp_generation : nat; wp_index : Z }.

Notation RM := (M gcov_var exn).

Definition set_window (start offset length : Z) : RM unit := modify (fun g =>
  mkGcov (g_file g) (g_fpos g) start offset length (g_overread g) (g_error g) (g_mode g) (g_endian g)
    (g_alloc g) (g_buffer g) (g_generation g)).
Definition set_overread (n : Z) : RM unit := modify (fun g =>
  mkGcov (g_file g) (g_fpos g) (g_start g) (g_offset g) (g_length g) n (g_error g) (g_mode g) (g_endian g)
    (g_alloc g) (g_buffer g) (g_generation g)).
Definition set_endian : RM unit := modify (fun g =>
  mkGcov (g_file g) (g_fpos g) (g_start g) (g_offset g) (g_length g) (g_overread g) (g_error g) (g_mode g) true
    (g_alloc g) (g_buffer g) (g_generation g)).
Definition set_buffer (alloc : Z) (buffer : list (option Z)) (generation : nat) : RM unit := modify (fun g =>
  mkGcov (g_file g) (g_fpos g) (g_start g) (g_offset g) (g_length g) (g_overread g) (g_error g) (g_mode g)
    (g_endian g) alloc buffer generation).
Definition set_fpos (p : Z) : RM unit := modify (fun g =>
  mkGcov (g_file g) p (g_start g) (g_offset g) (g_length g) (g_overread g) (g_error g) (g_mode g) (g_endian g)
    (g_alloc g) (g_buffer g) (g_generation g)).

(** ** Words and bytes *)

Definition bswap32 (value : Z) : Z :=
  let value := Z.lor (Z.shiftr value 16) (u32 (Z.shiftl value 16)) in
  Z.lor (u32 (Z.shiftl (Z.land value 16711935) 8)) (Z.land (Z.shiftr value 8) 16711935).

(** A little-endian word. *)
Definition word_of (a b c d : Z) : Z := a + 256 * (b + 256 * (c + 256 * d)).

(** The whole words of a sequence of bytes. *)
Fixpoint words_of (bytes : list Z) : list Z :=
  match bytes with
  | a :: b :: c :: d :: rest => word_of a b c d :: words_of rest
  | _ => []
  end.

(** Writing cells from an index on; cells outside the buffer are not written. *)
Fixpoint write_cells (i : nat) (l : list (option Z)) (buffer : list (option Z)) : list (option Z) :=
  match l with [] => buffer | x :: l => write_cells (S i) l (<[i := x]> buffer) end.

Section Reader.
(** What a file of a name contains, if it can be opened; whether memory for so
    many words is available. *)
Context (fopen : string -> option (list Z)) (mem_ok : Z -> bool).

Definition gcov_open (name : string) : RM bool := fun g =>
  match fopen name with
  | Some bytes =>
      inr (true, mkGcov (Some bytes) 0 0 0 0 (2 ^ 32 - 1) 0 1 false (g_alloc g) (g_buffer g) (g_generation g))
  | None =>
      inr (false, mkGcov None 0 0 0 0 (2 ^ 32 - 1) 0 (g_mode g) false (g_alloc g) (g_buffer g) (g_generation g))
  end.

Definition gcov_close : RM Z := fun g =>
  inr (g_error g, mkGcov None 0 (g_start g) (g_offset g)
    (match g_file g with Some _ => 0 | None => g_length g end)
    (g_overread g) (g_error g) 0 (g_endian g) 0 [] (S (g_generation g))).

Definition gcov_magic (magic expected : Z) : RM Z :=
  if magic =? expected then mret 1 else
  if bswap32 magic =? expected then set_endian;;; mret (-1) else mret 0.

(** Without memory, [xrealloc] ends the program. *)
Definition gcov_allocate (length : Z) : RM unit :=
  g ← get_st;
  let new_size := if g_alloc g =? 0 then GCOV_BLOCK_SIZE else g_alloc g in
  let new_size := u64 (u64 (new_size + length) * 2) in
  if mem_ok new_size then
    set_buffer new_size (g_buffer g ++ replicate (Z.to_nat (new_size - g_alloc g)) None) (S (g_generation g))
  else raise (exit_with 1).

Definition from_file (value : Z) : RM Z := g ← get_st; mret (if g_endian g then bswap32 value else value).

(** [fread] of at most [n] words to the buffer at index [i]; the count of bytes
    is a 32-bit number.  The result is the number of whole words that were read;
    the bytes of an incomplete last word are skipped over. *)
Definition fread_words (i n : Z) : RM Z :=
  g ← get_st;
  match g_file g with
  | None => raise (undefined "read from a closed file")
  | Some bytes =>
      let got := take (Z.to_nat (u32 (4 * n))) (drop (Z.to_nat (g_fpos g)) bytes) in
      let words := words_of got in
      set_fpos (g_fpos g + Z.of_nat (length got));;;
      set_buffer (g_alloc g) (write_cells (Z.to_nat i) (Some <$> words) (g_buffer g)) (g_generation g);;;
      mret (Z.of_nat (length words))
  end.

(** The cells that [memmove] copies to the front. *)
Definition move_front (from n : Z) : RM unit :=
  g ← get_st;
  set_buffer (g_alloc g) (write_cells 0 (take (Z.to_nat n) (drop (Z.to_nat from) (g_buffer g))) (g_buffer g))
    (g_generation g).

(** Moving what is left to the front and filling the buffer up. *)
Definition refill (words excess : Z) : RM unit :=
  g ← get_st;
  let start := u32 (g_start g + g_offset g) in
  (if excess =? 0 then mret tt else move_front (g_offset g) excess);;;
  set_window start 0 excess;;;
  g ← get_st;
  (if g_alloc g <? u32 (g_length g + words) then gcov_allocate (u32 (g_length g + words)) else mret tt);;;
  g ← get_st;
  n ← fread_words (g_length g) (u32 (g_alloc g - g_length g));
  g ← get_st;
  set_window (g_start g) (g_offset g) (u32 (g_length g + n)).

Definition gcov_read_words (words : Z) : RM (option word_ptr) :=
  g ← get_st;
  let excess := u32 (g_length g - g_offset g) in
  if g_mode g <=? 0 then mret None else
  (if excess <? words then refill words excess else mret tt);;;
  g ← get_st;
  if (excess <? words) && (g_length g <? words) then
    set_overread (u32 (g_overread g + (words - g_length g)));;;
    set_window (g_start g) (g_offset g) 0;;;
    mret None
  else
    set_window (g_start g) (u32 (g_offset g + words)) (g_length g);;;
    mret (Some (mkPtr (g_generation g) (g_offset g))).

(** A word of the buffer. *)
Definition load_word (p : word_ptr) (k : Z) : RM Z :=
  g ← get_st;
  if Nat.eqb (wp_generation p) (g_generation g) then
    match g_buffer g !! Z.to_nat (wp_index p + k) with
    | Some (Some w) => mret w
    | Some None => raise (undefined "uninitialised word of the buffer")
    | None => raise (undefined "read past the end of the buffer")
    end
  else raise (undefined "pointer into a buffer that was reallocated").

Definition gcov_read_unsigned : RM Z :=
  p ← gcov_read_words 1;
  match p with None => mret 0 | Some p => w ← load_word p 0; from_file w end.

Definition gcov_read_string : RM (option word_ptr) :=
  length ← gcov_read_unsigned;
  if length =? 0 then mret None else gcov_read_words length.

Definition gcov_position : RM Z := g ← get_st; mret (u32 (g_start g + g_offset g)).

Definition gcov_sync (base len : Z) : RM unit :=
  let base := u32 (base + len) in
  g ← get_st;
  if u32 (base - g_start g) <=? g_length g then
    set_window (g_start g) (u32 (base - g_start g)) (g_length g)
  else
    set_window (g_start g) 0 0;;;
    set_fpos (u32 (4 * base));;;
    set_window (u32 (4 * base) / 4) 0 0.

Definition gcov_is_error : RM Z :=
  g ← get_st; mret (match g_file g with Some _ => g_error g | None => 1 end).

(** The C string at a pointer: the bytes of the words up to the first NUL; at
    most [n] words are looked at. *)
Fixpoint load_string (n : nat) (p : word_ptr) (k : Z) : RM string :=
  match n with
  | O => raise (undefined "unterminated string")
  | S n =>
      w ← load_word p k;
      let a := w mod 256 in let b := w / 256 mod 256 in
      let c := w / 65536 mod 256 in let d := w / 16777216 in
      let chr x := ascii_of_nat (Z.to_nat x) in
      if a =? 0 then mret EmptyString else
      if b =? 0 then mret (String (chr a) EmptyString) else
      if c =? 0 then mret (String (chr a) (String (chr b) EmptyString)) else
      if d =? 0 then mret (String (chr a) (String (chr b) (String (chr c) EmptyString))) else
      s ← load_string n p (k + 1);
      mret (String (chr a) (String (chr b) (String (chr c) (String (chr d) s))))
  end.

Definition c_string (p : word_ptr) : RM string :=
  g ← get_st; load_string (length (g_buffer g)) p 0.
End Reader.

(** ** The interface of gcov-io.h

    The operations the program that reads the notes calls; a string is used
    through the pointer [gcov_read_string] returns. *)
Class GcovReader (R : Type) := {
  rd_ptr : Type;
  rd_open : string -> M R exn bool;
  rd_close : M R exn Z;
  rd_magic : Z -> Z -> M R exn Z;
  rd_unsigned : M R exn Z;
  rd_position : M R exn Z;
  rd_sync : Z -> Z -> M R exn unit;
  rd_is_error : M R exn Z;
  rd_string : M R exn (option rd_ptr);
  rd_c_string : rd_ptr -> M R exn string
}.

Definition gcov_io (fopen : string -> option (list Z)) (mem_ok : Z -> bool) : GcovReader gcov_var := {|
  rd_ptr := word_ptr;
  rd_open := gcov_open fopen;
  rd_close := gcov_close;
  rd_magic := gcov_magic;
  rd_unsigned := gcov_read_unsigned mem_ok;
  rd_position := gcov_position;
  rd_sync := gcov_sync;
  rd_is_error := gcov_is_error;
  rd_string := gcov_read_string mem_ok;
  rd_c_string := c_string
|}.
