(* ===== verification/GcovIoProps.v ===== *)
(** * The buffered reader of .gcno files

    The reader behaves like a position in the sequence of the words of the file,
    whatever the moments at which the buffer is refilled, moved and enlarged. *)
From Stdlib Require Import Ascii String.
From S2P Require Import Prelude LockTypes GcovIo.
Local Open Scope list_scope.
Local Open Scope Z_scope.

(** ** Words and cells *)

Lemma words_of_take n : forall l, words_of (take (4 * n) l) = take n (words_of l).
Proof.
  induction n as [|n IH]; intros l; [by rewrite Nat.mul_0_r|].
  replace (4 * S n)%nat with (S (S (S (S (4 * n))))) by lia.
  destruct l as [|a [|b [|c [|d l]]]]; simpl; try done.
  f_equal. apply IH.
Qed.

Lemma words_of_drop n : forall l, words_of (drop (4 * n) l) = drop n (words_of l).
Proof.
  induction n as [|n IH]; intros l; [by rewrite Nat.mul_0_r|].
  replace (4 * S n)%nat with (S (S (S (S (4 * n))))) by lia.
  destruct l as [|a [|b [|c [|d l]]]]; try apply IH; by rewrite ?drop_nil.
Qed.

Lemma words_of_length l : (4 * length (words_of l) <= length l)%nat.
Proof.
  cut (forall n l, (length l <= n)%nat -> (4 * length (words_of l) <= length l)%nat); [eauto|].
  induction n as [|n IH]; intros [|a [|b [|c [|d k]]]] H; simpl in *; try lia.
  specialize (IH k ltac:(lia)). lia.
Qed.

Lemma words_of_short l n : (length l < 4 * n)%nat -> drop n (words_of l) = [].
Proof. intros H. apply drop_ge. pose proof (words_of_length l). lia. Qed.

Lemma write_cells_app l : forall (a b : list (option Z)),
  (length l <= length b)%nat -> write_cells (length a) l (a ++ b) = a ++ l ++ drop (length l) b.
Proof.
  induction l as [|x l IH]; intros a [|y b] H; simpl in *; try lia; [done..|].
  rewrite insert_app_r_alt, Nat.sub_diag by lia. simpl.
  replace (S (length a)) with (length (a ++ [x])) by (rewrite length_app; simpl; lia).
  replace (a ++ x :: b) with ((a ++ [x]) ++ b) by (by rewrite <-app_assoc).
  rewrite IH by lia. by rewrite <-app_assoc.
Qed.

Lemma write_cells_length l : forall i b, length (write_cells i l b) = length b.
Proof. induction l as [|x l IH]; intros i b; simpl; [done|]. by rewrite IH, length_insert. Qed.

(** ** The words still to be read *)

(** The largest number of words read at once for which the buffer stays below
    2^30 words. *)
Definition MAX_READ : Z := 2 ^ 26.
Definition MAX_ALLOC : Z := 2 ^ 29 + 2048.

(** The words of a file that fit into the first buffer. *)
Definition FIRST_BUFFER : Z := 2050.

(** The words that [fread] has not returned yet. *)
Definition unread (bytes : list Z) (fpos : Z) : list Z := words_of (drop (Z.to_nat fpos) bytes).

Record reads (W : list Z) (e : bool) (g : gcov_var) (p : Z) (s : list Z) (bytes B : list Z) : Prop := {
  rs_file : g_file g = Some bytes;
  rs_words : words_of bytes = W;
  rs_bytes : Z.of_nat (length bytes) < 2 ^ 32;
  rs_mode : g_mode g = 1;
  rs_error : g_error g = 0;
  rs_endian : g_endian g = e;
  rs_fpos : 0 <= g_fpos g;
  rs_alloc : g_alloc g = Z.of_nat (length (g_buffer g));
  rs_max : g_alloc g <= MAX_ALLOC;
  rs_B : g_length g = Z.of_nat (length B);
  rs_buffer : exists rest, g_buffer g = (Some <$> B) ++ rest;
  rs_start : 0 <= g_start g;
  rs_offset : 0 <= g_offset g <= g_length g;
  rs_pos : p = g_start g + g_offset g /\ p < 2 ^ 30;
  rs_stream : s = drop (Z.to_nat (g_offset g)) B ++ unread bytes (g_fpos g);
  rs_all : B ++ unread bytes (g_fpos g) = drop (Z.to_nat (g_start g)) W \/
           (B = [] /\ unread bytes (g_fpos g) = [])
}.

(** The reader is at word [p] of the file [W]; the words [s] can be read.  [e]
    tells whether the bytes of a number are swapped. *)
Definition at_words (W : list Z) (e : bool) (g : gcov_var) (p : Z) (s : list Z) : Prop :=
  exists bytes B, reads W e g p s bytes B.

(** The buffer holds the whole file, or will after the first read. *)
Definition kept (W : list Z) (g : gcov_var) : Prop :=
  g_start g = 0 /\
  (g_length g = Z.of_nat (length W) \/
   (g_length g = 0 /\ g_buffer g = [] /\ Z.of_nat (length W) <= FIRST_BUFFER)).

(** A pointer to the words [ws] in the buffer. *)
Definition points (g : gcov_var) (q : word_ptr) (ws : list Z) : Prop :=
  wp_generation q = g_generation g /\ 0 <= wp_index q /\ ws <> [] /\
  exists rest, drop (Z.to_nat (wp_index q)) (g_buffer g) = (Some <$> ws) ++ rest.

(** ** Refilling *)

Lemma move_front_run (g : gcov_var) (B : list Z) rest off :
  g_buffer g = (Some <$> B) ++ rest -> 0 <= off <= Z.of_nat (length B) ->
  exists rest', length (g_buffer g) = length ((Some <$> drop (Z.to_nat off) B) ++ rest') /\
    (let x := Z.of_nat (length B) - off in
     if x =? 0 then mret tt else move_front off x) g =
    inr (tt, mkGcov (g_file g) (g_fpos g) (g_start g) (g_offset g) (g_length g) (g_overread g) (g_error g)
      (g_mode g) (g_endian g) (g_alloc g) ((Some <$> drop (Z.to_nat off) B) ++ rest') (g_generation g)).
Proof.
  intros Hb Ho. cbv zeta. destruct (Z.eqb_spec (Z.of_nat (length B) - off) 0) as [Hx|Hx].
  - exists (g_buffer g). rewrite drop_ge by lia. split; [done|]. by destruct g.
  - exists (drop (length B - Z.to_nat off) (g_buffer g)). split.
    + rewrite Hb, !length_app, !length_fmap, !length_drop, length_app, length_fmap. lia.
    + unfold move_front, get_st, set_buffer, modify, mbind, M_bind. simpl. do 3 f_equal.
      replace (take _ _) with (Some <$> drop (Z.to_nat off) B).
      * pose proof (write_cells_app (Some <$> drop (Z.to_nat off) B) [] (g_buffer g)) as H. simpl in H.
        rewrite H; [by rewrite length_fmap, length_drop|].
        rewrite Hb, length_app, !length_fmap, length_drop. lia.
      * rewrite Hb, drop_app_le, fmap_drop by (rewrite length_fmap; lia).
        rewrite take_app_le, take_ge by (rewrite length_drop, length_fmap; lia). done.
Qed.

Section Reads.
Context (mem_ok : Z -> bool).
Hypothesis memory : forall n, n <= 2 ^ 30 -> mem_ok n = true.

(** Room for so many words. *)
Lemma allocate_run (g : gcov_var) (T : list Z) rest n :
  g_buffer g = (Some <$> T) ++ rest -> g_alloc g = Z.of_nat (length (g_buffer g)) -> g_alloc g <= MAX_ALLOC ->
  0 < n <= 2 * MAX_READ ->
  exists alloc rest' gen,
    (if g_alloc g <? n then gcov_allocate mem_ok n else mret tt) g =
    inr (tt, mkGcov (g_file g) (g_fpos g) (g_start g) (g_offset g) (g_length g) (g_overread g) (g_error g)
      (g_mode g) (g_endian g) alloc ((Some <$> T) ++ rest') gen) /\
    alloc = Z.of_nat (length ((Some <$> T) ++ rest')) /\ n <= alloc <= MAX_ALLOC /\
    (g_alloc g = 0 -> FIRST_BUFFER <= alloc).
Proof.
  unfold MAX_READ, MAX_ALLOC, FIRST_BUFFER. intros Hb Ha Hx Hn. destruct (Z.ltb_spec (g_alloc g) n) as [Hlt|Hge].
  - set (A := if g_alloc g =? 0 then GCOV_BLOCK_SIZE else g_alloc g).
    assert (HA : 0 < A <= 2 ^ 27 /\ g_alloc g <= A /\ (g_alloc g = 0 -> A = 1024)).
    { unfold A, GCOV_BLOCK_SIZE. destruct (Z.eqb_spec (g_alloc g) 0); lia. }
    exists ((A + n) * 2), (rest ++ replicate (Z.to_nat ((A + n) * 2 - g_alloc g)) None), (S (g_generation g)).
    split_and!; [|rewrite app_assoc, <-Hb, length_app, length_replicate; lia|lia|lia|intros H0; destruct HA as (_ & _ & HA); specialize (HA H0); lia].
    unfold gcov_allocate, get_st, mbind, M_bind. fold A.
    rewrite !u64_small by (rewrite ?u64_small; lia). rewrite memory by lia.
    unfold set_buffer, modify. rewrite Hb. by rewrite <-app_assoc.
  - exists (g_alloc g), rest, (g_generation g). split_and!; [|by rewrite <-Hb|lia|lia|intros; lia]. destruct g; simpl in *. by rewrite Hb.
Qed.

(** The words of the file behind the ones that are kept. *)
Lemma fread_run (g : gcov_var) (T : list Z) rest bytes :
  g_file g = Some bytes -> 0 <= g_fpos g -> g_buffer g = (Some <$> T) ++ rest ->
  g_alloc g = Z.of_nat (length (g_buffer g)) -> g_alloc g <= MAX_ALLOC ->
  g_length g = Z.of_nat (length T) ->
  let n := g_alloc g - g_length g in
  let V := take (Z.to_nat n) (unread bytes (g_fpos g)) in
  exists fpos rest',
    fread_words (g_length g) n g =
    inr (Z.of_nat (length V), mkGcov (g_file g) fpos (g_start g) (g_offset g) (g_length g) (g_overread g) (g_error g)
      (g_mode g) (g_endian g) (g_alloc g) ((Some <$> (T ++ V)) ++ rest') (g_generation g)) /\
    length ((Some <$> (T ++ V)) ++ rest') = length (g_buffer g) /\
    0 <= fpos /\ unread bytes fpos = drop (Z.to_nat n) (unread bytes (g_fpos g)).
Proof.
  intros Hf Hp Hb Ha Hx HT n V. unfold MAX_ALLOC in Hx.
  assert (Hlen : length (g_buffer g) = (length T + length rest)%nat) by (rewrite Hb, length_app, length_fmap; done).
  assert (Hn : 0 <= n <= 2 ^ 29 + 2048) by lia.
  set (got := take (Z.to_nat (4 * n)) (drop (Z.to_nat (g_fpos g)) bytes)).
  assert (Hgot : words_of got = V).
  { unfold got, V, unread. rewrite Z2Nat.inj_mul by lia. by rewrite words_of_take. }
  assert (HV : (length V <= length rest)%nat) by (unfold V; rewrite length_take; lia).
  exists (g_fpos g + Z.of_nat (length got)), (drop (length V) rest). split_and!.
  - unfold fread_words, get_st, set_fpos, set_buffer, modify, mbind, M_bind. rewrite Hf.
    rewrite u32_small by lia. fold got. rewrite Hgot. cbn [g_buffer g_alloc g_generation].
    unfold mret, M_ret. cbn. do 3 f_equal; [done|]. rewrite Hb, HT, Nat2Z.id.
    replace (length T) with (length (Some <$> T)) at 1 by apply length_fmap.
    rewrite write_cells_app by (rewrite length_fmap; done).
    by rewrite length_fmap, fmap_app, <-app_assoc.
  - rewrite Hlen, length_app, length_fmap, length_app, length_drop. lia.
  - lia.
  - unfold unread. rewrite <-words_of_drop, drop_drop. unfold got. rewrite length_take.
    destruct (decide (length (drop (Z.to_nat (g_fpos g)) bytes) <= Z.to_nat (4 * n))%nat) as [Hs|Hs].
    + rewrite (drop_ge bytes), (drop_ge bytes); [done|..]; rewrite length_drop in Hs; rewrite ?length_drop; lia.
    + do 2 f_equal. lia.
Qed.

(** A refill moves the words that are left to the front and puts those of the
    file behind them. *)
Lemma refill_run W e g p s bytes B n :
  reads W e g p s bytes B -> 0 < n <= MAX_READ -> g_length g - g_offset g < n ->
  exists g' B',
    refill mem_ok n (g_length g - g_offset g) g = inr (tt, g') /\
    reads W e g' p s bytes B' /\ g_offset g' = 0 /\
    g_start g' = p /\ n <= g_alloc g' /\ (g_alloc g = 0 -> FIRST_BUFFER <= g_alloc g') /\
    (Z.of_nat (length B') = g_alloc g' \/ unread bytes (g_fpos g') = []).
Proof.
  intros R Hn Hx. destruct R as [Rf Rw Rl Rm Rerr Ren Rp Ra Rx RB [rest Rb] Rs Ro [Rps Rpl] Rst Rall].
  destruct (move_front_run g B rest (g_offset g)) as (rest1 & Hl1 & Hmv); [done|lia|].
  set (T := drop (Z.to_nat (g_offset g)) B) in *.
  assert (HT : Z.of_nat (length T) = g_length g - g_offset g) by (unfold T; rewrite length_drop; lia).
  unfold MAX_READ in *. cbv zeta in Hmv. rewrite <-RB in Hmv.
  set (x := g_length g - g_offset g) in *.
  set (g1 := mkGcov (g_file g) (g_fpos g) (g_start g + g_offset g) 0 x (g_overread g)
    (g_error g) (g_mode g) (g_endian g) (g_alloc g) ((Some <$> T) ++ rest1) (g_generation g)).
  destruct (allocate_run g1 T rest1 (x + n)) as (alloc & rest2 & gen & Hal & Hal1 & Hal2 & Hal3);
    [done|simpl; congruence|done|unfold MAX_READ; lia|].
  simpl in Hal3.
  set (g2 := mkGcov (g_file g) (g_fpos g) (g_start g + g_offset g) 0 x (g_overread g)
    (g_error g) (g_mode g) (g_endian g) alloc ((Some <$> T) ++ rest2) gen).
  destruct (fread_run g2 T rest2 bytes) as (fpos & rest3 & Hfr & Hl3 & Hfp & Hun);
    [done|done|done|simpl; lia|simpl; lia|simpl; lia|].
  cbn [g_fpos g_alloc g_length g2] in Hl3, Hun, Hfr.
  set (U := unread bytes (g_fpos g)) in *. set (V := take (Z.to_nat (alloc - x)) U) in *.
  assert (HV : (length V <= Z.to_nat (alloc - x))%nat) by (unfold V; rewrite length_take; lia).
  unfold MAX_ALLOC in *.
  exists (mkGcov (g_file g) fpos (g_start g + g_offset g) 0 (x + Z.of_nat (length V)) (g_overread g)
    (g_error g) (g_mode g) (g_endian g) alloc ((Some <$> (T ++ V)) ++ rest3) gen), (T ++ V).
  split_and!.
  - unfold refill. etrans; [eapply dbind; reflexivity|]. cbv beta zeta.
    etrans; [eapply dbind; exact Hmv|]. etrans; [eapply dbind; reflexivity|].
    rewrite (u32_small (g_start g + g_offset g)) by lia. etrans; [eapply dbind; reflexivity|].
    cbn [g_alloc g_length]. rewrite (u32_small (x + n)) by lia.
    etrans; [eapply dbind; exact Hal|]. etrans; [eapply dbind; reflexivity|].
    cbn [g_alloc g_length g1]. rewrite (u32_small (alloc - x)) by lia.
    etrans; [eapply dbind; exact Hfr|]. etrans; [eapply dbind; reflexivity|].
    unfold set_window, modify. cbn. rewrite (u32_small (x + _)) by lia. done.
  - constructor; cbn [g_file g_fpos g_start g_offset g_length g_overread g_error g_mode g_endian g_alloc g_buffer
      g_generation]; try done; try lia.
    + rewrite Hl3. done.
    + unfold MAX_ALLOC. lia.
    + rewrite length_app. lia.
    + eexists. done.
    + rewrite Rst, Hun. unfold V. rewrite Z2Nat.inj_0, drop_0, <-app_assoc, take_drop. done.
    + rewrite Hun. unfold V. rewrite <-app_assoc, take_drop. destruct Rall as [Rall|[-> Hu]].
      * left. rewrite Z2Nat.inj_add, <-drop_drop, <-Rall by lia. unfold T.
        rewrite drop_app_le by lia. done.
      * right. unfold T. rewrite drop_nil. fold U in Hu. by rewrite Hu, take_nil, drop_nil.
  - done.
  - cbn. lia.
  - cbn. lia.
  - done.
  - cbn. rewrite length_app. destruct (decide (length U <= Z.to_nat (alloc - x))%nat) as [Hs|Hs].
    + right. rewrite Hun. by apply drop_ge.
    + left. assert (length V = Z.to_nat (alloc - x)) by (unfold V; rewrite length_take; lia). lia.
Qed.

(** A read within the words of the buffer. *)
Lemma take_words W e g p s bytes B n :
  reads W e g p s bytes B -> 0 < n -> g_offset g + n <= g_length g ->
  let g' := mkGcov (g_file g) (g_fpos g) (g_start g) (g_offset g + n) (g_length g) (g_overread g) (g_error g)
    (g_mode g) (g_endian g) (g_alloc g) (g_buffer g) (g_generation g) in
  at_words W e g' (p + n) (drop (Z.to_nat n) s) /\
  points g' (mkPtr (g_generation g) (g_offset g)) (take (Z.to_nat n) s) /\ n <= Z.of_nat (length s).
Proof.
  intros R Hn Hx g'. destruct R as [Rf Rw Rl Rm Rerr Ren Rp Ra Rx RB [rest Rb] Rs Ro [Rps Rpl] Rst Rall].
  assert (HT : (Z.to_nat n <= length (drop (Z.to_nat (g_offset g)) B))%nat) by (rewrite length_drop; lia).
  split_and!.
  - exists bytes, B. constructor; cbn [g_file g_fpos g_start g_offset g_length g_overread g_error g_mode g_endian
      g_alloc g_buffer g_generation g']; try done; try lia; [by eexists| |].
    + split; [lia|]. destruct Rall as [Rall|[-> _]]; [|simpl in RB; lia].
      apply (f_equal length) in Rall. rewrite length_app, length_drop in Rall.
      pose proof (words_of_length bytes) as Hw. rewrite Rw in Hw. lia.
    + rewrite Rst, drop_app_le, drop_drop by done. do 2 f_equal. lia.
  - split; [done|]. split; [simpl; lia|]. rewrite Rst, take_app_le by done. split.
    + intros H. apply (f_equal length) in H. rewrite length_take in H. simpl in H. lia.
    + cbn [g_buffer g' wp_index]. rewrite Rb, drop_app_le by (rewrite length_fmap; lia).
      exists (drop (Z.to_nat n) (drop (Z.to_nat (g_offset g)) (Some <$> B)) ++ rest).
      by rewrite <-fmap_drop, app_assoc, <-fmap_drop, <-fmap_app, take_drop.
  - rewrite Rst, length_app. lia.
Qed.

Lemma read_words_within W e g p s n :
  at_words W e g p s -> 0 < n <= MAX_READ -> n <= Z.of_nat (length s) ->
  exists q g', gcov_read_words mem_ok n g = inr (Some q, g') /\
    at_words W e g' (p + n) (drop (Z.to_nat n) s) /\ points g' q (take (Z.to_nat n) s) /\
    (kept W g -> kept W g' /\ forall q' ws, points g q' ws -> points g' q' ws).
Proof.
  intros (bytes & B & R) Hn Hs. pose proof R as [Rf Rw Rl Rm Rerr Ren Rp Ra Rx RB [rest Rb] Rs Ro [Rps Rpl] Rst Rall].
  assert (Hbl : g_length g <= g_alloc g) by (rewrite RB, Ra, Rb, length_app, length_fmap; lia).
  assert (Hx : u32 (g_length g - g_offset g) = g_length g - g_offset g)
    by (apply u32_small; unfold MAX_ALLOC in *; lia).
  assert (HW : g_start g = 0 -> W = B ++ unread bytes (g_fpos g)).
  { intros H0. destruct Rall as [Rall|[HB0 Hu]]; [by rewrite Rall, H0|]. subst B.
    rewrite Rst, Hu, drop_nil in Hs. simpl in Hs. lia. }
  unfold gcov_read_words. rewrite (dbind _ _ _ g g) by done. cbv zeta. rewrite Hx, Rm.
  change (1 <=? 0) with false. cbv iota.
  destruct (Z.ltb_spec (g_length g - g_offset g) n) as [Hlt|Hge].
  - destruct (refill_run _ _ _ _ _ _ _ _ R Hn Hlt) as (g1 & B1 & Hrun & R1 & Ho1 & Hs1 & Ha1 & Hf1 & Hd).
    rewrite (dbind _ _ _ tt g1) by done. cbv beta. rewrite (dbind _ _ _ g1 g1) by done.
    pose proof R1 as [_ _ _ _ _ _ _ _ _ RB1 _ _ _ _ Rst1 Rall1]. rewrite Ho1, Z2Nat.inj_0, drop_0 in Rst1.
    assert (HB1 : n <= g_length g1) by (destruct Hd as [Hd|Hd]; [lia|]; rewrite Rst1, Hd, app_nil_r in Hs; lia).
    rewrite (proj2 (Z.ltb_ge (g_length g1) n)) by done. cbn [andb]. cbv iota.
    destruct (take_words _ _ _ _ _ _ _ n R1) as (H1 & H2 & _); [lia..|].
    eexists _, _. split.
    { unfold set_window, modify, mbind, M_bind. rewrite u32_small by (unfold MAX_READ in *; lia). reflexivity. }
    split_and!; [exact H1|exact H2|]. intros [H0 Hk]. specialize (HW H0).
    destruct Hk as [Hk|(Hk & Hz & Hw)].
    + exfalso. apply (f_equal length) in HW. rewrite length_app in HW.
      rewrite Rst, length_app, length_drop in Hs. lia.
    + rewrite Hz in Ra. simpl in Ra. specialize (Hf1 Ra). split.
      * split; [cbn; lia|]. left. cbn [g_length]. rewrite RB1.
        assert (Hu1 : unread bytes (g_fpos g1) = []).
        { destruct Hd as [Hd|Hd]; [|done]. apply nil_length_inv. destruct Rall1 as [Rall1|[_ ->]]; [|done].
          apply (f_equal length) in Rall1. rewrite length_app, length_drop in Rall1. lia. }
        destruct Rall1 as [Rall1|[-> _]]; [|simpl in *; lia].
        apply (f_equal length) in Rall1. rewrite Hu1, app_nil_r, length_drop in Rall1. lia.
      * intros q' ws (_ & _ & Hws & rest' & Hp). rewrite Hz, drop_nil in Hp. by destruct ws.
  - rewrite (dbind _ _ _ tt g) by done. cbv beta. rewrite (dbind _ _ _ g g) by done. cbn [andb]. cbv iota.
    destruct (take_words _ _ _ _ _ _ _ n R) as (H1 & H2 & _); [lia..|].
    eexists _, _. split.
    { unfold set_window, modify, mbind, M_bind. rewrite u32_small by (unfold MAX_ALLOC in *; lia). reflexivity. }
    split_and!; [exact H1|exact H2|]. intros Hk. split; [exact Hk|]. intros q' ws Hp. exact Hp.
Qed.

(** A read past the end: no words from now on. *)
Lemma read_words_beyond W e g p s n :
  at_words W e g p s -> 0 < n <= MAX_READ -> Z.of_nat (length s) < n ->
  exists g', gcov_read_words mem_ok n g = inr (None, g') /\ at_words W e g' p [].
Proof.
  intros (bytes & B & R) Hn Hs. pose proof R as [Rf Rw Rl Rm Rerr Ren Rp Ra Rx RB [rest Rb] Rs Ro [Rps Rpl] Rst Rall].
  assert (Hbl : g_length g <= g_alloc g) by (rewrite RB, Ra, Rb, length_app, length_fmap; lia).
  assert (Hx : u32 (g_length g - g_offset g) = g_length g - g_offset g)
    by (apply u32_small; unfold MAX_ALLOC in *; lia).
  assert (Hlt : g_length g - g_offset g < n) by (rewrite Rst, length_app, length_drop in Hs; lia).
  destruct (refill_run _ _ _ _ _ _ _ _ R Hn Hlt) as (g1 & B1 & Hrun & R1 & Ho1 & _ & Ha1 & _ & Hd).
  unfold gcov_read_words. rewrite (dbind _ _ _ g g) by done. cbv zeta. rewrite Hx, Rm. change (1 <=? 0) with false. cbv iota.
  rewrite (proj2 (Z.ltb_lt _ n) Hlt), (dbind _ _ _ tt g1) by done. cbv beta. rewrite (dbind _ _ _ g1 g1) by done.
  destruct R1 as [Rf1 Rw1 Rl1 Rm1 Rerr1 Ren1 Rp1 Rma1 Rx1 RB1 [rest1 Rb1] Rs1 Ro1 [Rps1 Rpl1] Rst1 Rall1].
  rewrite Rst1, length_app, length_drop, Ho1 in Hs.
  assert (HB1 : g_length g1 < n) by lia. rewrite (proj2 (Z.ltb_lt _ n) HB1). cbn [andb]. cbv iota.
  assert (Hu : unread bytes (g_fpos g1) = []) by (destruct Hd; [lia|done]).
  eexists. split; [unfold set_overread, set_window, modify, mbind, M_bind, mret, M_ret; reflexivity|].
  exists bytes, []. constructor; cbn [g_file g_fpos g_start g_offset g_length g_overread g_error g_mode g_endian
      g_alloc g_buffer g_generation]; try done; try lia.
  - by exists (g_buffer g1).
  - by rewrite drop_nil.
  - by right.
Qed.

(** ** The operations *)

(** A word as a number. *)
Definition number (e : bool) (w : Z) : Z := if e then bswap32 w else w.

Lemma from_file_run w g : from_file w g = inr (number (g_endian g) w, g).
Proof. done. Qed.

Lemma at_words_endian W e g p s : at_words W e g p s -> g_endian g = e.
Proof. intros (bytes & B & []). done. Qed.

Lemma load_word_run g q ws k w :
  points g q ws -> 0 <= k -> ws !! Z.to_nat k = Some w -> load_word q k g = inr (w, g).
Proof.
  intros (Hg & Hi & _ & rest & Hp) Hk Hw. unfold load_word. rewrite (dbind _ _ _ g g) by done.
  rewrite Hg, Nat.eqb_refl, Z2Nat.inj_add by lia.
  rewrite <-lookup_drop, Hp, lookup_app_l, list_lookup_fmap, Hw; [done|].
  rewrite length_fmap. by eapply lookup_lt_Some.
Qed.

Lemma read_unsigned_within W e g p w s :
  at_words W e g p (w :: s) ->
  exists g', gcov_read_unsigned mem_ok g = inr (number e w, g') /\ at_words W e g' (p + 1) s /\
    (kept W g -> kept W g' /\ forall q ws, points g q ws -> points g' q ws).
Proof.
  intros R. destruct (read_words_within _ _ _ _ _ 1 R) as (q & g' & Hrun & R' & Hq & Hk);
    [unfold MAX_READ; lia|simpl; lia|].
  exists g'. split_and!; [|exact R'|exact Hk].
  unfold gcov_read_unsigned. rewrite (dbind _ _ _ _ _ Hrun). cbv beta iota.
  rewrite (dbind _ _ _ w g') by (by eapply load_word_run; [exact Hq| |]).
  cbv beta. by rewrite from_file_run, (at_words_endian _ _ _ _ _ R').
Qed.

Lemma read_unsigned_beyond W e g p :
  at_words W e g p [] -> exists g', gcov_read_unsigned mem_ok g = inr (0, g') /\ at_words W e g' p [].
Proof.
  intros R. destruct (read_words_beyond _ _ _ _ _ 1 R) as (g' & Hrun & R'); [unfold MAX_READ; lia|simpl; lia|].
  exists g'. split; [|done]. unfold gcov_read_unsigned. by rewrite (dbind _ _ _ _ _ Hrun).
Qed.

(** A string: its number of words, and the words. *)
Lemma read_string_within W e g p w s :
  at_words W e g p (w :: s) -> 0 < number e w <= MAX_READ -> number e w <= Z.of_nat (length s) ->
  exists q g', gcov_read_string mem_ok g = inr (Some q, g') /\
    at_words W e g' (p + 1 + number e w) (drop (Z.to_nat (number e w)) s) /\
    points g' q (take (Z.to_nat (number e w)) s) /\
    (kept W g -> kept W g' /\ forall q ws, points g q ws -> points g' q ws).
Proof.
  intros R Hn Hs. destruct (read_unsigned_within _ _ _ _ _ _ R) as (g1 & Hrun1 & R1 & Hk1).
  destruct (read_words_within _ _ _ _ _ _ R1 Hn Hs) as (q & g2 & Hrun2 & R2 & Hq & Hk2).
  exists q, g2. split_and!; [|exact R2|exact Hq|].
  - unfold gcov_read_string. rewrite (dbind _ _ _ _ _ Hrun1). cbv beta.
    by rewrite (proj2 (Z.eqb_neq _ _)) by lia.
  - intros Hk. destruct (Hk1 Hk) as [Hk' Hp1]. destruct (Hk2 Hk') as [Hk'' Hp2]. eauto.
Qed.

Lemma read_string_null W e g p w s :
  at_words W e g p (w :: s) -> number e w = 0 ->
  exists g', gcov_read_string mem_ok g = inr (None, g') /\ at_words W e g' (p + 1) s /\
    (kept W g -> kept W g' /\ forall q ws, points g q ws -> points g' q ws).
Proof.
  intros R Hn. destruct (read_unsigned_within _ _ _ _ _ _ R) as (g1 & Hrun1 & R1 & Hk1).
  exists g1. split_and!; [|exact R1|exact Hk1].
  unfold gcov_read_string. rewrite (dbind _ _ _ _ _ Hrun1). cbv beta. by rewrite Hn.
Qed.

Lemma read_string_beyond W e g p s :
  at_words W e g p s ->
  match s with [] => True | w :: s => 0 < number e w <= MAX_READ /\ Z.of_nat (length s) < number e w end ->
  exists g', gcov_read_string mem_ok g = inr (None, g') /\
    at_words W e g' (match s with [] => p | _ => p + 1 end) [].
Proof.
  intros R Hs. unfold gcov_read_string. destruct s as [|w s].
  - destruct (read_unsigned_beyond _ _ _ _ R) as (g1 & Hrun1 & R1). exists g1.
    by rewrite (dbind _ _ _ _ _ Hrun1).
  - destruct Hs as [Hn Hs]. destruct (read_unsigned_within _ _ _ _ _ _ R) as (g1 & Hrun1 & R1 & _).
    destruct (read_words_beyond _ _ _ _ _ _ R1 Hn Hs) as (g2 & Hrun2 & R2). exists g2. split; [|done].
    rewrite (dbind _ _ _ _ _ Hrun1). cbv beta. by rewrite (proj2 (Z.eqb_neq _ _)) by lia.
Qed.

Lemma position_run W e g p s : at_words W e g p s -> gcov_position g = inr (p, g).
Proof.
  intros (bytes & B & []). unfold gcov_position, get_st, mbind, M_bind, mret, M_ret.
  rewrite u32_small by lia. by rewrite (proj1 rs_pos0).
Qed.

Lemma is_error_run W e g p s : at_words W e g p s -> gcov_is_error g = inr (0, g).
Proof.
  intros (bytes & B & []). unfold gcov_is_error, get_st, mbind, M_bind, mret, M_ret. by rewrite rs_file0, rs_error0.
Qed.

(** Seeking: in the buffer or in the file; at the place of a failed read the
    end of the file stays. *)
Lemma sync_run W e g p s base len :
  at_words W e g p s ->
  let t := u32 (base + len) mod 2 ^ 30 in
  exists g', gcov_sync base len g = inr (tt, g') /\
    at_words W e g' t (if u32 (base + len) =? p then s else drop (Z.to_nat t) W) /\
    (0 < p -> 0 <= base + len <= Z.of_nat (length W) -> kept W g ->
     kept W g' /\ forall q ws, points g q ws -> points g' q ws).
Proof.
  intros (bytes & B & R). pose proof R as [Rf Rw Rl Rm Rerr Ren Rp Ra Rx RB [rest Rb] Rs Ro [Rps Rpl] Rst Rall].
  assert (Hbl : g_length g <= MAX_ALLOC) by (rewrite Ra, Rb, length_app, length_fmap in Rx; lia).
  assert (HW : Z.of_nat (length W) < 2 ^ 30) by (pose proof (words_of_length bytes) as Hw; rewrite Rw in Hw; lia).
  assert (HBW : g_start g + g_length g < 2 ^ 30).
  { destruct Rall as [Rall|[-> _]]; [|simpl in RB; lia]. apply (f_equal length) in Rall.
    rewrite length_app, length_drop in Rall. lia. }
  unfold MAX_ALLOC in Hbl. intros t. unfold gcov_sync. rewrite (dbind _ _ _ g g) by done. cbv zeta.
  set (b := u32 (base + len)) in *. assert (Hb : 0 <= b < 2 ^ 32) by (apply wrap_range; lia).
  assert (Hin : u32 (b - g_start g) = if b <? g_start g then b - g_start g + 2 ^ 32 else b - g_start g).
  { destruct (Z.ltb_spec b (g_start g)) as [H|H]; [|apply u32_small; lia].
    unfold u32, wrap. rewrite <-(Z.mod_add _ 1), Z.mul_1_l by lia. apply Z.mod_small. lia. }
  rewrite Hin. destruct (Z.leb_spec (if b <? g_start g then b - g_start g + 2 ^ 32 else b - g_start g) (g_length g))
    as [Hle|Hgt].
  - destruct (Z.ltb_spec b (g_start g)) as [H|H]; [lia|].
    assert (Ht : t = b) by (apply Z.mod_small; lia). rewrite Ht.
    eexists. split; [reflexivity|]. split.
    + exists bytes, B. constructor; cbn [g_file g_fpos g_start g_offset g_length g_overread g_error g_mode g_endian
        g_alloc g_buffer g_generation]; try done; try lia; [by eexists|].
      destruct (Z.eqb_spec b p) as [->|Hp]; [rewrite Rst; do 2 f_equal; lia|].
      destruct Rall as [Rall|[-> _]]; [|simpl in RB; lia].
      rewrite <-(drop_app_le B) by lia. rewrite Rall, drop_drop. f_equal. lia.
    + intros _ _ Hk. split; [exact Hk|]. intros q ws Hq. exact Hq.
  - assert (Hf : u32 (4 * b) = 4 * t).
    { unfold u32, wrap, t. change (2 ^ 32) with (4 * 2 ^ 30). by rewrite Z.mul_mod_distr_l by lia. }
    assert (Ht : 0 <= t < 2 ^ 30) by (apply Z.mod_pos_bound; lia).
    eexists. split; [reflexivity|]. rewrite Hf, Z.mul_comm, Z.div_mul by lia.
    assert (Hu : unread bytes (t * 4) = drop (Z.to_nat t) W).
    { unfold unread. rewrite <-Rw, <-words_of_drop. do 2 f_equal. lia. }
    split.
    + exists bytes, []. constructor; cbn [g_file g_fpos g_start g_offset g_length g_overread g_error g_mode g_endian
        g_alloc g_buffer g_generation]; try done; try lia; [by exists (g_buffer g)| |].
      * rewrite Z2Nat.inj_0, drop_0, Hu. simpl. destruct (Z.eqb_spec b p) as [Hp|_]; [|done].
        rewrite (proj2 (Z.ltb_ge b _)) in Hgt by lia. lia.
      * left. by rewrite Hu.
    + intros Hp Hbl' [H0 Hk]. assert (Hbb : b = base + len) by (unfold b; apply u32_small; lia).
      destruct Hk as [Hk|(Hk & _)]; [|lia]. rewrite H0 in *. destruct (Z.ltb_spec b 0); lia.
Qed.
End Reads.

(** ** Strings *)

Definition bytes_of_word (w : Z) : list Z := [w mod 256; w / 256 mod 256; w / 65536 mod 256; w / 16777216].

(** The characters before the first NUL. *)
Fixpoint until_nul (l : list Z) : option string :=
  match l with
  | [] => None
  | b :: l => if b =? 0 then Some EmptyString else String (ascii_of_nat (Z.to_nat b)) <$> until_nul l
  end.

Definition words_string (ws : list Z) : option string := until_nul (concat (map bytes_of_word ws)).

Lemma load_string_run g q ws : points g q ws -> forall l n k s,
  0 <= k -> drop (Z.to_nat k) ws = l -> words_string l = Some s -> (length l <= n)%nat ->
  load_string n q k g = inr (s, g).
Proof.
  intros Hq. induction l as [|w l IH]; intros n k s Hk Hl Hs Hn; [done|]. destruct n as [|n]; [simpl in Hn; lia|].
  assert (Hw : ws !! Z.to_nat k = Some w) by (rewrite <-(Nat.add_0_r (Z.to_nat k)), <-lookup_drop, Hl; done).
  cbn [load_string]. rewrite (dbind _ _ _ _ _ (load_word_run _ _ _ _ _ Hq Hk Hw)). cbv beta zeta.
  unfold words_string in Hs. cbn [map concat app bytes_of_word until_nul] in Hs.
  repeat (destruct (_ =? 0); [by injection Hs as <-|];
    match type of Hs with _ <$> _ = _ => apply fmap_Some in Hs as (? & Hs & ->) end).
  assert (Hl' : drop (Z.to_nat (k + 1)) ws = l) by (rewrite Z2Nat.inj_add, <-drop_drop, Hl by lia; done).
  by rewrite (dbind _ _ _ _ _ (IH n (k + 1) _ ltac:(lia) Hl' Hs ltac:(simpl in Hn; lia))).
Qed.

Lemma c_string_run g q ws s : points g q ws -> words_string ws = Some s -> c_string q g = inr (s, g).
Proof.
  intros Hq Hs. unfold c_string. rewrite (dbind _ _ _ g g) by done.
  apply (load_string_run _ _ _ Hq ws); [lia|done|done|].
  destruct Hq as (_ & _ & _ & rest & Hp). apply (f_equal length) in Hp.
  rewrite length_drop, length_app, length_fmap in Hp. lia.
Qed.

Lemma load_string_any q g n : forall k,
  (exists s, load_string n q k g = inr (s, g)) \/ exists m, load_string n q k g = inl (undefined m).
Proof.
  induction n as [|n IH]; intros k; [right; by eexists|].
  cbn [load_string]. unfold load_word, get_st, mbind, M_bind.
  destruct (Nat.eqb _ _); [|right; by eexists].
  destruct (_ !! _) as [[w|]|]; [|right; by eexists..]. cbn [mret M_ret]. cbv zeta.
  repeat (destruct (_ =? 0); [left; by eexists|]).
  destruct (IH (k + 1)) as [[s Hs]|[m Hm]]; [left|right].
  - rewrite Hs. by eexists.
  - rewrite Hm. by eexists.
Qed.

(** Reading a string through any pointer does not change the reader; it fails
    only where C leaves the behaviour undefined. *)
Lemma c_string_any g q : (exists s, c_string q g = inr (s, g)) \/ exists m, c_string q g = inl (undefined m).
Proof. apply load_string_any. Qed.

(** ** Opening and closing *)

Record closed_reader (g : gcov_var) : Prop := {
  cl_file : g_file g = None; cl_alloc : g_alloc g = 0; cl_buffer : g_buffer g = []; cl_error : g_error g = 0 }.

Lemma closed_init : closed_reader gcov_init.
Proof. done. Qed.

Lemma open_run fopen name bytes g :
  closed_reader g -> fopen name = Some bytes -> Z.of_nat (length bytes) < 2 ^ 32 ->
  exists g', gcov_open fopen name g = inr (true, g') /\
    at_words (words_of bytes) false g' 0 (words_of bytes) /\
    (Z.of_nat (length (words_of bytes)) <= FIRST_BUFFER -> kept (words_of bytes) g').
Proof.
  intros [Hf Ha Hb He] Hn Hl. unfold gcov_open. rewrite Hn. eexists. split; [reflexivity|]. split.
  - exists bytes, []. constructor; cbn; try done; try lia; [by rewrite Ha, Hb|rewrite Ha; unfold MAX_ALLOC; lia|by exists (g_buffer g)|by left].
  - intros Hs. split; [done|]. right. done.
Qed.

Lemma open_missing fopen name g :
  closed_reader g -> fopen name = None -> exists g', gcov_open fopen name g = inr (false, g') /\ closed_reader g'.
Proof. intros [Hf Ha Hb He] Hn. unfold gcov_open. rewrite Hn. by eexists. Qed.

Lemma close_run W e g p s :
  at_words W e g p s -> exists g', gcov_close g = inr (0, g') /\ closed_reader g'.
Proof. intros (bytes & B & []). unfold gcov_close. rewrite rs_error0. by eexists. Qed.

(** The byte order is that of the magic number. *)
Lemma magic_run W e g p s magic expected :
  at_words W e g p s ->
  let r := if magic =? expected then 1 else if bswap32 magic =? expected then -1 else 0 in
  exists g', gcov_magic magic expected g = inr (r, g') /\ at_words W (e || (r =? -1)) g' p s /\
    (kept W g -> kept W g').
Proof.
  intros R r. unfold r, gcov_magic. destruct (magic =? expected); [exists g; by rewrite orb_false_r|].
  destruct (bswap32 magic =? expected); [|exists g; by rewrite orb_false_r].
  eexists. split; [reflexivity|]. split; [|intros Hk; exact Hk].
  destruct R as (bytes & B & []). exists bytes, B. constructor; try done. by rewrite orb_true_r.
Qed.

(** ** The abstract reader

    A position, the words that can still be read from there, and the byte order.
    Where the contract of the reader ends - a string without NUL, or of more
    than 2^26 words - the specification has no result. *)
Record words_reader := mkWords { wr_pos : Z; wr_rest : list Z; wr_swapped : bool }.

Inductive gcov_call :=
  | call_unsigned
  | call_string
  | call_position
  | call_magic (magic expected : Z)
  | call_sync (base len : Z)
  | call_is_error.

Inductive gcov_result := res_number (n : Z) | res_string (s : option string) | res_none.

Definition spec_string (e : bool) (s : list Z) : option (option string * Z * list Z) :=
  match s with
  | [] => Some (None, 0, [])
  | w :: s =>
      let n := number e w in
      if n =? 0 then Some (None, 1, s) else
      if (n <? 0) || (MAX_READ <? n) then None else
      if Z.of_nat (length s) <? n then Some (None, 1, []) else
      str ← words_string (take (Z.to_nat n) s);
      Some (Some str, 1 + n, drop (Z.to_nat n) s)
  end.

Definition spec_call (W : list Z) (c : gcov_call) (r : words_reader) : option (gcov_result * words_reader) :=
  match c with
  | call_unsigned =>
      Some match wr_rest r with
      | [] => (res_number 0, r)
      | w :: s => (res_number (number (wr_swapped r) w), mkWords (wr_pos r + 1) s (wr_swapped r))
      end
  | call_string =>
      '(str, d, s) ← spec_string (wr_swapped r) (wr_rest r);
      Some (res_string str, mkWords (wr_pos r + d) s (wr_swapped r))
  | call_position => Some (res_number (wr_pos r), r)
  | call_magic m x =>
      let a := if m =? x then 1 else if bswap32 m =? x then -1 else 0 in
      Some (res_number a, mkWords (wr_pos r) (wr_rest r) (wr_swapped r || (a =? -1)))
  | call_sync base len =>
      let t := u32 (base + len) mod 2 ^ 30 in
      Some (res_none, mkWords t (if u32 (base + len) =? wr_pos r then wr_rest r else drop (Z.to_nat t) W) (wr_swapped r))
  | call_is_error => Some (res_number 0, r)
  end.

Fixpoint spec_calls (W : list Z) (cs : list gcov_call) (r : words_reader) : option (list gcov_result * words_reader) :=
  match cs with
  | [] => Some ([], r)
  | c :: cs => '(a, r) ← spec_call W c r; '(l, r) ← spec_calls W cs r; Some (a :: l, r)
  end.

(** The same calls of the program. *)
Definition run_call (mem_ok : Z -> bool) (c : gcov_call) : RM gcov_result :=
  match c with
  | call_unsigned => n ← gcov_read_unsigned mem_ok; mret (res_number n)
  | call_string =>
      q ← gcov_read_string mem_ok;
      match q with
      | None => mret (res_string None)
      | Some q => s ← c_string q; mret (res_string (Some s))
      end
  | call_position => n ← gcov_position; mret (res_number n)
  | call_magic m x => n ← gcov_magic m x; mret (res_number n)
  | call_sync base len => gcov_sync base len;;; mret res_none
  | call_is_error => n ← gcov_is_error; mret (res_number n)
  end.

Fixpoint run_calls (mem_ok : Z -> bool) (cs : list gcov_call) : RM (list gcov_result) :=
  match cs with
  | [] => mret []
  | c :: cs => a ← run_call mem_ok c; l ← run_calls mem_ok cs; mret (a :: l)
  end.

Definition refines (W : list Z) (g : gcov_var) (r : words_reader) : Prop :=
  at_words W (wr_swapped r) g (wr_pos r) (wr_rest r).

Lemma string_call_refines mem_ok W g r a r' :
  (forall n, n <= 2 ^ 30 -> mem_ok n = true) -> refines W g r -> spec_call W call_string r = Some (a, r') ->
  exists g', run_call mem_ok call_string g = inr (a, g') /\ refines W g' r'.
Proof.
  intros Hmem R Hs. destruct r as [p s e]. unfold refines in R. cbn [spec_call wr_pos wr_rest wr_swapped] in *.
  apply bind_Some in Hs as ([[str d] s'] & Hs & Ha). injection Ha as <- <-. unfold refines, run_call.
  cbn [wr_pos wr_rest wr_swapped]. unfold spec_string in Hs. destruct s as [|w s].
  - injection Hs as <- <- <-. destruct (read_string_beyond _ Hmem _ _ _ _ _ R I) as (g1 & Hrun & R1).
    exists g1. rewrite (dbind _ _ _ _ _ Hrun), Z.add_0_r. done.
  - destruct (Z.eqb_spec (number e w) 0) as [H0|H0].
    { injection Hs as <- <- <-. destruct (read_string_null _ Hmem _ _ _ _ _ _ R H0) as (g1 & Hrun & R1 & _).
      exists g1. by rewrite (dbind _ _ _ _ _ Hrun). }
    destruct (Z.ltb_spec (number e w) 0); [done|]. destruct (Z.ltb_spec MAX_READ (number e w)); [done|].
    simpl orb in Hs. cbv iota in Hs. assert (Hn : 0 < number e w <= MAX_READ) by lia.
    destruct (Z.ltb_spec (Z.of_nat (length s)) (number e w)) as [Hl|Hl].
    + injection Hs as <- <- <-.
      destruct (read_string_beyond _ Hmem _ _ _ _ _ R (conj Hn Hl)) as (g1 & Hrun & R1).
      exists g1. by rewrite (dbind _ _ _ _ _ Hrun).
    + apply bind_Some in Hs as (st & Hst & Ha). injection Ha as <- <- <-.
      destruct (read_string_within _ Hmem _ _ _ _ _ _ R Hn Hl) as (q & g1 & Hrun & R1 & Hq & _).
      exists g1. rewrite (dbind _ _ _ _ _ Hrun). cbv beta iota.
      rewrite (dbind _ _ _ _ _ (c_string_run _ _ _ _ Hq Hst)). split; [done|].
      by replace (p + (1 + number e w)) with (p + 1 + number e w) by lia.
Qed.

Lemma call_refines mem_ok W g r c a r' :
  (forall n, n <= 2 ^ 30 -> mem_ok n = true) -> refines W g r -> spec_call W c r = Some (a, r') ->
  exists g', run_call mem_ok c g = inr (a, g') /\ refines W g' r'.
Proof.
  intros Hmem R Hs. destruct c as [| | |m x|base len|]; [|by eapply string_call_refines|..];
    destruct r as [p s e]; unfold refines in *; cbn [spec_call wr_pos wr_rest wr_swapped run_call] in *.
  - injection Hs as Hs. destruct s as [|w s]; injection Hs as <- <-; cbn [wr_pos wr_rest wr_swapped].
    + destruct (read_unsigned_beyond _ Hmem _ _ _ _ R) as (g1 & Hrun & R1). exists g1. by rewrite (dbind _ _ _ _ _ Hrun).
    + destruct (read_unsigned_within _ Hmem _ _ _ _ _ _ R) as (g1 & Hrun & R1 & _). exists g1.
      by rewrite (dbind _ _ _ _ _ Hrun).
  - injection Hs as <- <-. exists g. by rewrite (dbind _ _ _ _ _ (position_run _ _ _ _ _ R)).
  - apply (inj Some), pair_equal_spec in Hs as [<- <-]. destruct (magic_run _ _ _ _ _ m x R) as (g1 & Hrun & R1 & _). exists g1.
    by rewrite (dbind _ _ _ _ _ Hrun).
  - apply (inj Some), pair_equal_spec in Hs as [<- <-]. destruct (sync_run _ _ _ _ _ base len R) as (g1 & Hrun & R1 & _). exists g1.
    by rewrite (dbind _ _ _ _ _ Hrun).
  - injection Hs as <- <-. exists g. by rewrite (dbind _ _ _ _ _ (is_error_run _ _ _ _ _ R)).
Qed.

Lemma calls_refine mem_ok W cs :
  (forall n, n <= 2 ^ 30 -> mem_ok n = true) -> forall g r l r',
  refines W g r -> spec_calls W cs r = Some (l, r') ->
  exists g', run_calls mem_ok cs g = inr (l, g') /\ refines W g' r'.
Proof.
  intros Hmem. induction cs as [|c cs IH]; intros g r l r' R Hs; cbn [spec_calls run_calls] in *.
  { injection Hs as <- <-. by exists g. }
  apply bind_Some in Hs as ([a r1] & Ha & Hs). apply bind_Some in Hs as ([l1 r2] & Hl & Hs). injection Hs as <- <-.
  destruct (call_refines _ _ _ _ _ _ _ Hmem R Ha) as (g1 & Hrun1 & R1).
  destruct (IH _ _ _ _ R1 Hl) as (g2 & Hrun2 & R2). exists g2. split; [|done].
  rewrite (dbind _ _ _ _ _ Hrun1). cbv beta. by rewrite (dbind _ _ _ _ _ Hrun2).
Qed.

(** (C20) The buffered reader refines a position in the words of the file.  For
    any sequence of calls within the contract - numbers, strings, the position,
    the magic number and seeks to any place - the reader of an opened file returns
    what the abstract reader returns: the buffer is refilled, its rest moved to
    the front and it is enlarged without a word being lost, repeated or read
    where it is not initialised; past the end numbers are zero and strings null;
    closing gives the buffer back. *)
Theorem gcov_reader_refines fopen mem_ok name bytes g cs results r :
  (forall n, n <= 2 ^ 30 -> mem_ok n = true) -> fopen name = Some bytes -> Z.of_nat (length bytes) < 2 ^ 32 ->
  closed_reader g -> spec_calls (words_of bytes) cs (mkWords 0 (words_of bytes) false) = Some (results, r) ->
  exists g1 g2 g3, gcov_open fopen name g = inr (true, g1) /\ run_calls mem_ok cs g1 = inr (results, g2) /\
    gcov_close g2 = inr (0, g3) /\ closed_reader g3.
Proof.
  intros Hmem Hn Hl Hc Hs. destruct (open_run _ _ _ _ Hc Hn Hl) as (g1 & Hopen & R1 & _).
  destruct (calls_refine mem_ok (words_of bytes) cs Hmem g1 (mkWords 0 (words_of bytes) false) results r R1 Hs) as (g2 & Hrun & R2).
  destruct (close_run _ _ _ _ _ R2) as (g3 & Hclose & Hg3). by exists g1, g2, g3.
Qed.

(** Numbers, a string, a seek back and reads past the end of a file of 9000
    words, which takes several refills. *)
Definition sample_bytes : list Z := concat (replicate 2250 [5; 0; 0; 0; 2; 0; 0; 0; 97; 98; 99; 100; 101; 102; 0; 0]).
Definition sample_calls : list gcov_call :=
  concat (replicate 1500 [call_unsigned; call_string]) ++
  [call_position; call_sync 3000 1; call_string; call_sync 8998 0; call_unsigned; call_unsigned; call_unsigned; call_string].

Definition sample_results : list gcov_result :=
  concat (replicate 1500 [res_number 5; res_string (Some "abcdef")]) ++
  [res_number 6000; res_none; res_string (Some "abcdef"); res_none; res_number 1684234849; res_number 26213;
   res_number 0; res_string None].

Lemma gcov_reader_refines_witness :
  exists g1 g2 g3,
    gcov_open (fun _ => Some sample_bytes) "a.gcno" gcov_init = inr (true, g1) /\
    run_calls (fun n => n <=? 2 ^ 30) sample_calls g1 = inr (sample_results, g2) /\
    gcov_close g2 = inr (0, g3) /\ closed_reader g3.
Proof.
  apply (gcov_reader_refines (fun _ => Some sample_bytes) (fun n => n <=? 2 ^ 30) "a.gcno" sample_bytes gcov_init
    sample_calls sample_results (mkWords 9000 [] false)).
  - intros n H. by apply Z.leb_le.
  - reflexivity.
  - vm_compute. reflexivity.
  - exact closed_init.
  - vm_compute. reflexivity.
Defined.

(** ** What the reader promises to its client

    [rd_at] is the position in the words of the open file, [rd_kept] that the
    buffer keeps the whole file, so that a pointer to a string stays valid. *)
Class GcovReaderLaws (R : Type) `{GcovReader R} (fopen : string -> option (list Z)) := {
  rd_at : list Z -> bool -> R -> Z -> list Z -> Prop;
  rd_kept : list Z -> R -> Prop;
  rd_points : R -> rd_ptr -> list Z -> Prop;
  rd_closed : R -> Prop;
  law_open name bytes r : rd_closed r -> fopen name = Some bytes -> Z.of_nat (length bytes) < 2 ^ 32 ->
    exists r', rd_open name r = inr (true, r') /\ rd_at (words_of bytes) false r' 0 (words_of bytes) /\
      (Z.of_nat (length (words_of bytes)) <= FIRST_BUFFER -> rd_kept (words_of bytes) r');
  law_missing name r : rd_closed r -> fopen name = None ->
    exists r', rd_open name r = inr (false, r') /\ rd_closed r';
  law_close W e r p s : rd_at W e r p s -> exists r', rd_close r = inr (0, r') /\ rd_closed r';
  law_magic W e r p s m x : rd_at W e r p s ->
    let a := if m =? x then 1 else if bswap32 m =? x then -1 else 0 in
    exists r', rd_magic m x r = inr (a, r') /\ rd_at W (e || (a =? -1)) r' p s /\ (rd_kept W r -> rd_kept W r');
  law_unsigned W e r p w s : rd_at W e r p (w :: s) ->
    exists r', rd_unsigned r = inr (number e w, r') /\ rd_at W e r' (p + 1) s /\
      (rd_kept W r -> rd_kept W r' /\ forall q ws, rd_points r q ws -> rd_points r' q ws);
  law_end W e r p : rd_at W e r p [] -> exists r', rd_unsigned r = inr (0, r') /\ rd_at W e r' p [];
  law_string W e r p w s : rd_at W e r p (w :: s) -> 0 < number e w <= MAX_READ ->
    number e w <= Z.of_nat (length s) ->
    exists q r', rd_string r = inr (Some q, r') /\
      rd_at W e r' (p + 1 + number e w) (drop (Z.to_nat (number e w)) s) /\
      rd_points r' q (take (Z.to_nat (number e w)) s) /\
      (rd_kept W r -> rd_kept W r' /\ forall q ws, rd_points r q ws -> rd_points r' q ws);
  law_null W e r p w s : rd_at W e r p (w :: s) -> number e w = 0 ->
    exists r', rd_string r = inr (None, r') /\ rd_at W e r' (p + 1) s /\
      (rd_kept W r -> rd_kept W r' /\ forall q ws, rd_points r q ws -> rd_points r' q ws);
  law_position W e r p s : rd_at W e r p s -> rd_position r = inr (p, r);
  law_error W e r p s : rd_at W e r p s -> rd_is_error r = inr (0, r);
  law_sync W e r p s base len : rd_at W e r p s ->
    let t := u32 (base + len) mod 2 ^ 30 in
    exists r', rd_sync base len r = inr (tt, r') /\
      rd_at W e r' t (if u32 (base + len) =? p then s else drop (Z.to_nat t) W) /\
      (0 < p -> 0 <= base + len <= Z.of_nat (length W) -> rd_kept W r ->
       rd_kept W r' /\ forall q ws, rd_points r q ws -> rd_points r' q ws);
  law_c_string r q ws s : rd_points r q ws -> words_string ws = Some s -> rd_c_string q r = inr (s, r);
  law_c_string_any r q : (exists s, rd_c_string q r = inr (s, r)) \/ exists m, rd_c_string q r = inl (undefined m)
}.

Definition gcov_io_laws fopen mem_ok (memory : forall n, n <= 2 ^ 30 -> mem_ok n = true) :
  @GcovReaderLaws gcov_var (gcov_io fopen mem_ok) fopen.
Proof.
  refine (@Build_GcovReaderLaws gcov_var (gcov_io fopen mem_ok) fopen at_words kept points closed_reader
    _ _ _ _ _ _ _ _ _ _ _ _ _); cbn [rd_open rd_close rd_magic rd_unsigned rd_string rd_position rd_is_error
      rd_sync rd_c_string rd_ptr gcov_io].
  - by apply open_run.
  - by apply open_missing.
  - by apply close_run.
  - by apply magic_run.
  - by apply read_unsigned_within.
  - by apply read_unsigned_beyond.
  - by apply read_string_within.
  - by apply read_string_null.
  - by apply position_run.
  - by apply is_error_run.
  - by apply sync_run.
  - by apply c_string_run.
  - by apply c_string_any.
Defined.
