(* ===== verification/Bb2Lines.v ===== *)
(** * Coverage of source lines: src/coverage/bb2lines/main.cpp

    The notes of the compiler say which source lines a basic block has; the
    addresses of executed basic blocks arrive on standard input, libbfd tells the
    line of an address.  What goes to standard error - the progress messages and
    the summary of failures - is not part of the model, except that the arguments
    of a message are evaluated. *)
From Stdlib Require Import Ascii String.
From stdpp Require Import sorting.
From S2P Require Import Prelude LockTypes CxxStd GcovIo.
Local Open Scope list_scope.
Local Open Scope Z_scope.

(** ** Basic blocks *)

Record source_line := mkSourceLine { sl_filename : string; sl_lines : list Z }.

(** [blockno] is [None] while it is not initialised. *)
Record basic_block := mkBlock { blockno : option Z; source_lines : list source_line; is_valid : bool }.

(** [front] of an empty vector is undefined. *)
Definition front {A} (l : list A) : exn + A :=
  match l with [] => inl (undefined "front of an empty vector") | x :: _ => inr x end.

Definition get_start_line (bb : basic_block) : exn + Z :=
  match front (source_lines bb) with inl e => inl e | inr sl => front (sl_lines sl) end.

Definition get_filename (bb : basic_block) : exn + string :=
  match front (source_lines bb) with inl e => inl e | inr sl => inr (sl_filename sl) end.

Definition invalid_bb : basic_block := mkBlock None [] false.

(** ** Sets of basic blocks

    [std::set<basic_block>] is the sequence of its elements in ascending order of
    their start lines.  A comparison asks both blocks for their start lines.  A
    set with at least two elements has compared all of them when they were
    inserted, so that a search may as well ask every element. *)
Fixpoint start_lines (l : list basic_block) : exn + list Z :=
  match l with
  | [] => inr []
  | bb :: l =>
      match get_start_line bb, start_lines l with
      | inl e, _ | _, inl e => inl e
      | inr k, inr ks => inr (k :: ks)
      end
  end.

(** The position of the first block whose start line satisfies [p]. *)
Fixpoint position_of (p : Z -> bool) (ks : list Z) : nat :=
  match ks with [] => 0 | k :: ks => if p k then 0 else S (position_of p ks) end.

(** The keys of the search for [bb] in a set: nothing is compared in an empty one. *)
Definition search_keys (bb : basic_block) (l : list basic_block) : exn + (Z * list Z) :=
  match l with
  | [] => inr (0, [])
  | _ =>
      match get_start_line bb, start_lines l with
      | inl e, _ | _, inl e => inl e
      | inr k, inr ks => inr (k, ks)
      end
  end.

Definition set_find (bb : basic_block) (l : list basic_block) : exn + option nat :=
  match search_keys bb l with
  | inl e => inl e
  | inr (k, ks) =>
      let i := position_of (fun x => k <=? x) ks in
      inr (if bool_decide (ks !! i = Some k) then Some i else None)
  end.

(** [insert] does nothing when the key is there. *)
Definition set_insert (bb : basic_block) (l : list basic_block) : exn + list basic_block :=
  match search_keys bb l with
  | inl e => inl e
  | inr (k, ks) =>
      let i := position_of (fun x => k <=? x) ks in
      inr (if bool_decide (ks !! i = Some k) then l else take i l ++ bb :: drop i l)
  end.

(** The number of elements before [upper_bound]. *)
Definition set_upper_bound (bb : basic_block) (l : list basic_block) : exn + nat :=
  match search_keys bb l with
  | inl e => inl e
  | inr (k, ks) => inr (position_of (fun x => k <? x) ks)
  end.

(** ** The state of the program *)

Record failures := mkFailures {
  addr_not_start_line_count : Z;
  bb_is_already_in_bb_map_count : Z;
  bb_at_addr_not_found_count : Z;
  file_is_null_in_addr2line_count : Z;
  file_found_line_not_found_count : Z;
  fs_not_in_bb_map_count : Z;
  input_addr_count : Z;
  unique_input_addr_count : Z;
  bb_read_count : Z
}.

(** A function of the notes: its name and its source file. *)
Record function_info := mkFunction { fn_name : string; fn_source : string }.

Record bb2lines (R : Type) := mkBB {
  reader : R;
  basic_blocks_addr_map : gmap Z basic_block;
  covered_lines : gmap string (gset Z);
  coverable_lines : gmap string (gset Z);
  functions_map : gmap string (gmap string function_info);
  basic_blocks_map : gmap string (list basic_block);
  counts : failures;
  out : list string               (* what was printed to standard output *)
}.
Arguments mkBB {R}.
Arguments reader {R}.
Arguments basic_blocks_addr_map {R}.
Arguments covered_lines {R}.
Arguments coverable_lines {R}.
Arguments functions_map {R}.
Arguments basic_blocks_map {R}.
Arguments counts {R}.
Arguments out {R}.

Definition no_failures : failures := mkFailures 0 0 0 0 0 0 0 0 0.
Definition bb_init {R} (r : R) : bb2lines R := mkBB r ∅ ∅ ∅ ∅ ∅ no_failures [].

(** One more of a count. *)
Definition more_not_start (f : failures) := mkFailures (u32 (addr_not_start_line_count f + 1))
  (bb_is_already_in_bb_map_count f) (bb_at_addr_not_found_count f) (file_is_null_in_addr2line_count f)
  (file_found_line_not_found_count f) (fs_not_in_bb_map_count f) (input_addr_count f) (unique_input_addr_count f)
  (bb_read_count f).
Definition more_already (f : failures) := mkFailures (addr_not_start_line_count f)
  (u32 (bb_is_already_in_bb_map_count f + 1)) (bb_at_addr_not_found_count f) (file_is_null_in_addr2line_count f)
  (file_found_line_not_found_count f) (fs_not_in_bb_map_count f) (input_addr_count f) (unique_input_addr_count f)
  (bb_read_count f).
Definition more_not_found (f : failures) := mkFailures (addr_not_start_line_count f)
  (bb_is_already_in_bb_map_count f) (u32 (bb_at_addr_not_found_count f + 1)) (file_is_null_in_addr2line_count f)
  (file_found_line_not_found_count f) (fs_not_in_bb_map_count f) (input_addr_count f) (unique_input_addr_count f)
  (bb_read_count f).
Definition more_file_null (f : failures) := mkFailures (addr_not_start_line_count f)
  (bb_is_already_in_bb_map_count f) (bb_at_addr_not_found_count f) (u32 (file_is_null_in_addr2line_count f + 1))
  (file_found_line_not_found_count f) (fs_not_in_bb_map_count f) (input_addr_count f) (unique_input_addr_count f)
  (bb_read_count f).
Definition more_line_not_found (f : failures) := mkFailures (addr_not_start_line_count f)
  (bb_is_already_in_bb_map_count f) (bb_at_addr_not_found_count f) (file_is_null_in_addr2line_count f)
  (u32 (file_found_line_not_found_count f + 1)) (fs_not_in_bb_map_count f) (input_addr_count f)
  (unique_input_addr_count f) (bb_read_count f).
Definition more_fs_not_found (f : failures) := mkFailures (addr_not_start_line_count f)
  (bb_is_already_in_bb_map_count f) (bb_at_addr_not_found_count f) (file_is_null_in_addr2line_count f)
  (file_found_line_not_found_count f) (u32 (fs_not_in_bb_map_count f + 1)) (input_addr_count f)
  (unique_input_addr_count f) (bb_read_count f).
Definition more_input (f : failures) := mkFailures (addr_not_start_line_count f)
  (bb_is_already_in_bb_map_count f) (bb_at_addr_not_found_count f) (file_is_null_in_addr2line_count f)
  (file_found_line_not_found_count f) (fs_not_in_bb_map_count f) (u32 (input_addr_count f + 1))
  (unique_input_addr_count f) (bb_read_count f).
Definition more_unique_input (f : failures) := mkFailures (addr_not_start_line_count f)
  (bb_is_already_in_bb_map_count f) (bb_at_addr_not_found_count f) (file_is_null_in_addr2line_count f)
  (file_found_line_not_found_count f) (fs_not_in_bb_map_count f) (input_addr_count f)
  (u32 (unique_input_addr_count f + 1)) (bb_read_count f).
Definition more_read (f : failures) := mkFailures (addr_not_start_line_count f)
  (bb_is_already_in_bb_map_count f) (bb_at_addr_not_found_count f) (file_is_null_in_addr2line_count f)
  (file_found_line_not_found_count f) (fs_not_in_bb_map_count f) (input_addr_count f) (unique_input_addr_count f)
  (u32 (bb_read_count f + 1)).

(** ** The program *)

Section Program.
Context {R : Type} `{GcovReader R}.

Notation BM := (M (bb2lines R) exn).

Definition lift_rd {A} (c : M R exn A) : BM A := fun s =>
  match c (reader s) with
  | inl e => inl e
  | inr (a, r) => inr (a, mkBB r (basic_blocks_addr_map s) (covered_lines s) (coverable_lines s) (functions_map s)
                            (basic_blocks_map s) (counts s) (out s))
  end.

Definition lift_exn {A} (r : exn + A) : BM A := fun s => match r with inl e => inl e | inr a => inr (a, s) end.

Definition set_addr_map (f : gmap Z basic_block -> gmap Z basic_block) : BM unit := modify (fun s =>
  mkBB (reader s) (f (basic_blocks_addr_map s)) (covered_lines s) (coverable_lines s) (functions_map s)
    (basic_blocks_map s) (counts s) (out s)).
Definition set_covered (f : gmap string (gset Z) -> gmap string (gset Z)) : BM unit := modify (fun s =>
  mkBB (reader s) (basic_blocks_addr_map s) (f (covered_lines s)) (coverable_lines s) (functions_map s)
    (basic_blocks_map s) (counts s) (out s)).
Definition set_coverable (f : gmap string (gset Z) -> gmap string (gset Z)) : BM unit := modify (fun s =>
  mkBB (reader s) (basic_blocks_addr_map s) (covered_lines s) (f (coverable_lines s)) (functions_map s)
    (basic_blocks_map s) (counts s) (out s)).
Definition set_functions (f : gmap string (gmap string function_info) -> gmap string (gmap string function_info)) :
    BM unit := modify (fun s =>
  mkBB (reader s) (basic_blocks_addr_map s) (covered_lines s) (coverable_lines s) (f (functions_map s))
    (basic_blocks_map s) (counts s) (out s)).
Definition set_blocks (f : gmap string (list basic_block) -> gmap string (list basic_block)) : BM unit :=
  modify (fun s =>
  mkBB (reader s) (basic_blocks_addr_map s) (covered_lines s) (coverable_lines s) (functions_map s)
    (f (basic_blocks_map s)) (counts s) (out s)).
Definition count (f : failures -> failures) : BM unit := modify (fun s =>
  mkBB (reader s) (basic_blocks_addr_map s) (covered_lines s) (coverable_lines s) (functions_map s)
    (basic_blocks_map s) (f (counts s)) (out s)).
Definition print (t : string) : BM unit := modify (fun s =>
  mkBB (reader s) (basic_blocks_addr_map s) (covered_lines s) (coverable_lines s) (functions_map s)
    (basic_blocks_map s) (counts s) (out s ++ [t])).

(** [m[k]] where the element is changed by [f]; a missing one is created empty. *)
Definition at_key {A} `{Empty A} (k : string) (f : A -> A) (m : gmap string A) : gmap string A :=
  <[k := f (default ∅ (m !! k))]> m.

(** What the command line says. *)
Context (file_prefix : string).

Definition prefixed (f : string) : string := String.append file_prefix f.

(** *** Reading the notes *)

(** The lines of a basic block, up to a null string: a number is a line of the
    newest source file, zero is followed by the name of the next one. *)
Fixpoint read_lines (fuel : nat) (bb : basic_block) : BM basic_block :=
  match fuel with
  | O => raise out_of_fuel
  | S fuel =>
      lineno ← lift_rd rd_unsigned;
      if lineno =? 0 then
        source ← lift_rd rd_string;
        match source with
        | None => mret bb
        | Some source =>
            name ← lift_rd (rd_c_string source);
            read_lines fuel (mkBlock (blockno bb) (source_lines bb ++ [mkSourceLine name []]) (is_valid bb))
        end
      else
        match last (source_lines bb) with
        | None => raise (undefined "back of an empty vector")
        | Some sl =>
            read_lines fuel (mkBlock (blockno bb)
              (removelast (source_lines bb) ++ [mkSourceLine (sl_filename sl) (sl_lines sl ++ [lineno])])
              (is_valid bb))
        end
  end.

(** One file of a block: an entry in [covered_lines], and its lines in
    [coverable_lines]. *)
Definition add_coverable (sl : source_line) : BM unit :=
  set_covered (at_key (sl_filename sl) (fun s => s));;;
  mapM (fun line => set_coverable (at_key (sl_filename sl) (fun s => {[line]} ∪ s))) (sl_lines sl);;;
  mret tt.

(** A block of the same file with the same start line is taken out of its set;
    its lines are appended to those of the new block. *)
Definition merge_with_existing (source_name : string) (bb : basic_block) : BM basic_block :=
  s ← get_st;
  match basic_blocks_map s !! source_name with
  | Some ((_ :: _) as bbs) =>
      search ← lift_exn (set_find bb bbs);
      match search with
      | Some i =>
          _ ← lift_exn (get_start_line bb);
          match bbs !! i with
          | Some old =>
              set_blocks (fun m => <[source_name := delete i bbs]> m);;;
              count more_already;;;
              mret (mkBlock (blockno bb) (source_lines bb ++ source_lines old) (is_valid bb))
          | None => mret bb
          end
      | None => mret bb
      end
  | _ => mret bb
  end.

(** A block of the notes enters the tables. *)
Definition add_basic_block (bb : basic_block) : BM unit :=
  count more_read;;;
  name ← lift_exn (get_filename bb);
  let source_name := prefixed name in
  mapM add_coverable (source_lines bb);;;
  bb ← merge_with_existing source_name bb;
  s ← get_st;
  bbs ← lift_exn (set_insert bb (default [] (basic_blocks_map s !! source_name)));
  set_blocks (fun m => <[source_name := bbs]> m).

(** The words of a function: pointers to its name and to its source file. *)
Definition read_function_words : BM (option rd_ptr * option rd_ptr) :=
  lift_rd rd_unsigned;;; (* ident *)
  lift_rd rd_unsigned;;; (* lineno_checksum *)
  lift_rd rd_unsigned;;; (* cfg_checksum *)
  name ← lift_rd rd_string;
  lift_rd rd_unsigned;;; (* artificial *)
  source ← lift_rd rd_string;
  lift_rd rd_unsigned;;; (* start_line *)
  lift_rd rd_unsigned;;; (* column_start *)
  lift_rd rd_unsigned;;; (* end_line *)
  mret (name, source).

(** The function enters its table; only now its name and its source are copied. *)
Definition register_function (name source : rd_ptr) : BM unit :=
  name ← lift_rd (rd_c_string name);
  source ← lift_rd (rd_c_string source);
  set_functions (fun m =>
    <[prefixed source := <[name := mkFunction name source]> (default ∅ (m !! prefixed source))]> m).

(** A function of the notes; whether it has a name and a source file. *)
Definition read_function : BM bool :=
  words ← read_function_words;
  match words with
  | (Some name, Some source) => register_function name source;;; mret true
  | _ => mret false
  end.

(** The records of a file; [fn] tells whether there is a current function. *)
Fixpoint read_tags (fuel : nat) (fn : bool) (current_tag : Z) : BM unit :=
  match fuel with
  | O => raise out_of_fuel
  | S fuel =>
      tag ← lift_rd rd_unsigned;
      if tag =? 0 then mret tt else
      length ← lift_rd rd_unsigned;
      base ← lift_rd rd_position;
      let next (fn : bool) (current_tag : Z) : BM unit :=
        lift_rd (rd_sync base length);;;
        error ← lift_rd rd_is_error;
        if error =? 0 then read_tags fuel fn current_tag else mret tt in
      if tag =? GCOV_TAG_FUNCTION then
        named ← read_function;
        if named : bool then next true tag else read_tags fuel false current_tag
      else if fn && (tag =? GCOV_TAG_LINES) then
        no ← lift_rd rd_unsigned;
        bb ← read_lines fuel (mkBlock (Some no) [] true);
        add_basic_block bb;;;
        next fn current_tag
      else if negb (current_tag =? 0) && negb (GCOV_TAG_IS_SUBTAG current_tag tag) then next false 0
      else next fn current_tag
  end.

Definition read_graph_file (fuel : nat) (filename : string) : BM unit :=
  opened ← lift_rd (rd_open filename);
  if negb opened then mret tt else
  magic ← lift_rd rd_unsigned;
  endianness ← lift_rd (rd_magic magic GCOV_DATA_MAGIC);
  endianness ← (if endianness =? 0 then lift_rd (rd_magic magic GCOV_NOTE_MAGIC) else mret endianness);
  if endianness =? 0 then lift_rd rd_close;;; mret tt else
  lift_rd rd_unsigned;;; (* version *)
  lift_rd rd_unsigned;;; (* stamp *)
  lift_rd rd_unsigned;;; (* support_unexecuted_blocks *)
  read_tags fuel false 0;;;
  lift_rd rd_close;;;
  mret tt.

(** *** Addresses *)

(** What libbfd says of an address: the file, if any, and the line; without an
    open image the question itself is undefined. *)
Context (addr_to_line : Z -> exn + (option string * Z)).

(** Whether the pattern given with [-e] occurs in a name. *)
Context (re_search : string -> bool).

(** The orders in which the hash maps are traversed. *)
Context (blocks_order : gmap string (list basic_block) -> list (string * list basic_block)).
Context (covered_order : gmap string (gset Z) -> list (string * gset Z)).

Definition is_line_and_file_in_bb (line : Z) (filename : string) (bb : basic_block) : bool :=
  existsb (fun sl => bool_decide (prefixed (sl_filename sl) = filename) && bool_decide (line ∈ sl_lines sl))
    (source_lines bb).

Definition find_line_and_file_in_bb_map (line : Z) (filename : string)
    (m : gmap string (list basic_block)) : basic_block :=
  default invalid_bb (List.find (is_line_and_file_in_bb line filename) (concat (map snd (blocks_order m)))).

(** The block of a line whose start line is another: it is remembered. *)
Definition remember (bb_addr : Z) (bb : basic_block) : BM (option basic_block) :=
  set_addr_map (fun m => <[bb_addr := bb]> m);;;
  mret (Some bb).

(** The harder search, for the files the pattern selects; without a block the
    address is remembered as one that has none. *)
Definition search_harder (bb_addr line : Z) (file : string) : BM (option basic_block) :=
  s ← get_st;
  let not_found : BM (option basic_block) :=
    set_addr_map (fun m => <[bb_addr := invalid_bb]> m);;;
    count more_not_found;;;
    mret None in
  if re_search file then
    let search_bb := find_line_and_file_in_bb_map line file (basic_blocks_map s) in
    if is_valid search_bb then
      _ ← lift_exn (get_start_line search_bb);
      count more_not_start;;;
      remember bb_addr search_bb
    else
      count more_fs_not_found;;;
      not_found
  else not_found.

(** In the set of the file: the last block that starts at the line or before it;
    for a line before all of them, any block that has the line. *)
Definition search_in_file (bb_addr line : Z) (file : string) (bbs : list basic_block) : BM (option basic_block) :=
  s ← get_st;
  n ← lift_exn (set_upper_bound (mkBlock None [mkSourceLine EmptyString [line]] true) bbs);
  match n with
  | S i =>
      match bbs !! i with
      | Some search_bb =>
          start ← lift_exn (get_start_line search_bb);
          (if start =? line then mret tt else count more_not_start);;;
          remember bb_addr search_bb
      | None => mret None
      end
  | O =>
      let search_bb := find_line_and_file_in_bb_map line file (basic_blocks_map s) in
      if is_valid search_bb then
        _ ← lift_exn (get_start_line search_bb);
        count more_not_start;;;
        remember bb_addr search_bb
      else
        count more_line_not_found;;;
        search_harder bb_addr line file
  end.

Definition get_basic_block (bb_addr : Z) : BM (option basic_block) :=
  s ← get_st;
  match basic_blocks_addr_map s !! bb_addr with
  | Some bb =>
      if is_valid bb then
        _ ← lift_exn (get_filename bb);
        _ ← lift_exn (get_start_line bb);
        mret (Some bb)
      else mret None
  | None =>
      count more_unique_input;;;
      answer ← lift_exn (addr_to_line bb_addr);
      match answer with
      | (None, _) =>
          count more_file_null;;;
          count more_not_found;;;
          mret None
      | (Some file, line) =>
          match basic_blocks_map s !! file with
          | Some ((_ :: _) as bbs) => search_in_file bb_addr line file bbs
          | _ => search_harder bb_addr line file
          end
      end
  end.

(** *** The two modes of the program *)

(** The rows of one address: address, file, line. *)
Definition print_block (addr : Z) (bb : basic_block) : BM unit :=
  mapM (fun sl => mapM (fun line =>
    print ("0x" ++ print_digits 16 16 addr EmptyString ++ "," ++ sl_filename sl ++ "," ++ print_int (s32 line) ++
           String "010" EmptyString)%string) (sl_lines sl))
    (source_lines bb);;;
  mret tt.

Definition convert_line (line : string) : BM unit :=
  count more_input;;;
  addr ← lift_exn (stoull 16 line);
  bb ← get_basic_block addr;
  match bb with None => mret tt | Some bb => print_block addr bb end.

Definition convert_basic_blocks (input : list string) : BM unit :=
  print ("basic_block,file,line" ++ String "010" EmptyString)%string;;;
  mapM convert_line input;;;
  mret tt.

Definition cover_block (bb : basic_block) : BM unit :=
  mapM (fun sl => mapM (fun line => set_covered (at_key (sl_filename sl) (fun s => {[line]} ∪ s))) (sl_lines sl))
    (source_lines bb);;;
  mret tt.

Definition cover_line (line : string) : BM unit :=
  count more_input;;;
  addr ← lift_exn (stoull 16 line);
  bb ← get_basic_block addr;
  match bb with None => mret tt | Some bb => cover_block bb end.

Definition count_all_lines_in_file (m : gmap string (gset Z)) (filename : string) : Z :=
  Z.of_nat (size (default ∅ (m !! filename))).

Definition count_all_files_and_lines (m : gmap string (gset Z)) : Z * Z :=
  (u32 (Z.of_nat (size m)), map_fold (fun _ s n => Z.of_nat (size s) + n) 0 m).

(** The files and lines that are covered, as the summary counts them. *)
Definition count_covered (l : list (string * gset Z)) : Z * Z :=
  foldl (fun '(files, lines) '(_, s) =>
    (if bool_decide (s = ∅) then files else u32 (files + 1), lines + Z.of_nat (size s))) (0, 0) l.

(** The row of a file; with [-l] its lines follow in ascending order. *)
Definition coverage_row (covered_lines_information : bool) (m : gmap string (gset Z)) (e : string * gset Z) : BM unit :=
  let '(filename, lines) := e in
  print (filename ++ "," ++ print_dec (Z.of_nat (size lines)) ++ "," ++
         print_dec (count_all_lines_in_file m filename) ++ String "010" EmptyString)%string;;;
  if covered_lines_information : bool then
    mapM (fun line => print (print_dec line ++ String "010" EmptyString)%string) (merge_sort Z.le (elements lines));;;
    print (String "010" EmptyString)
  else mret tt.

(** The numbers of the summary are returned: covered and coverable files, covered
    and coverable lines. *)
Definition determine_coverage (covered_lines_information : bool) (input : list string) : BM ((Z * Z) * (Z * Z)) :=
  mapM cover_line input;;;
  s ← get_st;
  print ("file,lines_covered,lines_total" ++ String "010" EmptyString)%string;;;
  mapM (coverage_row covered_lines_information (coverable_lines s)) (covered_order (covered_lines s));;;
  mret (count_covered (covered_order (covered_lines s)), count_all_files_and_lines (coverable_lines s)).

(** [regex_match] with the pattern of the notes files. *)
Definition is_gcno (name : string) : bool :=
  let l := rev (list_ascii_of_string name) in
  match l with
  | o :: n :: c :: g :: d :: rest =>
      bool_decide (string_of_list_ascii [d; g; c; n; o] = ".gcno"%string) &&
      forallb (fun c => negb (bool_decide (c = "010"%char)) && negb (bool_decide (c = "013"%char))) rest
  | _ => false
  end.
End Program.
