(* ===== verification/BbMain.v ===== *)
(** * bb2lines: the program

    The lookup of addresses (src/coverage/bb2lines/binaryread.cpp), the walk through
    the directory of the notes, the command line and [main]
    (src/coverage/bb2lines/main.cpp) around the tables of Bb2Lines. *)
From Stdlib Require Import Ascii String.
From S2P Require Import Prelude LockTypes CxxStd GcovIo Getopt Bb2Lines.
Local Open Scope list_scope.
Local Open Scope Z_scope.

(** ** binaryread.cpp *)

(** What [find_address_in_section] looks for and finds; a null string is [None]. *)
Record BfdSearchCtx := mkSearch {
  pc : Z; found : bool; file : option string; fn : option string; line : Z }.

Record asection := mkSection { sec_alloc : bool; sec_vma : Z; sec_size : Z }.

Section Binary.
Context {symbol : Type}.

(** What libbfd answers about a file it could open: whether it is an object, what
    it says of the two symbol tables - [None] for a negative count -, the sections,
    and the nearest line for an offset in the n-th one: whether it was found, and
    the file, function and line behind the pointers after the call. *)
Record bfd := mkBfd {
  is_object : bool;
  has_syms : bool;
  symtab_upper_bound : Z;
  dynamic_symtab_upper_bound : Z;
  canonicalize_symtab : option (list symbol);
  canonicalize_dynamic_symtab : option (list symbol);
  sections : list asection;
  find_nearest_line_discriminator : nat -> option (list symbol) -> Z ->
    option string * option string * Z -> bool * (option string * option string * Z)
}.

(** [bfdSyms]: null, a table, or memory that was never written. *)
Inductive symbol_table := null_table | table (l : list symbol) | garbage_table.

Definition slurp_symtab (abfd : bfd) : Z * symbol_table :=
  if negb (has_syms abfd) then (1, null_table) else
  let dynamic := symtab_upper_bound abfd =? 0 in
  let storage := if dynamic then dynamic_symtab_upper_bound abfd else symtab_upper_bound abfd in
  if storage <? 0 then (1, null_table) else
  match (if dynamic then canonicalize_dynamic_symtab abfd else canonicalize_symtab abfd) with
  | None => (1, garbage_table)
  | Some syms =>
      let again := bool_decide (length syms = 0%nat) && negb dynamic && (0 <? dynamic_symtab_upper_bound abfd) in
      match (if again then canonicalize_dynamic_symtab abfd else Some syms) with
      | None | Some [] => (1, null_table)
      | Some syms => (0, table syms)
      end
  end.

(** [kernelBfd]: null, closed, or open with its symbols. *)
Inductive kernel_bfd := kernel_null | kernel_closed | kernel_open (b : bfd) (syms : symbol_table).

Context (bfd_openr : string -> option bfd).

Definition binaryread_init (filename : string) : Z * kernel_bfd :=
  match bfd_openr filename with
  | None => (1, kernel_null)
  | Some b =>
      if negb (is_object b) then (1, kernel_closed) else
      let '(failed, syms) := slurp_symtab b in
      (if failed =? 0 then 0 else 1, kernel_open b syms)
  end.

(** The section with number [i]. *)
Definition find_address_in_section (b : bfd) (syms : option (list symbol)) (i : nat) (s : asection)
    (ctx : BfdSearchCtx) : BfdSearchCtx :=
  if found ctx then ctx else
  if negb (sec_alloc s) then ctx else
  if pc ctx <? sec_vma s then ctx else
  if u64 (sec_vma s + sec_size s) <=? pc ctx then ctx else
  let '(ok, (f, n, l)) := find_nearest_line_discriminator b i syms (u64 (pc ctx - sec_vma s))
    (file ctx, fn ctx, line ctx) in
  mkSearch (pc ctx) ok f n l.

(** [bfd_map_over_sections]. *)
Fixpoint map_over_sections (f : nat -> asection -> BfdSearchCtx -> BfdSearchCtx) (i : nat) (l : list asection)
    (ctx : BfdSearchCtx) : BfdSearchCtx :=
  match l with [] => ctx | s :: l => map_over_sections f (S i) l (f i s ctx) end.

(** Without an image, or with a table of garbage, the call is undefined. *)
Definition addr_to_line (k : kernel_bfd) (addr : Z) : exn + BfdSearchCtx :=
  let start := mkSearch addr false None None 0 in
  match k with
  | kernel_null | kernel_closed => inl (undefined "bfd_map_over_sections without an open file")
  | kernel_open b garbage_table => inl (undefined "a symbol table that was never written")
  | kernel_open b null_table => inr (map_over_sections (find_address_in_section b None) 0 (sections b) start)
  | kernel_open b (table l) => inr (map_over_sections (find_address_in_section b (Some l)) 0 (sections b) start)
  end.

Definition file_and_line (k : kernel_bfd) (addr : Z) : exn + (option string * Z) :=
  match addr_to_line k addr with inl e => inl e | inr ctx => inr (file ctx, line ctx) end.
End Binary.

(** ** The files of a directory *)

(** Everything that is not a directory is a leaf, links among them: they are not
    followed.  The entries are in the order in which the directory lists them. *)
Inductive node := leaf | directory (readable : bool) (entries : list (string * node)).

Definition join_path (dir name : string) : string :=
  match last (list_ascii_of_string dir) with
  | Some "/"%char => (dir ++ name)%string
  | _ => (dir ++ String "/" name)%string
  end.

(** [recursive_directory_iterator]: the open directories, each with the entries
    that are still to come; the first one of the innermost is the current entry.
    The end iterator has none. *)
Definition dir_iterator : Type := list (string * list (string * node)).

Fixpoint leave_finished (it : dir_iterator) : dir_iterator :=
  match it with (_, []) :: it => leave_finished it | _ => it end.

(** [None] is an error: a directory that cannot be opened; the iterator is the
    end iterator then. *)
Definition increment (it : dir_iterator) : option dir_iterator :=
  match it with
  | (dir, (name, n) :: rest) :: outer =>
      match n with
      | leaf => Some (leave_finished ((dir, rest) :: outer))
      | directory true entries => Some (leave_finished ((join_path dir name, entries) :: (dir, rest) :: outer))
      | directory false _ => None
      end
  | _ => None
  end.

(** The loop; the message about an error asks the iterator for its path. *)
Fixpoint list_files (fuel : nat) (it : dir_iterator) (listOfFiles : list string) : exn + list string :=
  match it with
  | (dir, (name, _) :: _) :: _ =>
      match fuel with
      | O => inl out_of_fuel
      | S fuel =>
          match increment it with
          | Some it' => list_files fuel it' (listOfFiles ++ [join_path dir name])
          | None => inl (undefined "path of the end iterator")
          end
      end
  | _ => inr listOfFiles
  end.

(** The number of entries, those of the directories included. *)
Fixpoint entry_count (n : node) : nat :=
  match n with
  | leaf => 0
  | directory _ entries => sum_list_with (fun e => S (entry_count (snd e))) entries
  end.

(** What a path names, links followed. *)
Definition get_all_files_in_dir (filesystem : string -> option node) (dirPath : string) : exn + list string :=
  match filesystem dirPath with
  | Some (directory true entries) =>
      list_files (entry_count (directory true entries)) (leave_finished [(dirPath, entries)]) []
  | Some (directory false _) => inr [] (* the exception is caught *)
  | _ => inr []
  end.

(** ** The command line *)

Definition options : list long_option :=
  [mkLong "help" no_argument "h"; mkLong "verbose" required_argument "v";
   mkLong "covered-lines-information" no_argument "l"; mkLong "file-prefix" required_argument "p";
   mkLong "binary" required_argument "b"; mkLong "regex" required_argument "e";
   mkLong "convert" no_argument "c"].
Definition optstring : string := "hvlpbec".

(** The global variables that the options set; the pattern that is never set
    matches nothing. *)
Record settings := mkSettings {
  verbose : Z; covered_lines_information : bool; file_prefix : option string; binary : option string;
  re_search_pattern_string : option string; re_search_pattern : string -> bool; convert : bool }.
Definition default_settings : settings := mkSettings 0 false None None None (fun _ => false) false.

(** What the loop over the options leaves: the exit code of an early end, or the
    settings and the words. *)
Inductive command_line := stop (code : Z) | go (c : settings) (g : getopt_state).

Section CommandLine.
(** The pattern of a string, if it is one, as the test whether it occurs. *)
Context (regex_of : string -> exn + (string -> bool)).

(** One option.  The argument is the next word, whatever [getopt_long] has
    found to be the argument of a long option. *)
Definition option_step (opt : ascii) (c : settings) (g : getopt_state) : exn + command_line :=
  let with_word (k : option string -> exn + settings) : exn + command_line :=
    match next_word g with
    | inl e => inl e
    | inr (w, g) => match k w with inl e => inl e | inr c => inr (go c g) end
    end in
  let '(mkSettings v l p b s r cv) := c in
  if Ascii.eqb opt "v" then with_word (fun w =>
    match w with
    | None => inl (undefined "string of a null pointer")
    | Some w => match stoi 10 w with inl e => inl e | inr v => inr (mkSettings v l p b s r cv) end
    end)
  else if Ascii.eqb opt "h" then inr (stop 0)
  else if Ascii.eqb opt "l" then inr (go (mkSettings v true p b s r cv) g)
  else if Ascii.eqb opt "p" then with_word (fun w => inr (mkSettings v l w b s r cv))
  else if Ascii.eqb opt "b" then with_word (fun w => inr (mkSettings v l p w s r cv))
  else if Ascii.eqb opt "e" then with_word (fun w =>
    match w with
    | None => inl (undefined "pattern of a null pointer")
    | Some w => match regex_of w with inl e => inl e | inr r => inr (mkSettings v l p b (Some w) r cv) end
    end)
  else if Ascii.eqb opt "c" then inr (go (mkSettings v l p b s r true) g)
  else inr (stop 1).

Fixpoint option_loop (fuel : nat) (c : settings) (g : getopt_state) : exn + command_line :=
  match fuel with
  | O => inl out_of_fuel
  | S fuel =>
      match getopt_long optstring options g with
      | inl e => inl e
      | inr (None, g) => inr (go c g)
      | inr (Some (opt, _), g) =>
          match option_step opt c g with
          | inl e => inl e
          | inr (stop code) => inr (stop code)
          | inr (go c g) => option_loop fuel c g
          end
      end
  end.

(** The last of the words that are left. *)
Definition dirname_of (g : getopt_state) : exn + string :=
  match word_at g (optind g) with
  | inl e => inl e
  | inr _ => inr (default EmptyString (last (drop (optind g) (argv g))))
  end.

(** What has to be there: the directory, the prefix and the binary. *)
Definition read_command_line (words : list string) : exn + (Z + settings * (string * string * string)) :=
  let g := getopt_init words in
  match option_loop (S (unread g)) default_settings g with
  | inl e => inl e
  | inr (stop code) => inr (inl code)
  | inr (go c g) =>
      match dirname_of g with
      | inl e => inl e
      | inr dirname =>
          match file_prefix c, binary c with
          | Some p, Some b =>
              if String.eqb dirname EmptyString then inr (inl 2) else inr (inr (c, (dirname, p, b)))
          | _, _ => inr (inl 2)
          end
      end
  end.
End CommandLine.

(** ** main *)

Definition text_line (s : string) : string := (s ++ String "010" EmptyString)%string.

Definition usage_text : list string :=
  [ text_line "Usage: bb2lines [OPTION] -b <vmlinux> -p <path to source tree> <gcov-files-directory>";
    text_line "Uses <gcov-files-directory> to determine all coverable source code lines.";
    text_line "Reads a set of basic block adresses (hex format) from stdin,";
    text_line "determines the corresponding source code lines, and ";
    "determines the amount of covered lines per file."%string;
    text_line "example usage: ./bb2lines -b /opt/kernel/linux/vmlinux -p /opt/kernel/linux /opt/kernel/linux";
    text_line "  -h, --help                      Print this help";
    text_line "  -v, --verbose                   Print in a verbose form";
    text_line "  -l, --covered-lines-information Print specific covered lines to csv";
    text_line "  -p, --file-prefix               Absolut path prefix of the source files";
    text_line "  -b, --binary                    Path of the vmlinux";
    text_line "  -e, --regex                     If this regex search pattern is not found directly for a specific bb addr a more sophisticated search mechanism is used";
    text_line ("  -c, --convert" ++ String "009" (String "009" "  Instead of determing the code coverage just convert all incomming"));
    text_line (String "009" (String "009" (String "009" (String "009" "  basic blocks to source code lines. Example output: 0x42,foo.c,42"))));
    text_line (String "009" (String "009" (String "009" (String "009" "  Options -e and -s are useless here.")))) ].

(** The failure summary on standard error; [printf] prints a null pattern as
    [(null)]. *)
Definition of_total (what : string) (n total : Z) (ending : string) : string :=
  (what ++ ": " ++ print_int (s32 n) ++ "/" ++ print_int (s32 total) ++ ending)%string.
Definition failure_summary (f : failures) (pattern : option string) : list string :=
  let nl := String "010" EmptyString in
  [ text_line "Failure summary:";
    of_total "Address resolves not to the start line of a basic block" (addr_not_start_line_count f) (unique_input_addr_count f) nl;
    of_total "Basic block was already read from the .gcno files" (bb_is_already_in_bb_map_count f) (bb_read_count f) nl;
    of_total "Basic block not found in .gcno files" (bb_at_addr_not_found_count f) (unique_input_addr_count f) nl;
    of_total "addr2line returns null for file" (file_is_null_in_addr2line_count f) (unique_input_addr_count f) nl;
    of_total "File from addr2line was found in .gcno files, but not the line" (file_found_line_not_found_count f) (unique_input_addr_count f) nl;
    of_total ("bb with " ++ default "(null)" pattern ++ " in name is not in internal data structure")
      (fs_not_in_bb_map_count f) (unique_input_addr_count f) (nl ++ nl)%string ].

Section Main.
Context {R : Type} `{GcovReader R} {symbol : Type}.
Context (regex_of : string -> exn + (string -> bool)) (bfd_openr : string -> option (@bfd symbol))
  (filesystem : string -> option node).
Context (blocks_order : gmap string (list basic_block) -> list (string * list basic_block))
  (covered_order : gmap string (gset Z) -> list (string * gset Z)).

(** The exit code, the state with the standard output, the standard error. *)
Record result := mkResult { exit_code : Z; final : bb2lines R; summary : list string }.

Definition print_usage : M (bb2lines R) exn unit := mapM print usage_text;;; mret tt.

(** The notes among the files, then the addresses on standard input.  The result
    of [binaryread_init] is not looked at. *)
Definition run (fuel : nat) (c : settings) (prefix : string) (k : @kernel_bfd symbol)
    (all_files_in_dir input : list string) : M (bb2lines R) exn unit :=
  mapM (fun filename => if is_gcno filename then read_graph_file prefix fuel filename else mret tt) all_files_in_dir;;;
  if convert c then
    convert_basic_blocks prefix (file_and_line k) (re_search_pattern c) blocks_order input
  else
    determine_coverage prefix (file_and_line k) (re_search_pattern c) blocks_order covered_order
      (covered_lines_information c) input;;;
    mret tt.

Definition main (fuel : nat) (words input : list string) (r : R) : exn + result :=
  match read_command_line regex_of words with
  | inl e => inl e
  | inr (inl code) =>
      match print_usage (bb_init r) with inl e => inl e | inr (_, s) => inr (mkResult code s []) end
  | inr (inr (c, (dirname, prefix, bin))) =>
      let '(_, k) := binaryread_init bfd_openr bin in
      match get_all_files_in_dir filesystem dirname with
      | inl e => inl e
      | inr files =>
          match run fuel c prefix k files input (bb_init r) with
          | inl e => inl e
          | inr (_, s) => inr (mkResult 0 s (failure_summary (counts s) (re_search_pattern_string c)))
          end
      end
  end.
End Main.

(** ** The section of an address *)

Definition holds (addr : Z) (s : asection) : bool :=
  sec_alloc s && (sec_vma s <=? addr) && (addr <? u64 (sec_vma s + sec_size s)).

Section Lookup.
Context {symbol : Type} (b : @bfd symbol) (syms : option (list symbol)).

Lemma found_stays ctx l : forall i, found ctx = true -> map_over_sections (find_address_in_section b syms) i l ctx = ctx.
Proof.
  induction l as [|s l IH]; intros i Hf; [done|]. cbn [map_over_sections].
  assert (find_address_in_section b syms i s ctx = ctx) as -> by (unfold find_address_in_section; by rewrite Hf).
  by apply IH.
Qed.

Lemma find_address_not_held i s ctx : holds (pc ctx) s = false -> find_address_in_section b syms i s ctx = ctx.
Proof.
  unfold holds, find_address_in_section. destruct (found ctx), (sec_alloc s); try done. cbn [andb negb].
  destruct (Z.leb_spec (sec_vma s) (pc ctx)), (Z.ltb_spec (pc ctx) (sec_vma s)); try done; try lia. cbn [andb].
  destruct (Z.ltb_spec (pc ctx) (u64 (sec_vma s + sec_size s))), (Z.leb_spec (u64 (sec_vma s + sec_size s)) (pc ctx));
    done || lia.
Qed.

(** The first section that holds the address decides, if its lookup succeeds. *)
Lemma first_section_decides addr s l1 l2 f n l i : Forall (fun s => holds addr s = false) l1 ->
  holds addr s = true ->
  find_nearest_line_discriminator b (i + length l1) syms (u64 (addr - sec_vma s)) (None, None, 0) = (true, (f, n, l)) ->
  map_over_sections (find_address_in_section b syms) i (l1 ++ s :: l2) (mkSearch addr false None None 0) =
  mkSearch addr true f n l.
Proof.
  intros Hl1 Hs Hn. revert i Hn. induction Hl1 as [|s1 l1 H1 _ IH]; intros i Hn; cbn [app map_over_sections].
  - rewrite <-(found_stays (mkSearch addr true f n l) l2 (S i)) by done. f_equal.
    cbn [length] in Hn. rewrite Nat.add_0_r in Hn.
    apply andb_true_iff in Hs as [Hs Hu]. apply andb_true_iff in Hs as [Ha Hv].
    unfold find_address_in_section. cbn [found pc file fn line]. rewrite Ha. cbn [negb].
    destruct (Z.ltb_spec addr (sec_vma s)); [lia|]. destruct (Z.leb_spec (u64 (sec_vma s + sec_size s)) addr); [lia|].
    by rewrite Hn.
  - rewrite find_address_not_held by done. apply IH. rewrite <-Hn. f_equal. cbn [length]. lia.
Qed.
End Lookup.
