(* ===== verification/BbTableProps.v ===== *)
(** * The tables of basic blocks and coverable lines

    What a basic block of the notes adds to the tables, and the invariant that
    the tables keep. *)
From Stdlib Require Import Ascii String.
From stdpp Require Import sorting.
From S2P Require Import Prelude LockTypes CxxStd GcovIo Bb2Lines.
Local Open Scope list_scope.
Local Open Scope Z_scope.

(** ** Blocks *)

Definition start (bb : basic_block) : Z :=
  match source_lines bb with sl :: _ => match sl_lines sl with l :: _ => l | [] => 0 end | [] => 0 end.
Definition file_of (bb : basic_block) : string :=
  match source_lines bb with sl :: _ => sl_filename sl | [] => EmptyString end.

(** A block with a first source file that has a line. *)
Definition wf_block (bb : basic_block) : Prop :=
  is_valid bb = true /\ exists f l ls srcs, source_lines bb = mkSourceLine f (l :: ls) :: srcs.

Lemma get_start_line_wf bb : wf_block bb -> get_start_line bb = inr (start bb).
Proof. intros (_ & f & l & ls & srcs & H). unfold get_start_line, start. by rewrite H. Qed.

Lemma get_filename_wf bb : wf_block bb -> get_filename bb = inr (file_of bb).
Proof. intros (_ & f & l & ls & srcs & H). unfold get_filename, file_of. by rewrite H. Qed.

Lemma start_lines_wf l : Forall wf_block l -> start_lines l = inr (map start l).
Proof. induction 1 as [|bb l Hb Hl IH]; simpl; [done|]. by rewrite get_start_line_wf, IH. Qed.

Lemma search_keys_wf bb l : wf_block bb -> Forall wf_block l ->
  search_keys bb l = inr (match l with [] => 0 | _ => start bb end, map start l).
Proof.
  intros Hb Hl. unfold search_keys. destruct l as [|b l]; [done|].
  by rewrite get_start_line_wf, start_lines_wf by done.
Qed.

(** ** Searches in sorted sequences *)

Lemma position_of_take p ks : Forall (fun k => p k = false) (take (position_of p ks) ks).
Proof.
  induction ks as [|k ks IH]; simpl; [constructor|]. destruct (p k) eqn:Hp; simpl; constructor; done.
Qed.

Lemma position_of_drop p ks : Forall (fun k => p k = true) (take 1 (drop (position_of p ks) ks)).
Proof.
  induction ks as [|k ks IH]; simpl; [constructor|]. destruct (p k) eqn:Hp; simpl; [by constructor|done].
Qed.

Lemma position_of_le p ks : (position_of p ks <= length ks)%nat.
Proof. induction ks as [|k ks IH]; simpl; [lia|]. destruct (p k); lia. Qed.

Definition sorted_blocks (l : list basic_block) : Prop := StronglySorted Z.lt (map start l).

(** The place of a key splits a set into the smaller and the greater ones, with
    the block of the key, if there is one, between them. *)
Lemma split_at_key l k :
  sorted_blocks l ->
  let i := position_of (fun x => k <=? x) (map start l) in
  exists l1 l2, l1 = take i l /\ length l1 = i /\ Forall (fun b => start b < k) l1 /\
    Forall (fun b => k < start b) l2 /\
    ((l = l1 ++ l2 /\ map start l !! i <> Some k) \/ exists b, start b = k /\ l = l1 ++ b :: l2).
Proof.
  intros Hs i. pose proof (position_of_take (fun x => k <=? x) (map start l)) as Ht.
  pose proof (position_of_drop (fun x => k <=? x) (map start l)) as Hd.
  pose proof (position_of_le (fun x => k <=? x) (map start l)) as Hle. rewrite length_map in Hle.
  fold i in Ht, Hd, Hle.
  rewrite firstn_map in Ht. rewrite skipn_map in Hd.
  assert (H1 : Forall (fun b => start b < k) (take i l)).
  { rewrite List.Forall_map in Ht. eapply Forall_impl; [exact Ht|]. intros b Hb. simpl in Hb. lia. }
  unfold sorted_blocks in Hs. rewrite <-(take_drop i l), map_app in Hs.
  destruct (drop i l) as [|b l2] eqn:Hl2.
  - exists (take i l), []. split_and!; [done|rewrite length_take; lia|done|constructor|]. left. split.
    + rewrite <-(take_drop i l) at 1. by rewrite Hl2.
    + rewrite list_lookup_fmap. rewrite lookup_ge_None_2; [done|].
      apply (f_equal length) in Hl2. rewrite length_drop in Hl2. simpl in Hl2. lia.
  - cbn [map] in Hd, Hs. apply Forall_cons in Hd as [Hb _]. apply sorted_mid in Hs as [_ Hs].
    rewrite List.Forall_map in Hs.
    destruct (decide (start b = k)) as [Hk|Hk].
    + exists (take i l), l2. split_and!; [done|rewrite length_take; lia|done| |].
      * eapply Forall_impl; [exact Hs|]. intros c Hc. simpl in Hc. lia.
      * right. exists b. split; [done|]. by rewrite <-Hl2, take_drop.
    + exists (take i l), (b :: l2). split_and!; [done|rewrite length_take; lia|done| |].
      * constructor; [lia|]. eapply Forall_impl; [exact Hs|]. intros c Hc. simpl in Hc. lia.
      * left. rewrite <-Hl2, take_drop. split; [done|].
        rewrite list_lookup_fmap. replace (l !! i) with (Some b); [simpl; congruence|].
        rewrite <-(Nat.add_0_r i), <-lookup_drop, Hl2. done.
Qed.

Lemma position_of_app p ks1 ks2 :
  Forall (fun k => p k = false) ks1 -> Forall (fun k => p k = true) ks2 -> position_of p (ks1 ++ ks2) = length ks1.
Proof.
  induction 1 as [|k ks1 Hk _ IH]; intros H2; simpl.
  - destruct H2 as [|k ks2 Hk _]; simpl; [done|]. by rewrite Hk.
  - rewrite Hk. by rewrite IH.
Qed.

Lemma position_between k l1 l2 :
  Forall (fun b => start b < k) l1 -> Forall (fun b => k <= start b) l2 ->
  position_of (fun x => k <=? x) (map start (l1 ++ l2)) = length l1.
Proof.
  intros H1 H2. rewrite map_app, position_of_app; [by rewrite length_map|..]; rewrite List.Forall_map.
  - eapply Forall_impl; [exact H1|]. intros b Hb. simpl in *. lia.
  - eapply Forall_impl; [exact H2|]. intros b Hb. simpl in *. lia.
Qed.

Lemma set_insert_between bb l1 l2 :
  wf_block bb -> Forall wf_block (l1 ++ l2) -> Forall (fun b => start b < start bb) l1 ->
  Forall (fun b => start bb < start b) l2 -> set_insert bb (l1 ++ l2) = inr (l1 ++ bb :: l2).
Proof.
  intros Hb Hl H1 H2. unfold set_insert. rewrite search_keys_wf by done.
  destruct (l1 ++ l2) as [|b l] eqn:El; [by apply app_nil in El as [-> ->]|]. rewrite <-El.
  assert (H2' : Forall (fun b => start bb <= start b) l2) by (eapply Forall_impl; [exact H2|]; intros c Hc; simpl in *; lia).
  rewrite (position_between _ _ _ H1 H2'). rewrite bool_decide_false.
  - by rewrite take_app_length, drop_app_length.
  - rewrite map_app, lookup_app_r by (by rewrite length_map). rewrite length_map, Nat.sub_diag.
    destruct H2 as [|c l2 Hc _]; simpl; [done|]. intros [= Heq]. simpl in Hc. lia.
Qed.

(** Looking for a block in a set without its key, and in one with it. *)
Lemma set_find_none bb l1 l2 :
  wf_block bb -> Forall wf_block (l1 ++ l2) -> l1 ++ l2 <> [] -> Forall (fun b => start b < start bb) l1 ->
  Forall (fun b => start bb < start b) l2 -> set_find bb (l1 ++ l2) = inr None.
Proof.
  intros Hb Hl Hne H1 H2. unfold set_find. rewrite search_keys_wf by done.
  destruct (l1 ++ l2) as [|b l] eqn:El; [done|]. rewrite <-El.
  assert (H2' : Forall (fun b => start bb <= start b) l2) by (eapply Forall_impl; [exact H2|]; intros c Hc; simpl in *; lia).
  rewrite (position_between _ _ _ H1 H2'). rewrite bool_decide_false; [done|].
  rewrite map_app, lookup_app_r by (by rewrite length_map). rewrite length_map, Nat.sub_diag.
  destruct H2 as [|c l2 Hc _]; simpl; [done|]. intros [= Heq]. simpl in Hc. lia.
Qed.

Lemma set_find_some bb l1 b l2 :
  wf_block bb -> Forall wf_block (l1 ++ b :: l2) -> start b = start bb -> Forall (fun b => start b < start bb) l1 ->
  Forall (fun b => start bb < start b) l2 -> set_find bb (l1 ++ b :: l2) = inr (Some (length l1)).
Proof.
  intros Hb Hl Hs H1 H2. unfold set_find. rewrite search_keys_wf by done.
  destruct (l1 ++ b :: l2) as [|c l] eqn:El; [by destruct l1|]. rewrite <-El.
  rewrite position_between; [|done|].
  - rewrite bool_decide_true; [done|].
    rewrite map_app, lookup_app_r by (by rewrite length_map). rewrite length_map, Nat.sub_diag. simpl. congruence.
  - constructor; [lia|]. eapply Forall_impl; [exact H2|]. intros d Hd. simpl in *. lia.
Qed.

(** ** The invariant *)

(** [line] is one of the lines of [f] in the table [m]. *)
Definition covers (m : gmap string (gset Z)) (f : string) (line : Z) : Prop := line ∈ default ∅ (m !! f).

Definition block_lines (bb : basic_block) (f : string) (line : Z) : Prop :=
  exists ls, mkSourceLine f ls ∈ source_lines bb /\ line ∈ ls.

Section Tables.
Context {R : Type} (file_prefix : string).
Implicit Types s : bb2lines R.

Record tables_ok (s : bb2lines R) : Prop := {
  to_wf : forall key bbs, basic_blocks_map s !! key = Some bbs -> Forall wf_block bbs;
  to_sorted : forall key bbs, basic_blocks_map s !! key = Some bbs -> sorted_blocks bbs;
  to_key : forall key bbs bb, basic_blocks_map s !! key = Some bbs -> bb ∈ bbs -> prefixed file_prefix (file_of bb) = key;
  to_coverable : forall key bbs bb f l, basic_blocks_map s !! key = Some bbs -> bb ∈ bbs -> block_lines bb f l ->
    covers (coverable_lines s) f l;
  to_addr : forall addr bb, basic_blocks_addr_map s !! addr = Some bb -> is_valid bb = true ->
    wf_block bb /\ forall f l, block_lines bb f l -> covers (coverable_lines s) f l;
  to_covered : forall f l, covers (covered_lines s) f l -> covers (coverable_lines s) f l;
  to_files : dom (coverable_lines s) ⊆ dom (covered_lines s)
}.

Lemma tables_ok_init (r : R) : tables_ok (bb_init r).
Proof. by constructor. Qed.

(** The table of blocks has the lines [sl] under a source file and a start line. *)
Definition has_lines (s : bb2lines R) (key : string) (k : Z) (sl : source_line) : Prop :=
  exists bbs bb, basic_blocks_map s !! key = Some bbs /\ bb ∈ bbs /\ start bb = k /\ sl ∈ source_lines bb.

(** What the blocks of the notes add to the tables. *)
Record grows (blocks : list basic_block) (s s' : bb2lines R) : Prop := {
  gr_ok : tables_ok s';
  gr_coverable : forall f l, covers (coverable_lines s') f l <->
    covers (coverable_lines s) f l \/ exists bb, bb ∈ blocks /\ block_lines bb f l;
  gr_blocks : forall key k sl, has_lines s' key k sl <->
    has_lines s key k sl \/
    exists bb, bb ∈ blocks /\ prefixed file_prefix (file_of bb) = key /\ start bb = k /\ sl ∈ source_lines bb;
  gr_covered : forall f l, covers (covered_lines s') f l <-> covers (covered_lines s) f l;
  gr_addr : basic_blocks_addr_map s' = basic_blocks_addr_map s;
  gr_out : out s' = out s
}.

Lemma grows_nil s : tables_ok s -> grows [] s s.
Proof.
  intros H. constructor; try done.
  - intros f l. split; [auto|]. intros [Hc|(bb & Hb & _)]; [done|]. by apply elem_of_nil in Hb.
  - intros key k sl. split; [auto|]. intros [Hc|(bb & Hb & _)]; [done|]. by apply elem_of_nil in Hb.
Qed.

Lemma grows_app bs1 bs2 s1 s2 s3 : grows bs1 s1 s2 -> grows bs2 s2 s3 -> grows (bs1 ++ bs2) s1 s3.
Proof.
  intros [O1 C1 B1 V1 A1 U1] [O2 C2 B2 V2 A2 U2]. constructor; [done| | | |congruence..].
  - intros f l. rewrite C2, C1. setoid_rewrite elem_of_app. naive_solver.
  - intros key k sl. rewrite B2, B1. setoid_rewrite elem_of_app. naive_solver.
  - intros f l. by rewrite V2, V1.
Qed.

(** Changes of the reader and of the functions do not matter. *)
Definition same_tables (s s' : bb2lines R) : Prop :=
  basic_blocks_addr_map s' = basic_blocks_addr_map s /\ covered_lines s' = covered_lines s /\
  coverable_lines s' = coverable_lines s /\ basic_blocks_map s' = basic_blocks_map s /\ out s' = out s.

Lemma same_tables_ok s s' : same_tables s s' -> tables_ok s -> tables_ok s'.
Proof. intros (H1 & H2 & H3 & H4 & H5) []. constructor; rewrite ?H1, ?H2, ?H3, ?H4; done. Qed.

Lemma same_tables_grows s s' : same_tables s s' -> tables_ok s -> grows [] s s'.
Proof.
  intros H Hs. pose proof (same_tables_ok _ _ H Hs) as Hs'. destruct H as (H1 & H2 & H3 & H4 & H5).
  destruct (grows_nil s Hs) as [_ C B V A U]. unfold has_lines in *.
  constructor; [done| | | |by rewrite H1|by rewrite H5].
  - intros f l. rewrite H3. apply C.
  - intros key k sl. unfold has_lines. rewrite H4. apply B.
  - intros f l. by rewrite H2.
Qed.

(** ** The lines of a block become coverable *)

Lemma covers_at_key k f (m : gmap string (gset Z)) k' l :
  covers (at_key k f m) k' l <-> if decide (k = k') then l ∈ f (default ∅ (m !! k)) else covers m k' l.
Proof.
  unfold covers, at_key. destruct (decide (k = k')) as [->|Hne]; [by rewrite lookup_insert_eq|].
  by rewrite lookup_insert_ne.
Qed.

Lemma dom_at_key k f (m : gmap string (gset Z)) : dom (at_key k f m) = {[k]} ∪ dom m.
Proof. unfold at_key. by rewrite dom_insert_L. Qed.

(** Only the tables of lines differ. *)
Definition same_blocks (s s' : bb2lines R) : Prop :=
  reader s' = reader s /\ basic_blocks_addr_map s' = basic_blocks_addr_map s /\
  functions_map s' = functions_map s /\ basic_blocks_map s' = basic_blocks_map s /\ out s' = out s.

Lemma same_blocks_trans s1 s2 s3 : same_blocks s1 s2 -> same_blocks s2 s3 -> same_blocks s1 s3.
Proof. unfold same_blocks. intuition congruence. Qed.

Lemma coverable_lines_run f ls : forall s,
  exists s' r, mapM (fun line => set_coverable (at_key f (fun x => {[line]} ∪ x))) ls s = inr (r, s') /\
    same_blocks s s' /\ covered_lines s' = covered_lines s /\
    dom (coverable_lines s') ⊆ {[f]} ∪ dom (coverable_lines s) /\
    (forall g l, covers (coverable_lines s') g l <-> covers (coverable_lines s) g l \/ (g = f /\ l ∈ ls)).
Proof.
  induction ls as [|line ls IH]; intros s.
  { exists s, []. split_and!; try done; [set_solver|]. intros g l. rewrite elem_of_nil. tauto. }
  cbn [mapM]. set (s1 := mkBB (reader s) (basic_blocks_addr_map s) (covered_lines s)
    (at_key f (fun x => {[line]} ∪ x) (coverable_lines s)) (functions_map s) (basic_blocks_map s) (counts s) (out s)).
  destruct (IH s1) as (s2 & r & Hrun & Hsb & Hcv & Hd & Hc).
  exists s2, (tt :: r). rewrite (dbind _ _ _ tt s1), (dbind _ _ _ _ _ Hrun) by done. split_and!; try done.
  - simpl in Hd. rewrite dom_at_key in Hd. set_solver.
  - intros g l. rewrite Hc. simpl. rewrite covers_at_key, elem_of_cons.
    destruct (decide (f = g)) as [->|Hne]; [|naive_solver].
    rewrite elem_of_union, elem_of_singleton. unfold covers. naive_solver.
Qed.

Lemma add_coverable_run sl s :
  exists s', add_coverable sl s = inr (tt, s') /\ same_blocks s s' /\
    dom (covered_lines s') = {[sl_filename sl]} ∪ dom (covered_lines s) /\
    dom (coverable_lines s') ⊆ {[sl_filename sl]} ∪ dom (coverable_lines s) /\
    (forall g l, covers (covered_lines s') g l <-> covers (covered_lines s) g l) /\
    (forall g l, covers (coverable_lines s') g l <->
       covers (coverable_lines s) g l \/ (g = sl_filename sl /\ l ∈ sl_lines sl)).
Proof.
  unfold add_coverable. set (s1 := mkBB (reader s) (basic_blocks_addr_map s)
    (at_key (sl_filename sl) (fun x => x) (covered_lines s)) (coverable_lines s) (functions_map s)
    (basic_blocks_map s) (counts s) (out s)).
  destruct (coverable_lines_run (sl_filename sl) (sl_lines sl) s1) as (s2 & r & Hrun & Hsb & Hcv & Hd & Hc).
  exists s2. rewrite (dbind _ _ _ tt s1), (dbind _ _ _ _ _ Hrun) by done. split_and!; try done.
  - rewrite Hcv. simpl. by rewrite dom_at_key.
  - intros g l. rewrite Hcv. simpl. rewrite covers_at_key. destruct (decide (sl_filename sl = g)) as [<-|]; done.
Qed.

Lemma add_coverables_run sls : forall s,
  exists s' r, mapM add_coverable sls s = inr (r, s') /\ same_blocks s s' /\
    (dom (coverable_lines s) ⊆ dom (covered_lines s) -> dom (coverable_lines s') ⊆ dom (covered_lines s')) /\
    (forall g l, covers (covered_lines s') g l <-> covers (covered_lines s) g l) /\
    (forall g l, covers (coverable_lines s') g l <->
       covers (coverable_lines s) g l \/ exists sl, sl ∈ sls /\ g = sl_filename sl /\ l ∈ sl_lines sl).
Proof.
  induction sls as [|sl sls IH]; intros s.
  { exists s, []. split_and!; try done. intros g l. split; [auto|]. intros [?|(sl & H & _)]; [done|].
    by apply elem_of_nil in H. }
  cbn [mapM]. destruct (add_coverable_run sl s) as (s1 & Hrun1 & Hsb1 & Hd1 & Hd1' & Hv1 & Hc1).
  destruct (IH s1) as (s2 & r & Hrun2 & Hsb2 & Hd2 & Hv2 & Hc2).
  exists s2, (tt :: r). rewrite (dbind _ _ _ _ _ Hrun1), (dbind _ _ _ _ _ Hrun2). split_and!; try done.
  - by eapply same_blocks_trans.
  - intros Hd. apply Hd2. set_solver.
  - intros g l. by rewrite Hv2, Hv1.
  - intros g l. rewrite Hc2, Hc1. setoid_rewrite elem_of_cons. naive_solver.
Qed.

(** ** A block enters the tables *)

Lemma wf_block_more bb extra :
  wf_block bb -> let nb := mkBlock (blockno bb) (source_lines bb ++ extra) (is_valid bb) in
  wf_block nb /\ start nb = start bb /\ file_of nb = file_of bb.
Proof.
  intros (Hv & f & l & ls & srcs & H). unfold wf_block, start, file_of. simpl. rewrite H. simpl.
  split_and!; try done. by eexists _, _, _, _.
Qed.

Lemma elem_of_all_lines sl (mid : list basic_block) :
  sl ∈ concat (map source_lines mid) <-> exists c, c ∈ mid /\ sl ∈ source_lines c.
Proof.
  rewrite list_elem_of_In, in_concat. setoid_rewrite in_map_iff. setoid_rewrite list_elem_of_In. naive_solver.
Qed.

(** The set of the block's file: the smaller ones [l1], the block with the same
    start line, if any, and the greater ones. *)
Lemma insert_grows s s1 s' bb nb l1 mid l2 :
  tables_ok s -> wf_block bb -> same_blocks s s1 ->
  dom (coverable_lines s1) ⊆ dom (covered_lines s1) ->
  (forall g l, covers (covered_lines s1) g l <-> covers (covered_lines s) g l) ->
  (forall g l, covers (coverable_lines s1) g l <->
     covers (coverable_lines s) g l \/ exists sl, sl ∈ source_lines bb /\ g = sl_filename sl /\ l ∈ sl_lines sl) ->
  let key := prefixed file_prefix (file_of bb) in
  default [] (basic_blocks_map s !! key) = l1 ++ mid ++ l2 ->
  Forall (fun b => start b < start bb) l1 -> Forall (fun b => start bb < start b) l2 ->
  Forall (fun b => start b = start bb) mid ->
  wf_block nb -> start nb = start bb -> file_of nb = file_of bb ->
  source_lines nb = source_lines bb ++ concat (map source_lines mid) ->
  basic_blocks_map s' = <[key := l1 ++ nb :: l2]> (basic_blocks_map s) ->
  covered_lines s' = covered_lines s1 -> coverable_lines s' = coverable_lines s1 ->
  basic_blocks_addr_map s' = basic_blocks_addr_map s -> out s' = out s ->
  grows [bb] s s'.
Proof.
  intros [Twf Tso Tkey Tcov Taddr Tcd Tf] Hb Hsb Hd Hv Hc key Hset H1 H2 Hm Hnb Hns Hnf Hsl Hbs Hcd Hcb Ha Ho.
  set (bbs := l1 ++ mid ++ l2) in *.
  assert (Hold : forall b, b ∈ bbs -> basic_blocks_map s !! key = Some bbs).
  { intros b Hin. destruct (basic_blocks_map s !! key) as [x|]; simpl in Hset; [by rewrite Hset|].
    rewrite <-Hset in Hin. by apply elem_of_nil in Hin. }
  assert (Hwf : Forall wf_block bbs).
  { apply Forall_forall. intros b Hin. pose proof (Twf _ _ (Hold _ Hin)) as Hw. rewrite Forall_forall in Hw. auto. }
  assert (Hso : sorted_blocks bbs).
  { destruct (basic_blocks_map s !! key) as [x|] eqn:Ex; simpl in Hset; rewrite <-Hset; [by eapply Tso|constructor]. }
  assert (Hin : forall b, b ∈ l1 ++ nb :: l2 -> b = nb \/ b ∈ bbs).
  { intros b. unfold bbs. rewrite !elem_of_app, elem_of_cons. tauto. }
  assert (Hlines : forall f l, covers (coverable_lines s') f l <-> covers (coverable_lines s) f l \/ block_lines bb f l).
  { intros f l. rewrite Hcb, Hc. unfold block_lines. split; (intros [H|H]; [by left|right]).
    - destruct H as ([g ls] & Hin' & -> & Hl). by exists ls.
    - destruct H as (ls & Hin' & Hl). by exists (mkSourceLine f ls). }
  constructor; [constructor| | | |done|done].
  - intros k x. rewrite Hbs, lookup_insert_Some. intros [[<- <-]|[_ Hx]]; [|by eapply Twf].
    apply Forall_forall. intros b [->|Hx]%Hin; [done|]. rewrite Forall_forall in Hwf. auto.
  - intros k x. rewrite Hbs, lookup_insert_Some. intros [[<- <-]|[_ Hx]]; [|by eapply Tso].
    unfold sorted_blocks in *. unfold bbs in Hso. rewrite !map_app in Hso. rewrite map_app. cbn [map].
    apply sorted_insert; [by apply sorted_remove in Hso|rewrite List.Forall_map, Hns; done..].
  - intros k x b. rewrite Hbs, lookup_insert_Some. intros [[<- <-]|[_ Hx]] Hbx; [|by eapply Tkey].
    apply Hin in Hbx as [->|Hbx]; [by rewrite Hnf|]. by eapply Tkey; [apply (Hold b)|].
  - intros k x b f l. rewrite Hbs, lookup_insert_Some, Hlines. intros [[<- <-]|[_ Hx]] Hbx Hl; [|left; by eapply Tcov].
    apply Hin in Hbx as [->|Hbx]; [|left; by eapply Tcov; [apply (Hold b)| |]].
    destruct Hl as (ls & Hls & Hl). rewrite Hsl, elem_of_app in Hls. destruct Hls as [Hls|Hls].
    + right. by exists ls.
    + left. apply elem_of_all_lines in Hls as (c & Hc' & Hy).
      assert (Hcb' : c ∈ bbs) by (unfold bbs; set_solver). eapply Tcov; [apply (Hold c Hcb')|done|by exists ls].
  - intros addr b. rewrite Ha. intros Hx Hvb. destruct (Taddr _ _ Hx Hvb) as [Hw Hl]. split; [done|].
    intros f l Hfl. rewrite Hlines. left. by apply Hl.
  - intros f l. rewrite Hcd, Hv, Hlines. intros H. left. by apply Tcd.
  - by rewrite Hcd, Hcb.
  - intros f l. rewrite Hlines. setoid_rewrite list_elem_of_singleton. naive_solver.
  - intros k q sl. unfold has_lines. setoid_rewrite Hbs. setoid_rewrite list_elem_of_singleton. split.
    + intros (x & b & Hx & Hbx & Hq & Hs). apply lookup_insert_Some in Hx as [[<- <-]|[Hne Hx]]; [|left; by exists x, b].
      apply Hin in Hbx as [->|Hbx]; [|left; exists bbs, b; split; [by apply (Hold b)|done]].
      rewrite Hsl, elem_of_app in Hs. destruct Hs as [Hs|Hs].
      * right. exists bb. split_and!; try done. by rewrite <-Hq, Hns.
      * left. apply elem_of_all_lines in Hs as (c & Hc' & Hy).
        assert (Hcb' : c ∈ bbs) by (unfold bbs; set_solver). rewrite Forall_forall in Hm.
        exists bbs, c. split_and!; try done; [by apply (Hold c)|]. rewrite (Hm _ Hc'). congruence.
    + intros [(x & b & Hx & Hbx & Hq & Hs)|(b & -> & <- & Hq & Hs)].
      * destruct (decide (k = key)) as [->|Hne]; [|exists x, b; by rewrite lookup_insert_ne by done].
        assert (x = bbs) as -> by (rewrite Hx in Hset; done).
        unfold bbs in Hbx. rewrite !elem_of_app in Hbx. exists (l1 ++ nb :: l2). destruct Hbx as [Hbx|[Hbx|Hbx]].
        -- exists b. rewrite lookup_insert_eq. split_and!; try done. set_solver.
        -- exists nb. rewrite lookup_insert_eq. rewrite Forall_forall in Hm. split_and!; [done|set_solver| |].
           ++ rewrite Hns, <-Hq. symmetry. by apply Hm.
           ++ rewrite Hsl, elem_of_app. right. apply elem_of_all_lines. by exists b.
        -- exists b. rewrite lookup_insert_eq. split_and!; try done. set_solver.
      * exists (l1 ++ nb :: l2), nb. rewrite lookup_insert_eq. split_and!; [done|set_solver|congruence|].
        rewrite Hsl. set_solver.
  - intros f l. by rewrite Hcd, Hv.
Qed.

Lemma merge_run bb s key l1 l2 bbs :
  wf_block bb -> Forall wf_block bbs -> default [] (basic_blocks_map s !! key) = bbs ->
  Forall (fun b => start b < start bb) l1 -> Forall (fun b => start bb < start b) l2 ->
  bbs = l1 ++ l2 \/ (exists b, start b = start bb /\ bbs = l1 ++ b :: l2) ->
  exists nb mid s', merge_with_existing key bb s = inr (nb, s') /\ bbs = l1 ++ mid ++ l2 /\
    Forall (fun b => start b = start bb) mid /\ wf_block nb /\ start nb = start bb /\ file_of nb = file_of bb /\
    source_lines nb = source_lines bb ++ concat (map source_lines mid) /\
    basic_blocks_map s' !! key = (match bbs with [] => basic_blocks_map s !! key | _ => Some (l1 ++ l2) end) /\
    (forall x, <[key := x]> (basic_blocks_map s') = <[key := x]> (basic_blocks_map s)) /\
    reader s' = reader s /\ basic_blocks_addr_map s' = basic_blocks_addr_map s /\
    covered_lines s' = covered_lines s /\ coverable_lines s' = coverable_lines s /\ out s' = out s.
Proof.
  intros Hb Hwf Hset H1 H2 Hcase. unfold merge_with_existing. rewrite (dbind _ _ _ s s) by done. cbv beta.
  destruct (basic_blocks_map s !! key) as [x|] eqn:Ex; simpl in Hset.
  2:{ subst bbs. destruct Hcase as [Hn|(b & _ & Hn)]; [|by destruct l1].
      symmetry in Hn. apply app_nil in Hn as [-> ->]. exists bb, [], s. simpl. by rewrite app_nil_r. }
  subst x. destruct bbs as [|b0 bbs].
  { destruct Hcase as [Hn|(b & _ & Hn)]; [|by destruct l1].
    symmetry in Hn. apply app_nil in Hn as [-> ->]. exists bb, [], s. simpl. by rewrite app_nil_r. }
  destruct Hcase as [Hn|(b & Hbk & Hn)].
  - unfold lift_exn at 1, mbind at 1, M_bind at 1. rewrite Hn in *.
    rewrite (set_find_none bb l1 l2 Hb Hwf) by (done || by rewrite <-Hn).
    exists bb, [], s. simpl. by rewrite app_nil_r.
  - unfold lift_exn at 1, mbind at 1, M_bind at 1. rewrite Hn in *.
    rewrite (set_find_some bb l1 b l2 Hb Hwf) by done.
    unfold lift_exn at 1, mbind at 1, M_bind at 1. rewrite (get_start_line_wf bb Hb).
    rewrite list_lookup_middle by done. rewrite delete_middle.
    destruct (wf_block_more bb (source_lines b) Hb) as (Hw & Hs & Hf).
    eexists _, [b], _. split; [reflexivity|]. simpl. rewrite app_nil_r. split_and!; try done.
    + by repeat constructor.
    + by rewrite lookup_insert_eq.
    + intros x. by rewrite insert_insert_eq.
Qed.

Lemma add_basic_block_run bb s :
  tables_ok s -> wf_block bb ->
  exists s', add_basic_block file_prefix bb s = inr (tt, s') /\ reader s' = reader s /\ grows [bb] s s'.
Proof.
  intros Hs Hb. set (key := prefixed file_prefix (file_of bb)). set (bbs := default [] (basic_blocks_map s !! key)).
  set (s0 := mkBB (reader s) (basic_blocks_addr_map s) (covered_lines s) (coverable_lines s) (functions_map s)
    (basic_blocks_map s) (more_read (counts s)) (out s)).
  destruct (add_coverables_run (source_lines bb) s0) as (s1 & r & Hrun & Hsb & Hd & Hv & Hc).
  assert (Hwf : Forall wf_block bbs).
  { unfold bbs. destruct (basic_blocks_map s !! key) as [x|] eqn:Ex; simpl; [by eapply to_wf|constructor]. }
  assert (Hso : sorted_blocks bbs).
  { unfold bbs. destruct (basic_blocks_map s !! key) as [x|] eqn:Ex; simpl; [by eapply to_sorted|constructor]. }
  destruct (split_at_key bbs (start bb) Hso) as (l1 & l2 & _ & _ & H1 & H2 & Hcase).
  pose proof Hsb as (Hr & Ha & Hf & Hbm & Ho).
  destruct (merge_run bb s1 key l1 l2 bbs) as (nb & mid & s2 & Hm & Hset & Hmid & Hnb & Hns & Hnf & Hsl & Hk & Hi &
    Hr2 & Ha2 & Hcd & Hcb & Ho2); [done|done|by rewrite Hbm|done|done| |].
  { destruct Hcase as [[? _]|?]; [by left|by right]. }
  assert (Hins : set_insert nb (default [] (basic_blocks_map s2 !! key)) = inr (l1 ++ nb :: l2)).
  { replace (default [] (basic_blocks_map s2 !! key)) with (l1 ++ l2).
    - apply set_insert_between; [done| |by rewrite Hns..].
      rewrite Hset in Hwf. rewrite !Forall_app in *. tauto.
    - rewrite Hk. destruct bbs as [|b0 bbs'] eqn:Eb; [|done]. rewrite Hbm.
      symmetry in Hset. apply app_nil in Hset as [-> Hset]. apply app_nil in Hset as [_ ->]. symmetry. exact Eb. }
  exists (mkBB (reader s2) (basic_blocks_addr_map s2) (covered_lines s2) (coverable_lines s2) (functions_map s2)
    (<[key := l1 ++ nb :: l2]> (basic_blocks_map s2)) (counts s2) (out s2)).
  split_and!.
  - unfold add_basic_block. rewrite (dbind _ _ _ tt s0) by done. cbv beta.
    rewrite (dbind _ _ _ (file_of bb) s0) by (unfold lift_exn; by rewrite get_filename_wf).
    cbv beta zeta. fold key. rewrite (dbind _ _ _ _ _ Hrun), (dbind _ _ _ _ _ Hm), (dbind _ _ _ s2 s2) by done.
    by rewrite (dbind _ _ _ (l1 ++ nb :: l2) s2) by (unfold lift_exn; by rewrite Hins).
  - simpl. by rewrite Hr2, Hr.
  - eapply (insert_grows s s1 _ bb nb l1 mid l2); simpl; try done.
    + apply Hd, Hs.
    + by rewrite Hi, Hbm.
    + by rewrite Ha2, Ha.
    + by rewrite Ho2, Ho.
Qed.

(** ** The functions are left alone *)

Definition keeps_functions {A} (c : M (bb2lines R) exn A) : Prop :=
  forall s a s', c s = inr (a, s') -> functions_map s' = functions_map s.

Lemma keeps_functions_bind {A B} (c : M (bb2lines R) exn A) (k : A -> M (bb2lines R) exn B) :
  keeps_functions c -> (forall a, keeps_functions (k a)) -> keeps_functions (c ≫= k).
Proof.
  intros Hc Hk s b s'. unfold mbind, M_bind. destruct (c s) as [|[a s1]] eqn:E; [done|].
  intros Hb. rewrite (Hk _ _ _ _ Hb). by eapply Hc.
Qed.

Lemma keeps_functions_pure {A} (r : exn + A) : keeps_functions (lift_exn r).
Proof. intros s a s'. unfold lift_exn. destruct r; [done|]. by intros [= _ <-]. Qed.

Lemma keeps_functions_mapM {A B} (f : A -> M (bb2lines R) exn B) l :
  (forall x, keeps_functions (f x)) -> keeps_functions (mapM f l).
Proof.
  intros Hf. induction l as [|x l IH]; cbn [mapM]; [by intros s a s' [= _ <-]|].
  apply keeps_functions_bind; [done|]. intros y. apply keeps_functions_bind; [done|]. by intros r s a s' [= _ <-].
Qed.

Lemma add_basic_block_functions bb : keeps_functions (add_basic_block file_prefix bb).
Proof.
  unfold add_basic_block, add_coverable, merge_with_existing.
  repeat first
    [ apply keeps_functions_bind; [|intros ?] | apply keeps_functions_pure | apply keeps_functions_mapM; intros ?
    | case_match | by intros ? ? ? [= <- <-] | by intros ? ? ? [= <-] ].
Qed.
End Tables.
