(* ===== verification/GcnoProps.v ===== *)
(** * Reading back the notes of the compiler

    What read_graph_file takes from a file that was written in the format of the
    notes: every basic block of every named function enters the tables, in either
    byte order. *)
From Stdlib Require Import Ascii String.
From S2P Require Import Prelude LockTypes CxxStd GcovIo GcovIoProps Bb2Lines BbTableProps.
Local Open Scope list_scope.
Local Open Scope Z_scope.

(** ** Swapping bytes *)

Lemma testbit_high w m : 0 <= w < 2 ^ 32 -> 32 <= m -> Z.testbit w m = false.
Proof. intros Hw Hm. rewrite <-(Z.mod_small w (2 ^ 32)) by lia. apply Z.mod_pow2_bits_high. lia. Qed.

Ltac eval_bits := repeat match goal with
  | |- context [Z.testbit ?w ?m] =>
      let m' := eval vm_compute in m in progress change m with m'
  | |- context [Z.testbit (Zpos ?p) ?m] => let b := eval vm_compute in (Z.testbit (Zpos p) m) in change (Z.testbit (Zpos p) m) with b
  | |- context [Z.testbit ?w (Zneg ?p)] => rewrite (Z.testbit_neg_r w (Zneg p)) by lia
  | Hw : 0 <= ?w < 2 ^ 32 |- context [Z.testbit ?w (Zpos ?p)] => rewrite (testbit_high w (Zpos p) Hw) by lia
  end.
Ltac bits := rewrite ?Z.lor_spec, ?Z.land_spec; repeat first
  [ rewrite Z.lor_spec | rewrite Z.land_spec | rewrite Z.shiftr_spec by lia | rewrite Z.mod_pow2_bits_low by lia
  | rewrite Z.shiftl_spec by lia | rewrite Z.testbit_neg_r by lia ]; eval_bits.

Lemma bswap32_bits w : 0 <= w < 2 ^ 32 ->
  Forall (fun n => Z.testbit (bswap32 w) n = Z.testbit w (8 * (3 - n / 8) + n mod 8)) (seqZ 0 32).
Proof.
  intros Hw. unfold bswap32, u32, wrap. let l := eval vm_compute in (seqZ 0 32) in change (seqZ 0 32) with l.
  repeat (apply Forall_cons_2; [bits; rewrite ?andb_false_r; by repeat destruct (Z.testbit w _)|]). apply Forall_nil_2.
Qed.

Lemma bswap32_range w : 0 <= w < 2 ^ 32 -> 0 <= bswap32 w < 2 ^ 32.
Proof.
  intros Hw. unfold bswap32, u32, wrap. set (v := Z.lor (Z.shiftr w 16) _).
  assert (Hv : 0 <= v).
  { apply Z.lor_nonneg. split; [apply Z.shiftr_nonneg; lia|]. apply Z.mod_pos_bound. lia. }
  assert (Hm : forall a, 0 <= a -> (forall m, 32 <= m -> Z.testbit a m = false) -> a < 2 ^ 32).
  { intros a Ha Hb. destruct (Z.eq_dec a 0) as [->|Hz]; [lia|]. apply Z.log2_lt_pow2; [lia|].
    destruct (Z_lt_le_dec (Z.log2 a) 32) as [|Hl]; [done|]. specialize (Hb _ Hl). by rewrite Z.bit_log2 in Hb by lia. }
  assert (0 <= Z.lor (Z.land v 16711935 ≪ 8 mod 2 ^ 32) (Z.land (v ≫ 8) 16711935)).
  { apply Z.lor_nonneg. split; [apply Z.mod_pos_bound; lia|]. apply Z.land_nonneg. by right. }
  split; [done|]. apply Hm; [done|]. intros m Hm'. rewrite Z.lor_spec, Z.land_spec, Z.mod_pow2_bits_high by lia.
  rewrite (testbit_high 16711935 m) by lia. by rewrite andb_false_r.
Qed.

Lemma bswap32_bit w n : 0 <= w < 2 ^ 32 -> 0 <= n < 32 ->
  Z.testbit (bswap32 w) n = Z.testbit w (8 * (3 - n / 8) + n mod 8).
Proof.
  intros Hw Hn. pose proof (bswap32_bits w Hw) as H. rewrite Forall_forall in H. apply H, elem_of_seqZ. lia.
Qed.

Lemma bswap32_involutive w : 0 <= w < 2 ^ 32 -> bswap32 (bswap32 w) = w.
Proof.
  intros Hw. pose proof (bswap32_range w Hw) as Hb. apply Z.bits_inj'. intros n Hn.
  destruct (Z_lt_le_dec n 32) as [Hl|Hl].
  - rewrite bswap32_bit by lia. set (q := n / 8). set (r := n mod 8).
    assert (Hnq : n = 8 * q + r) by (apply Z.div_mod; lia). assert (Hr : 0 <= r < 8) by (apply Z.mod_pos_bound; lia).
    rewrite bswap32_bit by lia. f_equal.
    replace ((8 * (3 - q) + r) / 8) with (3 - q) by (apply (Z.div_unique _ _ _ r); lia).
    replace ((8 * (3 - q) + r) mod 8) with r by (apply (Z.mod_unique _ _ (3 - q)); lia). lia.
  - rewrite !testbit_high; [done|done..|by apply bswap32_range|done].
Qed.

Definition is_u32 (w : Z) : Prop := 0 <= w < 2 ^ 32.

Lemma number_involutive e w : is_u32 w -> number e (number e w) = w.
Proof. destruct e; [apply bswap32_involutive|done]. Qed.

Lemma number_range e w : is_u32 w -> is_u32 (number e w).
Proof. destruct e; [apply bswap32_range|done]. Qed.

(** ** The format *)

(** The bytes of a file of words. *)
Definition file_bytes (words : list Z) : list Z := concat (map bytes_of_word words).

Lemma word_of_bytes w : is_u32 w ->
  word_of (w mod 256) (w / 256 mod 256) (w / 65536 mod 256) (w / 16777216) = w.
Proof.
  unfold is_u32, word_of. intros Hw. change 65536 with (256 * 256). change 16777216 with (256 * (256 * 256)).
  rewrite <-!Z.div_div by lia. pose proof (Z.div_mod w 256). pose proof (Z.div_mod (w / 256) 256).
  pose proof (Z.div_mod (w / 256 / 256) 256). lia.
Qed.

Lemma bytes_of_word_of a b c d :
  0 <= a < 256 -> 0 <= b < 256 -> 0 <= c < 256 -> 0 <= d -> bytes_of_word (word_of a b c d) = [a; b; c; d].
Proof.
  intros Ha Hb Hc Hd. unfold bytes_of_word, word_of. change 65536 with (256 * 256). change 16777216 with (256 * (256 * 256)).
  rewrite <-!Z.div_div by lia. set (x := a + _).
  assert (H1 : x / 256 = b + 256 * (c + 256 * d)) by (symmetry; apply (Z.div_unique _ _ _ a); unfold x; lia).
  assert (H2 : x / 256 / 256 = c + 256 * d) by (rewrite H1; symmetry; apply (Z.div_unique _ _ _ b); lia).
  assert (H3 : x / 256 / 256 / 256 = d) by (rewrite H2; symmetry; apply (Z.div_unique _ _ _ c); lia).
  assert (Hm : forall p q, 0 <= p < 256 -> (p + 256 * q) mod 256 = p)
    by (intros p q Hp; symmetry; apply (Z.mod_unique _ _ q); lia).
  rewrite H3, H2, H1. unfold x. rewrite !Hm by done. done.
Qed.

Lemma words_of_file words : Forall is_u32 words -> words_of (file_bytes words) = words.
Proof.
  unfold file_bytes. induction 1 as [|w words Hw _ IH]; [done|]. cbn [map concat bytes_of_word app words_of].
  by rewrite word_of_bytes, IH.
Qed.

Lemma file_bytes_length words : length (file_bytes words) = (4 * length words)%nat.
Proof. unfold file_bytes. induction words as [|w words IH]; [done|]. cbn [map concat bytes_of_word app length]. lia. Qed.

(** The words of a string: its characters, one to four NULs. *)
Definition str_bytes (s : string) : list Z := map (fun c => Z.of_nat (nat_of_ascii c)) (list_ascii_of_string s).
Definition string_words (s : string) : list Z :=
  words_of (str_bytes s ++ replicate (4 - length (str_bytes s) mod 4) 0).

Definition no_nul (s : string) : Prop := Forall (fun c => nat_of_ascii c <> 0%nat) (list_ascii_of_string s).

Definition enc_string (e : bool) (s : option string) : list Z :=
  match s with
  | None => [number e 0]
  | Some s => number e (Z.of_nat (length (string_words s))) :: string_words s
  end.

Inductive note :=
  | note_function (ident lineno_checksum cfg_checksum : Z) (name : option string) (artificial : Z)
      (source : option string) (start_line column_start end_line : Z)
  | note_lines (no : Z) (srcs : list source_line)
  | note_other (tag : Z) (payload : list Z).

Definition note_tag (n : note) : Z :=
  match n with
  | note_function _ _ _ _ _ _ _ _ _ => GCOV_TAG_FUNCTION
  | note_lines _ _ => GCOV_TAG_LINES
  | note_other tag _ => tag
  end.

Definition enc_source (e : bool) (sl : source_line) : list Z :=
  number e 0 :: enc_string e (Some (sl_filename sl)) ++ map (number e) (sl_lines sl).

Definition note_payload (e : bool) (n : note) : list Z :=
  match n with
  | note_function i l c name a source s col end_ =>
      [number e i; number e l; number e c] ++ enc_string e name ++ [number e a] ++ enc_string e source ++
      [number e s; number e col; number e end_]
  | note_lines no srcs => number e no :: concat (map (enc_source e) srcs) ++ [number e 0; number e 0]
  | note_other _ payload => payload
  end.

Definition enc_note (e : bool) (n : note) : list Z :=
  number e (note_tag n) :: number e (Z.of_nat (length (note_payload e n))) :: note_payload e n.

(** A file: magic number, version, stamp, a flag, and the notes. *)
Definition enc_file (e : bool) (version stamp unexecuted : Z) (notes : list note) : list Z :=
  map (number e) [GCOV_NOTE_MAGIC; version; stamp; unexecuted] ++ concat (map (enc_note e) notes).

(** ** The blocks of the notes *)

(** The blocks that belong to a named function; [fn] and [current_tag] are what
    the records before have left. *)
Fixpoint note_blocks (fn : bool) (current_tag : Z) (notes : list note) : list basic_block :=
  match notes with
  | [] => []
  | note_function _ _ _ name _ source _ _ _ :: notes =>
      match name, source with
      | Some _, Some _ => note_blocks true GCOV_TAG_FUNCTION notes
      | _, _ => note_blocks false current_tag notes
      end
  | note_lines no srcs :: notes =>
      if fn then mkBlock (Some no) srcs true :: note_blocks fn current_tag notes
      else note_blocks fn current_tag notes
  | note_other tag _ :: notes =>
      if negb (current_tag =? 0) && negb (GCOV_TAG_IS_SUBTAG current_tag tag) then note_blocks false 0 notes
      else note_blocks fn current_tag notes
  end.

(** The named functions. *)
Fixpoint note_functions (notes : list note) : list function_info :=
  match notes with
  | [] => []
  | note_function _ _ _ (Some name) _ (Some source) _ _ _ :: notes => mkFunction name source :: note_functions notes
  | _ :: notes => note_functions notes
  end.

(** The table of functions by source file and name. *)
Definition enter_function (file_prefix : string) (m : gmap string (gmap string function_info)) (f : function_info) :
    gmap string (gmap string function_info) :=
  let key := prefixed file_prefix (fn_source f) in <[key := <[fn_name f := f]> (default ∅ (m !! key))]> m.

Definition string_ok (s : string) : Prop := no_nul s /\ Z.of_nat (length (string_words s)) <= MAX_READ.
Definition opt_string_ok (s : option string) : Prop := match s with None => True | Some s => string_ok s end.
Definition source_ok (sl : source_line) : Prop :=
  string_ok (sl_filename sl) /\ Forall (fun l => 0 < l < 2 ^ 32) (sl_lines sl).

(** Numbers of 32 bits, strings without NUL, lines that are not zero; a block has
    a file, and the first one has a line. *)
Definition note_ok (n : note) : Prop :=
  match n with
  | note_function i l c name a source s col end_ =>
      Forall is_u32 [i; l; c; a; s; col; end_] /\ opt_string_ok name /\ opt_string_ok source
  | note_lines no srcs => is_u32 no /\ Forall source_ok srcs /\ wf_block (mkBlock (Some no) srcs true)
  | note_other tag payload =>
      0 < tag < 2 ^ 32 /\ tag <> GCOV_TAG_FUNCTION /\ tag <> GCOV_TAG_LINES /\ Forall is_u32 payload
  end.

(** ** Strings *)

Definition is_byte (b : Z) : Prop := 0 <= b < 256.

Lemma bytes_of_words n : forall l, length l = (4 * n)%nat -> Forall is_byte l ->
  concat (map bytes_of_word (words_of l)) = l.
Proof.
  induction n as [|n IH]; intros l Hl Hb; [by destruct l|].
  destruct l as [|a [|b [|c [|d l]]]]; simpl in Hl; try lia.
  repeat (apply Forall_cons in Hb as [? Hb]). cbn [words_of map concat].
  rewrite bytes_of_word_of by (unfold is_byte in *; lia). cbn [app]. rewrite IH; [done|lia|done].
Qed.

Lemma str_bytes_ok s : Forall is_byte (str_bytes s).
Proof.
  unfold str_bytes. apply List.Forall_map, Forall_forall. intros c _. unfold is_byte.
  pose proof (nat_ascii_bounded c). lia.
Qed.

Lemma until_nul_str s rest : no_nul s -> until_nul (str_bytes s ++ 0 :: rest) = Some s.
Proof.
  unfold no_nul, str_bytes. induction s as [|c s IH]; intros Hs; [done|]. cbn [list_ascii_of_string map app until_nul] in *.
  apply Forall_cons in Hs as [Hc Hs]. rewrite (proj2 (Z.eqb_neq _ _)) by lia. rewrite (IH Hs). simpl.
  by rewrite Nat2Z.id, ascii_nat_embedding.
Qed.

Lemma pad_length n : exists k m, (4 - n mod 4 = S k /\ n + S k = 4 * S m)%nat.
Proof.
  exists (3 - n mod 4)%nat, (n / 4)%nat. pose proof (Nat.div_mod n 4 ltac:(lia)).
  pose proof (Nat.mod_upper_bound n 4 ltac:(lia)). lia.
Qed.

Lemma string_words_spec s :
  (no_nul s -> words_string (string_words s) = Some s) /\ (0 < length (string_words s))%nat.
Proof.
  unfold string_words, words_string. destruct (pad_length (length (str_bytes s))) as (k & m & Hk & Hm). rewrite Hk.
  assert (Hl : length (str_bytes s ++ replicate (S k) 0) = (4 * S m)%nat) by (rewrite length_app, length_replicate; lia).
  split.
  - intros Hs. rewrite (bytes_of_words (S m)); [by apply until_nul_str|done|].
    apply Forall_app. split; [apply str_bytes_ok|]. apply Forall_replicate. unfold is_byte. lia.
  - destruct (str_bytes s ++ replicate (S k) 0) as [|a [|b [|c [|d l]]]]; simpl in Hl; try lia. simpl. lia.
Qed.

Lemma words_of_u32 : forall n l, length l = (4 * n)%nat -> Forall is_byte l -> Forall is_u32 (words_of l).
Proof.
  induction n as [|n IH]; intros l Hl Hb; [destruct l; simpl in *; [constructor|lia]|].
  destruct l as [|a [|b [|c [|d l]]]]; simpl in Hl; try lia.
  repeat (apply Forall_cons in Hb as [? Hb]). cbn [words_of].
  constructor; [unfold is_byte, is_u32, word_of in *; lia|]. apply IH; [lia|done].
Qed.

Lemma string_words_u32 s : Forall is_u32 (string_words s).
Proof.
  unfold string_words. destruct (pad_length (length (str_bytes s))) as (k & m & Hk & Hm). rewrite Hk.
  apply (words_of_u32 (S m)); [rewrite length_app, length_replicate; lia|].
  apply Forall_app. split; [apply str_bytes_ok|]. apply Forall_replicate. unfold is_byte. lia.
Qed.

(** ** Results *)

(** The run ends in a state that satisfies [Q], or in undefined behaviour [m] for
    which [bad m] holds. *)
Definition gives {S A} (bad : string -> Prop) (c : M S exn A) (s : S) (Q : A -> S -> Prop) : Prop :=
  match c s with
  | inr (a, s') => Q a s'
  | inl (undefined m) => bad m
  | inl _ => False
  end.

Lemma gives_run {S A} bad (c : M S exn A) s a s' (Q : A -> S -> Prop) : c s = inr (a, s') -> Q a s' -> gives bad c s Q.
Proof. unfold gives. by intros ->. Qed.

Lemma gives_step {S A B} bad (c : M S exn A) (k : A -> M S exn B) s a s' Q :
  c s = inr (a, s') -> gives bad (k a) s' Q -> gives bad (c ≫= k) s Q.
Proof. unfold gives. intros H. by rewrite (dbind _ _ _ _ _ H). Qed.

Lemma gives_bind {S A B} bad (c : M S exn A) (k : A -> M S exn B) s Q :
  gives bad c s (fun a s' => gives bad (k a) s' Q) -> gives bad (c ≫= k) s Q.
Proof. unfold gives, mbind, M_bind. destruct (c s) as [[]|[a s']]; done. Qed.

Lemma gives_conseq {S A} bad (c : M S exn A) s (P Q : A -> S -> Prop) :
  gives bad c s P -> (forall a s', P a s' -> Q a s') -> gives bad c s Q.
Proof. unfold gives. destruct (c s) as [[]|[a s']]; auto. Qed.

Lemma gives_weaken {S A} (bad bad' : string -> Prop) (c : M S exn A) s Q :
  gives bad c s Q -> (forall m, bad m -> bad' m) -> gives bad' c s Q.
Proof. unfold gives. destruct (c s) as [[]|[a s']]; auto. Qed.

(** Where nothing is undefined, there is a result. *)
Lemma gives_total {S A} (c : M S exn A) s Q :
  gives (fun _ => False) c s Q -> exists a s', c s = inr (a, s') /\ Q a s'.
Proof. unfold gives. destruct (c s) as [[]|[a s']]; [done..|]. intros HQ. by exists a, s'. Qed.

(** ** Reading a file *)

Section Parse.
Context {R : Type} `{GcovReader R} (fopen : string -> option (list Z)) `{!GcovReaderLaws R fopen}.
Context (file_prefix : string) (W : list Z) (e : bool).
Implicit Types s : bb2lines R.
Notation BM := (M (bb2lines R) exn).

(** A file that fits into the first buffer is read without undefined behaviour. *)
Definition small : Prop := Z.of_nat (length W) <= FIRST_BUFFER.
Definition large : Prop := FIRST_BUFFER < Z.of_nat (length W).

Definition here (r : R) (p : Z) (rest : list Z) : Prop := rd_at W e r p rest /\ (small -> rd_kept W r).
Definition keeps (r r' : R) : Prop := small -> forall q ws, rd_points r q ws -> rd_points r' q ws.

Lemma keeps_trans r1 r2 r3 : keeps r1 r2 -> keeps r2 r3 -> keeps r1 r3.
Proof. unfold keeps. auto. Qed.

Definition with_reader (r : R) (s : bb2lines R) : bb2lines R :=
  mkBB r (basic_blocks_addr_map s) (covered_lines s) (coverable_lines s) (functions_map s) (basic_blocks_map s)
    (counts s) (out s).

Lemma with_reader_same s : with_reader (reader s) s = s.
Proof. by destruct s. Qed.

Lemma lift_step {A B} bad (c : M R exn A) (k : A -> BM B) s a r' Q :
  c (reader s) = inr (a, r') -> gives bad (k a) (with_reader r' s) Q -> gives bad (lift_rd c ≫= k) s Q.
Proof. intros Hc Hk. eapply gives_step; [|exact Hk]. unfold lift_rd. by rewrite Hc. Qed.

(** One number. *)
Lemma unsigned_step {B} bad (k : Z -> BM B) v rest p s Q :
  here (reader s) p (number e v :: rest) -> is_u32 v ->
  (forall r', here r' (p + 1) rest -> keeps (reader s) r' -> gives bad (k v) (with_reader r' s) Q) ->
  gives bad (lift_rd rd_unsigned ≫= k) s Q.
Proof.
  intros [Ha Hk] Hv HQ. destruct (law_unsigned _ _ _ _ _ _ Ha) as (r' & Hrun & Ha' & Hk').
  eapply lift_step; [exact Hrun|]. rewrite number_involutive by done.
  apply HQ; [split; [done|]|]; intros Hs; by apply Hk'; auto.
Qed.

(** A string that is there. *)
Lemma string_step {B} bad (k : option rd_ptr -> BM B) str rest p s Q :
  here (reader s) p (enc_string e (Some str) ++ rest) -> string_ok str ->
  (forall q r', here r' (p + Z.of_nat (length (enc_string e (Some str)))) rest -> keeps (reader s) r' ->
     rd_points r' q (string_words str) -> gives bad (k (Some q)) (with_reader r' s) Q) ->
  gives bad (lift_rd rd_string ≫= k) s Q.
Proof.
  intros [Ha Hk] [Hn Hl] HQ. cbn [enc_string app] in Ha.
  pose proof (proj2 (string_words_spec str)) as Hpos. set (n := Z.of_nat (length (string_words str))) in *.
  assert (Hnum : number e (number e n) = n) by (apply number_involutive; unfold is_u32, MAX_READ in *; lia).
  destruct (law_string _ _ _ _ _ _ Ha) as (q & r' & Hrun & Ha' & Hp & Hk'); rewrite ?Hnum; [lia|rewrite length_app; lia|].
  rewrite Hnum in Ha', Hp. unfold n in Ha', Hp. rewrite Nat2Z.id, drop_app_length in Ha'.
  rewrite Nat2Z.id, take_app_length in Hp.
  eapply lift_step; [exact Hrun|]. apply HQ; [split|..]; [|intros Hs; by apply Hk'; auto..|done].
  cbn [enc_string length]. by replace (p + Z.of_nat (S _)) with (p + 1 + n) by lia.
Qed.

Lemma null_step {B} bad (k : option rd_ptr -> BM B) rest p s Q :
  here (reader s) p (number e 0 :: rest) ->
  (forall r', here r' (p + 1) rest -> keeps (reader s) r' -> gives bad (k None) (with_reader r' s) Q) ->
  gives bad (lift_rd rd_string ≫= k) s Q.
Proof.
  intros [Ha Hk] HQ. destruct (law_null _ _ _ _ _ _ Ha) as (r' & Hrun & Ha' & Hk').
  { apply number_involutive. unfold is_u32. lia. }
  eapply lift_step; [exact Hrun|]. apply HQ; [split; [done|]|]; intros Hs; by apply Hk'; auto.
Qed.

(** A string that may be missing. *)
Lemma opt_string_step {B} bad (k : option rd_ptr -> BM B) str rest p s Q :
  here (reader s) p (enc_string e str ++ rest) -> opt_string_ok str ->
  (forall q r', here r' (p + Z.of_nat (length (enc_string e str))) rest -> keeps (reader s) r' ->
     match q, str with None, None => True | Some q, Some str => rd_points r' q (string_words str) | _, _ => False end ->
     gives bad (k q) (with_reader r' s) Q) ->
  gives bad (lift_rd rd_string ≫= k) s Q.
Proof.
  intros Hh Hs HQ. destruct str as [str|].
  - eapply string_step; [exact Hh|done|]. intros q r' Hr Hkp Hp. by apply HQ.
  - eapply null_step; [exact Hh|]. intros r' Hr Hkp. by apply HQ.
Qed.

(** The characters of a string that was just read. *)
Lemma c_string_step {B} bad (k : string -> BM B) q str s Q :
  rd_points (reader s) q (string_words str) -> no_nul str -> gives bad (k str) s Q ->
  gives bad (lift_rd (rd_c_string q) ≫= k) s Q.
Proof.
  intros Hp Hn HQ. eapply lift_step; [|by rewrite with_reader_same].
  eapply law_c_string; [exact Hp|]. by apply string_words_spec.
Qed.

(** The characters of a string that was read before: the buffer may have been
    refilled, except for a small file. *)
Lemma stale_string_step {B} bad (k : string -> BM B) q str s Q :
  (small -> rd_points (reader s) q (string_words str)) -> no_nul str ->
  (forall m, large -> rd_c_string q (reader s) = inl (undefined m) -> bad m) ->
  (forall x, (small -> x = str) -> gives bad (k x) s Q) ->
  gives bad (lift_rd (rd_c_string q) ≫= k) s Q.
Proof.
  intros Hp Hn Hbad HQ. assert (Hx : small -> rd_c_string q (reader s) = inr (str, reader s)).
  { intros Hs. eapply law_c_string; [by apply Hp|]. by apply string_words_spec. }
  destruct (law_c_string_any (reader s) q) as [[x Hr]|[m Hm]].
  - eapply lift_step; [exact Hr|]. rewrite with_reader_same. apply HQ. intros Hs. rewrite (Hx Hs) in Hr. congruence.
  - unfold gives, mbind, M_bind, lift_rd. rewrite Hm. apply Hbad; [|done]. unfold large.
    destruct (Z_lt_le_dec FIRST_BUFFER (Z.of_nat (length W))) as [|Hs]; [done|]. by rewrite (Hx Hs) in Hm.
Qed.

(** *** The lines of a block *)

Lemma lines_run bad fuel no pre f v ls : forall l0 s p rest Q,
  here (reader s) p (map (number e) ls ++ rest) -> Forall (fun l => 0 < l < 2 ^ 32) ls ->
  (forall r', here r' (p + Z.of_nat (length ls)) rest ->
     gives bad (read_lines fuel (mkBlock no (pre ++ [mkSourceLine f (l0 ++ ls)]) v)) (with_reader r' s) Q) ->
  gives bad (read_lines (length ls + fuel) (mkBlock no (pre ++ [mkSourceLine f l0]) v)) s Q.
Proof.
  induction ls as [|l ls IH]; intros l0 s p rest Q Hh Hls HQ; cbn [map app length Nat.add] in *.
  { rewrite app_nil_r in HQ. rewrite <-(with_reader_same s). apply HQ. by rewrite Z.add_0_r. }
  apply Forall_cons in Hls as [Hl Hls]. cbn [read_lines].
  eapply unsigned_step; [exact Hh|unfold is_u32; lia|]. intros r' Hh' _.
  rewrite (proj2 (Z.eqb_neq l 0)) by lia. cbn [source_lines blockno is_valid].
  rewrite last_snoc, removelast_last. cbn [sl_filename sl_lines].
  eapply (IH (l0 ++ [l]) (with_reader r' s)); [exact Hh'|done|]. intros r'' Hh''. rewrite <-app_assoc.
  apply HQ. by replace (p + Z.of_nat (S (length ls))) with (p + 1 + Z.of_nat (length ls)) by lia.
Qed.

(** The number of rounds the loop takes for the files of a block. *)
Definition lines_cost (srcs : list source_line) : nat := list_sum (map (fun sl => S (length (sl_lines sl))) srcs).

Lemma read_lines_run bad fuel no v srcs : forall pre s p rest Q,
  let words := concat (map (enc_source e) srcs) ++ [number e 0; number e 0] in
  here (reader s) p (words ++ rest) -> Forall source_ok srcs ->
  (forall r', here r' (p + Z.of_nat (length words)) rest -> Q (mkBlock no (pre ++ srcs) v) (with_reader r' s)) ->
  gives bad (read_lines (lines_cost srcs + S fuel) (mkBlock no pre v)) s Q.
Proof.
  induction srcs as [|[f ls] srcs IH]; intros pre s p rest Q words Hh Hok HQ; cbn [lines_cost map list_sum Nat.add].
  - cbn [read_lines]. eapply unsigned_step; [exact Hh|unfold is_u32; lia|]. intros r1 Hh1 _. cbn [Z.eqb].
    eapply null_step; [exact Hh1|]. intros r2 Hh2 _. eapply gives_run; [done|].
    specialize (HQ r2). rewrite app_nil_r in HQ. apply HQ. unfold words. simpl.
    by replace (p + Z.of_nat 2) with (p + 1 + 1) by lia.
  - apply Forall_cons in Hok as [[Hf Hls] Hok]. cbn [sl_filename sl_lines] in *.
    unfold words in Hh. cbn [map concat enc_source app sl_filename sl_lines] in Hh. rewrite <-!app_assoc in Hh.
    cbn [read_lines]. eapply unsigned_step; [exact Hh|unfold is_u32; lia|]. intros r1 Hh1 _. cbn [Z.eqb].
    eapply string_step; [exact Hh1|exact Hf|]. intros q r2 Hh2 _ Hp. cbv iota beta.
    eapply c_string_step; [exact Hp|apply Hf|]. cbn [blockno source_lines is_valid].
    rewrite <-Nat.add_assoc. eapply (lines_run _ _ _ _ _ _ _ []); [exact Hh2|exact Hls|]. intros r3 Hh3.
    eapply (IH (pre ++ [mkSourceLine f ls])); [rewrite <-!app_assoc; exact Hh3|exact Hok|]. intros r4 Hh4.
    rewrite <-app_assoc. apply HQ. unfold words.
    match goal with |- here _ ?x _ => match type of Hh4 with here _ ?y _ => replace x with y; [exact Hh4|] end end.
    cbn [map concat enc_source app sl_filename sl_lines length]. rewrite !length_app, length_map. simpl. lia.
Qed.

(** *** A function *)

Definition registered (fs : list function_info) (s s' : bb2lines R) : Prop :=
  small -> functions_map s' = foldl (enter_function file_prefix) (functions_map s) fs.

Lemma registered_app fs1 fs2 s1 s2 s3 : registered fs1 s1 s2 -> registered fs2 s2 s3 -> registered (fs1 ++ fs2) s1 s3.
Proof. unfold registered. intros H1 H2 Hs. by rewrite foldl_app, <-H1, H2. Qed.

Definition points_to (s : bb2lines R) (q : option rd_ptr) (str : option string) : Prop :=
  match q, str with
  | None, None => True
  | Some q, Some str => small -> rd_points (reader s) q (string_words str)
  | _, _ => False
  end.

(** The words of a function are there in a file of any size. *)
Lemma function_words_run i l c name a source st col end_ p rest s :
  here (reader s) p (note_payload e (note_function i l c name a source st col end_) ++ rest) ->
  note_ok (note_function i l c name a source st col end_) ->
  exists qn qs r', let s' := with_reader r' s in
    read_function_words s = inr ((qn, qs), s') /\ points_to s' qn name /\ points_to s' qs source /\
    here r' (p + Z.of_nat (length (note_payload e (note_function i l c name a source st col end_)))) rest.
Proof.
  intros Hh (Hn & Hname & Hsource). cbn [note_payload] in Hh |- *. rewrite <-!app_assoc in Hh.
  repeat (apply Forall_cons in Hn as [? Hn]). cbn [app] in Hh.
  set (n := Z.of_nat _). cut (gives (fun _ => False) read_function_words s (fun x s' => exists r',
    s' = with_reader r' s /\ points_to s' x.1 name /\ points_to s' x.2 source /\ here r' (p + n) rest)).
  { intros Hg. apply gives_total in Hg as ([qn qs] & s' & Hrun & r' & -> & Hx). by exists qn, qs, r'. }
  unfold read_function_words.
  eapply unsigned_step; [exact Hh|done|]. intros r1 P1 _.
  eapply unsigned_step; [exact P1|done|]. intros r2 P2 _.
  eapply unsigned_step; [exact P2|done|]. intros r3 P3 _.
  eapply opt_string_step; [exact P3|done|]. intros qn r4 P4 _ Hqn.
  eapply unsigned_step; [exact P4|done|]. intros r5 P5 K5.
  eapply opt_string_step; [exact P5|done|]. intros qs r6 P6 K6 Hqs.
  eapply unsigned_step; [exact P6|done|]. intros r7 P7 K7.
  eapply unsigned_step; [exact P7|done|]. intros r8 P8 K8.
  eapply unsigned_step; [exact P8|done|]. intros r9 P9 K9.
  assert (Hpos : p + 1 + 1 + 1 + Z.of_nat (length (enc_string e name)) + 1 +
    Z.of_nat (length (enc_string e source)) + 1 + 1 + 1 = p + n).
  { unfold n. rewrite !length_app. simpl. lia. }
  rewrite Hpos in P9. eapply gives_run; [done|]. exists r9. split; [done|]. cbn [fst snd]. split_and!; [| |done].
  - destruct qn as [qn|], name as [name|]; try done. intros Hs. by apply (K9 Hs), (K8 Hs), (K7 Hs), (K6 Hs), (K5 Hs).
  - destruct qs as [qs|], source as [source|]; try done. intros Hs. by apply (K9 Hs), (K8 Hs), (K7 Hs).
Qed.

(** The copy of a name is the only step that can fail. *)
Lemma register_run bad qn qs name source s :
  points_to s (Some qn) (Some name) -> points_to s (Some qs) (Some source) -> no_nul name -> no_nul source ->
  (forall m, large -> register_function file_prefix qn qs s = inl (undefined m) -> bad m) ->
  gives bad (register_function file_prefix qn qs) s (fun _ s' =>
    reader s' = reader s /\ same_tables s s' /\ registered [mkFunction name source] s s').
Proof.
  intros Hqn Hqs Hn Hs Hbad. assert (Hg : gives (fun m => large /\ True) (register_function file_prefix qn qs) s (fun _ s' =>
    reader s' = reader s /\ same_tables s s' /\ registered [mkFunction name source] s s')).
  { unfold register_function. eapply (stale_string_step _ _ qn name); [done..|].
    intros x Hx. eapply (stale_string_step _ _ qs source); [done..|].
    intros y Hy. eapply gives_run; [reflexivity|]. split_and!; try done. intros Hsm.
    by rewrite (Hx Hsm), (Hy Hsm). }
  unfold gives in *. destruct (register_function _ _ _ _) as [[]|[a s']]; try done. destruct Hg as [Hl _]. by apply Hbad.
Qed.

(** What is undefined when the name or the source of a function is copied too
    late: behind the records [pre], whose blocks are in the tables, all words of a
    named function have been read. *)
Definition stale_name (fn : bool) (ct : Z) (notes : list note) (s : bb2lines R) (m : string) : Prop :=
  large /\ exists pre n post s1 s2 qn qs, notes = pre ++ n :: post /\ note_functions [n] <> [] /\
    grows file_prefix (note_blocks fn ct pre) s s1 /\
    (exists p, rd_at W e (reader s1) p (note_payload e n ++ concat (map (enc_note e) post))) /\
    read_function_words s1 = inr ((Some qn, Some qs), s2) /\
    register_function file_prefix qn qs s2 = inl (undefined m).

Lemma stale_name_app fn ct fn' ct' n bs notes s0 s m :
  grows file_prefix bs s0 s -> (forall pre, note_blocks fn ct (n :: pre) = bs ++ note_blocks fn' ct' pre) ->
  stale_name fn' ct' notes s m -> stale_name fn ct (n :: notes) s0 m.
Proof.
  intros Hg Hb (Hl & pre & n' & post & s1 & s2 & qn & qs & -> & Hn & Hg' & Hx). split; [done|].
  exists (n :: pre), n', post, s1, s2, qn, qs. split_and!; try done; [|apply Hx..]. rewrite Hb. by eapply grows_app.
Qed.

(** *** The records *)

Lemma sync_step {B} bad (k : unit -> BM B) base len p rest s Q :
  here (reader s) p rest -> rest = drop (Z.to_nat p) W -> 0 < p <= base + len -> 0 <= len ->
  base + len <= Z.of_nat (length W) -> Z.of_nat (length W) < 2 ^ 30 ->
  (forall r', here r' (base + len) (drop (Z.to_nat (base + len)) W) -> gives bad (k tt) (with_reader r' s) Q) ->
  gives bad (lift_rd (rd_sync base len) ≫= k) s Q.
Proof.
  intros [Ha Hk] Hrest Hp Hlen HW HW' HQ. subst rest.
  destruct (law_sync _ _ _ _ _ base len Ha) as (r' & Hrun & Ha' & Hk').
  eapply lift_step; [exact Hrun|]. apply HQ. rewrite u32_small in Ha' by lia. rewrite Z.mod_small in Ha' by lia.
  split.
  - destruct (Z.eqb_spec (base + len) p) as [->|]; done.
  - intros Hs. apply Hk'; [lia|lia|auto].
Qed.

Lemma error_step {B} bad (k : Z -> BM B) p rest s Q :
  here (reader s) p rest -> gives bad (k 0) s Q -> gives bad (lift_rd rd_is_error ≫= k) s Q.
Proof.
  intros [Ha _] HQ. eapply lift_step; [eapply law_error, Ha|]. by rewrite with_reader_same.
Qed.

(** What a sequence of records does to the tables. *)
Definition parsed (blocks : list basic_block) (fs : list function_info) (s s' : bb2lines R) : Prop :=
  (exists p, rd_at W e (reader s') p []) /\ grows file_prefix blocks s s' /\ registered fs s s'.

Lemma parsed_app bs1 bs2 fs1 fs2 s1 s2 s3 :
  grows file_prefix bs1 s1 s2 -> registered fs1 s1 s2 -> parsed bs2 fs2 s2 s3 -> parsed (bs1 ++ bs2) (fs1 ++ fs2) s1 s3.
Proof. intros Hg Hr (Hp & Hg' & Hr'). split_and!; [done|by eapply grows_app|by eapply registered_app]. Qed.

Lemma registered_nil s s' : functions_map s' = functions_map s -> registered [] s s'.
Proof. by intros Hf _. Qed.

Definition sound_loop (fuel : nat) (notes : list note) : Prop := forall fn ct p s,
  0 < p -> here (reader s) p (drop (Z.to_nat p) W) -> drop (Z.to_nat p) W = concat (map (enc_note e) notes) ->
  (length (drop (Z.to_nat p) W) < fuel)%nat -> ct = 0 \/ ct = GCOV_TAG_FUNCTION -> tables_ok file_prefix s ->
  gives (stale_name fn ct notes s) (read_tags file_prefix fuel fn ct) s
    (fun _ s' => parsed (note_blocks fn ct notes) (note_functions notes) s s').

(** The rest of the records, behind the first one. *)
Lemma rest_records fuel fn ct fn' ct' p n bs fs s0 s notes :
  sound_loop fuel notes -> 0 < p -> here (reader s) p (drop (Z.to_nat p) W) ->
  drop (Z.to_nat p) W = concat (map (enc_note e) notes) ->
  (length (concat (map (enc_note e) notes)) < fuel)%nat -> ct' = 0 \/ ct' = GCOV_TAG_FUNCTION ->
  grows file_prefix bs s0 s -> registered fs s0 s ->
  (forall ns, note_blocks fn ct (n :: ns) = bs ++ note_blocks fn' ct' ns) -> note_functions (n :: notes) = fs ++ note_functions notes ->
  gives (stale_name fn ct (n :: notes) s0) (read_tags file_prefix fuel fn' ct') s
    (fun _ s' => parsed (note_blocks fn ct (n :: notes)) (note_functions (n :: notes)) s0 s').
Proof.
  intros IH Hp Hh Hd Hf Hct Hg Hr Hb Hfs. rewrite Hb, Hfs. eapply gives_weaken.
  - eapply gives_conseq; [eapply (IH fn' ct' p s); try done; [by rewrite Hd|apply Hg]|].
    intros [] s' Hpar. by eapply parsed_app.
  - intros m Hm. by eapply stale_name_app.
Qed.

(** The end of a record: the reader moves behind its words, and the loop goes on. *)
Lemma next_record fuel fn ct fn' ct' base len q n bs fs s0 s notes :
  sound_loop fuel notes -> Z.of_nat (length W) < 2 ^ 30 -> 0 < q <= base + len -> 0 < base -> 0 <= len ->
  base + len <= Z.of_nat (length W) -> here (reader s) q (drop (Z.to_nat q) W) ->
  drop (Z.to_nat (base + len)) W = concat (map (enc_note e) notes) ->
  (length (concat (map (enc_note e) notes)) < fuel)%nat -> ct' = 0 \/ ct' = GCOV_TAG_FUNCTION ->
  grows file_prefix bs s0 s -> registered fs s0 s ->
  (forall ns, note_blocks fn ct (n :: ns) = bs ++ note_blocks fn' ct' ns) -> note_functions (n :: notes) = fs ++ note_functions notes ->
  gives (stale_name fn ct (n :: notes) s0)
    (lift_rd (rd_sync base len);;; error ← lift_rd rd_is_error;
     if error =? 0 then read_tags file_prefix fuel fn' ct' else mret tt) s
    (fun _ s' => parsed (note_blocks fn ct (n :: notes)) (note_functions (n :: notes)) s0 s').
Proof.
  intros IH HW Hq Hb Hlen Hbl Hh Hd Hf Hct Hg Hr Hnb Hfs. eapply sync_step; [exact Hh|done|lia..|]. intros r Hr'.
  eapply error_step; [exact Hr'|]. cbn [Z.eqb].
  eapply (rest_records fuel fn ct fn' ct' (base + len) n bs fs); try done; [lia|].
  rewrite <-(app_nil_r bs). eapply grows_app; [exact Hg|]. apply same_tables_grows; [done|apply Hg].
Qed.

Lemma enc_source_cost srcs : (lines_cost srcs <= length (concat (map (enc_source e) srcs)))%nat.
Proof.
  unfold lines_cost. induction srcs as [|[f ls] srcs IH]; [done|].
  change (map (enc_source e) (mkSourceLine f ls :: srcs)) with (enc_source e (mkSourceLine f ls) :: map (enc_source e) srcs).
  cbn [concat]. rewrite length_app. unfold enc_source at 1. cbn [length sl_filename sl_lines].
  rewrite length_app, length_map. simpl in *. lia.
Qed.

Lemma drop_suffix (p : Z) (l1 l2 : list Z) : 0 <= p ->
  drop (Z.to_nat p) W = l1 ++ l2 -> drop (Z.to_nat (p + Z.of_nat (length l1))) W = l2.
Proof.
  intros Hp Hd. rewrite Z2Nat.inj_add, <-drop_drop, Hd, Nat2Z.id by lia. by rewrite drop_app_length.
Qed.

(** The record of a block. *)
Lemma block_record fuel no srcs base rest ct notes s0 s :
  let n := note_lines no srcs in
  sound_loop fuel notes -> Z.of_nat (length W) < 2 ^ 30 -> note_ok n -> 0 < base ->
  let len := Z.of_nat (length (note_payload e n)) in
  drop (Z.to_nat base) W = note_payload e n ++ rest -> rest = concat (map (enc_note e) notes) ->
  here (reader s) base (drop (Z.to_nat base) W) -> base + len <= Z.of_nat (length W) ->
  (length (drop (Z.to_nat base) W) < fuel)%nat -> ct = 0 \/ ct = GCOV_TAG_FUNCTION ->
  grows file_prefix [] s0 s -> registered [] s0 s ->
  gives (stale_name true ct (n :: notes) s0)
    (no ← lift_rd rd_unsigned;
     bb ← read_lines fuel (mkBlock (Some no) [] true);
     add_basic_block file_prefix bb;;;
     lift_rd (rd_sync base len);;; error ← lift_rd rd_is_error;
     if error =? 0 then read_tags file_prefix fuel true ct else mret tt) s
    (fun _ s' => parsed (note_blocks true ct (n :: notes)) (note_functions (n :: notes)) s0 s').
Proof.
  intros n IH HW (Hno & Hsrcs & Hwf) Hb len Hd Hrest Hh Hbl Hf Hct Hg0 Hr0.
  pose proof (drop_suffix base _ _ ltac:(lia) Hd) as Hd'. fold len in Hd'.
  rewrite Hd in Hh, Hf. unfold n in Hh, Hf. cbn [note_payload app] in Hh, Hf. rewrite <-app_assoc in Hh.
  eapply unsigned_step; [exact Hh|done|]. intros r1 P1 _.
  apply gives_bind. replace fuel with (lines_cost srcs + S (fuel - lines_cost srcs - 1))%nat at 1.
  2:{ pose proof (enc_source_cost srcs). cbn [length] in Hf. rewrite !length_app in Hf. lia. }
  eapply read_lines_run; [rewrite <-app_assoc; exact P1|exact Hsrcs|]. intros r2 P2. cbn [app].
  set (s2 := with_reader r2 (with_reader r1 s)).
  destruct (add_basic_block_run file_prefix (mkBlock (Some no) srcs true) s2) as (s3 & Hrun & Hr & Hg);
    [by eapply same_tables_ok; [|apply Hg0]|done|].
  pose proof (add_basic_block_functions _ _ _ _ _ Hrun) as Hfm.
  eapply gives_step; [exact Hrun|].
  assert (Hlen : base + 1 + Z.of_nat (length (concat (map (enc_source e) srcs) ++ [number e 0; number e 0])) = base + len)
    by (unfold len; cbn [n note_payload length]; lia).
  rewrite Hlen in P2.
  apply (next_record fuel true ct true ct base len (base + len) n [mkBlock (Some no) srcs true] [] s0 s3 notes);
    try done; try lia.
  - rewrite Hr. cbn [reader with_reader s2]. by rewrite Hd'.
  - by rewrite Hd'.
  - cbn [length] in Hf. rewrite !length_app, Hrest in Hf. lia.
  - eapply (grows_app _ [] _ _ s); [exact Hg0|].
    eapply (grows_app _ [] _ _ s2); [|exact Hg]. apply same_tables_grows; [done|apply Hg0].
  - eapply (registered_app [] []); [exact Hr0|]. by apply registered_nil.
Qed.

(** The record of a function. *)
Lemma function_record fuel i l c name a source st col end_ base rest fn ct notes s0 s :
  let n := note_function i l c name a source st col end_ in
  sound_loop fuel notes -> Z.of_nat (length W) < 2 ^ 30 -> note_ok n -> 0 < base ->
  let len := Z.of_nat (length (note_payload e n)) in
  drop (Z.to_nat base) W = note_payload e n ++ rest -> rest = concat (map (enc_note e) notes) ->
  here (reader s) base (drop (Z.to_nat base) W) -> base + len <= Z.of_nat (length W) ->
  (length (drop (Z.to_nat base) W) < fuel)%nat -> ct = 0 \/ ct = GCOV_TAG_FUNCTION ->
  grows file_prefix [] s0 s -> registered [] s0 s ->
  gives (stale_name fn ct (n :: notes) s0)
    (named ← read_function file_prefix;
     if named : bool then
       lift_rd (rd_sync base len);;; error ← lift_rd rd_is_error;
       if error =? 0 then read_tags file_prefix fuel true GCOV_TAG_FUNCTION else mret tt
     else read_tags file_prefix fuel false ct) s
    (fun _ s' => parsed (note_blocks fn ct (n :: notes)) (note_functions (n :: notes)) s0 s').
Proof.
  intros n IH HW Hok Hb len Hd Hrest Hh Hbl Hf Hct Hg Hr. pose proof Hok as (_ & Hname & Hsource).
  pose proof (drop_suffix base _ _ ltac:(lia) Hd) as Hd'. fold len in Hd'.
  rewrite Hd in Hh, Hf. rewrite length_app in Hf.
  destruct (function_words_run _ _ _ _ _ _ _ _ _ _ _ _ Hh Hok) as (qn & qs & r1 & Hrun & Hqn & Hqs & P1).
  fold n len in P1. cbv zeta in *. set (s1 := with_reader r1 s) in *.
  assert (Hg1 : grows file_prefix [] s0 s1).
  { eapply (grows_app _ [] [] _ s); [exact Hg|]. apply same_tables_grows; [done|apply Hg]. }
  assert (Hr1 : registered [] s0 s1) by exact Hr.
  assert (Hfu : (length (concat (map (enc_note e) notes)) < fuel)%nat) by (rewrite <-Hrest; lia).
  assert (Hh1 : here (reader s1) (base + len) (drop (Z.to_nat (base + len)) W)) by (by rewrite Hd').
  assert (Hd1 : drop (Z.to_nat (base + len)) W = concat (map (enc_note e) notes)) by (by rewrite Hd').
  unfold read_function. apply gives_bind. eapply gives_step; [exact Hrun|].
  destruct name as [name|], source as [source|]; destruct qn as [qn|], qs as [qs|]; try done.
  2-4: eapply gives_run; [reflexivity|]; cbv iota;
    eapply (rest_records fuel fn ct false ct (base + len) n [] []); try done; lia.
  apply gives_bind. eapply gives_conseq.
  - eapply register_run; [exact Hqn|exact Hqs|apply Hname|apply Hsource|]. intros m Hl Hm. split; [done|].
    exists [], n, notes, s, s1, qn, qs. split_and!; try done.
    exists base. rewrite <-Hrest. apply Hh.
  - intros [] s2 (Hrd & Hst & Hreg). cbv beta. eapply gives_run; [reflexivity|]. cbv iota.
    eapply (next_record fuel fn ct true GCOV_TAG_FUNCTION base len (base + len) n [] [mkFunction name source] s0 s2 notes);
      try done; try lia.
    + by rewrite Hrd.
    + eapply (grows_app _ [] [] _ s1); [exact Hg1|]. apply same_tables_grows; [done|apply Hg1].
    + eapply (registered_app []); [exact Hr1|exact Hreg].
Qed.

(** The whole sequence of records. *)
Lemma tags_run notes : Z.of_nat (length W) < 2 ^ 30 -> Forall note_ok notes -> forall fuel, sound_loop fuel notes.
Proof.
  intros HW. induction 1 as [|n notes Hn _ IH]; intros [|fuel] fn ct p s Hp Hh Hd Hf Hct Ht; try (exfalso; lia).
  - rewrite Hd in Hh. destruct Hh as [Ha _]. destruct (law_end _ _ _ _ Ha) as (r & Hrun & Ha').
    cbn [read_tags]. eapply lift_step; [exact Hrun|]. cbn [Z.eqb]. eapply gives_run; [done|].
    split_and!; [by exists p|by apply same_tables_grows|by apply registered_nil].
  - cbn [map concat enc_note app] in Hd. rewrite Hd in Hh, Hf. cbn [length] in Hf. rewrite length_app in Hf.
    set (len := Z.of_nat (length (note_payload e n))) in *. set (rest := concat (map (enc_note e) notes)) in *.
    assert (HlW : Z.of_nat (length W) = p + 2 + len + Z.of_nat (length rest)).
    { apply (f_equal length) in Hd. cbn [length] in Hd. rewrite length_drop, length_app in Hd. unfold len. lia. }
    pose proof (drop_suffix p [number e (note_tag n); number e len] (note_payload e n ++ rest) ltac:(lia) Hd) as Hd2.
    cbn [length] in Hd2. change (Z.of_nat 2) with 2 in Hd2.
    pose proof (drop_suffix (p + 2) _ _ ltac:(lia) Hd2) as Hd3. fold len in Hd3.
    assert (Htag : 0 < note_tag n < 2 ^ 32).
    { destruct n; cbn [note_tag]; [by unfold GCOV_TAG_FUNCTION|by unfold GCOV_TAG_LINES|apply Hn]. }
    cbn [read_tags]. eapply unsigned_step; [exact Hh|unfold is_u32; lia|]. intros r1 P1 _.
    rewrite (proj2 (Z.eqb_neq (note_tag n) 0)) by lia.
    eapply unsigned_step; [exact P1|unfold is_u32; lia|]. intros r2 P2 _.
    replace (p + 1 + 1) with (p + 2) in P2 by lia.
    eapply lift_step; [eapply law_position, P2|]. cbn [reader with_reader].
    set (s2 := with_reader r2 (with_reader r2 (with_reader r1 s))).
    assert (Ht2 : tables_ok file_prefix s2) by (by eapply same_tables_ok; [|exact Ht]).
    assert (Hg2 : grows file_prefix [] s s2) by (by apply same_tables_grows).
    rewrite <-Hd2 in P2. assert (Hf2 : (length (drop (Z.to_nat (p + 2)) W) < fuel)%nat) by (rewrite Hd2, length_app; lia).
    cbv zeta. assert (Hr2 : registered [] s s2) by by apply registered_nil.
    destruct n as [i l c name a source st col end_|no srcs|tag payload]; cbn [note_tag].
    + rewrite Z.eqb_refl. eapply function_record; try done; lia.
    + change (GCOV_TAG_LINES =? GCOV_TAG_FUNCTION) with false. rewrite Z.eqb_refl, andb_true_r. cbv iota. destruct fn.
      * eapply (block_record fuel no srcs (p + 2) rest ct notes); try done; lia.
      * assert (Hsub : negb (ct =? 0) && negb (GCOV_TAG_IS_SUBTAG ct GCOV_TAG_LINES) = false)
          by (destruct Hct as [-> | ->]; reflexivity). rewrite Hsub.
        apply (next_record fuel false ct false ct (p + 2) len (p + 2) _ [] [] s s2 notes);
          try done; try lia; fold rest; lia.
    + destruct Hn as (_ & Hn1 & Hn2 & _). rewrite (proj2 (Z.eqb_neq tag _) Hn1), (proj2 (Z.eqb_neq tag _) Hn2), andb_false_r.
      destruct (negb (ct =? 0) && negb (GCOV_TAG_IS_SUBTAG ct tag)) eqn:Hsub;
        eapply (next_record fuel fn ct _ _ (p + 2) len (p + 2) _ [] [] s s2 notes); try done; try lia;
        try (fold rest; lia); try (by left); intros ns; cbn [note_blocks]; by rewrite Hsub.
Qed.

(** The notes of a file. *)
Lemma read_graph_file_run fuel name version stamp unexecuted notes s :
  W = enc_file e version stamp unexecuted notes -> fopen name = Some (file_bytes W) ->
  Forall is_u32 W -> Forall is_u32 [version; stamp; unexecuted] -> Forall note_ok notes ->
  Z.of_nat (length W) < 2 ^ 30 -> (length W < fuel)%nat -> rd_closed (reader s) -> tables_ok file_prefix s ->
  gives (stale_name false 0 notes s) (read_graph_file file_prefix fuel name) s (fun _ s' =>
    rd_closed (reader s') /\ grows file_prefix (note_blocks false 0 notes) s s' /\
    registered (note_functions notes) s s').
Proof.
  intros HWe Hfile Hu Hhdr Hok HW Hf Hc Ht.
  repeat (apply Forall_cons in Hhdr as [? Hhdr]).
  destruct (law_open name _ _ Hc Hfile) as (r0 & Hopen & Ha0 & Hk0); [rewrite file_bytes_length; lia|].
  rewrite words_of_file in Ha0, Hk0 by done.
  set (magic := number e GCOV_NOTE_MAGIC).
  assert (Hdata : (if magic =? GCOV_DATA_MAGIC then 1 else if bswap32 magic =? GCOV_DATA_MAGIC then -1 else 0) = 0)
    by (unfold magic; destruct e; reflexivity).
  assert (Hnote : (if magic =? GCOV_NOTE_MAGIC then 1 else if bswap32 magic =? GCOV_NOTE_MAGIC then -1 else 0) =
    if e then -1 else 1) by (unfold magic; destruct e; reflexivity).
  pose proof HWe as HW1. unfold enc_file in HW1. cbn [map app] in HW1. fold magic in HW1.
  unfold read_graph_file. eapply lift_step; [exact Hopen|]. cbn [negb].
  assert (Ha0' := Ha0). rewrite HW1 in Ha0' at 2.
  destruct (law_unsigned _ _ _ _ _ _ Ha0') as (r1 & Hrun1 & Ha1 & Hk1). eapply lift_step; [exact Hrun1|].
  cbn [number]. destruct (law_magic _ _ _ _ _ magic GCOV_DATA_MAGIC Ha1) as (r2 & Hrun2 & Ha2 & Hk2).
  rewrite Hdata in Hrun2, Ha2. eapply lift_step; [exact Hrun2|]. cbn [Z.eqb orb] in Ha2 |- *.
  destruct (law_magic _ _ _ _ _ magic GCOV_NOTE_MAGIC Ha2) as (r3 & Hrun3 & Ha3 & Hk3).
  rewrite Hnote in Hrun3, Ha3. eapply lift_step; [exact Hrun3|].
  replace ((if e then -1 else 1) =? 0) with false by (by destruct e).
  replace (false || ((if e then -1 else 1) =? -1)) with e in Ha3 by (by destruct e).
  assert (P3 : here r3 1 (number e version :: number e stamp :: number e unexecuted :: concat (map (enc_note e) notes))).
  { split; [exact Ha3|]. intros Hs. apply Hk3, Hk2, Hk1, Hk0, Hs. }
  eapply unsigned_step; [exact P3|done|]. intros r4 P4 _. eapply unsigned_step; [exact P4|done|]. intros r5 P5 _.
  eapply unsigned_step; [exact P5|done|]. intros r6 P6 _. apply gives_bind.
  set (s6 := with_reader r6 _). assert (Hg : grows file_prefix [] s s6) by by apply same_tables_grows.
  assert (Hd : drop (Z.to_nat 4) W = concat (map (enc_note e) notes)) by (by rewrite HW1 at 1).
  eapply gives_weaken with (bad := stale_name false 0 notes s6).
  { eapply gives_conseq; [eapply (tags_run notes HW Hok fuel false 0 4 s6)|]; [lia| |exact Hd| |by left|apply Hg|].
    - rewrite Hd. exact P6.
    - rewrite length_drop. lia.
    - intros [] s7 ([p Hp] & Hg7 & Hr7). cbv beta. destruct (law_close _ _ _ _ _ Hp) as (r8 & Hrun8 & Hc8).
      eapply lift_step; [exact Hrun8|]. eapply gives_run; [done|]. split_and!; [done| |exact Hr7].
      eapply (grows_app _ [] _ _ _ _ Hg). rewrite <-(app_nil_r (note_blocks _ _ _)). eapply grows_app; [exact Hg7|].
      apply same_tables_grows; [done|apply Hg7]. }
  intros m (Hl & pre & n & post & s1 & s2 & qn & qs & Hn & Hf1 & Hg1 & Hx). split; [done|].
  exists pre, n, post, s1, s2, qn, qs. split_and!; try done; [|apply Hx..]. by eapply (grows_app _ []).
Qed.
End Parse.

(** ** The round trip *)

Lemma numbers_u32 e l : Forall is_u32 l -> Forall is_u32 (map (number e) l).
Proof. intros Hl. apply List.Forall_map. eapply Forall_impl; [exact Hl|]. intros w Hw. by apply number_range. Qed.

Lemma enc_string_u32 e str : opt_string_ok str -> Forall is_u32 (enc_string e str).
Proof.
  intros Hs. destruct str as [str|]; (constructor; [apply number_range|]).
  - destruct Hs as [_ Hs]. unfold is_u32, MAX_READ in *. lia.
  - apply string_words_u32.
  - unfold is_u32. lia.
  - constructor.
Qed.

Lemma sources_u32 e srcs : Forall source_ok srcs -> Forall is_u32 (concat (map (enc_source e) srcs)).
Proof.
  induction 1 as [|[f ls] srcs [Hf Hls] _ IH]; [constructor|]. cbn [map concat]. apply Forall_app. split; [|done].
  unfold enc_source. constructor; [apply number_range; unfold is_u32; lia|]. apply Forall_app. split.
  - by apply enc_string_u32.
  - apply numbers_u32. eapply Forall_impl; [exact Hls|]. intros l Hl. unfold is_u32. simpl in Hl. lia.
Qed.

Lemma payload_u32 e n : note_ok n -> Forall is_u32 (note_payload e n).
Proof.
  destruct n as [i l c name a source st col end_|no srcs|tag payload]; cbn [note_ok note_payload].
  - intros (Hn & Hname & Hsource). apply (numbers_u32 e) in Hn. cbn [map] in Hn.
    repeat (apply Forall_cons in Hn as [? Hn]).
    rewrite !Forall_app. split_and!; try (by apply enc_string_u32);
      repeat (apply Forall_cons_2; [done|]); apply Forall_nil_2.
  - intros (Hno & Hsrcs & _). assert (H0 : is_u32 (number e 0)) by (apply number_range; unfold is_u32; lia).
    constructor; [by apply number_range|]. apply Forall_app. split; [by apply sources_u32|].
    do 2 (apply Forall_cons_2; [done|]). apply Forall_nil_2.
  - tauto.
Qed.

Lemma enc_notes_u32 e notes : Forall note_ok notes ->
  Z.of_nat (length (concat (map (enc_note e) notes))) < 2 ^ 32 -> Forall is_u32 (concat (map (enc_note e) notes)).
Proof.
  induction 1 as [|n notes Hn _ IH]; [constructor|]. cbn [map concat]. rewrite length_app. intros Hl.
  apply Forall_app. split; [|apply IH; lia]. unfold enc_note in *. cbn [length] in Hl.
  constructor; [|constructor; [|by apply payload_u32]]; apply number_range; unfold is_u32; [|lia].
  destruct n; cbn [note_tag]; [unfold GCOV_TAG_FUNCTION; lia|unfold GCOV_TAG_LINES; lia|destruct Hn; lia].
Qed.

Lemma enc_file_u32 e version stamp unexecuted notes : Forall is_u32 [version; stamp; unexecuted] ->
  Forall note_ok notes -> Z.of_nat (length (enc_file e version stamp unexecuted notes)) < 2 ^ 30 ->
  Forall is_u32 (enc_file e version stamp unexecuted notes).
Proof.
  intros Hhdr Hok HW. unfold enc_file in *. rewrite length_app in HW. apply Forall_app. split.
  - apply numbers_u32. constructor; [unfold is_u32, GCOV_NOTE_MAGIC; lia|done].
  - apply enc_notes_u32; [done|lia].
Qed.

(** (C36) Reading back the notes.  A file of well-formed notes, in either byte
    order, is read to its end: the loop ends, every basic block of a named function
    is in the table of its source file under its start line with all its lines,
    nothing else is added, the sets stay sorted and merged, exactly the lines of
    the blocks become coverable, and the reader is closed again.  A file of at most
    2050 words is always read like that, and the named functions, no others, are
    entered under their names and source files.  A larger file is read like that,
    too, up to the names of its functions, unless the copy of the name or the
    source of one of its named functions is undefined: behind records whose blocks
    have entered the tables, all words of that function have been read, its two
    pointers are taken, and one of them no longer points to the string
    ([stale_name]; [stale_function_name] is such a file). *)
Theorem read_graph_file_roundtrip file_prefix fopen mem_ok (memory : forall n, n <= 2 ^ 30 -> mem_ok n = true)
    e name version stamp unexecuted notes fuel s :
  let words := enc_file e version stamp unexecuted notes in
  fopen name = Some (file_bytes words) ->
  Forall is_u32 [version; stamp; unexecuted] -> Forall note_ok notes ->
  Z.of_nat (length words) < 2 ^ 30 -> (length words < fuel)%nat ->
  closed_reader (reader s) -> tables_ok file_prefix s ->
  match read_graph_file (H := gcov_io fopen mem_ok) file_prefix fuel name s with
  | inr (_, s') => closed_reader (reader s') /\ grows file_prefix (note_blocks false 0 notes) s s' /\
      (Z.of_nat (length words) <= FIRST_BUFFER ->
       functions_map s' = foldl (enter_function file_prefix) (functions_map s) (note_functions notes))
  | inl (undefined m) => FIRST_BUFFER < Z.of_nat (length words) /\
      stale_name (GcovReaderLaws0 := gcov_io_laws fopen mem_ok memory) fopen file_prefix words e false 0 notes s m
  | inl _ => False
  end.
Proof.
  intros words Hfile Hhdr Hok HW Hf Hc Ht.
  assert (Hrun : gives (stale_name (GcovReaderLaws0 := gcov_io_laws fopen mem_ok memory) fopen file_prefix words e
    false 0 notes s) (read_graph_file (H := gcov_io fopen mem_ok) file_prefix fuel name) s (fun _ s' =>
      closed_reader (reader s') /\ grows file_prefix (note_blocks false 0 notes) s s' /\
      (Z.of_nat (length words) <= FIRST_BUFFER ->
       functions_map s' = foldl (enter_function file_prefix) (functions_map s) (note_functions notes)))).
  { apply (@read_graph_file_run gcov_var (gcov_io fopen mem_ok) fopen (gcov_io_laws fopen mem_ok memory)
      file_prefix words e fuel name version stamp unexecuted notes s); try done. by apply enc_file_u32. }
  unfold gives in Hrun. destruct (read_graph_file _ _ _ _) as [[]|[[] s']]; try done. split; [apply Hrun|exact Hrun].
Qed.

(** Two functions, the second without a name; a record of another kind between
    them; two blocks with the same start line. *)
Definition sample_notes : list note :=
  [note_function 1 2 3 (Some "main") 0 (Some "a.c") 1 1 9;
   note_other 21037056 [4];
   note_lines 2 [mkSourceLine "a.c" [7; 8]; mkSourceLine "b.h" [3]];
   note_lines 3 [mkSourceLine "a.c" [7; 9]];
   note_function 4 5 6 None 0 (Some "a.c") 10 1 12;
   note_lines 2 [mkSourceLine "a.c" [11]]].

Definition sample_words : list Z := enc_file true 875575338 1 1 sample_notes.

Lemma sample_notes_ok : Forall note_ok sample_notes.
Proof.
  unfold sample_notes, note_ok, source_ok, string_ok, opt_string_ok, no_nul, is_u32, MAX_READ, wf_block.
  repeat constructor; vm_compute; try congruence; try lia; by repeat eexists.
Qed.

Lemma read_graph_file_roundtrip_witness :
  exists s', read_graph_file (H := gcov_io (fun _ => Some (file_bytes sample_words)) (fun n => n <=? 2 ^ 30))
      "/src/" 100 "a.gcno" (bb_init gcov_init) = inr (tt, s') /\
    covers (coverable_lines s') "b.h" 3 /\ ~ covers (coverable_lines s') "a.c" 11 /\
    has_lines s' "/src/a.c" 7 (mkSourceLine "a.c" [7; 8]) /\ has_lines s' "/src/a.c" 7 (mkSourceLine "a.c" [7; 9]) /\
    functions_map s' = {["/src/a.c" := {["main" := mkFunction "main" "a.c"]}]}.
Proof.
  assert (Hm : forall n, n <= 2 ^ 30 -> (n <=? 2 ^ 30) = true) by (intros n Hn; by apply Z.leb_le).
  unshelve epose proof (read_graph_file_roundtrip "/src/" (fun _ => Some (file_bytes sample_words)) (fun n => n <=? 2 ^ 30)
    Hm true "a.gcno" 875575338 1 1 sample_notes 100 (bb_init gcov_init) _ _ _ _ _ _ _) as Hrun.
  - reflexivity.
  - unfold is_u32. repeat constructor; lia.
  - exact sample_notes_ok.
  - vm_compute. reflexivity.
  - apply Nat.ltb_lt. vm_compute. reflexivity.
  - exact closed_init.
  - apply tables_ok_init.
  - fold sample_words in Hrun. destruct (read_graph_file _ _ _ _) as [[]|[[] s']]; try done.
    { exfalso. destruct Hrun as [Hl _]. vm_compute in Hl. discriminate. }
    destruct Hrun as (_ & [_ Hc Hb _ _ _] & Hf). exists s'. split; [reflexivity|]. split_and!.
    + apply Hc. right. exists (mkBlock (Some 2) [mkSourceLine "a.c" [7; 8]; mkSourceLine "b.h" [3]] true).
      split; [left|]. exists [3]. split; [right; left|left].
    + rewrite Hc. intros [Hx|(bb & Hbb & ls & Hls & Hl)]; [by unfold covers in Hx; cbn [coverable_lines bb_init] in Hx; rewrite lookup_empty in Hx|].
      change (note_blocks false 0 sample_notes) with
        [mkBlock (Some 2) [mkSourceLine "a.c" [7; 8]; mkSourceLine "b.h" [3]] true;
         mkBlock (Some 3) [mkSourceLine "a.c" [7; 9]] true] in Hbb.
      rewrite !elem_of_cons, elem_of_nil in Hbb. destruct Hbb as [->|[->|[]]]; cbn [source_lines] in Hls;
        rewrite ?elem_of_cons, elem_of_nil in Hls; naive_solver set_solver.
    + apply Hb. right. exists (mkBlock (Some 2) [mkSourceLine "a.c" [7; 8]; mkSourceLine "b.h" [3]] true).
      split_and!; [left|done|done|left].
    + apply Hb. right. exists (mkBlock (Some 3) [mkSourceLine "a.c" [7; 9]] true).
      split_and!; [right; left|done|done|left].
    + rewrite Hf by (vm_compute; discriminate). reflexivity.
Defined.

(** The name of a function whose record straddles the end of the buffer: after the
    refill the pointer points to other words of the file, here to the last two of
    the buffer, and the copy of the name runs past its end. *)
Definition straddling_notes : list note :=
  [note_other 21037056 (replicate 2036 0);
   note_function 1 2 3 (Some "main") 0 (Some "a.c") 1 1 9;
   note_other 21037056 (replicate 3000 1633771873)].

Example stale_function_name :
  read_graph_file (H := gcov_io (fun _ => Some (file_bytes (enc_file false 0 0 0 straddling_notes))) (fun _ => true))
    "/src/" 100 "a.gcno" (bb_init gcov_init) = inl (undefined "read past the end of the buffer").
Proof. vm_compute. reflexivity. Qed.

(** A record whose length leads back to its own start is read for ever. *)
Definition looping_words : list Z := [GCOV_NOTE_MAGIC; 0; 0; 1; 5; 2 ^ 32 - 2].
Definition looping_reader : GcovReader gcov_var := gcov_io (fun _ => Some (file_bytes looping_words)) (fun _ => true).

(** The state at the record. *)
Definition looping_state : bb2lines gcov_var :=
  match (lift_rd (@rd_open _ looping_reader "a.gcno");;; lift_rd (@rd_unsigned _ looping_reader);;;
         lift_rd (@rd_unsigned _ looping_reader);;; lift_rd (@rd_unsigned _ looping_reader);;;
         lift_rd (@rd_unsigned _ looping_reader)) (bb_init gcov_init)
  with inr (_, s) => s | inl _ => bb_init gcov_init end.

(** A step of a run whose state is known. *)
Ltac known_step := etrans; [eapply dbind; vm_compute; reflexivity|]; cbv beta zeta.

Lemma looping_round fuel :
  read_tags (H := looping_reader) "/src/" (S fuel) false 0 looping_state =
  read_tags (H := looping_reader) "/src/" fuel false 0 looping_state.
Proof.
  cbn [read_tags]. known_step. cbn [Z.eqb Pos.eqb]. known_step. known_step.
  change (5 =? GCOV_TAG_FUNCTION) with false. cbn [andb negb]. cbv iota.
  known_step. known_step. cbn [Z.eqb Pos.eqb].
  match goal with |- _ ?s = _ => assert (E : s = looping_state) by (vm_compute; reflexivity); rewrite E end.
  reflexivity.
Qed.

Example malformed_length_loops fuel :
  read_graph_file (H := looping_reader) "/src/" fuel "a.gcno" (bb_init gcov_init) = inl out_of_fuel.
Proof.
  unfold read_graph_file. known_step. cbn [negb]. cbv iota. known_step. known_step. cbn [Z.eqb Pos.eqb]. known_step.
  cbn [Z.eqb Pos.eqb]. do 3 known_step.
  match goal with |- mbind _ _ ?s = _ => assert (E : s = looping_state) by (vm_compute; reflexivity); rewrite E end.
  assert (Hl : read_tags (H := looping_reader) "/src/" fuel false 0 looping_state = inl out_of_fuel).
  { induction fuel as [|fuel IH]; [reflexivity|]. by rewrite looping_round. }
  unfold mbind, M_bind. by rewrite Hl.
Qed.
