(* ===== verification/BbCoverProps.v ===== *)
(** * Which lines are covered

    The block of an address, and the report that is printed for the addresses on
    standard input. *)
From Stdlib Require Import Ascii String.
From stdpp Require Import sorting.
From S2P Require Import Prelude LockTypes CxxStd GcovIo Bb2Lines BbTableProps.
Local Open Scope list_scope.
Local Open Scope Z_scope.

Section Cover.
Context {R : Type} (file_prefix : string) (addr_to_line : Z -> option string * Z) (re_search : string -> bool).
Context (blocks_order : gmap string (list basic_block) -> list (string * list basic_block)).
Hypothesis blocks_perm : forall m, blocks_order m ≡ₚ map_to_list m.
Implicit Types s : bb2lines R.
Notation BM := (M (bb2lines R) exn).
Local Notation tables_ok := (tables_ok file_prefix).
Local Notation find_in_all := (find_line_and_file_in_bb_map file_prefix blocks_order).
Context (lookup : Z -> exn + (option string * Z)).
Hypothesis lookup_answers : forall addr, lookup addr = inr (addr_to_line addr).
Local Notation get_basic_block := (get_basic_block file_prefix lookup re_search blocks_order).

(** ** The block of an address *)

(** Any block that has the line. *)
Definition any_block (m : gmap string (list basic_block)) (line : Z) (file : string) : option basic_block :=
  let bb := find_in_all line file m in if is_valid bb then Some bb else None.

(** The specification: among the blocks of the file the last one that starts at
    the line or before it; otherwise any block that has the line - when the file
    has no blocks, only if the pattern selects it. *)
Definition find_block (m : gmap string (list basic_block)) (addr : Z) : option basic_block :=
  match addr_to_line addr with
  | (None, _) => None
  | (Some file, line) =>
      let bbs := default [] (m !! file) in
      match last (filter (fun bb => start bb <= line) bbs) with
      | Some bb => Some bb
      | None =>
          match bbs with
          | [] => if re_search file then any_block m line file else None
          | _ => any_block m line file
          end
      end
  end.

(** What is remembered is what would be found again. *)
Definition cache_ok s : Prop := forall addr bb,
  basic_blocks_addr_map s !! addr = Some bb ->
  find_block (basic_blocks_map s) addr = if is_valid bb then Some bb else None.

Definition same_report s s' : Prop :=
  covered_lines s' = covered_lines s /\ coverable_lines s' = coverable_lines s /\
  basic_blocks_map s' = basic_blocks_map s /\ out s' = out s /\ reader s' = reader s.

Lemma find_in_all_elem m line file bb : find_in_all line file m = bb -> is_valid bb = true ->
  exists key bbs, m !! key = Some bbs /\ bb ∈ bbs.
Proof.
  intros <- Hv. unfold find_line_and_file_in_bb_map in *.
  destruct (List.find _ _) as [bb|] eqn:Hf; [|done]. cbn [default] in *. apply find_some in Hf as [Hin _].
  apply in_concat in Hin as (bbs & Hbbs & Hin). apply in_map_iff in Hbbs as ([key bbs'] & <- & Hk).
  exists key, bbs'. rewrite <-list_elem_of_In in Hin. rewrite <-list_elem_of_In in Hk. split; [|done].
  rewrite blocks_perm in Hk. by apply elem_of_map_to_list in Hk.
Qed.

Lemma filter_prefix line bbs : sorted_blocks bbs ->
  filter (fun bb => start bb <= line) bbs = take (position_of (fun k => line <? k) (map start bbs)) bbs.
Proof.
  unfold sorted_blocks. induction bbs as [|bb bbs IH]; intros Hs; [done|].
  cbn [map] in Hs. apply StronglySorted_inv in Hs as [Hs Hb]. cbn [map position_of].
  rewrite filter_cons. destruct (Z.ltb_spec line (start bb)) as [H|H].
  - rewrite decide_False by lia. cbn [take]. clear IH Hs. rewrite List.Forall_map in Hb.
    induction Hb as [|b bbs' Hb _ IH]; [done|]. rewrite filter_cons, decide_False by lia. done.
  - rewrite decide_True by done. cbn [take]. f_equal. by apply IH.
Qed.

Lemma last_take (l : list basic_block) n : last (take n l) =
  match n with O => None | S i => match l !! i with Some x => Some x | None => last l end end.
Proof.
  destruct n as [|i]; [done|]. destruct (l !! i) as [x|] eqn:Hx.
  - by rewrite (take_S_r _ _ _ Hx), last_snoc.
  - rewrite take_ge; [done|]. apply lookup_ge_None_1 in Hx. lia.
Qed.

(** The search among the blocks of the file. *)
Lemma upper_bound_spec line bbs : Forall wf_block bbs -> sorted_blocks bbs -> exists n,
  set_upper_bound (mkBlock None [mkSourceLine EmptyString [line]] true) bbs = inr n /\
  last (filter (fun bb => start bb <= line) bbs) = match n with O => None | S i => bbs !! i end.
Proof.
  intros Hw Hs. unfold set_upper_bound. rewrite search_keys_wf; [|split; [done|by eexists _, _, _, _]|done].
  eexists. split; [reflexivity|]. destruct bbs as [|bb bbs]; [done|].
  rewrite (filter_prefix line _ Hs). change (start (mkBlock None [mkSourceLine EmptyString [line]] true)) with line.
  set (n := position_of _ _). assert (Hn : (n <= length (bb :: bbs))%nat)
    by (unfold n; rewrite <-(length_map start); apply position_of_le).
  rewrite last_take. destruct n as [|i]; [done|].
  destruct (_ !! i) eqn:Hi; [done|]. apply lookup_ge_None_1 in Hi. lia.
Qed.

(** *** Looking up addresses *)

(** The lookup of an address gives [r]; the tables stay as they are, up to what is
    remembered. *)
Definition looks_up (c : BM (option basic_block)) s (r : option basic_block) : Prop :=
  exists s', c s = inr (r, s') /\ tables_ok s' /\ cache_ok s' /\ same_report s s'.

Lemma looks_up_count (c : BM (option basic_block)) f s r :
  (forall s1, same_report s s1 -> basic_blocks_addr_map s1 = basic_blocks_addr_map s -> tables_ok s1 -> cache_ok s1 ->
     looks_up c s1 r) ->
  tables_ok s -> cache_ok s -> looks_up (count f;;; c) s r.
Proof.
  intros Hc Ht Hk. set (s1 := mkBB (reader s) (basic_blocks_addr_map s) (covered_lines s) (coverable_lines s)
    (functions_map s) (basic_blocks_map s) (f (counts s)) (out s)).
  destruct (Hc s1) as (s' & Hrun & Ht' & Hk' & Hsr); [done|done| |done|].
  { eapply same_tables_ok; [|exact Ht]. done. }
  exists s'. split; [by rewrite (dbind _ _ _ tt s1)|]. done.
Qed.

(** The address [addr] and its block - or that it has none - are remembered. *)
Lemma remembered s addr bb :
  tables_ok s -> cache_ok s ->
  (is_valid bb = true -> exists key bbs, basic_blocks_map s !! key = Some bbs /\ bb ∈ bbs) ->
  find_block (basic_blocks_map s) addr = (if is_valid bb then Some bb else None) ->
  let s' := mkBB (reader s) (<[addr := bb]> (basic_blocks_addr_map s)) (covered_lines s) (coverable_lines s)
    (functions_map s) (basic_blocks_map s) (counts s) (out s) in
  tables_ok s' /\ cache_ok s'.
Proof.
  intros Ht Hk Hin Hf s'. split.
  - destruct Ht as [Twf Tso Tkey Tcov Taddr Tcd Tf]. constructor; cbn; try done.
    intros a b Ha Hv. apply lookup_insert_Some in Ha as [[<- <-]|[_ Ha]]; [|by eapply Taddr].
    destruct (Hin Hv) as (key & bbs & Hbbs & Hb). split.
    + pose proof (Twf _ _ Hbbs) as Hw. rewrite Forall_forall in Hw. auto.
    + intros f l Hl. by eapply Tcov.
  - intros a b Ha. cbn in Ha. apply lookup_insert_Some in Ha as [[<- <-]|[_ Ha]]; [done|]. by apply Hk.
Qed.

Lemma remember_run s addr bb :
  tables_ok s -> cache_ok s -> is_valid bb = true ->
  (exists key bbs, basic_blocks_map s !! key = Some bbs /\ bb ∈ bbs) ->
  find_block (basic_blocks_map s) addr = Some bb -> looks_up (remember addr bb) s (Some bb).
Proof.
  intros Ht Hk Hv Hin Hf. destruct (remembered s addr bb Ht Hk (fun _ => Hin)) as [Ht' Hk']; [by rewrite Hv|].
  eexists. split; [reflexivity|]. done.
Qed.

Lemma wf_elem s key bbs bb : tables_ok s -> basic_blocks_map s !! key = Some bbs -> bb ∈ bbs -> wf_block bb.
Proof. intros Ht Hb Hin. pose proof (to_wf _ _ Ht _ _ Hb) as Hw. rewrite Forall_forall in Hw. auto. Qed.

(** The case that some block has the line. *)
Lemma any_block_run s addr line file :
  tables_ok s -> cache_ok s ->
  let bb := find_in_all line file (basic_blocks_map s) in
  is_valid bb = true -> find_block (basic_blocks_map s) addr = Some bb ->
  looks_up (_ ← lift_exn (get_start_line bb); count more_not_start;;; remember addr bb) s (Some bb).
Proof.
  intros Ht Hk bb Hv Hf. destruct (find_in_all_elem _ _ _ bb eq_refl Hv) as (key & bbs & Hbbs & Hin).
  pose proof (wf_elem _ _ _ _ Ht Hbbs Hin) as Hw.
  assert (Hc : looks_up (count more_not_start;;; remember addr bb) s (Some bb)).
  { apply looks_up_count; [|done|done]. intros s1 (_ & _ & Hm & _ & _) _ Ht1 Hk1.
    apply remember_run; try done; rewrite Hm; [by exists key, bbs|done]. }
  destruct Hc as (s' & Hrun & H'). exists s'. split; [|done].
  rewrite (dbind _ _ _ (start bb) s); [exact Hrun|]. unfold lift_exn. by rewrite get_start_line_wf.
Qed.

Lemma not_found_run s addr :
  tables_ok s -> cache_ok s -> find_block (basic_blocks_map s) addr = None ->
  looks_up (set_addr_map (fun m => <[addr := invalid_bb]> m);;; count more_not_found;;; mret None) s None.
Proof.
  intros Ht Hk Hf. destruct (remembered s addr invalid_bb Ht Hk) as [Ht' Hk']; [done|done|].
  assert (Hc : looks_up (count more_not_found;;; mret None) (mkBB (reader s)
    (<[addr := invalid_bb]> (basic_blocks_addr_map s)) (covered_lines s) (coverable_lines s)
    (functions_map s) (basic_blocks_map s) (counts s) (out s)) None).
  { apply looks_up_count; [|done|done]. intros s1 _ _ Ht1 Hk1. by exists s1. }
  destruct Hc as (s' & Hrun & H'). exists s'. split; [|exact H']. rewrite <-Hrun. reflexivity.
Qed.

Lemma search_harder_run s addr line file :
  tables_ok s -> cache_ok s ->
  find_block (basic_blocks_map s) addr =
    (if re_search file then any_block (basic_blocks_map s) line file else None) ->
  looks_up (search_harder file_prefix re_search blocks_order addr line file) s (find_block (basic_blocks_map s) addr).
Proof.
  intros Ht Hk Hf. unfold search_harder, looks_up. setoid_rewrite (dbind _ _ _ s s); [|done]. cbv beta zeta.
  destruct (re_search file); [|rewrite Hf; by apply not_found_run].
  unfold any_block in Hf. destruct (is_valid _) eqn:Hv; rewrite Hf.
  - by apply any_block_run.
  - apply looks_up_count; [|done|done]. intros s1 (_ & _ & Hm & _ & _) _ Ht1 Hk1.
    apply not_found_run; [done|done|by rewrite Hm].
Qed.

Lemma search_in_file_run s addr line file bbs :
  tables_ok s -> cache_ok s -> addr_to_line addr = (Some file, line) -> basic_blocks_map s !! file = Some bbs ->
  bbs <> [] ->
  looks_up (search_in_file file_prefix re_search blocks_order addr line file bbs) s
    (find_block (basic_blocks_map s) addr).
Proof.
  intros Ht Hk Ha Hb Hne. pose proof (to_wf _ _ Ht _ _ Hb) as Hw.
  destruct (upper_bound_spec line bbs Hw (to_sorted _ _ Ht _ _ Hb)) as (n & Hn & Hl).
  assert (Hf : find_block (basic_blocks_map s) addr = match (match n with O => None | S i => bbs !! i end) with
    Some bb => Some bb | None => any_block (basic_blocks_map s) line file end).
  { unfold find_block. rewrite Ha, Hb. cbn [default from_option id]. rewrite Hl. destruct (match n with O => None | S i => bbs !! i end); [done|].
    by destruct bbs. }
  assert (Hi : forall i, n = S i -> exists bb, bbs !! i = Some bb).
  { intros i ->. apply lookup_lt_is_Some. unfold set_upper_bound in Hn.
    rewrite search_keys_wf in Hn; [|split; [done|by eexists _, _, _, _]|done].
    apply (inj inr) in Hn. pose proof (position_of_le (fun x => (match bbs with [] => 0 | _ =>
      start (mkBlock None [mkSourceLine EmptyString [line]] true) end) <? x) (map start bbs)) as Hle.
    rewrite length_map in Hle. rewrite Hn in Hle. lia. }
  unfold search_in_file, looks_up. setoid_rewrite (dbind _ _ _ s s); [|done]. cbv beta.
  setoid_rewrite (dbind _ _ _ n s); [|unfold lift_exn; by rewrite Hn]. cbv beta. destruct n as [|i].
  - cbv zeta. unfold any_block in Hf. destruct (is_valid (find_in_all line file (basic_blocks_map s))) eqn:Hv; rewrite Hf.
    + by apply any_block_run.
    + apply looks_up_count; [|done|done]. intros s1 (_ & _ & Hm & _ & _) _ Ht1 Hk1.
      assert (Hh : looks_up (search_harder file_prefix re_search blocks_order addr line file) s1
        (find_block (basic_blocks_map s1) addr)).
      { apply search_harder_run; [done|done|]. rewrite Hm, Hf. unfold any_block. rewrite Hv. by destruct (re_search file). }
      by rewrite Hm, Hf in Hh.
  - destruct (Hi i eq_refl) as [bb Hbb]. rewrite Hbb in *. rewrite Hf.
    pose proof (list_elem_of_lookup_2 _ _ _ Hbb) as Hin. pose proof (wf_elem _ _ _ _ Ht Hb Hin) as Hwb.
    assert (Hrem : forall s1, same_report s s1 -> tables_ok s1 -> cache_ok s1 -> looks_up (remember addr bb) s1 (Some bb)).
    { intros s1 (_ & _ & Hm & _ & _) Ht1 Hk1. apply remember_run; try done; [apply Hwb| |by rewrite Hm].
      rewrite Hm. by exists file, bbs. }
    assert (Hc : looks_up ((if start bb =? line then mret tt else count more_not_start);;; remember addr bb) s (Some bb)).
    { destruct (start bb =? line); [|by apply looks_up_count; [intros; apply Hrem| |]].
      destruct (Hrem s) as (s' & Hrun & H'); [done..|]. exists s'. by rewrite (dbind _ _ _ tt s). }
    destruct Hc as (s' & Hrun & H'). exists s'. split; [|done].
    rewrite (dbind _ _ _ (start bb) s); [exact Hrun|]. unfold lift_exn. by rewrite get_start_line_wf.
Qed.

Lemma get_basic_block_run s addr : tables_ok s -> cache_ok s ->
  looks_up (get_basic_block addr) s (find_block (basic_blocks_map s) addr).
Proof.
  intros Ht Hk. unfold Bb2Lines.get_basic_block, looks_up. setoid_rewrite (dbind _ _ _ s s); [|done]. cbv beta.
  destruct (basic_blocks_addr_map s !! addr) as [bb|] eqn:Hb.
  - rewrite (Hk _ _ Hb). destruct (is_valid bb) eqn:Hv; [|by exists s].
    destruct (to_addr _ _ Ht _ _ Hb Hv) as [Hw _].
    exists s. split; [|done]. rewrite (dbind _ _ _ (file_of bb) s) by (unfold lift_exn; by rewrite get_filename_wf).
    cbv beta. by rewrite (dbind _ _ _ (start bb) s) by (unfold lift_exn; by rewrite get_start_line_wf).
  - apply looks_up_count; [|done|done]. intros s1 (_ & _ & Hm & _ & _) _ Ht1 Hk1. unfold looks_up.
    setoid_rewrite (dbind _ _ _ (addr_to_line addr) s1); [|unfold lift_exn; by rewrite lookup_answers]. cbv beta.
    destruct (addr_to_line addr) as [[file|] line] eqn:Ha.
    + rewrite <-Hm. destruct (basic_blocks_map s1 !! file) as [[|b0 bbs]|] eqn:Hf; [|by apply search_in_file_run|];
        apply search_harder_run; try done; unfold find_block; by rewrite Ha, Hf.
    + assert (Hn : find_block (basic_blocks_map s) addr = None) by (unfold find_block; by rewrite Ha). rewrite Hn.
      apply looks_up_count; [|done|done]. intros s2 _ _ Ht2 Hk2.
      apply looks_up_count; [|done|done]. intros s3 _ _ Ht3 Hk3. by exists s3.
Qed.

(** ** The covered lines *)

(** [s'] differs from [s] in the covered lines: those of [new] came in. *)
Definition covers_more (new : string -> Z -> Prop) s s' : Prop :=
  same_tables (mkBB (reader s) (basic_blocks_addr_map s) (covered_lines s') (coverable_lines s) (functions_map s)
    (basic_blocks_map s) (counts s) (out s)) s' /\
  dom (covered_lines s) ⊆ dom (covered_lines s') /\
  forall f l, covers (covered_lines s') f l <-> covers (covered_lines s) f l \/ new f l.

Lemma cover_lines_run f ls : forall s, exists s' r,
  mapM (fun line => set_covered (at_key f (fun x => {[line]} ∪ x))) ls s = inr (r, s') /\
  covers_more (fun g l => g = f /\ l ∈ ls) s s'.
Proof.
  induction ls as [|line ls IH]; intros s.
  { exists s, []. split; [done|]. split; [done|]. split; [done|]. intros g l. rewrite elem_of_nil. tauto. }
  cbn [mapM]. set (s1 := mkBB (reader s) (basic_blocks_addr_map s)
    (at_key f (fun x => {[line]} ∪ x) (covered_lines s)) (coverable_lines s) (functions_map s) (basic_blocks_map s)
    (counts s) (out s)).
  destruct (IH s1) as (s2 & r & Hrun & Hst & Hd & Hc).
  exists s2, (tt :: r). rewrite (dbind _ _ _ tt s1), (dbind _ _ _ _ _ Hrun) by done. split; [done|].
  split; [done|]. split; [cbn in Hd; rewrite dom_at_key in Hd; set_solver|].
  intros g l. rewrite Hc. cbn [covered_lines s1]. rewrite covers_at_key, elem_of_cons.
  destruct (decide (f = g)) as [->|Hne]; [|naive_solver].
  rewrite elem_of_union, elem_of_singleton. unfold covers. naive_solver.
Qed.

Lemma covers_more_trans n1 n2 s1 s2 s3 :
  covers_more n1 s1 s2 -> covers_more n2 s2 s3 -> covers_more (fun f l => n1 f l \/ n2 f l) s1 s3.
Proof.
  intros [(A1 & A2 & A3 & A4 & A5) [D1 C1]] [(B1 & B2 & B3 & B4 & B5) [D2 C2]]. cbn in *.
  split; [unfold same_tables; cbn; split_and!; congruence|]. split; [set_solver|].
  intros f l. rewrite C2, C1. tauto.
Qed.

Lemma covers_more_iff n1 n2 s1 s2 : (forall f l, n1 f l <-> n2 f l) -> covers_more n1 s1 s2 -> covers_more n2 s1 s2.
Proof. intros Hn [Hs [Hd Hc]]. split; [done|]. split; [done|]. intros f l. by rewrite Hc, Hn. Qed.

Lemma cover_block_run bb s : exists s', cover_block bb s = inr (tt, s') /\ covers_more (block_lines bb) s s'.
Proof.
  unfold cover_block. cut (forall sls s, exists s' r,
    mapM (fun sl => mapM (fun line => set_covered (at_key (sl_filename sl) (fun x => {[line]} ∪ x))) (sl_lines sl)) sls s =
      inr (r, s') /\
    covers_more (fun f l => exists ls, mkSourceLine f ls ∈ sls /\ l ∈ ls) s s').
  { intros Hall. destruct (Hall (source_lines bb) s) as (s' & r & Hrun & Hc). exists s'.
    by rewrite (dbind _ _ _ _ _ Hrun). }
  clear s. induction sls as [|[g ls] sls IH]; intros s.
  { exists s, []. split; [done|]. split; [done|]. split; [done|]. intros f l. split; [auto|].
    intros [?|(ls & H & _)]; [done|]. by apply elem_of_nil in H. }
  destruct (cover_lines_run g ls s) as (s1 & r1 & Hrun1 & Hc1). destruct (IH s1) as (s2 & r2 & Hrun2 & Hc2).
  exists s2, (r1 :: r2). cbn [mapM sl_filename sl_lines]. rewrite (dbind _ _ _ _ _ Hrun1), (dbind _ _ _ _ _ Hrun2).
  split; [done|]. eapply covers_more_iff; [|by eapply covers_more_trans]. intros f l. cbv beta.
  setoid_rewrite elem_of_cons. naive_solver.
Qed.

Lemma covers_more_ok new s s' : tables_ok s -> cache_ok s ->
  (forall f l, new f l -> covers (coverable_lines s) f l) -> covers_more new s s' -> tables_ok s' /\ cache_ok s'.
Proof.
  intros [Twf Tso Tkey Tcov Taddr Tcd Tf] Hk Hn [(A1 & A2 & A3 & A4 & A5) [Hd Hc]]. cbn in *. split.
  - constructor; rewrite ?A1, ?A3, ?A4; try done; [|set_solver].
    intros f l. rewrite Hc. intros [H|H]; auto.
  - intros addr bb. rewrite A1, A4. apply Hk.
Qed.

(** The lines of the block of an address. *)
Definition addr_lines (m : gmap string (list basic_block)) (addr : Z) (f : string) (l : Z) : Prop :=
  exists bb, find_block m addr = Some bb /\ block_lines bb f l.

Lemma any_block_elem m line file bb : any_block m line file = Some bb -> exists key bbs, m !! key = Some bbs /\ bb ∈ bbs.
Proof.
  unfold any_block. destruct (is_valid _) eqn:Hv; [|done]. intros [= <-]. by eapply find_in_all_elem.
Qed.

Lemma find_block_elem m addr bb : find_block m addr = Some bb -> exists key bbs, m !! key = Some bbs /\ bb ∈ bbs.
Proof.
  unfold find_block. destruct (addr_to_line addr) as [[file|] line]; [|done]. cbv zeta.
  destruct (m !! file) as [bbs|] eqn:Hf; cbn [default from_option id].
  - destruct (last _) as [b|] eqn:Hl.
    + intros [= <-]. exists file, bbs. split; [done|]. apply last_Some_elem_of in Hl.
      by apply list_elem_of_filter in Hl as [_ Hl].
    + destruct bbs; [destruct (re_search file); [|done]|]; apply any_block_elem.
  - destruct (re_search file); [|done]. apply any_block_elem.
Qed.

Lemma addr_lines_coverable s addr f l : tables_ok s -> addr_lines (basic_blocks_map s) addr f l ->
  covers (coverable_lines s) f l.
Proof.
  intros Ht (bb & Hf & Hl). destruct (find_block_elem _ _ _ Hf) as (key & bbs & Hb & Hin). by eapply to_coverable.
Qed.

(** ** The report *)

Lemma cover_line_run line addr s : tables_ok s -> cache_ok s -> stoull 16 line = inr addr ->
  exists s', cover_line file_prefix lookup re_search blocks_order line s = inr (tt, s') /\
    tables_ok s' /\ cache_ok s' /\ coverable_lines s' = coverable_lines s /\
    basic_blocks_map s' = basic_blocks_map s /\ out s' = out s /\
    forall f l, covers (covered_lines s') f l <-> covers (covered_lines s) f l \/ addr_lines (basic_blocks_map s) addr f l.
Proof.
  intros Ht Hk Hl. unfold cover_line. set (s0 := mkBB (reader s) (basic_blocks_addr_map s) (covered_lines s)
    (coverable_lines s) (functions_map s) (basic_blocks_map s) (more_input (counts s)) (out s)).
  assert (Ht0 : tables_ok s0) by (by eapply same_tables_ok; [|exact Ht]).
  destruct (get_basic_block_run s0 addr Ht0 Hk) as (s1 & Hrun & Ht1 & Hk1 & (C1 & C2 & C3 & C4 & _)).
  rewrite (dbind _ _ _ tt s0) by done. cbv beta.
  rewrite (dbind _ _ _ addr s0) by (unfold lift_exn; by rewrite Hl). cbv beta.
  rewrite (dbind _ _ _ _ _ Hrun). cbn [basic_blocks_map s0] in *. unfold addr_lines.
  destruct (find_block (basic_blocks_map s) addr) as [bb|] eqn:Hf.
  - destruct (cover_block_run bb s1) as (s2 & Hrun2 & Hc2). exists s2. split; [exact Hrun2|].
    pose proof Hc2 as [(A1 & A2 & A3 & A4 & A5) [Hd Hc]]. cbn in A1, A2, A3, A4, A5.
    assert (Hbl : forall f l, block_lines bb f l -> covers (coverable_lines s1) f l).
    { intros f l Hbl. rewrite C2. apply (addr_lines_coverable s addr); [done|by exists bb]. }
    destruct (covers_more_ok _ _ _ Ht1 Hk1 Hbl Hc2) as [Ht2 Hk2].
    split_and!; try done; [by rewrite A3, C2|by rewrite A4, C3|by rewrite A5, C4|].
    intros f l. rewrite Hc, C1. cbn. naive_solver.
  - exists s1. split_and!; try done. intros f l. rewrite C1. naive_solver.
Qed.

Lemma cover_input_run input : forall addrs s, tables_ok s -> cache_ok s ->
  Forall2 (fun line addr => stoull 16 line = inr addr) input addrs ->
  exists s' r, mapM (cover_line file_prefix lookup re_search blocks_order) input s = inr (r, s') /\
    tables_ok s' /\ cache_ok s' /\ coverable_lines s' = coverable_lines s /\
    basic_blocks_map s' = basic_blocks_map s /\ out s' = out s /\
    forall f l, covers (covered_lines s') f l <->
      covers (covered_lines s) f l \/ exists addr, addr ∈ addrs /\ addr_lines (basic_blocks_map s) addr f l.
Proof.
  induction input as [|line input IH]; intros addrs s Ht Hk Hin; inversion Hin as [|? addr ? addrs' Ha Has]; subst.
  { exists s, []. split_and!; try done. intros f l. split; [auto|]. intros [?|(a & H & _)]; [done|].
    by apply elem_of_nil in H. }
  destruct (cover_line_run line addr s Ht Hk Ha) as (s1 & Hrun1 & Ht1 & Hk1 & A1 & A2 & A3 & Hc1).
  destruct (IH addrs' s1 Ht1 Hk1 Has) as (s2 & r & Hrun2 & Ht2 & Hk2 & B1 & B2 & B3 & Hc2).
  exists s2, (tt :: r). cbn [mapM]. rewrite (dbind _ _ _ _ _ Hrun1), (dbind _ _ _ _ _ Hrun2).
  split_and!; try done; try congruence. intros f l. rewrite Hc2, Hc1, A2. setoid_rewrite elem_of_cons. naive_solver.
Qed.

(** The text of a row; with [-l] the covered lines follow, in ascending order. *)
Definition row_text (info : bool) (m : gmap string (gset Z)) (e : string * gset Z) : list string :=
  (fst e ++ "," ++ print_dec (Z.of_nat (size (snd e))) ++ "," ++ print_dec (count_all_lines_in_file m (fst e)) ++
   String "010" EmptyString)%string ::
  (if info then
     map (fun line => (print_dec line ++ String "010" EmptyString)%string) (merge_sort Z.le (elements (snd e))) ++
     [String "010" EmptyString]
   else []).

(** The whole report. *)
Definition coverage_text (info : bool) (m : gmap string (gset Z)) (rows : list (string * gset Z)) : list string :=
  ("file,lines_covered,lines_total" ++ String "010" EmptyString)%string :: concat (map (row_text info m) rows).

(** Only the output grew. *)
Definition printed (t : list string) s : bb2lines R :=
  mkBB (reader s) (basic_blocks_addr_map s) (covered_lines s) (coverable_lines s) (functions_map s)
    (basic_blocks_map s) (counts s) (out s ++ t).

Lemma rows_printed_nil s : printed [] s = s.
Proof. destruct s. unfold printed. cbn. by rewrite app_nil_r. Qed.

Lemma rows_printed_app t1 t2 s : printed t2 (printed t1 s) = printed (t1 ++ t2) s.
Proof. unfold printed. cbn. by rewrite app_assoc. Qed.

Lemma print_all_run {A} (f : A -> string) l : forall s, exists r,
  mapM (fun x => print (f x)) l s = inr (r, printed (map f l) s).
Proof.
  induction l as [|x l IH]; intros s; [exists []; by rewrite rows_printed_nil|].
  destruct (IH (printed [f x] s)) as (r & Hrun). exists (tt :: r). cbn [mapM].
  rewrite (dbind _ _ _ tt (printed [f x] s)), (dbind _ _ _ _ _ Hrun) by done. by rewrite rows_printed_app.
Qed.

Lemma coverage_row_run info m e s : coverage_row info m e s = inr (tt, printed (row_text info m e) s).
Proof.
  destruct e as [f lines]. unfold coverage_row, row_text. cbn [fst snd]. set (t := (f ++ _)%string).
  rewrite (dbind _ _ _ tt (printed [t] s)) by done. cbv beta. destruct info; [|done].
  destruct (print_all_run (fun line => (print_dec line ++ String "010" EmptyString)%string)
    (merge_sort Z.le (elements lines)) (printed [t] s)) as (r & Hrun).
  rewrite (dbind _ _ _ _ _ Hrun). unfold print, modify. rewrite rows_printed_app. unfold printed. cbn. by rewrite <-!app_assoc.
Qed.

Lemma coverage_rows_run info m l : forall s, exists r,
  mapM (coverage_row info m) l s = inr (r, printed (concat (map (row_text info m) l)) s).
Proof.
  induction l as [|e l IH]; intros s; [exists []; by rewrite rows_printed_nil|].
  destruct (IH (printed (row_text info m e) s)) as (r & Hrun). exists (tt :: r). cbn [mapM map concat].
  rewrite (dbind _ _ _ _ _ (coverage_row_run info m e s)), (dbind _ _ _ _ _ Hrun). by rewrite rows_printed_app.
Qed.

Lemma printed_ok t s : tables_ok s -> tables_ok (printed t s).
Proof. by intros []. Qed.

(** *** The conversion of addresses *)

(** The rows of a block: address, file, line. *)
Definition block_row (addr : Z) (sl : source_line) (line : Z) : string :=
  ("0x" ++ print_digits 16 16 addr EmptyString ++ "," ++ sl_filename sl ++ "," ++ print_int (s32 line) ++
   String "010" EmptyString)%string.
Definition block_rows (addr : Z) (bb : basic_block) : list string :=
  concat (map (fun sl => map (block_row addr sl) (sl_lines sl)) (source_lines bb)).

Lemma print_block_run addr bb s : print_block addr bb s = inr (tt, printed (block_rows addr bb) s).
Proof.
  unfold block_rows.
  assert (Hall : forall l s, exists r, mapM (fun sl => mapM (fun line => print (block_row addr sl line)) (sl_lines sl)) l s =
    inr (r, printed (concat (map (fun sl => map (block_row addr sl) (sl_lines sl)) l)) s)).
  { clear s. induction l as [|sl l IH]; intros s; [exists []; by rewrite rows_printed_nil|].
    destruct (print_all_run (block_row addr sl) (sl_lines sl) s) as (r1 & H1).
    destruct (IH (printed (map (block_row addr sl) (sl_lines sl)) s)) as (r2 & H2). exists (r1 :: r2). cbn [mapM map concat].
    rewrite (dbind _ _ _ _ _ H1), (dbind _ _ _ _ _ H2). by rewrite rows_printed_app. }
  destruct (Hall (source_lines bb) s) as (r & Hr). unfold print_block.
  etrans; [apply (dbind _ _ _ _ _ Hr)|]. done.
Qed.

(** What is printed for an address. *)
Definition converted (m : gmap string (list basic_block)) (addr : Z) : list string :=
  match find_block m addr with Some bb => block_rows addr bb | None => [] end.

Lemma convert_line_run line addr s : tables_ok s -> cache_ok s -> stoull 16 line = inr addr ->
  exists s', convert_line file_prefix lookup re_search blocks_order line s = inr (tt, s') /\
    tables_ok s' /\ cache_ok s' /\ basic_blocks_map s' = basic_blocks_map s /\
    out s' = out s ++ converted (basic_blocks_map s) addr.
Proof.
  intros Ht Hk Hl. unfold convert_line. set (s0 := mkBB (reader s) (basic_blocks_addr_map s) (covered_lines s)
    (coverable_lines s) (functions_map s) (basic_blocks_map s) (more_input (counts s)) (out s)).
  assert (Ht0 : tables_ok s0) by (by eapply same_tables_ok; [|exact Ht]).
  destruct (get_basic_block_run s0 addr Ht0 Hk) as (s1 & Hrun & Ht1 & Hk1 & (C1 & C2 & C3 & C4 & _)).
  rewrite (dbind _ _ _ tt s0) by done. cbv beta.
  rewrite (dbind _ _ _ addr s0) by (unfold lift_exn; by rewrite Hl). cbv beta.
  rewrite (dbind _ _ _ _ _ Hrun). cbn [basic_blocks_map s0] in *. unfold converted.
  destruct (find_block (basic_blocks_map s) addr) as [bb|].
  - rewrite print_block_run. eexists. split; [reflexivity|]. cbn [printed basic_blocks_map out].
    split; [by apply printed_ok|]. split; [exact Hk1|]. split; [exact C3|]. by rewrite C4.
  - exists s1. rewrite app_nil_r. done.
Qed.

Lemma convert_input_run input : forall addrs s, tables_ok s -> cache_ok s ->
  Forall2 (fun line addr => stoull 16 line = inr addr) input addrs ->
  exists s' r, mapM (convert_line file_prefix lookup re_search blocks_order) input s = inr (r, s') /\
    basic_blocks_map s' = basic_blocks_map s /\
    out s' = out s ++ concat (map (converted (basic_blocks_map s)) addrs).
Proof.
  induction input as [|line input IH]; intros addrs s Ht Hk Hin; inversion Hin as [|? addr ? addrs' Ha Has]; subst.
  { exists s, []. by rewrite app_nil_r. }
  destruct (convert_line_run line addr s Ht Hk Ha) as (s1 & Hrun1 & Ht1 & Hk1 & A1 & A2).
  destruct (IH addrs' s1 Ht1 Hk1 Has) as (s2 & r & Hrun2 & B1 & B2).
  exists s2, (tt :: r). cbn [mapM map concat]. rewrite (dbind _ _ _ _ _ Hrun1), (dbind _ _ _ _ _ Hrun2).
  split_and!; [done|congruence|]. by rewrite B2, A2, A1, <-app_assoc.
Qed.

Lemma convert_basic_blocks_run input addrs s : tables_ok s -> cache_ok s ->
  Forall2 (fun line addr => stoull 16 line = inr addr) input addrs ->
  exists s', convert_basic_blocks file_prefix lookup re_search blocks_order input s = inr (tt, s') /\
    basic_blocks_map s' = basic_blocks_map s /\
    out s' = out s ++ ("basic_block,file,line" ++ String "010" EmptyString)%string ::
      concat (map (converted (basic_blocks_map s)) addrs).
Proof.
  intros Ht Hk Hin. set (t := ("basic_block,file,line" ++ String "010" EmptyString)%string).
  destruct (convert_input_run input addrs (printed [t] s)) as (s' & r & Hrun & Hm & Ho);
    [by apply printed_ok|exact Hk|exact Hin|].
  exists s'. unfold convert_basic_blocks. rewrite (dbind _ _ _ tt (printed [t] s)) by done. cbv beta.
  rewrite (dbind _ _ _ _ _ Hrun). split_and!; [done|exact Hm|]. rewrite Ho. cbn [printed out basic_blocks_map].
  by rewrite <-app_assoc.
Qed.

End Cover.

(** ** The totals *)

Definition total_lines (m : gmap string (gset Z)) : Z := map_fold (fun _ x n => Z.of_nat (size x) + n) 0 m.

Lemma total_lines_insert k x m : m !! k = None -> total_lines (<[k := x]> m) = Z.of_nat (size x) + total_lines m.
Proof. intros Hk. unfold total_lines. rewrite map_fold_insert_L; [done|intros; lia|done]. Qed.

Lemma total_lines_nonneg m : 0 <= total_lines m.
Proof.
  induction m as [|k x m Hk IH] using map_ind; [done|]. rewrite total_lines_insert by done. lia.
Qed.

Lemma total_lines_mono m1 : forall m2, (forall f l, covers m1 f l -> covers m2 f l) -> total_lines m1 <= total_lines m2.
Proof.
  induction m1 as [|k x m1 Hk IH] using map_ind; intros m2 Hc; [apply total_lines_nonneg|].
  rewrite total_lines_insert by done.
  assert (Hx : forall l, l ∈ x -> covers m2 k l).
  { intros l Hl. apply Hc. unfold covers. by rewrite lookup_insert_eq. }
  assert (Hrest : forall f l, covers m1 f l -> covers (delete k m2) f l).
  { intros f l Hl. unfold covers in *. destruct (decide (f = k)) as [->|Hne]; [by rewrite Hk in Hl|].
    rewrite lookup_delete_ne by done. apply (Hc f). by rewrite lookup_insert_ne. }
  specialize (IH _ Hrest). unfold covers in Hx. destruct (m2 !! k) as [y|] eqn:Hy; cbn [default from_option id] in Hx.
  - assert (Hm : m2 = <[k := y]> (delete k m2)) by (by rewrite insert_delete_id). rewrite Hm.
    rewrite total_lines_insert by apply lookup_delete_eq.
    assert (size x <= size y)%nat by (apply subseteq_size; set_solver). lia.
  - assert (Hxe : x = ∅) by set_solver. rewrite Hxe, size_empty.
    rewrite delete_id in IH by done. lia.
Qed.

Lemma count_covered_lines l : forall n k,
  snd (foldl (fun '(files, lines) '(_, x) =>
    (if bool_decide (x = ∅) then files else u32 (files + 1), lines + Z.of_nat (size x))) (n, k) l) =
  k + foldr (fun (e : string * gset Z) n => Z.of_nat (size (snd e)) + n) 0 l.
Proof. induction l as [|[f x] l IH]; intros n k; cbn [foldl foldr snd]; [lia|]. rewrite IH. lia. Qed.

Lemma count_covered_total l m : l ≡ₚ map_to_list m -> snd (count_covered l) = total_lines m.
Proof.
  intros Hl.
  unfold count_covered. rewrite count_covered_lines, Z.add_0_l.
  assert (Hp : forall l1 l2 : list (string * gset Z), l1 ≡ₚ l2 ->
    foldr (fun e n => Z.of_nat (size (snd e)) + n) 0 l1 = foldr (fun e n => Z.of_nat (size (snd e)) + n) 0 l2).
  { induction 1; cbn [foldr]; lia. }
  rewrite (Hp _ _ Hl). unfold total_lines. rewrite map_fold_foldr.
  clear. induction (map_to_list m) as [|[f x] l IH]; cbn [foldr snd uncurry]; [done|]. by rewrite IH.
Qed.
(** The report.  A line of a file is covered exactly if it was before or belongs to
    the block of an address; covered lines are coverable ones, so that no row and
    no total claims more covered than coverable lines, and there is exactly one
    row for each file. *)
Lemma determine_coverage_run {R} file_prefix addr_to_line re_search blocks_order lookup covered_order info input addrs
    (s : bb2lines R) :
  (forall m, blocks_order m ≡ₚ map_to_list m) -> (forall m, covered_order m ≡ₚ map_to_list m) ->
  (forall addr, lookup addr = inr (addr_to_line addr)) ->
  tables_ok file_prefix s -> cache_ok file_prefix addr_to_line re_search blocks_order s ->
  Forall2 (fun line addr => stoull 16 line = inr addr) input addrs ->
  exists covered coverable s',
    determine_coverage file_prefix lookup re_search blocks_order covered_order info input s =
      inr ((covered, coverable), s') /\
    (forall f l, covers (covered_lines s') f l <-> covers (covered_lines s) f l \/
       exists addr, addr ∈ addrs /\
         addr_lines file_prefix addr_to_line re_search blocks_order (basic_blocks_map s) addr f l) /\
    tables_ok file_prefix s' /\ coverable_lines s' = coverable_lines s /\
    out s' = out s ++ coverage_text info (coverable_lines s) (covered_order (covered_lines s')) /\
    (forall f x, (f, x) ∈ covered_order (covered_lines s') ->
       covered_lines s' !! f = Some x /\ Z.of_nat (size x) <= count_all_lines_in_file (coverable_lines s) f) /\
    NoDup (map fst (covered_order (covered_lines s'))) /\
    (forall f, f ∈ dom (coverable_lines s) -> f ∈ map fst (covered_order (covered_lines s'))) /\
    snd covered <= snd coverable.
Proof.
  intros Hbp Hcp Hla Ht Hk Hin.
  destruct (cover_input_run file_prefix addr_to_line re_search blocks_order Hbp lookup Hla input addrs s Ht Hk Hin)
    as (s1 & r1 & Hrun1 & Ht1 & Hk1 & A1 & A2 & A3 & Hc1).
  set (t := ("file,lines_covered,lines_total" ++ String "010" EmptyString)%string).
  destruct (coverage_rows_run info (coverable_lines s1) (covered_order (covered_lines s1)) (printed [t] s1)) as (r2 & Hrun2).
  eexists _, _, _. split.
  { unfold determine_coverage. rewrite (dbind _ _ _ _ _ Hrun1). cbv beta. rewrite (dbind _ _ _ s1 s1) by done. cbv beta.
    rewrite (dbind _ _ _ tt (printed [t] s1)) by done. cbv beta. rewrite (dbind _ _ _ _ _ Hrun2). reflexivity. }
  cbn [printed covered_lines coverable_lines out fst snd]. split_and!.
  - exact Hc1.
  - by destruct Ht1.
  - exact A1.
  - unfold coverage_text. by rewrite A3, A1, <-app_assoc.
  - intros f x Hx. rewrite Hcp in Hx. apply elem_of_map_to_list in Hx. split; [done|].
    unfold count_all_lines_in_file. apply inj_le, subseteq_size. intros l Hl. rewrite <-A1.
    apply (to_covered _ _ Ht1). unfold covers. by rewrite Hx.
  - change (map fst ?l) with (fst <$> l). rewrite (fmap_Permutation fst _ _ (Hcp _)). apply NoDup_fst_map_to_list.
  - intros f Hf. change (map fst ?l) with (fst <$> l). rewrite (fmap_Permutation fst _ _ (Hcp _)).
    rewrite <-A1 in Hf. apply (to_files _ _ Ht1) in Hf. apply elem_of_dom in Hf as [x Hx].
    apply list_elem_of_fmap. exists (f, x). split; [done|]. by apply elem_of_map_to_list.
  - rewrite (count_covered_total _ _ (Hcp _)). cbn [count_all_files_and_lines snd]. apply total_lines_mono.
    apply (to_covered _ _ Ht1).
Qed.
