(* ===== verification/BbMainProps.v ===== *)
(** * bb2lines from the command line to the report

    The words of the command line, the files of the directory, and the whole run
    of BbMain, put together from the reading of the notes (GcnoProps) and the
    lookup of addresses (BbCoverProps). *)
From Stdlib Require Import Ascii String.
From S2P Require Import Prelude LockTypes CxxStd GcovIo GcovIoProps Getopt Bb2Lines BbMain.
From S2P Require Import BbTableProps GcnoProps BbCoverProps.
Local Open Scope list_scope.
Local Open Scope Z_scope.

(** ** The command line *)

(** A setting as it is written; [set_lines] and [set_convert] also as long
    options. *)
Inductive setting :=
  | set_verbose (w : string)
  | set_lines (long : bool)
  | set_prefix (w : string)
  | set_binary (w : string)
  | set_regex (w : string)
  | set_convert (long : bool)
  | other_word (w : string).

Definition setting_words (x : setting) : list string :=
  match x with
  | set_verbose w => ["-v"%string; w]
  | set_lines long => [if long then "--covered-lines-information"%string else "-l"%string]
  | set_prefix w => ["-p"%string; w]
  | set_binary w => ["-b"%string; w]
  | set_regex w => ["-e"%string; w]
  | set_convert long => [if long then "--convert"%string else "-c"%string]
  | other_word w => [w]
  end.

(** Only the words that are no options must not look like one. *)
Definition setting_ok (x : setting) : Prop := match x with other_word w => nonoption w = true | _ => True end.

Definition words_of_settings (l : list setting) : list string := concat (map setting_words l).
Definition other_words (l : list setting) : list string :=
  omap (fun x => match x with other_word w => Some w | _ => None end) l.

Section CommandLine.
Context (regex_of : string -> exn + (string -> bool)).

(** What a setting means. *)
Definition apply_setting (x : setting) (c : settings) : exn + settings :=
  let '(mkSettings v l p b s r cv) := c in
  match x with
  | set_verbose w => match stoi 10 w with inl e => inl e | inr v => inr (mkSettings v l p b s r cv) end
  | set_lines _ => inr (mkSettings v true p b s r cv)
  | set_prefix w => inr (mkSettings v l (Some w) b s r cv)
  | set_binary w => inr (mkSettings v l p (Some w) s r cv)
  | set_regex w => match regex_of w with inl e => inl e | inr r => inr (mkSettings v l p b (Some w) r cv) end
  | set_convert _ => inr (mkSettings v l p b s r true)
  | other_word _ => inr c
  end.

Fixpoint apply_settings (l : list setting) (c : settings) : exn + settings :=
  match l with
  | [] => inr c
  | x :: l => match apply_setting x c with inl e => inl e | inr c => apply_settings l c end
  end.

Definition is_option (x : setting) : bool := match x with other_word _ => false | _ => true end.

Lemma lines_flag A N O ws rest : Forall (fun w => nonoption w = true) ws ->
  getopt_long optstring options (pieces A N O (ws ++ "--covered-lines-information"%string :: rest)) =
  inr (Some ("l"%char, None), pieces (A ++ O) (N ++ ws) ["--covered-lines-information"%string] rest).
Proof.
  intros Hws. by apply (getopt_long_flag optstring options (mkLong "covered-lines-information" no_argument "l") A N O ws rest).
Qed.
Lemma convert_flag A N O ws rest : Forall (fun w => nonoption w = true) ws ->
  getopt_long optstring options (pieces A N O (ws ++ "--convert"%string :: rest)) =
  inr (Some ("c"%char, None), pieces (A ++ O) (N ++ ws) ["--convert"%string] rest).
Proof.
  intros Hws. by apply (getopt_long_flag optstring options (mkLong "convert" no_argument "c") A N O ws rest).
Qed.

(** One round of the loop. *)
Lemma option_round fuel x ws A N O rest c c1 :
  Forall (fun w => nonoption w = true) ws -> is_option x = true -> apply_setting x c = inr c1 ->
  option_loop regex_of (S fuel) c (pieces A N O (ws ++ setting_words x ++ rest)) =
  option_loop regex_of fuel c1 (pieces (A ++ O) (N ++ ws) (setting_words x) rest).
Proof.
  intros Hws Hx Hc. cbn [option_loop].
  destruct x as [w|[]|w|w|w|[]|w]; [..|done]; destruct c as [v li p b s r cv]; cbn [apply_setting setting_words app] in *.
  2: rewrite lines_flag by done.
  7: rewrite convert_flag by done.
  all: change "-v"%string with (dash "v"); change "-l"%string with (dash "l"); change "-p"%string with (dash "p");
    change "-b"%string with (dash "b"); change "-e"%string with (dash "e"); change "-c"%string with (dash "c").
  all: rewrite ?getopt_flag by done.
  all: unfold option_step; cbn [lo_val Ascii.eqb Bool.eqb andb].
  all: rewrite ?next_word_pieces; cbn [app].
  - destruct (stoi 10 w); [done|]. by injection Hc as <-.
  - by injection Hc as <-.
  - by injection Hc as <-.
  - by injection Hc as <-.
  - by injection Hc as <-.
  - destruct (regex_of w); [done|]. by injection Hc as <-.
  - by injection Hc as <-.
  - by injection Hc as <-.
Qed.

Lemma option_loop_settings l : forall fuel ws A N O c c',
  Forall (fun w => nonoption w = true) ws -> Forall setting_ok l -> (length l < fuel)%nat ->
  apply_settings l c = inr c' ->
  exists g, option_loop regex_of fuel c (pieces A N O (ws ++ words_of_settings l)) = inr (go c' g) /\
    (optind g <= length (argv g))%nat /\ drop (optind g) (argv g) = N ++ ws ++ other_words l.
Proof.
  induction l as [|x l IH]; intros fuel ws A N O c c' Hws Hok Hf Ha.
  { injection Ha as <-. destruct fuel as [|fuel]; [simpl in Hf; lia|]. cbn [words_of_settings map concat option_loop].
    rewrite app_nil_r. destruct (getopt_end optstring options A N O ws Hws) as (g & Hg & Hargv & Hi).
    exists g. rewrite Hg. split; [done|]. rewrite Hargv, Hi. split; [rewrite !length_app; lia|].
    cbn [other_words omap list_omap]. by rewrite drop_app_length, app_nil_r. }
  apply Forall_cons in Hok as [Hx Hok]. cbn [apply_settings] in Ha. cbn [length] in Hf.
  destruct (apply_setting x c) as [e|c1] eqn:Hc1; [done|].
  change (words_of_settings (x :: l)) with (setting_words x ++ words_of_settings l).
  destruct (is_option x) eqn:Hx2.
  - destruct fuel as [|fuel]; [lia|]. rewrite (option_round _ _ _ _ _ _ _ _ _ Hws Hx2 Hc1).
    destruct (IH fuel [] (A ++ O) (N ++ ws) (setting_words x) c1 c' (Forall_nil_2 _) Hok ltac:(lia) Ha) as (g & Hg & Hi & Hd).
    exists g. split; [exact Hg|]. split; [done|]. rewrite Hd, <-app_assoc. by destruct x.
  - destruct x as [| | | | | |w]; try done. cbn [setting_words setting_ok] in *.
    destruct (IH fuel (ws ++ [w]) A N O c1 c') as (g & Hg & Hi & Hd); [|done|lia|done|].
    + apply Forall_app. split; [done|by constructor].
    + destruct c. injection Hc1 as <-. exists g. rewrite <-app_assoc in Hg. split; [exact Hg|]. split; [done|]. rewrite Hd.
      cbn [other_words omap list_omap]. by rewrite <-app_assoc.
Qed.

Lemma settings_length l : (length l <= length (words_of_settings l))%nat.
Proof.
  induction l as [|x l IH]; [done|]. change (words_of_settings (x :: l)) with (setting_words x ++ words_of_settings l).
  rewrite length_app. destruct x; cbn [length setting_words]; lia.
Qed.

(** The settings of a command line that has the directory, the prefix and the
    binary. *)
Lemma read_command_line_settings prog l c dirname prefix bin :
  Forall setting_ok l -> apply_settings l default_settings = inr c ->
  last (other_words l) = Some dirname -> dirname <> EmptyString ->
  file_prefix c = Some prefix -> binary c = Some bin ->
  read_command_line regex_of (prog :: words_of_settings l) = inr (inr (c, (dirname, prefix, bin))).
Proof.
  intros Hok Ha Hl Hd Hp Hb. unfold read_command_line. rewrite pieces_init.
  destruct (option_loop_settings l (S (unread (pieces [prog] [] [] (words_of_settings l)))) [] [prog] [] []
    default_settings c (Forall_nil_2 _) Hok) as (g & Hg & Hi & Hdrop); [|done|].
  - change (unread (pieces [prog] [] [] (words_of_settings l))) with (letters (drop 0 (words_of_settings l))).
    rewrite drop_0.
    pose proof (letters_length (words_of_settings l)). pose proof (settings_length l). lia.
  - cbn [app] in Hg. rewrite Hg. unfold dirname_of, word_at. rewrite (proj2 (Nat.leb_le _ _) Hi), Hdrop.
    cbn [app]. rewrite Hl. cbn [default from_option id]. rewrite Hp, Hb. by rewrite (proj2 (String.eqb_neq _ _) Hd).
Qed.

(** Every command line is read to its end. *)
Lemma option_step_more opt c g c' g' : in_order g -> option_step regex_of opt c g = inr (go c' g') ->
  in_order g' /\ (unread g' <= unread g)%nat.
Proof.
  intros Ho. unfold option_step. destruct c as [v l p b s r cv].
  assert (Hw : forall k, match next_word g with inl e => inl e | inr (w, g) =>
      match k w with inl e => inl e | inr c => inr (go c g) end end = inr (go c' g') ->
    in_order g' /\ (unread g' <= unread g)%nat).
  { intros k. destruct (next_word g) as [|[w g1]] eqn:Hn; [done|]. destruct (k w); [done|]. intros [= _ <-].
    by eapply next_word_unread. }
  cbv zeta. repeat (destruct (Ascii.eqb opt _);
    [first [apply Hw|apply (Hw (fun w => inr (mkSettings v l w b s r cv)))
           |apply (Hw (fun w => inr (mkSettings v l p w s r cv)))|done|intros [= _ <-]; split; [done|lia]]|]). done.
Qed.

Lemma option_step_ends (regex_ends : forall w, regex_of w <> inl out_of_fuel) opt c g :
  option_step regex_of opt c g <> inl out_of_fuel.
Proof.
  unfold option_step. destruct c as [v l p b s r cv].
  assert (Hw : forall k : option string -> exn + settings, (forall w, k w <> inl out_of_fuel) ->
    match next_word g with inl e => inl e | inr (w, g) =>
      match k w with inl e => inl e | inr c => inr (go c g) end end <> inl out_of_fuel).
  { intros k Hk. unfold next_word, word_at. destruct (_ <=? _)%nat; [|done].
    specialize (Hk (argv g !! optind g)). destruct (k _); congruence. }
  cbv zeta. destruct (Ascii.eqb opt "v").
  { apply Hw. intros [w|]; [|done]. unfold stoi. repeat case_match; congruence. }
  destruct (Ascii.eqb opt "h"); [done|]. destruct (Ascii.eqb opt "l"); [done|].
  destruct (Ascii.eqb opt "p"); [by apply (Hw (fun w => inr (mkSettings v l w b s r cv)))|].
  destruct (Ascii.eqb opt "b"); [by apply (Hw (fun w => inr (mkSettings v l p w s r cv)))|].
  destruct (Ascii.eqb opt "e"); [|by destruct (Ascii.eqb opt "c")].
  apply Hw. intros [w|]; [|done]. specialize (regex_ends w). destruct (regex_of w); congruence.
Qed.

Lemma option_loop_total (regex_ends : forall w, regex_of w <> inl out_of_fuel) fuel : forall c g,
  in_order g -> (unread g < fuel)%nat -> option_loop regex_of fuel c g <> inl out_of_fuel.
Proof.
  induction fuel as [|fuel IH]; intros c g Ho Hf; [lia|]. cbn [option_loop].
  destruct (getopt_long optstring options g) as [e|[[[opt arg]|] g1]] eqn:Hg; [|..|done].
  { apply getopt_long_error in Hg as [m ->]. done. }
  destruct (getopt_long_unread _ _ _ _ _ Ho Hg) as [Ho1 H1].
  pose proof (option_step_ends regex_ends opt c g1) as He.
  destruct (option_step regex_of opt c g1) as [e|[code|c2 g2]] eqn:Hs; [congruence|done|].
  destruct (option_step_more _ _ _ _ _ Ho1 Hs) as [Ho2 H2]. apply IH; [done|lia].
Qed.

Lemma read_command_line_total (regex_ends : forall w, regex_of w <> inl out_of_fuel) words :
  read_command_line regex_of words <> inl out_of_fuel.
Proof.
  unfold read_command_line.
  assert (Ho : in_order (getopt_init words)) by (split; cbn; lia).
  pose proof (option_loop_total regex_ends (S (unread (getopt_init words))) default_settings _ Ho ltac:(lia)) as Ht.
  destruct (option_loop _ _ _ _) as [e|[code|c g]]; [congruence|done|].
  unfold dirname_of, word_at. destruct (_ <=? _)%nat; [|done]. repeat case_match; done.
Qed.
End CommandLine.

(** ** The files of a directory *)

(** The entries below a directory, each one before those below itself. *)
Fixpoint paths_below (dir : string) (n : node) : list string :=
  match n with
  | leaf => []
  | directory _ entries =>
      concat (map (fun e => join_path dir (fst e) :: paths_below (join_path dir (fst e)) (snd e)) entries)
  end.

Fixpoint all_readable (n : node) : bool :=
  match n with
  | leaf => true
  | directory readable entries => readable && forallb (fun e => all_readable (snd e)) entries
  end.

Definition paths_of (entries : list (string * node)) (dir : string) : list string := paths_below dir (directory true entries).
Definition iterator_paths (it : dir_iterator) : list string := concat (map (fun l => paths_of (snd l) (fst l)) it).
Definition iterator_count (it : dir_iterator) : nat := sum_list_with (fun l => entry_count (directory true (snd l))) it.
Definition iterator_readable (it : dir_iterator) : bool := forallb (fun l => all_readable (directory true (snd l))) it.

Lemma leave_finished_same it :
  iterator_paths (leave_finished it) = iterator_paths it /\ iterator_count (leave_finished it) = iterator_count it /\
  iterator_readable (leave_finished it) = iterator_readable it /\ leave_finished (leave_finished it) = leave_finished it.
Proof. by induction it as [|[dir [|e rest]] it IH]. Qed.

(** The walk visits every entry, in this order. *)
Lemma list_files_run fuel : forall it acc, leave_finished it = it -> iterator_readable it = true ->
  (iterator_count it <= fuel)%nat -> list_files fuel it acc = inr (acc ++ iterator_paths it).
Proof.
  induction fuel as [|fuel IH]; intros it acc Hl Hr Hc; destruct it as [|[dir [|[name n] rest]] outer];
    try (cbn; by rewrite app_nil_r).
  - exfalso. pose proof (f_equal length Hl) as Hlen. assert (length (leave_finished outer) <= length outer)%nat.
    { clear. induction outer as [|[d [|e r]] o IH]; cbn; lia. }
    cbn in Hlen. lia.
  - cbn in Hc. lia.
  - exfalso. pose proof (f_equal length Hl) as Hlen. assert (length (leave_finished outer) <= length outer)%nat.
    { clear. induction outer as [|[d [|e r]] o IH]; cbn; lia. }
    cbn in Hlen. lia.
  - cbn [list_files]. unfold iterator_readable in Hr. cbn [forallb snd all_readable andb] in Hr.
    apply andb_true_iff in Hr as [Hr Ho]. apply andb_true_iff in Hr as [Hn Hr].
    unfold iterator_count in Hc. cbn [sum_list_with snd entry_count] in Hc.
    destruct n as [|[] entries]; cbn [increment]; [| |done].
    + destruct (leave_finished_same ((dir, rest) :: outer)) as (P & C & D & F).
      rewrite IH; [|done|rewrite D|rewrite C].
      * rewrite P, <-app_assoc. done.
      * unfold iterator_readable. cbn [forallb snd all_readable andb]. by rewrite Hr.
      * unfold iterator_count. cbn [sum_list_with snd entry_count]. lia.
    + destruct (leave_finished_same ((join_path dir name, entries) :: (dir, rest) :: outer)) as (P & C & D & F).
      rewrite IH; [|done|rewrite D|rewrite C].
      * rewrite P, <-app_assoc. f_equal. unfold iterator_paths. cbn [map concat fst snd]. unfold paths_of.
        cbn [paths_below map concat fst snd app]. by rewrite <-app_assoc.
      * unfold iterator_readable. cbn [forallb snd all_readable andb] in Hn |- *. by rewrite Hn, Hr.
      * unfold iterator_count. cbn [sum_list_with snd entry_count] in Hc |- *. lia.
Qed.

Lemma get_all_files_run filesystem dirPath entries :
  filesystem dirPath = Some (directory true entries) -> all_readable (directory true entries) = true ->
  get_all_files_in_dir filesystem dirPath = inr (paths_of entries dirPath).
Proof.
  intros Hf Hr. unfold get_all_files_in_dir. rewrite Hf.
  destruct (leave_finished_same [(dirPath, entries)]) as (P & C & D & F). rewrite list_files_run; [|done|..].
  - rewrite P. unfold iterator_paths. cbn [map concat fst snd]. by rewrite app_nil_r.
  - rewrite D. unfold iterator_readable. cbn [forallb snd]. by rewrite Hr.
  - rewrite C. unfold iterator_count. cbn [sum_list_with snd]. lia.
Qed.

(** A directory below that cannot be opened ends the walk in undefined behaviour. *)
Example unreadable_directory :
  get_all_files_in_dir (fun _ => Some (directory true [("a"%string, directory false [])])) "d" =
  inl (undefined "path of the end iterator").
Proof. reflexivity. Qed.

(** ** The notes of a directory *)

(** A file of notes. *)
Record notes_file := mkNotes {
  nf_swapped : bool; nf_version : Z; nf_stamp : Z; nf_unexecuted : Z; nf_notes : list note }.
Definition notes_words (f : notes_file) : list Z :=
  enc_file (nf_swapped f) (nf_version f) (nf_stamp f) (nf_unexecuted f) (nf_notes f).
Definition notes_ok (f : notes_file) : Prop :=
  Forall is_u32 [nf_version f; nf_stamp f; nf_unexecuted f] /\ Forall note_ok (nf_notes f) /\
  Z.of_nat (length (notes_words f)) < 2 ^ 30.

Section Notes.
Context {R : Type} `{GcovReader R} (fopen : string -> option (list Z)) `{!GcovReaderLaws R fopen}.
Context (prefix : string) (notes_of : string -> option notes_file) (fuel : nat).
Implicit Types s : bb2lines R.

(** A name either cannot be opened or holds well-formed notes, which the fuel is
    enough for. *)
Definition stored (name : string) : Prop :=
  match notes_of name with
  | None => fopen name = None
  | Some f => fopen name = Some (file_bytes (notes_words f)) /\ notes_ok f /\ (length (notes_words f) < fuel)%nat
  end.

Definition file_blocks (name : string) : list basic_block :=
  match notes_of name with
  | Some f => if is_gcno name then note_blocks false 0 (nf_notes f) else []
  | None => []
  end.

(** One of the files does not fit into the first buffer of the reader, and the name
    or the source of one of its functions is copied too late. *)
Definition stale_notes (names : list string) (m : string) : Prop :=
  exists name f s, name ∈ names /\ notes_of name = Some f /\ FIRST_BUFFER < Z.of_nat (length (notes_words f)) /\
    stale_name fopen prefix (notes_words f) (nf_swapped f) false 0 (nf_notes f) s m.

Lemma read_file_run names name s : name ∈ names -> (is_gcno name = true -> stored name) -> rd_closed (reader s) ->
  tables_ok prefix s ->
  gives (stale_notes names) (if is_gcno name then read_graph_file prefix fuel name else mret tt) s
    (fun _ s' => rd_closed (reader s') /\ grows prefix (file_blocks name) s s').
Proof.
  intros Hin Hst Hc Ht. unfold stored, file_blocks in *.
  destruct (is_gcno name) eqn:Hg.
  2:{ eapply gives_run; [done|]. split; [done|]. by destruct (notes_of name); apply grows_nil. }
  specialize (Hst eq_refl). destruct (notes_of name) as [f|] eqn:Hf.
  - destruct Hst as (Hfile & (Hhdr & Hok & HW) & Hfuel). eapply gives_weaken.
    + eapply gives_conseq with (P := fun _ s' => rd_closed (reader s') /\
          grows prefix (note_blocks false 0 (nf_notes f)) s s' /\ registered prefix (notes_words f) (note_functions (nf_notes f)) s s').
      2:{ intros _ s' (H1 & H2 & _). exact (conj H1 H2). }
      apply (read_graph_file_run fopen prefix (notes_words f) (nf_swapped f) fuel name (nf_version f)
        (nf_stamp f) (nf_unexecuted f) (nf_notes f) s); try done. by apply enc_file_u32.
    + intros m Hl. exists name, f, s. split_and!; try done. apply Hl.
  - destruct (law_missing name _ Hc Hst) as (r & Hr & Hc'). unfold read_graph_file.
    eapply lift_step; [exact Hr|]. cbn [negb]. eapply gives_run; [done|]. split; [done|].
    by apply same_tables_grows.
Qed.

Lemma read_files_run names all : forall s, names ⊆ all ->
  (forall name, name ∈ all -> is_gcno name = true -> stored name) -> rd_closed (reader s) -> tables_ok prefix s ->
  gives (stale_notes all)
    (mapM (fun name => if is_gcno name then read_graph_file prefix fuel name else mret tt) names) s
    (fun _ s' => rd_closed (reader s') /\ grows prefix (concat (map file_blocks names)) s s').
Proof.
  induction names as [|name names IH]; intros s Hsub Hst Hc Ht; cbn [mapM map concat].
  { eapply gives_run; [done|]. split; [done|]. by apply grows_nil. }
  apply gives_bind. eapply gives_conseq; [apply read_file_run; [set_solver|apply Hst; set_solver|done|done]|].
  intros [] s1 [Hc1 Hg1]. apply gives_bind. eapply gives_conseq; [apply IH; [set_solver|done|done|apply Hg1]|].
  intros r s2 [Hc2 Hg2]. eapply gives_run; [done|]. split; [done|]. by eapply grows_app.
Qed.
End Notes.

(** ** The whole program *)

(** An image that addresses can be looked up in. *)
Definition usable {symbol} (k : @kernel_bfd symbol) : Prop :=
  match k with kernel_open _ garbage_table => False | kernel_open _ _ => True | _ => False end.
Definition line_of {symbol} (k : @kernel_bfd symbol) (addr : Z) : option string * Z :=
  match file_and_line k addr with inr a => a | inl _ => (None, 0) end.

Lemma usable_lookup {symbol} (k : @kernel_bfd symbol) addr : usable k -> file_and_line k addr = inr (line_of k addr).
Proof.
  unfold line_of, file_and_line, addr_to_line.
  by destruct k as [| |b [|tab|]].
Qed.

(** The rows of a report: one for each file, with exactly the [lines], and not
    more of them than can be covered. *)
Record rows_ok (coverable : gmap string (gset Z)) (lines : string -> Z -> Prop) (rows : list (string * gset Z)) : Prop := {
  ro_once : NoDup (map fst rows);
  ro_lines : forall f l, (exists x, (f, x) ∈ rows /\ l ∈ x) <-> lines f l;
  ro_counts : forall f x, (f, x) ∈ rows -> Z.of_nat (size x) <= count_all_lines_in_file coverable f;
  ro_files : forall f, f ∈ dom coverable -> f ∈ map fst rows
}.

Section Run.
Context {R : Type} `{GcovReader R} (fopen : string -> option (list Z)) `{!GcovReaderLaws R fopen} {symbol : Type}.
Context (regex_of : string -> exn + (string -> bool)) (bfd_openr : string -> option (@bfd symbol))
  (filesystem : string -> option node).
Context (blocks_order : gmap string (list basic_block) -> list (string * list basic_block))
  (covered_order : gmap string (gset Z) -> list (string * gset Z)).
Hypothesis blocks_perm : forall m, blocks_order m ≡ₚ map_to_list m.
Hypothesis covered_perm : forall m, covered_order m ≡ₚ map_to_list m.

(** The report of a run on the tables of [s1]. *)
Definition report_ok (c : settings) (prefix : string) (k : @kernel_bfd symbol) (addrs : list Z)
    (s1 : bb2lines R) (text : list string) : Prop :=
  if convert c then
    text = text_line "basic_block,file,line" ::
      concat (map (converted prefix (line_of k) (re_search_pattern c) blocks_order (basic_blocks_map s1)) addrs)
  else exists rows,
    rows_ok (coverable_lines s1) (fun f l => exists addr, addr ∈ addrs /\
      addr_lines prefix (line_of k) (re_search_pattern c) blocks_order (basic_blocks_map s1) addr f l) rows /\
    text = coverage_text (covered_lines_information c) (coverable_lines s1) rows.

Lemma run_report fuel c prefix k files notes_of input addrs r :
  usable k -> (forall name, name ∈ files -> is_gcno name = true -> stored fopen notes_of fuel name) ->
  rd_closed r -> Forall2 (fun line addr => stoull 16 line = inr addr) input addrs ->
  gives (stale_notes fopen prefix notes_of files) (run blocks_order covered_order fuel c prefix k files input) (bb_init r)
    (fun _ s => exists s1, grows prefix (concat (map (file_blocks notes_of) files)) (bb_init r) s1 /\
       report_ok c prefix k addrs s1 (out s)).
Proof.
  intros Hk Hst Hc Hin. unfold run. apply gives_bind.
  eapply gives_conseq; [apply (read_files_run fopen prefix notes_of fuel files files); [done|done|done|apply tables_ok_init]|].
  intros _ s1 [_ Hg]. pose proof Hg as [Hok _ _ Hcov Haddr Hout].
  assert (Hcache : cache_ok prefix (line_of k) (re_search_pattern c) blocks_order s1).
  { intros addr bb. rewrite Haddr. cbn [bb_init basic_blocks_addr_map]. by rewrite lookup_empty. }
  assert (Hlk : forall addr, file_and_line k addr = inr (line_of k addr)) by (intros; by apply usable_lookup).
  destruct (convert c) eqn:Hcv.
  - destruct (convert_basic_blocks_run prefix (line_of k) (re_search_pattern c) blocks_order blocks_perm
      (file_and_line k) Hlk input addrs s1 Hok Hcache Hin) as (s2 & Hrun & Hm & Ho).
    eapply gives_run; [exact Hrun|]. exists s1. split; [done|]. unfold report_ok. rewrite Hcv, Ho, Hout. done.
  - destruct (determine_coverage_run prefix (line_of k) (re_search_pattern c) blocks_order (file_and_line k)
      covered_order (covered_lines_information c) input addrs s1 blocks_perm covered_perm Hlk Hok Hcache Hin)
      as (covered & coverable & s2 & Hrun & Hl & _ & _ & Ho & Hrows & Hnd & Hfiles & _).
    eapply gives_step; [exact Hrun|]. eapply gives_run; [done|]. exists s1. split; [done|]. unfold report_ok.
    rewrite Hcv. exists (covered_order (covered_lines s2)). split; [|by rewrite Ho, Hout]. constructor; [done| | |done].
    + intros f l. etrans; [|etrans; [apply Hl|]].
      * unfold covers. setoid_rewrite covered_perm. setoid_rewrite elem_of_map_to_list. split.
        -- intros (x & -> & Hx). done.
        -- destruct (covered_lines s2 !! f) as [x|]; [|done]. intros Hx. by exists x.
      * rewrite Hcov. unfold covers at 1. cbn [bb_init covered_lines]. rewrite lookup_empty. split; [|auto].
        intros [Hx|]; [by apply elem_of_empty in Hx|done].
    + intros f x Hx. by apply Hrows.
Qed.
End Run.

(** (C29) bb2lines from the command line to the report.  Whatever the order of its
    options and words, a command line that names a directory, a prefix and an
    image that libbfd can use is read as it is meant; the walk through the
    directory finds every file below it; the notes among them - well-formed files
    in either byte order, or names that cannot be opened - fill the tables with
    exactly their blocks and lines; and the report of the addresses on standard
    input is, with [-c], the lines of the block of each address, and otherwise one
    row for each file with exactly the lines of the blocks of the addresses, never
    more than can be covered.  The exit code is 0.  Only one thing can end the run
    in undefined behaviour: the copy of the name or of the source of a function, all
    of whose words have been read, in a file of notes that does not fit into the
    first buffer of the reader ([stale_name]). *)
Theorem bb2lines_correct {R} `{GcovReader R} (fopen : string -> option (list Z)) `{!GcovReaderLaws R fopen} {symbol}
    regex_of (bfd_openr : string -> option (@bfd symbol)) filesystem blocks_order covered_order
    fuel l prog c dirname prefix bin entries notes_of input addrs (r : R) :
  (forall m, blocks_order m ≡ₚ map_to_list m) -> (forall m, covered_order m ≡ₚ map_to_list m) ->
  Forall setting_ok l -> apply_settings regex_of l default_settings = inr c ->
  last (other_words l) = Some dirname -> dirname <> EmptyString ->
  file_prefix c = Some prefix -> binary c = Some bin ->
  let k := snd (binaryread_init bfd_openr bin) in usable k ->
  filesystem dirname = Some (directory true entries) -> all_readable (directory true entries) = true ->
  let files := paths_of entries dirname in
  (forall name, name ∈ files -> is_gcno name = true -> stored fopen notes_of fuel name) ->
  Forall2 (fun line addr => stoull 16 line = inr addr) input addrs -> rd_closed r ->
  match main regex_of bfd_openr filesystem blocks_order covered_order fuel (prog :: words_of_settings l) input r with
  | inr res => exit_code res = 0 /\ exists s1,
      grows prefix (concat (map (file_blocks notes_of) files)) (bb_init r) s1 /\
      report_ok blocks_order c prefix k addrs s1 (out (final res))
  | inl (undefined m) => stale_notes fopen prefix notes_of files m
  | inl _ => False
  end.
Proof.
  intros Hbp Hcp Hok Ha Hl Hd Hp Hb k Hk Hf Hr files Hst Hin Hc. unfold main.
  rewrite (read_command_line_settings regex_of prog l c dirname prefix bin) by done.
  fold k. destruct (binaryread_init bfd_openr bin) as [code k'] eqn:Hi. cbn [snd] in k. subst k.
  rewrite (get_all_files_run filesystem dirname entries) by done. fold files.
  pose proof (run_report fopen blocks_order covered_order Hbp Hcp fuel c prefix k' files notes_of input addrs r
    Hk Hst Hc Hin) as Hrun.
  unfold gives in Hrun. by destruct (run _ _ _ _ _ _ _ _ _) as [[]|[u s]].
Qed.

(** A directory with one file of notes and the name of another in a subdirectory,
    and an image with one section. *)
Definition sample_dir : list (string * node) :=
  [("a.gcno"%string, leaf); ("sub"%string, directory true [("b.gcno"%string, leaf); ("x.c"%string, leaf)])].
Definition sample_fopen (name : string) : option (list Z) :=
  if String.eqb name "d/a.gcno" then Some (file_bytes sample_words) else None.
Definition sample_notes_of (name : string) : option notes_file :=
  if String.eqb name "d/a.gcno" then Some (mkNotes true 875575338 1 1 sample_notes) else None.
Definition sample_bfd : @bfd unit :=
  mkBfd true true 8 0 (Some [tt]) None [mkSection false 0 100; mkSection true 64 64]
    (fun _ _ offset _ => (true, (Some "/src/a.c"%string, None, offset))).
Definition sample_settings : list setting :=
  [other_word "d"; set_binary "vmlinux"; set_lines true; set_prefix "/src/"].
Definition sample_reader : GcovReader gcov_var := gcov_io sample_fopen (fun n => n <=? 2 ^ 30).

Lemma bb2lines_correct_witness :
  exists res, main (H := sample_reader) (fun _ => inl (invalid_argument "regex")) (fun _ => Some sample_bfd)
    (fun _ => Some (directory true sample_dir)) map_to_list map_to_list 100
    ("bb2lines"%string :: words_of_settings sample_settings) ["0x48"%string] gcov_init = inr res /\ exit_code res = 0 /\
  exists (s1 : bb2lines gcov_var) rows, rows_ok (coverable_lines s1) (fun f l => exists addr, addr ∈ [72] /\
    addr_lines "/src/" (line_of (kernel_open sample_bfd (table [tt]))) (fun _ => false) map_to_list
      (basic_blocks_map s1) addr f l) rows /\
    out (final res) = coverage_text true (coverable_lines s1) rows.
Proof.
  assert (Hm : forall n, n <= 2 ^ 30 -> (n <=? 2 ^ 30) = true) by (intros n Hn; by apply Z.leb_le).
  unshelve epose proof (@bb2lines_correct gcov_var sample_reader sample_fopen
    (gcov_io_laws sample_fopen (fun n => n <=? 2 ^ 30) Hm) unit
    (fun _ => inl (invalid_argument "regex")) (fun _ => Some sample_bfd)
    (fun _ => Some (directory true sample_dir)) map_to_list map_to_list 100 sample_settings "bb2lines"
    (mkSettings 0 true (Some "/src/"%string) (Some "vmlinux"%string) None (fun _ => false) false)
    "d" "/src/" "vmlinux" sample_dir sample_notes_of ["0x48"%string] [72] gcov_init _ _ _ _ _ _ _ _ _ _ _ _ _ _) as Hrun.
  1-2: by intros m. 1: by repeat constructor. 1-8: done.
  - intros name Hin Hg. vm_compute in Hin. repeat (apply elem_of_cons in Hin as [->|Hin]; [try done|]); [|by apply elem_of_nil in Hin].
    split; [reflexivity|]. split; [|apply Nat.ltb_lt; vm_compute; reflexivity].
    split; [unfold is_u32; repeat (apply Forall_cons_2; [cbn; lia|]); apply Forall_nil_2|]. split; [exact sample_notes_ok|vm_compute; reflexivity].
  - by repeat constructor.
  - exact closed_init.
  - destruct (main _ _ _ _ _ _ _ _ _) as [e|res].
    + exfalso. destruct e as [| | | |m|]; try done.
      destruct Hrun as (name & f & s & _ & Hf & Hlen & _). unfold sample_notes_of in Hf.
      destruct (String.eqb name _); [|discriminate]. injection Hf as <-. vm_compute in Hlen. discriminate.
    + destruct Hrun as (He & s1 & _ & rows & Hrows & Hout). exists res. split; [reflexivity|]. split; [exact He|].
      by exists s1, rows.
Defined.
